(* ===== verification/_CoqProject ===== *)
-Q . S2P
Prelude.v
GoStr.v
GoLib.v
Syntax.v
Operators.v
Scan.v
Mapper.v
Partition.v
Parser.v
ScanCorrect.v
ParserFacts.v
PartitionFacts.v
ParseCorrect.v
Transform.v
PlanFacts.v
TransformFacts.v
RepoRevs.v
Predicates.v
Validate.v
Printer.v
Types.v
Pipeline.v
ValidateFacts.v
PipelineCorrect.v
TypesFacts.v
Conformance.v
GoMap.v
Versions.v
VersionsFacts.v
ScheduleFacts.v
Migrations.v
MigrationOrder.v
MigrationPlans.v
Dominators.v
CommitGraph.v
CommitGraphCorrect.v
FilePath.v
PathExistence.v
PathContents.v
PathCorrect.v
IdSets.v
IdSetFacts.v
Lsif.v
LsifFacts.v
Canonicalize.v
CanonDocuments.v
CanonChains.v
CanonCorrect.v
CorrelateCorrect.v
Precise.v
PreciseFacts.v
Group.v
GroupFacts.v
GroupMonikers.v
GroupCorrect.v
ConvertCorrect.v
Changesets.v
ReconcilerPlan.v
ReconcilerFacts.v
ChangesetHistory.v
HistoryFacts.v
Reconciler.v
ReconcilerRefine.v
Rewirer.v
ReconcilerConverge.v
RewirerFacts.v
ReconcilerExamples.v
WorkerQueue.v
Float64.v
Window.v
WindowFacts.v
WindowCorrect.v
Scheduler.v
Glob.v
Codeowners.v
Results.v
ResultMerge.v
ResultStreams.v
DiffFormat.v
StreamFilters.v
