(* ===== verification/Prelude.v ===== *)
(** * Verification of a code search and code intelligence server

    The program is a Sourcegraph tree, in Go.  This library models nine parts
    of it that carry logic of their own:

    - the search query language: from the text a user types to the plan of basic
      queries that the search backends run ([internal/search/query], the
      selectors of [internal/search/filter/select.go] and the planning half of
      [internal/search/client/client.go]);
    - instance versions and the schedule of out-of-band migrations
      ([internal/oobmigration]);
    - the graph of schema migrations and the plans of upgrades and downgrades
      ([internal/database/migration/definition]);
    - the commit graph that decides which uploads are visible at a commit
      ([internal/gitserver/gitdomain/commit_graph.go] and
      [enterprise/internal/codeintel/uploads/internal/commitgraph]);
    - the conversion of LSIF dumps and the queries on its result: identifier
      sets, correlation, canonicalization, pruning of documents that are not in
      the git tree, and the grouping into a bundle
      ([lib/codeintel/lsif/conversion], [lib/codeintel/pathexistence] and
      [lib/codeintel/precise]);
    - batch changes: changesets, the rewirer, the plan and the executor of the
      reconciler, the history and counts of changesets, and the rollout windows
      with the scheduler that releases changesets
      ([enterprise/internal/batches]);
    - the queue of database-backed workers, which runs the reconciler
      ([internal/workerutil]);
    - search results: matches, their merging and limiting, the streams of
      conjunctions, disjunctions and limited searches, the filters proposed for
      them, and the text of diffs ([internal/search/result],
      [internal/search/streaming] and [internal/search/job/jobutil]);
    - code ownership: glob patterns and CODEOWNERS files
      ([enterprise/internal/paths] and [enterprise/internal/own/codeowners]).

    ** The program and its parts

    [searchClient.Plan] picks a search type and calls [query.Pipeline] on
    [query.Init] (parse, then the passes of the search type) and on
    [query.SubstituteSearchContexts].  [Pipeline] builds a plan (a disjunction
    of basic queries: parameters and an optional pattern), validates every
    basic query, and attaches [rev:] filters.  Other packages then read the
    plan through the accessors of [types.go], several of which panic on values
    that validation should have rejected.

    The jobs that a plan becomes send events (matches and statistics) to a
    stream.  The job of a conjunction passes a match on when every child has
    sent one with its key; the job of a disjunction does so too, and once its
    children are done it sends the other matches, those that more children
    found first.  Both merge what the children found into the match.  A limiting job cuts its
    child's matches off and cancels it.  The filters shown next to the results
    are the most important of those counted on the way.  The owners of a file
    come from the last rule of a CODEOWNERS file whose glob pattern matches its
    path.

    An upgrade of an instance walks over versions and stops where out-of-band
    migrations have to finish; each stop applies the schema migrations that
    [Definitions.Up] plans.  An upload of code intelligence data is converted by
    [Correlate]: elements of the dump are read into a state, the state is
    brought into canonical form, and documents that git does not have are
    pruned; the rest is grouped into documents, result chunks and rows, on which
    [Query] answers.  The commit graph then tells at which commits the upload is
    used.

    Applying a batch spec gives mappings of changeset specs to changesets, which
    [Rewire] turns into new and changed changesets in the queue.  With rollout
    windows they wait there until the scheduler, at the rate of the window in
    force, hands them on.  A worker dequeues a changeset; [process] loads its
    specs, [DeterminePlan] says which operations bring it to what its spec
    wants, [Run] executes them against gitserver and the code host, and the
    worker records the outcome.  The events of a changeset give its history, its derived state and the burndown chart.

    ** Files and what they model

    - [Prelude]: outcomes of Go calls ([run]: returned, panicked, out of fuel),
      [(T, error)] results, their notation, loops, tactics and hints, lemmas on
      lists.
    - [GoStr], [GoLib]: Go strings as byte lists, UTF-8, and the functions of
      [unicode], [strings] and [strconv] the sources call.  [GoMap]: ranges over
      maps, sorting and machine integers.  [FilePath]: [path/filepath].

    The query language:
    - [Syntax]: nodes, labels (bits of a uint16), fields and aliases, ranges,
      [Exists], [ForAll], the visitors, and the debug strings; from [parser.go],
      [labels.go], [fields.go], [range.go], [visitor.go], [validate.go].
    - [Operators]: [reduce], [NewOperator], [partitionParameters].
    - [Scan]: the scanners of [parser.go], from buffers to values and lengths.
    - [Mapper]: [mapper.go]; callbacks have a state, as Go closures do.
    - [Partition]: [PartitionSearchPattern], [Hoist], [ToBasicQuery].
    - [Parser]: the [parser] struct and its methods as functions on its state.
    - [Transform]: the passes of [transformer.go], [BuildPlan] and
      [ConcatRevFilters].
    - [RepoRevs]: [repo_revs.go].  [Predicates]: [predicate.go].
    - [Validate]: [validate.go], [visibility.go] and [select.go].
    - [Printer]: [printer.go].  [Types]: the methods of [types.go].
    - [Pipeline]: [query.go], the entry points of [parser.go], and the client.
    - [ScanCorrect], [ParserFacts], [PartitionFacts],
      [ParseCorrect], [PlanFacts], [TransformFacts], [ValidateFacts],
      [PipelineCorrect], [TypesFacts]: the theorems.
    - [Conformance]: the definitions evaluated on cases of the repository's own
      tests, with the results these tests expect.

    Versions and migrations:
    - [Versions]: [version.go], [upgrade.go], [downgrade.go], [interrupts.go];
      [VersionsFacts] (with the scan of intervals) and [ScheduleFacts].
    - [Migrations]: [definition.go] and the ordering half of [read.go];
      [MigrationOrder] (with the depth-first search), [MigrationPlans] and
      [Dominators].

    Code intelligence:
    - [CommitGraph]: the two [commit_graph.go] files and [commit_graph_view.go];
      [CommitGraphCorrect].
    - [PathExistence]: [pathexistence]; the tree of directories and
      the batches of requests ([PathContents]) and [PathCorrect].
    - [IdSets]: [IDSet], [DefaultIDSetMap] and [DisjointIDSet] in a module each
      for sets and maps; [IdSetFacts].
    - [Lsif]: [state.go], [types.go], [errors.go], [reader.go] after decoding,
      and the handlers of [correlate.go]; [LsifFacts].
    - [Canonicalize]: [canonicalize.go], [prune.go] and [correlateState], the
      part of [Correlate] before the grouping; [CanonDocuments],
      [CanonChains], [CanonCorrect] and [CorrelateCorrect].
    - [Precise]: the types, hashes, range functions and queries of
      [lib/codeintel/precise]; [PreciseFacts].
    - [Group]: [group.go] and the whole [Correlate]; [GroupFacts],
      [GroupMonikers], [GroupCorrect] and [ConvertCorrect].

    Batch changes and workers:
    - [Changesets]: [types/changeset.go], [changeset_spec.go], [reconciler.go],
      [util.go] and [lib/batches/published.go].
    - [ReconcilerPlan]: [plan.go] and [publication_state.go];
      [ReconcilerFacts].
    - [ChangesetHistory]: [changeset_history.go], [counts.go] and the derived
      states of [state.go]; [HistoryFacts].
    - [Reconciler]: [executor.go] and [reconciler.go], in a monad over the
      executor's fields and the world; [ReconcilerRefine],
      [ReconcilerConverge] and [ReconcilerExamples].
    - [Rewirer]: [rewirer.go]; [RewirerFacts].
    - [WorkerQueue]: the statements of [dbworker/store/store.go] on a row and
      [Worker.handle], and that every record ends.
    - [Float64]: the [float64] operations that estimates use, with the bounds
      that rounding keeps and its errors.
    - [Window]: the package [types/scheduler/window], that is, [weekday.go],
      [time.go], [rate.go], [window.go], [schedule.go] and [config.go];
      [WindowFacts] (openings and validity, the parser) and [WindowCorrect].
    - [Scheduler]: [scheduler.go] and [ticker.go] as a step relation on the
      state of their goroutines, the watcher of [types/scheduler/config], and
      the queries of the queue in [store/changesets.go].

    Search results:
    - [Results]: ranges, matches on a heap, keys, counting, limiting, selecting
      and appending; from [range.go], [match.go], [file.go], [commit.go],
      [symbol.go], [repo.go] and the files beside them.
    - [ResultMerge]: [merger.go], [deduper.go] and [merge.go], and what a merger
      holds after any sequence of additions.
    - [ResultStreams]: [stream.go] and [progress.go], and the jobs of
      [expression_job.go], [limit.go] and [select.go].
    - [DiffFormat]: [commit_diff.go].
    - [StreamFilters]: [filters.go] on [container/heap].

    Code ownership:
    - [Glob]: [match.go] of [paths].
    - [Codeowners]: [parse.go], [file.go] and [repr.go].

    ** Correspondence

    A Go function is a definition of the same name; a closure or loop body that
    needs a name of its own gets one (for example [rev_callback] in
    [ConcatRevFilters]).  A method is a function that takes its receiver first,
    prefixed with the receiver's type where two methods share a name.  A Go
    [error] is a value of an error type of its component; a panic is [Panics];
    [int] quantities that index a buffer are [nat], others are [Z]: [count:]
    keeps the 32-bit range of [strconv.ParseInt], distances of the commit graph
    wrap around at 32 bits.  Closures that assign captured variables pass a
    state.  Slices are lists: where the source appends to a slice it shares, the
    file says why no write is seen through another slice, and where a write is
    seen the array is modelled ([slice], [detach_loop]).  A Go map is a [gmap];
    a [range] over one visits it in an order that the runtime chooses.  Search
    matches and the previews of commits are objects on a heap ([Results]),
    because merging and limiting write through pointers that others hold.  The
    children of a job run concurrently, but what they send goes through a mutex
    or an atomic counter: a run is a sequence of their events, and the theorems
    hold for every sequence.

    ** What the theorems show

    The query language:
    - Totality: [Parse] and the whole pipeline return for every input and every
      environment, with no panic ([Parse_total], [Pipeline_total],
      [Plan_correct]).
    - Well-formedness: ranges lie in the input, operators have two operands or
      more, fields are known ([Parse_ranges], [Parse_well_formed]); plans are
      canonical, free of [Concat], and every accessor of them returns
      ([Pipeline_searchable], [Pipeline_readable]).
    - Meaning: trees and plans denote boolean functions of their leaves
      ([eval], [eval_list], [eval_plan]).  Operator construction, partition,
      distribution into a plan and [ToQ] preserve that meaning
      ([NewOperator_meaning], [PartitionSearchPattern_correct],
      [BuildPlan_equivalent], [ToQ_equivalent]); hoisting keeps the leaves.
    - Single passes: concatenation, escaping, revision filters, search types.
    - Validation: singular and positive fields, and accessors on valid queries.
    - Round trips and orders: quoted literals, repository filters, revisions.

    Versions and migrations: ranges of versions end and are complete
    ([UpgradeRange_correct]); interrupts cover every migration that has to
    finish with as few stops as possible, downwards across migrations that are
    deprecated ([scheduleMigrationInterrupts_correct]); definitions are put in topological
    order exactly when they form a graph with one root and no cycle
    ([NewDefinitions_correct]); plans refine a machine that applies one
    migration at a time ([Up_correct], [Down_correct]); the leaf dominator is
    the nearest one ([LeafDominator_correct]).

    Code intelligence: visible uploads are the nearest ones, by distance and
    identifier, whatever the graph keeps ([UploadsVisibleAtCommit_correct],
    [Gather_lossless], [ParseCommitGraph_correct]); identifier sets and maps
    refine finite sets and maps ([IDSet_refines], [SetMap_refines],
    [ExtractSet_component]; the minimum of a set that holds 0 is an exception,
    [Min_zero]); the existence checker is exact and asks only below directories
    that are not empty ([NewExistenceChecker_exact]); correlation keeps
    references intact, but for the documents of locations, which are those that
    item edges name ([correlateFromReader_ok]); canonicalization terminates in the canonical
    form, which is described without reference to the algorithm
    ([canonicalize_correct] and the theorems on its steps); the conversion as a
    whole returns that form, pruned ([correlateState]); querying the grouped
    bundle gives the state back ([groupBundleData_Query], with the chunks,
    hashes and sorting in between), the rows for other repositories are exact
    ([groupBundleData_rows]), and the two compose: a query on a converted dump
    answers what the dump says ([Correlate_answers]).

    Batch changes: the plan is a table of conditions on the data, written without
    the planner's functions ([DeterminePlan_due]), that is executed in order
    ([ExecutionOrder_correct]); processing never panics ([process_returns]) and,
    when the marked associations can be detached, refines a machine on the fields
    that say what is wanted, which shares no helper with the executor
    ([process_refines]); applying the same spec again plans nothing
    ([reconciled_again]); rewired changesets get the plans that the rewirer
    means ([Rewire_plans]); histories are timelines, and the counts at a time are
    those of the states that the events up to then give by a description of their
    own ([computeHistory_timeline], [CalcCounts_correct],
    [GenerateTimestamps_correct]).  With the clock in UTC a schedule enforces the
    configured rate for as long as it is valid ([Schedule_correct]), estimates end
    and are, up to rounding, the proportional time in the schedule that has room
    ([Estimate_correct]); the scheduler works at the configured rate, enqueues only
    when it is not zero and leaks no goroutine ([scheduler_invariant],
    [scheduler_live]); the queue is first in, first out, up to changesets of one
    time ([queue_fifo]), and the active configuration is the last one accepted
    ([watch_active]).  Workers: a record always ends, after a bounded number of
    attempts ([worker_finishes]), and the outcome of each attempt is recorded
    unless the database fails ([attempt_outcome]).

    Search results: a conjunction sends exactly the matches that all children
    found, as soon as the last one has, and a disjunction those that some child
    found, the ones of all children first, each key once and with what the
    children found for it, in every interleaving ([AndJob_correct],
    [OrJob_correct]); a limiting job sends the first results up to its limit, range
    by range, when no two matches share a preview ([LimitJob_correct]); the filters
    shown are the greatest ones, sorted ([filters_Compute_correct]); diffs can
    be read back from their text ([ParseDiffString_FormatDiffFiles]).

    Code ownership: for patterns of at most 62 parts the bit-vector matcher agrees
    with what a glob pattern denotes ([Match_correct]); the owners of a path are those of the last rule
    that matches ([Ruleset_Match_correct]); printed rules are parsed back
    ([Parse_Repr]).

    Behaviour that differs from the comments in the sources, or is a defect, is
    stated as theorems too: [ForAll_stops_at_operator],
    [substituteConcat_drops_first_operator], [fallback_loses_closing_paren],
    [validateRepoRevPair_last_repo], [UpgradeRange_stuck],
    [scheduleDowngrade_open_panics], [scheduleUpgrade_at_deprecation],
    [NewDefinitions_duplicate_panics], [NewGraph_twice], [Min_zero],
    [compare_not_symmetric], [dots_not_found], [quoted_not_found],
    [ex_unknown_document], [ex_bitbucket_cloud_changes], [ex_tie],
    [parseDirectoryChildren_text_prefix], [next_cycle_diverges],
    [reference_cycle_incomplete], [HashKey_negative],
    [RangeIntersectsSpan_around], [package_key_collides], [detach_two],
    [ex_undraft_swallows], [ex_detach_lost], [ex_archived_reopens],
    [ex_create_fails], [GenerateTimestamps_diverges], [Estimate_stuck],
    [ex_office_hangs], [ex_closing_minute], [ex_local_time], [ex_json_zero],
    [ex_empty_array], [ex_no_default], [ex_at_sign], [ex_no_hunks],
    [ex_empty_diff], [ex_select_twice], [ex_select_enum], [ex_shared_preview],
    [ex_one_source], [ex_twice], [ex_too_long], [ex_empty_path],
    [ex_blank_section], [ex_space_lost], [Parse_fails].

    ** Fuel

    The mutually recursive parser functions take [parse_fuel], three units per
    byte of the input and three more; every call consumes a byte or descends
    one of three levels, and [Parse_total] shows that this is enough.
    [NewOperator] takes the size of its operands, which [reduce] decreases
    ([NewOperator_equation]); [substituteOrForRegexp] the size of the tree
    ([substituteOrForRegexp_equation]); [segments] the length of the buffer.
    [UpgradeRange] and [GenerateTimestamps] take their fuel as an argument, and
    their theorems say how much is enough (302 turns for the counts of changesets,
    since 150 steps of the truncated length cover more than half of the time).  [Estimate] takes the minutes of a week
    and two ([estimate_fuel]), since every turn ends in a later minute; the loops
    over the days of a window take ten days, a week and what the time zone may
    add.  The depth-first search and the traversals of migrations, the
    walk over single parents in the commit graph and the extraction of a
    connected component take the number of nodes; the visits of linked reference
    results and of chains of next edges the number of entries, each of which is
    passed once; the batches of directories the height of the tree; the matching of a
    path its length and one, and the moves of an element in a heap the number
    of elements, since its index moves one way.  Each
    theorem about such a function states that it returns.  All other recursion
    is structural.

    ** Parameters

    Code outside the repository is a class with no law beyond its types:
    [UnicodeTables] (the non-ASCII character classes), [Regexp] (the regular
    expression package) and [External] (the language table, git dates,
    durations).  [GoRuntime] is what Go leaves open: the order of a range over a
    map and of equal elements after sorting, with the promises of the language
    as laws.  [Services] holds what the reconciler calls: the database, gitserver,
    the code hosts, the clock and the text templates; the theorems that need it
    assume that code hosts only populate what they report ([SourcesFrame]).  The
    order that the database gives rows of one time is an argument of the queries
    ([ordering]).
    [FloatConversion] is the integer that a float out of range becomes,
    [Limiters] the rate limiter.  [WildMatch] matches one name with a pattern
    that contains an asterisk and [MailAddress] reads a mail address, both
    without laws; [BitSet] has the laws that its package documents.  The
    lookup of search contexts, the site configuration, the user
    settings, the list of out-of-band migrations, the elements of a dump and the
    output of git are arguments; theorems that need it assume that [git log] and
    [git ls-tree] print what they document.

    ** Not modelled

    [date_format.go] and [LangToFileRegexp] (third-party calendars and tables),
    JSON, SQL and YAML, tracing, and the processes around the modelled parts:
    the other search jobs (sequential, parallel, timeouts, alerts) and the
    backends, services, databases and user interfaces.  Of a changeset's
    metadata the fields are kept that the modelled code reads, and check states
    and labels are left out.  Of the scheduler the recorder and the subscription
    channels are left out.  Of search results the URLs, labels, highlighting and
    line matches are left out, and of the streams the one that batches events by
    time.  The extraction of filters from matches ([search_filters.go]) and the
    plan of multi-version upgrades are what one would model next. *)
From stdpp Require Export base tactics list gmap strings.
From Stdlib Require Export ZArith Lia.

(** ** Go computations

    A Go call returns, panics, or (when a bounded model of a loop is given too
    little fuel) runs out of fuel.  The two last outcomes are kept apart from
    the [error] values a Go function returns, which are ordinary values. *)
Inductive run (A : Type) : Type :=
| Done (a : A)
| Panics (why : string)
| OutOfFuel.
Arguments Done {A} a.
Arguments Panics {A} why.
Arguments OutOfFuel {A}.

Definition run_bind {A B} (m : run A) (k : A -> run B) : run B :=
  match m with
  | Done a => k a
  | Panics w => Panics w
  | OutOfFuel => OutOfFuel
  end.

(** Go's [(T, error)] results. *)
Inductive result (E A : Type) : Type :=
| Ok (a : A)
| Err (e : E).
Arguments Ok {E A} a.
Arguments Err {E A} e.

Declare Scope go_scope.
Delimit Scope go_scope with go.

Notation "'let!' x ':=' m 'in' k" := (run_bind m (fun x => k))
  (at level 10, x name, m at level 100, k at level 200) : go_scope.
Notation "'let!' ' x ':=' m 'in' k" := (run_bind m (fun x => k))
  (at level 10, x strict pattern at level 0, m at level 100, k at level 200) : go_scope.
Open Scope go_scope.

(** The computation returns a value, that is, it neither panics nor exhausts
    its fuel, and the value satisfies [Q]. *)
Definition returns {A} (m : run A) (Q : A -> Prop) : Prop := exists a, m = Done a /\ Q a.

Lemma returns_done {A} (a : A) (Q : A -> Prop) : Q a -> returns (Done a) Q.
Proof. by exists a. Qed.

Lemma returns_bind {A B} (m : run A) (k : A -> run B) (Q : B -> Prop) :
  returns m (fun a => returns (k a) Q) -> returns (run_bind m k) Q.
Proof. intros (a & -> & H). done. Qed.

Lemma returns_mono {A} (m : run A) (P Q : A -> Prop) :
  returns m P -> (forall a, P a -> Q a) -> returns m Q.
Proof. intros (a & -> & H) HPQ. exists a. auto. Qed.

(** Chain [returns_bind] with a specification [H] of the first computation. *)
Ltac run_step H := apply returns_bind; eapply returns_mono; [apply H|simpl].

(** ** Loops

    A [for] loop over a slice whose body may panic. *)
Fixpoint run_fold {A B} (f : B -> A -> run B) (l : list A) (b : B) : run B :=
  match l with
  | [] => Done b
  | a :: l => run_bind (f b a) (run_fold f l)
  end.

(** An invariant that every turn keeps: [I l1 b] holds after the turns [l1]. *)
Lemma run_fold_inv {A B} (f : B -> A -> run B) (I : list A -> B -> Prop) (l : list A) (b : B) :
  I [] b ->
  (forall l1 a l2 b, l = l1 ++ a :: l2 -> I l1 b -> returns (f b a) (I (l1 ++ [a]))) ->
  returns (run_fold f l b) (I l).
Proof.
  intros H0 Hstep.
  assert (forall l1 l2 b, l = l1 ++ l2 -> I l1 b -> returns (run_fold f l2 b) (I l)) as H.
  { intros l1 l2. revert l1. induction l2 as [|a l2 IH]; intros l1 b' E Hb; simpl.
    - apply returns_done. by rewrite E, app_nil_r.
    - apply returns_bind. eapply returns_mono; [by eapply Hstep|]. intros b'' Hb''.
      apply (IH (l1 ++ [a])); [by rewrite <- app_assoc|done]. }
  by apply (H [] l b).
Qed.

(** ** Tables

    Go's map literals are association lists; [assoc] is [m[k]] with the
    [ok] flag as an option. *)
Section Assoc.
Context {K V : Type} `{EqDecision K}.

Fixpoint assoc (k : K) (m : list (K * V)) : option V :=
  match m with
  | [] => None
  | (k', v) :: m => if bool_decide (k = k') then Some v else assoc k m
  end.

Lemma assoc_elem_of k v m : assoc k m = Some v -> (k, v) ∈ m.
Proof.
  induction m as [|[k' v'] m IH]; simpl; [done|].
  case_bool_decide; intros; simplify_eq; set_solver.
Qed.

Lemma assoc_not_in k m : k ∉ m.*1 -> assoc k m = None.
Proof.
  induction m as [|[k' v'] m IH]; csimpl; [done|].
  rewrite not_elem_of_cons. intros [? ?]. rewrite bool_decide_eq_false_2; auto.
Qed.
End Assoc.

(** ** Lists *)
Lemma Forall_sublist_of {A} (P : A -> Prop) l k :
  l `sublist_of` k -> Forall P k -> Forall P l.
Proof. rewrite !Forall_forall. eauto using elem_of_sublist. Qed.

Lemma Forall_impl_in {A} (P Q : A -> Prop) l :
  Forall P l -> (forall x, x ∈ l -> P x -> Q x) -> Forall Q l.
Proof. rewrite !Forall_forall. eauto. Qed.

(** An element of a list without duplicates splits it in one way. *)
Lemma NoDup_middle_inj {A} (l1 l2 k1 k2 : list A) x :
  l1 ++ x :: l2 = k1 ++ x :: k2 -> NoDup (l1 ++ x :: l2) -> l1 = k1 /\ l2 = k2.
Proof.
  revert k1. induction l1 as [|y l1 IH]; intros [|z k1] E Hn; simplify_eq/=; [done|..].
  - apply NoDup_cons in Hn as [[]%not_elem_of_app _]. exfalso. set_solver.
  - apply NoDup_cons in Hn as [Hx _]. exfalso. set_solver.
  - apply NoDup_cons in Hn as [_ Hn]. by destruct (IH k1) as [-> ->].
Qed.

(** Induction on the length of a list, for loops that consume one or more
    elements per step. *)
Lemma list_length_ind {A} (P : list A -> Prop) :
  (forall l, (forall k, (length k < length l)%nat -> P k) -> P l) -> forall l, P l.
Proof. intros H l. induction l as [l IH] using (induction_ltof1 _ length). auto. Qed.

Lemma run_bind_Done {A B} (m : run A) (k : A -> run B) b :
  run_bind m k = Done b -> exists a, m = Done a /\ k a = Done b.
Proof. destruct m; simpl; intros; simplify_eq; eauto. Qed.

#[export] Instance filter_Permutation {A} (f : A -> bool) :
  Proper (Permutation ==> Permutation) (List.filter f).
Proof.
  intros l k H. induction H as [|x l k _ IH|x y l|l k m _ IH1 _ IH2]; simpl; [done|..].
  - destruct (f x); [by constructor|done].
  - destruct (f x), (f y); try done. constructor.
  - by rewrite IH1.
Qed.

Lemma filter_filter_andb {A} (f g : A -> bool) l :
  List.filter g (List.filter f l) = List.filter (fun x => f x && g x) l.
Proof. induction l as [|x l IH]; simpl; [done|]. destruct (f x); simpl; rewrite IH; done. Qed.
