(* ===== verification/GoStr.v ===== *)
(** Go strings and runes.

    A Go string (and a [[]byte]) is a list of bytes, each a [Z] in [0, 255]; a
    rune is a [Z].  This file models what [internal/search/query] uses of
    [unicode/utf8], [unicode], [strings] and [strconv], and proves the facts
    about UTF-8 that the scanners rest on. *)
From S2P Require Import Prelude.
From Stdlib Require Import Ascii.

Abbreviation gostring := (list Z).
Abbreviation rune := Z.

(** Go string literals. *)
Definition str (s : string) : gostring :=
  map (fun a => Z.of_N (N_of_ascii a)) (String.list_ascii_of_string s).
Arguments str : simpl never.

(** The rune of a one-character literal. *)
Definition chr (s : string) : rune :=
  match str s with [] => 0%Z | c :: _ => c end.
Arguments chr : simpl never.

Definition gs_eqb (a b : gostring) : bool := bool_decide (a = b).

Lemma gs_eqb_eq a b : gs_eqb a b = true <-> a = b.
Proof. apply bool_decide_eq_true. Qed.

Lemma gs_eqb_false a b : gs_eqb a b = false <-> a <> b.
Proof. apply bool_decide_eq_false. Qed.

Lemma gs_eqb_refl a : gs_eqb a a = true.
Proof. by apply bool_decide_eq_true. Qed.

Definition is_byte (b : Z) : Prop := (0 <= b < 256)%Z.
Definition bytes_ok (s : gostring) : Prop := Forall is_byte s.

(** ** unicode/utf8 *)
Module Utf8.

Definition RuneError : rune := 0xFFFD%Z.
Definition MaxRune : rune := 0x10FFFF%Z.

(** The size and second-byte range that [utf8.first] and [acceptRanges] give
    for a leading byte; [None] for an invalid leading byte. *)
Definition lead (b : Z) : option (nat * Z * Z) :=
  if (b <? 0xC2)%Z then None
  else if (b <=? 0xDF)%Z then Some (2%nat, 0x80%Z, 0xBF%Z)
  else if (b =? 0xE0)%Z then Some (3%nat, 0xA0%Z, 0xBF%Z)
  else if (b =? 0xED)%Z then Some (3%nat, 0x80%Z, 0x9F%Z)
  else if (b <=? 0xEF)%Z then Some (3%nat, 0x80%Z, 0xBF%Z)
  else if (b =? 0xF0)%Z then Some (4%nat, 0x90%Z, 0xBF%Z)
  else if (b <=? 0xF3)%Z then Some (4%nat, 0x80%Z, 0xBF%Z)
  else if (b =? 0xF4)%Z then Some (4%nat, 0x80%Z, 0x8F%Z)
  else None.

Definition in_range (lo hi b : Z) : bool := ((lo <=? b) && (b <=? hi))%Z.
Definition cont (b : Z) : bool := in_range 0x80 0xBF b.

Definition low6 (b : Z) : Z := Z.land b 0x3F.
Definition hi6 (a b : Z) : Z := Z.lor (Z.shiftl a 6) (low6 b).

(** [utf8.DecodeRune]: the first rune and its width; [(RuneError, 0)] on an
    empty buffer and [(RuneError, 1)] on an invalid encoding. *)
Definition DecodeRune (s : gostring) : rune * nat :=
  match s with
  | [] => (RuneError, 0%nat)
  | s0 :: t =>
    if (s0 <? 0x80)%Z then (s0, 1%nat)
    else match lead s0, t with
    | Some (2%nat, lo, hi), b1 :: _ =>
        if in_range lo hi b1 then (hi6 (Z.land s0 0x1F) b1, 2%nat)
        else (RuneError, 1%nat)
    | Some (3%nat, lo, hi), b1 :: b2 :: _ =>
        if in_range lo hi b1 && cont b2
        then (hi6 (hi6 (Z.land s0 0x0F) b1) b2, 3%nat)
        else (RuneError, 1%nat)
    | Some (4%nat, lo, hi), b1 :: b2 :: b3 :: _ =>
        if in_range lo hi b1 && cont b2 && cont b3
        then (hi6 (hi6 (hi6 (Z.land s0 0x07) b1) b2) b3, 4%nat)
        else (RuneError, 1%nat)
    | _, _ => (RuneError, 1%nat)
    end
  end.

Definition tail_byte (r : Z) : Z := Z.lor 0x80 (low6 r).

Definition valid_rune (r : rune) : bool :=
  ((0 <=? r) && (r <? 0xD800) || (0xDFFF <? r) && (r <=? MaxRune))%Z.

Definition encode3 (r : rune) : gostring :=
  [Z.lor 0xE0 (Z.shiftr r 12); tail_byte (Z.shiftr r 6); tail_byte r].

(** [utf8.EncodeRune], with out-of-range runes and surrogates written as
    [RuneError]. *)
Definition EncodeRune (r : rune) : gostring :=
  if negb (valid_rune r) then encode3 RuneError
  else if (r <=? 0x7F)%Z then [r]
  else if (r <=? 0x7FF)%Z then [Z.lor 0xC0 (Z.shiftr r 6); tail_byte r]
  else if (r <=? 0xFFFF)%Z then encode3 r
  else [Z.lor 0xF0 (Z.shiftr r 18); tail_byte (Z.shiftr r 12);
        tail_byte (Z.shiftr r 6); tail_byte r].

(** The conversion [string([]rune)]. *)
Definition of_runes (rs : list rune) : gostring := rs ≫= EncodeRune.

(** One decoding step of a scanner: the rune, its width and the buffer left. *)
Record seg := Seg { seg_rune : rune; seg_width : nat; seg_rest : gostring }.

Fixpoint segments_aux (fuel : nat) (buf : gostring) : list seg :=
  match fuel, buf with
  | S fuel, _ :: _ =>
      let '(r, n) := DecodeRune buf in
      Seg r n (drop n buf) :: segments_aux fuel (drop n buf)
  | _, _ => []
  end.

(** The steps that [for len(buf) > 0 { r, n := utf8.DecodeRune(buf); buf =
    buf[n:] }] goes through, in order. *)
Definition segments (buf : gostring) : list seg := segments_aux (length buf) buf.

(** The conversion [[]rune(s)]. *)
Definition runes (s : gostring) : list rune := map seg_rune (segments s).

End Utf8.
(** ** Facts about UTF-8 *)
Module Utf8Facts.
Import Utf8.

Lemma lor_shiftl_add a b n :
  (0 <= n)%Z -> (0 <= b < 2 ^ n)%Z -> Z.lor (Z.shiftl a n) b = (a * 2 ^ n + b)%Z.
Proof.
  intros Hn Hb. rewrite Z.shiftl_mul_pow2 by lia.
  pose proof (Z.add_lor_land (a * 2 ^ n) b) as Hadd.
  enough (Z.land (a * 2 ^ n) b = 0)%Z by lia. clear Hadd.
  destruct (decide (b = 0)%Z) as [->|Hb0]; [by rewrite Z.land_0_r|].
  apply Z.bits_inj'. intros i Hi. rewrite Z.land_spec, Z.bits_0.
  destruct (Z.lt_ge_cases i n) as [Hlt|Hge].
  - by rewrite Z.mul_pow2_bits_low.
  - rewrite (Z.bits_above_log2 b), andb_false_r; [done|lia|].
    apply Z.log2_lt_pow2; [lia|]. apply Z.lt_le_trans with (2 ^ n)%Z; [lia|].
    apply Z.pow_le_mono_r; lia.
Qed.

Lemma low6_mod b : low6 b = (b mod 64)%Z.
Proof. unfold low6. change 0x3F%Z with (Z.ones 6). by rewrite Z.land_ones. Qed.

Lemma hi6_add a b : hi6 a b = (a * 64 + b mod 64)%Z.
Proof.
  unfold hi6. rewrite low6_mod, lor_shiftl_add; [lia|lia|].
  change (2 ^ 6)%Z with 64%Z. by apply Z.mod_pos_bound.
Qed.

Lemma lor_const_add c k x :
  (0 <= k)%Z -> (0 <= x < 2 ^ k)%Z -> Z.lor (c * 2 ^ k) x = (c * 2 ^ k + x)%Z.
Proof. intros Hk Hx. rewrite <- (lor_shiftl_add c x k), Z.shiftl_mul_pow2 by lia. done. Qed.

Lemma tail_byte_add r : tail_byte r = (128 + r mod 64)%Z.
Proof.
  unfold tail_byte. rewrite low6_mod.
  assert (0 <= r mod 64 < 64)%Z by (by apply Z.mod_pos_bound).
  change 0x80%Z with (2 * 2 ^ 6)%Z. rewrite lor_const_add; lia.
Qed.

Lemma land_mask x k : (0 <= k)%Z -> Z.land x (Z.ones k) = (x mod 2 ^ k)%Z.
Proof. intros. by apply Z.land_ones. Qed.

Lemma decode_width buf r n :
  DecodeRune buf = (r, n) -> buf <> [] -> (1 <= n <= length buf)%nat.
Proof.
  intros H Hne. destruct buf as [|s0 t]; [done|]. simpl in H. simpl.
  repeat case_match; simplify_eq; simpl in *; lia.
Qed.

Lemma decode_nil : DecodeRune [] = (RuneError, 0%nat).
Proof. done. Qed.

Lemma decode_ascii b t : (b < 0x80)%Z -> DecodeRune (b :: t) = (b, 1%nat).
Proof. intros. simpl. by rewrite (proj2 (Z.ltb_lt _ _)). Qed.

Lemma segments_aux_more fuel buf :
  (length buf <= fuel)%nat -> segments_aux fuel buf = segments buf.
Proof.
  revert buf. induction fuel as [fuel IH] using lt_wf_ind. intros buf Hle.
  unfold segments. destruct fuel as [|fuel]; [destruct buf; simpl in *; [done|lia]|].
  destruct buf as [|b t]; [done|].
  change (segments_aux (S fuel) (b :: t)) with
    (let '(r, n) := DecodeRune (b :: t) in
     Seg r n (drop n (b :: t)) :: segments_aux fuel (drop n (b :: t))).
  change (segments_aux (length (b :: t)) (b :: t)) with
    (let '(r, n) := DecodeRune (b :: t) in
     Seg r n (drop n (b :: t)) :: segments_aux (length t) (drop n (b :: t))).
  destruct (DecodeRune (b :: t)) as [r n] eqn:E.
  apply decode_width in E as Hw; [|done].
  assert (length (drop n (b :: t)) <= length t)%nat as Hd
    by (rewrite length_drop; simpl in *; lia).
  f_equal. rewrite (IH fuel) by (simpl in *; lia).
  destruct (decide (length t < S fuel)%nat); [|simpl in *; lia].
  rewrite (IH (length t)); [done|lia|done].
Qed.

(** The unfolding equation of [segments]: one [DecodeRune] per step. *)
Lemma segments_unfold buf :
  segments buf =
  match buf with
  | [] => []
  | _ => let '(r, n) := DecodeRune buf in Seg r n (drop n buf) :: segments (drop n buf)
  end.
Proof.
  destruct buf as [|b t]; [done|]. unfold segments at 1.
  change (segments_aux (length (b :: t)) (b :: t)) with
    (let '(r, n) := DecodeRune (b :: t) in
     Seg r n (drop n (b :: t)) :: segments_aux (length t) (drop n (b :: t))).
  destruct (DecodeRune (b :: t)) as [r n] eqn:E. f_equal.
  apply decode_width in E; [|done].
  apply segments_aux_more. rewrite length_drop. simpl in *. lia.
Qed.

Lemma segments_cons buf s segs :
  segments buf = s :: segs ->
  buf <> [] /\ DecodeRune buf = (seg_rune s, seg_width s) /\
  seg_rest s = drop (seg_width s) buf /\ segments (seg_rest s) = segs /\
  (1 <= seg_width s)%nat /\
  (seg_width s + length (seg_rest s) = length buf)%nat.
Proof.
  rewrite segments_unfold. destruct buf as [|b t]; [done|].
  destruct (DecodeRune (b :: t)) as [r n] eqn:E. intros [= <- <-]. simpl seg_rune.
  apply decode_width in E as Hw; [|done]. simpl seg_width. simpl seg_rest.
  rewrite length_drop. repeat split; try done; lia.
Qed.

Lemma segments_nil_inv buf : segments buf = [] -> buf = [].
Proof.
  rewrite segments_unfold. destruct buf; [done|]. by destruct (DecodeRune _).
Qed.

(** The widths of the steps add up to the buffer. *)
Lemma segments_width buf : sum_list (seg_width <$> segments buf) = length buf.
Proof.
  remember (length buf) as n eqn:Hn. revert buf Hn.
  induction n as [n IH] using lt_wf_ind. intros buf ->.
  destruct (segments buf) as [|s segs] eqn:E.
  { apply segments_nil_inv in E. by subst. }
  apply segments_cons in E as (_ & _ & _ & <- & Hw & Hl). csimpl.
  rewrite (IH (length (seg_rest s))); lia.
Qed.

(** Linear forms of the four encodings. *)
Lemma EncodeRune_lin r :
  EncodeRune r =
  if negb (valid_rune r) then [239; 191; 189]%Z
  else if (r <=? 0x7F)%Z then [r]
  else if (r <=? 0x7FF)%Z then [192 + r / 64; 128 + r mod 64]%Z
  else if (r <=? 0xFFFF)%Z then [224 + r / 4096; 128 + (r / 64) mod 64; 128 + r mod 64]%Z
  else [240 + r / 262144; 128 + (r / 4096) mod 64; 128 + (r / 64) mod 64; 128 + r mod 64]%Z.
Proof.
  unfold EncodeRune, encode3. rewrite !tail_byte_add, !Z.shiftr_div_pow2 by lia.
  change (2 ^ 6)%Z with 64%Z. change (2 ^ 12)%Z with 4096%Z. change (2 ^ 18)%Z with 262144%Z.
  destruct (valid_rune r) eqn:Hv; simpl; [|done].
  unfold valid_rune, MaxRune in Hv.
  destruct (r <=? 127)%Z eqn:H1; [done|].
  destruct (r <=? 2047)%Z eqn:H2.
  { f_equal. change 192%Z with (6 * 2 ^ 5)%Z. rewrite lor_const_add; [done|lia|].
    split; [apply Z.div_pos; lia|apply Z.div_lt_upper_bound; lia]. }
  destruct (r <=? 65535)%Z eqn:H3.
  { f_equal. change 224%Z with (14 * 2 ^ 4)%Z. rewrite lor_const_add; [done|lia|].
    split; [apply Z.div_pos; lia|apply Z.div_lt_upper_bound; lia]. }
  f_equal. change 240%Z with (30 * 2 ^ 3)%Z. rewrite lor_const_add; [done|lia|].
  split; [apply Z.div_pos; lia|apply Z.div_lt_upper_bound; lia].
Qed.

Ltac zbool :=
  repeat match goal with
  | |- context [(?a <? ?b)%Z] =>
      first [rewrite (proj2 (Z.ltb_lt a b)) by lia | rewrite (proj2 (Z.ltb_ge a b)) by lia]
  | |- context [(?a <=? ?b)%Z] =>
      first [rewrite (proj2 (Z.leb_le a b)) by lia | rewrite (proj2 (Z.leb_gt a b)) by lia]
  | |- context [(?a =? ?b)%Z] =>
      first [rewrite (proj2 (Z.eqb_eq a b)) by lia | rewrite (proj2 (Z.eqb_neq a b)) by lia]
  end.

Lemma decode2 a b s :
  (2 <= a < 32)%Z -> (0 <= b < 64)%Z ->
  DecodeRune ((192 + a)%Z :: (128 + b)%Z :: s) = ((a * 64 + b)%Z, 2%nat).
Proof.
  intros Ha Hb. cbn [DecodeRune]. unfold lead, in_range. zbool. cbn [andb].
  rewrite hi6_add. change 0x1F%Z with (Z.ones 5). rewrite land_mask by lia.
  change (2 ^ 5)%Z with 32%Z. f_equal.
  Z.to_euclidean_division_equations. lia.
Qed.

Lemma decode3 a b c s :
  (0 <= a < 16)%Z -> (0 <= b < 64)%Z -> (0 <= c < 64)%Z ->
  (a = 0 -> 32 <= b)%Z -> (a = 13 -> b < 32)%Z ->
  DecodeRune ((224 + a)%Z :: (128 + b)%Z :: (128 + c)%Z :: s) =
    ((a * 4096 + b * 64 + c)%Z, 3%nat).
Proof.
  intros Ha Hb Hc H0 H13. cbn [DecodeRune]. unfold lead, cont, in_range.
  assert (Z.land (224 + a) 0x0F = a) as Hl.
  { change 0x0F%Z with (Z.ones 4). rewrite land_mask by lia. change (2 ^ 4)%Z with 16%Z.
    Z.to_euclidean_division_equations. lia. }
  rewrite !hi6_add, Hl.
  assert ((128 + b) mod 64 = b /\ (128 + c) mod 64 = c)%Z as [-> ->]
    by (Z.to_euclidean_division_equations; lia).
  destruct (decide (a = 0)%Z) as [->|]; [zbool; cbn [andb]; f_equal; lia|].
  destruct (decide (a = 13)%Z) as [->|]; zbool; cbn [andb]; f_equal; lia.
Qed.

Lemma decode4 a b c d s :
  (0 <= a < 5)%Z -> (0 <= b < 64)%Z -> (0 <= c < 64)%Z -> (0 <= d < 64)%Z ->
  (a = 0 -> 16 <= b)%Z -> (a = 4 -> b < 16)%Z ->
  DecodeRune ((240 + a)%Z :: (128 + b)%Z :: (128 + c)%Z :: (128 + d)%Z :: s) =
    ((a * 262144 + b * 4096 + c * 64 + d)%Z, 4%nat).
Proof.
  intros Ha Hb Hc Hd H0 H4. cbn [DecodeRune]. unfold lead, cont, in_range.
  assert (Z.land (240 + a) 0x07 = a) as Hl.
  { change 0x07%Z with (Z.ones 3). rewrite land_mask by lia. change (2 ^ 3)%Z with 8%Z.
    Z.to_euclidean_division_equations. lia. }
  rewrite !hi6_add, Hl.
  assert ((128 + b) mod 64 = b /\ (128 + c) mod 64 = c /\ (128 + d) mod 64 = d)%Z
    as (-> & -> & ->) by (Z.to_euclidean_division_equations; lia).
  destruct (decide (a = 0)%Z) as [->|]; [zbool; cbn [andb]; f_equal; lia|].
  destruct (decide (a = 4)%Z) as [->|]; zbool; cbn [andb]; f_equal; lia.
Qed.

(** Decoding what [EncodeRune] wrote gives the rune back. *)
Lemma decode_encode r s :
  valid_rune r = true ->
  DecodeRune (EncodeRune r ++ s) = (r, length (EncodeRune r)).
Proof.
  intros Hv. rewrite EncodeRune_lin, Hv. cbn [negb]. unfold valid_rune, MaxRune in Hv.
  destruct (r <=? 127)%Z eqn:B1.
  { simpl. by zbool. }
  pose proof (Z.mod_pos_bound r 64 ltac:(lia)).
  pose proof (Z.mod_pos_bound (r / 64) 64 ltac:(lia)).
  pose proof (Z.mod_pos_bound (r / 4096) 64 ltac:(lia)).
  assert (r = r / 64 * 64 + r mod 64)%Z as E1 by (Z.to_euclidean_division_equations; lia).
  assert (r / 64 = r / 4096 * 64 + (r / 64) mod 64)%Z as E2
    by (Z.to_euclidean_division_equations; lia).
  assert (r / 4096 = r / 262144 * 64 + (r / 4096) mod 64)%Z as E3
    by (Z.to_euclidean_division_equations; lia).
  destruct (r <=? 2047)%Z eqn:B2; [|destruct (r <=? 65535)%Z eqn:B3]; cbn [app length].
  - rewrite decode2 by lia. f_equal; lia.
  - rewrite decode3 by lia. f_equal; lia.
  - rewrite decode4 by lia. f_equal; lia.
Qed.

(** [string([]rune)] followed by [[]rune(string)] is the identity on valid
    runes and replaces the others by [RuneError]. *)
Definition sanitize (r : rune) : rune := if valid_rune r then r else RuneError.

Lemma encode_sanitize r : EncodeRune r = EncodeRune (sanitize r).
Proof. unfold sanitize, EncodeRune. destruct (valid_rune r) eqn:E; [by rewrite E|done]. Qed.

Lemma valid_sanitize r : valid_rune (sanitize r) = true.
Proof. unfold sanitize. by destruct (valid_rune r) eqn:?. Qed.

Lemma encode_nonnil r : EncodeRune r <> [].
Proof. rewrite EncodeRune_lin. by repeat case_match. Qed.

Lemma segments_encode r s :
  segments (EncodeRune r ++ s) =
    Seg (sanitize r) (length (EncodeRune r)) s :: segments s.
Proof.
  rewrite segments_unfold, encode_sanitize.
  destruct (EncodeRune (sanitize r) ++ s) eqn:E.
  { apply app_nil in E as [E _]. by apply encode_nonnil in E. }
  rewrite <- E, decode_encode by apply valid_sanitize.
  by rewrite drop_app_length.
Qed.

Lemma runes_of_runes_app rs s : runes (of_runes rs ++ s) = (sanitize <$> rs) ++ runes s.
Proof.
  unfold of_runes, runes. induction rs as [|r rs IH]; [done|].
  csimpl. rewrite <- app_assoc, segments_encode. csimpl. by rewrite IH.
Qed.

Lemma runes_of_runes rs : runes (of_runes rs) = sanitize <$> rs.
Proof. rewrite <- (app_nil_r (of_runes rs)), runes_of_runes_app. by rewrite app_nil_r. Qed.

End Utf8Facts.

(** ** Runes below U+0080 *)
Module AsciiFacts.
Import Utf8 Utf8Facts.

Definition wsum (segs : list seg) : nat := sum_list (seg_width <$> segs).

Lemma wsum_cons s segs : wsum (s :: segs) = (seg_width s + wsum segs)%nat.
Proof. done. Qed.

Lemma wsum_segments s : wsum (segments s) = length s.
Proof. apply segments_width. Qed.

(** The elements of [segments buf] have positive width. *)
Definition segs_ok (segs : list seg) : Prop := Forall (fun s => (1 <= seg_width s)%nat) segs.

Lemma segments_ok buf : segs_ok (segments buf).
Proof.
  remember (length buf) as n eqn:Hn. revert buf Hn.
  induction n as [n IH] using lt_wf_ind. intros buf ->.
  destruct (segments buf) as [|s segs] eqn:E; [constructor|].
  apply segments_cons in E as (_ & _ & _ & <- & Hw & Hl).
  constructor; [done|]. eapply IH; [|done]. lia.
Qed.

Lemma hi6_ge a b c : (c <= a)%Z -> (c * 64 <= hi6 a b)%Z.
Proof. intros. rewrite hi6_add. pose proof (Z.mod_pos_bound b 64). lia. Qed.

(** A rune below U+0080 was decoded from one byte. *)
Lemma decode_small buf r n :
  DecodeRune buf = (r, n) -> (r < 0x80)%Z -> n = 1%nat /\ exists t, buf = r :: t.
Proof.
  intros H Hr. destruct buf as [|s0 t]; [by simplify_eq/=|]. simpl in H.
  destruct (s0 <? 0x80)%Z eqn:Hs0; [simplify_eq; split; eauto|].
  exfalso. unfold lead, in_range in H.
  assert (forall x m k, (0 <= k)%Z -> m = Z.ones k -> Z.land x m = (x mod 2 ^ k)%Z) as Hland.
  { intros x m k Hk ->. by apply land_mask. }
  rewrite (Hland s0 0x1F 5 ltac:(lia) eq_refl)%Z, (Hland s0 0x0F 4 ltac:(lia) eq_refl)%Z,
    (Hland s0 0x07 3 ltac:(lia) eq_refl)%Z in H.
  change (2 ^ 5)%Z with 32%Z in H. change (2 ^ 4)%Z with 16%Z in H. change (2 ^ 3)%Z with 8%Z in H.
  unfold RuneError in H.
  repeat case_match; simplify_eq; try lia; rewrite ?hi6_add in Hr;
    rewrite ?andb_true_iff in *; destruct_and?; Z.to_euclidean_division_equations; lia.
Qed.

Lemma segments_ascii_cons b t : (b < 0x80)%Z -> segments (b :: t) = Seg b 1 t :: segments t.
Proof. intros Hb. rewrite segments_unfold, decode_ascii by done. done. Qed.

Definition ascii (s : gostring) : Prop := Forall (fun b => (0 <= b < 0x80)%Z) s.

Lemma runes_ascii_app s t : ascii s -> runes (s ++ t) = s ++ runes t.
Proof.
  unfold runes. induction 1 as [|b s Hb _ IH]; [done|].
  simpl. rewrite segments_ascii_cons by lia. simpl. by rewrite IH.
Qed.

Lemma runes_ascii s : ascii s -> runes s = s.
Proof. intros. rewrite <- (app_nil_r s) at 1. rewrite runes_ascii_app by done. by rewrite app_nil_r. Qed.

Lemma of_runes_ascii s : ascii s -> of_runes s = s.
Proof.
  unfold of_runes. induction 1 as [|b s Hb _ IH]; [done|]. csimpl. rewrite IH.
  unfold EncodeRune, valid_rune, MaxRune. zbool. done.
Qed.

Lemma of_runes_app rs ss : of_runes (rs ++ ss) = of_runes rs ++ of_runes ss.
Proof. unfold of_runes. apply bind_app. Qed.
End AsciiFacts.
