(* ===== verification/GoLib.v ===== *)
(** The functions of Go's [unicode], [strings] and [strconv] packages that
    [internal/search/query] calls.

    What depends on the Unicode character tables beyond ASCII is taken from
    the class [UnicodeTables], so that every theorem holds for whatever version
    of the tables the program is built with; the ASCII and Latin-1 parts, which
    Go's packages decide without the tables, are written out. *)
From S2P Require Import Prelude GoStr.
Import Utf8.

Class UnicodeTables := {
  tbl_IsLetter : rune -> bool;   (** [unicode.IsLetter] from U+0080 on *)
  tbl_IsPrint : rune -> bool;    (** [strconv.IsPrint] from U+0100 on *)
  tbl_ToLower : rune -> rune     (** [unicode.ToLower] from U+0080 on *)
}.

(** A table for concrete runs: no letters, no case, everything printable. *)
Definition plain_tables : UnicodeTables :=
  {| tbl_IsLetter := fun _ => false; tbl_IsPrint := fun _ => true; tbl_ToLower := fun r => r |}.

Definition between (lo hi r : Z) : bool := ((lo <=? r) && (r <=? hi))%Z.

Definition is_upper (r : rune) : bool := between 65 90 r.
Definition is_lower (r : rune) : bool := between 97 122 r.
Definition is_alpha (r : rune) : bool := is_upper r || is_lower r.
Definition is_digit (r : rune) : bool := between 48 57 r.

(** ** unicode *)

(** [unicode.IsSpace]: the Latin-1 cases, then the [White_Space] table. *)
Definition IsSpace (r : rune) : bool :=
  if between 0 0xFF r then
    between 9 13 r || (r =? 32)%Z || (r =? 0x85)%Z || (r =? 0xA0)%Z
  else
    (r =? 0x1680)%Z || between 0x2000 0x200A r || between 0x2028 0x2029 r ||
    (r =? 0x202F)%Z || (r =? 0x205F)%Z || (r =? 0x3000)%Z.

Section Tables.
Context {U : UnicodeTables}.

Definition IsLetter (r : rune) : bool :=
  if (r <? 0x80)%Z then is_alpha r else tbl_IsLetter r.

Definition rune_ToLower (r : rune) : rune :=
  if (r <? 0x80)%Z then if is_upper r then (r + 32)%Z else r else tbl_ToLower r.

Definition IsPrint (r : rune) : bool :=
  if (r <=? 0xFF)%Z then between 0x20 0x7E r || between 0xA1 0xFF r && negb (r =? 0xAD)%Z
  else tbl_IsPrint r.

(** ** strings *)

Definition ToLower (s : gostring) : gostring := of_runes (map rune_ToLower (runes s)).

End Tables.

(** Simple case folding towards an ASCII rune: the only runes above U+007F
    that fold to ASCII are U+017F (to [s]) and U+212A (to [k]). *)
Definition fold_ascii (r : rune) : rune :=
  if is_upper r then (r + 32)%Z
  else if (r =? 0x17F)%Z then chr "s"
  else if (r =? 0x212A)%Z then chr "k"
  else r.

(** [strings.EqualFold(s, t)] for an ASCII [t]; every call in the package
    passes an ASCII literal as [t]. *)
Definition EqualFold (s t : gostring) : bool :=
  bool_decide (map fold_ascii (runes s) = map fold_ascii (runes t)).

Fixpoint HasPrefix (s prefix : gostring) {struct prefix} : bool :=
  match prefix, s with
  | [], _ => true
  | p :: prefix, c :: s => (p =? c)%Z && HasPrefix s prefix
  | _ :: _, [] => false
  end.

Definition HasSuffix (s suffix : gostring) : bool := HasPrefix (rev s) (rev suffix).
Definition TrimSuffix (s suffix : gostring) : gostring :=
  if HasSuffix s suffix then take (length s - length suffix) s else s.

(** [strings.Index]; [None] is Go's [-1]. *)
Fixpoint Index (s sub : gostring) : option nat :=
  if HasPrefix s sub then Some 0%nat
  else match s with
  | [] => None
  | _ :: s => S <$> Index s sub
  end.

Definition Contains (s sub : gostring) : bool :=
  match Index s sub with Some _ => true | None => false end.

Definition ContainsRune (s : gostring) (r : rune) : bool := existsb (Z.eqb r) (runes s).

(** [strings.Split] with a one-byte separator. *)
Fixpoint Split (s : gostring) (sep : Z) : list gostring :=
  match s with
  | [] => [[]]
  | c :: s =>
    if (c =? sep)%Z then [] :: Split s sep
    else match Split s sep with
         | part :: parts => (c :: part) :: parts
         | [] => [[c]]
         end
  end.

Fixpoint Join (parts : list gostring) (sep : gostring) : gostring :=
  match parts with
  | [] => []
  | [p] => p
  | p :: parts => p ++ sep ++ Join parts sep
  end.

(** [strings.ReplaceAll] for a non-empty [old]: occurrences are replaced from
    left to right without overlap; [skip] counts the bytes of the occurrence
    being passed over. *)
Fixpoint replace_aux (skip : nat) (s old new : gostring) : gostring :=
  match s with
  | [] => []
  | c :: t =>
    match skip with
    | S skip => replace_aux skip t old new
    | O => if HasPrefix s old then new ++ replace_aux (length old - 1) t old new
           else c :: replace_aux 0 t old new
    end
  end.
Definition ReplaceAll (s old new : gostring) : gostring := replace_aux 0 s old new.

Fixpoint trim_left (f : Z -> bool) (s : gostring) : gostring :=
  match s with
  | [] => []
  | c :: t => if f c then trim_left f t else s
  end.

(** [strings.Trim] with an ASCII cutset. *)
Definition Trim (s cutset : gostring) : gostring :=
  let f c := existsb (Z.eqb c) cutset in
  rev (trim_left f (rev (trim_left f s))).

Fixpoint trim_left_segs (segs : list seg) (s : gostring) : gostring :=
  match segs with
  | [] => s
  | g :: segs => if IsSpace (seg_rune g) then trim_left_segs segs (seg_rest g) else s
  end.

(** [strings.TrimLeftFunc(s, unicode.IsSpace)]. *)
Definition TrimLeftSpace (s : gostring) : gostring := trim_left_segs (segments s) s.

(** The bytes of the run of spaces at the end of a string. *)
Definition trailing_space (segs : list seg) : nat :=
  fold_left (fun n g => if IsSpace (seg_rune g) then n + seg_width g else 0) segs 0.

(** [strings.TrimSpace].  A rune that is a space is found by decoding forwards
    from the start of the string and backwards from its end alike. *)
Definition TrimSpace (s : gostring) : gostring :=
  let s := TrimLeftSpace s in take (length s - trailing_space (segments s)) s.

(** [strings.TrimSpace(s) == ""].  Trimming on the right cannot empty a string
    whose first rune is not a space, so only the left trim matters. *)
Definition TrimSpace_empty (s : gostring) : bool := gs_eqb (TrimLeftSpace s) [].

(** ** strconv *)

Inductive num_result :=
| NumOk (n : Z)
| ErrSyntax
| ErrRange.

(** The digit loop of [strconv.ParseUint(s, 10, bitSize)]. *)
Fixpoint parse_uint_loop (s : gostring) (n maxVal : Z) : num_result :=
  match s with
  | [] => NumOk n
  | c :: s =>
    if negb (is_digit c) then ErrSyntax
    else
      let cutoff := ((2 ^ 64 - 1) / 10 + 1)%Z in
      if (cutoff <=? n)%Z then ErrRange
      else
        let n1 := (n * 10 + (c - 48))%Z in
        if (maxVal <? n1)%Z then ErrRange else parse_uint_loop s n1 maxVal
  end.

(** [strconv.ParseInt(s, 10, bitSize)]. *)
Definition ParseInt (s : gostring) (bitSize : Z) : num_result :=
  let '(neg, digits) :=
    match s with
    | c :: t => if (c =? 43)%Z then (false, t) else if (c =? 45)%Z then (true, t) else (false, s)
    | [] => (false, s)
    end in
  let maxVal := (2 ^ bitSize - 1)%Z in
  let cutoff := (2 ^ (bitSize - 1))%Z in
  match digits with
  | [] => ErrSyntax
  | _ =>
    match parse_uint_loop digits 0 maxVal with
    | ErrSyntax => ErrSyntax
    | ErrRange => ErrRange
    | NumOk un =>
      if negb neg && (cutoff <=? un)%Z then ErrRange
      else if neg && (cutoff <? un)%Z then ErrRange
      else NumOk (if neg then (- un)%Z else un)
    end
  end.

Definition Atoi (s : gostring) : num_result := ParseInt s 64.

Fixpoint digits_aux (fuel : nat) (n : Z) (acc : gostring) : gostring :=
  match fuel with
  | O => acc
  | S fuel =>
    let acc := (48 + n mod 10)%Z :: acc in
    if (n <? 10)%Z then acc else digits_aux fuel (n / 10) acc
  end.

(** [strconv.FormatInt(n, 10)] and [strconv.Itoa(n)]. *)
Definition FormatInt (n : Z) : gostring :=
  let a := Z.abs n in
  let ds := digits_aux (S (Z.to_nat (Z.log2 a))) a [] in
  if (n <? 0)%Z then 45%Z :: ds else ds.

Definition ParseBool (s : gostring) : option bool :=
  if existsb (gs_eqb s) [str "1"; str "t"; str "T"; str "true"; str "TRUE"; str "True"]
  then Some true
  else if existsb (gs_eqb s) [str "0"; str "f"; str "F"; str "false"; str "FALSE"; str "False"]
  then Some false
  else None.

Definition hex_digit (d : Z) : Z := if (d <? 10)%Z then (48 + d)%Z else (87 + d)%Z.

Fixpoint hex_digits (n : nat) (r : Z) : gostring :=
  match n with
  | O => []
  | S n => hex_digit (Z.land (Z.shiftr r (4 * Z.of_nat n)) 0xF) :: hex_digits n r
  end.

Section Quote.
Context {U : UnicodeTables}.

(** [appendEscapedRune] for the double quote, without ASCIIonly. *)
Definition escape_rune (r : rune) : gostring :=
  if (r =? 34)%Z || (r =? 92)%Z then [92%Z; r]
  else if IsPrint r then EncodeRune r
  else if (r =? 7)%Z then str "\a"
  else if (r =? 8)%Z then str "\b"
  else if (r =? 12)%Z then str "\f"
  else if (r =? 10)%Z then str "\n"
  else if (r =? 13)%Z then str "\r"
  else if (r =? 9)%Z then str "\t"
  else if (r =? 11)%Z then str "\v"
  else if (r <? 32)%Z || (r =? 0x7F)%Z then str "\x" ++ hex_digits 2 r
  else if negb (valid_rune r) then str "\u" ++ hex_digits 4 RuneError
  else if (r <? 0x10000)%Z then str "\u" ++ hex_digits 4 r
  else str "\U" ++ hex_digits 8 r.

(** One step of [appendQuotedWith]: an invalid byte is written in hex. *)
Definition quote_seg (first : Z) (g : seg) : gostring :=
  if (seg_rune g =? RuneError)%Z && Nat.eqb (seg_width g) 1
  then str "\x" ++ hex_digits 2 first
  else escape_rune (seg_rune g).

Fixpoint quote_loop (segs : list seg) (buf : gostring) : gostring :=
  match segs with
  | [] => []
  | g :: segs => quote_seg (hd 0%Z buf) g ++ quote_loop segs (seg_rest g)
  end.

(** [strconv.Quote]. *)
Definition Quote (s : gostring) : gostring :=
  [34%Z] ++ quote_loop (segments s) s ++ [34%Z].

End Quote.

(** ** Order on strings *)

(** Go's [<] on strings: lexicographic on bytes. *)
Fixpoint gs_ltb (a b : gostring) : bool :=
  match a, b with
  | [], [] => false
  | [], _ :: _ => true
  | _ :: _, [] => false
  | x :: a, y :: b => (x <? y)%Z || ((x =? y)%Z && gs_ltb a b)
  end.

Lemma gs_ltb_irrefl a : gs_ltb a a = false.
Proof. induction a as [|x a IH]; [done|]. simpl. rewrite IH, Z.ltb_irrefl. by rewrite andb_false_r. Qed.

Lemma gs_ltb_trans a b c : gs_ltb a b = true -> gs_ltb b c = true -> gs_ltb a c = true.
Proof.
  revert b c. induction a as [|x a IH]; intros [|y b] [|z c]; simpl; try done.
  rewrite !orb_true_iff, !andb_true_iff, !Z.ltb_lt, !Z.eqb_eq.
  intros [?|[-> ?]] [?|[-> ?]]; [left; lia|left; lia|left; lia|right]. eauto.
Qed.

Lemma gs_ltb_total a b : a = b \/ gs_ltb a b = true \/ gs_ltb b a = true.
Proof.
  revert b. induction a as [|x a IH]; intros [|y b]; simpl; auto.
  destruct (Z.lt_trichotomy x y) as [H|[->|H]].
  - right; left. apply orb_true_iff. left. by apply Z.ltb_lt.
  - rewrite Z.ltb_irrefl, Z.eqb_refl. simpl. destruct (IH b) as [->|[H|H]]; auto.
  - right; right. apply orb_true_iff. left. by apply Z.ltb_lt.
Qed.

(** ** Splitting and joining *)

Lemma Split_plain s sep : Forall (fun c => c <> sep) s -> Split s sep = [s].
Proof.
  induction 1 as [|c s Hc _ IH]; [done|]. simpl. rewrite IH.
  by rewrite (proj2 (Z.eqb_neq _ _) Hc).
Qed.

Lemma Split_app s t sep :
  Forall (fun c => c <> sep) s -> Split (s ++ sep :: t) sep = s :: Split t sep.
Proof.
  induction 1 as [|c s Hc _ IH]; simpl; [by rewrite Z.eqb_refl|]. rewrite IH.
  by rewrite (proj2 (Z.eqb_neq _ _) Hc).
Qed.

(** [strings.Split] undoes [strings.Join] on parts without the separator. *)
Lemma Split_Join parts sep :
  parts <> [] -> Forall (Forall (fun c => c <> sep)) parts -> Split (Join parts [sep]) sep = parts.
Proof.
  intros Hne HF. induction HF as [|p parts Hp HF IH]; [done|]. destruct parts as [|q parts].
  - by apply Split_plain.
  - change (Join (p :: q :: parts) [sep]) with (p ++ sep :: Join (q :: parts) [sep]).
    rewrite Split_app by done. by rewrite IH.
Qed.

(** Lines with a terminator. *)
Lemma Split_terminated lines sep : Forall (Forall (fun c => c <> sep)) lines ->
  Split (concat (map (fun line => line ++ [sep]) lines)) sep = lines ++ [[]].
Proof.
  induction 1 as [|line lines Hl _ IH]; [done|]. cbn [map concat]. rewrite <- app_assoc. cbn [app].
  rewrite Split_app by done. by rewrite IH.
Qed.

Lemma Join_app l k sep :
  l <> [] -> k <> [] -> Join (l ++ k) sep = Join l sep ++ sep ++ Join k sep.
Proof.
  induction l as [|x l IH]; intros Hl Hk; [done|]. destruct l as [|y l].
  - by destruct k.
  - change (Join ((x :: y :: l) ++ k) sep) with (x ++ sep ++ Join ((y :: l) ++ k) sep).
    rewrite IH by done. change (Join (x :: y :: l) sep) with (x ++ sep ++ Join (y :: l) sep).
    by rewrite <- !app_assoc.
Qed.

Lemma Index_plain s c : Forall (fun d => d <> c) s -> Index s [c] = None.
Proof.
  induction 1 as [|d s Hd _ IH]; [done|]. simpl.
  by rewrite (proj2 (Z.eqb_neq c d)), IH by done.
Qed.

Lemma Index_app s c t : Forall (fun d => d <> c) s -> Index (s ++ c :: t) [c] = Some (length s).
Proof.
  induction 1 as [|d s Hd _ IH]; simpl; [by rewrite Z.eqb_refl|].
  by rewrite (proj2 (Z.eqb_neq c d)), IH by done.
Qed.

Lemma HasPrefix_spec s p : HasPrefix s p = true <-> exists r, s = p ++ r.
Proof.
  revert s. induction p as [|c p IH]; intros s; [split; [by exists s|done]|]. destruct s as [|d s]; simpl.
  - split; [done|]. by intros [r ?].
  - rewrite andb_true_iff, Z.eqb_eq, IH. split; [intros [-> [r ->]]; by exists r|]. intros [r [= -> ->]]. eauto.
Qed.
