(* ===== verification/Syntax.v ===== *)
(** The abstract syntax of queries: [internal/search/query]'s [labels.go],
    [fields.go], [range.go], the node types of [parser.go], the traversals of
    [visitor.go] and [Exists]/[ForAll] of [validate.go]. *)
From S2P Require Import Prelude GoStr GoLib.

(** ** Errors *)
Inductive gerror :=
| ErrShortBuffer                       (** [io.ErrShortBuffer] *)
| ExpectedOperand (Msg : gostring)
| UnsupportedError (Msg : gostring)
| NegatedPredicateError (name : gostring)
| ErrorNew (msg : gostring).           (** [errors.New], [errors.Errorf] *)

Definition Error_string `{UnicodeTables} (e : gerror) : gostring :=
  match e with
  | ErrShortBuffer => str "short buffer"
  | ExpectedOperand m | UnsupportedError m | ErrorNew m => m
  | NegatedPredicateError name =>
      str "search predicate " ++ Quote name ++ str " does not support negation"
  end.

(** ** Labels: a [uint16] bit set *)
Module Labels.
Definition None_ : Z := 0.
Definition Literal : Z := 2.
Definition Regexp : Z := 4.
Definition Quoted : Z := 8.
Definition HeuristicParensAsPatterns : Z := 16.
Definition HeuristicDanglingParens : Z := 32.
Definition HeuristicHoisted : Z := 64.
Definition Structural : Z := 128.
Definition IsPredicate : Z := 256.
Definition IsAlias : Z := 512.
Definition Standard : Z := 1024.

Definition IsSet (l label : Z) : bool := negb (Z.land l label =? 0)%Z.
Definition Set_ (l label : Z) : Z := Z.lor l label.
Definition Unset (l label : Z) : Z := Z.ldiff l label.
End Labels.

(** ** Fields *)
Definition FieldDefault := str "".
Definition FieldCase := str "case".
Definition FieldRepo := str "repo".
Definition FieldFile := str "file".
Definition FieldFork := str "fork".
Definition FieldArchived := str "archived".
Definition FieldLang := str "lang".
Definition FieldType := str "type".
Definition FieldRepoHasFile := str "repohasfile".
Definition FieldRepoHasCommitAfter := str "repohascommitafter".
Definition FieldPatternType := str "patterntype".
Definition FieldContent := str "content".
Definition FieldVisibility := str "visibility".
Definition FieldRev := str "rev".
Definition FieldContext := str "context".
Definition FieldBefore := str "before".
Definition FieldAfter := str "after".
Definition FieldAuthor := str "author".
Definition FieldCommitter := str "committer".
Definition FieldMessage := str "message".
Definition FieldIndex := str "index".
Definition FieldCount := str "count".
Definition FieldTimeout := str "timeout".
Definition FieldCombyRule := str "rule".
Definition FieldSelect := str "select".

Definition allFields : list gostring :=
  [FieldCase; FieldRepo; str "r"; FieldContext; str "g"; FieldFile; str "f"; str "path";
   FieldFork; FieldArchived; FieldLang; str "l"; str "language"; FieldType;
   FieldPatternType; FieldContent; FieldVisibility; FieldRepoHasFile;
   FieldRepoHasCommitAfter; FieldBefore; str "until"; FieldAfter; str "since";
   FieldAuthor; FieldCommitter; FieldMessage; str "m"; str "msg"; FieldIndex;
   FieldCount; FieldTimeout; FieldCombyRule; FieldRev; str "revision"; FieldSelect].

Definition aliases : list (gostring * gostring) :=
  [(str "r", FieldRepo); (str "f", FieldFile); (str "path", FieldFile);
   (str "l", FieldLang); (str "language", FieldLang); (str "since", FieldAfter);
   (str "until", FieldBefore); (str "m", FieldMessage); (str "msg", FieldMessage);
   (str "revision", FieldRev)].

Definition resolveFieldAlias (field : gostring) : gostring :=
  match assoc field aliases with
  | Some canonical => canonical
  | None => field
  end.

Definition known_field (field : gostring) : bool := bool_decide (field ∈ allFields).

(** ** Ranges *)
Record position := Position { Line : Z; Column : Z }.
Record Range := MkRange { Start : position; End_ : position }.

Definition newRange (start end_ : nat) : Range :=
  MkRange (Position 0 (Z.of_nat start)) (Position 0 (Z.of_nat end_)).

Definition zeroRange : Range := MkRange (Position 0 0) (Position 0 0).

(** ** Nodes *)
Record Annotation := MkAnnotation { a_Labels : Z; a_Range : Range }.
Definition zeroAnnotation : Annotation := MkAnnotation 0 zeroRange.

Record Pattern := MkPattern
  { pat_Value : gostring; pat_Negated : bool; pat_Annotation : Annotation }.

Record Param := MkParam
  { par_Field : gostring; par_Value : gostring; par_Negated : bool;
    par_Annotation : Annotation }.

Inductive OperatorKind := Or | And | Concat.

Inductive Node :=
| PatternNode (p : Pattern)
| ParamNode (p : Param)
| Operator (kind : OperatorKind) (operands : list Node) (a : Annotation).

#[export] Instance OperatorKind_eq_dec : EqDecision OperatorKind.
Proof. solve_decision. Defined.

Definition kind_eqb (a b : OperatorKind) : bool := bool_decide (a = b).

(** [Parameter{}], the node that stands for the empty group. *)
Definition zeroParam : Param := MkParam [] [] false zeroAnnotation.

(** ** Search types *)
Inductive SearchType :=
| SearchTypeRegex | SearchTypeLiteral | SearchTypeStructural | SearchTypeLucky
| SearchTypeStandard | SearchTypeKeyword.

#[export] Instance SearchType_eq_dec : EqDecision SearchType.
Proof. solve_decision. Defined.

(** ** Induction over the operands of operators *)
Section NodeInd.
Context (P : Node -> Prop).
Hypothesis Hpattern : forall p, P (PatternNode p).
Hypothesis Hparam : forall p, P (ParamNode p).
Hypothesis Hoperator : forall k ns a, Forall P ns -> P (Operator k ns a).

Fixpoint Node_nested_ind (n : Node) : P n :=
  match n with
  | PatternNode p => Hpattern p
  | ParamNode p => Hparam p
  | Operator k ns a =>
      Hoperator k ns a
        ((fix go (ns : list Node) : Forall P ns :=
            match ns with
            | [] => Forall_nil_2 P
            | n :: ns => Forall_cons_2 P n ns (Node_nested_ind n) (go ns)
            end) ns)
  end.
End NodeInd.

(** The leaves of a tree from left to right, and its size. *)
Fixpoint leaves (n : Node) : list Node :=
  match n with
  | Operator _ ns _ => concat (map leaves ns)
  | _ => [n]
  end.
Definition leaves_of (ns : list Node) : list Node := concat (map leaves ns).

Fixpoint node_size (n : Node) : nat :=
  match n with
  | Operator _ ns _ => S (list_sum (map node_size ns))
  | _ => 1%nat
  end.
Definition nodes_size (ns : list Node) : nat := list_sum (map node_size ns).

(** ** Traversals *)

(** [Exists] with a callback that carries state: nodes are visited in
    preorder and the traversal stops at the first node that satisfies it. *)
Section ExistsS.
Context {S : Type} (fn : Node -> S -> bool * S).

Fixpoint existsS_node (node : Node) (s : S) : bool * S :=
  let '(b, s) := fn node s in
  if b then (true, s)
  else match node with
  | Operator _ operands _ =>
      (fix go (ns : list Node) (s : S) : bool * S :=
         match ns with
         | [] => (false, s)
         | n :: ns => let '(b, s) := existsS_node n s in if b then (true, s) else go ns s
         end) operands s
  | _ => (false, s)
  end.

Fixpoint ExistsS (nodes : list Node) (s : S) : bool * S :=
  match nodes with
  | [] => (false, s)
  | n :: ns => let '(b, s) := existsS_node n s in if b then (true, s) else ExistsS ns s
  end.
End ExistsS.

Definition Exists (nodes : list Node) (fn : Node -> bool) : bool :=
  fst (ExistsS (fun n (_ : unit) => (fn n, tt)) nodes tt).

(** [ForAll]: at the first operator the loop returns the verdict on that
    operator's operands. *)
Fixpoint forall_node (fn : Node -> bool) (node : Node) : bool :=
  fn node &&
  match node with
  | Operator _ operands _ =>
      (fix go (ns : list Node) : bool :=
         match ns with
         | [] => true
         | n :: rest =>
             match n with
             | Operator _ _ _ => forall_node fn n
             | _ => forall_node fn n && go rest
             end
         end) operands
  | _ => true
  end.

Fixpoint ForAll (nodes : list Node) (fn : Node -> bool) : bool :=
  match nodes with
  | [] => true
  | n :: rest =>
      match n with
      | Operator _ _ _ => forall_node fn n
      | _ => forall_node fn n && ForAll rest fn
      end
  end.

Definition is_param (n : Node) : bool := match n with ParamNode _ => true | _ => false end.
Definition is_pattern (n : Node) : bool := match n with PatternNode _ => true | _ => false end.

Definition isPatternExpression (nodes : list Node) : bool := negb (Exists nodes is_param).
Definition containsPattern (node : Node) : bool := Exists [node] is_pattern.

(** [Visitor]: callbacks that update a state [S]; [None] is a nil callback. *)
Record Visitor (S : Type) := MkVisitor
  { v_Operator : option (OperatorKind -> list Node -> S -> S);
    v_Parameter : option (gostring -> gostring -> bool -> Annotation -> S -> S);
    v_Pattern : option (gostring -> bool -> Annotation -> S -> S) }.
Arguments MkVisitor {S}.
Arguments v_Operator {S}.
Arguments v_Parameter {S}.
Arguments v_Pattern {S}.

Section Visit.
Context {S : Type}.

Fixpoint Visit (v : Visitor S) (node : Node) (s : S) : S :=
  match node with
  | Operator kind operands _ =>
      let s := match v.(v_Operator) with Some f => f kind operands s | None => s end in
      List.fold_left (fun s child => Visit v child s) operands s
  | ParamNode n =>
      match v.(v_Parameter) with
      | Some f => f n.(par_Field) n.(par_Value) n.(par_Negated) n.(par_Annotation) s
      | None => s
      end
  | PatternNode n =>
      match v.(v_Pattern) with
      | Some f => f n.(pat_Value) n.(pat_Negated) n.(pat_Annotation) s
      | None => s
      end
  end.

Definition visit_all (v : Visitor S) (nodes : list Node) (s : S) : S :=
  List.fold_left (fun s n => Visit v n s) nodes s.

Definition VisitOperator (nodes : list Node) (f : OperatorKind -> list Node -> S -> S) : S -> S :=
  visit_all (MkVisitor (Some f) None None) nodes.

Definition VisitParameter (nodes : list Node)
    (f : gostring -> gostring -> bool -> Annotation -> S -> S) : S -> S :=
  visit_all (MkVisitor None (Some f) None) nodes.

Definition VisitPattern (nodes : list Node) (f : gostring -> bool -> Annotation -> S -> S) : S -> S :=
  visit_all (MkVisitor None None (Some f)) nodes.

Definition VisitField (nodes : list Node) (field : gostring)
    (f : gostring -> bool -> Annotation -> S -> S) : S -> S :=
  VisitParameter nodes (fun gotField value negated annotation s =>
    if gs_eqb field gotField then f value negated annotation s else s).
End Visit.

(** ** Debug strings ([Node.String] and [toString]) *)
Section NodeString.
Context {U : UnicodeTables}.

Definition Pattern_String (node : Pattern) : gostring :=
  if pat_Negated node then str "(not " ++ Quote (pat_Value node) ++ str ")"
  else Quote (pat_Value node).

Definition Parameter_String (node : Param) : gostring :=
  Quote (if gs_eqb (par_Field node) [] then par_Value node
         else if par_Negated node then str "-" ++ par_Field node ++ str ":" ++ par_Value node
         else par_Field node ++ str ":" ++ par_Value node).

Definition kind_String (k : OperatorKind) : gostring :=
  match k with Or => str "or" | And => str "and" | Concat => str "concat" end.

Fixpoint node_String (n : Node) : gostring :=
  match n with
  | PatternNode p => Pattern_String p
  | ParamNode p => Parameter_String p
  | Operator k operands _ =>
      str "(" ++ kind_String k ++ str " " ++ Join (map node_String operands) (str " ") ++ str ")"
  end.

Definition toString (nodes : list Node) : gostring := Join (map node_String nodes) (str " ").
End NodeString.

(** ** Facts about the traversals *)

Fixpoint preorder (n : Node) : list Node :=
  n :: match n with Operator _ ns _ => concat (map preorder ns) | _ => [] end.
Definition preorder_of (ns : list Node) : list Node := concat (map preorder ns).

Definition to_param (n : Node) : option Param :=
  match n with ParamNode p => Some p | _ => None end.
Definition to_pattern (n : Node) : option Pattern :=
  match n with PatternNode p => Some p | _ => None end.

(** The parameters and the patterns of a tree, from left to right. *)
Definition params_of (ns : list Node) : list Param := omap to_param (leaves_of ns).
Definition patterns_of (ns : list Node) : list Pattern := omap to_pattern (leaves_of ns).

Lemma leaves_of_app ns ms : leaves_of (ns ++ ms) = leaves_of ns ++ leaves_of ms.
Proof. unfold leaves_of. by rewrite map_app, concat_app. Qed.

Lemma leaves_of_cons n ns : leaves_of (n :: ns) = leaves n ++ leaves_of ns.
Proof. done. Qed.

Lemma leaves_of_singleton n : leaves_of [n] = leaves n.
Proof. unfold leaves_of. simpl. apply app_nil_r. Qed.

Lemma leaves_operator k ns a : leaves (Operator k ns a) = leaves_of ns.
Proof. done. Qed.

Lemma nodes_size_app ns ms : nodes_size (ns ++ ms) = (nodes_size ns + nodes_size ms)%nat.
Proof. unfold nodes_size. rewrite map_app. apply list_sum_app. Qed.

Lemma nodes_size_cons n ns : nodes_size (n :: ns) = (node_size n + nodes_size ns)%nat.
Proof. done. Qed.

Lemma node_size_operator k ns a : node_size (Operator k ns a) = S (nodes_size ns).
Proof. done. Qed.

Lemma node_size_pos n : (1 <= node_size n)%nat.
Proof. destruct n; simpl; lia. Qed.

Section ExistsFacts.
Context (fn : Node -> bool).

Lemma existsS_node_pure n :
  existsS_node (fun n (_ : unit) => (fn n, tt)) n tt = (existsb fn (preorder n), tt).
Proof.
  induction n as [p|p|k ns a IH] using Node_nested_ind; simpl;
    try (by destruct (fn _)).
  destruct (fn (Operator k ns a)); [done|]. simpl. clear a k.
  induction IH as [|n ns Hn _ IHns]; [done|].
  rewrite Hn. cbn [map concat]. rewrite existsb_app.
  destruct (existsb fn (preorder n)); [done|]. exact IHns.
Qed.

Lemma Exists_preorder ns : Exists ns fn = existsb fn (preorder_of ns).
Proof.
  unfold Exists, preorder_of. induction ns as [|n ns IH]; [done|].
  simpl. rewrite existsS_node_pure, existsb_app.
  destruct (existsb fn (preorder n)); [done|]. exact IH.
Qed.

(** A test that only leaves can satisfy looks at the leaves only. *)
Lemma existsb_preorder_leaves n :
  (forall k ns a, fn (Operator k ns a) = false) ->
  existsb fn (preorder n) = existsb fn (leaves n).
Proof.
  intros Hop. induction n as [p|p|k ns a IH] using Node_nested_ind; try done.
  simpl. rewrite Hop. simpl. induction IH as [|n ns Hn _ IHns]; [done|].
  simpl. by rewrite !existsb_app, Hn, IHns.
Qed.

Lemma Exists_leaves ns :
  (forall k ns a, fn (Operator k ns a) = false) ->
  Exists ns fn = existsb fn (leaves_of ns).
Proof.
  intros Hop. rewrite Exists_preorder. unfold preorder_of, leaves_of.
  induction ns as [|n ns IH]; [done|].
  simpl. by rewrite !existsb_app, IH, existsb_preorder_leaves.
Qed.
End ExistsFacts.

Lemma isPatternExpression_leaves ns :
  isPatternExpression ns = forallb (fun n => negb (is_param n)) (leaves_of ns).
Proof.
  unfold isPatternExpression. rewrite Exists_leaves by done.
  induction (leaves_of ns) as [|n l IH]; [done|]. simpl. by rewrite negb_orb, IH.
Qed.

Lemma isPatternExpression_app ns ms :
  isPatternExpression (ns ++ ms) = isPatternExpression ns && isPatternExpression ms.
Proof. by rewrite !isPatternExpression_leaves, leaves_of_app, forallb_app. Qed.

Lemma isPatternExpression_cons n ns :
  isPatternExpression (n :: ns) = isPatternExpression [n] && isPatternExpression ns.
Proof. apply (isPatternExpression_app [n] ns). Qed.

Lemma isPatternExpression_operator k ns a :
  isPatternExpression [Operator k ns a] = isPatternExpression ns.
Proof.
  rewrite !isPatternExpression_leaves, leaves_of_cons, leaves_operator.
  by rewrite app_nil_r.
Qed.

Lemma containsPattern_leaves n : containsPattern n = existsb is_pattern (leaves n).
Proof.
  unfold containsPattern. rewrite Exists_leaves by done.
  unfold leaves_of. simpl. by rewrite app_nil_r.
Qed.

Section VisitFacts.
Context {S : Type} (f : gostring -> gostring -> bool -> Annotation -> S -> S).

Definition apply_param (s : S) (p : Param) : S :=
  f p.(par_Field) p.(par_Value) p.(par_Negated) p.(par_Annotation) s.

Lemma Visit_params n s :
  Visit (MkVisitor None (Some f) None) n s = fold_left apply_param (omap to_param (leaves n)) s.
Proof.
  revert s. induction n as [p|p|k ns a IH] using Node_nested_ind; intros s; try done.
  simpl. revert s. induction IH as [|n ns Hn _ IHns]; intros s; [done|].
  simpl. by rewrite omap_app, fold_left_app, Hn, IHns.
Qed.

(** [VisitParameter] calls its callback on the parameters from left to right. *)
Lemma VisitParameter_fold ns s :
  VisitParameter ns f s = fold_left apply_param (params_of ns) s.
Proof.
  unfold VisitParameter, visit_all, params_of, leaves_of. revert s.
  induction ns as [|n ns IH]; intros s; [done|].
  simpl. by rewrite omap_app, fold_left_app, Visit_params, IH.
Qed.
End VisitFacts.

Section VisitPatternFacts.
Context {S : Type} (f : gostring -> bool -> Annotation -> S -> S).

Definition apply_pattern (s : S) (p : Pattern) : S :=
  f p.(pat_Value) p.(pat_Negated) p.(pat_Annotation) s.

Lemma Visit_patterns n s :
  Visit (MkVisitor None None (Some f)) n s = fold_left apply_pattern (omap to_pattern (leaves n)) s.
Proof.
  revert s. induction n as [p|p|k ns a IH] using Node_nested_ind; intros s; try done.
  simpl. revert s. induction IH as [|n ns Hn _ IHns]; intros s; [done|].
  simpl. by rewrite omap_app, fold_left_app, Hn, IHns.
Qed.

Lemma VisitPattern_fold ns s :
  VisitPattern ns f s = fold_left apply_pattern (patterns_of ns) s.
Proof.
  unfold VisitPattern, visit_all, patterns_of, leaves_of. revert s.
  induction ns as [|n ns IH]; intros s; [done|].
  simpl. by rewrite omap_app, fold_left_app, Visit_patterns, IH.
Qed.
End VisitPatternFacts.
