(* ===== verification/Operators.v ===== *)
(** Operator construction: [reduce], [NewOperator] and [partitionParameters]
    of [internal/search/query/parser.go], with their boolean meaning.

    Go slices are lists here.  [reduce] appends in place to slices it does not
    own ([operator.Operands]), but [NewOperator] copies the reduced list before
    any other use of it, so no write is ever seen through another slice. *)
From S2P Require Import Prelude GoStr GoLib Syntax.

(** The cases of [reduce] that return early, for the left list [[l]] and the
    right list [r :: rs]; [None] when the [switch] falls through. *)
Definition reduce_head (l r : Node) (rs : list Node) (kind : OperatorKind) : option (list Node) :=
  let reduce_left :=
    match l with
    | Operator k operands _ => if kind_eqb k kind then Some (operands ++ r :: rs) else None
    | _ => None
    end in
  match l with
  | ParamNode (MkParam _ [] _ _) => Some (r :: rs)
  | _ =>
    match r with
    | Operator k operands _ => if kind_eqb kind k then Some ([l] ++ operands ++ rs) else None
    | ParamNode p => match par_Value p with [] => Some ([l] ++ rs) | _ => reduce_left end
    | PatternNode p => match pat_Value p with [] => Some ([l] ++ rs) | _ => reduce_left end
    end
  end.

(** [reduce([]Node{l}, append([]Node{r}, rs...), kind)]: at both call sites the
    left list is a singleton and the right list is not empty, which is what
    makes the source's [left[0]] and [right[0]] safe. *)
Fixpoint reduce (l r : Node) (rs : list Node) (kind : OperatorKind) : list Node * bool :=
  match reduce_head l r rs kind with
  | Some ns => (ns, true)
  | None =>
    match rs with
    | r2 :: rs2 =>
        let '(reduced, changed) := reduce r r2 rs2 kind in
        if changed then ([l] ++ reduced, true) else ([l] ++ r :: rs, false)
    | [] => ([l] ++ r :: rs, false)
    end
  end.

Fixpoint NewOperator_aux (fuel : nat) (nodes : list Node) (kind : OperatorKind) : list Node :=
  match nodes with
  | [] => []
  | [n] => [n]
  | n :: r :: rs =>
    match fuel with
    | O => [Operator kind nodes zeroAnnotation]
    | S fuel =>
      let '(reduced, changed) := reduce n r rs kind in
      if changed then NewOperator_aux fuel reduced kind
      else [Operator kind reduced zeroAnnotation]
    end
  end.

(** Every changing [reduce] removes a node, so the size of the input bounds the
    recursion; [NewOperator_unfold] below is the source's recursion equation. *)
Definition NewOperator (nodes : list Node) (kind : OperatorKind) : list Node :=
  NewOperator_aux (nodes_size nodes) nodes kind.

Definition partition_step (acc : list Node * list Node) (n : Node) : list Node * list Node :=
  let '(patterns, unorderedParams) := acc in
  match n with
  | PatternNode _ => (patterns ++ [n], unorderedParams)
  | ParamNode _ => (patterns, unorderedParams ++ [n])
  | Operator _ _ _ =>
      if containsPattern n then (patterns ++ [n], unorderedParams)
      else (patterns, unorderedParams ++ [n])
  end.

Definition partitionParameters (nodes : list Node) : list Node :=
  let '(patterns, unorderedParams) := List.fold_left partition_step nodes ([], []) in
  if Nat.ltb 1 (length patterns) then
    NewOperator (unorderedParams ++ NewOperator patterns Concat) And
  else NewOperator (unorderedParams ++ patterns) And.

(** ** Specifications *)

(** A leaf whose value is the empty string. *)
Definition empty_leaf (n : Node) : bool :=
  match n with
  | PatternNode p => gs_eqb (pat_Value p) []
  | ParamNode p => gs_eqb (par_Value p) []
  | Operator _ _ _ => false
  end.

Definition nonempty_leaves (ns : list Node) : list Node :=
  List.filter (fun n => negb (empty_leaf n)) (leaves_of ns).

(** Boolean meaning of a tree under a valuation of its leaves; [Concat] is a
    conjunction whose operands are ordered. *)
Definition combine (k : OperatorKind) (bs : list bool) : bool :=
  match k with
  | Or => existsb id bs
  | And | Concat => forallb id bs
  end.

Fixpoint eval (v : Node -> bool) (n : Node) : bool :=
  match n with
  | Operator k ns _ => combine k (map (eval v) ns)
  | _ => v n
  end.

Definition eval_list (v : Node -> bool) (k : OperatorKind) (ns : list Node) : bool :=
  combine k (map (eval v) ns).
Arguments eval_list : simpl never.

(** A property of every operator of a tree: its kind and number of operands. *)
Fixpoint all_ops (Q : OperatorKind -> nat -> Prop) (n : Node) : Prop :=
  match n with
  | Operator k ns _ =>
      Q k (length ns) /\
      (fix go (ns : list Node) : Prop :=
         match ns with [] => True | n :: ns => all_ops Q n /\ go ns end) ns
  | _ => True
  end.

Lemma all_ops_operator Q k ns a :
  all_ops Q (Operator k ns a) <-> Q k (length ns) /\ Forall (all_ops Q) ns.
Proof.
  simpl. assert (forall l, (fix go (ns : list Node) : Prop :=
         match ns with [] => True | n :: ns => all_ops Q n /\ go ns end) l
         <-> Forall (all_ops Q) l) as H; [|by rewrite H].
  induction l as [|n l IH]; [split; constructor|]. by rewrite Forall_cons, IH.
Qed.

#[global] Arguments all_ops : simpl never.

(** ** [reduce] *)

Lemma kind_eqb_eq a b : kind_eqb a b = true <-> a = b.
Proof. apply bool_decide_eq_true. Qed.

(** Case analysis of [reduce]: the list it returns is the whole list, the list
    with one empty leaf removed, or the list with one operator of the same kind
    replaced by its operands. *)
Inductive reduces (kind : OperatorKind) : list Node -> list Node -> Prop :=
| reduces_drop pre n post :
    empty_leaf n = true -> (pre <> [] \/ post <> []) ->
    reduces kind (pre ++ n :: post) (pre ++ post)
| reduces_flatten pre ops a post :
    (pre <> [] \/ post <> []) ->
    reduces kind (pre ++ Operator kind ops a :: post) (pre ++ ops ++ post).

Lemma reduces_cons kind n ns ms : reduces kind ns ms -> reduces kind (n :: ns) (n :: ms).
Proof.
  intros [pre m post He _|pre ops a post _].
  - apply (reduces_drop _ (n :: pre)); auto.
  - apply (reduces_flatten _ (n :: pre)); auto.
Qed.

Lemma reduce_head_spec kind l r rs ns :
  reduce_head l r rs kind = Some ns -> reduces kind (l :: r :: rs) ns.
Proof.
  assert (forall k ops a, kind_eqb k kind = true ->
            reduces kind (Operator k ops a :: r :: rs) (ops ++ r :: rs)) as Hleft.
  { intros k ops a ->%kind_eqb_eq. apply (reduces_flatten kind []); auto. }
  assert (forall n, empty_leaf n = true -> reduces kind (l :: n :: rs) (l :: rs)) as Hdrop.
  { intros n He. apply (reduces_drop kind [l]); auto. }
  unfold reduce_head. destruct l as [lp|[? [|] ? ?]|k ops a];
    destruct r as [[[|] ? ?]|[? [|] ? ?]|k' ops' a']; simpl;
    repeat case_match; intros; simplify_eq; auto;
    try (by apply (reduces_drop kind []); auto);
    match goal with H : kind_eqb ?a ?b = true |- _ => apply kind_eqb_eq in H as -> end;
    by apply (reduces_flatten _ [_]); auto.
Qed.

Lemma reduce_spec kind rs l r ns changed :
  reduce l r rs kind = (ns, changed) ->
  if changed then reduces kind (l :: r :: rs) ns else ns = l :: r :: rs.
Proof.
  revert l r ns changed.
  induction rs as [|r2 rs IH]; intros l r ns changed; simpl;
    destruct (reduce_head _ _ _ _) eqn:Hh; intros Hred; simplify_eq;
    try (by apply reduce_head_spec).
  - done.
  - destruct (reduce r r2 rs kind) as [reduced [|]] eqn:E; simplify_eq; [|done].
    by apply reduces_cons, (IH _ _ _ _ E).
Qed.

Lemma reduces_size kind ns ms : reduces kind ns ms -> (nodes_size ms < nodes_size ns)%nat.
Proof.
  intros [pre n post _ _|pre ops a post _]; rewrite !nodes_size_app, nodes_size_cons.
  - pose proof (node_size_pos n). lia.
  - rewrite node_size_operator. lia.
Qed.

Lemma reduces_nonnil kind ns ms : reduces kind ns ms -> ms <> [].
Proof.
  intros [pre n post _ Hne|pre ops a post Hne] H; apply app_nil in H as [-> H];
    [|apply app_nil in H as [_ H]]; destruct Hne; congruence.
Qed.

(** ** [NewOperator] *)

Lemma NewOperator_aux_fuel kind fuel1 fuel2 ns :
  (nodes_size ns <= fuel1)%nat -> (nodes_size ns <= fuel2)%nat ->
  NewOperator_aux fuel1 ns kind = NewOperator_aux fuel2 ns kind.
Proof.
  revert fuel2 ns. induction fuel1 as [|f1 IH]; intros fuel2 ns H1 H2.
  all: destruct ns as [|n [|r rs]]; [by destruct fuel2..|].
  all: rewrite !nodes_size_cons in H1, H2; pose proof (node_size_pos n).
  - lia.
  - destruct fuel2 as [|f2]; [lia|]. simpl.
    destruct (reduce n r rs kind) as [ms [|]] eqn:E; [|done].
    apply reduce_spec, reduces_size in E. rewrite !nodes_size_cons in E. apply IH; lia.
Qed.

(** The recursion equation of [NewOperator]. *)
Lemma NewOperator_unfold nodes kind :
  NewOperator nodes kind =
  match nodes with
  | [] => []
  | [n] => [n]
  | n :: r :: rs =>
      let '(reduced, changed) := reduce n r rs kind in
      if changed then NewOperator reduced kind
      else [Operator kind reduced zeroAnnotation]
  end.
Proof.
  destruct nodes as [|n [|r rs]]; [done|by unfold NewOperator; destruct (nodes_size [n])|].
  unfold NewOperator at 1. pose proof (node_size_pos n).
  destruct (nodes_size (n :: r :: rs)) as [|f] eqn:Hf; [rewrite nodes_size_cons in Hf; lia|].
  simpl. destruct (reduce n r rs kind) as [ms [|]] eqn:E; [|done].
  apply reduce_spec, reduces_size in E. apply NewOperator_aux_fuel; lia.
Qed.

(** The shape of the result: the reduced operands, alone or under one operator. *)
Lemma NewOperator_shape nodes kind :
  nodes <> [] ->
  exists ms n, rtc (reduces kind) nodes ms /\ NewOperator nodes kind = [n] /\
    (ms = [n] \/ (2 <= length ms)%nat /\ n = Operator kind ms zeroAnnotation).
Proof.
  induction nodes as [nodes IH] using (induction_ltof1 _ nodes_size). unfold ltof in IH.
  intros Hne. rewrite NewOperator_unfold.
  destruct nodes as [|n [|r rs]]; [done|exists [n], n; split_and!; auto; constructor|].
  destruct (reduce n r rs kind) as [ms [|]] eqn:E; apply reduce_spec in E.
  - destruct (IH ms) as (ms' & m & Hr & Hn & Hs);
      [by apply reduces_size in E|by apply reduces_nonnil in E|].
    exists ms', m. split_and!; auto. by eapply rtc_l.
  - subst ms. eexists _, _. split_and!; [constructor|done|]. right. simpl. split; [lia|done].
Qed.

Lemma NewOperator_nil kind : NewOperator [] kind = [].
Proof. done. Qed.

Lemma NewOperator_singleton n kind : NewOperator [n] kind = [n].
Proof. by rewrite NewOperator_unfold. Qed.

Lemma NewOperator_nonnil nodes kind : nodes <> [] -> NewOperator nodes kind <> [].
Proof. intros H. destruct (NewOperator_shape _ kind H) as (ms & n & _ & -> & _). done. Qed.

(** A transfer principle: what one reduction keeps, [NewOperator] keeps. *)
Lemma NewOperator_ind kind (R : list Node -> list Node -> Prop) nodes :
  (forall ns, R ns ns) ->
  (forall ns ms os, reduces kind ns ms -> R ms os -> R ns os) ->
  (forall ns ms, R ns ms -> (2 <= length ms)%nat -> R ns [Operator kind ms zeroAnnotation]) ->
  R nodes (NewOperator nodes kind).
Proof.
  intros Hrefl Hstep Hop.
  assert (nodes = [] \/ nodes <> []) as [->|Hne] by (destruct nodes; auto); [apply Hrefl|].
  destruct (NewOperator_shape nodes kind Hne) as (ms & n & Hr & -> & Hs).
  assert (R nodes ms) as HR by (clear Hs Hne; induction Hr; eauto).
  destruct Hs as [->|[? ->]]; auto.
Qed.

Lemma nonempty_leaves_app ns ms :
  nonempty_leaves (ns ++ ms) = nonempty_leaves ns ++ nonempty_leaves ms.
Proof. unfold nonempty_leaves. by rewrite leaves_of_app, List.filter_app. Qed.

Lemma nonempty_leaves_operator k ns a :
  nonempty_leaves [Operator k ns a] = nonempty_leaves ns.
Proof.
  unfold nonempty_leaves. by rewrite leaves_of_cons, leaves_operator, app_nil_r.
Qed.

Lemma nonempty_leaves_empty n : empty_leaf n = true -> nonempty_leaves [n] = [].
Proof.
  unfold nonempty_leaves. destruct n; [| |done]; unfold leaves_of; simpl; intros ->; done.
Qed.

Lemma nonempty_leaves_cons n ns :
  nonempty_leaves (n :: ns) = nonempty_leaves [n] ++ nonempty_leaves ns.
Proof. apply (nonempty_leaves_app [n] ns). Qed.

Lemma NewOperator_nonempty_leaves nodes kind :
  nonempty_leaves (NewOperator nodes kind) = nonempty_leaves nodes.
Proof.
  apply (NewOperator_ind kind (fun ns ms => nonempty_leaves ms = nonempty_leaves ns)); [done| |].
  - intros ns ms os [pre n post He _|pre ops a post _] ->; rewrite !nonempty_leaves_app.
    + by rewrite (nonempty_leaves_cons n), nonempty_leaves_empty.
    + by rewrite (nonempty_leaves_cons (Operator _ _ _)), nonempty_leaves_operator.
  - intros ns ms <- _. apply nonempty_leaves_operator.
Qed.

Lemma NewOperator_leaves_sublist nodes kind :
  leaves_of (NewOperator nodes kind) `sublist_of` leaves_of nodes.
Proof.
  apply (NewOperator_ind kind (fun ns ms => leaves_of ms `sublist_of` leaves_of ns)); [done| |].
  - intros ns ms os [pre n post He _|pre ops a post _] Hs; etrans; eauto;
      rewrite !leaves_of_app, leaves_of_cons.
    + apply sublist_app; [done|]. by apply sublist_inserts_l.
    + by rewrite leaves_operator.
  - intros ns ms Hs _. by rewrite leaves_of_cons, leaves_operator, app_nil_r.
Qed.

Lemma NewOperator_Forall_leaves (P : Node -> Prop) nodes kind :
  Forall P (leaves_of nodes) -> Forall P (leaves_of (NewOperator nodes kind)).
Proof. intros. by eapply Forall_sublist_of; [apply NewOperator_leaves_sublist|]. Qed.

Lemma NewOperator_all_ops Q nodes kind :
  (forall m, (2 <= m)%nat -> Q kind m) ->
  Forall (all_ops Q) nodes -> Forall (all_ops Q) (NewOperator nodes kind).
Proof.
  intros HQ. apply (NewOperator_ind kind
    (fun ns ms => Forall (all_ops Q) ns -> Forall (all_ops Q) ms)); [done| |].
  - intros ns ms os [pre n post He _|pre ops a post _] Hs HF; apply Hs;
      apply Forall_app in HF as [HF1 HF2]; apply Forall_cons in HF2 as [Hn HF2].
    + by apply Forall_app_2.
    + apply all_ops_operator in Hn as [_ Hn]. by do 2 (apply Forall_app_2; [done|]).
  - intros ns ms Hs Hl HF. apply Forall_singleton, all_ops_operator. auto.
Qed.

(** ** Meaning *)

Definition no_empty (ns : list Node) : Prop := Forall (fun n => empty_leaf n = false) (leaves_of ns).

Lemma combine_app k bs cs :
  combine k (bs ++ cs) =
  match k with Or => combine k bs || combine k cs | _ => combine k bs && combine k cs end.
Proof. destruct k; simpl; rewrite ?existsb_app, ?forallb_app; done. Qed.

Lemma eval_list_app v k ns ms :
  eval_list v k (ns ++ ms) =
  match k with
  | Or => eval_list v k ns || eval_list v k ms
  | _ => eval_list v k ns && eval_list v k ms
  end.
Proof. unfold eval_list. by rewrite map_app, combine_app. Qed.

Lemma eval_list_singleton v k n : eval_list v k [n] = eval v n.
Proof. unfold eval_list. destruct k; simpl; by rewrite ?orb_false_r, ?andb_true_r. Qed.

Lemma no_empty_app ns ms : no_empty (ns ++ ms) <-> no_empty ns /\ no_empty ms.
Proof. unfold no_empty. by rewrite leaves_of_app, Forall_app. Qed.

Lemma no_empty_cons n ns : no_empty (n :: ns) <-> no_empty [n] /\ no_empty ns.
Proof. apply (no_empty_app [n] ns). Qed.

Lemma no_empty_operator k ns a : no_empty [Operator k ns a] <-> no_empty ns.
Proof. unfold no_empty. by rewrite leaves_of_cons, leaves_operator, app_nil_r. Qed.

Lemma NewOperator_no_empty nodes kind : no_empty nodes -> no_empty (NewOperator nodes kind).
Proof. apply NewOperator_Forall_leaves. Qed.

Lemma reduces_eval v kind ns ms :
  reduces kind ns ms -> no_empty ns -> eval_list v kind ms = eval_list v kind ns /\ no_empty ms.
Proof.
  intros [pre n post He _|pre ops a post _]; rewrite !no_empty_app.
  - intros [_ [Hn _]%no_empty_cons]. unfold no_empty in Hn. destruct n; [| |done];
      apply Forall_cons in Hn as [Hn _]; congruence.
  - rewrite no_empty_cons, no_empty_operator. intros (Hp & Ho & Hq). split; [|done].
    change (Operator kind ops a :: post) with ([Operator kind ops a] ++ post).
    rewrite !eval_list_app, eval_list_singleton. done.
Qed.

(** On trees without empty leaves [NewOperator] has the meaning of the operator
    it is asked to build. *)
Lemma NewOperator_eval v nodes kind :
  nodes <> [] -> no_empty nodes ->
  exists n, NewOperator nodes kind = [n] /\ eval v n = eval_list v kind nodes.
Proof.
  intros Hne He. destruct (NewOperator_shape nodes kind Hne) as (ms & n & Hr & -> & Hs).
  exists n. split; [done|].
  assert (eval_list v kind ms = eval_list v kind nodes) as <-.
  { clear Hs Hne. induction Hr as [|ns ms os Hstep Hr IH]; [done|].
    apply (reduces_eval v) in Hstep as [<- ?]; auto. }
  destruct Hs as [->|[_ ->]]; [by rewrite eval_list_singleton|done].
Qed.
