(* ===== verification/Scan.v ===== *)
(** The scanners of [internal/search/query/parser.go]: functions from a byte
    buffer to a scanned value and the number of bytes consumed.

    A loop [for len(buf) > 0 { r = next(); ... }] is a recursion over
    [segments buf], whose elements are the successive results of
    [utf8.DecodeRune] together with the buffer left after each. *)
From S2P Require Import Prelude GoStr GoLib Syntax.
Import Utf8.

(** ** Predicates known to the scanner ([predicate.go]) *)
Inductive PredicateKind :=
| RepoContainsFilePredicate | RepoContainsPathPredicate | RepoContainsContentPredicate
| RepoContainsCommitAfterPredicate | RepoHasDescriptionPredicate | RepoHasTagPredicate
| RepoHasKVPPredicate | RepoHasKeyPredicate | RepoHasMetaPredicate | RepoHasTopicPredicate
| RepoContainsPredicate | FileContainsContentPredicate | FileHasOwnerPredicate.

#[export] Instance PredicateKind_eq_dec : EqDecision PredicateKind.
Proof. solve_decision. Defined.

Definition PredicateTable := list (gostring * PredicateKind).
Definition PredicateRegistry := list (gostring * PredicateTable).

Definition DefaultPredicateRegistry : PredicateRegistry :=
  [(FieldRepo,
    [(str "contains.file", RepoContainsFilePredicate);
     (str "has.file", RepoContainsFilePredicate);
     (str "contains.path", RepoContainsPathPredicate);
     (str "has.path", RepoContainsPathPredicate);
     (str "contains.content", RepoContainsContentPredicate);
     (str "has.content", RepoContainsContentPredicate);
     (str "contains.commit.after", RepoContainsCommitAfterPredicate);
     (str "has.commit.after", RepoContainsCommitAfterPredicate);
     (str "has.description", RepoHasDescriptionPredicate);
     (str "has.tag", RepoHasTagPredicate);
     (str "has", RepoHasKVPPredicate);
     (str "has.key", RepoHasKeyPredicate);
     (str "has.meta", RepoHasMetaPredicate);
     (str "has.topic", RepoHasTopicPredicate);
     (str "contains", RepoContainsPredicate)]);
   (FieldFile,
    [(str "contains.content", FileContainsContentPredicate);
     (str "has.content", FileContainsContentPredicate);
     (str "has.owner", FileHasOwnerPredicate)])].

Definition LPAREN_rune : rune := 40%Z.
Definition RPAREN_rune : rune := 41%Z.
Definition BACKSLASH : rune := 92%Z.
Definition DQUOTE_rune : rune := 34%Z.
Definition SQUOTE_rune : rune := 39%Z.
Definition SLASH_rune : rune := 47%Z.
Definition COLON : rune := 58%Z.
Definition DASH : rune := 45%Z.
Definition DOT : rune := 46%Z.

(** ** Whitespace *)

Definition isSpace (buf : gostring) : bool := IsSpace (fst (DecodeRune buf)).

Fixpoint skipSpace_loop (segs : list seg) (count : nat) : nat :=
  match segs with
  | [] => count
  | s :: segs =>
      if negb (IsSpace (seg_rune s)) then count
      else skipSpace_loop segs (count + seg_width s)
  end.
Definition skipSpace (buf : gostring) : nat := skipSpace_loop (segments buf) 0.

(** ** Patterns without delimiters *)

Fixpoint scanAny_loop (segs : list seg) (result : list rune) (count : nat) : list rune * nat :=
  match segs with
  | [] => (result, count)
  | s :: segs =>
      if IsSpace (seg_rune s) then (result, count)
      else scanAny_loop segs (result ++ [seg_rune s]) (count + seg_width s)
  end.

Definition ScanAnyPattern (buf : gostring) : gostring * nat :=
  let '(result, count) := scanAny_loop (segments buf) [] 0 in (of_runes result, count).

Fixpoint scanValue_loop (allowDanglingParens : bool) (segs : list seg) (result : list rune)
    (count : nat) : list rune * nat :=
  match segs with
  | [] => (result, count)
  | s :: segs =>
      let r := seg_rune s in
      let count' := (count + seg_width s)%nat in
      if IsSpace r then (result, count)
      else if (r =? LPAREN_rune)%Z || (r =? RPAREN_rune)%Z then
        if allowDanglingParens
        then scanValue_loop allowDanglingParens segs (result ++ [r]) count'
        else (result, count)
      else if (r =? BACKSLASH)%Z then
        match segs with
        | s2 :: segs2 =>
            scanValue_loop allowDanglingParens segs2 (result ++ [BACKSLASH; seg_rune s2])
              (count' + seg_width s2)
        | [] => scanValue_loop allowDanglingParens segs (result ++ [r]) count'
        end
      else scanValue_loop allowDanglingParens segs (result ++ [r]) count'
  end.

Definition ScanValue (buf : gostring) (allowDanglingParens : bool) : gostring * nat :=
  let '(result, count) := scanValue_loop allowDanglingParens (segments buf) [] 0 in
  (of_runes result, count).

(** ** Delimited values *)

Definition err_unrecognized_escape : gerror := ErrorNew (str "unrecognized escape sequence").
Definition err_unterminated_escape : gerror := ErrorNew (str "unterminated escape sequence").
Definition err_unterminated (delimiter : rune) : gerror :=
  ErrorNew (str "unterminated literal: expected " ++ EncodeRune delimiter).

(** The runes an escape sequence stands for; [None] when it is not recognised
    in strict mode. *)
Definition unescape (strict : bool) (delimiter r : rune) : option (list rune) :=
  if existsb (Z.eqb r) (str "abfv") then Some [BACKSLASH; r]
  else if (r =? chr "n")%Z then Some [10%Z]
  else if (r =? chr "r")%Z then Some [13%Z]
  else if (r =? chr "t")%Z then Some [9%Z]
  else if (r =? BACKSLASH)%Z || (r =? delimiter)%Z then Some [r]
  else if strict then None
  else Some [BACKSLASH; r].

(** The loop of [ScanDelimited]: [inl] is the state at loop exit (last rune
    read, runes collected, bytes read), [inr] an early return. *)
Fixpoint scanDelimited_loop (strict : bool) (delimiter : rune) (segs : list seg) (r : rune)
    (result : list rune) (count : nat) : (rune * list rune * nat) + (nat * gerror) :=
  match segs with
  | [] => inl (r, result, count)
  | s :: segs =>
      let r := seg_rune s in
      let count := (count + seg_width s)%nat in
      if (r =? delimiter)%Z then inl (r, result, count)
      else if (r =? BACKSLASH)%Z then
        match segs with
        | s2 :: segs2 =>
            let r := seg_rune s2 in
            let count := (count + seg_width s2)%nat in
            match unescape strict delimiter r with
            | None => inr (count, err_unrecognized_escape)
            | Some rs =>
                match seg_rest s2 with
                | [] => inr (count, err_unterminated delimiter)
                | _ => scanDelimited_loop strict delimiter segs2 r (result ++ rs) count
                end
            end
        | [] => inr (count, err_unterminated_escape)
        end
      else scanDelimited_loop strict delimiter segs r (result ++ [r]) count
  end.

Definition ScanDelimited (buf : gostring) (strict : bool) (delimiter : rune)
    : run (result gerror (gostring * nat)) :=
  let '(r, advance) := DecodeRune buf in
  if negb (r =? delimiter)%Z then
    Panics "ScanDelimited expects the input buffer to start with delimiter"
  else
    Done match scanDelimited_loop strict delimiter (segments (drop advance buf)) r [] advance with
         | inr (_, err) => Err err
         | inl (r, result, count) =>
             if negb (r =? delimiter)%Z || (r =? delimiter)%Z && Nat.eqb count 1
             then Err (err_unterminated delimiter)
             else Ok (of_runes result, count)
         end.

(** ** Balanced parentheses *)

(** [None] is Go's [("", 0, false)]. *)
Fixpoint scanParens_loop (segs : list seg) (result : list rune) (count : nat) (balance : Z)
    : option (list rune * nat) :=
  match segs with
  | [] => None
  | s :: segs =>
      let r := seg_rune s in
      let count := (count + seg_width s)%nat in
      let result := result ++ [r] in
      if (r =? RuneError)%Z then None
      else if (r =? LPAREN_rune)%Z then scanParens_loop segs result count (balance + 1)
      else if (r =? RPAREN_rune)%Z then
        if (balance - 1 =? 0)%Z then Some (result, count)
        else scanParens_loop segs result count (balance - 1)
      else if (r =? BACKSLASH)%Z then
        match segs with
        | s2 :: segs2 =>
            scanParens_loop segs2 (result ++ [seg_rune s2]) (count + seg_width s2) balance
        | [] => None
        end
      else scanParens_loop segs result count balance
  end.

Definition ScanBalancedParens (buf : gostring) : run (option (gostring * nat)) :=
  let '(r, advance) := DecodeRune buf in
  if negb (r =? LPAREN_rune)%Z then
    Panics "ScanBalancedParens expects the input buffer to start with delimiter ("
  else
    Done match scanParens_loop (segments (drop advance buf)) [r] advance 1 with
         | Some (result, count) => Some (of_runes result, count)
         | None => None
         end.

(** ** Fields, balanced patterns and predicates *)
Section Fields.
Context {U : UnicodeTables}.

Fixpoint scanField_loop (segs : list seg) (result : list rune) (count : nat)
    : list rune * nat * bool :=
  match segs with
  | [] => (result, count, false)
  | s :: segs =>
      let r := seg_rune s in
      let count := (count + seg_width s)%nat in
      if is_alpha r then scanField_loop segs (result ++ [r]) count
      else if (r =? COLON)%Z then
        (result, count, negb (hd 0%Z result =? DASH)%Z || Nat.ltb 1 (length result))
      else (result, count, false)
  end.

(** The field, whether it is negated, and the bytes consumed; [([], false, 0)]
    when the buffer does not start with a recognised field. *)
Definition ScanField (buf : gostring) : gostring * bool * nat :=
  let '(r, advance) := DecodeRune buf in
  if negb (r =? DASH)%Z && negb (is_alpha r) then ([], false, 0%nat)
  else
    let '(result, count, success) := scanField_loop (segments (drop advance buf)) [r] advance in
    if negb success then ([], false, 0%nat)
    else
      let field := of_runes result in
      let negated := (hd 0%Z field =? DASH)%Z in
      let field := if negated then tail field else field in
      if negb (known_field (ToLower field)) then ([], false, 0%nat)
      else (field, negated, count).

Definition lookahead (buf v : gostring) : bool :=
  if Nat.ltb (length buf) (length v) then false
  else EqualFold (take (length v) buf) v.

Definition keepScanning (buf : gostring) : bool :=
  let '(field, _, _) := ScanField buf in
  if negb (gs_eqb field []) then false
  else if lookahead buf (str "and ") || lookahead buf (str "or ") || lookahead buf (str "not ")
  then false
  else true.

(** [None] is the early return [("", 0, false)]. *)
Fixpoint scanBalanced_loop (segs : list seg) (result : list rune) (count : nat) (balanced : Z)
    : option (list rune * nat * Z) :=
  match segs with
  | [] => Some (result, count, balanced)
  | s :: segs =>
      let r := seg_rune s in
      let count' := (count + seg_width s)%nat in
      if IsSpace r && (balanced =? 0)%Z then Some (result, count, balanced)
      else if (r =? LPAREN_rune)%Z then
        if negb (keepScanning (seg_rest s)) then None
        else scanBalanced_loop segs (result ++ [r]) count' (balanced + 1)
      else if (r =? RPAREN_rune)%Z then
        if (balanced - 1 <? 0)%Z then Some (result, count, 0%Z)
        else scanBalanced_loop segs (result ++ [r]) count' (balanced - 1)
      else if IsSpace r then
        if negb (keepScanning (seg_rest s)) then None
        else scanBalanced_loop segs (result ++ [r]) count' balanced
      else if (r =? BACKSLASH)%Z then
        match segs with
        | s2 :: segs2 =>
            scanBalanced_loop segs2 (result ++ [BACKSLASH; seg_rune s2])
              (count' + seg_width s2) balanced
        | [] => scanBalanced_loop segs (result ++ [r]) count' balanced
        end
      else scanBalanced_loop segs (result ++ [r]) count' balanced
  end.

(** [None] when the Go function returns [ok = false]. *)
Definition ScanBalancedPattern (buf : gostring) : option (gostring * nat) :=
  if negb (keepScanning buf) then None
  else match scanBalanced_loop (segments buf) [] 0 0 with
       | None => None
       | Some (result, count, balanced) =>
           if (balanced =? 0)%Z then Some (of_runes result, count) else None
       end.

(** The name loop: [(predicateName, advance)].  Reaching the end of the buffer
    or an invalid byte leaves the name empty. *)
Fixpoint scanPredicateName_loop (segs : list seg) (buf : gostring) (advance : nat)
    : gostring * nat :=
  match segs with
  | [] => ([], advance)
  | s :: segs =>
      let r := seg_rune s in
      if (r =? RuneError)%Z then ([], advance)
      else if negb (IsLetter r || (r =? DOT)%Z) then (take advance buf, advance)
      else scanPredicateName_loop segs buf (advance + seg_width s)
  end.

Definition ScanPredicateName (buf : gostring) (lookup : PredicateTable) : option (gostring * nat) :=
  let '(predicateName, advance) := scanPredicateName_loop (segments buf) buf 0 in
  match assoc predicateName lookup with
  | None => None
  | Some _ => Some (predicateName, advance)
  end.

Definition ScanPredicate (field buf : gostring) (lookup : PredicateRegistry)
    : run (option (gostring * nat)) :=
  match assoc (resolveFieldAlias field) lookup with
  | None => Done None
  | Some fieldRegistry =>
    match ScanPredicateName buf fieldRegistry with
    | None => Done None
    | Some (predicateName, nameAdvance) =>
      let buf := drop nameAdvance buf in
      match buf with
      | [] => Done None
      | b :: _ =>
        if negb (b =? LPAREN_rune)%Z then Done None
        else
          let! scanned := ScanBalancedParens buf in
          match scanned with
          | None => Done None
          | Some (params, paramsAdvance) =>
              Done (Some (predicateName ++ params, (nameAdvance + paramsAdvance)%nat))
          end
      end
    end
  end.

End Fields.
