(* ===== verification/Mapper.v ===== *)
(** The tree mappers of [internal/search/query/mapper.go].

    A mapper's callbacks are closures that may update captured variables, so
    they carry a state [S]; a callback that returns a nil [Node] removes the
    node it was called on. *)
From S2P Require Import Prelude GoStr GoLib Syntax Operators.

(** A [Mapper] by the methods it overrides: [m_operator] is [None] for the
    [BaseMapper] method, which maps the operands. *)
Record Mapper (S : Type) := MkMapper
  { m_operator : option (OperatorKind -> list Node -> S -> list Node * S);
    m_parameter : gostring -> gostring -> bool -> Annotation -> S -> option Node * S;
    m_pattern : gostring -> bool -> Annotation -> S -> option Node * S }.
Arguments MkMapper {S}.
Arguments m_operator {S}.
Arguments m_parameter {S}.
Arguments m_pattern {S}.

(** The [BaseMapper] methods for leaves: the identity. *)
Definition BaseMapParameter {S} (field value : gostring) (negated : bool) (a : Annotation) (s : S)
    : option Node * S := (Some (ParamNode (MkParam field value negated a)), s).
Definition BaseMapPattern {S} (value : gostring) (negated : bool) (a : Annotation) (s : S)
    : option Node * S := (Some (PatternNode (MkPattern value negated a)), s).

Section MapNodes.
Context {S : Type}.

Fixpoint map_node (m : Mapper S) (node : Node) (s : S) : list Node * S :=
  match node with
  | PatternNode v =>
      let '(r, s) := m.(m_pattern) v.(pat_Value) v.(pat_Negated) v.(pat_Annotation) s in
      (option_list r, s)
  | ParamNode v =>
      let '(r, s) :=
        m.(m_parameter) v.(par_Field) v.(par_Value) v.(par_Negated) v.(par_Annotation) s in
      (option_list r, s)
  | Operator kind operands _ =>
      match m.(m_operator) with
      | Some callback => let '(ns, s) := callback kind operands s in (NewOperator ns And, s)
      | None =>
          let '(ns, s) :=
            (fix go (ns : list Node) (s : S) : list Node * S :=
               match ns with
               | [] => ([], s)
               | n :: ns =>
                   let '(mapped, s) := map_node m n s in
                   let '(rest, s) := go ns s in (mapped ++ rest, s)
               end) operands s in
          (NewOperator ns kind, s)
      end
  end.

Fixpoint MapNodes (m : Mapper S) (nodes : list Node) (s : S) : list Node * S :=
  match nodes with
  | [] => ([], s)
  | n :: ns =>
      let '(mapped, s) := map_node m n s in
      let '(rest, s) := MapNodes m ns s in (mapped ++ rest, s)
  end.

Definition MapOperatorS (nodes : list Node)
    (callback : OperatorKind -> list Node -> S -> list Node * S) : S -> list Node * S :=
  MapNodes (MkMapper (Some callback) BaseMapParameter BaseMapPattern) nodes.

Definition MapParameterS (nodes : list Node)
    (callback : gostring -> gostring -> bool -> Annotation -> S -> option Node * S)
    : S -> list Node * S :=
  MapNodes (MkMapper None callback BaseMapPattern) nodes.

Definition MapPatternS (nodes : list Node)
    (callback : gostring -> bool -> Annotation -> S -> option Node * S) : S -> list Node * S :=
  MapNodes (MkMapper None BaseMapParameter callback) nodes.

Definition MapFieldS (nodes : list Node) (field : gostring)
    (callback : gostring -> bool -> Annotation -> S -> option Node * S) : S -> list Node * S :=
  MapNodes
    (MkMapper None
       (fun gotField value negated a s =>
          if gs_eqb field gotField then callback value negated a s
          else BaseMapParameter gotField value negated a s)
       BaseMapPattern) nodes.
End MapNodes.

(** The same functions for callbacks that capture no variable. *)
Definition MapOperator (nodes : list Node) (callback : OperatorKind -> list Node -> list Node)
    : list Node :=
  fst (MapOperatorS nodes (fun k ns (_ : unit) => (callback k ns, tt)) tt).

Definition MapParameter (nodes : list Node)
    (callback : gostring -> gostring -> bool -> Annotation -> option Node) : list Node :=
  fst (MapParameterS nodes (fun f v n a (_ : unit) => (callback f v n a, tt)) tt).

Definition MapPattern (nodes : list Node)
    (callback : gostring -> bool -> Annotation -> option Node) : list Node :=
  fst (MapPatternS nodes (fun v n a (_ : unit) => (callback v n a, tt)) tt).

Definition MapField (nodes : list Node) (field : gostring)
    (callback : gostring -> bool -> Annotation -> option Node) : list Node :=
  fst (MapFieldS nodes field (fun v n a (_ : unit) => (callback v n a, tt)) tt).

(** ** What the mappers keep *)
Section MapFacts.
Context {S : Type} (m : Mapper S).

(** The nodes a leaf can be mapped to, over all states. *)
Definition leaf_image (l m' : Node) : Prop :=
  exists s s', map_node m l s = ([m'], s').

Lemma map_node_operator kind ns a s :
  m.(m_operator) = None ->
  map_node m (Operator kind ns a) s =
    let '(ms, s) := MapNodes m ns s in (NewOperator ms kind, s).
Proof.
  intros Hm. simpl. rewrite Hm.
  assert (forall l s, (fix go (ns : list Node) (s : S) : list Node * S :=
     match ns with
     | [] => ([], s)
     | n :: ns => let '(mapped, s) := map_node m n s in
                  let '(rest, s) := go ns s in (mapped ++ rest, s)
     end) l s = MapNodes m l s) as Hgo; [|by rewrite Hgo].
  clear. induction l as [|n l IH]; intros s; [done|]. simpl.
  destruct (map_node m n s) as [mapped s1]. by rewrite IH.
Qed.

(** A property of lists of nodes that holds of every mapped leaf, is kept by
    concatenation and by [NewOperator], holds of the mapped tree. *)
Lemma MapNodes_preserve (P : list Node -> Prop) (Qleaf : Node -> Prop) ns s :
  m.(m_operator) = None ->
  P [] ->
  (forall l k, P l -> P k -> P (l ++ k)) ->
  (forall l k, P l -> P (NewOperator l k)) ->
  (forall l s, is_param l = true \/ is_pattern l = true -> Qleaf l -> P (fst (map_node m l s))) ->
  Forall Qleaf (leaves_of ns) -> P (fst (MapNodes m ns s)).
Proof.
  intros Hm Hnil Happ Hop Hleaf.
  assert (forall n s, Forall Qleaf (leaves n) -> P (fst (map_node m n s))) as Hnode.
  { induction n as [p|p|k ms a IH] using Node_nested_ind; intros t HQ.
    - apply Hleaf; [by right|]. by inversion HQ.
    - apply Hleaf; [by left|]. by inversion HQ.
    - rewrite map_node_operator by done.
      enough (P (fst (MapNodes m ms t))) as H.
      { destruct (MapNodes m ms t). by apply Hop. }
      rewrite leaves_operator in HQ. clear k a. revert t HQ.
      induction IH as [|n ms Hn _ IHms]; intros t HQ; [done|].
      rewrite leaves_of_cons in HQ. apply Forall_app in HQ as [HQ1 HQ2].
      simpl. specialize (Hn t HQ1). destruct (map_node m n t) as [mapped t1].
      specialize (IHms t1 HQ2). destruct (MapNodes m ms t1). by apply Happ. }
  revert s. induction ns as [|n ns IH]; intros s HQ; [done|].
  rewrite leaves_of_cons in HQ. apply Forall_app in HQ as [HQ1 HQ2].
  simpl. specialize (Hnode n s HQ1). destruct (map_node m n s) as [mapped t].
  specialize (IH t HQ2). destruct (MapNodes m ns t). by apply Happ.
Qed.

(** A leaf property that every callback establishes holds of the leaves of the
    mapped tree. *)
Lemma MapNodes_Forall_leaves (P Qleaf : Node -> Prop) ns s :
  m.(m_operator) = None ->
  (forall l s, is_param l = true \/ is_pattern l = true -> Qleaf l ->
     Forall P (leaves_of (fst (map_node m l s)))) ->
  Forall Qleaf (leaves_of ns) -> Forall P (leaves_of (fst (MapNodes m ns s))).
Proof.
  intros Hm Hleaf. apply (MapNodes_preserve (fun l => Forall P (leaves_of l)) Qleaf); auto.
  - intros. rewrite leaves_of_app. by apply Forall_app_2.
  - intros. by apply NewOperator_Forall_leaves.
Qed.

(** The operators of the mapped tree have the kinds of the original. *)
Lemma MapNodes_all_ops (Q : OperatorKind -> nat -> Prop) ns s :
  m.(m_operator) = None ->
  (forall k i j, Q k i -> (2 <= j)%nat -> Q k j) ->
  (forall l s, is_param l = true \/ is_pattern l = true ->
     Forall (all_ops Q) (fst (map_node m l s))) ->
  Forall (all_ops Q) ns -> Forall (all_ops Q) (fst (MapNodes m ns s)).
Proof.
  intros Hm HQ Hleaf.
  assert (forall ms, Forall (fun n => forall s, all_ops Q n ->
            Forall (all_ops Q) (fst (map_node m n s))) ms ->
          forall s, Forall (all_ops Q) ms -> Forall (all_ops Q) (fst (MapNodes m ms s))) as Hlist.
  { intros ms Hms. induction Hms as [|n ms Hn _ IH]; intros t HF; [constructor|].
    apply Forall_cons in HF as [HF1 HF2]. simpl.
    specialize (Hn t HF1). destruct (map_node m n t) as [mapped t1].
    specialize (IH t1 HF2). destruct (MapNodes m ms t1). by apply Forall_app_2. }
  assert (forall n s, all_ops Q n -> Forall (all_ops Q) (fst (map_node m n s))) as Hnode.
  { induction n as [p|p|k ms a IH] using Node_nested_ind; intros t Ha;
      [apply Hleaf; auto..|].
    rewrite map_node_operator by done. apply all_ops_operator in Ha as [Hk Hms].
    specialize (Hlist ms IH t Hms). destruct (MapNodes m ms t).
    apply NewOperator_all_ops; eauto. }
  apply Hlist. apply Forall_true. eauto.
Qed.
End MapFacts.
