(* ===== verification/Partition.v ===== *)
(** Separating scope parameters from search patterns: [processTopLevel],
    [PartitionSearchPattern] and [validatePureLiteralPattern] of [validate.go],
    [naturallyOrdered] and [Hoist] of [transformer.go], and [Basic] queries
    with [ToBasicQuery]. *)
From S2P Require Import Prelude GoStr GoLib Syntax Operators Mapper.

Definition err_partition : gerror :=
  UnsupportedError (str "cannot evaluate: unable to partition pure search pattern").

(** [processTopLevel] is called on one-element lists only. *)
Definition processTopLevel (node : Node) : result gerror (list Node) :=
  match node with
  | Operator kind operands _ =>
      if kind_eqb kind And && isPatternExpression [node] then Ok [node]
      else if kind_eqb kind Or && isPatternExpression [node] then Ok [node]
      else if kind_eqb kind And then Ok operands
      else if kind_eqb kind Concat then Ok [node]
      else Err err_partition
  | _ => Ok [node]
  end.

Fixpoint partition_loop (nodes : list Node) (parameters : list Param) (patterns : list Node)
    : result gerror (list Param * list Node) :=
  match nodes with
  | [] => Ok (parameters, patterns)
  | node :: nodes =>
      if isPatternExpression [node] then partition_loop nodes parameters (patterns ++ [node])
      else match node with
      | ParamNode term => partition_loop nodes (parameters ++ [term]) patterns
      | _ => Err err_partition
      end
  end.

Definition PartitionSearchPattern (nodes : list Node)
    : result gerror (list Param * option Node) :=
  match match nodes with [node] => processTopLevel node | _ => Ok nodes end with
  | Err e => Err e
  | Ok nodes =>
    match partition_loop nodes [] [] with
    | Err e => Err e
    | Ok (parameters, patterns) =>
        Ok (parameters,
            match patterns with
            | [] => None
            | [p] => Some p
            | _ => Some (Operator And patterns zeroAnnotation)
            end)
    end
  end.

(** ** [Hoist] *)

Definition toNodes (parameters : list Param) : list Node := map ParamNode parameters.

(** Rightmost and leftmost columns of parameters and of patterns. *)
Record extent := MkExtent
  { rightmostParameterPos : Z; rightmostPatternPos : Z;
    leftmostParameterPos : Z; leftmostPatternPos : Z }.

Definition order_visitor : Visitor extent :=
  MkVisitor None
    (Some (fun _ _ _ a e =>
       let c := Column (Start (a_Range a)) in
       MkExtent (if (rightmostParameterPos e <? c)%Z then c else rightmostParameterPos e)
                (rightmostPatternPos e)
                (if (c <? leftmostParameterPos e)%Z then c else leftmostParameterPos e)
                (leftmostPatternPos e)))
    (Some (fun _ _ a e =>
       let c := Column (Start (a_Range a)) in
       MkExtent (rightmostParameterPos e)
                (if (rightmostPatternPos e <? c)%Z then c else rightmostPatternPos e)
                (leftmostParameterPos e)
                (if (c <? leftmostPatternPos e)%Z then c else leftmostPatternPos e))).

Definition naturallyOrdered (node : Node) (reverse : bool) : bool :=
  let e := Visit order_visitor node (MkExtent 0 0 (Z.shiftl 1 30) (Z.shiftl 1 30)) in
  if reverse then (rightmostPatternPos e <? leftmostParameterPos e)%Z
  else (rightmostParameterPos e <? leftmostPatternPos e)%Z.

Definition hoist_label (value : gostring) (negated : bool) (a : Annotation) : option Node :=
  Some (PatternNode (MkPattern value negated
    (MkAnnotation (Z.lor (a_Labels a) Labels.HeuristicHoisted) (a_Range a)))).

Section Hoist.
Context {U : UnicodeTables}.

(** The first and the last operand: partition it and check the order of its
    leaves. *)
Definition hoist_end (node : Node) (reverse : bool) : result gerror (list Param * Node) :=
  match PartitionSearchPattern [node] with
  | Ok (scopePart, Some patternPart) =>
      if negb (naturallyOrdered node reverse)
      then Err (ErrorNew (str "unnatural order: patterns not followed by parameter"))
      else Ok (scopePart, patternPart)
  | _ => Err (ErrorNew (str "could not partition first expression"))
  end.

Fixpoint hoist_loop (i n : nat) (operands : list Node) (pattern : list Node)
    (scopeParameters : list Param) : result gerror (list Node * list Param) :=
  match operands with
  | [] => Ok (pattern, scopeParameters)
  | node :: operands =>
      if Nat.eqb i 0 || Nat.eqb i (n - 1) then
        match hoist_end node (negb (Nat.eqb i 0)) with
        | Err e => Err e
        | Ok (scopePart, patternPart) =>
            hoist_loop (S i) n operands (pattern ++ [patternPart]) (scopeParameters ++ scopePart)
        end
      else if negb (isPatternExpression [node]) then
        Err (ErrorNew (str "inner expression " ++ node_String node ++
                       str " is not a pure pattern expression"))
      else hoist_loop (S i) n operands (pattern ++ [node]) scopeParameters
  end.

Definition Hoist (nodes : list Node) : result gerror (list Node) :=
  match nodes with
  | [node] =>
    match node with
    | Operator kind operands _ =>
      if kind_eqb kind Concat
      then Err (ErrorNew (str "heuristic requires top-level and- or or-expression"))
      else match hoist_loop 0 (length operands) operands [] [] with
           | Err e => Err e
           | Ok (pattern, scopeParameters) =>
               Ok (toNodes scopeParameters ++ NewOperator (MapPattern pattern hoist_label) kind)
           end
    | _ => Err (ErrorNew (str "heuristic requires top-level and- or or-expression"))
    end
  | _ => Err (ErrorNew (str "heuristic requires one top-level expression"))
  end.
End Hoist.

(** ** Literal searches must not nest and/or inside a concatenation *)

Definition impure_concat (node : Node) : bool :=
  match node with
  | Operator kind operands _ =>
      kind_eqb kind Concat &&
      existsb (fun n => match n with
                        | Operator k _ _ => kind_eqb k Or || kind_eqb k And
                        | _ => false
                        end) operands
  | _ => false
  end.

Definition err_unbalanced_literal : gerror :=
  ErrorNew (str "this literal search query contains unbalanced parentheses. I tried to guess what you meant, but wasn't able to. Maybe you missed a parenthesis? Otherwise, try using the content: filter if the pattern is unbalanced").
Definition err_trouble : gerror :=
  ErrorNew (str "i'm having trouble understanding that query. The combination of parentheses is the problem. Try using the content: filter to quote patterns that contain parentheses").

Definition validatePureLiteralPattern (nodes : list Node) (balanced : bool) : option gerror :=
  if Exists nodes impure_concat then
    Some (if negb balanced then err_unbalanced_literal else err_trouble)
  else None.

(** ** Basic queries *)
Record Basic := MkBasic { b_Parameters : list Param; b_Pattern : option Node }.

Definition ToBasicQuery (nodes : list Node) : result gerror Basic :=
  match PartitionSearchPattern nodes with
  | Err e => Err e
  | Ok (parameters, pattern) => Ok (MkBasic parameters pattern)
  end.
