(* ===== verification/Parser.v ===== *)
(** The recursive-descent parser of [internal/search/query/parser.go].

    [parser] is the Go struct; a method [(p *parser) f] is a function from the
    state to its results and the new state.  Slicing or indexing out of range
    and [p.next()] at the end of the buffer are panics.  [parseLeaves],
    [parseAnd] and [parseOr] take fuel; [Parse] gives them enough for any
    input. *)
From S2P Require Import Prelude GoStr GoLib Syntax Operators Scan Mapper Partition.
Import Utf8.

(** ** Keywords and heuristics *)
Definition AND := str "and".
Definition OR := str "or".
Definition NOT := str "not".
Definition LPAREN := str "(".
Definition RPAREN := str ")".
Definition SQUOTE := str "'".
Definition DQUOTE : gostring := [DQUOTE_rune].
Definition SLASH := str "/".

Definition parensAsPatterns : Z := 1.
Definition allowDanglingParens : Z := 2.
Definition disambiguated : Z := 4.
Definition isSet (h heuristic : Z) : bool := negb (Z.land h heuristic =? 0)%Z.

Record parser := MkParser
  { buf : gostring; heuristics : Z; pos : nat; balanced : Z; leafParser : SearchType }.

Definition set_pos (p : parser) (n : nat) : parser :=
  MkParser (buf p) (heuristics p) n (balanced p) (leafParser p).
Definition set_balanced (p : parser) (b : Z) : parser :=
  MkParser (buf p) (heuristics p) (pos p) b (leafParser p).
Definition set_heuristics (p : parser) (h : Z) : parser :=
  MkParser (buf p) h (pos p) (balanced p) (leafParser p).

(** ** Slices *)
Definition slice (s : gostring) (i j : nat) : run gostring :=
  if Nat.leb i j && Nat.leb j (length s) then Done (take (j - i) (drop i s))
  else Panics "slice bounds out of range".
Definition slice_from (s : gostring) (i : nat) : run gostring := slice s i (length s).

(** ** Looking ahead *)
Definition done (p : parser) : bool := Nat.leb (length (buf p)) (pos p).

Fixpoint peek_runes (n : nat) (segs : list seg) : option (list rune) :=
  match n with
  | O => Some []
  | S n =>
    match segs with
    | [] => None
    | s :: segs => (fun rs => seg_rune s :: rs) <$> peek_runes n segs
    end
  end.

(** [None] is [io.ErrShortBuffer]; [peek] tests [done] before it slices. *)
Definition peek (p : parser) (n : nat) : option gostring :=
  of_runes <$> peek_runes n (segments (drop (pos p) (buf p))).

Definition match_ (p : parser) (keyword : gostring) : bool :=
  match peek p (length keyword) with
  | None => false
  | Some v => EqualFold v keyword
  end.

Definition expect (p : parser) (keyword : gostring) : bool * parser :=
  if negb (match_ p keyword) then (false, p)
  else (true, set_pos p (pos p + length keyword)).

(** The part that [matchKeyword] and [matchUnaryKeyword] share: the keyword and
    a whitespace byte after it. *)
Definition match_then_space (p : parser) (keyword : gostring) : run bool :=
  match peek p (length keyword) with
  | None => Done false
  | Some v =>
      let after := (pos p + length keyword)%nat in
      if Nat.leb (length (buf p)) after then Done false
      else
        let! b := slice (buf p) after (after + 1) in
        if negb (isSpace b) then Done false else Done (EqualFold v keyword)
  end.

Definition matchKeyword (p : parser) (keyword : gostring) : run bool :=
  if Nat.eqb (pos p) 0 then Done false
  else
    let! b := slice (buf p) (pos p - 1) (pos p) in
    if negb (isSpace b) then Done false else match_then_space p keyword.

Definition matchUnaryKeyword (p : parser) (keyword : gostring) : run bool :=
  let! blocked :=
    if Nat.eqb (pos p) 0 then Done false
    else
      let! b := slice (buf p) (pos p - 1) (pos p) in
      Done (negb (isSpace b || (hd 0%Z b =? LPAREN_rune)%Z)) in
  if blocked then Done false else match_then_space p keyword.

Definition skipSpaces (p : parser) : run (option gerror * parser) :=
  if Nat.ltb (length (buf p)) (pos p) then Done (Some ErrShortBuffer, p)
  else
    let! b := slice_from (buf p) (pos p) in
    let p := set_pos p (pos p + skipSpace b) in
    if Nat.ltb (length (buf p)) (pos p) then Done (Some ErrShortBuffer, p)
    else Done (None, p).

(** ** Leaves *)
Definition newPattern (value : gostring) (labels : Z) (range_ : Range) : Pattern :=
  MkPattern value false (MkAnnotation labels range_).

(** The source tests [match] for the delimiter before each call, which is what
    keeps [ScanDelimited] from panicking. *)
Definition parseQuoted (p : parser) (delimiter : rune) : run (option gostring * parser) :=
  let start := pos p in
  let! b := slice_from (buf p) (pos p) in
  let! scanned := ScanDelimited b false delimiter in
  match scanned with
  | Err _ => Done (None, p)
  | Ok (value, advance) =>
      let p := set_pos p (pos p + advance) in
      if done p then Done (Some value, p)
      else
        let! b := slice (buf p) (pos p) (pos p + 1) in
        if negb (IsSpace (fst (DecodeRune b))) && negb (match_ p RPAREN)
        then Done (None, set_pos p start)
        else Done (Some value, p)
  end.

Definition parseStringQuotes (p : parser) : run (option Pattern * parser) :=
  let start := pos p in
  let quoted v p := newPattern v (Z.lor Labels.Literal Labels.Quoted) (newRange start (pos p)) in
  let! '(v, p) := if match_ p DQUOTE then parseQuoted p DQUOTE_rune else Done (None, p) in
  match v with
  | Some v => Done (Some (quoted v p), p)
  | None =>
      let! '(v, p) := if match_ p SQUOTE then parseQuoted p SQUOTE_rune else Done (None, p) in
      match v with
      | Some v => Done (Some (quoted v p), p)
      | None => Done (None, p)
      end
  end.

Definition parseRegexpQuotes (p : parser) : run (option Pattern * parser) :=
  if negb (match_ p SLASH) then Done (None, p)
  else
    let start := pos p in
    let! '(v, p) := parseQuoted p SLASH_rune in
    match v with
    | None => Done (None, p)
    | Some v =>
        let '(v, labels) :=
          if gs_eqb v [] then (str "//", Labels.Literal) else (v, Labels.Regexp) in
        Done (Some (newPattern v labels (newRange start (pos p))), p)
    end.

Section Leaves.
Context {U : UnicodeTables}.

Definition parse_delimited (p : parser) (delimiter : rune)
    : run (result gerror (gostring * Z) * parser) :=
  let! b := slice_from (buf p) (pos p) in
  let! scanned := ScanDelimited b true delimiter in
  match scanned with
  | Err e => Done (Err e, p)
  | Ok (value, advance) => Done (Ok (value, Labels.Quoted), set_pos p (pos p + advance))
  end.

Definition ParseFieldValue (p : parser) (field : gostring)
    : run (result gerror (gostring * Z) * parser) :=
  if match_ p SQUOTE then parse_delimited p SQUOTE_rune
  else if match_ p DQUOTE then parse_delimited p DQUOTE_rune
  else
    let! b := slice_from (buf p) (pos p) in
    let! scanned := ScanPredicate field b DefaultPredicateRegistry in
    match scanned with
    | Some (value, advance) =>
        Done (Ok (value, Labels.IsPredicate), set_pos p (pos p + advance))
    | None =>
      match ScanBalancedPattern b with
      | Some (value, advance) => Done (Ok (value, Labels.None_), set_pos p (pos p + advance))
      | None =>
          let '(value, advance) := ScanValue b false in
          Done (Ok (value, Labels.None_), set_pos p (pos p + advance))
      end
    end.

Definition TryScanBalancedPattern (p : parser) (label : Z) : run (option Pattern * parser) :=
  let! b := slice_from (buf p) (pos p) in
  match ScanBalancedPattern b with
  | Some (value, advance) =>
      Done (Some (newPattern value label (newRange (pos p) (pos p + advance))),
            set_pos p (pos p + advance))
  | None => Done (None, p)
  end.

(** The last resort of [ParsePattern]. *)
Definition scan_pattern (p : parser) (label : Z) : run (Pattern * parser) :=
  let start := pos p in
  let dangling := isSet (heuristics p) allowDanglingParens in
  let! b := slice_from (buf p) (pos p) in
  let '(value, advance) :=
    if Labels.IsSet label Labels.Regexp then ScanValue b dangling else ScanAnyPattern b in
  let label := if dangling then Labels.Set_ label Labels.HeuristicDanglingParens else label in
  let p := set_pos p (pos p + advance) in
  Done (newPattern value label (newRange start (pos p)), p).

Definition ParsePattern (p : parser) (label : Z) : run (Pattern * parser) :=
  let! '(pattern, p) :=
    if Labels.IsSet label (Z.lor Labels.Standard Labels.Regexp)
    then parseRegexpQuotes p else Done (None, p) in
  match pattern with
  | Some pattern => Done (pattern, p)
  | None =>
    let! '(pattern, p) :=
      if Labels.IsSet label Labels.Regexp then parseStringQuotes p else Done (None, p) in
    match pattern with
    | Some pattern => Done (pattern, p)
    | None =>
      let! '(pattern, p) :=
        if isSet (heuristics p) parensAsPatterns
        then TryScanBalancedPattern p label else Done (None, p) in
      match pattern with
      | Some pattern => Done (pattern, p)
      | None => scan_pattern p label
      end
    end
  end.

(** [Ok None] is Go's [(Parameter{}, false, nil)]. *)
Definition ParseParameter (p : parser) : run (result gerror (option Param) * parser) :=
  let start := pos p in
  let! b := slice_from (buf p) (pos p) in
  let '(field, negated, advance) := ScanField b in
  if gs_eqb field [] then Done (Ok None, p)
  else
    let! '(value, p) := ParseFieldValue (set_pos p (pos p + advance)) field in
    match value with
    | Err e => Done (Err e, p)
    | Ok (value, labels) =>
        Done (Ok (Some (MkParam field value negated
                          (MkAnnotation labels (newRange start (pos p))))), p)
    end.

(** ** Expressions *)
Definition err_unclear_parens : gerror :=
  ErrorNew (str "unsupported expression. The combination of parentheses in the query have an unclear meaning. Try using the content: filter to quote patterns that contain parentheses").
Definition err_not_expression : gerror :=
  ErrorNew (str "it looks like you tried to use an expression after NOT. The NOT operator can only be used with simple search patterns or filters, and is not supported for expressions or subqueries").
Definition err_not_negated (par : Param) : gerror :=
  ErrorNew (str "unexpected NOT before " ++ [DQUOTE_rune] ++ str "-" ++ par_Field par ++ str ":"
            ++ par_Value par ++ [DQUOTE_rune] ++ str ". Remove NOT and try again").
Definition err_expected_operand (p : parser) : gerror :=
  ExpectedOperand (str "expected operand at " ++ FormatInt (Z.of_nat (pos p))).

(** The body of the [NOT] case of [parseLeaves].  The error of
    [ParseParameter] is discarded there, but the bytes it consumed are not
    given back. *)
Definition parseNot (p : parser) (label : Z) : run (result gerror Node * parser) :=
  let start := pos p in
  let p := snd (expect p NOT) in
  let! '(err, p) := skipSpaces p in
  match err with
  | Some e => Done (Err e, p)
  | None =>
    if match_ p LPAREN then Done (Err err_not_expression, p)
    else
      let! '(parameter, p) := ParseParameter p in
      match parameter with
      | Ok (Some par) =>
          if par_Negated par then Done (Err (err_not_negated par), p)
          else
            Done (Ok (ParamNode (MkParam (par_Field par) (par_Value par) true
                     (MkAnnotation (a_Labels (par_Annotation par)) (newRange start (pos p))))), p)
      | _ =>
          let! '(pattern, p) := ParsePattern p label in
          Done (Ok (PatternNode (MkPattern (pat_Value pattern) true
                   (MkAnnotation (a_Labels (pat_Annotation pattern)) (newRange start (pos p))))), p)
      end
  end.

(** The [default] case of [parseLeaves]. *)
Definition parseLeaf (p : parser) (label : Z) : run (result gerror Node * parser) :=
  let! '(parameter, p) := ParseParameter p in
  match parameter with
  | Err e => Done (Err e, p)
  | Ok (Some par) => Done (Ok (ParamNode par), p)
  | Ok None =>
      let! '(pattern, p) := ParsePattern p label in
      Done (Ok (PatternNode pattern), p)
  end.

(** The [RPAREN] case: [None] when the parenthesis closes no group. *)
Definition close_group (p : parser) (start : nat) (nodes : list Node)
    : option (list Node * parser) :=
  if (balanced p <=? 0)%Z then None
  else
    let p := set_balanced p (balanced p - 1) in
    let p := set_heuristics p (Z.lor (heuristics p) disambiguated) in
    let nodes :=
      match nodes with
      | [] =>
          if isSet (heuristics p) parensAsPatterns then
            [PatternNode (newPattern (str "()")
               (Z.lor Labels.Literal Labels.HeuristicParensAsPatterns) (newRange start (pos p)))]
          else [ParamNode zeroParam]
      | _ => nodes
      end in
    Some (nodes, p).

Definition leaf_label (t : SearchType) : Z :=
  match t with
  | SearchTypeRegex => Labels.Regexp
  | SearchTypeLiteral | SearchTypeStructural => Labels.Literal
  | SearchTypeStandard | SearchTypeLucky => Z.lor Labels.Literal Labels.Standard
  | _ => Z.lor Labels.Literal Labels.Standard
  end.

(** The balanced pattern at an opening parenthesis, when parentheses may be
    patterns. *)
Definition paren_pattern (p : parser) : run (option (gostring * nat)) :=
  if isSet (heuristics p) parensAsPatterns
  then let! b := slice_from (buf p) (pos p) in Done (ScanBalancedPattern b)
  else Done None.

(** [parseLeaves]' loop with its variables [label], [start] and [nodes]. *)
Fixpoint parseLeaves_loop (fuel : nat) (label : Z) (start : nat) (nodes : list Node) (p : parser)
    : run (result gerror (list Node) * parser) :=
  match fuel with
  | O => OutOfFuel
  | S fuel =>
    let! '(err, p) := skipSpaces p in
    match err with
    | Some e => Done (Err e, p)
    | None =>
      let dangling := isSet (heuristics p) allowDanglingParens in
      if done p then Done (Ok (partitionParameters nodes), p)
      else if match_ p LPAREN && negb dangling then
        let! scanned := paren_pattern p in
        match scanned with
        | Some (value, advance) =>
            let label :=
              if Labels.IsSet label Labels.Literal
              then Labels.Set_ label Labels.HeuristicParensAsPatterns else label in
            let pattern := newPattern value label (newRange (pos p) (pos p + advance)) in
            parseLeaves_loop fuel label start (nodes ++ [PatternNode pattern])
              (set_pos p (pos p + advance))
        | None =>
            let p := snd (expect p LPAREN) in
            let p := set_balanced p (balanced p + 1) in
            let p := set_heuristics p (Z.lor (heuristics p) disambiguated) in
            let! '(r, p) := parseOr fuel p in
            match r with
            | Err e => Done (Err e, p)
            | Ok result => parseLeaves_loop fuel label start (nodes ++ result) p
            end
        end
      else
        let '(rparen, p) := expect p RPAREN in
        if rparen && negb dangling then
          match close_group p start nodes with
          | None => Done (Err err_unclear_parens, p)
          | Some (nodes, p) => Done (Ok (partitionParameters nodes), p)
          end
        else
          let! is_and := matchKeyword p AND in
          let! is_or := if is_and then Done true else matchKeyword p OR in
          if is_or then Done (Ok (partitionParameters nodes), p)
          else
            let! is_not := matchUnaryKeyword p NOT in
            let! '(r, p) := if is_not then parseNot p label else parseLeaf p label in
            match r with
            | Err e => Done (Err e, p)
            | Ok n => parseLeaves_loop fuel label start (nodes ++ [n]) p
            end
    end
  end
with parseAnd (fuel : nat) (p : parser) : run (result gerror (list Node) * parser) :=
  match fuel with
  | O => OutOfFuel
  | S fuel =>
    let! '(left_, p) := parseLeaves_loop fuel (leaf_label (leafParser p)) (pos p) [] p in
    match left_ with
    | Err e => Done (Err e, p)
    | Ok [] => Done (Err (err_expected_operand p), p)
    | Ok left_ =>
      let '(and, p) := expect p AND in
      if negb and then Done (Ok left_, p)
      else
        let! '(right_, p) := parseAnd fuel p in
        match right_ with
        | Err e => Done (Err e, p)
        | Ok right_ => Done (Ok (NewOperator (left_ ++ right_) And), p)
        end
    end
  end
with parseOr (fuel : nat) (p : parser) : run (result gerror (list Node) * parser) :=
  match fuel with
  | O => OutOfFuel
  | S fuel =>
    let! '(left_, p) := parseAnd fuel p in
    match left_ with
    | Err e => Done (Err e, p)
    | Ok [] => Done (Err (err_expected_operand p), p)
    | Ok left_ =>
      let '(or, p) := expect p OR in
      if negb or then Done (Ok left_, p)
      else
        let! '(right_, p) := parseOr fuel p in
        match right_ with
        | Err e => Done (Err e, p)
        | Ok right_ => Done (Ok (NewOperator (left_ ++ right_) Or), p)
        end
    end
  end.

Definition parse_fuel (in_ : gostring) : nat := 3 * length in_ + 3.

(** ** [Parse] *)

(** [tryFallbackParser] uses nothing of its receiver but [leafParser]. *)
Definition tryFallbackParser (leaf : SearchType) (in_ : gostring)
    : run (result gerror (list Node)) :=
  let! '(r, _) := parseOr (parse_fuel in_) (MkParser in_ allowDanglingParens 0 0 leaf) in
  match r with
  | Err e => Done (Err e)
  | Ok nodes =>
      match Hoist nodes with
      | Ok hoistedNodes => Done (Ok (NewOperator hoistedNodes And))
      | Err _ => Done (Ok (NewOperator nodes And))
      end
  end.

Definition err_unbalanced : gerror := ErrorNew (str "unbalanced expression").

(** Run the fallback parser and keep [err] when it fails too. *)
Definition or_fallback (leaf : SearchType) (in_ : gostring) (err : gerror)
    : run (result gerror (list Node)) :=
  let! r := tryFallbackParser leaf in_ in
  match r with
  | Ok nodes => Done (Ok nodes)
  | Err _ => Done (Err err)
  end.

Definition Parse (in_ : gostring) (searchType : SearchType) : run (result gerror (list Node)) :=
  if TrimSpace_empty in_ then Done (Ok [])
  else
    let! '(r, p) := parseOr (parse_fuel in_) (MkParser in_ parensAsPatterns 0 0 searchType) in
    match r with
    | Err (ExpectedOperand msg) => or_fallback searchType in_ (ExpectedOperand msg)
    | Err e => Done (Err e)
    | Ok nodes =>
      if negb (balanced p =? 0)%Z then or_fallback searchType in_ err_unbalanced
      else
        let nodes :=
          if negb (isSet (heuristics p) disambiguated) then
            match Hoist nodes with Ok hoistedNodes => hoistedNodes | Err _ => nodes end
          else nodes in
        let invalid :=
          if bool_decide (searchType = SearchTypeLiteral)
             || bool_decide (searchType = SearchTypeStandard)
          then validatePureLiteralPattern nodes (balanced p =? 0)%Z else None in
        match invalid with
        | Some e => Done (Err e)
        | None => Done (Ok (NewOperator nodes And))
        end
    end.

End Leaves.
