(* ===== verification/ScanCorrect.v ===== *)
(** Functional correctness of the scanners: quoted literals round trip, and
    what the field and pattern scanners accept. *)
From S2P Require Import Prelude GoStr GoLib Syntax Scan.

(** Bounds, progress and functional behaviour of the scanners of [Scan.v]. *)

Import Utf8 Utf8Facts AsciiFacts.

(** ** How much the loops consume *)

Lemma skipSpace_loop_bound segs count :
  (count <= skipSpace_loop segs count <= count + wsum segs)%nat.
Proof.
  revert count. induction segs as [|s segs IH]; intros count; simpl; [lia|].
  rewrite wsum_cons. destruct (IsSpace (seg_rune s)); simpl; [|lia].
  specialize (IH (count + seg_width s)%nat). lia.
Qed.

Lemma skipSpace_bound b : (skipSpace b <= length b)%nat.
Proof.
  unfold skipSpace. pose proof (skipSpace_loop_bound (segments b) 0).
  rewrite wsum_segments in *. lia.
Qed.

Lemma skipSpace_loop_shift segs count :
  skipSpace_loop segs count = (count + skipSpace_loop segs 0)%nat.
Proof.
  revert count. induction segs as [|s segs IH]; intros count; simpl; [lia|].
  destruct (negb _); [lia|]. rewrite IH, (IH (seg_width s)). lia.
Qed.

(** After [skipSpace] the buffer is exhausted or starts with a non-space. *)
Lemma skipSpace_stop b :
  let rest := drop (skipSpace b) b in
  rest = [] \/ IsSpace (fst (DecodeRune rest)) = false.
Proof.
  simpl. remember (length b) as n eqn:Hn. revert b Hn.
  induction n as [n IH] using lt_wf_ind. intros b ->.
  unfold skipSpace. destruct (segments b) as [|s segs] eqn:E.
  { apply segments_nil_inv in E as ->. by left. }
  apply segments_cons in E as (Hne & Hd & Hr & <- & Hw & Hl). simpl.
  destruct (IsSpace (seg_rune s)) eqn:Hs; simpl.
  - rewrite skipSpace_loop_shift, <- drop_drop, <- Hr. eapply IH; [|done]. lia.
  - right. by rewrite drop_0, Hd.
Qed.

Lemma scanAny_loop_bound segs result count rs c :
  scanAny_loop segs result count = (rs, c) -> (count <= c <= count + wsum segs)%nat.
Proof.
  revert result count. induction segs as [|s segs IH]; intros result count; simpl.
  - intros [= _ <-]. unfold wsum. simpl. lia.
  - rewrite wsum_cons. destruct (IsSpace (seg_rune s)); [intros [= _ <-]; lia|].
    intros H%IH. lia.
Qed.

Lemma ScanAnyPattern_bound b v n : ScanAnyPattern b = (v, n) -> (n <= length b)%nat.
Proof.
  unfold ScanAnyPattern. destruct (scanAny_loop _ _ _) as [rs c] eqn:E.
  apply scanAny_loop_bound in E. rewrite wsum_segments in E. intros [= _ <-]. lia.
Qed.

(** The first rune of a buffer that is not empty. *)
Definition starts_with (b : gostring) (r : rune) : Prop := b <> [] /\ fst (DecodeRune b) = r.

Lemma starts_with_segments b r :
  starts_with b r -> exists s segs, segments b = s :: segs /\ seg_rune s = r /\ (1 <= seg_width s)%nat.
Proof.
  intros [Hne Hr]. destruct (segments b) as [|s segs] eqn:E.
  { by apply segments_nil_inv in E. }
  exists s, segs. apply segments_cons in E as (_ & Hd & _ & _ & Hw & _).
  rewrite Hd in Hr. done.
Qed.

Lemma ScanAnyPattern_progress b r v n :
  starts_with b r -> IsSpace r = false -> ScanAnyPattern b = (v, n) -> (1 <= n)%nat.
Proof.
  intros (s & segs & Hs & <- & Hw)%starts_with_segments Hsp. unfold ScanAnyPattern.
  rewrite Hs. simpl. rewrite Hsp. destruct (scanAny_loop _ _ _) as [rs c] eqn:E.
  apply scanAny_loop_bound in E. intros [= _ <-]. lia.
Qed.

(** Close a loop-bound goal with the induction hypothesis [IH] for the
    recursive call in [H]. *)
Ltac loop_bound IH H :=
  repeat case_match; simplify_eq; rewrite ?wsum_cons; try lia;
  (apply IH in H; [rewrite ?wsum_cons in H; lia|simpl; lia]).

Lemma scanValue_loop_bound d segs result count rs c :
  scanValue_loop d segs result count = (rs, c) -> (count <= c <= count + wsum segs)%nat.
Proof.
  revert result count rs c. induction segs as [segs IH] using list_length_ind.
  intros result count rs c Hl. destruct segs as [|s segs]; [simplify_eq/=; lia|].
  cbn [scanValue_loop] in Hl. rewrite wsum_cons. loop_bound IH Hl.
Qed.

Lemma ScanValue_bound b d v n : ScanValue b d = (v, n) -> (n <= length b)%nat.
Proof.
  unfold ScanValue. destruct (scanValue_loop _ _ _ _) as [rs c] eqn:E.
  apply scanValue_loop_bound in E. rewrite wsum_segments in E. intros [= _ <-]. lia.
Qed.

Lemma ScanValue_progress b r d v n :
  starts_with b r -> IsSpace r = false ->
  (r = LPAREN_rune \/ r = RPAREN_rune -> d = true) ->
  ScanValue b d = (v, n) -> (1 <= n)%nat.
Proof.
  intros (s & segs & Hs & <- & Hw)%starts_with_segments Hsp Hd. unfold ScanValue.
  rewrite Hs. destruct (scanValue_loop d (s :: segs) [] 0) as [rs c] eqn:E.
  intros [= _ <-]. cbn [scanValue_loop] in E. rewrite Hsp in E.
  destruct (_ || _) eqn:Hp in E.
  - rewrite Hd in E by (rewrite orb_true_iff, !Z.eqb_eq in Hp; tauto).
    apply scanValue_loop_bound in E. lia.
  - repeat case_match; apply scanValue_loop_bound in E; lia.
Qed.

(** ** Delimited values *)

Lemma scanDelimited_loop_bound strict d segs r result count r' rs c :
  scanDelimited_loop strict d segs r result count = inl (r', rs, c) ->
  (count <= c <= count + wsum segs)%nat.
Proof.
  revert r result count r' rs c. induction segs as [segs IH] using list_length_ind.
  intros r result count r' rs c Hl. destruct segs as [|s segs]; [simplify_eq/=; lia|].
  cbn [scanDelimited_loop] in Hl. rewrite wsum_cons. loop_bound IH Hl.
Qed.

(** On a buffer that starts with its delimiter [ScanDelimited] does not panic,
    and consumes at least the delimiter. *)
Lemma ScanDelimited_total b strict d :
  starts_with b d ->
  exists r, ScanDelimited b strict d = Done r /\
    forall v n, r = Ok (v, n) -> (1 <= n <= length b)%nat.
Proof.
  intros [Hne Hd]. unfold ScanDelimited.
  destruct (DecodeRune b) as [r adv] eqn:E. simpl in Hd. subst r.
  rewrite Z.eqb_refl. simpl. eexists. split; [done|]. intros v n Hr.
  apply decode_width in E; [|done].
  destruct (scanDelimited_loop _ _ _ _ _ _) as [[[r rs] c]|[? ?]] eqn:El; [|done].
  apply scanDelimited_loop_bound in El. rewrite wsum_segments, length_drop in El.
  case_match; simplify_eq. lia.
Qed.

(** ** Parentheses, fields and predicates *)

Lemma scanParens_loop_bound segs result count bal rs c :
  scanParens_loop segs result count bal = Some (rs, c) -> (count <= c <= count + wsum segs)%nat.
Proof.
  revert result count bal rs c. induction segs as [segs IH] using list_length_ind.
  intros result count bal rs c Hl. destruct segs as [|s segs]; [done|].
  cbn [scanParens_loop] in Hl. rewrite wsum_cons. loop_bound IH Hl.
Qed.

(** The runes collected end with the closing parenthesis. *)
Lemma scanParens_loop_last segs result count bal rs c :
  scanParens_loop segs result count bal = Some (rs, c) ->
  exists mid, rs = result ++ mid ++ [RPAREN_rune].
Proof.
  revert result count bal rs c. induction segs as [segs IH] using list_length_ind.
  intros result count bal rs c Hl. destruct segs as [|s segs]; [done|].
  cbn [scanParens_loop] in Hl.
  assert (forall pre extra, (exists mid, rs = (pre ++ extra) ++ mid ++ [RPAREN_rune]) ->
            exists mid, rs = pre ++ mid ++ [RPAREN_rune]) as Hgrow.
  { intros pre extra [mid ->]. exists (extra ++ mid). by rewrite <- !app_assoc. }
  destruct (seg_rune s =? RuneError)%Z; [done|].
  destruct (seg_rune s =? LPAREN_rune)%Z.
  { apply IH in Hl; [|simpl; lia]. eauto. }
  destruct (seg_rune s =? RPAREN_rune)%Z eqn:Hr.
  { apply Z.eqb_eq in Hr. destruct (bal - 1 =? 0)%Z.
    - simplify_eq. exists []. by rewrite Hr.
    - apply IH in Hl; [|simpl; lia]. eauto. }
  destruct (seg_rune s =? BACKSLASH)%Z.
  - destruct segs as [|s2 segs2]; [done|].
    apply IH in Hl; [|simpl; lia]. rewrite <- app_assoc in Hl. eauto.
  - apply IH in Hl; [|simpl; lia]. eauto.
Qed.

(** On a buffer that starts with a parenthesis [ScanBalancedParens] does not
    panic; what it returns is delimited by parentheses. *)
Lemma ScanBalancedParens_total t :
  exists r, ScanBalancedParens (LPAREN_rune :: t) = Done r /\
    forall v n, r = Some (v, n) ->
      (1 <= n <= S (length t))%nat /\ exists params, v = str "(" ++ params ++ str ")".
Proof.
  unfold ScanBalancedParens. rewrite decode_ascii by (unfold LPAREN_rune; lia).
  rewrite Z.eqb_refl. simpl negb. cbv iota. eexists. split; [done|]. intros v n.
  destruct (scanParens_loop _ _ _ _) as [[rs c]|] eqn:E; [|done]. intros [= <- <-].
  apply scanParens_loop_last in E as Hlast. destruct Hlast as [mid ->].
  apply scanParens_loop_bound in E. rewrite wsum_segments, length_drop in E. simpl in E.
  split; [lia|]. exists (of_runes mid). by rewrite !of_runes_app.
Qed.

Section WithTables.
Context {U : UnicodeTables}.

Lemma scanField_loop_bound segs result count rs c b :
  scanField_loop segs result count = (rs, c, b) -> (count <= c <= count + wsum segs)%nat.
Proof.
  revert result count. induction segs as [|s segs IH]; intros result count Hl;
    cbn [scanField_loop] in Hl; [simplify_eq/=; lia|].
  rewrite wsum_cons. repeat case_match; simplify_eq; try lia. apply IH in Hl. lia.
Qed.

(** A recognised field consumes at least one byte. *)
Lemma ScanField_bound b f neg n :
  ScanField b = (f, neg, n) -> f <> [] -> (1 <= n <= length b)%nat /\ known_field (ToLower f) = true.
Proof.
  unfold ScanField. destruct (DecodeRune b) as [r adv] eqn:E.
  destruct (negb (r =? DASH)%Z && negb (is_alpha r)) eqn:Hstart; [intros; simplify_eq|].
  destruct (scanField_loop _ _ _) as [[rs c] ok] eqn:El.
  destruct ok; simpl; [|by intros [= <- <- <-] ?].
  destruct (known_field _) eqn:Hk; simpl; [|by intros [= <- <- <-] ?].
  intros [= <- <- <-] _. split; [|done].
  apply scanField_loop_bound in El. rewrite wsum_segments, length_drop in El.
  destruct b as [|b0 b]; [injection E as <- <-; done|].
  apply decode_width in E; [|done]. lia.
Qed.

Lemma scanBalanced_loop_bound segs result count bal rs c b :
  scanBalanced_loop segs result count bal = Some (rs, c, b) ->
  (count <= c <= count + wsum segs)%nat.
Proof.
  revert result count bal rs c b. induction segs as [segs IH] using list_length_ind.
  intros result count bal rs c b Hl. destruct segs as [|s segs]; [simplify_eq/=; lia|].
  cbn [scanBalanced_loop] in Hl. rewrite wsum_cons. loop_bound IH Hl.
Qed.

Lemma ScanBalancedPattern_bound b v n :
  ScanBalancedPattern b = Some (v, n) -> (n <= length b)%nat.
Proof.
  unfold ScanBalancedPattern. destruct (keepScanning b); [|done]. simpl.
  destruct (scanBalanced_loop _ _ _ _) as [[[rs c] bal]|] eqn:E; [|done].
  apply scanBalanced_loop_bound in E. rewrite wsum_segments in E.
  case_match; intros; simplify_eq. lia.
Qed.

Lemma ScanBalancedPattern_progress b r v n :
  starts_with b r -> IsSpace r = false -> r <> RPAREN_rune ->
  ScanBalancedPattern b = Some (v, n) -> (1 <= n)%nat.
Proof.
  intros (s & segs & Hs & <- & Hw)%starts_with_segments Hsp Hr. unfold ScanBalancedPattern.
  destruct (keepScanning b); [|done]. simpl. rewrite Hs.
  destruct (scanBalanced_loop _ _ _ _) as [[[rs c] bal]|] eqn:E; [|done].
  case_match; intros; simplify_eq. cbn [scanBalanced_loop] in E. rewrite Hsp in E. simpl in E.
  rewrite (proj2 (Z.eqb_neq _ RPAREN_rune)) in E by done.
  repeat case_match; simplify_eq; apply scanBalanced_loop_bound in E; lia.
Qed.

Lemma scanPredicateName_loop_bound segs b adv name n :
  scanPredicateName_loop segs b adv = (name, n) -> (adv <= n <= adv + wsum segs)%nat.
Proof.
  revert adv. induction segs as [|s segs IH]; intros adv Hl;
    cbn [scanPredicateName_loop] in Hl; [simplify_eq/=; lia|].
  rewrite wsum_cons. repeat case_match; simplify_eq; try lia. apply IH in Hl. lia.
Qed.

(** [ScanPredicate] never panics, and returns a registered name followed by a
    parenthesised argument. *)
Lemma ScanPredicate_total field b lookup :
  exists r, ScanPredicate field b lookup = Done r /\
    forall v n, r = Some (v, n) ->
      (n <= length b)%nat /\
      exists table name kind params,
        assoc (resolveFieldAlias field) lookup = Some table /\
        assoc name table = Some kind /\
        v = name ++ str "(" ++ params ++ str ")".
Proof.
  match goal with |- exists r, _ /\ forall v n, r = Some (v, n) -> @?Q v n =>
    assert (exists r, Done (@None (gostring * nat)) = Done r /\
              forall v n, r = Some (v, n) -> Q v n) as Hnone
      by (exists None; split; [done|by intros ? ?]) end.
  unfold ScanPredicate. destruct (assoc _ lookup) as [table|] eqn:Ht; [|exact Hnone].
  unfold ScanPredicateName.
  destruct (scanPredicateName_loop _ _ _) as [name adv] eqn:E.
  destruct (assoc name table) as [kind|] eqn:Hk; [|exact Hnone].
  apply scanPredicateName_loop_bound in E. rewrite wsum_segments in E.
  destruct (drop adv b) as [|c t] eqn:Hd; [exact Hnone|].
  destruct (c =? LPAREN_rune)%Z eqn:Hc; simpl; [|exact Hnone].
  apply Z.eqb_eq in Hc as ->.
  destruct (ScanBalancedParens_total t) as (r & -> & Hr). simpl.
  destruct r as [[params n]|]; [|exact Hnone].
  destruct (Hr params n eq_refl) as (Hn & ps & ->).
  eexists. split; [done|]. intros v m [= <- <-]. split.
  - apply (f_equal length) in Hd. rewrite length_drop in Hd. simpl in Hd. lia.
  - eauto 10.
Qed.
End WithTables.

Import Utf8 Utf8Facts AsciiFacts.

(** ** Quoted literals *)
Section Quoted.
Context {U : UnicodeTables}.

(** The runes that [strconv.Quote] writes in a way that [ScanDelimited] reads
    back: printable ones, and newline, carriage return and tab. *)
Definition quotable (r : rune) : bool :=
  valid_rune r && (IsPrint r || existsb (Z.eqb r) [10%Z; 13%Z; 9%Z]).

Lemma valid_sanitize_id r : valid_rune r = true -> sanitize r = r.
Proof. unfold sanitize. by intros ->. Qed.

Lemma encode_width_error r :
  valid_rune r = true -> (r =? RuneError)%Z && Nat.eqb (length (EncodeRune r)) 1 = false.
Proof.
  intros Hv. destruct (r =? RuneError)%Z eqn:E; [|done]. apply Z.eqb_eq in E as ->. done.
Qed.

Lemma quote_loop_runes rs :
  Forall (fun r => valid_rune r = true) rs ->
  quote_loop (segments (of_runes rs)) (of_runes rs) = concat (map escape_rune rs).
Proof.
  induction 1 as [|r rs Hr _ IH]; [done|].
  change (of_runes (r :: rs)) with (EncodeRune r ++ of_runes rs).
  rewrite segments_encode, (valid_sanitize_id r Hr). cbn [quote_loop seg_rest map concat].
  f_equal; [|exact IH]. unfold quote_seg. cbn [seg_rune seg_width]. by rewrite encode_width_error.
Qed.

(** What one rune of the literal contributes to the scan. *)
Lemma scan_escape strict r s last result count :
  quotable r = true -> s <> [] ->
  exists last', scanDelimited_loop strict DQUOTE_rune (segments (escape_rune r ++ s)) last result count =
    scanDelimited_loop strict DQUOTE_rune (segments s) last' (result ++ [r])
      (count + length (escape_rune r)).
Proof.
  intros Hq Hs. apply andb_true_iff in Hq as [Hv Hq].
  assert (forall c, (c < 0x80)%Z -> forall rs, unescape strict DQUOTE_rune c = Some rs ->
    exists last', scanDelimited_loop strict DQUOTE_rune (segments ([92%Z; c] ++ s)) last result count =
      scanDelimited_loop strict DQUOTE_rune (segments s) last' (result ++ rs) (count + 2)) as Hesc.
  { intros c Hc rs Hu. simpl app. rewrite !segments_ascii_cons by done. exists c.
    cbn [scanDelimited_loop seg_rune seg_width seg_rest].
    change (92 =? DQUOTE_rune)%Z with false. change (92 =? BACKSLASH)%Z with true. cbv iota zeta.
    rewrite Hu. destruct s as [|x y]; [done|]. by rewrite <- Nat.add_assoc. }
  unfold escape_rune. destruct ((r =? 34)%Z || (r =? 92)%Z) eqn:E1.
  { apply orb_true_iff in E1 as [->%Z.eqb_eq| ->%Z.eqb_eq]; apply Hesc; by destruct strict. }
  apply orb_false_iff in E1 as [E1 E2].
  destruct (IsPrint r) eqn:E3.
  - rewrite segments_encode, (valid_sanitize_id r Hv). exists r.
    cbn [scanDelimited_loop seg_rune seg_width seg_rest].
    unfold DQUOTE_rune at 1, BACKSLASH at 1. by rewrite E1, E2.
  - simpl in Hq. rewrite !orb_true_iff, !Z.eqb_eq in Hq.
    destruct Hq as [->|[->|[->|?]]]; [..|done]; apply Hesc; by destruct strict.
Qed.

Lemma scan_quoted strict rs last result count :
  Forall (fun r => quotable r = true) rs ->
  scanDelimited_loop strict DQUOTE_rune
    (segments (concat (map escape_rune rs) ++ [DQUOTE_rune])) last result count =
  inl (DQUOTE_rune, result ++ rs, (count + length (concat (map escape_rune rs)) + 1)%nat).
Proof.
  intros H. revert last result count. induction H as [|r rs Hr _ IH]; intros last result count.
  { simpl app. rewrite segments_ascii_cons by done. cbn. by rewrite app_nil_r, Nat.add_0_r. }
  cbn [map concat]. rewrite <- app_assoc.
  destruct (scan_escape strict r (concat (map escape_rune rs) ++ [DQUOTE_rune]) last result count)
    as [last' ->]; [done|by intros [_ ?]%app_nil|].
  rewrite IH, <- app_assoc, length_app. do 2 f_equal. lia.
Qed.
End Quoted.

(** a literal quoted with [strconv.Quote], as [StringHuman] prints it, is
    read back by [ScanDelimited], strict or not: the value is the original
    string and the whole quoted text is consumed, for every string of printable
    characters, newlines, carriage returns and tabs. *)
Theorem ScanDelimited_Quote {U : UnicodeTables} (strict : bool) (rs : list rune) :
  Forall (fun r => quotable r = true) rs ->
  ScanDelimited (Quote (of_runes rs)) strict DQUOTE_rune =
  Done (Ok (of_runes rs, length (Quote (of_runes rs)))).
Proof.
  intros H. assert (Forall (fun r => valid_rune r = true) rs) as Hv.
  { eapply Forall_impl; [exact H|]. by intros r [? _]%andb_true_iff. }
  unfold Quote. rewrite quote_loop_runes by done. unfold ScanDelimited.
  change ([34%Z] ++ ?x) with (34%Z :: x). rewrite decode_ascii by done.
  change (34 =? DQUOTE_rune)%Z with true. cbn [negb]. cbv iota.
  change (drop 1 (34%Z :: ?x)) with x. change [34%Z] with [DQUOTE_rune].
  rewrite scan_quoted by done. cbn [app]. rewrite Z.eqb_refl. cbn [negb orb andb].
  destruct (Nat.eqb _ 1) eqn:E; [apply Nat.eqb_eq in E; lia|].
  do 3 f_equal. cbn [length]. rewrite length_app. simpl. lia.
Qed.

(** ** Fields *)

Lemma is_alpha_ascii r : is_alpha r = true -> (65 <= r < 0x80)%Z.
Proof.
  unfold is_alpha, is_upper, is_lower, between.
  rewrite orb_true_iff, !andb_true_iff, !Z.leb_le. lia.
Qed.

(** A segment with an ASCII rune is one byte. *)
Lemma segment_small b s segs :
  segments b = s :: segs -> (seg_rune s < 0x80)%Z ->
  b = seg_rune s :: seg_rest s /\ seg_width s = 1%nat /\ segs = segments (seg_rest s).
Proof.
  intros (_ & Hd & Hr & <- & _ & _)%segments_cons Hs.
  destruct (decode_small _ _ _ Hd Hs) as [Hw [t ->]]. rewrite Hw in Hr. simpl in Hr.
  rewrite drop_0 in Hr. by subst t.
Qed.

(** The last test of the loop: a dash alone is not a field. *)
Definition field_runes (rs : list rune) : bool :=
  negb (hd 0%Z rs =? DASH)%Z || Nat.ltb 1 (length rs).

Lemma scanField_loop_sound b result count rs c :
  scanField_loop (segments b) result count = (rs, c, true) ->
  exists letters rest, b = letters ++ COLON :: rest /\ forallb is_alpha letters = true /\
    rs = result ++ letters /\ c = (count + length letters + 1)%nat /\ field_runes rs = true.
Proof.
  revert result count. induction b as [b IH] using list_length_ind. intros result count H.
  destruct (segments b) as [|s segs] eqn:E; [done|]. cbn [scanField_loop] in H.
  apply segments_cons in E as Hlen. destruct Hlen as (_ & _ & _ & _ & _ & Hlen).
  destruct (is_alpha (seg_rune s)) eqn:Ha.
  - apply is_alpha_ascii in Ha as Hs. destruct (segment_small _ _ _ E) as (Hb & Hw & ->); [lia|].
    apply IH in H as (letters & rest & Hrest & Hl & -> & -> & Hf); [|lia].
    exists (seg_rune s :: letters), rest. rewrite Hb, Hrest. cbn [forallb app length].
    rewrite Ha, Hl, Hw. split_and!; [done|done|by rewrite <- app_assoc|lia|exact Hf].
  - destruct (seg_rune s =? COLON)%Z eqn:Hc; [|done]. apply Z.eqb_eq in Hc.
    destruct (segment_small _ _ _ E) as (Hb & Hw & ->); [rewrite Hc; unfold COLON; lia|].
    injection H as <- <- Hf. exists [], (seg_rest s). rewrite app_nil_r, Hw. simpl.
    split_and!; [by rewrite Hb, Hc at 1|done|done|lia|exact Hf].
Qed.

Lemma scanField_loop_complete letters rest result count :
  forallb is_alpha letters = true ->
  scanField_loop (segments (letters ++ COLON :: rest)) result count =
  (result ++ letters, (count + length letters + 1)%nat, field_runes (result ++ letters)).
Proof.
  revert result count. induction letters as [|r letters IH]; intros result count H.
  - simpl app. rewrite segments_ascii_cons by (unfold COLON; lia).
    cbn [scanField_loop seg_rune seg_width]. rewrite app_nil_r. simpl. by rewrite Nat.add_0_r.
  - cbn [forallb] in H. apply andb_true_iff in H as [Hr H]. cbn [app].
    apply is_alpha_ascii in Hr as Hs. rewrite segments_ascii_cons by lia.
    cbn [scanField_loop seg_rune seg_width]. rewrite Hr, IH by done. rewrite <- app_assoc.
    cbn [app length]. do 2 f_equal. lia.
Qed.

Definition dash (negated : bool) : gostring := if negated then [DASH] else [].

Lemma of_runes_letters letters : forallb is_alpha letters = true -> of_runes letters = letters.
Proof.
  intros H. apply of_runes_ascii. unfold ascii. apply Forall_forall. intros c Hc.
  rewrite forallb_forall in H. apply list_elem_of_In, H, is_alpha_ascii in Hc. lia.
Qed.

Section Fields.
Context {U : UnicodeTables}.

Lemma alpha_not_dash r : is_alpha r = true -> (r =? DASH)%Z = false.
Proof. intros H%is_alpha_ascii. apply Z.eqb_neq. unfold DASH. lia. Qed.

(** [ScanField] after its first rune [r]. *)
Lemma ScanField_sound b f neg n :
  ScanField b = (f, neg, n) -> f <> [] ->
  exists rest, b = dash neg ++ f ++ COLON :: rest /\ forallb is_alpha f = true /\
    known_field (ToLower f) = true /\ n = (length (dash neg ++ f) + 1)%nat.
Proof.
  unfold ScanField. destruct (DecodeRune b) as [r adv] eqn:E. intros H Hf.
  destruct (negb (r =? DASH)%Z && negb (is_alpha r)) eqn:Hstart; [by simplify_eq|].
  destruct (scanField_loop _ _ _) as [[rs c] ok] eqn:El. destruct ok; [|by simplify_eq/=].
  cbn [negb] in H. cbv iota in H.
  assert (0 <= r < 0x80)%Z as Hr.
  { apply andb_false_iff in Hstart as [Hd%negb_false_iff|Ha%negb_false_iff].
    - apply Z.eqb_eq in Hd as ->. unfold DASH. lia.
    - apply is_alpha_ascii in Ha. lia. }
  destruct (decode_small _ _ _ E (proj2 Hr)) as [-> [t ->]]. change (drop 1 (r :: t)) with t in El.
  apply scanField_loop_sound in El as (letters & rest & -> & Hl & -> & -> & Hrs).
  rewrite of_runes_ascii in H.
  2: { constructor; [lia|]. apply Forall_forall. intros x Hx. rewrite forallb_forall in Hl.
       apply list_elem_of_In, Hl, is_alpha_ascii in Hx. lia. }
  cbn [app hd tail] in H. destruct (known_field _) eqn:Hk; [|by simplify_eq/=].
  cbn [negb] in H. cbv iota in H. injection H as <- <- <-. destruct (r =? DASH)%Z eqn:Hd.
  - apply Z.eqb_eq in Hd as ->. exists rest. split_and!; [done|done|done|simpl; lia].
  - cbn [negb andb] in Hstart. apply negb_false_iff in Hstart. exists rest.
    split_and!; [done|by cbn [forallb]; rewrite Hstart, Hl|done|simpl; lia].
Qed.

Lemma ScanField_complete f neg rest :
  f <> [] -> forallb is_alpha f = true -> known_field (ToLower f) = true ->
  ScanField (dash neg ++ f ++ COLON :: rest) = (f, neg, (length (dash neg ++ f) + 1)%nat).
Proof.
  intros Hne Hf Hk. unfold ScanField. destruct neg; cbn [dash app].
  - rewrite decode_ascii by done. change (drop 1 (DASH :: ?x)) with x.
    rewrite Z.eqb_refl. cbn [negb andb]. rewrite scanField_loop_complete by done.
    assert (field_runes ([DASH] ++ f) = true) as ->.
    { by destruct f. }
    cbn [negb]. change (of_runes ([DASH] ++ f)) with (DASH :: of_runes f).
    rewrite of_runes_letters by done. cbn [hd tail]. by rewrite Z.eqb_refl, Hk.
  - destruct f as [|r f]; [done|]. cbn [forallb] in Hf. apply andb_true_iff in Hf as [Hr Hf].
    apply is_alpha_ascii in Hr as Hs. cbn [app]. rewrite decode_ascii by lia.
    change (drop 1 (r :: ?x)) with x. rewrite Hr, (alpha_not_dash _ Hr). cbn [negb andb].
    rewrite scanField_loop_complete by done.
    assert (field_runes ([r] ++ f) = true) as ->.
    { unfold field_runes. cbn [app hd]. by rewrite (alpha_not_dash _ Hr). }
    cbn [negb]. rewrite (of_runes_letters ([r] ++ f)) by (cbn [app forallb]; by rewrite Hr, Hf).
    cbn [app hd tail]. by rewrite (alpha_not_dash _ Hr), Hk.
Qed.
End Fields.

(** [ScanField] recognises exactly the prefixes [field:] and [-field:] where
    the field is made of ASCII letters and its lower-case form is a known field
    or alias; it returns the field as written, whether it is negated, and the
    length of the prefix. *)
Theorem ScanField_iff {U : UnicodeTables} (buf field : gostring) (negated : bool) (count : nat) :
  ScanField buf = (field, negated, count) /\ field <> [] <->
  field <> [] /\ forallb is_alpha field = true /\ known_field (ToLower field) = true /\
  count = (length (dash negated ++ field) + 1)%nat /\
  exists rest, buf = dash negated ++ field ++ COLON :: rest.
Proof.
  split.
  - intros [H Hne]. apply ScanField_sound in H as (rest & -> & Hf & Hk & ->); [|done]. eauto 10.
  - intros (Hne & Hf & Hk & -> & rest & ->). split; [|done]. by apply ScanField_complete.
Qed.

Section Witness.
#[local] Instance tables : UnicodeTables := plain_tables.

(** [a], a double quote, a backslash and a newline. *)
Definition w_literal : gostring := [97; 34; 92; 10]%Z.

Lemma ScanDelimited_Quote_witness :
  ScanDelimited (Quote (w_literal)) true DQUOTE_rune =
  Done (Ok (w_literal, length (Quote (w_literal)))).
Proof. apply (ScanDelimited_Quote true (w_literal)). repeat constructor. Defined.
End Witness.
