(* ===== verification/ParserFacts.v ===== *)
(** The parser is total: for every input it returns, without panic and within
    its fuel, and every leaf it produces is well formed. *)
From S2P Require Import Prelude GoStr GoLib Syntax Operators Scan Mapper Partition Parser ScanCorrect.
Import Utf8 Utf8Facts AsciiFacts.

(** ** Keywords *)

(** Keywords whose letters only fold from ASCII. *)
Definition plain_kw (kw : gostring) : Prop :=
  Forall (fun c => (0 <= c < 0x80)%Z /\ fold_ascii c <> chr "s" /\ fold_ascii c <> chr "k") kw.

Lemma plain_kw_ascii kw : plain_kw kw -> ascii kw.
Proof. intros H. eapply Forall_impl; [exact H|]. simpl. tauto. Qed.

Lemma fold_ascii_small r c :
  (0 <= c < 0x80)%Z -> fold_ascii c <> chr "s" -> fold_ascii c <> chr "k" ->
  fold_ascii (sanitize r) = fold_ascii c -> (r < 0x80)%Z.
Proof.
  intros Hc Hs Hk H. assert (fold_ascii c < 0x80)%Z as Hf.
  { unfold fold_ascii, is_upper, between in *. repeat case_match; simpl in *;
      rewrite ?andb_true_iff in *; lia. }
  unfold sanitize in H. destruct (valid_rune r).
  - revert H. generalize (fold_ascii c) Hs Hk Hf. clear. intros f Hs Hk Hf H.
    unfold fold_ascii, is_upper, between in H.
    destruct ((65 <=? r)%Z && (r <=? 90)%Z) eqn:Hu; [rewrite andb_true_iff in Hu; lia|].
    destruct (r =? 0x17F)%Z; [congruence|].
    destruct (r =? 0x212A)%Z; [congruence|]. lia.
  - vm_compute (fold_ascii RuneError) in H. lia.
Qed.

Lemma peek_fold n b rs kw :
  plain_kw kw -> peek_runes n (segments b) = Some rs ->
  fold_ascii <$> (sanitize <$> rs) = fold_ascii <$> kw ->
  exists bs rest, b = bs ++ rest /\ length bs = length kw /\
    fold_ascii <$> bs = fold_ascii <$> kw.
Proof.
  intros Hkw. revert n b rs. induction Hkw as [|c kw (Hc & Hs & Hk) _ IH]; intros n b rs Hp Hf.
  { exists [], b. done. }
  destruct rs as [|r rs]; [done|]. destruct n as [|n]; [done|].
  destruct (segments b) as [|s segs] eqn:E; [done|]. simpl in Hp.
  apply segments_cons in E as (_ & Hd & Hrest & <- & _ & _).
  destruct (peek_runes n (segments (seg_rest s))) as [rs'|] eqn:Hp'; [|done].
  injection Hp as <- <-. csimpl in Hf. injection Hf as Hf1 Hf2.
  apply fold_ascii_small in Hf1 as Hsmall; try done.
  apply decode_small in Hd as [Hw [t ->]]; [|done].
  destruct (IH n t rs') as (bs & rest & -> & Hl & Hb).
  { rewrite Hrest, Hw in Hp'. simpl in Hp'. by rewrite drop_0 in Hp'. }
  { done. }
  exists (seg_rune s :: bs), rest. split_and!; simpl; [done|lia|].
  f_equal; [|done]. rewrite <- Hf1. unfold sanitize.
  destruct (valid_rune (seg_rune s)) eqn:Hv; [done|].
  rewrite <- Hf1 in Hs. unfold sanitize in Hf1. rewrite Hv in Hf1.
  vm_compute (fold_ascii RuneError) in Hf1. exfalso.
  unfold fold_ascii, is_upper, between in Hf1. repeat case_match; simpl in *;
    rewrite ?andb_true_iff in *; lia.
Qed.

(** A match consumes exactly the bytes of the keyword. *)
Lemma match_spec p kw :
  plain_kw kw -> match_ p kw = true ->
  exists bs rest, drop (pos p) (buf p) = bs ++ rest /\ length bs = length kw /\
    fold_ascii <$> bs = fold_ascii <$> kw.
Proof.
  intros Hkw. unfold match_, peek.
  destruct (peek_runes _ _) as [rs|] eqn:E; [|done]. simpl. unfold EqualFold.
  rewrite bool_decide_eq_true, runes_of_runes, runes_ascii by by apply plain_kw_ascii.
  intros Hf. eapply peek_fold; eauto.
Qed.

Lemma match_bound p kw :
  plain_kw kw -> kw <> [] -> match_ p kw = true -> (pos p + length kw <= length (buf p))%nat.
Proof.
  intros Hkw Hne Hm. apply match_spec in Hm as (bs & rest & Hd & Hl & _); [|done].
  apply (f_equal length) in Hd. rewrite length_drop, length_app in Hd.
  destruct kw; [done|]. simpl in *. lia.
Qed.

(** One-character keywords that are not letters match that very byte. *)
Lemma match_char p c :
  (0 <= c < 0x80)%Z -> is_alpha c = false ->
  match_ p [c] = true <-> exists t, drop (pos p) (buf p) = c :: t.
Proof.
  intros Hc Ha.
  assert (fold_ascii c = c) as Hfc.
  { unfold fold_ascii, is_alpha, is_upper in *. destruct (between 65 90 c); [done|].
    repeat case_match; lia. }
  assert (plain_kw [c]) as Hkw.
  { constructor; [|done]. rewrite Hfc. split_and!; try lia; intros ->; by vm_compute in Ha. }
  split.
  - intros (bs & rest & -> & Hl & Hf)%match_spec; [|done].
    destruct bs as [|b [|]]; [done| |done]. exists rest. simpl. f_equal.
    csimpl in Hf. injection Hf as Hf. rewrite Hfc in Hf.
    assert (c <> chr "s" /\ c <> chr "k") as [Hs Hk] by (split; intros ->; by vm_compute in Ha).
    unfold fold_ascii, is_alpha, is_upper, is_lower, between in *.
    repeat case_match; try congruence;
      rewrite ?orb_false_iff, ?andb_true_iff, ?andb_false_iff in *; lia.
  - intros [t Ht]. unfold match_, peek. rewrite Ht. cbn [length peek_runes].
    rewrite segments_ascii_cons by lia. simpl. unfold EqualFold. apply bool_decide_eq_true.
    change (EncodeRune c ++ []) with (of_runes [c]).
    assert (ascii [c]) by (constructor; [lia|done]).
    by rewrite of_runes_ascii.
Qed.

(** ** States and leaves *)

Definition ok (p : parser) : Prop := (pos p <= length (buf p))%nat.

(** [p'] is [p] with the position moved forward inside the buffer. *)
Definition advances (p p' : parser) : Prop :=
  exists n, p' = set_pos p n /\ (pos p <= n <= length (buf p))%nat.

Lemma advances_ok p p' : advances p p' -> ok p'.
Proof. intros (n & -> & ?). unfold ok. simpl. lia. Qed.

Lemma advances_refl p : ok p -> advances p p.
Proof. intros. exists (pos p). destruct p. done. Qed.

Lemma advances_trans p q r : advances p q -> advances q r -> advances p r.
Proof. intros (n & -> & ?) (m & -> & ?). exists m. simpl in *. split; [done|lia]. Qed.

Lemma advances_set p n : (n <= length (buf p) - pos p)%nat -> ok p -> advances p (set_pos p (pos p + n)).
Proof. unfold ok. intros. exists (pos p + n)%nat. split; [done|lia]. Qed.

Lemma advances_buf p p' : advances p p' -> buf p' = buf p.
Proof. by intros (n & -> & ?). Qed.

Lemma advances_pos p p' : advances p p' -> (pos p <= pos p')%nat.
Proof. intros (n & -> & ?). simpl. lia. Qed.

Lemma advances_heuristics p p' : advances p p' -> heuristics p' = heuristics p.
Proof. by intros (n & -> & ?). Qed.

Create HintDb advance.
#[export] Hint Resolve advances_ok advances_refl advances_trans advances_set : advance.

Definition range_ok (len : nat) (r : Range) : Prop :=
  Line (Start r) = 0%Z /\ Line (End_ r) = 0%Z /\
  (0 <= Column (Start r) <= Column (End_ r))%Z /\ (Column (End_ r) <= Z.of_nat len)%Z.

Lemma newRange_ok len i j : (i <= j <= len)%nat -> range_ok len (newRange i j).
Proof. unfold range_ok. simpl. lia. Qed.

(** What a value with the [IsPredicate] label looks like: a name registered for
    the field, applied to a parenthesised argument. *)
Definition predicate_value (field value : gostring) : Prop :=
  exists table name kind params,
    assoc (resolveFieldAlias field) DefaultPredicateRegistry = Some table /\
    assoc name table = Some kind /\
    value = name ++ str "(" ++ params ++ str ")".

Definition labels_of (n : Node) : Z :=
  match n with
  | PatternNode p => a_Labels (pat_Annotation p)
  | ParamNode p => a_Labels (par_Annotation p)
  | Operator _ _ a => a_Labels a
  end.

Section Spec.
Context {U : UnicodeTables}.

Definition good_pattern (len : nat) (p : Pattern) : Prop :=
  range_ok len (a_Range (pat_Annotation p)).

(** A parameter read from the input. *)
Definition parsed_param (len : nat) (p : Param) : Prop :=
  range_ok len (a_Range (par_Annotation p)) /\
  known_field (ToLower (par_Field p)) = true /\
  (Labels.IsSet (a_Labels (par_Annotation p)) Labels.IsPredicate = true ->
   predicate_value (par_Field p) (par_Value p)).

Definition good_leaf (len : nat) (n : Node) : Prop :=
  match n with
  | PatternNode p => good_pattern len p
  | ParamNode p => parsed_param len p
  | Operator _ _ _ => False
  end.

(** ** Leaf parsers *)

Lemma slice_from_ok s i : (i <= length s)%nat -> slice_from s i = Done (drop i s).
Proof.
  intros. unfold slice_from, slice. rewrite (proj2 (Nat.leb_le _ _)), Nat.leb_refl by lia.
  simpl. rewrite take_ge; [done|]. rewrite length_drop. lia.
Qed.

Lemma slice_byte s i : (i < length s)%nat -> slice s i (i + 1) = Done (take 1 (drop i s)).
Proof.
  intros. unfold slice. rewrite !(proj2 (Nat.leb_le _ _)) by lia. simpl.
  by replace (i + 1 - i)%nat with 1%nat by lia.
Qed.

Lemma done_false p : done p = false -> (pos p < length (buf p))%nat.
Proof. unfold done. intros ?%Nat.leb_gt. done. Qed.

Definition here (p : parser) : gostring := drop (pos p) (buf p).

Lemma skipSpaces_spec p :
  ok p ->
  returns (skipSpaces p) (fun '(err, p') => err = None /\ advances p p' /\
    (done p' = true \/ exists r, starts_with (here p') r /\ IsSpace r = false)).
Proof.
  unfold ok. intros Hp. unfold skipSpaces. rewrite (proj2 (Nat.ltb_ge _ _)) by lia.
  rewrite slice_from_ok by lia. simpl.
  pose proof (skipSpace_bound (drop (pos p) (buf p))) as Hb. rewrite length_drop in Hb.
  rewrite (proj2 (Nat.ltb_ge _ _)) by lia. apply returns_done. split; [done|].
  split; [by apply advances_set|].
  pose proof (skipSpace_stop (drop (pos p) (buf p))) as He. simpl in He.
  rewrite drop_drop in He. unfold here. simpl.
  destruct (drop (pos p + skipSpace (drop (pos p) (buf p))) (buf p)) as [|c t] eqn:Hd.
  - left. unfold done. simpl. apply Nat.leb_le.
    apply (f_equal length) in Hd. rewrite length_drop in Hd. simpl in Hd. lia.
  - right. destruct He as [|He]; [done|]. eexists. split; [split; [done|reflexivity]|done].
Qed.

Lemma quote_starts p c :
  (0 <= c < 0x80)%Z -> is_alpha c = false -> match_ p [c] = true -> starts_with (here p) c.
Proof.
  intros Hc Ha [t Ht]%match_char; [|done..]. unfold here. rewrite Ht. split; [done|].
  by rewrite decode_ascii by lia.
Qed.

Lemma starts_match p c :
  starts_with (here p) c -> (0 <= c < 0x80)%Z -> is_alpha c = false -> match_ p [c] = true.
Proof.
  intros [Hne Hd] Hc Ha. apply match_char; [done..|].
  destruct (DecodeRune (here p)) as [c' w] eqn:E. simpl in Hd. subst c'.
  apply decode_small in E as [_ [t Ht]]; [|lia]. eauto.
Qed.

Lemma parseQuoted_spec p d :
  ok p -> starts_with (here p) d ->
  returns (parseQuoted p d) (fun '(v, p') => advances p p' /\
    match v with Some _ => (pos p < pos p')%nat | None => p' = p end).
Proof.
  intros Hp Hs. unfold parseQuoted. rewrite slice_from_ok by done. unfold here in Hs. simpl.
  destruct (ScanDelimited_total _ false d Hs) as (r & -> & Hr). simpl.
  destruct r as [[v n]|e]; [|apply returns_done; split; auto using advances_refl].
  specialize (Hr v n eq_refl). rewrite length_drop in Hr.
  assert (advances p (set_pos p (pos p + n))) as Ha by (apply advances_set; [lia|done]).
  destruct (done _) eqn:Hdone; [apply returns_done; simpl; split; [done|lia]|].
  apply done_false in Hdone. rewrite slice_byte by done. simpl.
  assert (set_pos (set_pos p (pos p + n)) (pos p) = p) as -> by (by destruct p).
  destruct (_ && _); apply returns_done; simpl; split; auto using advances_refl. lia.
Qed.

Lemma parseRegexpQuotes_spec p :
  ok p ->
  returns (parseRegexpQuotes p) (fun '(v, p') => advances p p' /\
    match v with
    | Some pat => (pos p < pos p')%nat /\ good_pattern (length (buf p)) pat
    | None => p' = p
    end).
Proof.
  intros Hp. unfold parseRegexpQuotes.
  destruct (match_ p SLASH) eqn:Hm; simpl; [|apply returns_done; auto using advances_refl].
  apply quote_starts in Hm; [|done..].
  run_step (parseQuoted_spec p SLASH_rune Hp Hm). intros [[v|] p'] [Ha Hpos]; [|by apply returns_done].
  destruct (if gs_eqb v [] then _ else _) as [v' labels]. apply returns_done.
  split_and!; [done..|]. apply newRange_ok. destruct Ha as (n & -> & ?). simpl in *. lia.
Qed.

Lemma parseStringQuotes_spec p :
  ok p ->
  returns (parseStringQuotes p) (fun '(v, p') => advances p p' /\
    match v with
    | Some pat => (pos p < pos p')%nat /\ good_pattern (length (buf p)) pat
    | None => p' = p
    end).
Proof.
  intros Hp. unfold parseStringQuotes.
  assert (forall kw d, kw = [d] -> (0 <= d < 0x80)%Z -> is_alpha d = false ->
    returns (if match_ p kw then parseQuoted p d else Done (None, p))
      (fun '(v, p') => advances p p' /\
         match v with Some _ => (pos p < pos p')%nat | None => p' = p end)) as Hq.
  { intros kw d -> Hd Hal. destruct (match_ p [d]) eqn:Hm.
    - apply parseQuoted_spec; [done|]. by apply quote_starts.
    - apply returns_done. auto using advances_refl. }
  assert (forall v p', advances p p' -> (pos p < pos p')%nat ->
    good_pattern (length (buf p))
      (newPattern v (Z.lor Labels.Literal Labels.Quoted) (newRange (pos p) (pos p')))) as Hgood.
  { intros v p' (n & -> & ?) ?. apply newRange_ok. simpl in *. lia. }
  run_step (Hq DQUOTE DQUOTE_rune eq_refl); [done..|].
  intros [[v|] p1] [Ha1 Hp1]; [apply returns_done; eauto|]. subst p1.
  run_step (Hq SQUOTE SQUOTE_rune eq_refl); [done..|].
  intros [[v|] p2] [Ha2 Hp2]; apply returns_done; eauto.
Qed.

Lemma isset_quoted : Labels.IsSet Labels.Quoted Labels.IsPredicate = false.
Proof. done. Qed.
Lemma isset_none : Labels.IsSet Labels.None_ Labels.IsPredicate = false.
Proof. done. Qed.

Lemma parse_delimited_spec p d field :
  ok p -> starts_with (here p) d ->
  returns (parse_delimited p d) (fun '(r, p') => advances p p' /\
    match r with
    | Ok (v, labels) =>
        Labels.IsSet labels Labels.IsPredicate = true -> predicate_value field v
    | Err _ => True
    end).
Proof.
  intros Hp Hs. unfold parse_delimited. rewrite slice_from_ok by done. unfold here in Hs. simpl.
  destruct (ScanDelimited_total _ true d Hs) as (r & -> & Hr). simpl.
  destruct r as [[v n]|e]; apply returns_done; [|split; auto using advances_refl].
  specialize (Hr v n eq_refl). rewrite length_drop in Hr.
  split; [apply advances_set; [lia|done]|]. by rewrite isset_quoted.
Qed.

Lemma ParseFieldValue_spec p field :
  ok p ->
  returns (ParseFieldValue p field) (fun '(r, p') => advances p p' /\
    match r with
    | Ok (v, labels) =>
        Labels.IsSet labels Labels.IsPredicate = true -> predicate_value field v
    | Err _ => True
    end).
Proof.
  intros Hp. unfold ParseFieldValue.
  destruct (match_ p SQUOTE) eqn:Hm1.
  { apply parse_delimited_spec; [done|]. by apply quote_starts in Hm1. }
  destruct (match_ p DQUOTE) eqn:Hm2.
  { apply parse_delimited_spec; [done|]. by apply quote_starts in Hm2. }
  rewrite slice_from_ok by done. simpl.
  destruct (ScanPredicate_total field (drop (pos p) (buf p)) DefaultPredicateRegistry)
    as (r & -> & Hr). simpl. destruct r as [[v n]|].
  { destruct (Hr v n eq_refl) as [Hn Hv]. rewrite length_drop in Hn. apply returns_done.
    split; [by apply advances_set|]. intros _. exact Hv. }
  destruct (ScanBalancedPattern _) as [[v n]|] eqn:E.
  { apply ScanBalancedPattern_bound in E. rewrite length_drop in E. apply returns_done.
    split; [by apply advances_set|]. by rewrite isset_none. }
  destruct (ScanValue _ _) as [v n] eqn:E2. apply ScanValue_bound in E2.
  rewrite length_drop in E2. apply returns_done.
  split; [by apply advances_set|]. by rewrite isset_none.
Qed.

Lemma ParseParameter_spec p :
  ok p ->
  returns (ParseParameter p) (fun '(r, p') => advances p p' /\
    match r with
    | Ok (Some par) => (pos p < pos p')%nat /\ parsed_param (length (buf p)) par
    | Ok None => p' = p
    | Err _ => True
    end).
Proof.
  intros Hp. unfold ParseParameter. rewrite slice_from_ok by done. simpl.
  destruct (ScanField _) as [[f neg] n] eqn:E. unfold gs_eqb. case_bool_decide as Hf.
  { apply returns_done. auto using advances_refl. }
  destruct (ScanField_bound _ _ _ _ E Hf) as [Hn Hk]. rewrite length_drop in Hn.
  assert (advances p (set_pos p (pos p + n))) as Ha by (apply advances_set; [lia|done]).
  run_step (ParseFieldValue_spec (set_pos p (pos p + n)) f (advances_ok _ _ Ha)).
  intros [[[v labels]|e] p'] [Ha' Hv]; apply returns_done; (split; [by eapply advances_trans|]);
    [|done].
  assert (pos p + n <= pos p')%nat by (by apply advances_pos in Ha').
  split; [lia|]. destruct Ha' as (m & -> & Hm). unfold parsed_param. simpl in *. split_and!; auto.
  apply newRange_ok. lia.
Qed.

(** [ParsePattern] always yields a pattern.  It consumes at least one rune when
    the next one can start a pattern. *)
Definition can_start (p : parser) (r : rune) : Prop :=
  starts_with (here p) r /\ IsSpace r = false /\ r <> RPAREN_rune /\
  (r = LPAREN_rune -> isSet (heuristics p) allowDanglingParens = true).

Lemma TryScanBalancedPattern_spec p label :
  ok p ->
  returns (TryScanBalancedPattern p label) (fun '(v, p') => advances p p' /\
    match v with
    | Some pat => good_pattern (length (buf p)) pat /\
                  (forall r, can_start p r -> (pos p < pos p')%nat)
    | None => p' = p
    end).
Proof.
  intros Hp. unfold TryScanBalancedPattern. rewrite slice_from_ok by done. simpl.
  destruct (ScanBalancedPattern _) as [[v n]|] eqn:E; apply returns_done;
    [|auto using advances_refl].
  apply ScanBalancedPattern_bound in E as Hb. rewrite length_drop in Hb.
  unfold ok in Hp. split_and!; [by apply advances_set|apply newRange_ok; lia|].
  intros r (Hs & Hsp & Hr & _). simpl.
  pose proof (ScanBalancedPattern_progress _ r v n Hs Hsp Hr E). lia.
Qed.

Lemma scan_pattern_spec p label :
  ok p ->
  returns (scan_pattern p label) (fun '(pat, p') => advances p p' /\
    good_pattern (length (buf p)) pat /\ (forall r, can_start p r -> (pos p < pos p')%nat)).
Proof.
  intros Hp. unfold scan_pattern. rewrite slice_from_ok by done. simpl.
  destruct (if Labels.IsSet label Labels.Regexp then _ else _) as [v n] eqn:E.
  assert (n <= length (buf p) - pos p)%nat as Hb.
  { rewrite <- length_drop. destruct (Labels.IsSet _ _).
    - by eapply ScanValue_bound.
    - by eapply ScanAnyPattern_bound. }
  unfold ok in Hp. apply returns_done. simpl.
  split_and!; [by apply advances_set|apply newRange_ok; lia|].
  intros r (Hs & Hsp & Hr & Hd). enough (1 <= n)%nat by lia.
  destruct (Labels.IsSet label Labels.Regexp).
  - eapply ScanValue_progress; [exact Hs|done| |exact E]. by intros [->| ->]; auto.
  - by eapply ScanAnyPattern_progress.
Qed.

Lemma ParsePattern_spec p label :
  ok p ->
  returns (ParsePattern p label) (fun '(pat, p') => advances p p' /\
    good_pattern (length (buf p)) pat /\ (forall r, can_start p r -> (pos p < pos p')%nat)).
Proof.
  intros Hp. unfold ParsePattern.
  assert (forall (b : bool) (m : run (option Pattern * parser)) Q,
    returns m (fun '(v, p') => advances p p' /\ match v with Some pat => Q pat p' | None => p' = p end) ->
    returns (if b then m else Done (None, p))
      (fun '(v, p') => advances p p' /\ match v with Some pat => Q pat p' | None => p' = p end))
    as Hif.
  { intros [] m Q Hm; [done|]. apply returns_done. auto using advances_refl. }
  run_step Hif; [by apply parseRegexpQuotes_spec|].
  intros [[pat|] p1] [Ha H1]; [apply returns_done; destruct H1; auto|]. subst p1.
  run_step Hif; [by apply parseStringQuotes_spec|].
  intros [[pat|] p1] [Ha' H1]; [apply returns_done; destruct H1; auto|]. subst p1.
  run_step Hif; [by apply TryScanBalancedPattern_spec|].
  intros [[pat|] p1] [Ha'' H1]; [apply returns_done; destruct H1; auto|]. subst p1.
  by apply scan_pattern_spec.
Qed.

Lemma match_then_space_spec p kw :
  ok p -> returns (match_then_space p kw) (fun b => b = true -> match_ p kw = true).
Proof.
  intros Hp. unfold match_then_space, match_.
  destruct (peek p (length kw)) as [v|]; [|by apply returns_done].
  destruct (Nat.leb _ _) eqn:Hl; [by apply returns_done|]. apply Nat.leb_gt in Hl.
  rewrite slice_byte by done. simpl. by destruct (negb _); apply returns_done.
Qed.

Lemma slice_prev p : ok p -> pos p <> 0%nat -> exists b, slice (buf p) (pos p - 1) (pos p) = Done b.
Proof.
  unfold ok. intros Hp Hne. unfold slice. rewrite !(proj2 (Nat.leb_le _ _)) by lia. simpl. eauto.
Qed.

Lemma matchKeyword_spec p kw :
  ok p -> returns (matchKeyword p kw) (fun b => b = true -> match_ p kw = true).
Proof.
  intros Hp. unfold matchKeyword. destruct (Nat.eqb_spec (pos p) 0); [by apply returns_done|].
  destruct (slice_prev p Hp) as [b ->]; [done|]. simpl.
  destruct (negb _); [by apply returns_done|]. by apply match_then_space_spec.
Qed.

Lemma matchUnaryKeyword_spec p kw :
  ok p -> returns (matchUnaryKeyword p kw) (fun b => b = true -> match_ p kw = true).
Proof.
  intros Hp. unfold matchUnaryKeyword. apply returns_bind.
  assert (exists b, (if Nat.eqb (pos p) 0 then Done false
    else let! b := slice (buf p) (pos p - 1) (pos p) in
         Done (negb (isSpace b || (hd 0%Z b =? LPAREN_rune)%Z))) = Done b) as [b ->].
  { destruct (Nat.eqb_spec (pos p) 0); [eauto|].
    destruct (slice_prev p Hp) as [b ->]; [done|]. simpl. eauto. }
  apply returns_done. destruct b; [by apply returns_done|]. by apply match_then_space_spec.
Qed.

Lemma expect_spec p kw :
  plain_kw kw -> kw <> [] -> ok p ->
  advances p (snd (expect p kw)) /\
  (fst (expect p kw) = true -> pos (snd (expect p kw)) = (pos p + length kw)%nat) /\
  (fst (expect p kw) = false -> match_ p kw = false /\ snd (expect p kw) = p).
Proof.
  intros Hkw Hne Hp. unfold expect. destruct (match_ p kw) eqn:Hm; simpl.
  - apply match_bound in Hm; [|done..]. split_and!; [|done..]. apply advances_set; [lia|done].
  - split_and!; [by apply advances_refl|done..].
Qed.

Lemma plain_AND : plain_kw AND. Proof. repeat constructor; vm_compute; congruence. Qed.
Lemma plain_OR : plain_kw OR. Proof. repeat constructor; vm_compute; congruence. Qed.
Lemma plain_NOT : plain_kw NOT. Proof. repeat constructor; vm_compute; congruence. Qed.
Lemma plain_LPAREN : plain_kw LPAREN. Proof. repeat constructor; vm_compute; congruence. Qed.
Lemma plain_RPAREN : plain_kw RPAREN. Proof. repeat constructor; vm_compute; congruence. Qed.

Lemma parseNot_spec p label :
  ok p -> match_ p NOT = true ->
  returns (parseNot p label) (fun '(r, p') => advances p p' /\ (pos p < pos p')%nat /\
    match r with Ok n => good_leaf (length (buf p)) n | Err _ => True end).
Proof.
  intros Hp Hm. unfold parseNot.
  destruct (expect_spec p NOT plain_NOT ltac:(done) Hp) as (Ha & Hpos & _).
  unfold expect in *. rewrite Hm in *. cbn [negb fst snd] in *. specialize (Hpos eq_refl).
  set (p1 := set_pos p (pos p + length NOT)) in *.
  assert (pos p < pos p1)%nat as Hlt by (rewrite Hpos; simpl; lia).
  run_step (skipSpaces_spec p1 (advances_ok _ _ Ha)).
  intros [err p2] (-> & Ha2 & _). apply advances_pos in Ha2 as Hp2.
  assert (advances p p2) as Ha12 by eauto with advance.
  destruct (match_ p2 LPAREN); [apply returns_done; split_and!; auto; lia|].
  run_step (ParseParameter_spec p2 (advances_ok _ _ Ha2)).
  intros [r p3] [Ha3 Hr]. apply advances_pos in Ha3 as Hp3.
  assert (advances p p3) as Ha13 by eauto with advance.
  apply advances_buf in Ha12 as Hbuf.
  assert (returns (let! '(pattern, p) := ParsePattern p3 label in
      Done (@Ok gerror _ (PatternNode (MkPattern (pat_Value pattern) true
         (MkAnnotation (a_Labels (pat_Annotation pattern)) (newRange (pos p1 - length NOT) (pos p))))), p))
    (fun '(r, p') => advances p p' /\ (pos p < pos p')%nat /\
       match r with Ok n => good_leaf (length (buf p)) n | Err _ => True end)) as Hpat.
  { run_step (ParsePattern_spec p3 label (advances_ok _ _ Ha3)).
    intros [pat p4] (Ha4 & _ & _). apply returns_done.
    assert (advances p p4) as Ha14 by eauto with advance.
    apply advances_pos in Ha4 as Hp4. split_and!; [done|lia|].
    apply newRange_ok. destruct Ha14 as (m & -> & ?). simpl in *. lia. }
  assert (pos p1 - length NOT = pos p)%nat as Hstart by (rewrite Hpos; lia).
  rewrite Hstart in Hpat.
  destruct r as [[par|]|e]; [|exact Hpat..].
  destruct Hr as [_ (Hrange & Hknown & Hpred)].
  destruct (par_Negated par); apply returns_done; (split_and!; [done|lia|]); [done|].
  split_and!; [|done..]. apply newRange_ok.
  destruct Ha13 as (m & -> & ?). simpl in *. lia.
Qed.

Lemma parseLeaf_spec p label :
  ok p ->
  returns (parseLeaf p label) (fun '(r, p') => advances p p' /\
    match r with
    | Ok n => good_leaf (length (buf p)) n /\ (forall c, can_start p c -> (pos p < pos p')%nat)
    | Err _ => True
    end).
Proof.
  intros Hp. unfold parseLeaf. run_step (ParseParameter_spec p Hp).
  intros [r p1] [Ha Hr]. destruct r as [[par|]|e].
  - destruct Hr. apply returns_done. split_and!; auto.
  - subst p1. run_step (ParsePattern_spec p label Hp). intros [pat p2] (Ha2 & Hg & Hpr).
    apply returns_done. auto.
  - apply returns_done. auto.
Qed.

(** ** Expressions *)

(** Every leaf is well formed and every operator has at least two operands. *)
Definition node_ok (len : nat) (n : Node) : Prop :=
  Forall (good_leaf len) (leaves n) /\ all_ops (fun _ m => (2 <= m)%nat) n.

Lemma node_ok_leaf len n : good_leaf len n -> node_ok len n.
Proof. destruct n; intros H; [| |done]; (split; [by apply Forall_singleton|done]). Qed.

Lemma nodes_ok_split len ns :
  Forall (node_ok len) ns <->
  Forall (good_leaf len) (leaves_of ns) /\ Forall (all_ops (fun _ m => (2 <= m)%nat)) ns.
Proof.
  unfold node_ok. rewrite Forall_and. apply and_iff_compat_r.
  unfold leaves_of. induction ns as [|n ns IH]; [done|].
  simpl. by rewrite Forall_cons, Forall_app, IH.
Qed.

Lemma NewOperator_ok len ns k :
  Forall (node_ok len) ns -> Forall (node_ok len) (NewOperator ns k).
Proof.
  rewrite !nodes_ok_split. intros [H1 H2]. split.
  - by apply NewOperator_Forall_leaves.
  - by apply NewOperator_all_ops.
Qed.

Lemma partition_fold_Forall (P : Node -> Prop) ns pats pars pats' pars' :
  List.fold_left partition_step ns (pats, pars) = (pats', pars') ->
  Forall P ns -> Forall P pats -> Forall P pars -> Forall P pats' /\ Forall P pars'.
Proof.
  revert pats pars. induction ns as [|n ns IH]; intros pats pars E Hns Hp Hq.
  - by simplify_eq/=.
  - apply Forall_cons in Hns as [Hn Hns]. simpl in E.
    assert (Forall P (pats ++ [n]) /\ Forall P (pars ++ [n])) as [? ?]
      by (rewrite !Forall_app, !Forall_singleton; auto).
    destruct n; [by eapply IH..|]. destruct (containsPattern _); by eapply IH.
Qed.

Lemma partitionParameters_ok len ns :
  Forall (node_ok len) ns -> Forall (node_ok len) (partitionParameters ns).
Proof.
  intros H. unfold partitionParameters.
  destruct (List.fold_left partition_step ns ([], [])) as [pats pars] eqn:E.
  apply (partition_fold_Forall (node_ok len)) in E as [? ?]; auto.
  destruct (Nat.ltb _ _); repeat apply NewOperator_ok; apply Forall_app_2; auto using NewOperator_ok.
Qed.

(** The parser starts with one of two heuristics and keeps it: an empty group is
    a pattern, or parentheses do not group. *)
Definition moded (p : parser) : Prop :=
  isSet (heuristics p) parensAsPatterns = true \/ isSet (heuristics p) allowDanglingParens = true.

Lemma isSet_lor h h' b : isSet h b = true -> isSet (Z.lor h h') b = true.
Proof.
  unfold isSet. rewrite !negb_true_iff, !Z.eqb_neq. intros Hne H. apply Hne.
  apply Z.bits_inj'. intros i Hi. apply (f_equal (fun z => Z.testbit z i)) in H.
  rewrite Z.land_spec, Z.lor_spec, Z.bits_0 in *. by destruct (Z.testbit h i).
Qed.

Lemma moded_lor p h : moded p -> moded (set_heuristics p (Z.lor (heuristics p) h)).
Proof. unfold moded. simpl. intros [?|?]; [left|right]; by apply isSet_lor. Qed.

(** [p'] is reached from [p] by reading input. *)
Definition grows (p p' : parser) : Prop :=
  (moded p -> moded p') /\
  buf p' = buf p /\ leafParser p' = leafParser p /\ (pos p <= pos p' <= length (buf p))%nat.

Lemma advances_grows p p' : advances p p' -> grows p p'.
Proof. by intros (n & -> & ?). Qed.
Lemma grows_moded p p' : grows p p' -> moded p -> moded p'.
Proof. by intros [? _]. Qed.

Lemma grows_trans p q r : grows p q -> grows q r -> grows p r.
Proof. unfold grows. intros (? & Hb & Hl & ?) (? & Hb' & Hl' & ?). rewrite Hb', Hl', Hb, Hl in *. split_and!; auto; lia. Qed.

Lemma grows_ok p p' : grows p p' -> ok p'.
Proof. unfold ok. intros (_ & -> & _ & ?). lia. Qed.

Definition remaining (p : parser) : nat := length (buf p) - pos p.

Definition post (p : parser) (rp : result gerror (list Node) * parser) : Prop :=
  grows p (snd rp) /\
  match fst rp with Ok ns => Forall (node_ok (length (buf p))) ns | Err _ => True end.

Lemma post_weaken p q rp : grows p q -> post q rp -> post p rp.
Proof.
  intros Hg [Hq Hr]. split; [by eapply grows_trans|].
  destruct Hg as (_ & <- & _ & _). done.
Qed.

Definition loop_spec (fuel : nat) : Prop :=
  forall label start nodes p,
    ok p -> moded p -> (start <= pos p)%nat -> (3 * remaining p + 1 <= fuel)%nat ->
    Forall (node_ok (length (buf p))) nodes ->
    returns (parseLeaves_loop fuel label start nodes p) (post p).
Definition and_spec (fuel : nat) : Prop :=
  forall p, ok p -> moded p -> (3 * remaining p + 2 <= fuel)%nat -> returns (parseAnd fuel p) (post p).
Definition or_spec (fuel : nat) : Prop :=
  forall p, ok p -> moded p -> (3 * remaining p + 3 <= fuel)%nat -> returns (parseOr fuel p) (post p).

(** Continue the loop from a later state. *)
Lemma loop_next fuel p q label start nodes :
  loop_spec fuel -> grows p q -> moded p -> (pos p < pos q)%nat -> (start <= pos p)%nat ->
  (3 * remaining p + 1 <= S fuel)%nat -> Forall (node_ok (length (buf p))) nodes ->
  returns (parseLeaves_loop fuel label start nodes q) (post p).
Proof.
  intros Hloop Hg Hmd Hlt Hs Hf Hn. eapply returns_mono; [apply Hloop|].
  - by eapply grows_ok.
  - by eapply grows_moded.
  - destruct Hg as (_ & _ & _ & ?). lia.
  - unfold remaining in *. destruct Hg as (_ & -> & _ & ?). lia.
  - destruct Hg as (_ & -> & _ & _). done.
  - intros rp. by apply post_weaken.
Qed.

Lemma close_group_spec p start nodes nodes' p' :
  close_group p start nodes = Some (nodes', p') -> ok p ->
  isSet (heuristics p) parensAsPatterns = true -> (start <= pos p)%nat ->
  Forall (node_ok (length (buf p))) nodes ->
  grows p p' /\ Forall (node_ok (length (buf p))) nodes'.
Proof.
  unfold close_group, ok. destruct (_ <=? _)%Z; [done|]. intros [= <- <-] Hp Hm Hs Hn. apply (isSet_lor _ disambiguated) in Hm.
  split; [split_and!; [|done..]; left; exact Hm|]. destruct nodes; [|done].
  cbn [heuristics set_heuristics set_balanced]. rewrite Hm.
  apply Forall_singleton, node_ok_leaf, newRange_ok. simpl. lia.
Qed.

Lemma paren_pattern_spec p :
  ok p -> returns (paren_pattern p) (fun r => forall v n, r = Some (v, n) ->
    (n <= length (buf p) - pos p)%nat /\
    (forall c, starts_with (here p) c -> IsSpace c = false -> c <> RPAREN_rune -> (1 <= n)%nat)).
Proof.
  intros Hp. unfold paren_pattern. destruct (isSet _ _); [|by apply returns_done].
  rewrite slice_from_ok by done. simpl. apply returns_done. intros v n E. split.
  - apply ScanBalancedPattern_bound in E. by rewrite length_drop in E.
  - intros c Hs Hsp Hr. by eapply ScanBalancedPattern_progress.
Qed.

Lemma starts_with_inj b c d : starts_with b c -> starts_with b d -> c = d.
Proof. intros [_ <-] [_ <-]. done. Qed.

(** An iteration that ends in a leaf. *)
Lemma leaf_iteration fuel p label start nodes q :
  loop_spec fuel -> advances p q -> moded p -> (start <= pos p)%nat ->
  (3 * remaining p + 1 <= S fuel)%nat -> Forall (node_ok (length (buf p))) nodes ->
  ((pos p < pos q)%nat \/ exists c, can_start q c) ->
  returns (let! is_and := matchKeyword q AND in
           let! is_or := if is_and then Done true else matchKeyword q OR in
           if is_or then Done (Ok (partitionParameters nodes), q)
           else
             let! is_not := matchUnaryKeyword q NOT in
             let! '(r, p) := if is_not then parseNot q label else parseLeaf q label in
             match r with
             | Err e => Done (Err e, p)
             | Ok n => parseLeaves_loop fuel label start (nodes ++ [n]) p
             end) (post p).
Proof.
  intros Hloop Ha Hmd Hs Hf Hn Hprog. apply advances_ok in Ha as Hq.
  apply advances_grows in Ha as Hg. apply advances_buf in Ha as Hbuf.
  run_step (matchKeyword_spec q AND Hq). intros is_and _.
  apply returns_bind. apply returns_mono with (P := fun _ => True).
  { destruct is_and; [by apply returns_done|].
    eapply returns_mono; [by apply matchKeyword_spec|done]. }
  intros is_or _. destruct is_or.
  { apply returns_done. split; [done|]. by apply partitionParameters_ok. }
  run_step (matchUnaryKeyword_spec q NOT Hq). intros is_not Hnot.
  apply returns_bind. apply returns_mono with
    (P := fun '(r, q') => advances q q' /\
       match r with
       | Ok n => good_leaf (length (buf q)) n /\ (pos p < pos q')%nat
       | Err _ => True
       end).
  { destruct is_not.
    - eapply returns_mono; [apply parseNot_spec; auto|].
      intros [r q'] (Ha' & Hpos & Hr). apply advances_pos in Ha as ?. split; [done|].
      destruct r; [split; [done|lia]|done].
    - eapply returns_mono; [apply parseLeaf_spec; auto|].
      intros [r q'] (Ha' & Hr). split; [done|]. destruct r; [|done].
      apply advances_pos in Ha as ?. apply advances_pos in Ha' as ?. destruct Hr as [Hg' Hc].
      split; [done|]. destruct Hprog as [?|[c ?]]; [lia|]. specialize (Hc c ltac:(done)). lia. }
  intros [r q'] [Ha' Hr].
  assert (grows p q') as Hg' by (eapply grows_trans; [done|by apply advances_grows]).
  destruct r as [n|e]; [|by apply returns_done]. destruct Hr as [Hgood Hlt].
  eapply loop_next; eauto. apply Forall_app_2; [done|].
  apply Forall_singleton, node_ok_leaf. by rewrite <- Hbuf.
Qed.

(** An iteration that enters a parenthesised group. *)
Lemma group_iteration fuel p label start nodes :
  loop_spec fuel -> or_spec fuel -> ok p -> moded p -> (start <= pos p)%nat ->
  (3 * remaining p + 1 <= S fuel)%nat -> Forall (node_ok (length (buf p))) nodes ->
  match_ p LPAREN = true ->
  returns (let p := snd (expect p LPAREN) in
           let p := set_balanced p (balanced p + 1) in
           let p := set_heuristics p (Z.lor (heuristics p) disambiguated) in
           let! '(r, p) := parseOr fuel p in
           match r with
           | Err e => Done (Err e, p)
           | Ok result => parseLeaves_loop fuel label start (nodes ++ result) p
           end) (post p).
Proof.
  intros Hloop Hor Hp Hmd Hs Hf Hn Hm. cbv zeta.
  destruct (expect_spec p LPAREN plain_LPAREN ltac:(done) Hp) as (Ha & Hpos & _).
  unfold expect in *. rewrite Hm in *. cbn [negb fst snd] in *. specialize (Hpos eq_refl).
  match goal with |- context [parseOr fuel ?q] => set (q0 := q) end.
  assert (grows p q0) as Hg by (split; [intros; by apply (moded_lor (set_balanced (set_pos p _) _))|apply advances_grows in Ha; apply Ha]).
  assert (pos q0 = pos p + 1)%nat as Hq0 by (exact Hpos).
  run_step Hor; [by eapply grows_ok|by eapply grows_moded|unfold remaining in *; destruct Hg as (_ & -> & _ & ?); lia|].
  intros [r q1] [Hg1 Hr]. simpl in Hg1, Hr.
  assert (grows p q1) as Hg01 by (by eapply grows_trans).
  destruct r as [ns|e]; [|by apply returns_done].
  eapply loop_next; eauto.
  - destruct Hg1 as (_ & _ & _ & ?). lia.
  - apply Forall_app_2; [done|]. destruct Hg as (_ & <- & _ & _). done.
Qed.

Lemma loop_step fuel : loop_spec fuel -> or_spec fuel -> loop_spec (S fuel).
Proof.
  intros Hloop Hor label start nodes p0 Hp0 Hmd0 Hs0 Hf0 Hn0. cbn [parseLeaves_loop].
  run_step (skipSpaces_spec p0 Hp0). intros [err p] (-> & Ha0 & Hsp).
  apply advances_grows in Ha0 as Hg0. apply advances_ok in Ha0 as Hp.
  apply advances_pos in Ha0 as Hpos0. apply advances_buf in Ha0 as Hb0.
  apply (grows_moded _ _ Hg0) in Hmd0 as Hmd.
  eapply returns_mono; [|intros rp; apply (post_weaken _ _ rp Hg0)].
  assert (start <= pos p)%nat as Hs by lia.
  assert (3 * remaining p + 1 <= S fuel)%nat as Hf
    by (unfold remaining in *; rewrite Hb0; lia).
  rewrite <- Hb0 in Hn0. clear Hf0 Hs0 Hpos0 Hg0 Ha0 Hb0 Hp0 Hmd0 p0.
  destruct (done p) eqn:Hdone.
  { apply returns_done. split; [by apply advances_grows, advances_refl|].
    by apply partitionParameters_ok. }
  destruct Hsp as [|(c & Hc & Hcs)]; [congruence|].
  destruct (match_ p LPAREN && _) eqn:Hlp.
  - apply andb_true_iff in Hlp as [Hm Hnd].
    apply quote_starts in Hm as Hst; [|done..].
    run_step (paren_pattern_spec p Hp). intros [[v n]|] Hsc.
    + destruct (Hsc v n eq_refl) as [Hn Hpr].
      assert (1 <= n)%nat by (by eapply Hpr; [exact Hst|..]).
      assert (advances p (set_pos p (pos p + n))) by (by apply advances_set).
      eapply loop_next; eauto using advances_grows; [simpl; lia|].
      apply Forall_app_2; [done|]. apply Forall_singleton, node_ok_leaf.
      apply newRange_ok. unfold ok in Hp. lia.
    + by apply group_iteration.
  - destruct (expect_spec p RPAREN plain_RPAREN ltac:(done) Hp) as (Ha & Hpos & Hno).
    destruct (expect p RPAREN) as [rp q] eqn:Hex. simpl in Ha, Hpos, Hno.
    destruct (rp && _) eqn:Hrp.
    + apply andb_true_iff in Hrp as [-> Hnd%negb_true_iff]. apply advances_buf in Ha as Hb.
      assert (isSet (heuristics q) parensAsPatterns = true) as Hmq.
      { rewrite (advances_heuristics _ _ Ha). destruct Hmd; [done|congruence]. }
      apply advances_pos in Ha as Hpq.
      destruct (close_group q start nodes) as [[nodes' q']|] eqn:Hcg.
      * apply close_group_spec in Hcg as [Hg' Hn'];
          [|by eapply advances_ok|done|lia|by rewrite Hb].
        apply returns_done. split; [eapply grows_trans; [by apply advances_grows|done]|].
        apply partitionParameters_ok. by rewrite <- Hb.
      * apply returns_done. split; [by apply advances_grows|done].
    + apply leaf_iteration; auto. destruct rp; [left; rewrite Hpos by done; simpl; lia|].
      right. destruct (Hno eq_refl) as [Hnm ->]. exists c. split_and!; [done..| |].
      * intros ->. apply starts_match in Hc; [|done..]. change RPAREN with [RPAREN_rune] in Hnm. congruence.
      * intros ->. destruct (isSet _ _); [done|]. rewrite andb_true_r in Hlp.
        apply starts_match in Hc; [|done..]. change LPAREN with [LPAREN_rune] in Hlp. congruence.
Qed.

(** Both binary operators: parse the rest after the keyword and combine. *)
Lemma binary_step fuel kw k (rec : nat -> parser -> run (result gerror (list Node) * parser))
    p q left_ extra :
  plain_kw kw -> kw <> [] -> grows p q -> moded p -> (extra <= 3)%nat ->
  (3 * remaining p + extra <= S fuel)%nat ->
  (forall p, ok p -> moded p -> (3 * remaining p + extra <= fuel)%nat -> returns (rec fuel p) (post p)) ->
  Forall (node_ok (length (buf p))) left_ ->
  returns (let '(found, q) := expect q kw in
           if negb found then Done (Ok left_, q)
           else let! '(right_, q) := rec fuel q in
                match right_ with
                | Err e => Done (Err e, q)
                | Ok right_ => Done (Ok (NewOperator (left_ ++ right_) k), q)
                end) (post p).
Proof.
  intros Hkw Hne Hg Hmd Hex Hf Hrec Hl. apply grows_ok in Hg as Hq.
  destruct (expect_spec q kw Hkw Hne Hq) as (Ha & Hpos & _).
  destruct (expect q kw) as [found q1]. simpl in Ha, Hpos.
  assert (grows p q1) as Hg1 by (eapply grows_trans; [done|by apply advances_grows]).
  destruct found; simpl; [|by apply returns_done]. specialize (Hpos eq_refl).
  assert (1 <= length kw)%nat by (destruct kw; [done|simpl; lia]).
  run_step Hrec; [by eapply grows_ok|by eapply grows_moded|unfold remaining in *; destruct Hg as (_ & ? & _ & ?);
    destruct Hg1 as (_ & -> & _ & ?); lia|].
  intros [r q2] [Hg2 Hr]. simpl in Hg2, Hr.
  assert (grows p q2) as Hg02 by (by eapply grows_trans).
  destruct r as [right_|e]; apply returns_done; (split; [done|]); [|done].
  apply NewOperator_ok, Forall_app_2; [done|]. destruct Hg1 as (_ & <- & _ & _). done.
Qed.

Lemma and_step fuel : loop_spec fuel -> and_spec fuel -> and_spec (S fuel).
Proof.
  intros Hloop Hand p Hp Hmd Hf. cbn [parseAnd].
  run_step Hloop; [done..|lia|constructor|]. intros [r q] [Hg Hr]. simpl in Hg, Hr.
  destruct r as [[|n ns]|e]; [by apply returns_done| |by apply returns_done].
  by apply (binary_step fuel AND And parseAnd p q (n :: ns) 2 plain_AND); auto.
Qed.

Lemma or_step fuel : and_spec fuel -> or_spec fuel -> or_spec (S fuel).
Proof.
  intros Hand Hor p Hp Hmd Hf. cbn [parseOr].
  run_step Hand; [done|done|lia|]. intros [r q] [Hg Hr]. simpl in Hg, Hr.
  destruct r as [[|n ns]|e]; [by apply returns_done| |by apply returns_done].
  by apply (binary_step fuel OR Or parseOr p q (n :: ns) 3 plain_OR); auto.
Qed.

Lemma expressions_total fuel : loop_spec fuel /\ and_spec fuel /\ or_spec fuel.
Proof.
  induction fuel as [|fuel (Hloop & Hand & Hor)].
  - split_and!; [intros ? ? ? ? ? ? ? ?; lia|intros ? ? ? ?; lia..].
  - split_and!; auto using loop_step, and_step, or_step.
Qed.

Lemma parseOr_total in_ h t :
  isSet h parensAsPatterns = true \/ isSet h allowDanglingParens = true ->
  returns (parseOr (parse_fuel in_) (MkParser in_ h 0 0 t))
    (fun '(r, _) => match r with Ok ns => Forall (node_ok (length in_)) ns | Err _ => True end).
Proof.
  intros Hh. eapply returns_mono.
  - apply expressions_total; [unfold ok; simpl; lia|exact Hh|].
    unfold remaining, parse_fuel. simpl. lia.
  - intros [r q] [_ Hr]. exact Hr.
Qed.
End Spec.
