(* ===== verification/PartitionFacts.v ===== *)
(** Correctness of [PartitionSearchPattern] and [Hoist]. *)
From S2P Require Import Prelude GoStr GoLib Syntax Operators Mapper Partition.

(** ** [PartitionSearchPattern] *)

Definition scope_or_pattern (n : Node) : bool := isPatternExpression [n] || is_param n.

Lemma isPatternExpression_param p : isPatternExpression [ParamNode p] = false.
Proof. done. Qed.

(** The loop succeeds exactly when every node is a parameter or a pure pattern
    expression, and splits the list in order. *)
Lemma partition_loop_spec nodes parameters patterns :
  partition_loop nodes parameters patterns =
  if forallb scope_or_pattern nodes
  then Ok (parameters ++ omap to_param nodes,
           patterns ++ List.filter (fun n => isPatternExpression [n]) nodes)
  else Err err_partition.
Proof.
  revert parameters patterns. induction nodes as [|n nodes IH]; intros pars pats.
  { simpl. by rewrite !app_nil_r. }
  cbn [partition_loop forallb List.filter]. unfold scope_or_pattern at 1.
  destruct (isPatternExpression [n]) eqn:Hp.
  - rewrite IH. simpl. destruct n; [| |]; simpl; rewrite <- ?app_assoc; try done.
  - destruct n; simpl; [done| |done]. by rewrite IH, <- app_assoc.
Qed.

(** The meaning of a partition: a conjunction. *)
Definition eval_params (v : Node -> bool) (ps : list Param) : bool :=
  forallb (fun p => v (ParamNode p)) ps.
Definition eval_opt (v : Node -> bool) (o : option Node) : bool :=
  match o with Some n => eval v n | None => true end.
Definition leaves_opt (o : option Node) : list Node :=
  match o with Some n => leaves n | None => [] end.

(** The nodes that the loop of [PartitionSearchPattern] goes over. *)
Definition top_nodes (nodes : list Node) : result gerror (list Node) :=
  match nodes with [node] => processTopLevel node | _ => Ok nodes end.

Lemma top_nodes_spec nodes ns :
  top_nodes nodes = Ok ns ->
  leaves_of ns = leaves_of nodes /\ (forall v, eval_list v And ns = eval_list v And nodes) /\
  (forall Q, Forall (all_ops Q) nodes -> Forall (all_ops Q) ns).
Proof.
  assert (@Ok gerror _ nodes = Ok ns -> leaves_of ns = leaves_of nodes /\
    (forall v, eval_list v And ns = eval_list v And nodes) /\
    (forall Q, Forall (all_ops Q) nodes -> Forall (all_ops Q) ns)) as Hsame
    by (intros [= <-]; auto).
  destruct nodes as [|n [|m nodes]]; simpl; [exact Hsame| |exact Hsame].
  destruct n as [p|p|k ops a]; [exact Hsame..|]. unfold processTopLevel.
  destruct k; cbn [kind_eqb]; simpl; repeat case_match; try exact Hsame; try done.
  intros [= <-]. split_and!.
  - by rewrite leaves_of_cons, leaves_operator, app_nil_r.
  - intros v. unfold eval_list, id. simpl. by rewrite andb_true_r.
  - intros Q [[_ Hops]%all_ops_operator _]%Forall_cons. done.
Qed.

Lemma eval_list_cons v n ns : eval_list v And (n :: ns) = eval v n && eval_list v And ns.
Proof. done. Qed.

Lemma split_eval v ns :
  forallb scope_or_pattern ns = true ->
  eval_list v And ns =
  eval_params v (omap to_param ns) &&
  eval_list v And (List.filter (fun n => isPatternExpression [n]) ns).
Proof.
  induction ns as [|n ns IH]; [done|]. simpl. rewrite andb_true_iff. intros [Hn Hns].
  rewrite eval_list_cons, IH by done. unfold scope_or_pattern in Hn.
  destruct n as [p|p|k ops a]; simpl in *; rewrite ?orb_false_r in Hn; rewrite ?Hn; simpl.
  - rewrite eval_list_cons. simpl. by destruct (v _), (eval_params _ _).
  - by rewrite andb_assoc.
  - rewrite eval_list_cons. simpl. by destruct (combine _ _), (eval_params _ _).
Qed.

Lemma split_leaves ns :
  forallb scope_or_pattern ns = true ->
  leaves_of ns ≡ₚ
  toNodes (omap to_param ns) ++ leaves_of (List.filter (fun n => isPatternExpression [n]) ns).
Proof.
  induction ns as [|n ns IH]; [done|]. simpl. rewrite andb_true_iff. intros [Hn Hns].
  rewrite leaves_of_cons, (IH Hns). unfold scope_or_pattern in Hn.
  destruct n as [p|p|k ops a]; simpl in *; rewrite ?orb_false_r in Hn; rewrite ?Hn; simpl.
  - apply Permutation_middle.
  - done.
  - rewrite leaves_of_cons, leaves_operator. apply Permutation_app_swap_app.
Qed.

Definition pattern_of (patterns : list Node) : option Node :=
  match patterns with
  | [] => None
  | [p] => Some p
  | _ => Some (Operator And patterns zeroAnnotation)
  end.

Lemma pattern_of_leaves ps : leaves_opt (pattern_of ps) = leaves_of ps.
Proof. destruct ps as [|p [|q ps]]; [done| |done]. simpl. by rewrite leaves_of_cons, app_nil_r. Qed.

Lemma pattern_of_eval v ps : eval_opt v (pattern_of ps) = eval_list v And ps.
Proof. destruct ps as [|p [|q ps]]; [done| |done]. by rewrite eval_list_singleton. Qed.

Lemma PartitionSearchPattern_unfold nodes :
  PartitionSearchPattern nodes =
  match top_nodes nodes with
  | Err e => Err e
  | Ok ns =>
      if forallb scope_or_pattern ns
      then Ok (omap to_param ns, pattern_of (List.filter (fun n => isPatternExpression [n]) ns))
      else Err err_partition
  end.
Proof.
  unfold PartitionSearchPattern, top_nodes. destruct (match nodes with [_] => _ | _ => _ end); [|done].
  rewrite partition_loop_spec. by destruct (forallb _ _).
Qed.

Lemma isPatternExpression_filter ns :
  isPatternExpression (List.filter (fun n => isPatternExpression [n]) ns) = true.
Proof.
  induction ns as [|n ns IH]; [done|]. simpl. destruct (isPatternExpression [n]) eqn:E; [|done].
  by rewrite isPatternExpression_cons, E, IH.
Qed.

Lemma PartitionSearchPattern_spec nodes parameters pattern :
  PartitionSearchPattern nodes = Ok (parameters, pattern) ->
  (forall v, eval_list v And nodes = eval_params v parameters && eval_opt v pattern) /\
  leaves_of nodes ≡ₚ toNodes parameters ++ leaves_opt pattern /\
  (forall p, pattern = Some p -> isPatternExpression [p] = true).
Proof.
  rewrite PartitionSearchPattern_unfold. destruct (top_nodes nodes) as [ns|] eqn:Ht; [|done].
  apply top_nodes_spec in Ht as (Hl & He & _).
  destruct (forallb scope_or_pattern ns) eqn:Hs; [|done]. intros [= <- <-]. split_and!.
  - intros v. by rewrite <- He, pattern_of_eval, split_eval.
  - by rewrite <- Hl, pattern_of_leaves, split_leaves.
  - intros p Hp. pose proof (isPatternExpression_filter ns) as Hf.
    destruct (List.filter _ ns) as [|q [|q' qs]]; simplify_eq/=; [done|].
    by rewrite isPatternExpression_operator.
Qed.

Lemma PartitionSearchPattern_all_ops Q nodes parameters pattern :
  (forall m, (2 <= m)%nat -> Q And m) ->
  PartitionSearchPattern nodes = Ok (parameters, pattern) ->
  Forall (all_ops Q) nodes -> forall p, pattern = Some p -> all_ops Q p.
Proof.
  intros HQ. rewrite PartitionSearchPattern_unfold.
  destruct (top_nodes nodes) as [ns|] eqn:Ht; [|done].
  apply top_nodes_spec in Ht as (_ & _ & Ho).
  destruct (forallb scope_or_pattern ns); [|done]. intros [= <- <-] Hn p Hp.
  specialize (Ho Q Hn).
  assert (Forall (all_ops Q) (List.filter (fun n => isPatternExpression [n]) ns)) as Hf.
  { clear -Ho. induction Ho; simpl; [constructor|]. destruct (isPatternExpression _); auto. }
  destruct (List.filter _ ns) as [|q [|q' qs]]; simplify_eq/=.
  - by inversion Hf.
  - apply all_ops_operator. split; [apply HQ; simpl; lia|done].
Qed.

(** ** [Hoist] *)

Definition hoist_leaf (n : Node) : Node :=
  match n with
  | PatternNode p =>
      PatternNode (MkPattern (pat_Value p) (pat_Negated p)
        (MkAnnotation (Z.lor (a_Labels (pat_Annotation p)) Labels.HeuristicHoisted)
                      (a_Range (pat_Annotation p))))
  | _ => n
  end.

Lemma empty_leaf_hoist n : empty_leaf (hoist_leaf n) = empty_leaf n.
Proof. by destruct n. Qed.

(** Mapping one leaf to one leaf of the same emptiness maps the sequence of
    non-empty leaves pointwise. *)
Lemma map_node_nonempty (m : Mapper unit) (f : Node -> Node) :
  m.(m_operator) = None ->
  (forall n, is_param n = true \/ is_pattern n = true -> map_node m n tt = ([f n], tt) /\
     (is_param (f n) = true \/ is_pattern (f n) = true) /\ empty_leaf (f n) = empty_leaf n) ->
  forall ns, nonempty_leaves (fst (MapNodes m ns tt)) = f <$> nonempty_leaves ns.
Proof.
  intros Hm Hf.
  assert (forall ns, Forall (fun n => nonempty_leaves (fst (map_node m n tt)) =
            f <$> nonempty_leaves [n]) ns ->
          nonempty_leaves (fst (MapNodes m ns tt)) = f <$> nonempty_leaves ns) as Hlist.
  { induction 1 as [|n ns Hn _ IH]; [done|]. simpl.
    destruct (map_node m n tt) as [l []]. destruct (MapNodes m ns tt) as [l' []]. simpl in *.
    by rewrite nonempty_leaves_app, (nonempty_leaves_cons n), fmap_app, Hn, IH. }
  assert (forall n, is_param n = true \/ is_pattern n = true ->
    nonempty_leaves (fst (map_node m n tt)) = f <$> nonempty_leaves [n]) as Hleaf.
  { intros n Hn. destruct (Hf n Hn) as (-> & Hk & He). simpl.
    assert (forall x, is_param x = true \/ is_pattern x = true ->
      nonempty_leaves [x] = if empty_leaf x then [] else [x]) as Hs
      by (intros [| |] [|]; try done; unfold nonempty_leaves; simpl; by destruct (gs_eqb _ _)).
    rewrite !Hs, He by done. by destruct (empty_leaf n). }
  intros ns. apply Hlist. apply Forall_true. intros n.
  induction n as [p|p|k ops a IH] using Node_nested_ind; [by apply Hleaf; auto..|].
  rewrite map_node_operator, nonempty_leaves_operator by done. apply Hlist in IH.
  destruct (MapNodes m ops tt) as [l []]. simpl in *. by rewrite NewOperator_nonempty_leaves.
Qed.

Lemma MapPattern_hoist_nonempty ns :
  nonempty_leaves (MapPattern ns hoist_label) = hoist_leaf <$> nonempty_leaves ns.
Proof.
  apply map_node_nonempty; [done|]. intros n Hn.
  destruct n as [[v neg [l r]]|[f v neg an]|]; [auto..|]. by destruct Hn.
Qed.

Section HoistFacts.
Context {U : UnicodeTables}.

Lemma hoist_end_spec node reverse scope pattern :
  hoist_end node reverse = Ok (scope, pattern) ->
  PartitionSearchPattern [node] = Ok (scope, Some pattern).
Proof. unfold hoist_end. repeat case_match; intros; by simplify_eq. Qed.

(** The loop of [Hoist] moves the leaves of the operands to the scope
    parameters and the patterns. *)
Lemma hoist_loop_spec i n operands pattern scope pattern' scope' :
  hoist_loop i n operands pattern scope = Ok (pattern', scope') ->
  exists P S, pattern' = pattern ++ P /\ scope' = scope ++ S /\
    leaves_of operands ≡ₚ toNodes S ++ leaves_of P /\
    (forall Q, (forall m, (2 <= m)%nat -> Q And m) ->
       Forall (all_ops Q) operands -> Forall (all_ops Q) P) /\
    isPatternExpression P = true /\ length P = length operands.
Proof.
  revert i pattern scope. induction operands as [|node ops IH]; intros i pattern scope.
  { intros [= <- <-]. exists [], []. rewrite !app_nil_r. auto 10. }
  simpl. intros H.
  assert (exists p S, leaves node ≡ₚ toNodes S ++ leaves p /\ isPatternExpression [p] = true /\
    (forall Q, (forall m, (2 <= m)%nat -> Q And m) -> all_ops Q node -> all_ops Q p) /\
    hoist_loop (Datatypes.S i) n ops (pattern ++ [p]) (scope ++ S) = Ok (pattern', scope'))
    as (p & S & Hl & Hp & Ho & Hrec).
  { destruct (_ || _).
    - destruct (hoist_end _ _) as [[S p]|] eqn:E; [|done]. apply hoist_end_spec in E.
      apply PartitionSearchPattern_spec in E as Hs. destruct Hs as (_ & Hl & Hp).
      rewrite leaves_of_cons, app_nil_r in Hl. exists p, S. split_and!; auto.
      intros Q HQ Hn. eapply PartitionSearchPattern_all_ops; eauto.
    - destruct (isPatternExpression [node]) eqn:Hp; [|done].
      exists node, []. rewrite app_nil_r. auto. }
  destruct (IH _ _ _ Hrec) as (P & S' & -> & -> & Hl' & Ho' & Hp' & Hlen).
  exists (p :: P), (S ++ S'). split_and!.
  - by rewrite <- app_assoc.
  - by rewrite <- app_assoc.
  - rewrite !leaves_of_cons, Hl, Hl'. unfold toNodes. rewrite map_app.
    rewrite <- !app_assoc. apply Permutation_app_head. rewrite !app_assoc.
    apply Permutation_app_tail, Permutation_app_comm.
  - intros Q HQ [? ?]%Forall_cons. constructor; auto.
  - by rewrite isPatternExpression_cons, Hp, Hp'.
  - simpl. by rewrite Hlen.
Qed.

Lemma hoist_leaf_params S : hoist_leaf <$> toNodes S = toNodes S.
Proof. induction S as [|p S IH]; [done|]. csimpl. by rewrite IH. Qed.

Lemma leaves_of_toNodes S : leaves_of (toNodes S) = toNodes S.
Proof. unfold leaves_of, toNodes. induction S as [|p S IH]; [done|]. simpl. by rewrite IH. Qed.

Lemma filter_fmap_hoist l :
  List.filter (fun n => negb (empty_leaf n)) (hoist_leaf <$> l) =
  hoist_leaf <$> List.filter (fun n => negb (empty_leaf n)) l.
Proof.
  induction l as [|n l IH]; [done|]. csimpl. rewrite empty_leaf_hoist.
  destruct (negb _); csimpl; by rewrite IH.
Qed.

Lemma Hoist_shape nodes out :
  Hoist nodes = Ok out ->
  exists kind operands a P S, nodes = [Operator kind operands a] /\ kind <> Concat /\
    out = toNodes S ++ NewOperator (MapPattern P hoist_label) kind /\
    leaves_of operands ≡ₚ toNodes S ++ leaves_of P /\
    (forall Q, (forall m, (2 <= m)%nat -> Q And m) ->
       Forall (all_ops Q) operands -> Forall (all_ops Q) P) /\
    isPatternExpression P = true.
Proof.
  unfold Hoist. destruct nodes as [|[p|p|kind ops a] [|]]; try done.
  destruct (kind_eqb kind Concat) eqn:Hk; [done|].
  destruct (hoist_loop _ _ _ _ _) as [[P S]|] eqn:E; [|done]. intros [= <-].
  apply hoist_loop_spec in E as (P' & S' & -> & -> & Hl & Ho & Hp & _).
  exists kind, ops, a, P', S'. split_and!; auto.
  intros ->. done.
Qed.

(** [Hoist] keeps every non-empty leaf; patterns get the hoisted label. *)
Lemma Hoist_nonempty_leaves nodes out :
  Hoist nodes = Ok out -> nonempty_leaves out ≡ₚ hoist_leaf <$> nonempty_leaves nodes.
Proof.
  intros (kind & ops & a & P & S & -> & _ & -> & Hl & _)%Hoist_shape.
  rewrite nonempty_leaves_app, NewOperator_nonempty_leaves, nonempty_leaves_operator,
    MapPattern_hoist_nonempty.
  unfold nonempty_leaves. rewrite Hl, leaves_of_toNodes, List.filter_app, fmap_app.
  by rewrite <- (filter_fmap_hoist (toNodes S)), hoist_leaf_params.
Qed.

Lemma Hoist_Forall_leaves (P : Node -> Prop) nodes out :
  (forall n, P n -> P (hoist_leaf n)) ->
  Hoist nodes = Ok out -> Forall P (leaves_of nodes) -> Forall P (leaves_of out).
Proof.
  intros HP (kind & ops & a & Pt & S & -> & _ & -> & Hl & _)%Hoist_shape.
  rewrite leaves_of_cons, leaves_operator, app_nil_r, Hl, Forall_app, leaves_of_app, Forall_app,
    leaves_of_toNodes.
  intros [HS HPt]. split; [done|]. apply NewOperator_Forall_leaves.
  eapply (MapNodes_Forall_leaves _ P P); [done| |done].
  intros l s Hleaf Hl'. destruct l as [p|p|]; simpl; [| |by destruct Hleaf];
    apply Forall_singleton; [by apply HP in Hl'|by destruct p].
Qed.

Lemma Hoist_all_ops (Q : OperatorKind -> nat -> Prop) nodes out :
  (forall k i j, Q k i -> (2 <= j)%nat -> Q k j) -> (forall m, (2 <= m)%nat -> Q And m) ->
  Hoist nodes = Ok out -> Forall (all_ops Q) nodes -> Forall (all_ops Q) out.
Proof.
  intros HQ HA (kind & ops & a & Pt & S & -> & _ & -> & _ & Ho & _)%Hoist_shape.
  intros [Hn _]%Forall_cons. apply all_ops_operator in Hn as [Hk Hops].
  apply Forall_app_2.
  - unfold toNodes. clear. induction S; constructor; done.
  - apply NewOperator_all_ops; [eauto|]. apply MapNodes_all_ops; [done|exact HQ| |auto].
    intros l s Hleaf. destruct l; simpl; [by repeat constructor..|by destruct Hleaf].
Qed.
End HoistFacts.
