(* ===== verification/ParseCorrect.v ===== *)
(** Theorems about [Parse]: it is total, its leaves carry ranges of the input
    and known fields, and its trees are well formed. *)
From S2P Require Import Prelude GoStr GoLib Syntax Operators Scan Mapper Partition Parser ParserFacts PartitionFacts ScanCorrect.

Import Utf8.

Section Parse.
Context {U : UnicodeTables}.

Lemma good_leaf_hoist len n : good_leaf len n -> good_leaf len (hoist_leaf n).
Proof. by destruct n. Qed.

Lemma Hoist_ok len nodes out :
  Hoist nodes = Ok out -> Forall (node_ok len) nodes -> Forall (node_ok len) out.
Proof.
  rewrite !nodes_ok_split. intros H [Hl Ho]. split.
  - eapply Hoist_Forall_leaves; eauto using good_leaf_hoist.
  - eapply Hoist_all_ops; eauto.
Qed.

(** What [Parse] and the fallback parser guarantee. *)
Definition parse_post (in_ : gostring) (r : result gerror (list Node)) : Prop :=
  match r with Ok ns => Forall (node_ok (length in_)) ns | Err _ => True end.

Lemma tryFallbackParser_total t in_ : returns (tryFallbackParser t in_) (parse_post in_).
Proof.
  unfold tryFallbackParser. run_step (parseOr_total in_ allowDanglingParens t (or_intror eq_refl)).
  intros [r q] Hr. destruct r as [ns|e]; [|by apply returns_done].
  destruct (Hoist ns) as [hs|] eqn:Hh; apply returns_done; apply NewOperator_ok; [|done].
  by eapply Hoist_ok.
Qed.

Lemma or_fallback_total t in_ err : returns (or_fallback t in_ err) (parse_post in_).
Proof.
  unfold or_fallback. run_step (tryFallbackParser_total t in_).
  intros [ns|e] Hr; by apply returns_done.
Qed.

Lemma Parse_returns in_ t : returns (Parse in_ t) (parse_post in_).
Proof.
  unfold Parse. destruct (TrimSpace_empty in_); [apply returns_done; constructor|].
  run_step (parseOr_total in_ parensAsPatterns t (or_introl eq_refl)).
  intros [r q] Hr. destruct r as [ns|e].
  - destruct (negb (balanced q =? 0)%Z); [apply or_fallback_total|].
    destruct (if _ || _ then validatePureLiteralPattern _ _ else None); [by apply returns_done|].
    apply returns_done, NewOperator_ok. destruct (negb _); [|done].
    destruct (Hoist ns) as [hs|] eqn:Hh; [by eapply Hoist_ok|done].
  - destruct e; try (by apply returns_done). apply or_fallback_total.
Qed.

Lemma Parse_node_ok in_ t nodes :
  Parse in_ t = Done (Ok nodes) -> Forall (node_ok (length in_)) nodes.
Proof. intros H. destruct (Parse_returns in_ t) as (r & Hr & Hp). rewrite H in Hr. by simplify_eq. Qed.

(** C2: [Parse] is total: on every byte string and for every search type it
    returns a tree or an error value; it never panics (no slice or index out of
    range, no [next] at the end of the input, no delimiter mismatch) and its
    recursion ends within fuel linear in the input. *)
Theorem Parse_total (in_ : gostring) (t : SearchType) : exists r, Parse in_ t = Done r.
Proof. destruct (Parse_returns in_ t) as (r & Hr & _). eauto. Qed.

Definition leaf_range (n : Node) : option Range :=
  match n with
  | PatternNode p => Some (a_Range (pat_Annotation p))
  | ParamNode p => Some (a_Range (par_Annotation p))
  | Operator _ _ _ => None
  end.

(** C7: every leaf of a tree returned by [Parse] is annotated with a range of
    the input: on line 0, [0 <= start <= end <= len(in)]. *)
Theorem Parse_ranges (in_ : gostring) (t : SearchType) (nodes : list Node) :
  Parse in_ t = Done (Ok nodes) ->
  Forall (fun n => exists r, leaf_range n = Some r /\ range_ok (length in_) r) (leaves_of nodes).
Proof.
  intros [Hl _]%Parse_node_ok%nodes_ok_split. eapply Forall_impl; [exact Hl|].
  intros [p|p|] Hg; [eexists; eauto| |done].
  destruct Hg as [Hr _]. by eexists.
Qed.

(** C6: trees returned by [Parse] are well formed: every operator has at least
    two operands, and every parameter has a field that is recognised after
    lowercasing.  The empty parameter that the parser has for an empty group
    occurs in no tree, since [Parse] always reads empty groups as patterns. *)
Theorem Parse_well_formed (in_ : gostring) (t : SearchType) (nodes : list Node) :
  Parse in_ t = Done (Ok nodes) ->
  Forall (all_ops (fun _ m => (2 <= m)%nat)) nodes /\
  Forall (fun p => known_field (ToLower (par_Field p)) = true) (params_of nodes).
Proof.
  intros [Hl Ho]%Parse_node_ok%nodes_ok_split. split; [done|].
  unfold params_of. clear Ho. induction Hl as [|n l Hn _ IH]; [constructor|].
  destruct n as [p|p|]; simpl; [done| |done]. constructor; [|done].
  apply Hn.
Qed.
End Parse.

(** ** Witnesses *)
Section Witness.
#[local] Instance tables : UnicodeTables := plain_tables.

Definition sample : gostring := str "repo:foo (a or b) not file:c".
Definition sample_tree : list Node :=
  Eval vm_compute in match Parse sample SearchTypeRegex with Done (Ok ns) => ns | _ => [] end.

Lemma Parse_ranges_witness :
  Forall (fun n => exists r, leaf_range n = Some r /\ range_ok (length sample) r)
    (leaves_of sample_tree).
Proof. apply (Parse_ranges sample SearchTypeRegex). vm_compute. reflexivity. Defined.

Lemma Parse_well_formed_witness :
  Forall (all_ops (fun _ m => (2 <= m)%nat)) sample_tree /\
  Forall (fun p => known_field (ToLower (par_Field p)) = true) (params_of sample_tree).
Proof. apply (Parse_well_formed sample SearchTypeRegex). vm_compute. reflexivity. Defined.

(** In the fallback parser, which the comment on [allowDanglingParens] says
    parses all parentheses as literal patterns, a closing parenthesis at the
    start of a term is consumed and lost. *)
Theorem fallback_loses_closing_paren :
  exists nodes, Parse (str "( a ) (") SearchTypeLiteral = Done (Ok nodes) /\
    map pat_Value (patterns_of nodes) = [str "("; str "a"; str "("].
Proof. eexists. split; vm_compute; reflexivity. Qed.
End Witness.

(** The theorems about trees: operator construction, traversal, partition and
    hoisting. *)

(** [NewOperator] terminates: with the size of its input as fuel it
    satisfies the recursion equation of the source, that is, it reduces its
    operands until [reduce] changes nothing. *)
Theorem NewOperator_equation (nodes : list Node) (kind : OperatorKind) :
  NewOperator nodes kind =
  match nodes with
  | [] => []
  | [n] => [n]
  | n :: r :: rs =>
      let '(reduced, changed) := reduce n r rs kind in
      if changed then NewOperator reduced kind
      else [Operator kind reduced zeroAnnotation]
  end.
Proof. apply NewOperator_unfold. Qed.

(** C10: [NewOperator] builds one node that means the operator applied to the
    given operands, keeps their non-empty leaves in order and gives every
    operator it builds at least two operands, when no leaf of the operands is
    the empty string. *)
Theorem NewOperator_meaning (v : Node -> bool) (nodes : list Node) (kind : OperatorKind) :
  nodes <> [] -> no_empty nodes ->
  exists n, NewOperator nodes kind = [n] /\ eval v n = eval_list v kind nodes /\
    nonempty_leaves [n] = nonempty_leaves nodes /\
    (Forall (all_ops (fun _ m => (2 <= m)%nat)) nodes -> all_ops (fun _ m => (2 <= m)%nat) n).
Proof.
  intros Hne He. destruct (NewOperator_eval v nodes kind Hne He) as (n & Hn & Hv).
  exists n. rewrite <- Hn. split_and!; [done|done|apply NewOperator_nonempty_leaves|].
  intros Ha. apply (NewOperator_all_ops _ nodes kind) in Ha; [|done]. rewrite Hn in Ha.
  by inversion Ha.
Qed.

(** a partition that [PartitionSearchPattern] finds is a conjunction that
    means the same as the query, it distributes all leaves of the query over
    the parameters and the pattern, and the pattern holds no parameter. *)
Theorem PartitionSearchPattern_correct (nodes : list Node) (parameters : list Param)
    (pattern : option Node) :
  PartitionSearchPattern nodes = Ok (parameters, pattern) ->
  (forall v, eval_list v And nodes = eval_params v parameters && eval_opt v pattern) /\
  leaves_of nodes ≡ₚ toNodes parameters ++ leaves_opt pattern /\
  (forall p, pattern = Some p -> isPatternExpression [p] = true).
Proof. apply PartitionSearchPattern_spec. Qed.

(** When the hoisting heuristic applies, it only regroups: every non-empty
    leaf is kept exactly once (patterns get the hoisted label), and operators
    still have at least two operands. *)
Theorem Hoist_correct {U : UnicodeTables} (nodes out : list Node) :
  Hoist nodes = Ok out ->
  nonempty_leaves out ≡ₚ hoist_leaf <$> nonempty_leaves nodes /\
  (Forall (all_ops (fun _ m => (2 <= m)%nat)) nodes ->
   Forall (all_ops (fun _ m => (2 <= m)%nat)) out).
Proof.
  intros H. split; [by apply Hoist_nonempty_leaves|]. eapply Hoist_all_ops; eauto.
Qed.

(** [Exists] tests every node of the tree, operators and leaves, and
    [containsPattern] and [isPatternExpression] are the tests on the leaves
    that their names say. *)
Theorem Exists_correct (nodes : list Node) (fn : Node -> bool) :
  Exists nodes fn = existsb fn (preorder_of nodes) /\
  isPatternExpression nodes = forallb (fun n => negb (is_param n)) (leaves_of nodes) /\
  (forall n, containsPattern n = existsb is_pattern (leaves n)).
Proof.
  split_and!; [apply Exists_preorder|apply isPatternExpression_leaves|apply containsPattern_leaves].
Qed.

(** ** Witnesses and counterexamples *)
Section TreeWitness.
#[local] Instance tree_tables : UnicodeTables := plain_tables.

Definition at_col (v : string) (c : nat) : Node :=
  PatternNode (MkPattern (str v) false (MkAnnotation Labels.Literal (newRange c (c + 1)))).
Definition par_col (f v : string) (c : nat) : Node :=
  ParamNode (MkParam (str f) (str v) false (MkAnnotation Labels.None_ (newRange c (c + 1)))).

Lemma NewOperator_meaning_witness :
  exists n, NewOperator [at_col "a" 0; Operator And [at_col "b" 2; at_col "c" 4] zeroAnnotation] And = [n] /\
    eval is_pattern n = true /\
    nonempty_leaves [n] = [at_col "a" 0; at_col "b" 2; at_col "c" 4] /\
    (Forall (all_ops (fun _ m => (2 <= m)%nat))
       [at_col "a" 0; Operator And [at_col "b" 2; at_col "c" 4] zeroAnnotation] ->
     all_ops (fun _ m => (2 <= m)%nat) n).
Proof.
  apply (NewOperator_meaning is_pattern
    [at_col "a" 0; Operator And [at_col "b" 2; at_col "c" 4] zeroAnnotation] And);
    [discriminate|repeat constructor].
Defined.

(** [repo:foo a or b]. *)
Definition w_tree : Node :=
  Operator Or [Operator And [par_col "repo" "foo" 0; at_col "a" 9] zeroAnnotation; at_col "b" 14]
    zeroAnnotation.

Lemma PartitionSearchPattern_correct_witness :
  leaves_of [par_col "repo" "foo" 0; at_col "a" 9] ≡ₚ
  toNodes [MkParam FieldRepo (str "foo") false (MkAnnotation 0 (newRange 0 1))] ++
  leaves_opt (Some (at_col "a" 9)).
Proof.
  apply (PartitionSearchPattern_correct [par_col "repo" "foo" 0; at_col "a" 9]).
  vm_compute. reflexivity.
Defined.

Definition w_hoisted : list Node :=
  Eval vm_compute in match Hoist [w_tree] with Ok ns => ns | Err _ => [] end.

Lemma Hoist_correct_witness :
  nonempty_leaves w_hoisted ≡ₚ hoist_leaf <$> nonempty_leaves [w_tree].
Proof. apply (Hoist_correct [w_tree]). vm_compute. reflexivity. Defined.

(** [ForAll] stops at the first operator: it accepts a list whose last leaf does
    not satisfy the test, although its comment says that it returns whether all
    nodes satisfy it. *)
Theorem ForAll_stops_at_operator :
  let test n := negb (is_param n) in
  ForAll [Operator And [at_col "a" 0; at_col "b" 2] zeroAnnotation; par_col "repo" "foo" 4] test = true /\
  forallb test (preorder_of
    [Operator And [at_col "a" 0; at_col "b" 2] zeroAnnotation; par_col "repo" "foo" 4]) = false.
Proof. split; reflexivity. Qed.
End TreeWitness.
