(* ===== verification/Transform.v ===== *)
(** The query transformers of [internal/search/query/transformer.go]. *)
From S2P Require Import Prelude GoStr GoLib Syntax Operators Mapper Partition.

(** The regular-expression package ([github.com/grafana/regexp] and its
    [syntax] package), a third-party dependency.  [Compile] returns the
    compiled expression or the message of its error, [SyntaxParse] the message
    of the error of [syntax.Parse(s, syntax.Perl)], if any. *)
Class Regexp := {
  compiled : Type;
  Compile : gostring -> result gostring compiled;
  SyntaxParse : gostring -> option gostring;
  QuoteMeta : gostring -> gostring
}.

Definition set_labels (a : Annotation) (l : Z) : Annotation := MkAnnotation l (a_Range a).
Definition add_label (a : Annotation) (label : Z) : Annotation :=
  set_labels a (Labels.Set_ (a_Labels a) label).

(** ** Normalisation of fields *)

Definition alias_callback (searchType : SearchType) (field value : gostring) (negated : bool)
    (annotation : Annotation) : option Node :=
  if gs_eqb field (str "content") then
    let annotation :=
      if bool_decide (searchType = SearchTypeRegex) then add_label annotation Labels.Regexp
      else add_label annotation Labels.Literal in
    let annotation := add_label annotation Labels.IsAlias in
    Some (PatternNode (MkPattern value negated annotation))
  else
    match assoc field aliases with
    | Some canonical =>
        Some (ParamNode (MkParam canonical value negated (add_label annotation Labels.IsAlias)))
    | None => Some (ParamNode (MkParam field value negated annotation))
    end.

Definition SubstituteAliases (searchType : SearchType) (nodes : list Node) : list Node :=
  MapParameter nodes (alias_callback searchType).

Definition CountAllLimit : Z := 99999999.
Definition countAllLimitStr : gostring := FormatInt CountAllLimit.

Section Normalise.
Context {U : UnicodeTables}.

Definition LowercaseFieldNames (nodes : list Node) : list Node :=
  MapParameter nodes (fun field value negated annotation =>
    Some (ParamNode (MkParam (ToLower field) value negated annotation))).

Definition SubstituteCountAll (nodes : list Node) : list Node :=
  MapParameter nodes (fun field value negated annotation =>
    if gs_eqb field FieldCount && gs_eqb (ToLower value) (str "all") then
      Some (ParamNode (MkParam field countAllLimitStr negated annotation))
    else Some (ParamNode (MkParam field value negated annotation))).
End Normalise.

(** The type assertion [n.(Parameter)] panics on other nodes. *)
Fixpoint toParameters (nodes : list Node) : run (list Param) :=
  match nodes with
  | [] => Done []
  | ParamNode p :: nodes => let! ps := toParameters nodes in Done (p :: ps)
  | _ :: _ => Panics "interface conversion: query.Node is not query.Parameter"
  end.

(** ** Plans *)

Fixpoint partition (nodes : list Node) (fn : Node -> bool) : list Node * list Node :=
  match nodes with
  | [] => ([], [])
  | node :: nodes =>
      let '(l, r) := partition nodes fn in
      if fn node then (node :: l, r) else (l, node :: r)
  end.

(** [NewOperator] of two nodes is not empty ([NewOperator_nonnil]), so its
    element [0] exists. *)
Definition conjunction (left_ right_ : Basic) : Basic :=
  MkBasic (b_Parameters left_ ++ b_Parameters right_)
    match b_Pattern left_, b_Pattern right_ with
    | None, p => p
    | p, None => p
    | Some p, Some q => head (NewOperator [p; q] And)
    end.

Definition product (basics : list Basic) (toMerge : Basic) : list Basic :=
  match basics with
  | [] => [toMerge]
  | _ => map (fun basic => conjunction basic toMerge) basics
  end.

(** One iteration of the loop of [distribute]. *)
Fixpoint distribute_node (node : Node) (prefixes : list Basic) : list Basic :=
  match node with
  | Operator kind operands _ =>
      if isPatternExpression operands then product prefixes (MkBasic [] (Some node))
      else match kind with
      | Or =>
          (fix go (os : list Node) : list Basic :=
             match os with
             | [] => []
             | o :: os =>
                 concat (map (fun newBasic => product prefixes newBasic) (distribute_node o []))
                 ++ go os
             end) operands
      | And | Concat =>
          List.fold_left (fun prefixes n => distribute_node n prefixes) operands prefixes
      end
  | ParamNode v => product prefixes (MkBasic [v] None)
  | PatternNode _ => product prefixes (MkBasic [] (Some node))
  end.

Definition distribute (prefixes : list Basic) (nodes : list Node) : list Basic :=
  List.fold_left (fun prefixes n => distribute_node n prefixes) nodes prefixes.

Definition BuildPlan (query : list Node) : list Basic := distribute [] query.

(** ** Concatenation of patterns *)

Definition isPattern (node : Node) : bool :=
  match node with PatternNode p => negb (pat_Negated p) | _ => false end.

Definition values_of (nodes : list Node) : list gostring :=
  map pat_Value (omap to_pattern nodes).

Definition or_regexp (patterns : list Node) : Node :=
  PatternNode (MkPattern (str "(?:" ++ Join (values_of patterns) (str ")|(?:") ++ str ")")
                         false zeroAnnotation).

(** Recursion is on fuel because the rest of an or-expression is a filtered
    list; the size of the input is enough. *)
Fixpoint substituteOr_aux (fuel : nat) (nodes newNode : list Node) : list Node :=
  match fuel, nodes with
  | S fuel, Operator kind operands _ :: nodes =>
      let newNode :=
        if kind_eqb kind Or then
          let '(patterns, rest) := partition operands isPattern in
          let newNode := newNode ++ [or_regexp patterns] in
          match rest with
          | [] => newNode
          | _ => NewOperator (newNode ++ substituteOr_aux fuel rest []) Or
          end
        else newNode ++ NewOperator (substituteOr_aux fuel operands []) kind in
      substituteOr_aux fuel nodes newNode
  | S fuel, node :: nodes => substituteOr_aux fuel nodes (newNode ++ [node])
  | _, _ => newNode
  end.

Definition substituteOrForRegexp (nodes : list Node) : list Node :=
  substituteOr_aux (nodes_size nodes) nodes [].

Definition space (patterns : list Pattern) : run (list Node) :=
  match patterns with
  | [] => Panics "index out of range [0] with length 0"
  | [p] => Done [PatternNode p]
  | p :: _ =>
      Done [PatternNode (MkPattern (Join (map pat_Value patterns) (str " ")) false
                                   (pat_Annotation p))]
  end.

(** [space(literals)[0].(Pattern)] when literals have been accumulated. *)
Definition push_literals (literals : list Pattern) : run (list Node) :=
  match literals with
  | [] => Done []
  | _ => space literals
  end.

Fixpoint standard_loop (patterns literals : list Pattern) : run (list Node) :=
  match patterns with
  | [] => push_literals literals
  | p :: patterns =>
      if Labels.IsSet (a_Labels (pat_Annotation p)) Labels.Regexp then
        let! pushed := push_literals literals in
        let! rest := standard_loop patterns [] in
        Done (pushed ++ PatternNode p :: rest)
      else standard_loop patterns (literals ++ [p])
  end.

Definition standard (patterns : list Pattern) : run (list Node) :=
  match patterns with
  | [p] => Done [PatternNode p]
  | _ => standard_loop patterns []
  end.

Definition fuzzyRegexp {R : Regexp} (patterns : list Pattern) : run (list Node) :=
  match patterns with
  | [p] => Done [PatternNode p]
  | _ =>
      let values :=
        map (fun p => if Labels.IsSet (a_Labels (pat_Annotation p)) Labels.Literal
                      then QuoteMeta (pat_Value p) else pat_Value p) patterns in
      Done [PatternNode (MkPattern (str "(?:" ++ Join values (str ").*?(?:") ++ str ")") false
                                   (MkAnnotation Labels.Regexp zeroRange))]
  end.

Section SubstituteConcat.
Context (callback : list Pattern -> run (list Node)).

(** [if len(ps) > 0 { newNode = append(newNode, callback(ps)...) }] *)
Definition flush (ps : list Pattern) : run (list Node) :=
  match ps with
  | [] => Done []
  | _ => callback ps
  end.

Fixpoint substitute_node (node : Node) : run (list Node) :=
  match node with
  | Operator kind operands _ =>
      if kind_eqb kind Concat then
        match operands with
        | [] => Panics "index out of range [0] with length 0"
        | first :: rest =>
            (fix go (nodes : list Node) (ps : list Pattern) (previous : Node) : run (list Node) :=
               match nodes with
               | [] => flush ps
               | node :: nodes =>
                   match node with
                   | PatternNode p =>
                       if isPattern node && isPattern previous then go nodes (ps ++ [p]) node
                       else
                         let! flushed := flush ps in
                         let! mapped := substitute_node node in
                         let! rest := go nodes [] previous in
                         Done (flushed ++ mapped ++ rest)
                   | _ =>
                       let! flushed := flush ps in
                       let! mapped := substitute_node node in
                       let! rest := go nodes [] previous in
                       Done (flushed ++ mapped ++ rest)
                   end
               end) rest (option_list (to_pattern first)) first
        end
      else
        let! ns :=
          (fix go (nodes : list Node) : run (list Node) :=
             match nodes with
             | [] => Done []
             | n :: nodes =>
                 let! mapped := substitute_node n in
                 let! rest := go nodes in Done (mapped ++ rest)
             end) operands in
        Done (NewOperator ns kind)
  | _ => Done [node]
  end.

Fixpoint substituteConcat (nodes : list Node) : run (list Node) :=
  match nodes with
  | [] => Done []
  | n :: nodes =>
      let! mapped := substitute_node n in
      let! rest := substituteConcat nodes in Done (mapped ++ rest)
  end.
End SubstituteConcat.

(** ** Rewriting of pattern values *)

(** The loop that looks for a special character declares its own [i], so the
    early return applies to the empty string only. *)
Fixpoint escapeParens (s : gostring) : gostring :=
  match s with
  | [] => []
  | c :: t =>
      if (c =? 92)%Z then
        match t with
        | d :: t' => 92%Z :: d :: escapeParens t'
        | [] => [92%Z]
        end
      else if (c =? 40)%Z then
        match t with
        | [] => [92%Z; 40%Z]
        | d :: t' => if (d =? 41)%Z then [92; 40; 92; 41]%Z ++ escapeParens t'
                     else c :: escapeParens t
        end
      else c :: escapeParens t
  end.

Definition escapeParensHeuristic (nodes : list Node) : list Node :=
  MapPattern nodes (fun value negated annotation =>
    let value := if negb (Labels.IsSet (a_Labels annotation) Labels.Quoted)
                 then escapeParens value else value in
    Some (PatternNode (MkPattern value negated annotation))).

Definition labelStructural (nodes : list Node) : list Node :=
  MapPattern nodes (fun value negated annotation =>
    let l := Labels.Set_ (Labels.Unset (a_Labels annotation) Labels.Literal) Labels.Structural in
    Some (PatternNode (MkPattern value negated (set_labels annotation l)))).

Definition ellipsesForHoles (nodes : list Node) : list Node :=
  MapPattern nodes (fun value negated annotation =>
    Some (PatternNode (MkPattern (ReplaceAll value (str "...") (str ":[_]")) negated annotation))).

Definition Map (query : list Node) (fns : list (list Node -> list Node)) : list Node :=
  List.fold_left (fun query fn => fn query) fns query.

(** ** Revisions *)

Definition rev_callback (value : gostring) (_ : bool) (_ : Annotation) (_ : gostring)
    : option Node * gostring := (None, value).

Definition repo_callback (revision value : gostring) (negated : bool) (ann : Annotation)
    : option Node :=
  if negb negated && negb (Labels.IsSet (a_Labels ann) Labels.IsPredicate)
  then Some (ParamNode (MkParam FieldRepo (value ++ str "@" ++ revision) negated ann))
  else Some (ParamNode (MkParam FieldRepo value negated ann)).

Definition ConcatRevFilters (b : Basic) : run Basic :=
  let '(nodes, revision) := MapFieldS (toNodes (b_Parameters b)) FieldRev rev_callback [] in
  if gs_eqb revision [] then Done b
  else
    let modified := MapField nodes FieldRepo (repo_callback revision) in
    let! parameters := toParameters modified in
    Done (MkBasic parameters (b_Pattern b)).
