(* ===== verification/PlanFacts.v ===== *)
(** Plans: [BuildPlan] computes a disjunction of basic queries that means the
    same as the tree it starts from. *)
From S2P Require Import Prelude GoStr GoLib Syntax Operators Mapper Partition PartitionFacts Transform.

(** The meaning of basic queries and plans. *)
Definition eval_basic (v : Node -> bool) (b : Basic) : bool :=
  eval_params v (b_Parameters b) && eval_opt v (b_Pattern b).
Definition eval_plan (v : Node -> bool) (plan : list Basic) : bool :=
  existsb (eval_basic v) plan.

(** [distribute] starts from the empty list of prefixes, which stands for the
    conjunction of nothing. *)
Definition eval_prefixes (v : Node -> bool) (prefixes : list Basic) : bool :=
  match prefixes with [] => true | _ => eval_plan v prefixes end.

(** A basic query with leaves in [P] whose pattern holds no parameter. *)
Definition pure_basic (P : Node -> Prop) (b : Basic) : Prop :=
  Forall P (toNodes (b_Parameters b)) /\
  forall p, b_Pattern b = Some p -> isPatternExpression [p] = true /\ Forall P (leaves p).

Lemma isPatternExpression_Forall ns :
  isPatternExpression ns = true <-> Forall (fun n => is_param n = false) (leaves_of ns).
Proof.
  rewrite isPatternExpression_leaves, forallb_forall, Forall_forall.
  setoid_rewrite negb_true_iff. setoid_rewrite list_elem_of_In. done.
Qed.

Section Leaves.
Context (P : Node -> Prop).

Lemma conjunction_pure l r : pure_basic P l -> pure_basic P r -> pure_basic P (conjunction l r).
Proof.
  intros [Hl Hlp] [Hr Hrp]. split; simpl.
  { unfold toNodes in *. rewrite map_app. by apply Forall_app_2. }
  destruct (b_Pattern l) as [p|], (b_Pattern r) as [q|]; auto.
  destruct (Hlp p eq_refl) as [Hp HPp], (Hrp q eq_refl) as [Hq HPq].
  destruct (NewOperator_shape [p; q] And) as (ms & n & _ & HN & _); [done|].
  intros n' Hn. rewrite HN in Hn. simplify_eq/=. split.
  - rewrite <- HN. apply isPatternExpression_Forall, NewOperator_Forall_leaves,
      isPatternExpression_Forall. by rewrite isPatternExpression_cons, Hp, Hq.
  - rewrite <- leaves_of_singleton, <- HN. apply NewOperator_Forall_leaves.
    rewrite leaves_of_cons, leaves_of_singleton. by apply Forall_app_2.
Qed.

End Leaves.

Lemma product_nonnil bs b : product bs b <> [].
Proof. by destruct bs. Qed.

Lemma leaf_basic_pure P node :
  isPatternExpression [node] = true -> Forall P (leaves node) ->
  pure_basic P (MkBasic [] (Some node)).
Proof. intros Hp HP. split; [constructor|]. by intros p [= <-]. Qed.

Definition or_loop (prefixes : list Basic) (os : list Node) : list Basic :=
  concat (map (fun o => concat (map (product prefixes) (distribute_node o []))) os).

Lemma distribute_node_operator kind operands a prefixes :
  distribute_node (Operator kind operands a) prefixes =
  if isPatternExpression operands then product prefixes (MkBasic [] (Some (Operator kind operands a)))
  else match kind with
       | Or => or_loop prefixes operands
       | _ => distribute prefixes operands
       end.
Proof.
  simpl. destruct (isPatternExpression operands); [done|]. destruct kind; try done.
  unfold or_loop. induction operands as [|o os IH]; [done|]. simpl. by rewrite IH.
Qed.

Lemma or_loop_cons prefixes o os :
  or_loop prefixes (o :: os) =
  concat (map (product prefixes) (distribute_node o [])) ++ or_loop prefixes os.
Proof. done. Qed.

Lemma products_nonnil prefixes bs : bs <> [] -> concat (map (product prefixes) bs) <> [].
Proof.
  destruct bs as [|b bs]; [done|]. intros _ H. simpl in H. apply app_nil in H as [H _].
  by apply product_nonnil in H.
Qed.

Lemma not_pure_nonnil ns : isPatternExpression ns = false -> ns <> [].
Proof. by intros H ->. Qed.

(** Induction over [distribute]: an invariant [J] of basic queries that holds of
    single parameters and pure patterns in [N] and that [conjunction] keeps,
    holds of every basic query of the plan; and every node contributes at
    least one. *)
Section Distribute.
Context (J : Basic -> Prop) (N : Node -> Prop).
Hypothesis J_conjunction : forall l r, J l -> J r -> J (conjunction l r).
Hypothesis N_operands : forall k ns a, N (Operator k ns a) -> Forall N ns.
Hypothesis J_param : forall p, N (ParamNode p) -> J (MkBasic [p] None).
Hypothesis J_pattern : forall n, N n -> isPatternExpression [n] = true -> J (MkBasic [] (Some n)).

Lemma product_ok bs b : Forall J bs -> J b -> Forall J (product bs b).
Proof.
  intros Hbs Hb. destruct bs as [|b0 bs]; [by constructor|].
  apply Forall_map. eapply Forall_impl; [exact Hbs|]. simpl. auto.
Qed.

Lemma products_ok prefixes bs :
  Forall J prefixes -> Forall J bs -> Forall J (concat (map (product prefixes) bs)).
Proof.
  intros Hp. induction 1 as [|b bs Hb _ IH]; simpl; [constructor|].
  apply Forall_app_2; [by apply product_ok|done].
Qed.

Definition contributes (node : Node) : Prop :=
  forall prefixes, Forall J prefixes ->
    distribute_node node prefixes <> [] /\ Forall J (distribute_node node prefixes).

Lemma distribute_contributes ns :
  Forall contributes ns -> forall prefixes, Forall J prefixes ->
  (ns <> [] -> distribute prefixes ns <> []) /\ Forall J (distribute prefixes ns).
Proof.
  induction 1 as [|n ns Hn Hns IH]; intros prefixes Hp; [done|].
  destruct (Hn prefixes Hp) as [Hne HF]. destruct (IH _ HF) as [Hne' HF'].
  split; [|exact HF']. intros _. destruct ns; [exact Hne|by apply Hne'].
Qed.

Lemma distribute_node_contributes n : N n -> contributes n.
Proof.
  induction n as [p|p|k ns a IH] using Node_nested_ind; intros HN prefixes Hpre.
  1,2: split; [apply product_nonnil|]; apply product_ok; by auto.
  rewrite distribute_node_operator. destruct (isPatternExpression ns) eqn:Hns.
  { split; [apply product_nonnil|]. apply product_ok; [done|]. apply J_pattern; [done|].
    by rewrite isPatternExpression_operator. }
  apply N_operands in HN.
  assert (Forall contributes ns) as Hc.
  { clear Hns. induction IH; inversion HN; constructor; auto. }
  apply not_pure_nonnil in Hns.
  destruct k; try (destruct (distribute_contributes ns Hc prefixes Hpre); by auto).
  clear IH HN. split.
  + destruct Hc as [|n ns Hn _]; [done|]. rewrite or_loop_cons. intros [H _]%app_nil.
    apply products_nonnil in H; [done|]. by apply Hn.
  + clear Hns. induction Hc as [|n ns Hn _ IHns]; [constructor|]. rewrite or_loop_cons.
    apply Forall_app_2; [|done]. apply products_ok; [done|]. by apply Hn.
Qed.

Lemma distribute_ok ns prefixes :
  Forall N ns -> Forall J prefixes ->
  (ns <> [] -> distribute prefixes ns <> []) /\ Forall J (distribute prefixes ns).
Proof.
  intros HN. apply distribute_contributes. eapply Forall_impl; [exact HN|].
  apply distribute_node_contributes.
Qed.
End Distribute.

(** The leaves of a list of nodes, node by node. *)
Definition leaves_in (P : Node -> Prop) (n : Node) : Prop := Forall P (leaves n).

Lemma leaves_in_list P ns : Forall (leaves_in P) ns <-> Forall P (leaves_of ns).
Proof.
  unfold leaves_of. induction ns as [|n ns IH]; [split; constructor|].
  simpl. by rewrite Forall_cons, Forall_app, IH.
Qed.

Lemma pure_node_contributes P n : leaves_in P n -> contributes (pure_basic P) n.
Proof.
  apply distribute_node_contributes.
  - apply conjunction_pure.
  - intros k ns a H. by apply leaves_in_list.
  - intros p Hp. by split.
  - intros m Hm Hp. by apply leaf_basic_pure.
Qed.

Lemma distribute_pure P ns prefixes :
  Forall P (leaves_of ns) -> Forall (pure_basic P) prefixes ->
  (ns <> [] -> distribute prefixes ns <> []) /\ Forall (pure_basic P) (distribute prefixes ns).
Proof.
  intros H%leaves_in_list. apply distribute_contributes.
  eapply Forall_impl; [exact H|]. apply pure_node_contributes.
Qed.

Lemma BuildPlan_pure P query :
  Forall P (leaves_of query) -> Forall (pure_basic P) (BuildPlan query).
Proof. intros H. by apply (distribute_pure P query [] H). Qed.

Lemma BuildPlan_nonnil query : query <> [] -> BuildPlan query <> [].
Proof.
  apply (distribute_pure (fun _ => True) query []); [by apply Forall_true|constructor].
Qed.

(** The operators of the patterns of a plan are those of the query, and [And]. *)
Definition pattern_ops (Q : OperatorKind -> nat -> Prop) (b : Basic) : Prop :=
  forall p, b_Pattern b = Some p -> all_ops Q p.

Lemma conjunction_ops Q l r :
  (forall m, (2 <= m)%nat -> Q And m) ->
  pattern_ops Q l -> pattern_ops Q r -> pattern_ops Q (conjunction l r).
Proof.
  intros HQ Hl Hr n. unfold conjunction. simpl.
  destruct (b_Pattern l) as [p|] eqn:El, (b_Pattern r) as [q|] eqn:Er; try (intros [= <-]; auto).
  intros Hn. assert (Forall (all_ops Q) (NewOperator [p; q] And)) as HN.
  { apply NewOperator_all_ops; [done|]. repeat constructor; auto. }
  destruct (NewOperator [p; q] And); [done|]. simplify_eq/=. by inversion HN.
Qed.

Lemma BuildPlan_ops Q query :
  (forall m, (2 <= m)%nat -> Q And m) ->
  Forall (all_ops Q) query -> Forall (pattern_ops Q) (BuildPlan query).
Proof.
  intros HQ Hq. apply (distribute_ok (pattern_ops Q) (all_ops Q)) with (prefixes := []); try done.
  - intros l r. by apply conjunction_ops.
  - intros k ns a [_ H]%all_ops_operator. done.
  - intros n Hn _ p [= <-]. done.
Qed.

(** ** Meaning *)

(** The patterns of the tree are not empty strings; [NewOperator] drops empty
    operands. *)
Definition live_leaf (n : Node) : Prop := is_pattern n = true -> empty_leaf n = false.

Lemma pure_live_no_empty p :
  isPatternExpression [p] = true -> Forall live_leaf (leaves p) -> no_empty [p].
Proof.
  rewrite isPatternExpression_Forall. unfold no_empty. rewrite leaves_of_singleton.
  rewrite !Forall_forall. intros Hp Hl n Hn. specialize (Hp n Hn). specialize (Hl n Hn).
  destruct n; [by apply Hl|done..].
Qed.

Section Meaning.
Context (v : Node -> bool).

Lemma eval_params_app ps qs : eval_params v (ps ++ qs) = eval_params v ps && eval_params v qs.
Proof. apply forallb_app. Qed.

Lemma conjunction_eval l r :
  pure_basic live_leaf l -> pure_basic live_leaf r ->
  eval_basic v (conjunction l r) = eval_basic v l && eval_basic v r.
Proof.
  intros [_ Hl] [_ Hr]. unfold eval_basic. simpl. rewrite eval_params_app.
  enough (eval_opt v (b_Pattern (conjunction l r)) =
          eval_opt v (b_Pattern l) && eval_opt v (b_Pattern r)) as He.
  { simpl in He. rewrite He. destruct (eval_params v (b_Parameters l)); simpl; [|done].
    destruct (eval_params v _), (eval_opt v (b_Pattern l)); done. }
  simpl. destruct (b_Pattern l) as [p|], (b_Pattern r) as [q|]; simpl; rewrite ?andb_true_r; try done.
  destruct (NewOperator_eval v [p; q] And) as (n & HN & Hn); [done| |].
  - rewrite no_empty_cons. destruct (Hl p eq_refl), (Hr q eq_refl).
    auto using pure_live_no_empty.
  - rewrite HN. simpl. rewrite Hn. unfold eval_list, id. simpl. by rewrite andb_true_r.
Qed.

Lemma product_eval bs b :
  Forall (pure_basic live_leaf) bs -> pure_basic live_leaf b ->
  eval_plan v (product bs b) = eval_prefixes v bs && eval_basic v b.
Proof.
  intros Hbs Hb. destruct bs as [|b0 bs]; simpl; [by rewrite orb_false_r|].
  unfold eval_plan. change (conjunction b0 b :: map _ bs) with
    (map (fun basic => conjunction basic b) (b0 :: bs)).
  change (existsb (eval_basic v) (map (fun basic => conjunction basic b) (b0 :: bs)) =
          existsb (eval_basic v) (b0 :: bs) && eval_basic v b).
  induction Hbs as [|b1 bs' H1 _ IH]; [done|]. simpl.
  by rewrite conjunction_eval, IH, andb_orb_distrib_l.
Qed.

Lemma products_eval prefixes bs :
  Forall (pure_basic live_leaf) prefixes -> Forall (pure_basic live_leaf) bs ->
  eval_plan v (concat (map (product prefixes) bs)) = eval_prefixes v prefixes && eval_plan v bs.
Proof.
  intros Hp. induction 1 as [|b bs Hb _ IH]; simpl; [by rewrite andb_false_r|].
  unfold eval_plan in *. rewrite existsb_app, IH.
  change (existsb (eval_basic v) (product prefixes b)) with (eval_plan v (product prefixes b)).
  by rewrite product_eval, andb_orb_distrib_r.
Qed.

(** The meaning of one step and of the loop of [distribute]. *)
Definition means (n : Node) : Prop :=
  forall prefixes, Forall (pure_basic live_leaf) prefixes ->
    eval_plan v (distribute_node n prefixes) = eval_prefixes v prefixes && eval v n.

Lemma eval_prefixes_nonnil bs : bs <> [] -> eval_prefixes v bs = eval_plan v bs.
Proof. by destruct bs. Qed.

Lemma distribute_means ns :
  Forall live_leaf (leaves_of ns) -> Forall means ns ->
  forall prefixes, Forall (pure_basic live_leaf) prefixes ->
    eval_prefixes v (distribute prefixes ns) = eval_prefixes v prefixes && eval_list v And ns.
Proof.
  intros Hl Hm. induction Hm as [|n ns Hn _ IH]; intros prefixes Hp.
  { unfold eval_list. simpl. by rewrite andb_true_r. }
  rewrite leaves_of_cons in Hl. apply Forall_app in Hl as [Hl1 Hl2].
  destruct (pure_node_contributes live_leaf n Hl1 prefixes Hp) as [Hne HF].
  change (distribute prefixes (n :: ns)) with (distribute (distribute_node n prefixes) ns).
  rewrite IH by done. rewrite (eval_prefixes_nonnil (distribute_node _ _)), Hn by done.
  rewrite eval_list_cons. by rewrite andb_assoc.
Qed.

Lemma or_loop_means prefixes ns :
  Forall live_leaf (leaves_of ns) -> Forall means ns ->
  Forall (pure_basic live_leaf) prefixes ->
  eval_plan v (or_loop prefixes ns) = eval_prefixes v prefixes && eval_list v Or ns.
Proof.
  intros Hl Hm Hp. induction Hm as [|n ns Hn _ IH]; [unfold eval_list; simpl; by rewrite andb_false_r|].
  rewrite leaves_of_cons in Hl. apply Forall_app in Hl as [Hl1 Hl2].
  destruct (pure_node_contributes live_leaf n Hl1 [] ltac:(constructor)) as [_ HF].
  rewrite or_loop_cons. unfold eval_plan at 1. rewrite existsb_app.
  change (eval_plan v (concat (map (product prefixes) (distribute_node n []))) ||
          eval_plan v (or_loop prefixes ns) = eval_prefixes v prefixes && eval_list v Or (n :: ns)).
  rewrite products_eval, IH, Hn by (done || constructor).
  rewrite <- andb_orb_distrib_r. done.
Qed.

Lemma distribute_node_means n : Forall live_leaf (leaves n) -> means n.
Proof.
  induction n as [p|p|k ns a IH] using Node_nested_ind; intros Hl prefixes Hp.
  - simpl. rewrite product_eval; [done..|]. by apply leaf_basic_pure.
  - simpl. rewrite product_eval; [|done|by split]. unfold eval_basic. simpl. by rewrite !andb_true_r.
  - rewrite distribute_node_operator. destruct (isPatternExpression ns) eqn:Hns.
    { rewrite product_eval; [done..|]. apply leaf_basic_pure; [|done].
      by rewrite isPatternExpression_operator. }
    rewrite leaves_operator in Hl.
    assert (Forall means ns) as Hm.
    { clear Hns. unfold leaves_of in Hl. induction IH as [|n ns Hn _ IHns]; [constructor|].
      simpl in Hl. apply Forall_app in Hl as [? ?]. constructor; auto. }
    destruct k; [by apply or_loop_means|..];
      (rewrite <- eval_prefixes_nonnil, distribute_means by
         (done || (apply not_pure_nonnil in Hns;
                   by apply (distribute_pure live_leaf ns prefixes)));
       done).
Qed.

Lemma BuildPlan_eval query :
  query <> [] -> Forall live_leaf (leaves_of query) ->
  eval_plan v (BuildPlan query) = eval_list v And query.
Proof.
  intros Hne Hl. rewrite <- (eval_prefixes_nonnil (BuildPlan query)) by by apply BuildPlan_nonnil.
  unfold BuildPlan. rewrite distribute_means; [done|done| |constructor].
  unfold leaves_of in Hl. clear Hne. induction query as [|n ns IH]; [constructor|].
  simpl in Hl. apply Forall_app in Hl as [? ?]. constructor; auto using distribute_node_means.
Qed.
End Meaning.

(** ** Theorems *)

(** C3: [BuildPlan] means the same as the query: under every valuation of the
    leaves, some basic query of the plan holds exactly when the conjunction of
    the query's nodes holds, as long as the query is not empty and none of its
    patterns is the empty string. *)
Theorem BuildPlan_equivalent (v : Node -> bool) (query : list Node) :
  query <> [] -> Forall live_leaf (leaves_of query) ->
  eval_plan v (BuildPlan query) = eval_list v And query.
Proof. apply BuildPlan_eval. Qed.

(** In every basic query of a plan all leaves come from the query, and the
    pattern is a pure pattern expression: the distribution leaves no parameter
    below an operator. *)
Theorem BuildPlan_basic (query : list Node) :
  Forall (pure_basic (fun n => n ∈ leaves_of query)) (BuildPlan query).
Proof. apply BuildPlan_pure, Forall_forall. done. Qed.

Section Witness.
Definition w_par (f v : string) : Node := ParamNode (MkParam (str f) (str v) false zeroAnnotation).
Definition w_pat (v : string) : Node := PatternNode (MkPattern (str v) false zeroAnnotation).

(** [(repo:a or repo:b c) (d or e)] *)
Definition w_query : list Node :=
  [Operator Or [w_par "repo" "a"; Operator And [w_par "repo" "b"; w_pat "c"] zeroAnnotation]
     zeroAnnotation;
   Operator Or [w_pat "d"; w_pat "e"] zeroAnnotation].

Lemma BuildPlan_equivalent_witness :
  eval_plan is_param (BuildPlan w_query) = eval_list is_param And w_query /\
  length (BuildPlan w_query) = 2%nat.
Proof.
  split; [|vm_compute; reflexivity].
  apply BuildPlan_equivalent; [discriminate|].
  repeat (apply Forall_cons; split; [vm_compute; done|]). constructor.
Defined.
End Witness.
