(* ===== verification/TransformFacts.v ===== *)
(** Theorems about the transformers: normalisation of fields, concatenation of
    patterns, escaping of parentheses and revision filters. *)
From S2P Require Import Prelude GoStr GoLib Syntax Operators Mapper Partition PartitionFacts Transform.

(** ** Escaping of parentheses *)

(** An unescaped [()] or an unescaped trailing [(]. *)
Fixpoint dangling (s : gostring) : bool :=
  match s with
  | [] => false
  | c :: t =>
      if (c =? 92)%Z then match t with _ :: t' => dangling t' | [] => false end
      else if (c =? 40)%Z then
        match t with [] => true | d :: _ => (d =? 41)%Z || dangling t end
      else dangling t
  end.

Lemma escapeParens_not_dangling s : dangling s = false -> escapeParens s = s.
Proof.
  induction s as [s IH] using list_length_ind. destruct s as [|c t]; [done|].
  simpl. destruct (c =? 92)%Z eqn:E1.
  - apply Z.eqb_eq in E1 as ->. destruct t as [|d t']; [done|]. intros H.
    rewrite IH; [done|simpl; lia|done].
  - destruct (c =? 40)%Z eqn:E2.
    + destruct t as [|d t']; [done|]. intros [Hd H]%orb_false_iff. rewrite Hd, IH; [done|simpl; lia|done].
    + intros H. rewrite IH; [done|simpl; lia|done].
Qed.

Lemma escapeParens_head s c t :
  escapeParens s = c :: t -> c = 41%Z -> exists t', s = 41%Z :: t'.
Proof.
  intros H ->. destruct s as [|d s]; [done|]. simpl in H.
  repeat case_match; simplify_eq/=; eauto.
Qed.

Lemma escapeParens_nil s : escapeParens s = [] -> s = [].
Proof. destruct s as [|d s]; [done|]. simpl. by repeat case_match. Qed.

Lemma dangling_escapeParens s : dangling (escapeParens s) = false.
Proof.
  induction s as [s IH] using list_length_ind. destruct s as [|c t]; [done|].
  simpl. destruct (c =? 92)%Z eqn:E1.
  { destruct t as [|d t']; [done|]. apply IH. simpl. lia. }
  destruct (c =? 40)%Z eqn:E2; cycle 1.
  { cbn [dangling]. rewrite E1, E2. apply IH. simpl. lia. }
  destruct t as [|d t']; [done|]. destruct (d =? 41)%Z eqn:E3; [apply IH; simpl; lia|].
  cbn [dangling]. rewrite E1, E2.
  destruct (escapeParens (d :: t')) as [|x y] eqn:Ex; [by apply escapeParens_nil in Ex|].
  rewrite <- Ex. destruct (x =? 41)%Z eqn:E4; [|apply IH; simpl; lia].
  apply Z.eqb_eq in E4. apply (escapeParens_head _ _ _ Ex) in E4 as [? [= -> ->]]. done.
Qed.

(** [escapeParens] leaves no unescaped [()] and no unescaped trailing [(]
    behind, and it changes only strings that have one; so it is idempotent. *)
Theorem escapeParens_correct (s : gostring) :
  dangling (escapeParens s) = false /\ (escapeParens s = s <-> dangling s = false) /\
  escapeParens (escapeParens s) = escapeParens s.
Proof.
  pose proof (dangling_escapeParens s) as H. split_and!; [done| |].
  - split; [by intros <-|apply escapeParens_not_dangling].
  - by apply escapeParens_not_dangling.
Qed.

(** ** Revisions *)

Definition is_rev (p : Param) : bool := gs_eqb FieldRev (par_Field p).

(** The value of the last [rev:] filter. *)
Definition last_rev (ps : list Param) : gostring :=
  default [] (last (map par_Value (List.filter is_rev ps))).

Definition attach_rev (revision : gostring) (p : Param) : Param :=
  if gs_eqb FieldRepo (par_Field p) && negb (par_Negated p) &&
     negb (Labels.IsSet (a_Labels (par_Annotation p)) Labels.IsPredicate)
  then MkParam FieldRepo (par_Value p ++ str "@" ++ revision) (par_Negated p) (par_Annotation p)
  else p.

Lemma toNodes_cons p ps : toNodes (p :: ps) = ParamNode p :: toNodes ps.
Proof. done. Qed.

Lemma MapFieldS_rev ps revision :
  MapFieldS (toNodes ps) FieldRev rev_callback revision =
  (toNodes (List.filter (fun p => negb (is_rev p)) ps),
   default revision (last (map par_Value (List.filter is_rev ps)))).
Proof.
  revert revision. induction ps as [|p ps IH]; intros revision; [done|].
  unfold MapFieldS in *. rewrite toNodes_cons. cbn [MapNodes map_node m_parameter].
  unfold is_rev in *. destruct p as [f v n a]. cbn [List.filter par_Field par_Value par_Negated par_Annotation].
  destruct (gs_eqb FieldRev f); simpl; rewrite IH; [|done].
  cbn [map par_Value]. rewrite last_cons. by destruct (last _).
Qed.

Lemma MapField_repo ps revision :
  MapField (toNodes ps) FieldRepo (repo_callback revision) = toNodes (map (attach_rev revision) ps).
Proof.
  unfold MapField, MapFieldS. induction ps as [|p ps IH]; [done|].
  rewrite toNodes_cons. cbn [MapNodes map_node m_parameter map].
  destruct p as [f v n a]. unfold attach_rev at 1, repo_callback at 1. simpl.
  destruct (gs_eqb FieldRepo f) eqn:E; simpl;
    repeat case_match; simplify_eq/=; rewrite ?IH; try done;
    apply gs_eqb_eq in E as <-; done.
Qed.

Lemma toParameters_toNodes ps : toParameters (toNodes ps) = Done ps.
Proof. induction ps as [|p ps IH]; [done|]. simpl. by rewrite IH. Qed.

Lemma ConcatRevFilters_spec (b : Basic) :
  ConcatRevFilters b =
  Done (let revision := last_rev (b_Parameters b) in
        if gs_eqb revision [] then b
        else MkBasic (map (attach_rev revision)
                        (List.filter (fun p => negb (is_rev p)) (b_Parameters b)))
                     (b_Pattern b)).
Proof.
  unfold ConcatRevFilters. rewrite MapFieldS_rev. fold (last_rev (b_Parameters b)). simpl.
  destruct (gs_eqb (last_rev (b_Parameters b)) []); [done|].
  by rewrite MapField_repo, toParameters_toNodes.
Qed.

(** C13: [ConcatRevFilters] never panics; when the last [rev:] filter has a
    non-empty value it removes every [rev:] filter and attaches the value as
    [@rev] to every positive [repo:] filter that is not a predicate, and
    otherwise it returns the query unchanged. *)
Theorem ConcatRevFilters_correct (b : Basic) :
  ConcatRevFilters b =
  Done (let revision := last_rev (b_Parameters b) in
        if gs_eqb revision [] then b
        else MkBasic (map (attach_rev revision)
                        (List.filter (fun p => negb (is_rev p)) (b_Parameters b)))
                     (b_Pattern b)).
Proof. apply ConcatRevFilters_spec. Qed.

(** ** Concatenation *)

Section Concat.
Context (callback : list Pattern -> run (list Node)).

(** The inner loop of [substituteConcat] as a function of its own. *)
Fixpoint concat_loop (nodes : list Node) (ps : list Pattern) (previous : Node) : run (list Node) :=
  match nodes with
  | [] => flush callback ps
  | node :: nodes =>
      match (if isPattern node && isPattern previous then to_pattern node else None) with
      | Some p => concat_loop nodes (ps ++ [p]) node
      | None =>
          let! flushed := flush callback ps in
          let! mapped := substitute_node callback node in
          let! rest := concat_loop nodes [] previous in
          Done (flushed ++ mapped ++ rest)
      end
  end.

Lemma substitute_node_concat first rest a :
  substitute_node callback (Operator Concat (first :: rest) a) =
  concat_loop rest (option_list (to_pattern first)) first.
Proof.
  cbn [substitute_node]. change (kind_eqb Concat Concat) with true. cbv iota.
  generalize (option_list (to_pattern first)) as ps. revert first.
  induction rest as [|node rest IH]; intros first ps; [done|].
  destruct node as [p|p|k ns b]; cbn [concat_loop].
  - destruct (isPattern _ && isPattern first); simpl; [apply IH|].
    destruct (flush callback ps); simpl; [|done..]. by rewrite IH.
  - simpl. destruct (flush callback ps); simpl; [|done..]. by rewrite IH.
  - cbn [isPattern andb]. cbv iota. destruct (flush callback ps); cbn [run_bind]; [|done..].
    destruct (substitute_node callback (Operator k ns b)); cbn [run_bind]; [|done..].
    by rewrite IH.
Qed.

Lemma substitute_node_other kind ns a :
  kind <> Concat ->
  substitute_node callback (Operator kind ns a) =
  let! ms := substituteConcat callback ns in Done (NewOperator ms kind).
Proof.
  intros Hk. simpl. unfold kind_eqb. by rewrite bool_decide_eq_false_2 by done.
Qed.

Definition no_concat (k : OperatorKind) (m : nat) : Prop := k <> Concat /\ (2 <= m)%nat.

(** A property [G] of lists of nodes that the callback establishes on non-empty
    lists, that leaves in [P] have, and that concatenation and the other
    operators keep, holds of the result. *)
Context (G : list Node -> Prop) (P : Node -> Prop).
Hypothesis callback_ok : forall ps, ps <> [] -> returns (callback ps) G.
Hypothesis G_nil : G [].
Hypothesis G_app : forall l k, G l -> G k -> G (l ++ k).
Hypothesis G_operator : forall l k, k <> Concat -> G l -> G (NewOperator l k).
Hypothesis G_leaf : forall n, is_param n = true \/ is_pattern n = true -> P n -> G [n].

Lemma flush_ok ps : returns (flush callback ps) G.
Proof. destruct ps as [|p ps]; [by apply returns_done|]. by apply callback_ok. Qed.

Definition substitutes (n : Node) : Prop := returns (substitute_node callback n) G.

Lemma concat_loop_ok nodes ps previous :
  Forall substitutes nodes -> returns (concat_loop nodes ps previous) G.
Proof.
  intros H. revert ps previous. induction H as [|n ns Hn _ IH]; intros ps previous;
    [apply flush_ok|]. simpl. case_match; [apply IH|].
  run_step flush_ok. intros flushed Hf. run_step Hn. intros mapped Hm. run_step IH.
  intros rest Hr. apply returns_done. auto.
Qed.

Lemma substituteConcat_ok nodes :
  Forall substitutes nodes -> returns (substituteConcat callback nodes) G.
Proof.
  induction 1 as [|n ns Hn _ IH]; [by apply returns_done|]. simpl.
  run_step Hn. intros mapped Hm. run_step IH. intros rest Hr. apply returns_done. auto.
Qed.

Lemma substitute_node_ok n :
  all_ops (fun _ m => (2 <= m)%nat) n -> Forall P (leaves n) -> substitutes n.
Proof.
  induction n as [p|p|k ns a IH] using Node_nested_ind; unfold substitutes.
  1,2: intros _ [? _]%Forall_cons; apply returns_done; auto.
  rewrite all_ops_operator, leaves_operator. intros [Hlen Hns] HP.
  assert (Forall substitutes ns) as Hs.
  { clear Hlen. unfold leaves_of in HP. induction IH as [|n ns Hn _ IHns]; [constructor|].
    simpl in HP. apply Forall_app in HP as [? ?]. apply Forall_cons in Hns as [? ?].
    constructor; auto. }
  destruct (decide (k = Concat)) as [->|Hk].
  - destruct ns as [|first rest]; [simpl in Hlen; lia|]. rewrite substitute_node_concat.
    inversion Hs. by apply concat_loop_ok.
  - rewrite substitute_node_other by done. run_step (substituteConcat_ok _ Hs).
    intros ms Hms. apply returns_done. auto.
Qed.

Lemma substituteConcat_total nodes :
  Forall (all_ops (fun _ m => (2 <= m)%nat)) nodes -> Forall P (leaves_of nodes) ->
  returns (substituteConcat callback nodes) G.
Proof.
  intros H HP. apply substituteConcat_ok. unfold leaves_of in HP.
  induction H as [|n ns Hn _ IH]; [constructor|]. simpl in HP. apply Forall_app in HP as [? ?].
  constructor; auto using substitute_node_ok.
Qed.

(** A concatenation of positive patterns is handed to the callback whole. *)
Lemma concat_loop_patterns ps qs p :
  pat_Negated p = false -> Forall (fun q => pat_Negated q = false) ps ->
  concat_loop (map PatternNode ps) qs (PatternNode p) = flush callback (qs ++ ps).
Proof.
  intros Hp Hps. revert qs p Hp. induction Hps as [|q ps Hq _ IH]; intros qs p Hp; simpl.
  { by rewrite app_nil_r. }
  rewrite Hp, Hq. simpl. rewrite IH by done. by rewrite <- app_assoc.
Qed.
End Concat.

(** *** The concatenators *)

Lemma patterns_no_concat l : Forall (fun n => is_pattern n = true) l -> Forall (all_ops no_concat) l.
Proof. intros H. eapply Forall_impl; [exact H|]. by intros []. Qed.

Lemma space_spec ps :
  ps <> [] ->
  exists p, space ps = Done [PatternNode p] /\ pat_Value p = Join (map pat_Value ps) (str " ") /\
    a_Labels (pat_Annotation p) = default 0%Z ((fun q => a_Labels (pat_Annotation q)) <$> head ps).
Proof. destruct ps as [|p [|q ps]]; [done|..]; intros _; eexists; split_and!; reflexivity. Qed.

(** Joining a list is a monoid action on the parts that are not the empty list. *)
Lemma Join_app_text l k l' k' sep :
  Join l sep = Join l' sep -> Join k sep = Join k' sep ->
  (l = [] <-> l' = []) -> (k = [] <-> k' = []) -> Join (l ++ k) sep = Join (l' ++ k') sep.
Proof.
  intros Hl Hk El Ek. destruct (decide (l = [])) as [->|Hln].
  { by rewrite (proj1 El eq_refl). }
  destruct (decide (k = [])) as [->|Hkn].
  { by rewrite (proj1 Ek eq_refl), !app_nil_r. }
  rewrite !Join_app by tauto. by rewrite Hl, Hk.
Qed.

Definition is_regexp (p : Pattern) : bool :=
  Labels.IsSet (a_Labels (pat_Annotation p)) Labels.Regexp.

(** No two neighbouring patterns are both literal. *)
Fixpoint no_adjacent_literals (ps : list Pattern) : bool :=
  match ps with
  | p :: (q :: _) as rest => (is_regexp p || is_regexp q) && no_adjacent_literals rest
  | _ => true
  end.

Lemma map_nil_iff {A B} (f : A -> B) l : map f l = [] <-> l = [].
Proof. by destruct l. Qed.

(** What [standard] keeps of its input: the text, the regular expressions and
    their order. *)
Definition standard_post (patterns out : list Pattern) : Prop :=
  Join (map pat_Value out) (str " ") = Join (map pat_Value patterns) (str " ") /\
  List.filter is_regexp out = List.filter is_regexp patterns /\
  (out = [] <-> patterns = []).

Lemma standard_post_app a b a' b' :
  standard_post a a' -> standard_post b b' -> standard_post (a ++ b) (a' ++ b').
Proof.
  intros (Ha & Fa & Ea) (Hb & Fb & Eb). unfold standard_post. split_and!.
  - rewrite !map_app. apply Join_app_text; by rewrite ?map_nil_iff.
  - by rewrite !List.filter_app, Fa, Fb.
  - rewrite !app_nil. tauto.
Qed.

Lemma push_literals_spec literals :
  Forall (fun p => is_regexp p = false) literals ->
  exists out, push_literals literals = Done (map PatternNode out) /\
    standard_post literals out /\ (length out <= 1)%nat.
Proof.
  intros Hl. destruct literals as [|l ls]; [by exists []; repeat split; auto|].
  destruct (space_spec (l :: ls)) as (p & Hs & Hv & Ha); [done|].
  exists [p]. split_and!; [exact Hs| |simpl; lia]. split_and!; [exact Hv| |done].
  assert (List.filter is_regexp (l :: ls) = []) as ->.
  { clear -Hl. induction Hl as [|x xs Hx _ IH]; [done|]. simpl. by rewrite Hx. }
  apply Forall_cons in Hl as [Hl _]. simpl. unfold is_regexp in *. rewrite Ha. simpl. by rewrite Hl.
Qed.

Lemma no_adjacent_regexp pushed p rest :
  (length pushed <= 1)%nat -> is_regexp p = true -> no_adjacent_literals rest = true ->
  no_adjacent_literals (pushed ++ p :: rest) = true.
Proof.
  intros Hlen Hp Hr.
  assert (no_adjacent_literals (p :: rest) = true) as H by (destruct rest; simpl; rewrite ?Hp; done).
  destruct pushed as [|x [|]]; simpl in Hlen; [done| |lia].
  change (no_adjacent_literals ([x] ++ p :: rest)) with
    ((is_regexp x || is_regexp p) && no_adjacent_literals (p :: rest)).
  by rewrite Hp, orb_true_r.
Qed.

Lemma standard_loop_spec patterns literals :
  Forall (fun p => is_regexp p = false) literals ->
  exists out, standard_loop patterns literals = Done (map PatternNode out) /\
    standard_post (literals ++ patterns) out /\ no_adjacent_literals out = true.
Proof.
  revert literals. induction patterns as [|p ps IH]; intros lits Hl; simpl.
  { destruct (push_literals_spec lits Hl) as (out & -> & Hp & Hlen). rewrite app_nil_r.
    exists out. split_and!; auto. by destruct out as [|? [|]]; simpl in *; try lia. }
  fold (is_regexp p). destruct (is_regexp p) eqn:Hre.
  - destruct (push_literals_spec lits Hl) as (pushed & -> & Hp & Hlen).
    destruct (IH [] ltac:(constructor)) as (rest & -> & Hr & Hn). simpl.
    exists (pushed ++ p :: rest). split_and!.
    + by rewrite map_app.
    + apply standard_post_app; [done|]. by apply (standard_post_app [p] ps [p]).
    + by apply no_adjacent_regexp.
  - destruct (IH (lits ++ [p])) as (out & -> & Hp & Hn).
    { apply Forall_app_2; auto. }
    exists out. rewrite <- app_assoc in Hp. auto.
Qed.

Lemma standard_spec patterns :
  exists out, standard patterns = Done (map PatternNode out) /\
    standard_post patterns out /\ no_adjacent_literals out = true.
Proof.
  destruct (standard_loop_spec patterns [] ltac:(constructor)) as (out & Hs & Hp & Hn).
  destruct patterns as [|p [|q ps]]; [by eauto| |by eauto]. by exists [p].
Qed.

(** [standard] never panics; it keeps the text of the query (the values
    joined by spaces) and the regular expressions in order, and in its result
    no two literal patterns are neighbours: runs of literals are joined. *)
Theorem standard_correct (patterns : list Pattern) :
  exists out, standard patterns = Done (map PatternNode out) /\
    Join (map pat_Value out) (str " ") = Join (map pat_Value patterns) (str " ") /\
    List.filter is_regexp out = List.filter is_regexp patterns /\
    no_adjacent_literals out = true.
Proof.
  destruct (standard_spec patterns) as (out & Hs & (Hj & Hf & _) & Hn). eauto.
Qed.

(** The three concatenators return patterns only. *)
Definition patterns_only (l : list Node) : Prop := Forall (fun n => is_pattern n = true) l.

Lemma space_ok ps : ps <> [] -> returns (space ps) patterns_only.
Proof. intros (p & -> & _)%space_spec. apply returns_done. by repeat constructor. Qed.

Lemma standard_ok ps : ps <> [] -> returns (standard ps) patterns_only.
Proof.
  intros _. destruct (standard_spec ps) as (out & -> & _). apply returns_done.
  by apply Forall_map, Forall_true.
Qed.

Lemma fuzzyRegexp_ok {R : Regexp} ps : ps <> [] -> returns (fuzzyRegexp ps) patterns_only.
Proof.
  intros _. unfold fuzzyRegexp.
  destruct ps as [|p [|q ps]]; apply returns_done; by repeat constructor.
Qed.

Definition concatenator {R : Regexp} (callback : list Pattern -> run (list Node)) : Prop :=
  In callback [space; standard; fuzzyRegexp].

Lemma concatenator_ok {R : Regexp} callback :
  concatenator callback -> forall ps, ps <> [] -> returns (callback ps) patterns_only.
Proof. intros [<-|[<-|[<-|[]]]]; auto using space_ok, standard_ok, fuzzyRegexp_ok. Qed.

Lemma patterns_leaves P l :
  (forall p, P (PatternNode p)) -> patterns_only l -> Forall P (leaves_of l).
Proof.
  intros HP H. unfold leaves_of. induction H as [|n l Hn _ IH]; [constructor|].
  destruct n; try done. simpl. constructor; auto.
Qed.

(** With a concatenator, [substituteConcat] returns a tree without [Concat]
    whose leaves have every property that patterns have and the leaves of the
    input have. *)
Lemma substituteConcat_returns {R : Regexp} callback P nodes :
  concatenator callback -> (forall p, P (PatternNode p)) ->
  Forall (all_ops (fun _ m => (2 <= m)%nat)) nodes -> Forall P (leaves_of nodes) ->
  returns (substituteConcat callback nodes)
    (fun out => Forall (all_ops no_concat) out /\ Forall P (leaves_of out)).
Proof.
  intros Hc HP Ho Hl.
  apply (substituteConcat_total callback
    (fun out => Forall (all_ops no_concat) out /\ Forall P (leaves_of out)) P); [| | | | |done|done].
  - intros ps Hps. eapply returns_mono; [by eapply concatenator_ok|]. simpl.
    intros l Hpat. auto using patterns_no_concat, patterns_leaves.
  - split; constructor.
  - intros l k [? ?] [? ?]. rewrite leaves_of_app. auto using Forall_app_2.
  - intros l k Hk [? ?]. split; [|by apply NewOperator_Forall_leaves].
    apply NewOperator_all_ops; [|done]. by split.
  - intros n Hleaf Hn. rewrite leaves_of_singleton.
    destruct n; [| |by destruct Hleaf]; repeat constructor; done.
Qed.

(** On trees whose operators have at least two operands, which is what
    [Parse] returns, [substituteConcat] with any of the three concatenators
    returns (no index panic) a tree that has no [Concat] operator left and
    whose operators still have at least two operands. *)
Theorem substituteConcat_eliminates {R : Regexp} (nodes : list Node)
    (callback : list Pattern -> run (list Node)) :
  Forall (all_ops (fun _ m => (2 <= m)%nat)) nodes ->
  In callback [space; standard; fuzzyRegexp] ->
  exists out, substituteConcat callback nodes = Done out /\ Forall (all_ops no_concat) out.
Proof.
  intros Hn Hc.
  destruct (substituteConcat_returns callback (fun _ => True) nodes Hc) as (out & Hs & Ho & _);
    [done|done|by apply Forall_true|eauto].
Qed.

(** A concatenation of positive patterns is replaced by what the callback
    makes of all of its patterns, in order. *)
Theorem substituteConcat_flat (callback : list Pattern -> run (list Node)) (p : Pattern)
    (ps : list Pattern) (a : Annotation) :
  Forall (fun q => pat_Negated q = false) (p :: ps) ->
  substituteConcat callback [Operator Concat (map PatternNode (p :: ps)) a] =
  callback (p :: ps).
Proof.
  intros [Hp Hps]%Forall_cons. cbn [substituteConcat map].
  rewrite substitute_node_concat, concat_loop_patterns by done. simpl.
  destruct (callback (p :: ps)); simpl; by rewrite ?app_nil_r.
Qed.

(** ** Normalisation *)

(** A property of the parameters of a tree as one of its leaves. *)
Definition on_param (P : Param -> Prop) (n : Node) : Prop :=
  match n with ParamNode p => P p | _ => True end.

Lemma on_param_params P ns : Forall (on_param P) (leaves_of ns) <-> Forall P (params_of ns).
Proof.
  unfold params_of. induction (leaves_of ns) as [|n l IH]; [split; constructor|].
  rewrite Forall_cons. destruct n as [p|p|k ms a]; simpl; rewrite ?Forall_cons; tauto.
Qed.

(** Mapping parameters one to one establishes what every callback does. *)
Lemma MapParameter_leaves (P Q : Param -> Prop) ns callback :
  (forall p, Q p -> forall n,
     callback (par_Field p) (par_Value p) (par_Negated p) (par_Annotation p) = Some n ->
     Forall (on_param P) (leaves n)) ->
  Forall Q (params_of ns) -> Forall P (params_of (MapParameter ns callback)).
Proof.
  rewrite <- !on_param_params. intros H. apply (MapNodes_Forall_leaves _ _ (on_param Q)); [done|].
  intros l s Hleaf HQ. destruct l as [p|p|k ms a]; [|clear Hleaf|by destruct Hleaf].
  - by repeat constructor.
  - simpl. destruct (callback _ _ _ _) as [n|] eqn:E; simpl; [|constructor].
    rewrite leaves_of_singleton. eauto.
Qed.

(** The canonical fields: the known ones that are neither aliases nor
    [content]. *)
Definition canonical (field : gostring) : bool :=
  known_field field && negb (gs_eqb field FieldContent) &&
  match assoc field aliases with None => true | Some _ => false end.

Lemma alias_canonical field c : assoc field aliases = Some c -> canonical c = true.
Proof.
  intros H%assoc_elem_of.
  assert (forallb (fun '(_, c) => canonical c) aliases = true) as Hall by (vm_compute; done).
  rewrite forallb_forall in Hall. apply list_elem_of_In in H. exact (Hall (field, c) H).
Qed.

Section Normal.
Context {U : UnicodeTables}.

Definition parsed_field (p : Param) : Prop :=
  p = zeroParam \/ known_field (ToLower (par_Field p)) = true.
Definition lower_field (p : Param) : Prop := par_Field p = [] \/ known_field (par_Field p) = true.
Definition normal_field (p : Param) : Prop := par_Field p = [] \/ canonical (par_Field p) = true.

Lemma LowercaseFieldNames_lower ns :
  Forall parsed_field (params_of ns) -> Forall lower_field (params_of (LowercaseFieldNames ns)).
Proof.
  apply MapParameter_leaves. intros p Hp n [= <-]. apply Forall_singleton.
  destruct Hp as [->|Hp]; [by left|by right].
Qed.

Lemma SubstituteAliases_normal t ns :
  Forall lower_field (params_of ns) -> Forall normal_field (params_of (SubstituteAliases t ns)).
Proof.
  apply MapParameter_leaves. intros p Hp n Hn. unfold alias_callback in Hn.
  destruct (gs_eqb (par_Field p) (str "content")) eqn:Hc; simplify_eq; [by repeat constructor|].
  destruct (assoc (par_Field p) aliases) as [c|] eqn:Ha; simplify_eq; apply Forall_singleton.
  - right. by eapply alias_canonical.
  - destruct Hp as [Hp|Hp]; [by left|right]. unfold canonical, FieldContent.
    cbn [par_Field]. by rewrite Hp, Hc, Ha.
Qed.
End Normal.

(** ** Witnesses *)
Section Witness.
#[local] Instance no_regexp : Regexp :=
  {| compiled := unit; Compile _ := Ok tt; SyntaxParse _ := None; QuoteMeta s := s |}.

Definition lit (v : string) : Pattern :=
  MkPattern (str v) false (MkAnnotation Labels.Literal zeroRange).

Definition two_words : Node := Operator Concat [PatternNode (lit "a"); PatternNode (lit "b")] zeroAnnotation.

Lemma substituteConcat_eliminates_witness :
  exists out, substituteConcat space [two_words] = Done out /\ Forall (all_ops no_concat) out.
Proof.
  apply (substituteConcat_eliminates [two_words] space); [|by left].
  constructor; [|constructor]. apply all_ops_operator. split; [simpl; lia|]. repeat constructor.
Defined.

Lemma substituteConcat_flat_witness :
  substituteConcat space [two_words] = space [lit "a"; lit "b"].
Proof. apply (substituteConcat_flat space (lit "a") [lit "b"]). repeat constructor. Defined.

(** A first operand that is not a pattern is lost: the concatenation
    [(a or b) c] becomes the pattern [c] alone, and a negated first pattern
    keeps the patterns after it from being joined, although the comment on
    [substituteConcat] says that it joins all contiguous patterns. *)
Theorem substituteConcat_drops_first_operator :
  substituteConcat space
    [Operator Concat
       [Operator Or [PatternNode (lit "a"); PatternNode (lit "b")] zeroAnnotation;
        PatternNode (lit "c")] zeroAnnotation] = Done [PatternNode (lit "c")] /\
  substituteConcat space
    [Operator Concat
       [PatternNode (MkPattern (str "a") true zeroAnnotation); PatternNode (lit "b");
        PatternNode (lit "c")] zeroAnnotation] =
  Done [PatternNode (MkPattern (str "a") true zeroAnnotation);
        PatternNode (lit "b"); PatternNode (lit "c")].
Proof. split; reflexivity. Qed.
End Witness.

(** ** Or-expressions as regular expressions *)

Lemma partition_rest_size fn ns : (nodes_size (partition ns fn).2 <= nodes_size ns)%nat.
Proof.
  induction ns as [|n ns IH]; [done|]. simpl. destruct (partition ns fn) as [l r]. simpl in IH.
  destruct (fn n); cbn [snd]; rewrite ?nodes_size_cons; lia.
Qed.

Lemma substituteOr_stable f g ns acc :
  (nodes_size ns <= f)%nat -> (nodes_size ns <= g)%nat ->
  substituteOr_aux f ns acc = substituteOr_aux g ns acc.
Proof.
  revert g ns acc. induction f as [|f IH]; intros g [|n ns] acc Hf Hg; try (by destruct g);
    rewrite nodes_size_cons in Hf, Hg; pose proof (node_size_pos n); [lia|].
  destruct g as [|g]; [lia|].
  destruct n as [p|p|k ops a]; simpl; try (apply IH; lia).
  rewrite node_size_operator in Hf, Hg. pose proof (partition_rest_size isPattern ops) as Hr.
  destruct (partition ops isPattern) as [l r]. cbn [snd] in Hr.
  rewrite (IH g ops) by lia. rewrite (IH g r) by lia.
  destruct (kind_eqb k Or); apply IH; lia.
Qed.

(** One iteration of the loop of [substituteOrForRegexp], which calls the
    function itself. *)
Definition substituteOr_step (newNode : list Node) (node : Node) : list Node :=
  match node with
  | Operator kind operands _ =>
      if kind_eqb kind Or then
        let '(patterns, rest) := partition operands isPattern in
        let newNode := newNode ++ [or_regexp patterns] in
        match rest with
        | [] => newNode
        | _ => NewOperator (newNode ++ substituteOrForRegexp rest) Or
        end
      else newNode ++ NewOperator (substituteOrForRegexp operands) kind
  | _ => newNode ++ [node]
  end.

(** The fuel of [substituteOrForRegexp] is enough: the function is the loop over
    its argument with recursive calls, as the source has it. *)
Theorem substituteOrForRegexp_equation (nodes : list Node) :
  substituteOrForRegexp nodes = fold_left substituteOr_step nodes [].
Proof.
  unfold substituteOrForRegexp at 1. generalize (@nil Node) as acc.
  induction nodes as [|n ns IH]; intros acc; [done|]. rewrite nodes_size_cons. cbn [fold_left].
  rewrite <- IH. pose proof (node_size_pos n).
  destruct (node_size n + nodes_size ns)%nat as [|f] eqn:Hf; [lia|].
  destruct n as [p|p|k ops a]; simpl; try (apply substituteOr_stable; simpl in Hf; lia).
  rewrite node_size_operator in Hf. pose proof (partition_rest_size isPattern ops) as Hr.
  destruct (partition ops isPattern) as [l r]. cbn [snd] in Hr. unfold substituteOrForRegexp.
  rewrite (substituteOr_stable f (nodes_size ops) ops) by lia.
  rewrite (substituteOr_stable f (nodes_size r) r) by lia.
  destruct (kind_eqb k Or); apply substituteOr_stable; lia.
Qed.
