(* ===== verification/RepoRevs.v ===== *)
(** Revision specifiers and repository filters:
    [internal/search/query/repo_revs.go], with their orders and round trips. *)
From S2P Require Import Prelude GoStr GoLib Syntax Operators Mapper Partition Transform.

Record RevisionSpecifier := MkRev
  { RevSpec : gostring; RefGlob : gostring; ExcludeRefGlob : gostring }.

Definition RevisionSpecifier_String (r1 : RevisionSpecifier) : gostring :=
  if negb (gs_eqb (ExcludeRefGlob r1) []) then str "*!" ++ ExcludeRefGlob r1
  else if negb (gs_eqb (RefGlob r1) []) then str "*" ++ RefGlob r1
  else RevSpec r1.

Definition Less (r1 r2 : RevisionSpecifier) : bool :=
  if negb (gs_eqb (RevSpec r1) (RevSpec r2)) then gs_ltb (RevSpec r1) (RevSpec r2)
  else if negb (gs_eqb (RefGlob r1) (RefGlob r2)) then gs_ltb (RefGlob r1) (RefGlob r2)
  else gs_ltb (ExcludeRefGlob r1) (ExcludeRefGlob r2).

Definition HasRefGlob (r1 : RevisionSpecifier) : bool :=
  negb (gs_eqb (RefGlob r1) []) || negb (gs_eqb (ExcludeRefGlob r1) []).

Definition parseRev (spec : gostring) : RevisionSpecifier :=
  if HasPrefix spec (str "*!") then MkRev [] [] (drop 2 spec)
  else if HasPrefix spec (str "*") then MkRev [] (drop 1 spec) []
  else MkRev spec [] [].

Section RepoFilter.
Context {R : Regexp}.

Record ParsedRepoFilter := MkRepoFilter
  { Repo : gostring; RepoRegex : compiled; Revs : list RevisionSpecifier }.

Definition ParsedRepoFilter_String (p : ParsedRepoFilter) : gostring :=
  match Revs p with
  | [] => Repo p
  | _ => Repo p ++ str "@" ++ Join (map RevisionSpecifier_String (Revs p)) (str ":")
  end.

Definition parse_revs (s : gostring) : list RevisionSpecifier :=
  match map parseRev (List.filter (fun part => negb (gs_eqb part [])) (Split s 58%Z)) with
  | [] => [MkRev [] [] []]
  | revs => revs
  end.

Definition ParseRepositoryRevisions (repoAndOptionalRev : gostring)
    : result gerror ParsedRepoFilter :=
  let '(repo, revs) :=
    match Index repoAndOptionalRev (str "@") with
    | None => (repoAndOptionalRev, [])
    | Some i => (take i repoAndOptionalRev, parse_revs (drop (i + 1) repoAndOptionalRev))
    end in
  match Compile (str "(?i)" ++ repo) with
  | Err err => Err (ErrorNew err)
  | Ok repoRegex => Ok (MkRepoFilter repo repoRegex revs)
  end.
End RepoFilter.

(** ** The order on revision specifiers *)

(** [Less] compares the three fields lexicographically. *)
Lemma Less_iff r s :
  Less r s = true <->
  gs_ltb (RevSpec r) (RevSpec s) = true \/
  RevSpec r = RevSpec s /\
    (gs_ltb (RefGlob r) (RefGlob s) = true \/
     RefGlob r = RefGlob s /\ gs_ltb (ExcludeRefGlob r) (ExcludeRefGlob s) = true).
Proof.
  unfold Less. destruct r as [a b c], s as [a' b' c']; simpl.
  destruct (gs_eqb a a') eqn:Ea; simpl; [apply gs_eqb_eq in Ea as <-|].
  - rewrite gs_ltb_irrefl.
    destruct (gs_eqb b b') eqn:Eb; simpl; [apply gs_eqb_eq in Eb as <-|].
    + rewrite gs_ltb_irrefl. intuition congruence.
    + apply gs_eqb_false in Eb. intuition congruence.
  - apply gs_eqb_false in Ea. intuition congruence.
Qed.

(** Lexicographic composition keeps transitivity. *)
Lemma lex_trans (a b c : gostring) (P Q S : Prop) :
  gs_ltb a b = true \/ a = b /\ P -> gs_ltb b c = true \/ b = c /\ Q -> (P -> Q -> S) ->
  gs_ltb a c = true \/ a = c /\ S.
Proof.
  intros [H1|[-> HP]] [H2|[<- HQ]] HS; auto. left. by eapply gs_ltb_trans.
Qed.

(** [Less] is a strict total order on revision specifiers, as [sort.Slice]
    requires: irreflexive, transitive, and any two different specifiers are
    comparable. *)
Theorem Less_strict_total (r s t : RevisionSpecifier) :
  Less r r = false /\ (Less r s && Less s t = true -> Less r t = true) /\
  (r = s \/ Less r s = true \/ Less s r = true).
Proof.
  split_and!.
  - apply not_true_iff_false. rewrite Less_iff, !gs_ltb_irrefl. intuition congruence.
  - rewrite andb_true_iff, !Less_iff. intros [H1 H2].
    apply (lex_trans _ _ _ _ _ _ H1 H2). clear H1 H2. intros H1 H2.
    apply (lex_trans _ _ _ _ _ _ H1 H2). apply gs_ltb_trans.
  - rewrite !Less_iff. destruct r as [a b c], s as [a' b' c']; simpl.
    destruct (gs_ltb_total a a') as [<-|[?|?]]; auto.
    destruct (gs_ltb_total b b') as [<-|[?|?]]; auto 10.
    destruct (gs_ltb_total c c') as [<-|[?|?]]; auto 10.
Qed.

(** ** Round trips *)

(** A specifier that names something: one field is set, and its value does not
    clash with the syntax. *)
Definition rev_ok (r : RevisionSpecifier) : bool :=
  match RevSpec r, RefGlob r, ExcludeRefGlob r with
  | c :: _, [], [] => negb (c =? 42)%Z
  | [], c :: _, [] => negb (c =? 33)%Z
  | [], [], _ :: _ => true
  | _, _, _ => false
  end && forallb (fun c => negb (c =? 58)%Z) (RevSpec r ++ RefGlob r ++ ExcludeRefGlob r).

Lemma parseRev_String r : rev_ok r = true -> parseRev (RevisionSpecifier_String r) = r.
Proof.
  destruct r as [[|a x] [|b y] [|c z]]; unfold rev_ok; simpl; try done; intros [H _]%andb_true_iff.
  - rewrite Z.eqb_sym, negb_true_iff in H.
    change (RevisionSpecifier_String _) with (42%Z :: b :: y). unfold parseRev.
    change (HasPrefix (42%Z :: b :: y) (str "*!")) with ((33 =? b)%Z && true).
    by rewrite H.
  - rewrite Z.eqb_sym, negb_true_iff in H.
    change (RevisionSpecifier_String _) with (a :: x). unfold parseRev.
    change (HasPrefix (a :: x) (str "*!")) with ((42 =? a)%Z && HasPrefix x (str "!")).
    change (HasPrefix (a :: x) (str "*")) with ((42 =? a)%Z && true).
    by rewrite H.
Qed.

Lemma RevisionSpecifier_String_ok r :
  rev_ok r = true ->
  RevisionSpecifier_String r <> [] /\
  Forall (fun c => c <> 58%Z) (RevisionSpecifier_String r).
Proof.
  intros Hr.
  assert (Forall (fun c => c <> 58%Z) (RevSpec r ++ RefGlob r ++ ExcludeRefGlob r)) as HF.
  { unfold rev_ok in Hr. apply andb_true_iff in Hr as [_ Hr]. apply Forall_forall. intros c Hc.
    rewrite forallb_forall in Hr. apply list_elem_of_In, Hr in Hc.
    apply negb_true_iff, Z.eqb_neq in Hc. done. }
  destruct r as [[|a x] [|b y] [|c z]]; unfold rev_ok in Hr; simpl in *; try done;
    (split; [done|]); rewrite ?app_nil_r in HF; repeat (constructor; [done|]); done.
Qed.

Lemma parse_revs_Join revs :
  revs <> [] -> Forall (fun r => rev_ok r = true) revs ->
  parse_revs (Join (map RevisionSpecifier_String revs) (str ":")) = revs.
Proof.
  intros Hne HF. unfold parse_revs. change (str ":") with [58%Z]. rewrite Split_Join.
  - assert (List.filter (fun part => negb (gs_eqb part [])) (map RevisionSpecifier_String revs) =
            map RevisionSpecifier_String revs) as ->.
    { clear Hne. induction HF as [|r revs Hr _ IH]; [done|]. simpl. rewrite IH.
      apply RevisionSpecifier_String_ok in Hr as [Hr _]. apply gs_eqb_false in Hr. by rewrite Hr. }
    assert (map parseRev (map RevisionSpecifier_String revs) = revs) as ->; [|by destruct revs].
    clear Hne. induction HF as [|r revs Hr _ IH]; [done|]. simpl. by rewrite IH, parseRev_String.
  - by destruct revs.
  - apply Forall_map. eapply Forall_impl; [exact HF|]. intros r Hr. simpl.
    by apply RevisionSpecifier_String_ok.
Qed.

(** Filters as [ParseRepositoryRevisions] builds them: no [@] in the pattern
    and no revision, the default branch, or revisions that name something. *)
Definition filter_ok {R : Regexp} (f : ParsedRepoFilter) : Prop :=
  Forall (fun c => c <> 64%Z) (Repo f) /\
  (Revs f = [MkRev [] [] []] \/ Forall (fun r => rev_ok r = true) (Revs f)) /\
  Compile (str "(?i)" ++ Repo f) = Ok (RepoRegex f).

(** printing a repository filter and parsing it again gives the filter
    back: pattern, compiled expression and every revision, in order. *)
Theorem ParseRepositoryRevisions_String {R : Regexp} (f : ParsedRepoFilter) :
  filter_ok f -> ParseRepositoryRevisions (ParsedRepoFilter_String f) = Ok f.
Proof.
  destruct f as [repo regex revs]. intros (Hat & Hrevs & Hc).
  unfold ParseRepositoryRevisions, ParsedRepoFilter_String. cbn [Repo RepoRegex Revs] in *.
  destruct revs as [|r revs].
  { change (str "@") with [64%Z]. rewrite Index_plain by done. by rewrite Hc. }
  set (joined := Join _ (str ":")).
  assert (parse_revs joined = r :: revs) as Hp.
  { destruct Hrevs as [[= -> ->]|HF]; [done|]. by apply parse_revs_Join. }
  change (str "@") with [64%Z]. change ([64%Z] ++ joined) with (64%Z :: joined).
  rewrite Index_app by done. rewrite take_app_length, Hc.
  assert (drop (length repo + 1) (repo ++ 64%Z :: joined) = joined) as ->; [|by rewrite Hp].
  by rewrite drop_app_ge, Nat.add_comm, Nat.add_sub by lia.
Qed.

Section Witness.
#[local] Instance any_regexp : Regexp :=
  {| compiled := gostring; Compile s := Ok s; SyntaxParse _ := None; QuoteMeta s := s |}.

Definition w_filter : ParsedRepoFilter :=
  MkRepoFilter (str "foo") (str "(?i)foo") [MkRev (str "v1") [] []; MkRev [] (str "heads/") []].

Lemma ParseRepositoryRevisions_String_witness :
  ParseRepositoryRevisions (str "foo@v1:*heads/") = Ok w_filter.
Proof.
  apply (ParseRepositoryRevisions_String w_filter).
  split; [|split; [right|reflexivity]]; repeat constructor; discriminate.
Defined.
End Witness.
