(* ===== verification/Predicates.v ===== *)
(** The predicates of [internal/search/query/predicate.go]: the syntax
    [name(params)], the registry lookup and the [Unmarshal] method of every
    predicate type, with [VisitPredicate] and [VisitTypedPredicate] of
    [visitor.go]. *)
From S2P Require Import Prelude GoStr GoLib Syntax Operators Scan Mapper Partition Parser Transform.

(** ** The interface [Predicate] *)

(** The values of the predicate structs after [Unmarshal]. *)
Inductive Predicate :=
| PRepoContainsFile (Path Content : gostring) (Negated : bool)
| PRepoContainsContent (Pattern : gostring) (Negated : bool)
| PRepoContainsPath (Pattern : gostring) (Negated : bool)
| PRepoContainsCommitAfter (TimeRef : gostring) (Negated : bool)
| PRepoHasDescription (Pattern : gostring)
| PRepoHasTag (Key : gostring) (Negated : bool)
| PRepoHasMeta (Key : gostring) (Value : option gostring) (Negated KeyOnly : bool)
| PRepoHasKVP (Key Value : gostring) (Negated : bool)
| PRepoHasKey (Key : gostring) (Negated : bool)
| PRepoHasTopic (Topic : gostring) (Negated : bool)
| PRepoContains (File Content : gostring) (Negated : bool)
| PFileContainsContent (Pattern : gostring)
| PFileHasOwner (Owner : gostring) (Negated : bool).

Definition Predicate_Field (k : PredicateKind) : gostring :=
  match k with
  | FileContainsContentPredicate | FileHasOwnerPredicate => FieldFile
  | _ => FieldRepo
  end.

Definition Predicate_Name (k : PredicateKind) : gostring :=
  match k with
  | RepoContainsFilePredicate => str "contains.file"
  | RepoContainsContentPredicate => str "contains.content"
  | RepoContainsPathPredicate => str "contains.path"
  | RepoContainsCommitAfterPredicate => str "contains.commit.after"
  | RepoHasDescriptionPredicate => str "has.description"
  | RepoHasTagPredicate => str "has.tag"
  | RepoHasMetaPredicate => str "has.meta"
  | RepoHasKVPPredicate => str "has"
  | RepoHasKeyPredicate => str "has.key"
  | RepoHasTopicPredicate => str "has.topic"
  | RepoContainsPredicate => str "contains"
  | FileContainsContentPredicate => str "contains.content"
  | FileHasOwnerPredicate => str "has.owner"
  end.

(** [PredicateRegistry.Get] panics on unknown fields and names. *)
Definition Get (pr : PredicateRegistry) (field name : gostring) : run PredicateKind :=
  match assoc field pr with
  | None => Panics "predicate lookup for field is invalid"
  | Some fieldPredicates =>
    match assoc name fieldPredicates with
    | None => Panics "predicate lookup for name on field is invalid"
    | Some kind => Done kind
    end
  end.

(** ** The syntax of predicates *)

(** The characters of the class [[a-z\.]]. *)
Definition name_char (c : Z) : bool := is_lower c || (c =? DOT)%Z.

Fixpoint span_name (s : gostring) : gostring * gostring :=
  match s with
  | c :: t => if name_char c then let '(name, rest) := span_name t in (c :: name, rest) else ([], s)
  | [] => ([], [])
  end.

(** The submatches of [predicateRegexp]: one or more characters of the class
    as [name], an opening parenthesis, any text as [params], and a closing
    parenthesis at the end.  The parenthesis after the name is not in the class
    of the name, so the name is the longest prefix of that class, and the
    parameters are what is left between that parenthesis and the final one. *)
Definition match_predicate (value : gostring) : option (gostring * gostring) :=
  match span_name value with
  | ([], _) => None
  | (name, rest) =>
      match rest with
      | c :: t =>
          if (c =? LPAREN_rune)%Z then
            match last t with
            | Some d => if (d =? RPAREN_rune)%Z then Some (name, removelast t) else None
            | None => None
            end
          else None
      | [] => None
      end
  end.

Definition ParseAsPredicate (value : gostring) : run (gostring * gostring) :=
  match match_predicate value with
  | None => Panics "Invariant broken: attempt to parse a predicate value which appears to have not been properly validated"
  | Some m => Done m
  end.

Definition VisitPredicate {S} (nodes : list Node)
    (f : gostring -> gostring -> gostring -> bool -> S -> S) (s : S) : run S :=
  VisitParameter nodes (fun gotField value negated annotation (m : run S) =>
    let! s := m in
    if Labels.IsSet (a_Labels annotation) Labels.IsPredicate then
      let! '(name, predValue) := ParseAsPredicate value in
      Done (f gotField name predValue negated s)
    else Done s) (Done s).

(** ** [Unmarshal] *)
Section Unmarshal.
Context {U : UnicodeTables} {R : Regexp}.

(** *** [contains.file(path:... content:...)] and [contains(file:... content:...)] *)

(** The two arguments, set as the tree is walked. *)
Record file_args := MkArgs { arg_path : gostring; arg_content : gostring }.

Definition err_pattern_argument (value : gostring) : gerror :=
  ErrorNew (str "prepend 'file:' or 'content:' to " ++ DQUOTE ++ value ++ DQUOTE ++
            str " to search repositories containing files or content respectively.").
Definition err_or_argument : gerror :=
  ErrorNew (str "predicates do not currently support 'or' queries").
Definition err_option (field : gostring) : gerror :=
  ErrorNew (str "unsupported option " ++ Quote field).

(** The [Parameter] case of [RepoContainsFilePredicate.parseNode]. *)
Definition contains_file_param (v : Param) (f : file_args) : result gerror file_args :=
  if par_Negated v then
    Err (ErrorNew (str "predicates do not currently support negated values"))
  else if gs_eqb (ToLower (par_Field v)) (str "path") then
    if negb (gs_eqb (arg_path f) []) then Err (ErrorNew (str "cannot specify path multiple times"))
    else match SyntaxParse (par_Value v) with
         | Some err => Err (ErrorNew (str "`contains.file` predicate has invalid `path` argument: " ++ err))
         | None => Ok (MkArgs (par_Value v) (arg_content f))
         end
  else if gs_eqb (ToLower (par_Field v)) (str "content") then
    if negb (gs_eqb (arg_content f) []) then Err (ErrorNew (str "cannot specify content multiple times"))
    else match SyntaxParse (par_Value v) with
         | Some err => Err (ErrorNew (str "`contains.file` predicate has invalid `content` argument: " ++ err))
         | None => Ok (MkArgs (arg_path f) (par_Value v))
         end
  else Err (err_option (par_Field v)).

(** The [Parameter] case of [RepoContainsPredicate.parseNode]. *)
Definition contains_param (v : Param) (f : file_args) : result gerror file_args :=
  if par_Negated v then
    Err (ErrorNew (str "the repo:contains() predicate does not currently support negated values"))
  else if gs_eqb (ToLower (par_Field v)) (str "file") then
    if negb (gs_eqb (arg_path f) []) then Err (ErrorNew (str "cannot specify file multiple times"))
    else match Compile (par_Value v) with
         | Err err => Err (ErrorNew (str "the repo:contains() predicate has invalid `file` argument: " ++ err))
         | Ok _ => Ok (MkArgs (par_Value v) (arg_content f))
         end
  else if gs_eqb (ToLower (par_Field v)) (str "content") then
    if negb (gs_eqb (arg_content f) []) then Err (ErrorNew (str "cannot specify content multiple times"))
    else match Compile (par_Value v) with
         | Err err => Err (ErrorNew (str "the repo:contains() predicate has invalid `content` argument: " ++ err))
         | Ok _ => Ok (MkArgs (arg_path f) (par_Value v))
         end
  else Err (err_option (par_Field v)).

(** [parseNode], the same for both types but for their parameters.  An error
    ends the walk; the arguments set before it are not used. *)
Fixpoint parseNode (param : Param -> file_args -> result gerror file_args) (n : Node)
    (f : file_args) : result gerror file_args :=
  match n with
  | ParamNode v => param v f
  | PatternNode v => Err (err_pattern_argument (pat_Value v))
  | Operator kind operands _ =>
      if kind_eqb kind Or then Err err_or_argument
      else (fix go (ns : list Node) (f : file_args) : result gerror file_args :=
              match ns with
              | [] => Ok f
              | n :: ns => match parseNode param n f with Err e => Err e | Ok f => go ns f end
              end) operands f
  end.

Fixpoint parseNodes (param : Param -> file_args -> result gerror file_args) (nodes : list Node)
    (f : file_args) : result gerror file_args :=
  match nodes with
  | [] => Ok f
  | n :: ns => match parseNode param n f with Err e => Err e | Ok f => parseNodes param ns f end
  end.

Definition unmarshal_contains_file (params : gostring) (negated : bool)
    : run (result gerror Predicate) :=
  let! r := Parse params SearchTypeRegex in
  match r with
  | Err err => Done (Err err)
  | Ok nodes =>
      let args :=
        match parseNodes contains_file_param nodes (MkArgs [] []) with
        | Ok f => Ok f
        | Err err =>
            match nodes with
            | [PatternNode pattern] =>
                match SyntaxParse (pat_Value pattern) with
                | Some err => Err (ErrorNew err)
                | None => Ok (MkArgs (pat_Value pattern) [])
                end
            | _ => Err err
            end
        end in
      Done match args with
           | Err err => Err err
           | Ok f =>
               if gs_eqb (arg_path f) [] && gs_eqb (arg_content f) []
               then Err (ErrorNew (str "one of path or content must be set"))
               else Ok (PRepoContainsFile (arg_path f) (arg_content f) negated)
           end
  end.

Definition unmarshal_contains (params : gostring) (negated : bool)
    : run (result gerror Predicate) :=
  let! r := Parse params SearchTypeRegex in
  match r with
  | Err err => Done (Err err)
  | Ok nodes =>
      Done match parseNodes contains_param nodes (MkArgs [] []) with
           | Err err => Err err
           | Ok f =>
               if gs_eqb (arg_path f) [] && gs_eqb (arg_content f) []
               then Err (ErrorNew (str "one of file or content must be set"))
               else Ok (PRepoContains (arg_path f) (arg_content f) negated)
           end
  end.

(** *** Predicates with a regular expression *)

Definition unmarshal_regexp (what : gostring) (params : gostring) (p : Predicate)
    : result gerror Predicate :=
  match SyntaxParse params with
  | Some err => Err (ErrorNew (what ++ str " argument: " ++ err))
  | None =>
      if gs_eqb params [] then Err (ErrorNew (what ++ str " argument should not be empty"))
      else Ok p
  end.

Definition negated_error (k : PredicateKind) : gerror :=
  NegatedPredicateError (Predicate_Field k ++ str ":" ++ Predicate_Name k).

Definition unmarshal_description (params : gostring) (negated : bool) : result gerror Predicate :=
  if negated then Err (negated_error RepoHasDescriptionPredicate)
  else match SyntaxParse params with
  | Some err => Err (ErrorNew (str "invalid repo:has.description() argument: " ++ err))
  | None =>
      if gs_eqb params [] then
        Err (ErrorNew (str "empty repo:has.description() predicate parameter"))
      else Ok (PRepoHasDescription params)
  end.

Definition unmarshal_file_content (params : gostring) (negated : bool) : result gerror Predicate :=
  if negated then Err (negated_error FileContainsContentPredicate)
  else unmarshal_regexp (str "file:contains.content") params (PFileContainsContent params).

(** *** Keys and values *)

(** The closure [scanLiteral]: a quoted literal, or the text up to a colon. *)
Definition scanLiteral (data : gostring) : run (result gerror (gostring * nat)) :=
  if HasPrefix data DQUOTE then ScanDelimited data true DQUOTE_rune
  else if HasPrefix data SQUOTE then ScanDelimited data true SQUOTE_rune
  else match Index data (str ":") with
       | Some loc => Done (Ok (take loc data, loc))
       | None => Done (Ok (data, length data))
       end.

(** The value after the colon; nothing may follow it. *)
Definition unmarshal_meta (params : gostring) (negated : bool) : run (result gerror Predicate) :=
  let params := Trim params [32%Z; 9%Z] in
  let! r := scanLiteral params in
  match r with
  | Err err => Done (Err err)
  | Ok (key, advance) =>
    if gs_eqb key [] then Done (Err (ErrorNew (str "key cannot be empty")))
    else
      let! params := slice_from params advance in
      if HasPrefix params (str ":") then
        let! params := slice_from params 1 in
        let! r := scanLiteral params in
        match r with
        | Err err => Done (Err err)
        | Ok (val, advance) =>
            let! params := slice_from params advance in
            if negb (gs_eqb params []) then
              Done (Err (ErrorNew (str "unexpected extra content")))
            else
              let value := if gs_eqb val [] then None else Some val in
              Done (Ok (PRepoHasMeta key value negated false))
        end
      else Done (Ok (PRepoHasMeta key None negated true))
  end.

Definition unmarshal_kvp (params : gostring) (negated : bool) : run (result gerror Predicate) :=
  let params := Trim params [32%Z; 9%Z] in
  let! r := scanLiteral params in
  match r with
  | Err err => Done (Err err)
  | Ok (key, advance) =>
    let! params := slice_from params advance in
    if negb (HasPrefix params (str ":")) then
      Done (Err (ErrorNew (str "expected params of the form key:value")))
    else
      let! params := slice_from params 1 in
      let! r := scanLiteral params in
      match r with
      | Err err => Done (Err err)
      | Ok (value, advance) =>
          let! params := slice_from params advance in
          if negb (gs_eqb params []) then Done (Err (ErrorNew (str "unexpected extra content")))
          else if gs_eqb key [] then Done (Err (ErrorNew (str "key cannot be empty")))
          else Done (Ok (PRepoHasKVP key value negated))
      end
  end.

Definition nonempty (params what : gostring) (p : Predicate) : result gerror Predicate :=
  if gs_eqb params [] then Err (ErrorNew (what ++ str " must be non-empty")) else Ok p.

(** The method [Unmarshal] of each type. *)
Definition Unmarshal (k : PredicateKind) (params : gostring) (negated : bool)
    : run (result gerror Predicate) :=
  match k with
  | RepoContainsFilePredicate => unmarshal_contains_file params negated
  | RepoContainsPredicate => unmarshal_contains params negated
  | RepoContainsContentPredicate =>
      Done (unmarshal_regexp (str "contains.content") params (PRepoContainsContent params negated))
  | RepoContainsPathPredicate =>
      Done (unmarshal_regexp (str "contains.path") params (PRepoContainsPath params negated))
  | RepoContainsCommitAfterPredicate => Done (Ok (PRepoContainsCommitAfter params negated))
  | RepoHasDescriptionPredicate => Done (unmarshal_description params negated)
  | RepoHasTagPredicate => Done (nonempty params (str "tag") (PRepoHasTag params negated))
  | RepoHasMetaPredicate => unmarshal_meta params negated
  | RepoHasKVPPredicate => unmarshal_kvp params negated
  | RepoHasKeyPredicate => Done (nonempty params (str "key") (PRepoHasKey params negated))
  | RepoHasTopicPredicate => Done (nonempty params (str "topic") (PRepoHasTopic params negated))
  | FileContainsContentPredicate => Done (unmarshal_file_content params negated)
  | FileHasOwnerPredicate => Done (Ok (PFileHasOwner params negated))
  end.

(** The method [Unmarshal] of [EmptyPredicate]. *)
Definition EmptyPredicate_Unmarshal (_ : gostring) (negated : bool) : option gerror :=
  if negated then Some (NegatedPredicateError (str "empty")) else None.

(** [VisitTypedPredicate] for the type [want]: the callback gets the unmarshalled
    predicates of that type; a predicate that does not unmarshal is a panic. *)
Definition VisitTypedPredicate {S} (want : PredicateKind) (nodes : list Node)
    (f : Predicate -> S -> S) (s : S) : run S :=
  VisitField nodes (Predicate_Field want) (fun value negated annotation (m : run S) =>
    let! s := m in
    if negb (Labels.IsSet (a_Labels annotation) Labels.IsPredicate) then Done s
    else
      let! '(predName, predArgs) := ParseAsPredicate value in
      let! kind := Get DefaultPredicateRegistry (Predicate_Field want) predName in
      if negb (gs_eqb (Predicate_Name kind) (Predicate_Name want)) then Done s
      else
        let! r := Unmarshal want predArgs negated in
        match r with
        | Err _ => Panics "panic(err) in VisitTypedPredicate"
        | Ok newPred => Done (f newPred s)
        end) (Done s).
End Unmarshal.

(** ** Facts *)

Lemma span_name_app name rest :
  forallb name_char name = true ->
  (forall c t, rest = c :: t -> name_char c = false) -> span_name (name ++ rest) = (name, rest).
Proof.
  intros Hn Hr. induction name as [|c name IH]; simpl in *.
  - destruct rest as [|c t]; [done|]. simpl. by rewrite (Hr c t).
  - apply andb_true_iff in Hn as [-> Hn]. by rewrite IH.
Qed.

Lemma span_name_spec s name rest :
  span_name s = (name, rest) -> s = name ++ rest /\ forallb name_char name = true.
Proof.
  revert name rest. induction s as [|c t IH]; intros name rest; simpl; [by intros [= <- <-]|].
  destruct (name_char c) eqn:Hc; [|by intros [= <- <-]].
  destruct (span_name t) as [n r]. destruct (IH n r eq_refl) as [-> Hn].
  intros [= <- <-]. simpl. by rewrite Hc.
Qed.

Lemma removelast_last_app {A} (t : list A) d : last t = Some d -> t = removelast t ++ [d].
Proof.
  intros [t' ->]%last_Some. by rewrite removelast_last.
Qed.

Lemma ParseAsPredicate_spec (value name params : gostring) :
  ParseAsPredicate value = Done (name, params) <->
  value = name ++ str "(" ++ params ++ str ")" /\ name <> [] /\ forallb name_char name = true.
Proof.
  unfold ParseAsPredicate, match_predicate. split.
  - destruct (span_name value) as [[|n ns] rest] eqn:Hs; [done|].
    destruct rest as [|c t]; [done|]. destruct (c =? LPAREN_rune)%Z eqn:Hc; [|done].
    destruct (last t) as [d|] eqn:Hl; [|done]. destruct (d =? RPAREN_rune)%Z eqn:Hd; [|done].
    intros [= <- <-]. apply span_name_spec in Hs as [-> Hn]. apply removelast_last_app in Hl.
    apply Z.eqb_eq in Hc as ->. apply Z.eqb_eq in Hd as ->. split_and!; [|done|done].
    rewrite Hl at 1. done.
  - intros (-> & Hne & Hn).
    change (str "(" ++ params ++ str ")") with (LPAREN_rune :: params ++ [RPAREN_rune]).
    rewrite span_name_app; [|done|].
    + destruct name as [|n ns]; [done|]. by rewrite Z.eqb_refl, last_snoc, removelast_last.
    + intros c t [= <- _]. done.
Qed.
