(* ===== verification/Validate.v ===== *)
(** Validation of queries: [internal/search/query/validate.go], with
    [SelectPathFromString] of [internal/search/filter/select.go],
    [ParseVisibility] of [visibility.go] and [Q.Repositories] of [types.go]. *)
From S2P Require Import Prelude GoStr GoLib Syntax Operators Scan Mapper Partition Parser Transform RepoRevs Predicates.

(** ** Code outside the model *)

(** The language table of [go-enry], [time.ParseDuration] (its result is
    computed in floating point) and [ParseGitDate] (built on [time.Parse] and
    the [naturaldate] package).  Only success matters to validation. *)
Class External := {
  GetLanguageByAlias : gostring -> option gostring;
  ParseDuration : gostring -> option Z;
  ParseGitDate : gostring -> option gerror
}.

(** ** Select paths *)
Inductive object := Obj (children : list (gostring * object)).

(** [nil] objects have no children. *)
Definition nil_object : object := Obj [].
Definition names (l : list string) : list (gostring * object) :=
  map (fun s => (str s, nil_object)) l.

Definition validSelectors : object :=
  Obj [(str "commit", Obj [(str "diff", Obj (names ["added"; "removed"]))]);
       (str "content", nil_object);
       (str "file", Obj (names ["directory"; "path"; "owners"]));
       (str "repo", nil_object);
       (str "symbol", Obj (names
          ["file"; "module"; "namespace"; "package"; "class"; "method"; "property"; "field";
           "constructor"; "enum"; "interface"; "function"; "variable"; "constant"; "string";
           "number"; "boolean"; "array"; "object"; "key"; "null"; "enum-member"; "struct";
           "event"; "operator"; "type-parameter"]))].

Section SelectPath.
Context {U : UnicodeTables}.

Fixpoint select_loop (s : gostring) (fields : list gostring) (cur : object) : option gerror :=
  match fields with
  | [] => None
  | field :: fields =>
      let 'Obj children := cur in
      match assoc field children with
      | None => Some (ErrorNew (str "invalid field " ++ Quote field ++ str " on select path " ++ Quote s))
      | Some child => select_loop s fields child
      end
  end.

Definition SelectPathFromString (s : gostring) : result gerror (list gostring) :=
  let fields := Split s 46%Z in
  match select_loop s fields validSelectors with
  | Some err => Err err
  | None => Ok fields
  end.
End SelectPath.

Definition SelectPath_String (sp : list gostring) : gostring := Join sp (str ".").
Definition SelectPath_Root (sp : list gostring) : gostring := hd [] sp.

(** ** Values *)
Inductive YesNoOnly := Yes | No | Only | Invalid.
#[export] Instance YesNoOnly_eq_dec : EqDecision YesNoOnly.
Proof. solve_decision. Defined.

Definition one_of (s : gostring) (l : list string) : bool := existsb (fun x => gs_eqb s (str x)) l.

Definition parseYesNoOnly (s : gostring) : YesNoOnly :=
  if one_of s ["y"; "Y"; "yes"; "YES"; "Yes"] then Yes
  else if one_of s ["n"; "N"; "no"; "NO"; "No"] then No
  else if one_of s ["o"; "only"; "ONLY"; "Only"] then Only
  else match ParseBool s with
       | Some b => if b then Yes else No
       | None => Invalid
       end.

Inductive RepoVisibility := Any | Private | Public.

Definition IsPatternAtom (b : Basic) : bool :=
  match b_Pattern b with
  | None => true
  | Some (PatternNode p) => negb (pat_Negated p)
  | Some _ => false
  end.

Section Validate.
Context {U : UnicodeTables} {R : Regexp} {X : External}.

Definition ParseVisibility (s : gostring) : RepoVisibility :=
  if gs_eqb (ToLower s) (str "private") then Private
  else if gs_eqb (ToLower s) (str "public") then Public
  else Any.

Definition parseBool (s : gostring) : result gerror bool :=
  if one_of (ToLower s) ["y"; "yes"] then Ok true
  else if one_of (ToLower s) ["n"; "no"] then Ok false
  else match ParseBool s with
       | Some b => Ok b
       | None => Err (ErrorNew (str "invalid boolean " ++ Quote s))
       end.

(** ** Fields *)

(** [satisfies]: the first error of a sequence of checks. *)
Fixpoint satisfies (checks : list (option gerror)) : option gerror :=
  match checks with
  | [] => None
  | Some err :: _ => Some err
  | None :: checks => satisfies checks
  end.

Section Field.
Context (field value : gostring) (negated : bool) (seen : gset gostring).

Definition isNotNegated : option gerror :=
  if negated then Some (ErrorNew (str "field " ++ Quote field ++ str " does not support negation"))
  else None.

Definition isSingular : option gerror :=
  if bool_decide (field ∈ seen) then
    Some (ErrorNew (str "field " ++ Quote field ++ str " may not be used more than once"))
  else None.

Definition isValidRegexp : option gerror :=
  match Compile value with Err err => Some (ErrorNew err) | Ok _ => None end.

Definition isValidRepoRegexp : option gerror :=
  if negated then isValidRegexp
  else match ParseRepositoryRevisions value with Err err => Some err | Ok _ => None end.

Definition isBoolean : option gerror :=
  match parseBool value with Err err => Some err | Ok _ => None end.

Definition isNumber : option gerror :=
  match ParseInt value 32 with
  | ErrRange =>
      Some (ErrorNew (str "field " ++ field ++
                      str " has a value that is out of range, try making it smaller"))
  | ErrSyntax =>
      Some (ErrorNew (str "field " ++ field ++ str " has value " ++ value ++ str ", " ++ value ++
                      str " is not a number"))
  | NumOk count =>
      if (count <=? 0)%Z
      then Some (ErrorNew (str "field " ++ field ++ str " requires a positive number"))
      else None
  end.

Definition isDuration : option gerror :=
  match ParseDuration value with
  | None =>
      Some (ErrorNew (str "invalid value for field 'timeout' (examples: " ++ DQUOTE ++
                      str "timeout:2s" ++ DQUOTE ++ str ", " ++ DQUOTE ++ str "timeout:200ms" ++
                      DQUOTE ++ str ")"))
  | Some _ => None
  end.

Definition isLanguage : option gerror :=
  match GetLanguageByAlias value with
  | None => Some (ErrorNew (str "unknown language: " ++ Quote value))
  | Some _ => None
  end.

Definition isYesNoOnly : option gerror :=
  if bool_decide (parseYesNoOnly value = Invalid) then
    Some (ErrorNew (str "invalid value " ++ Quote value ++ str " for field " ++ Quote field ++
                    str ". Valid values are: yes, only, no"))
  else None.

Definition isUnrecognizedField : option gerror :=
  Some (ErrorNew (str "unrecognized field " ++ Quote field)).

Definition isValidSelect : option gerror :=
  match SelectPathFromString value with Err err => Some err | Ok _ => None end.

Definition isValidGitDate : option gerror := ParseGitDate value.

Definition field_is (f : gostring) : bool := gs_eqb field f.

Definition validateField : option gerror :=
  if field_is FieldDefault then None
  else if field_is FieldCase then satisfies [isSingular; isBoolean; isNotNegated]
  else if field_is FieldRepo then satisfies [isValidRepoRegexp]
  else if field_is FieldContext then satisfies [isSingular; isNotNegated]
  else if field_is FieldFile then satisfies [isValidRegexp]
  else if field_is FieldLang then satisfies [isLanguage]
  else if field_is FieldType then satisfies [isNotNegated]
  else if field_is FieldPatternType || field_is FieldContent || field_is FieldVisibility then
    satisfies [isSingular; isNotNegated]
  else if field_is FieldRepoHasFile then satisfies [isValidRegexp]
  else if field_is FieldRepoHasCommitAfter then satisfies [isSingular; isNotNegated]
  else if field_is FieldBefore || field_is FieldAfter then satisfies [isNotNegated; isValidGitDate]
  else if field_is FieldAuthor || field_is FieldCommitter || field_is FieldMessage then satisfies [isValidRegexp]
  else if field_is FieldIndex || field_is FieldFork || field_is FieldArchived then
    satisfies [isSingular; isNotNegated; isYesNoOnly]
  else if field_is FieldCount then satisfies [isSingular; isNumber; isNotNegated]
  else if field_is FieldCombyRule then satisfies [isSingular; isNotNegated]
  else if field_is FieldTimeout then satisfies [isSingular; isNotNegated; isDuration]
  else if field_is FieldRev then satisfies [isSingular; isNotNegated]
  else if field_is FieldSelect then satisfies [isSingular; isNotNegated; isValidSelect]
  else isUnrecognizedField.
End Field.

(** ** Checks on the whole query *)

Definition err_rev_and_at : gerror :=
  ErrorNew (str "invalid syntax. You specified both @ and rev: for a repo: filter and I don't know how to interpret this. Remove either @ or rev: and try again").
Definition err_rev_without_repo : gerror :=
  ErrorNew (str "invalid syntax. The query contains `rev:` without `repo:`. Add a `repo:` filter and try again").
Definition err_rev_empty_repo : gerror :=
  ErrorNew (str "invalid syntax. The query contains `rev:` but `repo:` is empty. Add a non-empty `repo:` filter and try again").

Record repo_seen := MkRepoSeen
  { seenRepoWithCommit : bool; seenRepo : bool; seenEmptyRepo : bool }.

Definition is_rev_param (node : Node) : bool :=
  match node with ParamNode n => gs_eqb (par_Field n) FieldRev | _ => false end.

Definition validateRepoRevPair (nodes : list Node) : option gerror :=
  let s :=
    VisitField nodes FieldRepo (fun value negated _ s =>
      MkRepoSeen (if negb negated && ContainsRune value 64%Z then true else seenRepoWithCommit s)
                 true (gs_eqb value []))
      (MkRepoSeen false false false) in
  let revSpecified := Exists nodes is_rev_param in
  if seenRepoWithCommit s && revSpecified then Some err_rev_and_at
  else if negb (seenRepo s) && revSpecified then Some err_rev_without_repo
  else if seenEmptyRepo s && revSpecified then Some err_rev_empty_repo
  else None.

Definition validateCommitParameters (nodes : list Node) : option gerror :=
  let '(seenCommitParam, typeCommitExists) :=
    VisitParameter nodes (fun field value _ _ '(seen, exists_) =>
      (if gs_eqb field FieldAuthor || gs_eqb field FieldBefore || gs_eqb field FieldAfter ||
          gs_eqb field FieldMessage then field else seen,
       if gs_eqb field FieldType && (gs_eqb value (str "commit") || gs_eqb value (str "diff"))
       then true else exists_))
      ([], false) in
  if negb (gs_eqb seenCommitParam []) && negb typeCommitExists then
    Some (ErrorNew (str "your query contains the field '" ++ seenCommitParam ++
                    str "', which requires type:commit or type:diff in the query"))
  else None.

Record structural_seen := MkStructuralSeen
  { seenStructural : bool; seenType : bool; typeDiff : bool }.

Definition structural_callback (node : Node) (s : structural_seen) : bool * structural_seen :=
  let s :=
    match node with
    | PatternNode p =>
        if Labels.IsSet (a_Labels (pat_Annotation p)) Labels.Structural
        then MkStructuralSeen true (seenType s) (typeDiff s) else s
    | ParamNode p =>
        if gs_eqb (par_Field p) FieldType
        then MkStructuralSeen (seenStructural s) true (gs_eqb (par_Value p) (str "diff")) else s
    | Operator _ _ _ => s
    end in
  (seenStructural s && seenType s, s).

Definition err_structural_type (diff : bool) : gerror :=
  ErrorNew (str "this structural search query specifies `type:` and is not supported. Structural search syntax only applies to searching file contents" ++
            if diff then str " and is not currently supported for diff searches" else []).

Definition validateTypeStructural (nodes : list Node) : option gerror :=
  let '(invalid, s) := ExistsS structural_callback nodes (MkStructuralSeen false false false) in
  if invalid then Some (err_structural_type (typeDiff s)) else None.

(** [Q.Repositories]: a positive filter that is not a valid expression is a
    panic. *)
Definition Repositories (q : list Node) : run (list ParsedRepoFilter * list gostring) :=
  VisitField q FieldRepo (fun value negated a m =>
    let! '(repos, negatedRepos) := m in
    if Labels.IsSet (a_Labels a) Labels.IsPredicate then Done (repos, negatedRepos)
    else if negated then Done (repos, negatedRepos ++ [value])
    else match ParseRepositoryRevisions value with
         | Err _ => Panics "repo field is an invalid regex"
         | Ok repoFilter => Done (repos ++ [repoFilter], negatedRepos)
         end) (Done ([], [])).

Definition ContainsRefGlobs (q : list Node) : run bool :=
  let! '(repoFilters, _) := Repositories q in
  Done (existsb (fun r => existsb HasRefGlob (Revs r)) repoFilters).

Definition validateRefGlobs (nodes : list Node) : run (option gerror) :=
  let! globs := ContainsRefGlobs nodes in
  Done (if negb globs then None
        else
          let indexValue := VisitField nodes FieldIndex (fun value _ _ _ => value) [] in
          if bool_decide (parseYesNoOnly indexValue = Only) then
            Some (ErrorNew (str "invalid index:" ++ indexValue ++
                            str " (revisions with glob pattern cannot be resolved for indexed searches)"))
          else None).

Definition validatePredicate (field value : gostring) (negated : bool) : run (option gerror) :=
  let! '(name, params) := ParseAsPredicate value in
  let! predicate := Get DefaultPredicateRegistry field name in
  let! r := Unmarshal predicate params negated in
  Done match r with
       | Err err => Some (ErrorNew (str "invalid predicate value: " ++ Error_string err))
       | Ok _ => None
       end.

Definition validateRepoHasFile (nodes : list Node) : option gerror :=
  let '(seenRepoHasFile, seenTypeSymbol) :=
    VisitParameter nodes (fun field value _ _ '(seenFile, seenSymbol) =>
      (if gs_eqb field FieldRepoHasFile then true else seenFile,
       if gs_eqb field FieldType && EqualFold value (str "symbol") then true else seenSymbol))
      (false, false) in
  if seenRepoHasFile && seenTypeSymbol then
    Some (ErrorNew (str "repohasfile is not compatible for type:symbol. Subscribe to https://github.com/sourcegraph/sourcegraph/issues/4610 for updates"))
  else None.

(** The callback of [validateParameters]: after the first error nothing is
    looked at. *)
Definition parameter_callback (field value : gostring) (negated : bool) (annotation : Annotation)
    (m : run (option gerror * gset gostring)) : run (option gerror * gset gostring) :=
  let! '(err, seen) := m in
  match err with
  | Some _ => Done (err, seen)
  | None =>
      let! err :=
        if Labels.IsSet (a_Labels annotation) Labels.IsPredicate
        then validatePredicate field value negated
        else Done (validateField field value negated seen) in
      Done (err, {[ field ]} ∪ seen)
  end.

Definition validateParameters (nodes : list Node) : run (option gerror) :=
  let! '(err, _) := VisitParameter nodes parameter_callback (Done (None, ∅)) in Done err.

Definition err_negated_structural : gerror :=
  ErrorNew (str "the query contains a negated search pattern. Structural search does not support negated search patterns at the moment").

Definition validatePattern (nodes : list Node) : option gerror :=
  VisitPattern nodes (fun value negated annotation err =>
    match err with
    | Some _ => err
    | None =>
        let err :=
          if Labels.IsSet (a_Labels annotation) Labels.Regexp
          then match Compile value with Err e => Some (ErrorNew e) | Ok _ => None end
          else None in
        if Labels.IsSet (a_Labels annotation) Labels.Structural && negated
        then Some err_negated_structural else err
    end) None.

(** The checks in order; the first error is the result. *)
Definition validate (nodes : list Node) : run (option gerror) :=
  let! err := validateParameters nodes in
  match err with
  | Some err => Done (Some err)
  | None =>
    match satisfies [validatePattern nodes; validateRepoRevPair nodes; validateRepoHasFile nodes;
                     validateCommitParameters nodes; validateTypeStructural nodes] with
    | Some err => Done (Some err)
    | None => validateRefGlobs nodes
    end
  end.
End Validate.
