(* ===== verification/Printer.v ===== *)
(** Printing queries: [internal/search/query/printer.go], with [OmitField] and
    [AddRegexpField] of [transformer.go] and the label strings of [labels.go]. *)
From S2P Require Import Prelude GoStr GoLib Syntax Operators Scan Mapper Partition Transform RepoRevs.

Section Printer.
Context {U : UnicodeTables}.

(** ** Query strings *)

(** The [Pattern] case of [stringHumanPattern]. *)
Definition human_pattern (n : Pattern) : gostring :=
  let has l := Labels.IsSet (a_Labels (pat_Annotation n)) l in
  let v := pat_Value n in
  let v := if has Labels.Quoted then Quote v else v in
  let v := if has Labels.Regexp then str "/" ++ v ++ str "/" else v in
  let negate s := if pat_Negated n then str "-" ++ s else s in
  let balanced_ok := match ScanBalancedPattern v with Some _ => true | None => false end in
  if negb balanced_ok && negb (has Labels.IsAlias) && has Labels.Literal
  then negate (str "content:" ++ Quote v)
  else if has Labels.IsAlias then negate (str "content:" ++ v)
  else if pat_Negated n then str "(NOT " ++ v ++ str ")"
  else v.

(** Parameters are skipped: [stringHumanPattern] is called on patterns. *)
Fixpoint human_expression (node : Node) : gostring :=
  match node with
  | PatternNode n => human_pattern n
  | Operator kind operands _ =>
      let separator :=
        match kind with Or => str " OR " | And => str " AND " | Concat => [] end in
      str "(" ++ Join (map human_expression operands) separator ++ str ")"
  | ParamNode _ => []
  end.

Definition stringHumanPattern (nodes : list Node) : gostring := concat (map human_expression nodes).

(** The field under which an aliased parameter is printed. *)
Definition human_field (p : Param) : gostring :=
  if Labels.IsSet (a_Labels (par_Annotation p)) Labels.IsAlias then
    if gs_eqb (par_Field p) FieldRepo then str "r"
    else if gs_eqb (par_Field p) FieldAfter then str "since"
    else if gs_eqb (par_Field p) FieldBefore then str "until"
    else if gs_eqb (par_Field p) FieldRev then str "revision"
    else par_Field p
  else par_Field p.

Definition human_parameter (p : Param) : gostring :=
  let v := if Labels.IsSet (a_Labels (par_Annotation p)) Labels.Quoted
           then Quote (par_Value p) else par_Value p in
  (if par_Negated p then str "-" else []) ++ human_field p ++ str ":" ++ v.

Definition stringHumanParameters (parameters : list Param) : gostring :=
  Join (map human_parameter parameters) (str " ").

(** What [StringHuman] prints for a partitioned query. *)
Definition human_partition (parameters : list Param) (pattern : option Node) : gostring :=
  match pattern with
  | None => stringHumanParameters parameters
  | Some pattern =>
      match parameters with
      | [] => stringHumanPattern [pattern]
      | _ => stringHumanParameters parameters ++ str " " ++ stringHumanPattern [pattern]
      end
  end.

Definition human_operator (kind : OperatorKind) (s : list gostring) : gostring :=
  match kind with
  | Or => str "(" ++ Join s (str " OR ") ++ str ")"
  | And => str "(" ++ Join s (str " AND ") ++ str ")"
  | Concat => []
  end.

(** [StringHuman([]Node{node})]. *)
Fixpoint human_node (node : Node) : gostring :=
  match PartitionSearchPattern [node] with
  | Ok (parameters, pattern) => human_partition parameters pattern
  | Err _ =>
      match node with
      | Operator kind operands _ => human_operator kind (map human_node operands)
      | _ => []
      end
  end.

Definition StringHuman (nodes : list Node) : gostring :=
  match PartitionSearchPattern nodes with
  | Ok (parameters, pattern) => human_partition parameters pattern
  | Err _ =>
      concat (map (fun node =>
        match node with
        | Operator kind operands _ => human_operator kind (map human_node operands)
        | _ => []
        end) nodes)
  end.

(** ** Rewriting a query string *)

Definition OmitField (q : list Node) (field : gostring) : gostring :=
  StringHuman (MapField q field (fun _ _ _ => None)).

(** The callback of [AddRegexpField] sets the captured variable [modified]. *)
Definition add_regexp_callback (field pattern gotField value : gostring) (negated : bool)
    (annotation : Annotation) (modified : bool) : option Node * bool :=
  if gs_eqb field gotField && Contains pattern value
  then (Some (ParamNode (MkParam gotField pattern negated annotation)), true)
  else (Some (ParamNode (MkParam gotField value negated annotation)), modified).

Definition AddRegexpField (q : list Node) (field pattern : gostring) : gostring :=
  let '(q, modified) := MapParameterS q (add_regexp_callback field pattern) false in
  let q :=
    if negb modified
    then NewOperator (q ++ [ParamNode (MkParam field pattern false zeroAnnotation)]) And
    else q in
  StringHuman q.
End Printer.

(** ** JSON *)

(** Go iterates over the map [allLabels] in an unspecified order and sorts the
    names; the order of this list does not matter either. *)
Definition allLabels : list (Z * gostring) :=
  [(Labels.None_, str "None"); (Labels.Literal, str "Literal"); (Labels.Regexp, str "Regexp");
   (Labels.Quoted, str "Quoted");
   (Labels.HeuristicParensAsPatterns, str "HeuristicParensAsPatterns");
   (Labels.HeuristicDanglingParens, str "HeuristicDanglingParens");
   (Labels.HeuristicHoisted, str "HeuristicHoisted"); (Labels.Structural, str "Structural");
   (Labels.IsPredicate, str "IsPredicate"); (Labels.IsAlias, str "IsAlias")].

Fixpoint insert_string (x : gostring) (l : list gostring) : list gostring :=
  match l with
  | [] => [x]
  | y :: l => if gs_ltb y x then y :: insert_string x l else x :: y :: l
  end.

(** [sort.Strings]. *)
Definition Strings (l : list gostring) : list gostring := fold_right insert_string [] l.

Definition labels_String (l : Z) : list gostring :=
  if (l =? 0)%Z then [str "None"]
  else Strings (map snd (List.filter (fun kv => Labels.IsSet l (fst kv)) allLabels)).

(** The values that [nodeToJSON] hands to [json.Marshal]. *)
Inductive json :=
| JString (s : gostring)
| JBool (b : bool)
| JInt (n : Z)
| JArray (l : list json)
| JObject (fields : list (string * json)).

Definition position_json (p : position) : json :=
  JObject [("line", JInt (Line p)); ("column", JInt (Column p))]%string.
Definition range_json (r : Range) : json :=
  JObject [("start", position_json (Start r)); ("end", position_json (End_ r))]%string.

Definition annotation_json (a : Annotation) : list (string * json) :=
  [("labels", JArray (map JString (labels_String (a_Labels a)))); ("range", range_json (a_Range a))]%string.

Fixpoint nodeToJSON (node : Node) : json :=
  match node with
  | Operator kind operands _ =>
      let jsons := JArray (map nodeToJSON operands) in
      match kind with
      | And => JObject [("and", jsons)]%string
      | Or => JObject [("or", jsons)]%string
      | Concat => JObject [("concat", jsons)]%string
      end
  | ParamNode n =>
      JObject ([("field", JString (par_Field n)); ("value", JString (par_Value n));
                ("negated", JBool (par_Negated n))]%string ++ annotation_json (par_Annotation n))
  | PatternNode n =>
      JObject ([("value", JString (pat_Value n)); ("negated", JBool (pat_Negated n))]%string ++
               annotation_json (pat_Annotation n))
  end.

Definition nodesToJSON (q : list Node) : list json := map nodeToJSON q.
