(* ===== verification/Types.v ===== *)
(** Queries, basic queries and parameter lists as other packages use them:
    the methods of [internal/search/query/types.go], with [UnionRegExps] of
    [helpers.go] and the default of [internal/search/limits]. *)
From S2P Require Import Prelude GoStr GoLib Syntax Operators Scan Mapper Partition Parser Transform RepoRevs Predicates Validate Printer.

Definition DefaultMaxSearchResults : Z := 30.

Definition SearchType_String (s : SearchType) : gostring :=
  match s with
  | SearchTypeStandard => str "standard"
  | SearchTypeRegex => str "regex"
  | SearchTypeLiteral => str "literal"
  | SearchTypeStructural => str "structural"
  | SearchTypeLucky => str "lucky"
  | SearchTypeKeyword => str "keyword"
  end.

Definition UnionRegExps (values : list gostring) : gostring :=
  match values with
  | [] => []
  | [v] => v
  | _ => str "(?:" ++ Join values (str ")|(?:") ++ str ")"
  end.

(** ** Queries *)
Section Q.
Context {U : UnicodeTables} {R : Regexp}.

Definition StringValues (q : list Node) (field : gostring) : list gostring * list gostring :=
  VisitField q field (fun visitedValue negated _ '(values, negatedValues) =>
    if negated then (values, negatedValues ++ [visitedValue])
    else (values ++ [visitedValue], negatedValues)) ([], []).

Definition StringValue (q : list Node) (field : gostring) : gostring * gostring :=
  VisitField q field (fun visitedValue negated _ '(value, negatedValue) =>
    if negated then (value, visitedValue) else (visitedValue, negatedValue)) ([], []).

Definition Q_Exists (q : list Node) (field : gostring) : bool :=
  VisitField q field (fun _ _ _ _ => true) false.

Definition BoolValue (q : list Node) (field : gostring) : bool :=
  VisitField q field (fun value _ _ _ =>
    match parseBool value with Ok b => b | Err _ => false end) false.

(** A [count:] that is not a number is a panic. *)
Definition Count (q : list Node) : run (option Z) :=
  VisitField q FieldCount (fun value _ _ m =>
    let! _ := m in
    match Atoi value with
    | NumOk c => Done (Some c)
    | _ => Panics "Value for count cannot be parsed as an int"
    end) (Done None).

Definition yesNoOnlyValue (q : list Node) (field : gostring) : run (option YesNoOnly) :=
  VisitField q field (fun value _ _ m =>
    let! _ := m in
    match parseYesNoOnly value with
    | Invalid => Panics "Invalid value for field"
    | yno => Done (Some yno)
    end) (Done None).

Definition Archived (q : list Node) : run (option YesNoOnly) := yesNoOnlyValue q FieldArchived.
Definition Fork (q : list Node) : run (option YesNoOnly) := yesNoOnlyValue q FieldFork.
Definition IsCaseSensitive (q : list Node) : bool := BoolValue q (str "case").

Definition Dependencies (q : list Node) : run (list gostring) :=
  VisitPredicate q (fun field name value _ dependencies =>
    if gs_eqb field FieldRepo && (gs_eqb name (str "dependencies") || gs_eqb name (str "deps"))
    then dependencies ++ [value] else dependencies) [].

Definition Dependents (q : list Node) : run (list gostring) :=
  VisitPredicate q (fun field name value _ dependents =>
    if gs_eqb field FieldRepo && (gs_eqb name (str "dependents") || gs_eqb name (str "revdeps"))
    then dependents ++ [value] else dependents) [].

Definition or_default (count : option Z) (defaultLimit : Z) : Z :=
  match count with
  | Some count => count
  | None => if negb (defaultLimit =? 0)%Z then defaultLimit else DefaultMaxSearchResults
  end.

(** [None] is the nil query. *)
Definition MaxResults (q : option (list Node)) (defaultLimit : Z) : run Z :=
  match q with
  | None => Done 0%Z
  | Some q => let! count := Count q in Done (or_default count defaultLimit)
  end.
End Q.

(** ** Basic queries and plans *)
Section Basic.
Context {U : UnicodeTables} {R : Regexp}.

Definition ToParseTree (b : Basic) : list Node :=
  let nodes := toNodes (b_Parameters b) in
  match b_Pattern b with
  | None => nodes
  | Some pattern =>
      let nodes := nodes ++ [pattern] in
      match Hoist nodes with
      | Ok hoisted => hoisted
      | Err _ => nodes
      end
  end.

Definition ToQ (p : list Basic) : list Node :=
  NewOperator (concat (map (fun basic => NewOperator (ToParseTree basic) And) p)) Or.

Definition Basic_MapPattern (b : Basic) (pattern : option Node) : Basic :=
  MkBasic (b_Parameters b) pattern.
Definition Basic_MapParameters (b : Basic) (parameters : list Param) : Basic :=
  MkBasic parameters (b_Pattern b).

Definition MapCount (b : Basic) (count : Z) : run Basic :=
  let parameters := MapParameter (toNodes (b_Parameters b)) (fun field value negated annotation =>
    let value := if gs_eqb field (str "count") then FormatInt count else value in
    Some (ParamNode (MkParam field value negated annotation))) in
  let! parameters := toParameters parameters in
  Done (MkBasic parameters (b_Pattern b)).

Definition Basic_toString (b : Basic) (marshal : list Node -> gostring) : gostring :=
  let param := marshal (toNodes (b_Parameters b)) in
  match b_Pattern b with
  | Some p => param ++ str " " ++ marshal [p]
  | None => param
  end.
Definition Basic_String (b : Basic) : gostring := Basic_toString b toString.
Definition Basic_StringHuman (b : Basic) : gostring := Basic_toString b StringHuman.

Definition HasPatternLabel (b : Basic) (label : Z) : bool :=
  match b_Pattern b with
  | Some (PatternNode p) => Labels.IsSet (a_Labels (pat_Annotation p)) label
  | _ => false
  end.
Definition IsLiteral (b : Basic) : bool := HasPatternLabel b Labels.Literal.
Definition IsRegexp (b : Basic) : bool := HasPatternLabel b Labels.Regexp.
Definition IsStructural (b : Basic) : bool := HasPatternLabel b Labels.Structural.

Definition PatternString (b : Basic) : gostring :=
  match b_Pattern b with
  | Some (PatternNode p) => if IsLiteral b then QuoteMeta (pat_Value p) else pat_Value p
  | _ => []
  end.

Definition IsEmptyPattern (b : Basic) : bool :=
  match b_Pattern b with
  | None => true
  | Some (PatternNode p) => gs_eqb (pat_Value p) []
  | Some _ => false
  end.

Record Flat := MkFlat { f_Parameters : list Param; f_Pattern : option Pattern }.
Definition ToBasic (f : Flat) : Basic := MkBasic (f_Parameters f) (PatternNode <$> f_Pattern f).
End Basic.

(** ** Parameters *)

Record RepoHasFileContentArgs := MkFileContent
  { rfc_Path : gostring; rfc_Content : gostring; rfc_Negated : bool }.
Record RepoHasCommitAfterArgs := MkCommitAfter { ca_TimeRef : gostring; ca_Negated : bool }.
Record RepoKVPFilter := MkKVP
  { kvp_Key : gostring; kvp_Value : option gostring; kvp_Negated : bool; kvp_KeyOnly : bool }.

Section Parameters.
Context {U : UnicodeTables} {R : Regexp} {X : External}.

Definition IncludeExcludeValues (p : list Param) (field : gostring)
    : list gostring * list gostring :=
  VisitField (toNodes p) field (fun v negated ann '(include, exclude) =>
    if Labels.IsSet (a_Labels ann) Labels.IsPredicate then (include, exclude)
    else if negated then (include, exclude ++ [v])
    else (include ++ [v], exclude)) ([], []).

(** Callbacks of [VisitTypedPredicate] are called on values of one type; the
    other constructors do not reach them. *)
Definition RepoHasFileContent (p : list Param) : run (list RepoHasFileContentArgs) :=
  let nodes := toNodes p in
  let res := VisitField nodes FieldRepoHasFile (fun v negated _ res =>
    res ++ [MkFileContent v [] negated]) [] in
  let! res := VisitTypedPredicate RepoContainsPathPredicate nodes (fun pred res =>
    match pred with
    | PRepoContainsPath pattern negated => res ++ [MkFileContent pattern [] negated]
    | _ => res end) res in
  let! res := VisitTypedPredicate RepoContainsContentPredicate nodes (fun pred res =>
    match pred with
    | PRepoContainsContent pattern negated => res ++ [MkFileContent [] pattern negated]
    | _ => res end) res in
  let! res := VisitTypedPredicate RepoContainsFilePredicate nodes (fun pred res =>
    match pred with
    | PRepoContainsFile path content negated => res ++ [MkFileContent path content negated]
    | _ => res end) res in
  VisitTypedPredicate RepoContainsPredicate nodes (fun pred res =>
    match pred with
    | PRepoContains file content negated => res ++ [MkFileContent file content negated]
    | _ => res end) res.

Definition FileContainsContent (p : list Param) : run (list gostring) :=
  VisitTypedPredicate FileContainsContentPredicate (toNodes p) (fun pred include =>
    match pred with PFileContainsContent pattern => include ++ [pattern] | _ => include end) [].

(** [FindParameter] calls its callback on the first parameter of the field. *)
Fixpoint FindParameter {S} (p : list Param) (field : gostring)
    (f : gostring -> bool -> Annotation -> S -> S) (s : S) : S :=
  match p with
  | [] => s
  | parameter :: p =>
      if gs_eqb (par_Field parameter) field
      then f (par_Value parameter) (par_Negated parameter) (par_Annotation parameter) s
      else FindParameter p field f s
  end.

Definition FindValue (p : list Param) (field : gostring) : gostring :=
  FindParameter p field (fun v _ _ _ => v) [].

Fixpoint Parameters_VisitParameter {S} (p : list Param) (field : gostring)
    (f : gostring -> bool -> Annotation -> S -> S) (s : S) : S :=
  match p with
  | [] => s
  | parameter :: p =>
      Parameters_VisitParameter p field f
        (if gs_eqb (par_Field parameter) field
         then f (par_Value parameter) (par_Negated parameter) (par_Annotation parameter) s
         else s)
  end.

Definition RepoContainsCommitAfter (p : list Param) : run (option RepoHasCommitAfterArgs) :=
  let res := FindParameter p FieldRepoHasCommitAfter (fun value negated _ _ =>
    Some (MkCommitAfter value negated)) None in
  VisitTypedPredicate RepoContainsCommitAfterPredicate (toNodes p) (fun pred res =>
    match pred with
    | PRepoContainsCommitAfter timeRef negated => Some (MkCommitAfter timeRef negated)
    | _ => res end) res.

(** The filter that a predicate on key-value pairs stands for. *)
Definition kvp_filter (pred : Predicate) : option RepoKVPFilter :=
  match pred with
  | PRepoHasMeta key value negated keyOnly => Some (MkKVP key value negated keyOnly)
  | PRepoHasKVP key value negated => Some (MkKVP key (Some value) negated false)
  | PRepoHasTag key negated => Some (MkKVP key None negated false)
  | PRepoHasKey key negated => Some (MkKVP key None negated true)
  | _ => None
  end.
Definition add_kvp (pred : Predicate) (res : list RepoKVPFilter) : list RepoKVPFilter :=
  res ++ option_list (kvp_filter pred).

Definition RepoHasKVPs (p : list Param) : run (list RepoKVPFilter) :=
  let! res := VisitTypedPredicate RepoHasMetaPredicate (toNodes p) add_kvp [] in
  let! res := VisitTypedPredicate RepoHasKVPPredicate (toNodes p) add_kvp res in
  let! res := VisitTypedPredicate RepoHasTagPredicate (toNodes p) add_kvp res in
  VisitTypedPredicate RepoHasKeyPredicate (toNodes p) add_kvp res.

Definition RepoHasTopics (p : list Param) : run (list Predicate) :=
  VisitTypedPredicate RepoHasTopicPredicate (toNodes p) (fun pred res => res ++ [pred]) [].

Definition FileHasOwner (p : list Param) : run (list gostring * list gostring) :=
  VisitTypedPredicate FileHasOwnerPredicate (toNodes p) (fun pred '(include, exclude) =>
    match pred with
    | PFileHasOwner owner negated =>
        if negated then (include, exclude ++ [owner]) else (include ++ [owner], exclude)
    | _ => (include, exclude) end) ([], []).

Definition Parameters_Exists (p : list Param) (field : gostring) : bool :=
  VisitField (toNodes p) field (fun _ _ _ _ => true) false.

Definition RepoHasDescription (p : list Param) : run (list gostring) :=
  VisitTypedPredicate RepoHasDescriptionPredicate (toNodes p) (fun pred descriptionPatterns =>
    match pred with
    | PRepoHasDescription pattern =>
        descriptionPatterns ++
        [str "(?:" ++ Join (Split pattern 32%Z) (str ").*?(?:") ++ str ")"]
    | _ => descriptionPatterns end) [].

Definition Parameters_Count (p : list Param) : run (option Z) :=
  VisitField (toNodes p) FieldCount (fun value _ _ m =>
    let! _ := m in
    match Atoi value with
    | NumOk c => Done (Some c)
    | _ => Panics "Value for count cannot be parsed as an int"
    end) (Done None).

Definition Parameters_MaxResults (p : list Param) (defaultLimit : Z) : run Z :=
  let! count := Parameters_Count p in Done (or_default count defaultLimit).

Definition GetTimeout (p : list Param) : run (option Z) :=
  VisitField (toNodes p) FieldTimeout (fun value _ _ m =>
    let! _ := m in
    match ParseDuration value with
    | Some t => Done (Some t)
    | None => Panics "Value for timeout cannot be parsed as an duration"
    end) (Done None).

Definition boolValue (p : list Param) (field : gostring) : bool :=
  VisitField (toNodes p) field (fun value _ _ _ =>
    match parseBool value with Ok b => b | Err _ => false end) false.
Definition Parameters_IsCaseSensitive (p : list Param) : bool := boolValue p FieldCase.

Definition Parameters_yesNoOnlyValue (p : list Param) (field : gostring) : run (option YesNoOnly) :=
  VisitField (toNodes p) field (fun value _ _ m =>
    let! _ := m in
    match parseYesNoOnly value with
    | Invalid => Panics "Invalid value for field"
    | yno => Done (Some yno)
    end) (Done None).

Definition Parameters_Index (p : list Param) : run YesNoOnly :=
  let! v := Parameters_yesNoOnlyValue p FieldIndex in
  Done match v with None => Yes | Some v => v end.
Definition Parameters_Fork (p : list Param) : run (option YesNoOnly) :=
  Parameters_yesNoOnlyValue p FieldFork.
Definition Parameters_Archived (p : list Param) : run (option YesNoOnly) :=
  Parameters_yesNoOnlyValue p FieldArchived.

Definition Parameters_Repositories (p : list Param)
    : run (list ParsedRepoFilter * list gostring) :=
  VisitField (toNodes p) FieldRepo (fun value negated a m =>
    let! '(repos, negatedRepos) := m in
    if Labels.IsSet (a_Labels a) Labels.IsPredicate then Done (repos, negatedRepos)
    else if negated then Done (repos, negatedRepos ++ [value])
    else match ParseRepositoryRevisions value with
         | Err _ => Panics "repo field is an invalid regex"
         | Ok repoFilter => Done (repos ++ [repoFilter], negatedRepos)
         end) (Done ([], [])).

Definition Visibility (p : list Param) : RepoVisibility :=
  ParseVisibility (FindValue p FieldVisibility).
End Parameters.
