(* ===== verification/Pipeline.v ===== *)
(** The query pipeline of [internal/search/query/query.go]: steps, passes,
    search contexts, plan validation, and the entry points of [parser.go] that
    run it.

    A step returns nodes and an error; every caller drops the nodes when there
    is an error, so a step returns one or the other here.  Passes can panic
    ([substituteConcat] indexes operands), so they are computations too. *)
From S2P Require Import Prelude GoStr GoLib Syntax Operators Scan Mapper Partition Parser Transform RepoRevs Predicates Validate Printer Types.

Definition step := list Node -> run (result (list gerror) (list Node)).
Definition pass := list Node -> run (list Node).

Fixpoint Sequence (steps : list step) : step := fun nodes =>
  match steps with
  | [] => Done (Ok nodes)
  | s :: steps =>
      let! r := s nodes in
      match r with
      | Err err => Done (Err err)
      | Ok nodes => Sequence steps nodes
      end
  end.

Fixpoint run_passes (passes : list pass) (nodes : list Node) : run (list Node) :=
  match passes with
  | [] => Done nodes
  | p :: passes => let! nodes := p nodes in run_passes passes nodes
  end.

Definition succeeds (passes : list pass) : step := fun nodes =>
  let! nodes := run_passes passes nodes in Done (Ok nodes).

Definition identity : step := fun nodes => Done (Ok nodes).

Definition With (enabled : bool) (s : step) : step := if negb enabled then identity else s.

(** A pass that is a pure function. *)
Definition pure (f : list Node -> list Node) : pass := fun nodes => Done (f nodes).

Section Pipeline.
Context {U : UnicodeTables} {R : Regexp} {X : External}.

Definition For (searchType : SearchType) : step :=
  let processType :=
    match searchType with
    | SearchTypeStandard | SearchTypeLucky | SearchTypeKeyword =>
        succeeds [substituteConcat standard]
    | SearchTypeLiteral => succeeds [substituteConcat space]
    | SearchTypeRegex => succeeds [pure escapeParensHeuristic; substituteConcat fuzzyRegexp]
    | SearchTypeStructural =>
        succeeds [pure labelStructural; pure ellipsesForHoles; substituteConcat space]
    end in
  let normalize :=
    succeeds [pure LowercaseFieldNames; pure (SubstituteAliases searchType);
              pure SubstituteCountAll] in
  Sequence [normalize; processType].

Definition Init (in_ : gostring) (searchType : SearchType) : step :=
  let parser : step := fun _ =>
    let! r := Parse in_ searchType in
    Done match r with Err err => Err [err] | Ok nodes => Ok nodes end in
  Sequence [parser; For searchType].

Definition InitLiteral (in_ : gostring) : step := Init in_ SearchTypeLiteral.
Definition InitRegexp (in_ : gostring) : step := Init in_ SearchTypeRegex.
Definition InitStructural (in_ : gostring) : step := Init in_ SearchTypeStructural.

Definition Run (s : step) : run (result (list gerror) (list Node)) := s [].

Definition ParseSearchType (in_ : gostring) (searchType : SearchType) := Run (Init in_ searchType).
Definition ParseStandard (in_ : gostring) := Run (Init in_ SearchTypeStandard).
Definition ParseLiteral (in_ : gostring) := Run (Init in_ SearchTypeLiteral).
Definition ParseRegexp (in_ : gostring) := Run (Init in_ SearchTypeRegex).

(** ** Search contexts *)
Section SearchContexts.

(** The lookup of a context's query string, given by the caller. *)
Context (lookupQueryString : gostring -> result gerror gostring).

(** The callback of [SubstituteSearchContexts]; the state is the captured
    [errs], a list for the [MultiError] that [errors.Append] builds. *)
Definition context_callback (value : gostring) (negated : bool) (ann : Annotation)
    (m : run (list gerror)) : option Node * run (list gerror) :=
  match m with
  | Done errs =>
      match lookupQueryString value with
      | Err err => (None, Done (errs ++ [err]))
      | Ok queryString =>
          if gs_eqb queryString [] then
            (Some (ParamNode (MkParam FieldContext value negated ann)), m)
          else match ParseRegexp queryString with
               | Done (Err err) => (None, Done (errs ++ err))
               | Done (Ok query) => (Some (Operator And query zeroAnnotation), m)
               | Panics w => (None, Panics w)
               | OutOfFuel => (None, OutOfFuel)
               end
      end
  | _ => (None, m)
  end.

Definition SubstituteSearchContexts : step := fun nodes =>
  let '(substitutedContext, m) := MapFieldS nodes FieldContext context_callback (Done []) in
  let! errs := m in
  Done match errs with [] => Ok substitutedContext | _ => Err errs end.
End SearchContexts.

(** ** Plans *)

Fixpoint ValidatePlan (plan : list Basic) : run (option gerror) :=
  match plan with
  | [] => Done None
  | basic :: plan =>
      let! err := validate (ToParseTree basic) in
      match err with
      | Some err => Done (Some err)
      | None => ValidatePlan plan
      end
  end.

Fixpoint MapPlan (plan : list Basic) (f : Basic -> run Basic) : run (list Basic) :=
  match plan with
  | [] => Done []
  | query :: plan =>
      let! b := f query in
      let! updated := MapPlan plan f in Done (b :: updated)
  end.

Definition Pipeline (steps : list step) : run (result (list gerror) (list Basic)) :=
  let! r := Sequence steps [] in
  match r with
  | Err err => Done (Err err)
  | Ok nodes =>
      let plan := BuildPlan nodes in
      let! err := ValidatePlan plan in
      match err with
      | Some err => Done (Err [err])
      | None => let! plan := MapPlan plan ConcatRevFilters in Done (Ok plan)
      end
  end.

(** ** The search client ([internal/search/client/client.go]) *)

Definition SearchTypeFromString (patternType : gostring) : result gerror SearchType :=
  if gs_eqb patternType (str "standard") then Ok SearchTypeStandard
  else if gs_eqb patternType (str "literal") then Ok SearchTypeLiteral
  else if gs_eqb patternType (str "regexp") then Ok SearchTypeRegex
  else if gs_eqb patternType (str "structural") then Ok SearchTypeStructural
  else if gs_eqb patternType (str "lucky") then Ok SearchTypeLucky
  else if gs_eqb patternType (str "keyword") then Ok SearchTypeKeyword
  else Err (ErrorNew (str "unrecognized patternType " ++ Quote patternType)).

Definition detectSearchType (version : gostring) (patternType : option gostring)
    : result gerror SearchType :=
  match patternType with
  | Some patternType => SearchTypeFromString patternType
  | None =>
      if gs_eqb version (str "V1") then Ok SearchTypeRegex
      else if gs_eqb version (str "V2") then Ok SearchTypeLiteral
      else if gs_eqb version (str "V3") then Ok SearchTypeStandard
      else Err (ErrorNew (str "unrecognized version: want " ++ Quote (str "V1") ++ str ", " ++
                          Quote (str "V2") ++ str ", or " ++ Quote (str "V3") ++ str ", got " ++
                          Quote version))
  end.

Definition overrideSearchType (input : gostring) (searchType : SearchType) : run SearchType :=
  let! r := Parse input SearchTypeLiteral in
  Done match r with
       | Err _ => searchType
       | Ok q =>
           VisitField (LowercaseFieldNames q) (str "patterntype") (fun value _ _ searchType =>
             if gs_eqb value (str "standard") then SearchTypeStandard
             else if gs_eqb value (str "regex") || gs_eqb value (str "regexp") then SearchTypeRegex
             else if gs_eqb value (str "literal") then SearchTypeLiteral
             else if gs_eqb value (str "structural") then SearchTypeStructural
             else if gs_eqb value (str "lucky") then SearchTypeLucky
             else if gs_eqb value (str "keyword") then SearchTypeKeyword
             else searchType) searchType
       end.

(** The pipeline on an input string, with search contexts. *)
Definition process (in_ : gostring) (t : SearchType) (enabled : bool)
    (lookup : gostring -> result gerror gostring) : run (result (list gerror) (list Basic)) :=
  Pipeline [Init in_ t; With enabled (SubstituteSearchContexts lookup)].

(** [searchClient.Plan] up to the inputs the pipeline determines.  The site
    configuration ([conf.StructuralSearchEnabled]), the settings service (an
    error, or whether queries in search contexts are enabled) and the search
    context store are parameters. *)
Definition Plan (StructuralSearchEnabled : bool) (UserFromContext : result gerror bool)
    (ResolveSearchContextSpec : gostring -> result gerror gostring)
    (version : gostring) (patternType : option gostring) (searchQuery : gostring)
    : run (result (list gerror) (SearchType * list Basic)) :=
  match detectSearchType version patternType with
  | Err err => Done (Err [err])
  | Ok searchType =>
      let! searchType := overrideSearchType searchQuery searchType in
      if bool_decide (searchType = SearchTypeStructural) && negb StructuralSearchEnabled
      then Done (Err [ErrorNew (str "Structural search is disabled in the site configuration.")])
      else match UserFromContext with
           | Err err => Done (Err [err])
           | Ok searchContextsQueryEnabled =>
               let! r := process searchQuery searchType searchContextsQueryEnabled
                           ResolveSearchContextSpec in
               match r with
               | Err err => Done (Err err)
               | Ok plan => Done (Ok (searchType, plan))
               end
           end
  end.
End Pipeline.
