(* ===== verification/ValidateFacts.v ===== *)
(** Theorems about validation: it does not panic on parsed queries, a valid
    query uses singular fields at most once, and the accessors that panic on
    bad values do not panic on a valid query. *)
From S2P Require Import Prelude GoStr GoLib Syntax Operators Scan Mapper Partition Parser ParserFacts ParseCorrect Transform ScanCorrect.
From S2P Require Import TransformFacts RepoRevs Predicates Validate Types.

(** Theorems about predicates: [Unmarshal] is total, the registered names have
    the syntax that [ParseAsPredicate] expects, and the deprecated predicates
    on key-value pairs agree with [has.meta]. *)

Import Utf8 Utf8Facts AsciiFacts.

(** A string is a predicate exactly when it is [name(params)] with a
    non-empty name over [a-z] and the dot, and then [ParseAsPredicate] returns
    that name and everything between the outer parentheses. *)
Theorem ParseAsPredicate_iff (value name params : gostring) :
  ParseAsPredicate value = Done (name, params) <->
  value = name ++ str "(" ++ params ++ str ")" /\ name <> [] /\ forallb name_char name = true.
Proof. apply ParseAsPredicate_spec. Qed.

(** ** Totality *)
Section Total.
Context {U : UnicodeTables} {R : Regexp}.

Lemma HasPrefix_byte s c : HasPrefix s [c] = true -> exists t, s = c :: t.
Proof.
  destruct s as [|d s]; simpl; [done|]. rewrite andb_true_r. intros ->%Z.eqb_eq. eauto.
Qed.

#[local] Arguments HasPrefix : simpl never.

Lemma starts_with_byte c t : (c < 0x80)%Z -> starts_with (c :: t) c.
Proof. intros Hc. split; [done|]. by rewrite decode_ascii. Qed.

Lemma Index_bound s sub i : Index s sub = Some i -> (i <= length s)%nat.
Proof.
  revert i. induction s as [|c s IH]; intros i; cbn [Index]; destruct (HasPrefix _ sub).
  all: try (intros [= <-]; simpl; lia); try done.
  destruct (Index s sub) as [j|]; [|done]. intros [= <-]. specialize (IH j eq_refl). simpl. lia.
Qed.

(** [scanLiteral] does not panic and consumes at most its input. *)
Lemma scanLiteral_returns data :
  returns (scanLiteral data)
    (fun r => forall v n, r = Ok (v, n) -> (n <= length data)%nat).
Proof.
  assert (forall c, (c < 0x80)%Z -> HasPrefix data [c] = true ->
    returns (ScanDelimited data true c) (fun r => forall v n, r = Ok (v, n) -> (n <= length data)%nat))
    as Hd.
  { intros c Hc [t ->]%HasPrefix_byte.
    destruct (ScanDelimited_total (c :: t) true c) as (r & Hr & Hb);
      [by apply starts_with_byte|]. exists r. split; [done|]. intros v n Hv. by apply (Hb v). }
  unfold scanLiteral. destruct (HasPrefix data DQUOTE) eqn:Eq; [by apply Hd|].
  destruct (HasPrefix data SQUOTE) eqn:Es; [by apply Hd|].
  destruct (Index data (str ":")) as [i|] eqn:Ei; apply returns_done; intros v n [= <- <-]; [|done].
  by eapply Index_bound.
Qed.

Lemma slice_from_returns s i : (i <= length s)%nat -> returns (slice_from s i) (fun t => t = drop i s).
Proof. intros H. rewrite slice_from_ok by done. by apply returns_done. Qed.

Lemma colon_bound s : HasPrefix s (str ":") = true -> (1 <= length s)%nat.
Proof. intros [t ->]%HasPrefix_byte. simpl. lia. Qed.

Lemma unmarshal_meta_returns params negated : returns (unmarshal_meta params negated) (fun _ => True).
Proof.
  unfold unmarshal_meta. run_step scanLiteral_returns. intros [[key n]|e] Hn; [|by apply returns_done].
  destruct (gs_eqb key []); [by apply returns_done|].
  run_step slice_from_returns; [by eapply Hn|]. intros rest _.
  destruct (HasPrefix rest (str ":")) eqn:Hc; [|by apply returns_done]. apply colon_bound in Hc.
  run_step slice_from_returns; [done|]. intros rest2 _.
  run_step scanLiteral_returns. intros [[val m]|e] Hm; [|by apply returns_done].
  run_step slice_from_returns; [by eapply Hm|]. intros rest3 _.
  destruct (negb _); by apply returns_done.
Qed.

Lemma unmarshal_kvp_returns params negated : returns (unmarshal_kvp params negated) (fun _ => True).
Proof.
  unfold unmarshal_kvp. run_step scanLiteral_returns. intros [[key n]|e] Hn; [|by apply returns_done].
  run_step slice_from_returns; [by eapply Hn|]. intros rest _.
  destruct (HasPrefix rest (str ":")) eqn:Hc; [|by apply returns_done]. apply colon_bound in Hc.
  run_step slice_from_returns; [done|]. intros rest2 _.
  run_step scanLiteral_returns. intros [[val m]|e] Hm; [|by apply returns_done].
  run_step slice_from_returns; [by eapply Hm|]. intros rest3 _.
  destruct (negb _); [by apply returns_done|]. destruct (gs_eqb key []); by apply returns_done.
Qed.

Lemma Unmarshal_returns k params negated : returns (Unmarshal k params negated) (fun _ => True).
Proof.
  destruct k; simpl; try (by apply returns_done);
    auto using unmarshal_meta_returns, unmarshal_kvp_returns.
  - unfold unmarshal_contains_file. run_step Parse_returns. intros [ns|e] _; by apply returns_done.
  - unfold unmarshal_contains. run_step Parse_returns. intros [ns|e] _; by apply returns_done.
Qed.
End Total.

(** ** The registry *)

(** A value that names a predicate registered for the (canonical) field. *)
Definition predicate_for (field value : gostring) : Prop :=
  exists table name kind params,
    assoc field DefaultPredicateRegistry = Some table /\
    assoc name table = Some kind /\
    value = name ++ str "(" ++ params ++ str ")".

Lemma registry_names field table name kind :
  assoc field DefaultPredicateRegistry = Some table -> assoc name table = Some kind ->
  name <> [] /\ forallb name_char name = true /\ Predicate_Field kind = field.
Proof.
  intros Ht%assoc_elem_of Hn%assoc_elem_of.
  assert (forallb (fun '(f, t) => forallb (fun '(n, k) =>
    negb (gs_eqb n []) && forallb name_char n && gs_eqb (Predicate_Field k) f) t)
    DefaultPredicateRegistry = true) as H by (vm_compute; done).
  rewrite forallb_forall in H. apply list_elem_of_In, H in Ht. rewrite forallb_forall in Ht.
  apply list_elem_of_In, Ht in Hn. rewrite !andb_true_iff, negb_true_iff in Hn.
  destruct Hn as [[?%gs_eqb_false ?] ?%gs_eqb_eq]. done.
Qed.

Lemma predicate_for_lookup field value :
  predicate_for field value ->
  exists name params kind, ParseAsPredicate value = Done (name, params) /\
    Get DefaultPredicateRegistry field name = Done kind /\ Predicate_Field kind = field.
Proof.
  intros (table & name & kind & params & Ht & Hn & ->).
  destruct (registry_names _ _ _ _ Ht Hn) as (Hne & Hc & Hf).
  exists name, params, kind. split_and!; [by apply ParseAsPredicate_spec| |done].
  unfold Get. by rewrite Ht, Hn.
Qed.

Section ValidateFacts.
Context {U : UnicodeTables} {R : Regexp} {X : External}.

(** ** [validateParameters] *)

Definition is_predicate (p : Param) : bool :=
  Labels.IsSet (a_Labels (par_Annotation p)) Labels.IsPredicate.

(** A parameter labelled as a predicate is one, for its field. *)
Definition pred_ok (p : Param) : Prop :=
  is_predicate p = true -> predicate_for (par_Field p) (par_Value p).

(** The check on one parameter, given the fields seen before it. *)
Definition param_valid (seen : gset gostring) (p : Param) : Prop :=
  if is_predicate p then validatePredicate (par_Field p) (par_Value p) (par_Negated p) = Done None
  else validateField (par_Field p) (par_Value p) (par_Negated p) seen = None.

Fixpoint valid_params (seen : gset gostring) (ps : list Param) : Prop :=
  match ps with
  | [] => True
  | p :: ps => param_valid seen p /\ valid_params ({[ par_Field p ]} ∪ seen) ps
  end.

Definition check_all (ps : list Param) (m : run (option gerror * gset gostring))
    : run (option gerror * gset gostring) :=
  List.fold_left (apply_param parameter_callback) ps m.

Lemma check_all_error ps e seen : check_all ps (Done (Some e, seen)) = Done (Some e, seen).
Proof. induction ps as [|p ps IH]; [done|]. exact IH. Qed.

Lemma check_all_panic ps w : check_all ps (Panics w) = Panics w.
Proof. induction ps as [|p ps IH]; [done|]. exact IH. Qed.

Lemma check_all_fuel ps : check_all ps OutOfFuel = OutOfFuel.
Proof. induction ps as [|p ps IH]; [done|]. exact IH. Qed.

Definition param_result (seen : gset gostring) (p : Param) : run (option gerror) :=
  if is_predicate p then validatePredicate (par_Field p) (par_Value p) (par_Negated p)
  else Done (validateField (par_Field p) (par_Value p) (par_Negated p) seen).

Lemma check_all_cons p ps seen :
  check_all (p :: ps) (Done (None, seen)) =
  let! r := param_result seen p in
  match r with
  | Some e => Done (Some e, {[ par_Field p ]} ∪ seen)
  | None => check_all ps (Done (None, {[ par_Field p ]} ∪ seen))
  end.
Proof.
  unfold check_all. cbn [List.fold_left].
  change (apply_param parameter_callback (Done (None, seen)) p) with
    (let! err := param_result seen p in Done (err, {[ par_Field p ]} ∪ seen)).
  destruct (param_result seen p) as [[e|]|w|]; cbn [run_bind].
  - apply check_all_error.
  - done.
  - apply check_all_panic.
  - apply check_all_fuel.
Qed.

Lemma param_valid_result seen p : param_valid seen p <-> param_result seen p = Done None.
Proof. unfold param_valid, param_result. destruct (is_predicate p); [done|]. split; congruence. Qed.

Lemma check_all_valid ps seen :
  (exists seen', check_all ps (Done (None, seen)) = Done (None, seen')) <-> valid_params seen ps.
Proof.
  revert seen. induction ps as [|p ps IH]; intros seen.
  { simpl. split; [done|]. by eexists. }
  rewrite check_all_cons. cbn [valid_params]. rewrite param_valid_result, <- IH.
  destruct (param_result seen p) as [[e|]|w|]; cbn [run_bind].
  - split; [intros [? ?]; congruence|intros [? _]; congruence].
  - naive_solver.
  - split; [intros [? ?]; congruence|intros [? _]; congruence].
  - split; [intros [? ?]; congruence|intros [? _]; congruence].
Qed.

Lemma validateParameters_iff nodes :
  validateParameters nodes = Done None <-> valid_params ∅ (params_of nodes).
Proof.
  unfold validateParameters. rewrite VisitParameter_fold, <- check_all_valid.
  fold (check_all (params_of nodes) (Done (None, ∅))).
  destruct (check_all _ _) as [[[e|] seen]|w|]; simpl; split;
    try (intros [? ?]; congruence); try congruence; eauto.
Qed.

Lemma validatePredicate_returns field value negated :
  predicate_for field value -> returns (validatePredicate field value negated) (fun _ => True).
Proof.
  intros (name & params & kind & Hp & Hg & _)%predicate_for_lookup.
  unfold validatePredicate. rewrite Hp. simpl. rewrite Hg. simpl.
  run_step Unmarshal_returns. intros [?|?] _; by apply returns_done.
Qed.

Lemma check_all_returns ps seen :
  Forall pred_ok ps -> returns (check_all ps (Done (None, seen))) (fun _ => True).
Proof.
  intros H. revert seen. induction H as [|p ps Hp _ IH]; intros seen; [by apply returns_done|].
  rewrite check_all_cons.
  assert (returns (param_result seen p) (fun _ => True)) as Hr.
  { unfold param_result. destruct (is_predicate p) eqn:E; [|by apply returns_done].
    apply validatePredicate_returns. by apply Hp. }
  run_step Hr. intros [e|] _; [by apply returns_done|apply IH].
Qed.

Lemma validateParameters_returns nodes :
  Forall pred_ok (params_of nodes) -> returns (validateParameters nodes) (fun _ => True).
Proof.
  intros H. unfold validateParameters. rewrite VisitParameter_fold.
  run_step (check_all_returns (params_of nodes) ∅ H). intros [e s] _. by apply returns_done.
Qed.

(** Every parameter passes its checks, whatever was seen before it. *)
Definition each_valid (ps : list Param) : Prop :=
  Forall (fun p => exists seen, param_valid seen p) ps.

Lemma valid_params_each ps seen : valid_params seen ps -> each_valid ps.
Proof.
  revert seen. induction ps as [|p ps IH]; intros seen; [constructor|].
  intros [Hp Hps]. constructor; [eauto|]. by eapply IH.
Qed.

(** ** Fields that may be used once, and fields that may not be negated *)

Definition singular_fields : list gostring :=
  [FieldCase; FieldContext; FieldPatternType; FieldContent; FieldVisibility;
   FieldRepoHasCommitAfter; FieldIndex; FieldFork; FieldArchived; FieldCount; FieldCombyRule;
   FieldTimeout; FieldRev; FieldSelect].

Definition positive_fields : list gostring :=
  singular_fields ++ [FieldType; FieldBefore; FieldAfter].

Definition mem (f : gostring) (l : list gostring) : bool := existsb (gs_eqb f) l.

Lemma satisfies_None checks : satisfies checks = None -> Forall (fun c => c = None) checks.
Proof. induction checks as [|[e|] checks IH]; simpl; [constructor|done|auto]. Qed.

(** Case analysis on the branch of [validateField]: the field is a known
    constant, and every check of the branch passes. *)
Ltac field_cases H :=
  unfold validateField, field_is in H;
  repeat match type of H with
  | context [if ?b then _ else _] =>
      let E := fresh "E" in
      destruct b eqn:E;
      [rewrite ?orb_true_iff, ?gs_eqb_eq in E; destruct_or? E; subst|]
  end.

Lemma validateField_singular field value negated seen :
  validateField field value negated seen = None ->
  mem field singular_fields = true -> field ∉ seen.
Proof.
  intros H Hs. field_cases H; try (by vm_compute in Hs); try (by unfold isUnrecognizedField in H).
  all: apply satisfies_None, Forall_cons in H as [H _]; unfold isSingular in H;
    by case_bool_decide.
Qed.

Lemma validateField_positive field value negated seen :
  validateField field value negated seen = None ->
  mem field positive_fields = true -> negated = false.
Proof.
  intros H Hs. field_cases H; try (by vm_compute in Hs); try (by unfold isUnrecognizedField in H).
  all: apply satisfies_None in H; unfold isNotNegated in H; destruct negated; [|done];
    repeat (apply Forall_cons in H as [? H]); congruence.
Qed.

Lemma validatePredicate_field field value negated r :
  validatePredicate field value negated = Done r -> mem field positive_fields = false.
Proof.
  unfold validatePredicate. intros H. apply run_bind_Done in H as ([name params] & _ & H).
  apply run_bind_Done in H as (k & Hg & _). unfold Get in Hg.
  destruct (assoc field _) as [t|] eqn:E; [|done]. apply assoc_elem_of in E.
  repeat (apply elem_of_cons in E as [[= -> ->]|E]; [by vm_compute|]). by apply elem_of_nil in E.
Qed.

Lemma singular_positive f : mem f singular_fields = true -> mem f positive_fields = true.
Proof. unfold mem, positive_fields. rewrite existsb_app. by intros ->. Qed.

(** The number of parameters with a field. *)
Definition occurrences (f : gostring) (ps : list Param) : nat :=
  length (List.filter (fun p => gs_eqb (par_Field p) f) ps).

Lemma valid_params_singular f ps seen :
  mem f singular_fields = true -> valid_params seen ps ->
  (occurrences f ps <= 1)%nat /\ (f ∈ seen -> occurrences f ps = 0%nat).
Proof.
  intros Hf. revert seen. induction ps as [|p ps IH]; intros seen; [by unfold occurrences; simpl; auto|].
  intros [Hp Hps]. destruct (IH _ Hps) as [H1 H2]. unfold occurrences in *. simpl.
  destruct (gs_eqb (par_Field p) f) eqn:E; simpl.
  - apply gs_eqb_eq in E. rewrite H2 by (subst; set_solver). split; [lia|]. intros Hin.
    unfold param_valid in Hp. destruct (is_predicate p).
    + apply validatePredicate_field in Hp. rewrite E, singular_positive in Hp; done.
    + apply validateField_singular in Hp; [|by rewrite E]. by subst f.
  - split; [done|]. intros Hin. apply H2. set_solver.
Qed.

Lemma valid_params_positive ps :
  each_valid ps ->
  Forall (fun p => mem (par_Field p) positive_fields = true -> par_Negated p = false) ps.
Proof.
  intros H. eapply Forall_impl; [exact H|]. intros p [s Hp] Hf.
  unfold param_valid in Hp. destruct (is_predicate p).
  - apply validatePredicate_field in Hp. congruence.
  - by eapply validateField_positive.
Qed.

(** ** What the checks say about values *)

Lemma satisfies_In checks c : satisfies checks = None -> In c checks -> c = None.
Proof. intros H%satisfies_None Hc. rewrite List.Forall_forall in H. auto. Qed.

Lemma validateField_yesno field value negated seen :
  In field [FieldIndex; FieldFork; FieldArchived] ->
  validateField field value negated seen = None -> parseYesNoOnly value <> Invalid.
Proof.
  intros Hf H. assert (isYesNoOnly field value = None) as Hy.
  { destruct Hf as [<-|[<-|[<-|[]]]]; apply (satisfies_In _ _ H); simpl; auto. }
  unfold isYesNoOnly in Hy. by case_bool_decide.
Qed.

Lemma validateField_timeout value negated seen :
  validateField FieldTimeout value negated seen = None -> ParseDuration value <> None.
Proof.
  intros H. assert (isDuration value = None) as Hd by (apply (satisfies_In _ _ H); simpl; auto).
  unfold isDuration in Hd. by destruct (ParseDuration value).
Qed.

Lemma validateField_repo value seen :
  validateField FieldRepo value false seen = None ->
  exists f, ParseRepositoryRevisions value = Ok f.
Proof.
  intros H. assert (isValidRepoRegexp value false = None) as Hd
    by (apply (satisfies_In _ _ H); simpl; auto).
  unfold isValidRepoRegexp in Hd. destruct (ParseRepositoryRevisions value); [eauto|done].
Qed.

Lemma parse_uint_more s n m maxVal maxVal' :
  (maxVal <= maxVal')%Z -> parse_uint_loop s n maxVal = NumOk m -> parse_uint_loop s n maxVal' = NumOk m.
Proof.
  intros Hle. revert n. induction s as [|c s IH]; intros n; cbn [parse_uint_loop]; [done|].
  destruct (negb (is_digit c)); [done|]. destruct (_ <=? n)%Z; [done|].
  destruct (maxVal <? _)%Z eqn:E1; [done|]. apply Z.ltb_ge in E1.
  rewrite (proj2 (Z.ltb_ge _ _)) by lia. apply IH.
Qed.

Lemma ParseInt_Atoi s c : ParseInt s 32 = NumOk c -> Atoi s = NumOk c.
Proof.
  unfold Atoi, ParseInt. destruct (match s with [] => _ | _ => _ end) as [neg digits].
  destruct digits as [|d ds]; [done|].
  destruct (parse_uint_loop (d :: ds) 0 (2 ^ 32 - 1)) as [un| |] eqn:E; [|done..].
  apply (parse_uint_more _ _ _ _ (2 ^ 64 - 1)) in E; [|lia]. rewrite E.
  change (2 ^ (32 - 1))%Z with 2147483648%Z. change (2 ^ (64 - 1))%Z with 9223372036854775808%Z.
  destruct neg; simpl.
  - destruct (2147483648 <? un)%Z eqn:E2; [done|]. apply Z.ltb_ge in E2.
    by rewrite (proj2 (Z.ltb_ge _ _)) by lia.
  - destruct (2147483648 <=? un)%Z eqn:E2; [done|]. apply Z.leb_gt in E2.
    by rewrite (proj2 (Z.leb_gt _ _)) by lia.
Qed.

Lemma parse_uint_nonneg s n m maxVal :
  (0 <= n)%Z -> parse_uint_loop s n maxVal = NumOk m -> (0 <= m)%Z.
Proof.
  revert n. induction s as [|c s IH]; intros n Hn; cbn [parse_uint_loop]; [by intros [= <-]|].
  destruct (is_digit c) eqn:Hd; [|done]. destruct (_ <=? n)%Z; [done|].
  destruct (maxVal <? _)%Z; [done|]. apply IH.
  unfold is_digit, between in Hd. apply andb_true_iff in Hd as [Hd _]. apply Z.leb_le in Hd. lia.
Qed.

Lemma ParseInt_bound s c : ParseInt s 32 = NumOk c -> (c < 2 ^ 31)%Z.
Proof.
  unfold ParseInt. destruct (match s with [] => _ | _ => _ end) as [neg digits].
  destruct digits as [|d ds]; [done|].
  destruct (parse_uint_loop _ _ _) as [un| |] eqn:E; [|done..].
  apply parse_uint_nonneg in E; [|done]. destruct neg; cbn [negb andb].
  - destruct (_ <? un)%Z; [done|]. intros [= <-]. lia.
  - destruct (_ <=? un)%Z eqn:E2; [done|]. apply Z.leb_gt in E2. by intros [= <-].
Qed.

Lemma validateField_count value negated seen :
  validateField FieldCount value negated seen = None ->
  exists c, Atoi value = NumOk c /\ (0 < c < 2 ^ 31)%Z.
Proof.
  intros H. assert (isNumber FieldCount value = None) as Hn
    by (apply (satisfies_In _ _ H); simpl; auto).
  unfold isNumber in Hn. destruct (ParseInt value 32) as [c| |] eqn:E; [|done..].
  destruct (c <=? 0)%Z eqn:Ec; [done|]. apply Z.leb_gt in Ec.
  exists c. split; [by apply ParseInt_Atoi|]. apply ParseInt_bound in E. lia.
Qed.

(** ** Accessors *)

(** A [VisitField] whose callback is a computation returns when every call
    does; [I] is an invariant of the state. *)
Lemma VisitField_returns {S} (I : S -> Prop) nodes field
    (f : gostring -> bool -> Annotation -> S -> run S) s :
  Forall (fun p => par_Field p = field -> forall s, I s ->
    returns (f (par_Value p) (par_Negated p) (par_Annotation p) s) I) (params_of nodes) ->
  I s ->
  returns (VisitField nodes field (fun v n a m => let! s := m in f v n a s) (Done s)) I.
Proof.
  intros HF Hs. unfold VisitField. rewrite VisitParameter_fold. revert s Hs.
  induction HF as [|p ps Hp _ IH]; intros s Hs; [by apply returns_done|]. simpl.
  unfold apply_param at 2. destruct (gs_eqb field (par_Field p)) eqn:E; [|by apply IH].
  apply gs_eqb_eq in E. destruct (Hp (eq_sym E) s Hs) as (s' & Hf & Hs').
  cbn [run_bind]. rewrite Hf. by apply IH.
Qed.

(** In a valid list, a parameter with a field that has no predicates passes
    the checks of its field. *)
Lemma valid_field ps f :
  each_valid ps -> assoc f DefaultPredicateRegistry = None ->
  Forall (fun p => par_Field p = f ->
    exists seen', validateField f (par_Value p) (par_Negated p) seen' = None) ps.
Proof.
  intros H Hf. eapply Forall_impl; [exact H|]. intros p [s Hp] <-.
  unfold param_valid in Hp. destruct (is_predicate p); [|eauto].
  unfold validatePredicate in Hp. apply run_bind_Done in Hp as ([name params] & _ & Hp).
  apply run_bind_Done in Hp as (k & Hg & _). unfold Get in Hg. by rewrite Hf in Hg.
Qed.

Lemma Count_returns nodes :
  each_valid (params_of nodes) ->
  returns (Count nodes) (fun c => forall n, c = Some n -> (0 < n < 2 ^ 31)%Z).
Proof.
  intros Hv. unfold Count.
  apply (VisitField_returns (fun c => forall n, c = Some n -> (0 < n < 2 ^ 31)%Z)); [|done].
  eapply Forall_impl; [by apply (valid_field _ FieldCount Hv)|]. simpl. intros p Hp Hf _ _.
  destruct (Hp Hf) as (s & Hvf). apply validateField_count in Hvf as (c & -> & Hc).
  apply returns_done. by intros n [= <-].
Qed.

Lemma yesNoOnlyValue_returns nodes field :
  In field [FieldIndex; FieldFork; FieldArchived] ->
  each_valid (params_of nodes) ->
  returns (yesNoOnlyValue nodes field) (fun v => v <> Some Invalid).
Proof.
  intros Hin Hv. unfold yesNoOnlyValue.
  apply (VisitField_returns (fun v => v <> Some Invalid)); [|done].
  eapply Forall_impl; [apply (valid_field _ field Hv)|].
  { by destruct Hin as [<-|[<-|[<-|[]]]]. }
  simpl. intros p Hp Hf _ _. destruct (Hp Hf) as (s & Hvf).
  apply validateField_yesno in Hvf; [|done].
  destruct (parseYesNoOnly _); try done; by apply returns_done.
Qed.

Lemma GetTimeout_returns ps :
  each_valid (params_of (toNodes ps)) -> returns (GetTimeout ps) (fun _ => True).
Proof.
  intros Hv. unfold GetTimeout. apply (VisitField_returns (fun _ => True)); [|done].
  eapply Forall_impl; [by apply (valid_field _ FieldTimeout Hv)|]. simpl. intros p Hp Hf _ _.
  destruct (Hp Hf) as (s & Hvf). apply validateField_timeout in Hvf.
  destruct (ParseDuration _); [by apply returns_done|done].
Qed.

(** Positive repository filters that are not predicates parse. *)
Definition repo_parses (p : Param) : Prop :=
  par_Field p = FieldRepo -> is_predicate p = false -> par_Negated p = false ->
  exists f, ParseRepositoryRevisions (par_Value p) = Ok f.

Lemma valid_repo_parses ps : each_valid ps -> Forall repo_parses ps.
Proof.
  intros H. eapply Forall_impl; [exact H|]. intros p [s Hp] Hf Hn Hneg.
  unfold param_valid in Hp. rewrite Hn, Hf, Hneg in Hp. by eapply validateField_repo.
Qed.

Lemma Repositories_returns nodes :
  Forall repo_parses (params_of nodes) -> returns (Repositories nodes) (fun _ => True).
Proof.
  intros HF. unfold Repositories. apply (VisitField_returns (fun _ => True)); [|done].
  eapply Forall_impl; [exact HF|]. intros p Hp Hf [repos neg] _.
  unfold repo_parses, is_predicate in Hp.
  destruct (Labels.IsSet _ _); [by apply returns_done|].
  destruct (par_Negated p); [by apply returns_done|].
  destruct Hp as [f ->]; [done..|]. by apply returns_done.
Qed.

Lemma validateRefGlobs_returns nodes :
  Forall repo_parses (params_of nodes) -> returns (validateRefGlobs nodes) (fun _ => True).
Proof.
  intros H. unfold validateRefGlobs, ContainsRefGlobs. apply returns_bind.
  run_step (Repositories_returns nodes H). intros [repos neg] _. by do 2 apply returns_done.
Qed.

(** ** [validate] *)

Lemma validate_returns nodes :
  Forall pred_ok (params_of nodes) -> returns (validate nodes) (fun _ => True).
Proof.
  intros H. unfold validate. destruct (validateParameters_returns nodes H) as (r & Hr & _).
  rewrite Hr. cbn [run_bind]. destruct r as [e|]; [by apply returns_done|].
  destruct (satisfies _); [by apply returns_done|]. apply validateRefGlobs_returns.
  apply validateParameters_iff in Hr. by eapply valid_repo_parses, valid_params_each.
Qed.

Lemma validate_params nodes :
  validate nodes = Done None -> valid_params ∅ (params_of nodes).
Proof.
  unfold validate. intros H. apply run_bind_Done in H as ([e|] & Hp & H); [done|].
  by apply validateParameters_iff.
Qed.

(** ** Typed predicates *)

Lemma predicate_identity k want :
  Predicate_Field k = Predicate_Field want -> Predicate_Name k = Predicate_Name want -> k = want.
Proof.
  intros Hf%gs_eqb_eq Hn%gs_eqb_eq.
  destruct k, want; try reflexivity; exfalso; revert Hf Hn; vm_compute; congruence.
Qed.

Lemma Get_field field name k :
  Get DefaultPredicateRegistry field name = Done k -> Predicate_Field k = field.
Proof.
  unfold Get. destruct (assoc field _) as [t|] eqn:Et; [|done].
  destruct (assoc name t) as [k'|] eqn:En; [|done]. intros [= ->].
  by destruct (registry_names _ _ _ _ Et En) as (_ & _ & ?).
Qed.

Lemma VisitTypedPredicate_returns {S} want nodes (f : Predicate -> S -> S) s :
  each_valid (params_of nodes) ->
  returns (VisitTypedPredicate want nodes f s) (fun _ => True).
Proof.
  intros H. unfold VisitTypedPredicate.
  apply (VisitField_returns (fun _ => True)); [|done].
  eapply Forall_impl; [exact H|]. intros p [seen' Hp] Hf s' _.
  unfold param_valid, is_predicate in Hp. destruct (Labels.IsSet _ _); [|by apply returns_done].
  cbn [negb]. unfold validatePredicate in Hp.
  apply run_bind_Done in Hp as ([name params] & Hpar & Hp). rewrite Hpar. cbn [run_bind].
  rewrite Hf in Hp. apply run_bind_Done in Hp as (k & Hg & Hp). rewrite Hg. cbn [run_bind].
  destruct (gs_eqb (Predicate_Name k) (Predicate_Name want)) eqn:En; [|by apply returns_done].
  apply gs_eqb_eq in En. rewrite (predicate_identity k want) in Hp by eauto using Get_field.
  apply run_bind_Done in Hp as ([pr|e] & -> & Hp); [|done]. by apply returns_done.
Qed.
End ValidateFacts.

(** ** Theorems *)

(** a query that [validate] accepts uses every singular field ([case],
    [context], [patterntype], [content], [visibility], [repohascommitafter],
    [index], [fork], [archived], [count], [rule], [timeout], [rev], [select])
    at most once, and negates none of them nor [type], [before] and [after]. *)
Theorem validate_singular_fields {U : UnicodeTables} {R : Regexp} {X : External} (nodes : list Node) :
  validate nodes = Done None ->
  (forall f, In f singular_fields -> (occurrences f (params_of nodes) <= 1)%nat) /\
  Forall (fun p => mem (par_Field p) positive_fields = true -> par_Negated p = false)
    (params_of nodes).
Proof.
  intros H%validate_params. split; [|by eapply valid_params_positive, valid_params_each].
  intros f Hf. eapply valid_params_singular; [|exact H].
  apply existsb_exists. exists f. split; [done|apply gs_eqb_refl].
Qed.

(** On a query that [validate] accepts, none of the accessors that panic on
    a bad value panics: [Count] (which then returns a positive 32-bit number),
    [Fork], [Archived], [Repositories], and [VisitTypedPredicate] for every
    predicate type and callback. *)
Theorem valid_query_accessors {U : UnicodeTables} {R : Regexp} {X : External} (nodes : list Node) :
  validate nodes = Done None ->
  (exists c, Count nodes = Done c /\ forall n, c = Some n -> (0 < n < 2 ^ 31)%Z) /\
  (exists v, Fork nodes = Done v /\ v <> Some Invalid) /\
  (exists v, Archived nodes = Done v /\ v <> Some Invalid) /\
  (exists r, Repositories nodes = Done r) /\
  (forall want (f : Predicate -> list Predicate -> list Predicate) s,
     exists s', VisitTypedPredicate want nodes f s = Done s').
Proof.
  intros H%validate_params%valid_params_each. split_and!.
  - by eapply Count_returns.
  - eapply yesNoOnlyValue_returns; [simpl; auto|done].
  - eapply yesNoOnlyValue_returns; [simpl; auto|done].
  - destruct (Repositories_returns nodes) as (r & Hr & _); [by eapply valid_repo_parses|eauto].
  - intros want f s. destruct (VisitTypedPredicate_returns want nodes f s H) as (s' & Hs & _). eauto.
Qed.

Section Witness.
#[local] Instance tables : UnicodeTables := plain_tables.
#[local] Instance any_regexp : Regexp :=
  {| compiled := gostring; Compile s := Ok s; SyntaxParse _ := None; QuoteMeta s := s |}.
#[local] Instance any_external : External :=
  {| GetLanguageByAlias s := Some s; ParseDuration _ := Some 0%Z; ParseGitDate _ := None |}.

Definition w_predicate : Node :=
  ParamNode (MkParam FieldRepo (str "has.path(foo)") false
               (MkAnnotation Labels.IsPredicate zeroRange)).
Definition w_count : Node := ParamNode (MkParam FieldCount (str "10") false zeroAnnotation).
Definition w_repo : Node := ParamNode (MkParam FieldRepo (str "foo@v1") false zeroAnnotation).

Lemma validate_singular_fields_witness :
  (occurrences FieldCount (params_of [w_predicate; w_repo; w_count]) <= 1)%nat.
Proof.
  apply (validate_singular_fields [w_predicate; w_repo; w_count]);
    [vm_compute; reflexivity|simpl; tauto].
Defined.

Lemma valid_query_accessors_witness :
  exists c, Count [w_predicate; w_repo; w_count] = Done c /\
    forall n, c = Some n -> (0 < n < 2 ^ 31)%Z.
Proof. apply (valid_query_accessors [w_predicate; w_repo; w_count]). vm_compute. reflexivity. Defined.

(** [validateRepoRevPair] remembers whether the last repository filter is
    empty, so an empty one followed by another passes, although the comment on
    the function says that an empty repository value makes a [rev:] invalid. *)
Theorem validateRepoRevPair_last_repo :
  let repo v := ParamNode (MkParam FieldRepo (str v) false zeroAnnotation) in
  let rev := ParamNode (MkParam FieldRev (str "v1") false zeroAnnotation) in
  validateRepoRevPair [repo ""; repo "a"; rev] = None /\
  validateRepoRevPair [repo "a"; repo ""; rev] = Some err_rev_empty_repo.
Proof. split; vm_compute; reflexivity. Qed.
End Witness.
