(* ===== verification/PipelineCorrect.v ===== *)
(** The theorems about the pipeline that turns a query string into a plan, the
    way the search clients call it: [Pipeline(Init(in, t), With(enabled,
    SubstituteSearchContexts(lookup)))]. *)
From S2P Require Import Prelude GoStr GoLib Syntax Operators Scan Mapper Partition Parser ParserFacts PartitionFacts ParseCorrect.
From S2P Require Import Transform PlanFacts TransformFacts RepoRevs Predicates Validate Printer Types Pipeline ValidateFacts.

(** The pipeline as a whole: from any input string it returns a plan or an
    error, the fields of its plans are canonical, and the accessors of its
    basic queries do not panic. *)

Import Utf8.

(** ** Normalisation and predicates *)
Section Normalise.
Context {U : UnicodeTables} {R : Regexp} {X : External}.

(** Parameters as [Parse] returns them, after lowercasing, and after aliases
    are replaced. *)
Definition raw_ok (p : Param) : Prop :=
  parsed_field p /\ (is_predicate p = true -> predicate_value (par_Field p) (par_Value p)).
Definition low_ok (p : Param) : Prop :=
  lower_field p /\ (is_predicate p = true -> predicate_value (par_Field p) (par_Value p)).
Definition norm_ok (p : Param) : Prop := normal_field p /\ pred_ok p.

Lemma Parse_raw_ok in_ t nodes : Parse in_ t = Done (Ok nodes) -> Forall raw_ok (params_of nodes).
Proof.
  intros [Hl _]%Parse_node_ok%nodes_ok_split. apply on_param_params.
  eapply Forall_impl; [exact Hl|]. intros [p|p|k ns a]; [done| |done].
  intros (_ & Hk & Hp). split; [by right|done].
Qed.

(** The fields that have predicates are lower-case already. *)
Lemma predicate_field_lower field table :
  assoc (resolveFieldAlias field) DefaultPredicateRegistry = Some table -> ToLower field = field.
Proof.
  intros H. assert (In field [FieldRepo; FieldFile; str "r"; str "f"; str "path"]) as Hin.
  { unfold resolveFieldAlias in H. destruct (assoc field aliases) as [c|] eqn:Ea.
    - apply assoc_elem_of in Ea. unfold aliases in Ea. rewrite !elem_of_cons in Ea.
      rewrite elem_of_nil in Ea.
      destruct_or? Ea; simplify_eq; simpl; auto 10; by vm_compute in H.
    - apply assoc_elem_of in H. unfold DefaultPredicateRegistry in H. rewrite !elem_of_cons in H.
      rewrite elem_of_nil in H.
      destruct_or? H; simplify_eq; simpl; auto. }
  destruct Hin as [<-|[<-|[<-|[<-|[<-|[]]]]]]; vm_compute; reflexivity.
Qed.

Lemma LowercaseFieldNames_ok ns :
  Forall raw_ok (params_of ns) -> Forall low_ok (params_of (LowercaseFieldNames ns)).
Proof.
  apply MapParameter_leaves. intros p [Hp Hq] n [= <-]. apply Forall_singleton. split.
  - destruct Hp as [->|Hp]; [by left|by right].
  - intros Hpred. destruct (Hq Hpred) as (t & name & k & ps & Ht & Hn & Hv). simpl.
    rewrite (predicate_field_lower _ _ Ht). by exists t, name, k, ps.
Qed.

Lemma IsSet_add_alias a :
  Labels.IsSet (a_Labels (add_label a Labels.IsAlias)) Labels.IsPredicate =
  Labels.IsSet (a_Labels a) Labels.IsPredicate.
Proof.
  unfold Labels.IsSet, add_label, set_labels, Labels.Set_. cbn [a_Labels].
  rewrite Z.land_lor_distr_l. change (Z.land Labels.IsAlias Labels.IsPredicate) with 0%Z.
  by rewrite Z.lor_0_r.
Qed.

Lemma SubstituteAliases_ok t ns :
  Forall low_ok (params_of ns) -> Forall norm_ok (params_of (SubstituteAliases t ns)).
Proof.
  apply MapParameter_leaves. intros p [Hp Hq] n Hn. unfold alias_callback in Hn.
  destruct (gs_eqb (par_Field p) (str "content")) eqn:Hc; simplify_eq; [by repeat constructor|].
  unfold predicate_value, resolveFieldAlias in Hq.
  destruct (assoc (par_Field p) aliases) as [c|] eqn:Ha; simplify_eq; apply Forall_singleton.
  - split; [right; by eapply alias_canonical|]. unfold pred_ok, is_predicate.
    cbn [par_Annotation par_Field par_Value]. by rewrite IsSet_add_alias.
  - split; [|exact Hq]. destruct Hp as [Hp|Hp]; [by left|right]. unfold canonical, FieldContent.
    cbn [par_Field]. by rewrite Hp, Hc, Ha.
Qed.

Lemma SubstituteCountAll_ok ns :
  Forall norm_ok (params_of ns) -> Forall norm_ok (params_of (SubstituteCountAll ns)).
Proof.
  apply MapParameter_leaves. intros p [Hp Hq] n Hn.
  destruct (gs_eqb (par_Field p) FieldCount && _) eqn:Hc; simplify_eq; apply Forall_singleton.
  - apply andb_true_iff in Hc as [Hc%gs_eqb_eq _]. split; [exact Hp|]. intros Hpred.
    destruct (Hq Hpred) as (t & name & k & ps & Ht & _). by rewrite Hc in Ht.
  - by split.
Qed.

(** Mapping patterns to patterns keeps the parameters. *)
Lemma MapPattern_params P ns callback :
  (forall v n a m, callback v n a = Some m -> is_pattern m = true) ->
  Forall P (params_of ns) -> Forall P (params_of (MapPattern ns callback)).
Proof.
  intros Hcb. rewrite <- !on_param_params.
  apply (MapNodes_Forall_leaves _ _ (on_param P)); [done|].
  intros l s Hleaf HP. destruct l as [p|[f v n a]|k ms a]; [| |by destruct Hleaf].
  - simpl. destruct (callback _ _ _) as [m|] eqn:E; simpl; [|constructor].
    apply Hcb in E. destruct m; try done. by repeat constructor.
  - by apply Forall_singleton.
Qed.

Definition wide (nodes : list Node) : Prop := Forall (all_ops (fun _ m => (2 <= m)%nat)) nodes.

(** Mapping leaves to leaves keeps the arity of operators. *)
Lemma MapParameter_wide ns callback :
  (forall f v n a m, callback f v n a = Some m -> is_param m = true \/ is_pattern m = true) ->
  wide ns -> wide (MapParameter ns callback).
Proof.
  intros Hcb. apply MapNodes_all_ops; [done|auto|]. intros l s Hleaf.
  destruct l as [[v n a]|[f v n a]|k ms a]; [by repeat constructor| |by destruct Hleaf].
  simpl. destruct (callback _ _ _ _) as [m|] eqn:E; simpl; [|constructor].
  apply Hcb in E. apply Forall_singleton. destruct m; [done..|by destruct E].
Qed.

Lemma MapPattern_wide ns callback :
  (forall v n a m, callback v n a = Some m -> is_pattern m = true) ->
  wide ns -> wide (MapPattern ns callback).
Proof.
  intros Hcb. apply MapNodes_all_ops; [done|auto|]. intros l s Hleaf.
  destruct l as [[v n a]|[f v n a]|k ms a]; [|by repeat constructor|by destruct Hleaf].
  simpl. destruct (callback _ _ _) as [m|] eqn:E; simpl; [|constructor].
  apply Hcb in E. apply Forall_singleton. by destruct m.
Qed.
End Normalise.

(** ** Steps *)
Section Steps.
Context {U : UnicodeTables} {R : Regexp} {X : External}.

Lemma normalize_ok t ns :
  Forall raw_ok (params_of ns) -> wide ns ->
  Forall norm_ok (params_of (SubstituteCountAll (SubstituteAliases t (LowercaseFieldNames ns)))) /\
  wide (SubstituteCountAll (SubstituteAliases t (LowercaseFieldNames ns))).
Proof.
  intros Hp Hw. split.
  - by apply SubstituteCountAll_ok, SubstituteAliases_ok, LowercaseFieldNames_ok.
  - repeat apply MapParameter_wide; [..|done]; intros f v n a m Hm; unfold alias_callback in *;
      repeat case_match; simplify_eq; auto.
Qed.

(** What the step of a search type establishes. *)
Definition normal (ns : list Node) : Prop := Forall norm_ok (params_of ns).
Definition processed (r : result (list gerror) (list Node)) : Prop :=
  match r with Ok ns => normal ns /\ Forall (all_ops no_concat) ns | Err _ => True end.

Lemma concat_pass callback ns :
  concatenator callback -> normal ns -> wide ns ->
  returns (substituteConcat callback ns) (fun out => normal out /\ Forall (all_ops no_concat) out).
Proof.
  unfold normal. rewrite <- on_param_params. intros Hc Hn Hw.
  eapply returns_mono; [by apply (substituteConcat_returns callback (on_param norm_ok))|].
  simpl. intros out [Ho Hl]. by rewrite <- on_param_params.
Qed.

Lemma For_returns t ns :
  Forall raw_ok (params_of ns) -> wide ns ->
  exists out, For t ns = Done (Ok out) /\ normal out /\ Forall (all_ops no_concat) out.
Proof.
  intros Hp Hw. destruct (normalize_ok t ns Hp Hw) as [Hn Hw'].
  unfold For, succeeds, pure. cbn [Sequence run_passes run_bind].
  revert Hn Hw'. generalize (SubstituteCountAll (SubstituteAliases t (LowercaseFieldNames ns))).
  clear. intros ns Hn Hw.
  assert (forall callback ms, concatenator callback -> normal ms -> wide ms ->
    exists out, substituteConcat callback ms = Done out /\ normal out /\
      Forall (all_ops no_concat) out) as Hc by (intros; by apply concat_pass).
  assert (forall callback, (forall v n a m, callback v n a = Some m -> is_pattern m = true) ->
    forall ms, normal ms -> wide ms -> normal (MapPattern ms callback) /\
      wide (MapPattern ms callback)) as Hm
    by (intros; split; [by apply MapPattern_params|by apply MapPattern_wide]).
  assert (forall ms, normal ms -> wide ms -> normal (escapeParensHeuristic ms) /\
    wide (escapeParensHeuristic ms)) as He by (apply Hm; by intros ? ? ? ? [= <-]).
  assert (forall ms, normal ms -> wide ms -> normal (labelStructural ms) /\
    wide (labelStructural ms)) as Hl by (apply Hm; by intros ? ? ? ? [= <-]).
  assert (forall ms, normal ms -> wide ms -> normal (ellipsesForHoles ms) /\
    wide (ellipsesForHoles ms)) as Hh by (apply Hm; by intros ? ? ? ? [= <-]).
  assert (concatenator space /\ concatenator standard /\ concatenator fuzzyRegexp) as (?&?&?)
    by (unfold concatenator; simpl; tauto).
  destruct t; cbn [run_bind].
  1: destruct (He ns Hn Hw), (Hc fuzzyRegexp (escapeParensHeuristic ns)) as (out & -> & ?); eauto.
  2: destruct (Hl ns Hn Hw), (Hh (labelStructural ns)) as [? ?]; auto;
     destruct (Hc space (ellipsesForHoles (labelStructural ns))) as (out & -> & ?); eauto.
  1: destruct (Hc space ns) as (out & -> & ?); eauto.
  all: destruct (Hc standard ns) as (out & -> & ?); eauto.
Qed.

Lemma Init_returns in_ t ns : returns (Init in_ t ns) processed.
Proof.
  unfold Init. cbn [Sequence]. apply returns_bind, returns_bind.
  destruct (Parse_returns in_ t) as ([nodes|e] & Hp & Hok); rewrite Hp.
  - apply returns_done, returns_done. simpl in Hok. apply nodes_ok_split in Hok as [_ Hw].
    destruct (For_returns t nodes) as (out & -> & Ho); [by eapply Parse_raw_ok|done|].
    by apply returns_done.
  - by apply returns_done, returns_done, returns_done.
Qed.

(** ** Search contexts *)

(** A mapper whose callbacks keep an invariant of the state keeps it. *)
Lemma MapNodes_state {S} (m : Mapper S) (I : S -> Prop) ns s :
  m.(m_operator) = None ->
  (forall l s, is_param l = true \/ is_pattern l = true -> I s -> I (snd (map_node m l s))) ->
  I s -> I (snd (MapNodes m ns s)).
Proof.
  intros Hm Hleaf.
  assert (forall ms, Forall (fun n => forall s, I s -> I (snd (map_node m n s))) ms ->
    forall s, I s -> I (snd (MapNodes m ms s))) as Hlist.
  { induction 1 as [|n ms Hn _ IH]; intros t Ht; [done|]. simpl. specialize (Hn t Ht).
    destruct (map_node m n t) as [l t1]. specialize (IH t1 Hn).
    by destruct (MapNodes m ms t1) as [l' t2]. }
  apply Hlist, Forall_true. intros n. induction n as [p|p|k ms a IH] using Node_nested_ind.
  1,2: intros t; apply Hleaf; auto.
  intros t Ht. rewrite map_node_operator by done. specialize (Hlist ms IH t Ht).
  by destruct (MapNodes m ms t).
Qed.

Lemma ParseRegexp_returns q : returns (ParseRegexp q) processed.
Proof. apply Init_returns. Qed.

Definition is_done {A} (m : run A) : Prop := exists a, m = Done a.

Lemma context_callback_ok lookup v n a m :
  is_done m -> is_done (snd (context_callback lookup v n a m)).
Proof.
  intros [errs ->]. unfold context_callback. destruct (lookup v) as [q|e]; [|by eexists].
  destruct (gs_eqb q []); [by eexists|].
  destruct (ParseRegexp_returns q) as ([ns|e] & -> & _); by eexists.
Qed.

(** A tree ready for planning: normal, and without [Concat]. *)
Definition not_concat (k : OperatorKind) (_ : nat) : Prop := k <> Concat.
Definition ready (ns : list Node) : Prop := normal ns /\ Forall (all_ops not_concat) ns.

Lemma all_ops_mono (Q Q' : OperatorKind -> nat -> Prop) n :
  (forall k m, Q k m -> Q' k m) -> all_ops Q n -> all_ops Q' n.
Proof.
  intros H. induction n as [p|p|k ns a IH] using Node_nested_ind; [done..|].
  rewrite !all_ops_operator. intros [Hk Hns]. split; [auto|].
  rewrite Forall_forall in *. auto.
Qed.

Lemma processed_ready ns : processed (Ok ns) -> ready ns.
Proof.
  intros [Hn Ho]. split; [done|]. eapply Forall_impl; [exact Ho|]. intros n.
  apply all_ops_mono. by intros k m [? _].
Qed.

Definition ready_or_error (r : result (list gerror) (list Node)) : Prop :=
  match r with Ok ns => ready ns | Err _ => True end.

Lemma context_callback_normal lookup v n a m node :
  fst (context_callback lookup v n a m) = Some node ->
  node = ParamNode (MkParam FieldContext v n a) \/
  exists ns, ready ns /\ node = Operator And ns zeroAnnotation.
Proof.
  unfold context_callback. destruct m as [errs| |]; [|done..].
  destruct (lookup v) as [q|e]; [|done]. destruct (gs_eqb q []); [by intros [= <-]; left|].
  destruct (ParseRegexp_returns q) as ([ns|e] & -> & Hp); [|done].
  intros [= <-]. right. exists ns. split; [|done]. by apply processed_ready.
Qed.

Lemma SubstituteSearchContexts_returns lookup ns :
  ready ns -> returns (SubstituteSearchContexts lookup ns) ready_or_error.
Proof.
  intros [Hn Hops]. unfold SubstituteSearchContexts, MapFieldS. set (m := MkMapper _ _ _).
  assert (is_done (snd (MapNodes m ns (Done [])))) as [errs Hs].
  { apply (MapNodes_state m is_done); [done| |by eexists].
    intros [p|p|] s Hleaf Hd; [done| |by destruct Hleaf]. simpl.
    destruct (gs_eqb FieldContext (par_Field p)); [|done].
    pose proof (context_callback_ok lookup (par_Value p) (par_Negated p) (par_Annotation p) s Hd).
    by destruct (context_callback _ _ _ _ _). }
  assert (forall l s, is_param l = true \/ is_pattern l = true -> on_param norm_ok l ->
    Forall (on_param norm_ok) (leaves_of (fst (map_node m l s))) /\
    Forall (all_ops not_concat) (fst (map_node m l s))) as Hleaf.
  { intros [p|p|k ms a] s Hleaf Hp; [by repeat constructor| |by destruct Hleaf]. simpl.
    destruct (gs_eqb FieldContext (par_Field p)) eqn:E;
      [|split; apply Forall_singleton; by destruct p].
    pose proof (context_callback_normal lookup (par_Value p) (par_Negated p) (par_Annotation p) s) as H.
    destruct (context_callback _ _ _ _ _) as [[node|] s']; simpl; [|split; constructor].
    apply gs_eqb_eq in E. rewrite leaves_of_singleton.
    destruct (H node eq_refl) as [->|(ms & [Hms Hmo] & ->)].
    - split; apply Forall_singleton; [rewrite E; by destruct p|done].
    - rewrite leaves_operator. split; [by apply on_param_params|].
      apply Forall_singleton, all_ops_operator. by split. }
  assert (ready (fst (MapNodes m ns (Done [])))) as Ho.
  { unfold ready, normal in *. rewrite <- on_param_params in *. split.
    - eapply (MapNodes_Forall_leaves m _ (on_param norm_ok)); [done| |done].
      intros l s Hl Hp. by apply Hleaf.
    - apply MapNodes_all_ops; [done|done| |done]. intros [p|p|k ms a] s Hl; [by repeat constructor| |by destruct Hl].
      simpl. destruct (gs_eqb _ _); [|apply Forall_singleton; by destruct p].
      pose proof (context_callback_normal lookup (par_Value p) (par_Negated p) (par_Annotation p) s) as H.
      destruct (context_callback _ _ _ _ _) as [[node|] s']; simpl; [|constructor].
      destruct (H node eq_refl) as [->|(ms & [_ Hmo] & ->)]; apply Forall_singleton; [done|].
      apply all_ops_operator. by split. }
  destruct (MapNodes m ns (Done [])) as [out s]. simpl in Hs, Ho. subst s. simpl.
  destruct errs; by apply returns_done.
Qed.
End Steps.

(** ** Plans *)
Section Plans.
Context {U : UnicodeTables} {R : Regexp} {X : External}.

Lemma params_of_pure ns : Forall (fun n => is_param n = false) (leaves_of ns) -> params_of ns = [].
Proof.
  unfold params_of. induction 1 as [|n l Hn _ IH]; [done|]. by destruct n.
Qed.

Lemma params_of_app ns ms : params_of (ns ++ ms) = params_of ns ++ params_of ms.
Proof. unfold params_of. by rewrite leaves_of_app, omap_app. Qed.

Lemma params_of_toNodes ps : params_of (toNodes ps) = ps.
Proof.
  unfold params_of. rewrite leaves_of_toNodes. induction ps as [|p ps IH]; [done|]. csimpl. by rewrite IH.
Qed.

(** The tree of a basic query has the parameters of the query. *)
Lemma ToParseTree_params P b : pure_basic P b -> params_of (ToParseTree b) = b_Parameters b.
Proof.
  intros [_ Hp]. unfold ToParseTree. destruct (b_Pattern b) as [p|] eqn:E;
    [|apply params_of_toNodes].
  destruct (Hp p eq_refl) as [Hpure%isPatternExpression_Forall _].
  assert (params_of (toNodes (b_Parameters b) ++ [p]) = b_Parameters b) as Hn
    by (by rewrite params_of_app, params_of_toNodes, (params_of_pure [p]), app_nil_r).
  destruct (b_Parameters b) as [|q ps] eqn:Eb.
  - simpl app in *. destruct (Hoist [p]) as [out|] eqn:Eh; [|done]. apply params_of_pure.
    eapply (Hoist_Forall_leaves (fun n => is_param n = false)); [|exact Eh|done]. by intros [].
  - destruct ps; exact Hn.
Qed.

(** The basic queries of a normal tree. *)
Definition plan_ok (b : Basic) : Prop :=
  pure_basic (on_param norm_ok) b /\ pattern_ops not_concat b.

Lemma BuildPlan_plan_ok ns : ready ns -> Forall plan_ok (BuildPlan ns).
Proof.
  unfold ready, normal. rewrite <- on_param_params. intros [Hn Ho]. apply Forall_and. split.
  - by apply BuildPlan_pure.
  - by apply BuildPlan_ops.
Qed.

Lemma plan_ok_params b : plan_ok b -> Forall norm_ok (b_Parameters b).
Proof.
  intros [[H _] _]. rewrite <- (params_of_toNodes (b_Parameters b)). apply on_param_params.
  by rewrite leaves_of_toNodes.
Qed.

Lemma ValidatePlan_returns plan :
  Forall plan_ok plan ->
  returns (ValidatePlan plan) (fun r => r = None ->
    Forall (fun b => validate (ToParseTree b) = Done None) plan).
Proof.
  induction 1 as [|b plan Hb _ IH]; [by apply returns_done|]. cbn [ValidatePlan].
  destruct (validate_returns (ToParseTree b)) as (r & Hr & _).
  { rewrite (ToParseTree_params _ _ (proj1 Hb)). apply plan_ok_params in Hb.
    eapply Forall_impl; [exact Hb|]. by intros p [_ ?]. }
  rewrite Hr. cbn [run_bind]. destruct r as [e|]; [by apply returns_done|].
  eapply returns_mono; [exact IH|]. intros r Hplan Hnone. constructor; auto.
Qed.

(** [ConcatRevFilters] as a function. *)
Definition concat_rev (b : Basic) : Basic :=
  let revision := last_rev (b_Parameters b) in
  if gs_eqb revision [] then b
  else MkBasic (map (attach_rev revision)
                  (List.filter (fun p => negb (is_rev p)) (b_Parameters b))) (b_Pattern b).

Lemma MapPlan_concat plan : MapPlan plan ConcatRevFilters = Done (map concat_rev plan).
Proof.
  induction plan as [|b plan IH]; [done|]. cbn [MapPlan]. rewrite ConcatRevFilters_spec.
  cbn [run_bind]. by rewrite IH.
Qed.

(** What a successful pipeline guarantees of its plan. *)
Definition pipeline_post (r : result (list gerror) (list Basic)) : Prop :=
  match r with
  | Ok plan => exists basics, plan = map concat_rev basics /\ Forall plan_ok basics /\
      Forall (fun b => validate (ToParseTree b) = Done None) basics
  | Err _ => True
  end.

Lemma plan_of_ready ns :
  ready ns ->
  returns (let plan := BuildPlan ns in
           let! err := ValidatePlan plan in
           match err with
           | Some err => Done (Err [err])
           | None => let! plan := MapPlan plan ConcatRevFilters in Done (Ok plan)
           end) pipeline_post.
Proof.
  intros Hn%BuildPlan_plan_ok. cbv zeta.
  run_step (ValidatePlan_returns _ Hn). intros [e|] Hv; [by apply returns_done|].
  rewrite MapPlan_concat. apply returns_done. simpl. eauto.
Qed.

Lemma With_returns b s ns :
  (forall ns, ready ns -> returns (s ns) ready_or_error) ->
  ready ns -> returns (With b s ns) ready_or_error.
Proof. intros Hs Hn. destruct b; simpl; [by apply Hs|]. by apply returns_done. Qed.

Lemma Pipeline_returns in_ t enabled lookup :
  returns (Pipeline [Init in_ t; With enabled (SubstituteSearchContexts lookup)]) pipeline_post.
Proof.
  unfold Pipeline. cbn [Sequence]. apply returns_bind. run_step (Init_returns in_ t []).
  intros [ns|e] Hp; [|by do 2 apply returns_done]. apply processed_ready in Hp.
  run_step (With_returns enabled (SubstituteSearchContexts lookup) ns); [|done|].
  { intros ms Hms. by apply SubstituteSearchContexts_returns. }
  intros [out|e] Ho; apply returns_done; [by apply plan_of_ready|by apply returns_done].
Qed.
End Plans.

(** ** ASCII bytes and runes *)

Lemma decode_members buf r n :
  DecodeRune buf = (r, n) -> Forall (fun b => b = r \/ (0x80 <= b)%Z) (take n buf).
Proof.
  unfold DecodeRune. destruct buf as [|s0 t]; [by intros [= <- <-]|].
  destruct (s0 <? 0x80)%Z eqn:E; [intros [= <- <-]; by repeat constructor|]. apply Z.ltb_ge in E.
  assert (forall m lo hi, lead s0 = Some (m, lo, hi) -> (0x80 <= lo)%Z) as Hlo.
  { unfold lead. intros m lo hi. repeat case_match; intros; simplify_eq; lia. }
  destruct (lead s0) as [[[m lo] hi]|]; [specialize (Hlo m lo hi eq_refl)|clear Hlo];
    repeat case_match; intros; simplify_eq;
    unfold in_range, cont, in_range in *; rewrite ?andb_true_iff, ?Z.leb_le in *;
    cbn [take]; repeat (apply Forall_cons; split; [right; lia|]); by apply Forall_nil.
Qed.

Lemma runes_elem c s : (c < 0x80)%Z -> c ∈ s -> c ∈ runes s.
Proof.
  intros Hc. induction s as [s IH] using list_length_ind. intros Hs. unfold runes.
  destruct (segments s) as [|g gs] eqn:E.
  { apply Utf8Facts.segments_nil_inv in E as ->. by apply elem_of_nil in Hs. }
  apply Utf8Facts.segments_cons in E as (Hne & Hd & Hr & <- & Hw & Hl). csimpl.
  rewrite <- (take_drop (seg_width g) s), elem_of_app in Hs. destruct Hs as [Hs|Hs].
  - apply decode_members in Hd. rewrite Forall_forall in Hd.
    destruct (Hd c Hs) as [->|?]; [by left|lia].
  - right. rewrite <- Hr in Hs. apply IH; [lia|done].
Qed.

Lemma ContainsRune_false s c :
  (c < 0x80)%Z -> ContainsRune s c = false -> Forall (fun d => d <> c) s.
Proof.
  intros Hc H. apply Forall_forall. intros d Hd ->. apply (runes_elem c s Hc) in Hd.
  unfold ContainsRune in H. apply not_true_iff_false in H. apply H, existsb_exists.
  exists c. split; [by apply list_elem_of_In|apply Z.eqb_refl].
Qed.

(** ** Revisions in a plan *)
Section Revisions.
Context {U : UnicodeTables} {R : Regexp} {X : External}.

(** No positive repository filter carries a revision of its own. *)
Definition no_at (p : Param) : Prop :=
  par_Field p = FieldRepo -> par_Negated p = false -> Forall (fun c => c <> 64%Z) (par_Value p).

Definition see_repo (value : gostring) (negated : bool) (_ : Annotation) (s : repo_seen) : repo_seen :=
  MkRepoSeen (if negb negated && ContainsRune value 64%Z then true else seenRepoWithCommit s)
    true (gs_eqb value []).

Lemma seen_no_at ps s :
  seenRepoWithCommit (fold_left (apply_param (fun f v n a s =>
    if gs_eqb FieldRepo f then see_repo v n a s else s)) ps s) = false ->
  seenRepoWithCommit s = false /\ Forall no_at ps.
Proof.
  revert s. induction ps as [|p ps IH]; intros s H; [by split|]. simpl in H.
  apply IH in H as [Hs Hps]. unfold apply_param in Hs. unfold no_at at 1.
  destruct (gs_eqb FieldRepo (par_Field p)) eqn:E.
  - simpl in Hs. destruct (negb (par_Negated p) && _) eqn:E2; [done|]. split; [done|].
    constructor; [|done]. intros _ Hn. rewrite Hn in E2. by apply ContainsRune_false.
  - split; [done|]. constructor; [|done]. intros Hf. apply gs_eqb_false in E. congruence.
Qed.

Lemma rev_specified nodes :
  Exists nodes is_rev_param = existsb (fun p => gs_eqb (par_Field p) FieldRev) (params_of nodes).
Proof.
  rewrite Exists_leaves by done. unfold params_of.
  induction (leaves_of nodes) as [|n l IH]; [done|]. destruct n; simpl; by rewrite IH.
Qed.

Lemma validateRepoRevPair_no_at nodes :
  validateRepoRevPair nodes = None ->
  existsb (fun p => gs_eqb (par_Field p) FieldRev) (params_of nodes) = true ->
  Forall no_at (params_of nodes).
Proof.
  unfold validateRepoRevPair. rewrite rev_specified. intros H Hrev. rewrite Hrev in H.
  unfold VisitField in H. rewrite VisitParameter_fold in H. fold see_repo in H.
  destruct (seenRepoWithCommit _) eqn:E; [done|]. by apply seen_no_at in E as [_ ?].
Qed.

Lemma last_rev_exists ps :
  last_rev ps <> [] -> existsb (fun p => gs_eqb (par_Field p) FieldRev) ps = true.
Proof.
  unfold last_rev. intros H. destruct (List.filter is_rev ps) as [|p l] eqn:E; [done|].
  assert (In p (List.filter is_rev ps)) as [Hin Hr]%filter_In by (rewrite E; by left).
  apply existsb_exists. exists p. split; [done|]. unfold is_rev in Hr.
  apply gs_eqb_eq in Hr as <-. apply gs_eqb_refl.
Qed.

Lemma validate_revs nodes : validate nodes = Done None -> validateRepoRevPair nodes = None.
Proof.
  unfold validate. intros H. apply run_bind_Done in H as ([e|] & _ & H); [done|].
  destruct (satisfies _) eqn:E; [done|]. apply (satisfies_In _ _ E). simpl. auto.
Qed.

(** Attaching a revision to a valid repository filter without one keeps it
    valid. *)
Lemma ParseRepositoryRevisions_attach v revision f :
  Forall (fun c => c <> 64%Z) v -> ParseRepositoryRevisions v = Ok f ->
  ParseRepositoryRevisions (v ++ str "@" ++ revision) =
  Ok (MkRepoFilter v (RepoRegex f) (parse_revs revision)).
Proof.
  intros Hat. unfold ParseRepositoryRevisions. change (str "@") with [64%Z].
  rewrite Index_plain by done. change ([64%Z] ++ revision) with (64%Z :: revision).
  rewrite Index_app, take_app_length by done.
  destruct (Compile (str "(?i)" ++ v)) as [re|e]; [|done]. intros [= <-]. do 3 f_equal.
  by rewrite drop_app_ge, Nat.add_comm, Nat.add_sub by lia.
Qed.

Lemma attach_valid revision p seen :
  no_at p -> param_valid seen p -> param_valid seen (attach_rev revision p).
Proof.
  intros Hat Hv. unfold attach_rev. fold (is_predicate p).
  destruct (gs_eqb FieldRepo (par_Field p) && _ && _) eqn:E; [|done].
  rewrite !andb_true_iff, !negb_true_iff, gs_eqb_eq in E. destruct E as [[Ef En] Ep].
  unfold param_valid in *. rewrite Ep, <- Ef, En in Hv. unfold is_predicate in *. simpl.
  rewrite Ep, En. pose proof (Hat (eq_sym Ef) En) as Hno.
  apply validateField_repo in Hv as [f Hf].
  pose proof (ParseRepositoryRevisions_attach (par_Value p) revision f Hno Hf) as Ha.
  change (satisfies [isValidRepoRegexp (par_Value p ++ str "@" ++ revision) false] = None).
  unfold isValidRepoRegexp. by rewrite Ha.
Qed.

Lemma concat_rev_valid b :
  plan_ok b -> validate (ToParseTree b) = Done None -> each_valid (b_Parameters (concat_rev b)).
Proof.
  intros Hb Hv. pose proof (validate_params _ Hv) as Hp%valid_params_each.
  apply validate_revs in Hv. rewrite (ToParseTree_params _ _ (proj1 Hb)) in Hp.
  unfold concat_rev. destruct (gs_eqb (last_rev _) []) eqn:E; [done|].
  apply gs_eqb_false, last_rev_exists in E.
  rewrite <- (ToParseTree_params _ _ (proj1 Hb)) in E. apply validateRepoRevPair_no_at in E; [|done].
  rewrite (ToParseTree_params _ _ (proj1 Hb)) in E. clear Hb Hv. unfold each_valid in *.
  cbn [b_Parameters]. generalize (last_rev (b_Parameters b)) as revision. intros revision.
  induction Hp as [|p ps [s Hs] _ IH]; [constructor|]. apply Forall_cons in E as [Ep E].
  simpl. destruct (negb (is_rev p)); [|by apply IH]. constructor; [|by apply IH].
  exists s. by apply attach_valid.
Qed.
End Revisions.

Section Pipeline.
Context {U : UnicodeTables} {R : Regexp} {X : External}.

Lemma process_post in_ t enabled lookup plan :
  process in_ t enabled lookup = Done (Ok plan) -> pipeline_post (Ok plan).
Proof.
  intros H. destruct (Pipeline_returns in_ t enabled lookup) as (r & Hr & Hp).
  unfold process in H. rewrite Hr in H. by injection H as ->.
Qed.

(** C1: the whole pipeline is total: for every input string, search type,
    context lookup, language table, date and duration parser and regular
    expression package it returns a plan or errors.  In particular [validate]
    never reaches the panics of [ParseAsPredicate], [PredicateRegistry.Get] and
    [Q.Repositories], and [substituteConcat] never indexes an empty list. *)
Theorem Pipeline_total (in_ : gostring) (t : SearchType) (enabled : bool)
    (lookup : gostring -> result gerror gostring) :
  exists r, process in_ t enabled lookup = Done r.
Proof. destruct (Pipeline_returns in_ t enabled lookup) as (r & Hr & _). eauto. Qed.

Lemma attach_rev_field revision p : par_Field (attach_rev revision p) = par_Field p.
Proof.
  unfold attach_rev. destruct (gs_eqb FieldRepo (par_Field p) && _ && _) eqn:E; [|done].
  rewrite !andb_true_iff, gs_eqb_eq in E. by destruct E as [[<- _] _].
Qed.

Lemma concat_rev_fields P b :
  Forall (fun p => P (par_Field p)) (b_Parameters b) ->
  Forall (fun p => P (par_Field p)) (b_Parameters (concat_rev b)).
Proof.
  unfold concat_rev. intros H. destruct (gs_eqb _ _); [done|]. cbn [b_Parameters].
  generalize (last_rev (b_Parameters b)). intros revision.
  induction H as [|p ps Hp _ IH]; simpl; [constructor|].
  destruct (negb (is_rev p)); [|done]. constructor; [|done]. by rewrite attach_rev_field.
Qed.

Lemma concat_rev_last b : last_rev (b_Parameters (concat_rev b)) = [].
Proof.
  unfold concat_rev. destruct (gs_eqb _ _) eqn:E; [by apply gs_eqb_eq in E|]. clear E.
  generalize (last_rev (b_Parameters b)). intros revision. cbn [b_Parameters].
  assert (forall ps, List.filter is_rev (map (attach_rev revision)
    (List.filter (fun p => negb (is_rev p)) ps)) = []) as H.
  { induction ps as [|p ps IH]; [done|]. simpl. destruct (is_rev p) eqn:E; simpl; [done|].
    unfold is_rev in *. by rewrite attach_rev_field, E, IH. }
  unfold last_rev. by rewrite H.
Qed.

Lemma concat_rev_pattern b : b_Pattern (concat_rev b) = b_Pattern b.
Proof. unfold concat_rev. by destruct (gs_eqb _ _). Qed.

(** A basic query as the search engine expects it: canonical fields only, a
    pattern without parameters and without [Concat], and no revision left to
    attach. *)
Definition searchable (b : Basic) : Prop :=
  Forall normal_field (b_Parameters b) /\ last_rev (b_Parameters b) = [] /\
  forall p, b_Pattern b = Some p -> isPatternExpression [p] = true /\ all_ops not_concat p.

Lemma process_searchable in_ t enabled lookup plan :
  process in_ t enabled lookup = Done (Ok plan) -> Forall searchable plan.
Proof.
  intros (bs & -> & Hb & _)%process_post. apply Forall_map. eapply Forall_impl; [exact Hb|].
  intros b Hok. unfold searchable. rewrite concat_rev_last, concat_rev_pattern. simpl. split_and!; [|done|].
  - apply (concat_rev_fields (fun f => f = [] \/ canonical f = true)).
    eapply Forall_impl; [by apply plan_ok_params|]. by intros p [? _].
  - intros p Hp. destruct Hok as [[_ Hpure] Hops]. split; [by apply Hpure|by apply Hops].
Qed.

(** C5: every basic query of a plan has only canonical field names (no alias,
    no [content]), a pattern expression that holds no parameter and no
    [Concat] operator, and no [rev:] filter with a value. *)
Theorem Pipeline_searchable (in_ : gostring) (t : SearchType) (enabled : bool)
    (lookup : gostring -> result gerror gostring) (plan : list Basic) :
  process in_ t enabled lookup = Done (Ok plan) -> Forall searchable plan.
Proof. apply process_searchable. Qed.

(** The accessors of [Parameters] that panic on values they cannot read. *)
Definition readable (ps : list Param) : Prop :=
  (exists c, Parameters_Count ps = Done c /\ forall n, c = Some n -> (0 < n < 2 ^ 31)%Z) /\
  (exists v, Parameters_Fork ps = Done v) /\ (exists v, Parameters_Archived ps = Done v) /\
  (exists v, Parameters_Index ps = Done v) /\ (exists v, GetTimeout ps = Done v) /\
  (exists r, Parameters_Repositories ps = Done r) /\ (exists r, RepoHasFileContent ps = Done r) /\
  (exists r, RepoHasKVPs ps = Done r) /\ (exists r, FileHasOwner ps = Done r) /\
  (exists r, RepoContainsCommitAfter ps = Done r) /\ (exists r, RepoHasDescription ps = Done r) /\
  (exists r, RepoHasTopics ps = Done r) /\ (exists r, FileContainsContent ps = Done r).

Lemma returns_exists {A} (m : run A) Q : returns m Q -> exists a, m = Done a.
Proof. intros (a & -> & _). eauto. Qed.

Lemma each_valid_readable ps : each_valid ps -> readable ps.
Proof.
  intros H. assert (each_valid (params_of (toNodes ps))) as Hn by by rewrite params_of_toNodes.
  assert (forall (S : Type) want (f : Predicate -> S -> S) s,
    returns (VisitTypedPredicate want (toNodes ps) f s) (fun _ => True)) as Ht
    by (intros; by apply VisitTypedPredicate_returns).
  unfold readable. split_and!; try (by eapply returns_exists, Ht).
  - by apply (Count_returns (toNodes ps)).
  - eapply returns_exists, (yesNoOnlyValue_returns (toNodes ps)); [simpl; auto|done].
  - eapply returns_exists, (yesNoOnlyValue_returns (toNodes ps)); [simpl; auto|done].
  - unfold Parameters_Index. eapply returns_exists, returns_bind, returns_mono;
      [apply (yesNoOnlyValue_returns (toNodes ps)); [simpl; auto|done]|].
    intros v _. by apply (returns_done _ (fun _ => True)).
  - by eapply returns_exists, GetTimeout_returns.
  - eapply returns_exists, (Repositories_returns (toNodes ps)). by apply valid_repo_parses.
  - eapply returns_exists. unfold RepoHasFileContent. cbv zeta.
    do 3 (run_step Ht; intros ? _). apply Ht.
  - eapply returns_exists. unfold RepoHasKVPs. do 3 (run_step Ht; intros ? _). apply Ht.
Qed.

Lemma process_readable in_ t enabled lookup plan :
  process in_ t enabled lookup = Done (Ok plan) -> Forall (fun b => readable (b_Parameters b)) plan.
Proof.
  intros (bs & -> & Hb & Hv)%process_post. apply Forall_map.
  induction Hb as [|b bs Hok _ IH]; inversion Hv; constructor; auto.
  by apply each_valid_readable, concat_rev_valid.
Qed.

(** C4: on the parameters of every basic query of a plan, after revisions have
    been attached, no accessor panics: counts are positive 32-bit numbers,
    durations, booleans, repository filters with their revisions and the
    arguments of all predicates can be read. *)
Theorem Pipeline_readable (in_ : gostring) (t : SearchType) (enabled : bool)
    (lookup : gostring -> result gerror gostring) (plan : list Basic) :
  process in_ t enabled lookup = Done (Ok plan) -> Forall (fun b => readable (b_Parameters b)) plan.
Proof. apply process_readable. Qed.

(** ** The search client *)

(** The search type a parameter of the query asks for. *)
Definition asked_type (p : Param) : option SearchType :=
  if gs_eqb (str "patterntype") (par_Field p) then
    let value := par_Value p in
    if gs_eqb value (str "standard") then Some SearchTypeStandard
    else if gs_eqb value (str "regex") || gs_eqb value (str "regexp") then Some SearchTypeRegex
    else if gs_eqb value (str "literal") then Some SearchTypeLiteral
    else if gs_eqb value (str "structural") then Some SearchTypeStructural
    else if gs_eqb value (str "lucky") then Some SearchTypeLucky
    else if gs_eqb value (str "keyword") then Some SearchTypeKeyword
    else None
  else None.

Lemma override_fold q t :
  overrideSearchType q t =
    let! r := Parse q SearchTypeLiteral in
    Done match r with
         | Err _ => t
         | Ok ns => default t (last (omap asked_type (params_of (LowercaseFieldNames ns))))
         end.
Proof.
  unfold overrideSearchType. destruct (Parse q SearchTypeLiteral) as [[ns|e]| |]; simpl; try done.
  f_equal. unfold VisitField. rewrite VisitParameter_fold.
  generalize (params_of (LowercaseFieldNames ns)) as ps. intros ps. revert t.
  induction ps as [|p ps IH]; intros t; [done|]. simpl. rewrite IH. unfold apply_param at 1.
  unfold asked_type at 2. change (list_omap Param SearchType asked_type ps) with (omap asked_type ps).
  repeat case_match; simpl; rewrite ?last_cons; by destruct (last (omap asked_type ps)).
Qed.

(** The pattern type of a query is decided by the query alone when it has a
    [patterntype:] filter with a known value (the last one wins, whatever the
    case of its field name), and is the type the request asked for otherwise;
    a query that does not parse keeps the requested type. *)
Theorem overrideSearchType_correct (q : gostring) :
  exists r, Parse q SearchTypeLiteral = Done r /\
  forall t, overrideSearchType q t =
    Done match r with
         | Err _ => t
         | Ok ns => default t (last (omap asked_type (params_of (LowercaseFieldNames ns))))
         end.
Proof.
  destruct (Parse_returns q SearchTypeLiteral) as (r & Hr & _). exists r. split; [done|].
  intros t. by rewrite override_fold, Hr.
Qed.

Lemma override_returns q t : exists t', overrideSearchType q t = Done t'.
Proof.
  destruct (Parse_returns q SearchTypeLiteral) as (r & Hr & _). rewrite override_fold, Hr. simpl. eauto.
Qed.

(** What the client hands to the search engine. *)
Definition planned (structural : bool) (version : gostring) (patternType : option gostring)
    (q : gostring) (out : SearchType * list Basic) : Prop :=
  (exists t, detectSearchType version patternType = Ok t /\ overrideSearchType q t = Done out.1) /\
  (out.1 = SearchTypeStructural -> structural = true) /\
  Forall searchable out.2 /\ Forall (fun b => readable (b_Parameters b)) out.2.

(** C8: the client plans every request without a panic: it fails, or it returns
    the search type the request and the query determine together with a plan
    whose basic queries the engine can search and whose filters can be read; a
    structural search is planned only when the site configuration enables it. *)
Theorem Plan_correct (structural : bool) (settings : result gerror bool)
    (lookup : gostring -> result gerror gostring) (version : gostring)
    (patternType : option gostring) (q : gostring) :
  exists r, Plan structural settings lookup version patternType q = Done r /\
  match r with Ok out => planned structural version patternType q out | Err _ => True end.
Proof.
  unfold Plan. destruct (detectSearchType version patternType) as [t|e] eqn:Ht; [|by eexists].
  destruct (override_returns q t) as [t' Ho]. rewrite Ho. simpl.
  destruct (bool_decide (t' = SearchTypeStructural) && negb structural) eqn:Hs; [by eexists|].
  destruct settings as [enabled|e]; [|by eexists].
  destruct (Pipeline_returns q t' enabled lookup) as ([plan|es] & Hr & _);
    fold (process q t' enabled lookup) in Hr; rewrite Hr; simpl; [|by eexists].
  eexists. split; [done|]. split_and!; [by eexists| |by eapply process_searchable|by eapply process_readable].
  simpl. intros ->. by destruct structural.
Qed.
End Pipeline.

Section Witness.
#[local] Instance tables : UnicodeTables := plain_tables.
#[local] Instance any_regexp : Regexp :=
  {| compiled := gostring; Compile s := Ok s; SyntaxParse _ := None; QuoteMeta s := s |}.
#[local] Instance any_external : External :=
  {| GetLanguageByAlias s := Some s; ParseDuration _ := Some 0%Z; ParseGitDate _ := None |}.

(** A query with an alias, a revision, a predicate, a context and an
    or-expression of files. *)
Definition w_input : gostring :=
  str "r:foo rev:v1 repo:has(k:v) context:c (file:a or f:b) hello count:all".
Definition w_lookup (c : gostring) : result gerror gostring := Ok (str "repo:bar lang:go").
Definition w_plan : list Basic :=
  Eval vm_compute in
    match process w_input SearchTypeStandard true w_lookup with Done (Ok p) => p | _ => [] end.

Lemma Pipeline_searchable_witness : Forall searchable w_plan.
Proof. apply (Pipeline_searchable w_input SearchTypeStandard true w_lookup). vm_compute. reflexivity. Defined.

Lemma Pipeline_readable_witness : Forall (fun b => readable (b_Parameters b)) w_plan.
Proof. apply (Pipeline_readable w_input SearchTypeStandard true w_lookup). vm_compute. reflexivity. Defined.
End Witness.
