(* ===== verification/TypesFacts.v ===== *)
(** Theorems about the accessors of [types.go] and about plans as trees: the
    deprecated predicates on key-value pairs and their replacements, and
    [Plan.ToQ]. *)
From S2P Require Import Prelude GoStr GoLib Syntax Operators Scan Mapper Partition Parser ParserFacts PartitionFacts Transform PlanFacts TransformFacts RepoRevs Predicates Validate Printer Types ValidateFacts.

(** ** Key-value predicates *)

(** [has.meta] reads everything that the deprecated [has] reads. *)
Lemma unmarshal_kvp_meta params negated key value n :
  unmarshal_kvp params negated = Done (Ok (PRepoHasKVP key value n)) ->
  n = negated /\ key <> [] /\
  unmarshal_meta params negated =
  Done (Ok (PRepoHasMeta key (if gs_eqb value [] then None else Some value) negated false)).
Proof.
  unfold unmarshal_kvp, unmarshal_meta. intros H.
  apply run_bind_Done in H as ([[k adv]|e] & -> & H); [|done]. cbn [run_bind].
  apply run_bind_Done in H as (rest & Hrest & H).
  destruct (HasPrefix rest (str ":")) eqn:Hp; cbn [negb] in H; [|done].
  apply run_bind_Done in H as (rest2 & Hrest2 & H).
  apply run_bind_Done in H as ([[v adv2]|e] & Hscan & H); [|done].
  apply run_bind_Done in H as (rest3 & Hrest3 & H).
  destruct (gs_eqb rest3 []) eqn:E3; cbn [negb] in H; [|done].
  destruct (gs_eqb k []) eqn:Ek; [done|]. injection H as <- <- <-.
  split_and!; [done|by apply gs_eqb_false|].
  rewrite Hrest. cbn [run_bind]. rewrite Hp, Hrest2. cbn [run_bind]. rewrite Hscan.
  cbn [run_bind]. rewrite Hrest3. cbn [run_bind]. by rewrite E3.
Qed.

(** A key that needs no quotes: no colon in it, and neither a quote nor a
    blank around it. *)
Definition blank (c : Z) : bool := existsb (Z.eqb c) [32%Z; 9%Z].
Definition plain_key (key : gostring) : Prop :=
  Forall (fun c => c <> 58%Z) key /\
  (exists c t, key = c :: t /\ blank c = false /\ c <> DQUOTE_rune /\ c <> SQUOTE_rune) /\
  (exists t c, key = t ++ [c] /\ blank c = false).

Lemma trim_left_keep f c t : f c = false -> trim_left f (c :: t) = c :: t.
Proof. simpl. by intros ->. Qed.

Lemma Trim_keep c t d u :
  c :: t = u ++ [d] -> blank c = false -> blank d = false ->
  Trim (c :: t) [32%Z; 9%Z] = c :: t.
Proof.
  intros Heq Hc Hd. unfold Trim. rewrite trim_left_keep by done.
  rewrite Heq, rev_unit, trim_left_keep by done. by rewrite <- rev_unit, rev_involutive.
Qed.

Lemma plain_scanLiteral key rest :
  plain_key key -> (rest = [] \/ rest = [58%Z]) ->
  scanLiteral (key ++ rest) = Done (Ok (key, length key)).
Proof.
  intros (Hk & (c & t & -> & _ & Hd & Hs) & _) Hrest. unfold scanLiteral.
  assert (HasPrefix ((c :: t) ++ rest) DQUOTE = false) as ->.
  { change (((34 =? c)%Z && true) = false). rewrite andb_true_r. apply Z.eqb_neq. auto. }
  assert (HasPrefix ((c :: t) ++ rest) SQUOTE = false) as ->.
  { change (((39 =? c)%Z && true) = false). rewrite andb_true_r. apply Z.eqb_neq. auto. }
  change (str ":") with [58%Z]. destruct Hrest as [->| ->].
  - rewrite app_nil_r. by rewrite Index_plain.
  - rewrite Index_app by done. by rewrite take_app_length.
Qed.

Lemma plain_Trim key rest :
  plain_key key -> (rest = [] \/ rest = [58%Z]) -> Trim (key ++ rest) [32%Z; 9%Z] = key ++ rest.
Proof.
  intros (_ & (c & t & -> & Hc & _) & (u & d & He & Hd)) [->| ->].
  - rewrite app_nil_r. by eapply Trim_keep.
  - cbn [app]. by apply (Trim_keep c (t ++ [58%Z]) 58%Z (c :: t)).
Qed.

Lemma meta_key key negated :
  plain_key key -> unmarshal_meta key negated = Done (Ok (PRepoHasMeta key None negated true)).
Proof.
  intros Hk. unfold unmarshal_meta. pose proof (plain_Trim key [] Hk (or_introl eq_refl)) as Ht.
  rewrite app_nil_r in Ht. rewrite Ht. pose proof (plain_scanLiteral key [] Hk (or_introl eq_refl)) as Hl.
  rewrite app_nil_r in Hl. rewrite Hl. cbn [run_bind].
  destruct Hk as (_ & (c & t & -> & _) & _).
  rewrite (proj2 (gs_eqb_false _ _)) by done. rewrite slice_from_ok, drop_all by lia. done.
Qed.

Lemma meta_tag key negated :
  plain_key key ->
  unmarshal_meta (key ++ str ":") negated = Done (Ok (PRepoHasMeta key None negated false)).
Proof.
  intros Hk. unfold unmarshal_meta. change (str ":") with [58%Z].
  rewrite (plain_Trim key [58%Z] Hk), (plain_scanLiteral key [58%Z] Hk) by auto. cbn [run_bind].
  destruct Hk as (_ & (c & t & -> & _) & _). rewrite (proj2 (gs_eqb_false _ _)) by done.
  rewrite slice_from_ok, drop_app_length by (rewrite length_app; lia). done.
Qed.

(** The deprecated predicates on key-value pairs can be replaced by
    [has.meta] as their comments say.  What [has] accepts with a value,
    [has.meta] reads as the same filter; and for keys without quotes, colons
    and outer blanks, [has.meta(key:)] is the filter of [has.tag(key)] and
    [has.meta(key)] the filter of [has.key(key)]. *)
Theorem has_meta_replaces_deprecated {U : UnicodeTables} {R : Regexp} (params key value : gostring)
    (negated : bool) :
  (forall pred, Unmarshal RepoHasKVPPredicate params negated = Done (Ok pred) ->
     pred = PRepoHasKVP key value negated -> value <> [] ->
     exists pred', Unmarshal RepoHasMetaPredicate params negated = Done (Ok pred') /\
       kvp_filter pred' = kvp_filter pred) /\
  (plain_key key ->
     exists tag key_only, Unmarshal RepoHasMetaPredicate (key ++ str ":") negated = Done (Ok tag) /\
       Unmarshal RepoHasMetaPredicate key negated = Done (Ok key_only) /\
       Unmarshal RepoHasTagPredicate key negated = Done (Ok (PRepoHasTag key negated)) /\
       Unmarshal RepoHasKeyPredicate key negated = Done (Ok (PRepoHasKey key negated)) /\
       kvp_filter tag = kvp_filter (PRepoHasTag key negated) /\
       kvp_filter key_only = kvp_filter (PRepoHasKey key negated)).
Proof.
  split.
  - intros pred Hu -> Hv. simpl in Hu. apply unmarshal_kvp_meta in Hu as (_ & _ & Hm).
    eexists. split; [exact Hm|]. simpl. by rewrite (proj2 (gs_eqb_false _ _)).
  - intros Hk. eexists _, _. split; [by apply meta_tag|]. split; [by apply meta_key|].
    destruct Hk as (_ & (c & t & -> & _) & _). done.
Qed.

Section Witness.
#[local] Instance kvp_tables : UnicodeTables := plain_tables.
#[local] Instance kvp_regexp : Regexp :=
  {| compiled := gostring; Compile s := Ok s; SyntaxParse _ := None; QuoteMeta s := s |}.

Lemma has_meta_replaces_deprecated_witness :
  plain_key (str "k") /\
  (exists pred, Unmarshal RepoHasMetaPredicate (str "k:v") false = Done (Ok pred) /\
     kvp_filter pred = kvp_filter (PRepoHasKVP (str "k") (str "v") false)) /\
  (exists tag, Unmarshal RepoHasMetaPredicate (str "k:") false = Done (Ok tag) /\
     kvp_filter tag = kvp_filter (PRepoHasTag (str "k") false)).
Proof.
  destruct (has_meta_replaces_deprecated (str "k:v") (str "k") (str "v") false) as [Hkvp Hkey].
  assert (plain_key (str "k")) as Hk.
  { split_and!; [repeat constructor; discriminate|exists 107%Z, []|exists [], 107%Z];
      split_and!; reflexivity || discriminate. }
  split_and!; [exact Hk| |].
  - eapply Hkvp; [vm_compute; reflexivity|reflexivity|discriminate].
  - destruct (Hkey Hk) as (tag & _ & Ht & _ & _ & _ & Hf & _). exists tag. split; [exact Ht|exact Hf].
Defined.
End Witness.

(** ** Plans as trees *)
Section ToQ.
Context {U : UnicodeTables} (v : Node -> bool).

(** The valuation does not look at the label that hoisting sets. *)
Hypothesis v_hoist : forall n, v (hoist_leaf n) = v n.

Definition wide_op (_ : OperatorKind) (m : nat) : Prop := (2 <= m)%nat.

Lemma no_empty_nodes ns : no_empty ns <-> Forall (fun n => no_empty [n]) ns.
Proof.
  induction ns as [|n ns IH]; [split; constructor|]. by rewrite no_empty_cons, Forall_cons, IH.
Qed.

(** One node under the relabelling of [Hoist]. *)
Definition relabels (n : Node) : Prop :=
  exists m, fst (map_node (MkMapper None BaseMapParameter
              (fun w g a (_ : unit) => (hoist_label w g a, tt))) n tt) = [m] /\
    eval v m = eval v n /\ no_empty [m].

Lemma MapPattern_hoist_relabels ns :
  Forall relabels ns ->
  (forall k, eval_list v k (MapPattern ns hoist_label) = eval_list v k ns) /\
  no_empty (MapPattern ns hoist_label) /\ length (MapPattern ns hoist_label) = length ns.
Proof.
  unfold MapPattern, MapPatternS. induction 1 as [|n ns (m & Hm & Hv & He) _ IH].
  { split_and!; [done|constructor|done]. }
  simpl. destruct (map_node _ n tt) as [l []]. simpl in Hm. subst l.
  destruct (MapNodes _ ns tt) as [rest []]. simpl in *. destruct IH as (IHv & IHe & IHl).
  split_and!.
  - intros k. change (m :: rest) with ([m] ++ rest). change (n :: ns) with ([n] ++ ns).
    by rewrite !eval_list_app, !eval_list_singleton, Hv, IHv.
  - by apply no_empty_cons.
  - by rewrite IHl.
Qed.

Lemma hoist_relabels n : all_ops wide_op n -> no_empty [n] -> relabels n.
Proof.
  induction n as [[w g [l r]]|[f w g a]|k ns a IH] using Node_nested_ind; intros Hw He.
  - eexists. split_and!; [done|apply (v_hoist (PatternNode _))|].
    apply Forall_cons in He as [He _]. by repeat constructor.
  - eexists. by split_and!.
  - apply all_ops_operator in Hw as [Hlen Hns]. apply no_empty_operator in He.
    assert (Forall relabels ns) as Hr.
    { clear Hlen. apply no_empty_nodes in He. induction IH as [|n ns Hn _ IHns]; [constructor|].
      apply Forall_cons in Hns as [? ?]. apply Forall_cons in He as [? ?]. constructor; auto. }
    destruct (MapPattern_hoist_relabels ns Hr) as (Hv & Hne & Hl).
    unfold relabels. rewrite map_node_operator by done.
    unfold MapPattern, MapPatternS in *. destruct (MapNodes _ ns tt) as [ms []]. simpl in *.
    destruct (NewOperator_eval v ms k) as (m & Hm & Hev); [|done|].
    { intros ->. unfold wide_op in Hlen. simpl in Hl. lia. }
    exists m. split_and!; [done|by rewrite Hev, Hv|]. rewrite <- Hm. by apply NewOperator_no_empty.
Qed.

(** A pure pattern expression is its own partition. *)
Lemma PartitionSearchPattern_pure n :
  isPatternExpression [n] = true -> PartitionSearchPattern [n] = Ok ([], Some n).
Proof.
  intros Hp. rewrite PartitionSearchPattern_unfold. unfold top_nodes.
  assert (processTopLevel n = Ok [n]) as ->.
  { destruct n as [p|p|k ns a]; [done..|]. unfold processTopLevel. rewrite Hp. by destruct k. }
  simpl. unfold scope_or_pattern. rewrite Hp. simpl. by destruct n.
Qed.

Lemma hoist_loop_pure i n ops pattern scope pattern' scope' :
  isPatternExpression ops = true ->
  hoist_loop i n ops pattern scope = Ok (pattern', scope') ->
  pattern' = pattern ++ ops /\ scope' = scope.
Proof.
  revert i pattern scope. induction ops as [|node ops IH]; intros i pattern scope Hp.
  { intros [= <- <-]. by rewrite app_nil_r. }
  rewrite isPatternExpression_cons in Hp. apply andb_true_iff in Hp as [Hn Hops]. simpl.
  destruct (_ || _).
  - unfold hoist_end. rewrite PartitionSearchPattern_pure by done.
    destruct (negb (naturallyOrdered _ _)); [done|]. intros H. apply IH in H as [-> ->]; [|done].
    by rewrite <- app_assoc, app_nil_r.
  - rewrite Hn. simpl. intros H. apply IH in H as [-> ->]; [|done]. by rewrite <- app_assoc.
Qed.

Lemma Hoist_pure_eval p out :
  isPatternExpression [p] = true -> all_ops wide_op p -> no_empty [p] -> Hoist [p] = Ok out ->
  eval_list v And out = eval v p /\ no_empty out /\ out <> [].
Proof.
  intros Hp Hw He. unfold Hoist. destruct p as [|?|kind ops a]; try done.
  destruct (kind_eqb kind Concat); [done|].
  destruct (hoist_loop _ _ _ _ _) as [[P S]|] eqn:E; [|done]. intros [= <-].
  rewrite isPatternExpression_operator in Hp. apply hoist_loop_pure in E as [-> ->]; [|done].
  simpl app. apply all_ops_operator in Hw as [Hlen Hns]. apply no_empty_operator in He.
  assert (Forall relabels ops) as Hr.
  { apply no_empty_nodes in He. rewrite Forall_forall in *. auto using hoist_relabels. }
  destruct (MapPattern_hoist_relabels ops Hr) as (Hv & Hne & Hl).
  destruct (NewOperator_eval v (MapPattern ops hoist_label) kind) as (m & Hm & Hev); [|done|].
  { intros Hnil. rewrite Hnil in Hl. unfold wide_op in Hlen. simpl in Hl. lia. }
  rewrite Hm. split_and!; [|rewrite <- Hm; by apply NewOperator_no_empty|done].
  by rewrite eval_list_singleton, Hev, Hv.
Qed.

(** A basic query that says something, without empty strings. *)
Definition live_basic (b : Basic) : Prop :=
  pure_basic (fun n => empty_leaf n = false) b /\ pattern_ops wide_op b /\
  (b_Parameters b <> [] \/ b_Pattern b <> None).

Lemma eval_toNodes ps : eval_list v And (toNodes ps) = eval_params v ps.
Proof. induction ps as [|p ps IH]; [done|]. rewrite toNodes_cons, eval_list_cons, IH. done. Qed.

Lemma ToParseTree_eval b :
  live_basic b ->
  eval_list v And (ToParseTree b) = eval_basic v b /\ no_empty (ToParseTree b) /\ ToParseTree b <> [].
Proof.
  intros ([Hps Hpat] & Hops & Hsome). unfold ToParseTree, eval_basic.
  assert (no_empty (toNodes (b_Parameters b))) as Hn by (unfold no_empty; by rewrite leaves_of_toNodes).
  destruct (b_Pattern b) as [p|] eqn:E; simpl eval_opt.
  2: { rewrite eval_toNodes, andb_true_r. split_and!; [done|done|]. destruct Hsome as [H|]; [|done].
       by destruct (b_Parameters b). }
  destruct (Hpat p eq_refl) as [Hpure Hl]. specialize (Hops p E).
  assert (no_empty [p]) as Hp by (unfold no_empty; by rewrite leaves_of_singleton).
  assert (eval_list v And (toNodes (b_Parameters b) ++ [p]) =
          eval_params v (b_Parameters b) && eval v p) as Hplain
    by (by rewrite eval_list_app, eval_toNodes, eval_list_singleton).
  destruct (Hoist _) as [out|] eqn:Eh.
  - destruct (b_Parameters b) as [|q [|]] eqn:Eb; [|done..]. cbn [toNodes map app] in Eh.
    by apply Hoist_pure_eval.
  - split_and!; [done|by apply no_empty_app|]. by intros [_ ?]%app_nil.
Qed.

Lemma ToQ_eval plan :
  plan <> [] -> Forall live_basic plan -> eval_list v Or (ToQ plan) = eval_plan v plan.
Proof.
  intros Hne HF. unfold ToQ. set (ns := concat _).
  assert (eval_list v Or ns = eval_plan v plan /\ no_empty ns /\ (plan <> [] -> ns <> []))
    as (Hv & He & Hn).
  { clear Hne. subst ns. induction HF as [|b plan Hb _ (IHv & IHe & _)].
    { split_and!; [done|constructor|done]. }
    destruct (ToParseTree_eval b Hb) as (Hbv & Hbe & Hbn).
    destruct (NewOperator_eval v (ToParseTree b) And Hbn Hbe) as (m & Hm & Hmv).
    cbn [map concat]. rewrite Hm. split_and!.
    - rewrite eval_list_app, eval_list_singleton, Hmv, Hbv, IHv. done.
    - apply no_empty_app. split; [|done]. rewrite <- Hm. by apply NewOperator_no_empty.
    - done. }
  destruct (NewOperator_eval v ns Or (Hn Hne) He) as (m & -> & Hm).
  by rewrite eval_list_singleton, Hm.
Qed.
End ToQ.

(** [Plan.ToQ] models a plan as an or-expression: the tree means that some
    basic query of the plan holds, for every valuation that does not depend on
    the hoisting label, when the basic queries are not empty and hold no empty
    string. *)
Theorem ToQ_equivalent {U : UnicodeTables} (v : Node -> bool) (plan : list Basic) :
  (forall n, v (hoist_leaf n) = v n) -> plan <> [] -> Forall live_basic plan ->
  eval_list v Or (ToQ plan) = eval_plan v plan.
Proof. intros Hv. by apply ToQ_eval. Qed.

Section Witness.
#[local] Instance tables : UnicodeTables := plain_tables.

Definition w_basics : list Basic :=
  [MkBasic [MkParam FieldRepo (str "a") false zeroAnnotation] (Some (w_pat "x"));
   MkBasic [] (Some (Operator Or [w_pat "y"; w_pat "z"] zeroAnnotation))].

Lemma ToQ_equivalent_witness :
  eval_list is_pattern Or (ToQ w_basics) = eval_plan is_pattern w_basics.
Proof.
  apply ToQ_equivalent; [by intros []|discriminate|].
  repeat (apply Forall_cons; split); [..|constructor]; (split_and!; [split|..]).
  all: try (simpl; repeat constructor; done).
  all: intros p [= <-]; try (split; repeat constructor; done); try done.
Defined.
End Witness.
