(* ===== verification/Conformance.v ===== *)
(** The definitions run on the cases of the repository's own tests
    ([parser_test.go], [validate_test.go] and [printer_test.go]) and give the
    results these tests expect.  In the expected strings an apostrophe stands
    for a double quote. *)
From S2P Require Import Prelude GoStr GoLib Syntax Operators Scan Mapper Partition Parser Transform RepoRevs Predicates Validate Printer Types Pipeline.

#[local] Instance tables : UnicodeTables := plain_tables.
#[local] Instance any_regexp : Regexp :=
  {| compiled := gostring; Compile s := Ok s; SyntaxParse _ := None; QuoteMeta s := s |}.
#[local] Instance any_external : External :=
  {| GetLanguageByAlias s := Some s; ParseDuration _ := Some 0%Z; ParseGitDate _ := None |}.

Definition dq (s : string) : gostring := map (fun c => if (c =? 39)%Z then 34%Z else c) (str s).

(** [TestParse]: the debug string of the tree, or the error message. *)
Definition parse_result (s : string) : gostring :=
  match Parse (str s) SearchTypeRegex with
  | Done (Ok nodes) => toString nodes
  | Done (Err e) => Error_string e
  | _ => str "panic"
  end.

Definition parse_cases : list (string * string) :=
  [("", "");
   ("             ", "");
   ("a", "'a'");
   ("a b", "(concat 'a' 'b')");
   ("a and b and c", "(and 'a' 'b' 'c')");
   ("(f(x)oo((a|b))bar)", "'(f(x)oo((a|b))bar)'");
   ("aorb", "'aorb'");
   ("aANDb", "'aANDb'");
   ("a oror b", "(concat 'a' 'oror' 'b')");
   ("a and b AND c or d and (e OR f) g h i or j", "(or (and 'a' 'b' 'c') (and 'd' (concat (or 'e' 'f') 'g' 'h' 'i')) 'j')");
   ("a and b or c and d or e", "(or (and 'a' 'b') (and 'c' 'd') 'e')");
   ("(a and b or c and d) or e", "(or (and 'a' 'b') (and 'c' 'd') 'e')");
   ("(a and b or c) or d", "(or (and 'a' 'b') 'c' 'd')");
   ("(a and b or (c and d or f)) or e", "(or (and 'a' 'b') (and 'c' 'd') 'f' 'e')");
   ("(a and (b or c) and d) or e", "(or (and 'a' (or 'b' 'c') 'd') 'e')");
   ("(((a b c))) and d", "(and '(((a b c)))' 'd')");
   ("a (b and c) d", "(concat 'a' (and 'b' 'c') 'd')");
   ("(a b c) and (d e f) and (g h i)", "(and '(a b c)' '(d e f)' '(g h i)')");
   ("(a) repo:foo (b)", "(and 'repo:foo' (concat '(a)' '(b)'))");
   ("repo:foo main { and bar {", "(and 'repo:foo' (concat 'main' '{') (concat 'bar' '{'))");
   ("a b (repo:foo c d)", "(concat 'a' 'b' (and 'repo:foo' (concat 'c' 'd')))");
   ("a b (c d repo:foo)", "(concat 'a' 'b' (and 'repo:foo' (concat 'c' 'd')))");
   ("a repo:b repo:c (d repo:e repo:f)", "(and 'repo:b' 'repo:c' (concat 'a' (and 'repo:e' 'repo:f' 'd')))");
   ("a repo:b repo:c (repo:e repo:f (repo:g repo:h))", "(and 'repo:b' 'repo:c' 'repo:e' 'repo:f' 'repo:g' 'repo:h' 'a')");
   ("a repo:b repo:c (repo:e repo:f (repo:g repo:h)) b", "(and 'repo:b' 'repo:c' 'repo:e' 'repo:f' 'repo:g' 'repo:h' (concat 'a' 'b'))");
   ("a repo:b repo:c (repo:e repo:f (repo:g repo:h b)) ", "(and 'repo:b' 'repo:c' (concat 'a' (and 'repo:e' 'repo:f' 'repo:g' 'repo:h' 'b')))");
   ("(repo:foo a (repo:bar b (repo:qux c)))", "(and 'repo:foo' (concat 'a' (and 'repo:bar' (concat 'b' (and 'repo:qux' 'c')))))");
   ("a repo:b repo:c (d repo:e repo:f e)", "(and 'repo:b' 'repo:c' (concat 'a' (and 'repo:e' 'repo:f' (concat 'd' 'e'))))");
   ("(foo) (bar", "(concat '(foo)' '(bar')");
   ("a or or b", "expected operand at 5");
   ("a and OR", "(and 'a' 'OR')");
   ("(a and b) and (c and d)", "(and 'a' 'b' 'c' 'd')");
   ("(a or b) or (c or d)", "(or 'a' 'b' 'c' 'd')");
   ("(((a b c))) d", "(concat '(((a b c)))' 'd')");
   ("(a b) c d", "(concat '(a b)' 'c' 'd')");
   ("a b (c d)", "(concat 'a' 'b' '(c d)')");
   ("(a b) (c d)", "(concat '(a b)' '(c d)')");
   ("(a b) (c d) (e f)", "(concat '(a b)' '(c d)' '(e f)')");
   ("(a b) c d (e f)", "(concat '(a b)' 'c' 'd' '(e f)')");
   ("(a and b and (z or q)) and (c and d) and (e and f)", "(and 'a' 'b' (or 'z' 'q') 'c' 'd' 'e' 'f')");
   ("()", "'()'");
   ("foo()bar", "'foo()bar'");
   ("(x and regex(s)?)", "(and 'x' 'regex(s)?')");
   ("foo(   )bar", "'foo(   )bar'");
   ("(x())", "'(x())'");
   ("(()x(  )(())())", "'(()x(  )(())())'");
   ("() or ()", "(or '()' '()')");
   ("() or (x)", "(or '()' '(x)')");
   ("(()x(  )(y or () or (f))())", "(concat '()' 'x' '()' (or 'y' '()' '(f)') '()')");
   ("(() or ())", "(or '()' '()')");
   ("r:foo (a/foo not .svg)", "(and 'r:foo' (concat 'a/foo' (not '.svg')))");
   ("r:foo (not .svg)", "(and 'r:foo' (not '.svg'))");
   ("(", "'('");
   (")(())(", "unsupported expression. The combination of parentheses in the query have an unclear meaning. Try using the content: filter to quote patterns that contain parentheses");
   ("foo( and bar(", "(and 'foo(' 'bar(')");
   ("repo:foo foo( or bar(", "(and 'repo:foo' (or 'foo(' 'bar('))");
   ("(a or (b and )) or d)", "unsupported expression. The combination of parentheses in the query have an unclear meaning. Try using the content: filter to quote patterns that contain parentheses");
   ("repo:foo /b\/ar/", "(and 'repo:foo' 'b/ar')");
   ("repo:foo /a/file/path", "(and 'repo:foo' '/a/file/path')");
   ("repo:foo /a/file/path/", "(and 'repo:foo' '/a/file/path/')");
   ("repo:foo /a/ /another/path/", "(and 'repo:foo' (concat 'a' '/another/path/'))");
   ("repo:foo /bar/ ", "(and 'repo:foo' 'bar')");
   ("(file:(a) file:(b))", "(and 'file:(a)' 'file:(b)')");
   ("(0(F)(:())(:())(<0)0()", "'(0(F)(:())(:())(<0)0()'")]%string.

Example TestParse : forallb (fun '(i, o) => gs_eqb (parse_result i) (dq o)) parse_cases = true.
Proof. vm_compute. reflexivity. Qed.

(** [TestValidation]: the error of the pipeline. *)
Definition pipeline_error (s : string) (t : SearchType) : gostring :=
  match Pipeline [Init (str s) t] with
  | Done (Err (e :: _)) => Error_string e
  | _ => []
  end.

Definition validation_cases : list (string * SearchType * string) :=
  [("index:foo", SearchTypeRegex, "invalid value 'foo' for field 'index'. Valid values are: yes, only, no");
   ("case:yes case:no", SearchTypeRegex, "field 'case' may not be used more than once");
   ("-index:yes", SearchTypeRegex, "field 'index' does not support negation");
   ("count:sedonuts", SearchTypeRegex, "field count has value sedonuts, sedonuts is not a number");
   ("count:10000000000000000", SearchTypeRegex, "field count has a value that is out of range, try making it smaller");
   ("count:-1", SearchTypeRegex, "field count requires a positive number");
   ("NOT foo", SearchTypeStructural, "the query contains a negated search pattern. Structural search does not support negated search patterns at the moment");
   ("repo:foo rev:a rev:b", SearchTypeRegex, "field 'rev' may not be used more than once");
   ("rev:this is a good channel", SearchTypeRegex, "invalid syntax. The query contains `rev:` without `repo:`. Add a `repo:` filter and try again");
   ("repohasfile:README type:symbol yolo", SearchTypeRegex, "repohasfile is not compatible for type:symbol. Subscribe to https://github.com/sourcegraph/sourcegraph/issues/4610 for updates");
   ("foo context:a context:b", SearchTypeRegex, "field 'context' may not be used more than once");
   ("-context:a", SearchTypeRegex, "field 'context' does not support negation");
   ("type:symbol select:symbol.timelime", SearchTypeRegex, "invalid field 'timelime' on select path 'symbol.timelime'");
   ("nice try type:repo", SearchTypeStructural, "this structural search query specifies `type:` and is not supported. Structural search syntax only applies to searching file contents");
   ("type:diff nice try", SearchTypeStructural, "this structural search query specifies `type:` and is not supported. Structural search syntax only applies to searching file contents and is not currently supported for diff searches")]%string.

Example TestValidation :
  forallb (fun '(i, t, o) => gs_eqb (pipeline_error i t) (dq o)) validation_cases = true.
Proof. vm_compute. reflexivity. Qed.

(** [TestStringHuman]: the printed query. *)
Definition human_result (s : string) : gostring :=
  match ParseStandard (str s) with Done (Ok nodes) => StringHuman nodes | _ => [] end.

Definition human_cases : list (string * string) :=
  [("this or that", "(this OR that)");
   ("this or that and here or there", "(this OR (that AND here) OR there)");
   ("not x and y", "((NOT x) AND y)");
   ("repo:foo a and b", "repo:foo (a AND b)");
   ("repo:foo file:bar baz and qux", "repo:foo file:bar (baz AND qux)");
   ("/abcd\// patterntype:regexp", "patterntype:regexp /abcd//");
   ("repo:foo file:bar", "repo:foo file:bar");
   ("(repo:foo or repo:bar) or (repo:baz or repo:qux) (a or b)", "((repo:foo OR repo:bar) OR ((repo:baz OR repo:qux) AND (a OR b)))");
   ("(repo:foo or repo:bar file:a) or (repo:baz or repo:qux and file:b) a and b", "((repo:foo OR repo:bar file:a) OR ((repo:baz OR repo:qux file:b) AND a AND b))");
   ("repo:foo (not b) (not c) a", "repo:foo ((NOT b) AND (NOT c) AND a)");
   ("repo:foo a -content:b -content:c", "repo:foo (-content:b AND -content:c AND a)");
   ("-repo:modspeed -file:pogspeed Arizonan not Phoenicians", "-repo:modspeed -file:pogspeed (Arizonan AND (NOT Phoenicians))");
   ("r:alias", "r:alias");
   ("a b c", "a b c")]%string.

Example TestStringHuman : forallb (fun '(i, o) => gs_eqb (human_result i) (dq o)) human_cases = true.
Proof. vm_compute. reflexivity. Qed.
