(* ===== verification/GoMap.v ===== *)
(** Go maps, sorting and machine integers.

    A Go map is a [gmap].  The language leaves two things open that the sources
    of the later files rely on: the order in which [range] visits a map, and
    the order in which [sort.Slice] leaves elements that compare equal.  Both
    are operations of the class [GoRuntime], with what the language reference
    and the [sort] package promise as laws; [plain_runtime] is an instance. *)
From stdpp Require Import sorting relations.
From S2P Require Import Prelude GoStr GoLib.

(** ** Machine integers *)

(** [uint32] and [int] arithmetic wraps around. *)
Definition wrap32 (n : Z) : Z := (n mod 2 ^ 32)%Z.
Definition wrap64 (n : Z) : Z := ((n + 2 ^ 63) mod 2 ^ 64 - 2 ^ 63)%Z.

Lemma wrap32_small n : (0 <= n < 2 ^ 32)%Z -> wrap32 n = n.
Proof. apply Z.mod_small. Qed.

Lemma wrap64_small n : (- 2 ^ 63 <= n < 2 ^ 63)%Z -> wrap64 n = n.
Proof. intros ?. unfold wrap64. rewrite Z.mod_small; lia. Qed.

(** ** Comparison functions *)

(** What [sort.Slice] requires of [less]: a strict weak order. *)
Class StrictWeak {A} (less : A -> A -> bool) : Prop := {
  less_irrefl a : less a a = false;
  less_trans a b c : less a b = true -> less b c = true -> less a c = true;
  less_incomparable a b c : less a b = false -> less b c = false -> less a c = false
}.

(** The same on the elements that satisfy [P]. *)
Record StrictWeakOn {A} (P : A -> Prop) (less : A -> A -> bool) : Prop := {
  on_asym a b : P a -> P b -> less a b = true -> less b a = false;
  on_incomparable a b c : P a -> P b -> P c -> less a b = false -> less b c = false -> less a c = false
}.

Lemma StronglySorted_mono {A} (P Q : A -> A -> Prop) l :
  (forall a b, P a b -> Q a b) -> StronglySorted P l -> StronglySorted Q l.
Proof.
  intros HPQ. induction 1; constructor; [done|]. eapply Forall_impl; eauto.
Qed.

Lemma StronglySorted_sublist {A} (R : A -> A -> Prop) l k :
  l `sublist_of` k -> StronglySorted R k -> StronglySorted R l.
Proof.
  induction 1 as [|x l k Hs IH|x l k Hs IH]; intros H; inversion_clear H; [constructor|..]; auto.
  constructor; [auto|]. by eapply Forall_sublist_of.
Qed.

(** No later element is less than an earlier one. *)
Definition ascending {A} (less : A -> A -> bool) : list A -> Prop :=
  StronglySorted (fun a b => less b a = false).

Lemma less_asym {A} (less : A -> A -> bool) `{!StrictWeak less} a b :
  less a b = true -> less b a = false.
Proof.
  intros H. destruct (less b a) eqn:E; [|done].
  pose proof (less_irrefl (less := less) a) as Hi.
  by rewrite (less_trans (less := less) a b a) in Hi.
Qed.

Lemma strict_weak_on_any {A} (P : A -> Prop) (less : A -> A -> bool) `{!StrictWeak less} : StrictWeakOn P less.
Proof. split; [intros a b _ _ H; by apply less_asym|intros a b c _ _ _; by apply (less_incomparable (less := less))]. Qed.

(** ** The runtime *)
Class GoRuntime := {
  map_range {K V : Type} `{Countable K} : nat -> gmap K V -> list (K * V);
  map_range_perm {K V : Type} `{Countable K} (n : nat) (m : gmap K V) :
    map_range n m ≡ₚ map_to_list m;
  sort_slice {A : Type} : (A -> A -> bool) -> list A -> list A;
  sort_slice_perm {A : Type} (less : A -> A -> bool) (l : list A) : sort_slice less l ≡ₚ l;
  sort_slice_ascending_on {A : Type} (P : A -> Prop) (less : A -> A -> bool) (l : list A) :
    StrictWeakOn P less -> Forall P l -> ascending less (sort_slice less l)
}.

Lemma sort_slice_ascending {G : GoRuntime} {A} (less : A -> A -> bool) (l : list A) :
  StrictWeak less -> ascending less (sort_slice less l).
Proof.
  intros H. apply (sort_slice_ascending_on (fun _ => True)); [by apply strict_weak_on_any|]. by apply Forall_forall.
Qed.

(** ** A runtime *)
Section InsertionSort.
Context {A : Type} (less : A -> A -> bool).

Fixpoint insert_sorted (x : A) (l : list A) : list A :=
  match l with
  | [] => [x]
  | y :: l => if less y x then y :: insert_sorted x l else x :: y :: l
  end.
Definition insertion_sort : list A -> list A := foldr insert_sorted [].

Lemma insert_sorted_perm x l : insert_sorted x l ≡ₚ x :: l.
Proof.
  induction l as [|y l IH]; simpl; [done|]. destruct (less y x); [|done].
  rewrite IH. constructor.
Qed.

Lemma insertion_sort_perm l : insertion_sort l ≡ₚ l.
Proof. induction l as [|x l IH]; simpl; [done|]. by rewrite insert_sorted_perm, IH. Qed.

Lemma insert_sorted_ascending (P : A -> Prop) x l :
  StrictWeakOn P less -> P x -> Forall P l -> ascending less l -> ascending less (insert_sorted x l).
Proof.
  intros Hw Hx Hl. induction 1 as [|y l Hs IH Hy]; simpl; [by repeat constructor|].
  inversion_clear Hl as [|? ? Py Pl]. destruct (less y x) eqn:E.
  - constructor; [by apply IH|]. rewrite insert_sorted_perm. constructor; [by apply (on_asym _ _ Hw)|done].
  - constructor; [by constructor|]. constructor; [done|]. rewrite Forall_forall in Hy, Pl |- *.
    intros z Hz. apply (on_incomparable _ _ Hw z y x); auto.
Qed.

Lemma insertion_sort_ascending_on (P : A -> Prop) l :
  StrictWeakOn P less -> Forall P l -> ascending less (insertion_sort l).
Proof.
  intros Hw. induction 1 as [|x l Hx Hl IH]; simpl; [constructor|].
  apply (insert_sorted_ascending P); [done|done| |done]. by rewrite insertion_sort_perm.
Qed.

Lemma insertion_sort_ascending `{!StrictWeak less} l : ascending less (insertion_sort l).
Proof. apply (insertion_sort_ascending_on (fun _ => True)); [by apply strict_weak_on_any|]. by apply Forall_forall. Qed.
End InsertionSort.

Definition plain_runtime : GoRuntime := {|
  map_range K V _ _ _ m := map_to_list m;
  map_range_perm K V _ _ _ m := Permutation_refl _;
  sort_slice A := insertion_sort;
  sort_slice_perm A := insertion_sort_perm;
  sort_slice_ascending_on A P less l := insertion_sort_ascending_on less P l
|}.

(** ** Ranges *)
Section Range.
Context {G : GoRuntime} {K V : Type} `{Countable K}.
Implicit Types (m : gmap K V).

Lemma elem_of_map_range n m k v : (k, v) ∈ map_range n m <-> m !! k = Some v.
Proof. by rewrite map_range_perm, elem_of_map_to_list. Qed.

Lemma NoDup_map_range_keys n m : NoDup (map_range n m).*1.
Proof. rewrite map_range_perm. apply NoDup_fst_map_to_list. Qed.

Lemma length_map_range n m : length (map_range n m) = size m.
Proof. by rewrite map_range_perm, length_map_to_list. Qed.

Lemma elem_of_map_range_keys n m k : k ∈ (map_range n m).*1 <-> is_Some (m !! k).
Proof.
  rewrite list_elem_of_fmap. split.
  - intros ([k' v] & -> & Hv). apply elem_of_map_range in Hv. by exists v.
  - intros [v Hv]. exists (k, v). split; [done|]. by apply elem_of_map_range.
Qed.

(** A fold over a range does not depend on the order when its steps commute. *)
Lemma map_range_fold {B} (f : B -> K * V -> B) (b : B) n m :
  (forall b x y, x ∈ map_to_list m -> y ∈ map_to_list m -> x.1 <> y.1 -> f (f b x) y = f (f b y) x) ->
  fold_left f (map_range n m) b = fold_left f (map_to_list m) b.
Proof.
  assert (forall l k : list (K * V), l ≡ₚ k -> NoDup l.*1 -> forall b,
    (forall b x y, x ∈ l -> y ∈ l -> x.1 <> y.1 -> f (f b x) y = f (f b y) x) ->
    fold_left f l b = fold_left f k b) as Hp.
  { induction 1 as [|x l k Hlk IH|x y l|l k j H1 IH1 H2 IH2]; intros Hn b' Hc; simpl; [done|..].
    - inversion Hn; subst. apply IH; [done|]. intros. apply Hc; try right; done.
    - f_equal. apply Hc; [set_solver..|]. inversion Hn; subst. intros Heq. set_solver.
    - rewrite IH1 by done. apply IH2; [by rewrite <- H1|]. intros. apply Hc; by rewrite ?H1. }
  intros Hc. apply Hp; [apply map_range_perm|apply NoDup_map_range_keys|].
  intros. apply Hc; by rewrite <- ?map_range_perm.
Qed.
End Range.

(** A loop that inserts some entries, the same value for the same key. *)
Lemma fold_insert_spec {K V X} `{Countable K} (cond : X -> bool) (key : X -> K) (val : X -> V)
    (l : list X) (m : gmap K V) k v :
  (forall x y, x ∈ l -> y ∈ l -> cond x = true -> cond y = true -> key x = key y -> val x = val y) ->
  fold_left (fun m x => if cond x then <[key x := val x]> m else m) l m !! k = Some v <->
  (exists x, x ∈ l /\ cond x = true /\ key x = k /\ val x = v) \/
  ((forall x, x ∈ l -> cond x = true -> key x <> k) /\ m !! k = Some v).
Proof.
  revert m. induction l as [|x l IH]; intros m Hc; simpl.
  { split; [intros ?; right; split; [by intros ? ?%not_elem_of_nil|done]|].
    by intros [(x & ?%not_elem_of_nil & _)|[_ ?]]. }
  rewrite IH by (intros; apply Hc; by try right). clear IH. setoid_rewrite elem_of_cons.
  destruct (cond x) eqn:Ex; [|split; naive_solver congruence].
  rewrite lookup_insert_Some. split.
  - intros [(y & ? & ?)|[Hn [[<- <-]|[Hne Hm]]]]; [left; exists y; auto|left; exists x; auto|right].
    split; [|done]. intros y [->|?] ?; [done|by apply Hn].
  - intros [(y & [->|Hy] & Ey & <- & <-)|[Hn Hm]].
    + destruct (decide (Exists (fun y => cond y = true /\ key y = key x) l)) as [Hy|Hno].
      * apply Exists_exists in Hy as (y & Hy & E & E'). left. exists y. split_and!; [done..|].
        by apply Hc; [right|left|..].
      * right. split; [|by left]. intros y Hy E E'. apply Hno, Exists_exists. by exists y.
    + left. exists y. auto.
    + right. split; [intros y Hy; apply Hn; auto|right]. split; [|done]. apply Hn; auto.
Qed.

Lemma fold_left_nested {A B C} (f : B -> A -> C -> B) (l : list (A * list C)) b :
  fold_left (fun b e => fold_left (fun b c => f b e.1 c) e.2 b) l b =
  fold_left (fun b p => f b p.1 p.2) (concat (map (fun e => map (pair e.1) e.2) l)) b.
Proof.
  revert b. induction l as [|[a cs] l IH]; intros b; simpl; [done|]. rewrite fold_left_app, <- IH. f_equal.
  revert b. induction cs as [|c cs IHc]; intros b; simpl; [done|]. apply IHc.
Qed.

(** [sort.Ints]: the order is total, so the result is determined. *)
Definition sort_Ints : list Z -> list Z := insertion_sort Z.ltb.

#[export] Instance Z_ltb_strict_weak : StrictWeak Z.ltb.
Proof. split; intros; lia. Qed.

Lemma sort_Ints_perm l : sort_Ints l ≡ₚ l.
Proof. apply insertion_sort_perm. Qed.

Lemma sort_Ints_sorted l : StronglySorted Z.le (sort_Ints l).
Proof.
  eapply StronglySorted_mono; [|apply insertion_sort_ascending, _].
  intros a b. simpl. lia.
Qed.

(** [sort.Strings] *)
Definition sort_Strings : list gostring -> list gostring := insertion_sort gs_ltb.

Lemma sort_Strings_perm l : sort_Strings l ≡ₚ l.
Proof. apply insertion_sort_perm. Qed.
