(* ===== verification/Versions.v ===== *)
(** Instance versions and the schedule of out-of-band migrations:
    [version.go], [upgrade.go], [downgrade.go] and [interrupts.go] of
    [internal/oobmigration].

    [Major] and [Minor] are Go [int]s, so additions wrap at 64 bits.  The loop
    of [UpgradeRange] is not bounded by its arguments, so the function takes
    the number of iterations it may run. *)
From S2P Require Import Prelude GoStr GoLib GoMap Syntax.

(** ** Versions *)
Record Version := MkVersion { Major : Z; Minor : Z; Dev : bool }.

#[export] Instance Version_eq_dec : EqDecision Version.
Proof. solve_decision. Defined.
#[export] Program Instance Version_countable : Countable Version :=
  inj_countable' (fun v => (Major v, Minor v, Dev v)) (fun '(a, b, c) => MkVersion a b c) _.
Next Obligation. by intros []. Qed.

Definition NewVersion (major minor : Z) : Version := MkVersion major minor false.
Definition newDevVersion (major minor : Z) : Version := MkVersion major minor true.

Definition devVersionFlag : gostring := str "+dev".

(** The longest prefix of bytes that satisfy [f], and the rest. *)
Fixpoint span (f : Z -> bool) (s : gostring) : gostring * gostring :=
  match s with
  | c :: t => if f c then let '(p, r) := span f t in (c :: p, r) else ([], s)
  | [] => ([], [])
  end.

Definition is_word (c : Z) : bool := is_alpha c || is_digit c || (c =? 95)%Z.

(** One or more digits, and the rest. *)
Definition digits1 (s : gostring) : option (gostring * gostring) :=
  match span is_digit s with ([], _) => None | p => Some p end.

(** An optional group: the byte [c] and then any bytes that satisfy [f]. *)
Definition opt_group (c : Z) (f : Z -> bool) (s : gostring) : gostring :=
  match s with
  | d :: t => if (d =? c)%Z then snd (span f t) else s
  | [] => []
  end.

(** [versionPattern.FindStringSubmatch]: the groups for the major, the minor and
    the optional patch number.  The pattern is an optional [v], digits, a dot,
    digits, optionally a dot and digits, optionally a dash and word characters,
    optionally a plus sign and word characters or dots, and the end of the
    text.  Every repetition is followed by something it does not accept, so
    greedy scanning decides the match. *)
Definition FindVersion (v : gostring) : option (gostring * gostring * gostring) :=
  let v := match v with 118%Z :: t => t | _ => v end in
  match digits1 v with
  | Some (major, 46%Z :: v) =>
      match digits1 v with
      | Some (minor, v) =>
          let '(patch, v) :=
            match v with
            | 46%Z :: t => match digits1 t with Some p => p | None => ([], v) end
            | _ => ([], v)
            end in
          let v := opt_group 45 is_word v in
          let v := opt_group 43 (fun c => is_word c || (c =? 46)%Z) v in
          match v with [] => Some (major, minor, patch) | _ => None end
      | None => None
      end
  | _ => None
  end.

(** [n, _ := strconv.Atoi(s)] on a string of digits or the empty string: the
    value is kept when there is an error, and it is the largest [int] when the
    number is out of range. *)
Definition Atoi_value (s : gostring) : Z :=
  match Atoi s with NumOk n => n | ErrSyntax => 0%Z | ErrRange => (2 ^ 63 - 1)%Z end.

Definition NewVersionAndPatchFromString (v : gostring) : option (Version * Z) :=
  let '(newVersion, v) :=
    if HasSuffix v devVersionFlag then (newDevVersion, TrimSuffix v devVersionFlag)
    else (NewVersion, v) in
  match FindVersion v with
  | None => None
  | Some (major, minor, patch) =>
      Some (newVersion (Atoi_value major) (Atoi_value minor), Atoi_value patch)
  end.

Definition NewVersionFromString (v : gostring) : option Version :=
  fst <$> NewVersionAndPatchFromString v.

Definition Version_String (v : Version) : gostring :=
  FormatInt (Major v) ++ str "." ++ FormatInt (Minor v).

Definition GitTagWithPatch (v : Version) (patch : Z) : gostring :=
  str "v" ++ FormatInt (Major v) ++ str "." ++ FormatInt (Minor v) ++ str "." ++ FormatInt patch.

Definition GitTag (v : Version) : gostring := GitTagWithPatch v 0.

(** ** Order *)
Inductive VersionOrder := VersionOrderBefore | VersionOrderEqual | VersionOrderAfter.

#[export] Instance VersionOrder_eq_dec : EqDecision VersionOrder.
Proof. solve_decision. Defined.

Fixpoint compare_pairs (pairs : list (Z * Z)) : VersionOrder :=
  match pairs with
  | [] => VersionOrderEqual
  | (x, y) :: pairs =>
      if (x <? y)%Z then VersionOrderBefore
      else if (y <? x)%Z then VersionOrderAfter
      else compare_pairs pairs
  end.

Definition CompareVersions (a b : Version) : VersionOrder :=
  compare_pairs [(Major a, Major b); (Minor a, Minor b)].

Definition before (a b : Version) : bool := bool_decide (CompareVersions a b = VersionOrderBefore).
Definition after (a b : Version) : bool := bool_decide (CompareVersions a b = VersionOrderAfter).

(** The comparison of [SortVersions]. *)
Definition version_less (a b : Version) : bool :=
  if (Major a =? Major b)%Z then (Minor a <? Minor b)%Z else (Major a <? Major b)%Z.

Definition SortVersions `{GoRuntime} (vs : list Version) : list Version := sort_slice version_less vs.

Definition pointIntersectsInterval (lower upper point : Version) : bool :=
  negb (before point lower) && negb (before upper point).

(** ** Neighbours *)
Definition lastMinorVersionInMajorRelease : list (Z * Z) := [(3, 43); (4, 5)]%Z.

Definition Next (v : Version) : Version :=
  match assoc (Major v) lastMinorVersionInMajorRelease with
  | Some minor =>
      if (minor =? Minor v)%Z then NewVersion (wrap64 (Major v + 1)) 0
      else NewVersion (Major v) (wrap64 (Minor v + 1))
  | None => NewVersion (Major v) (wrap64 (Minor v + 1))
  end.

Definition Previous (v : Version) : Version * bool :=
  if (Minor v =? 0)%Z then
    match assoc (wrap64 (Major v - 1)) lastMinorVersionInMajorRelease with
    | Some minor => (NewVersion (wrap64 (Major v - 1)) minor, true)
    | None => (NewVersion (wrap64 (Major v - 1)) 0, false)
    end
  else (NewVersion (Major v) (wrap64 (Minor v - 1)), true).

Fixpoint upgrade_loop (fuel : nat) (v to_ : Version) : run (list Version) :=
  if after v to_ then Done []
  else
    match fuel with
    | O => OutOfFuel
    | S fuel => let! versions := upgrade_loop fuel (Next v) to_ in Done (v :: versions)
    end.

Definition UpgradeRange (fuel : nat) (from to_ : Version) : run (result gerror (list Version)) :=
  if negb (before from to_) then
    Done (Err (ErrorNew (str "invalid range (from=" ++ Version_String from ++ str " >= to=" ++
                         Version_String to_ ++ str ")")))
  else let! versions := upgrade_loop fuel from to_ in Done (Ok versions).

(** ** Migration intervals *)

(** The two last fields are pointers. *)
Record yamlMigration := MkMigration {
  ID : Z;
  Team : gostring; Component : gostring; Description : gostring;
  NonDestructive : bool; IsEnterprise : bool;
  IntroducedVersionMajor : Z; IntroducedVersionMinor : Z;
  DeprecatedVersionMajor : option Z; DeprecatedVersionMinor : option Z
}.

Record migrationInterval := MkInterval { id : Z; introduced : Version; deprecated : Version }.

Record MigrationInterrupt := MkInterrupt { mi_Version : Version; MigrationIDs : list Z }.

Definition deref {A} (p : option A) : run A :=
  match p with
  | Some a => Done a
  | None => Panics "invalid memory address or nil pointer dereference"
  end.

Definition interval_of (m : yamlMigration) : run migrationInterval :=
  let! major := deref (DeprecatedVersionMajor m) in
  let! minor := deref (DeprecatedVersionMinor m) in
  Done (MkInterval (ID m)
          (MkVersion (IntroducedVersionMajor m) (IntroducedVersionMinor m) false)
          (MkVersion major minor false)).

(** ** The covering set *)

Fixpoint find_point (interval : migrationInterval) (points : list Version) : option Version :=
  match points with
  | [] => None
  | point :: points =>
      if pointIntersectsInterval (introduced interval) (deprecated interval) point then Some point
      else find_point interval points
  end.

Fixpoint cover_loop (intervals : list migrationInterval) (points : list Version)
    (coveringSet : gmap Version (list Z)) : run (gmap Version (list Z)) :=
  match intervals with
  | [] => Done coveringSet
  | interval :: intervals =>
      match find_point interval points with
      | Some point =>
          cover_loop intervals points
            (<[point := default [] (coveringSet !! point) ++ [id interval]]> coveringSet)
      | None => Panics "unreachable: input interval not covered in output"
      end
  end.

Section Schedule.
Context {G : GoRuntime}.

Definition makeCoveringSet (intervals : list migrationInterval) (points : list Version)
    : run (list MigrationInterrupt) :=
  let points := rev points in
  let! coveringSet := cover_loop intervals points ∅ in
  Done (map (fun '(version, ids) => MkInterrupt version (sort_Ints ids)) (map_range 0 coveringSet)).

(** ** Upgrades *)

Fixpoint upgrade_intervals (from to_ : Version) (migrations : list yamlMigration)
    : run (list migrationInterval) :=
  match migrations with
  | [] => Done []
  | m :: migrations =>
      match DeprecatedVersionMajor m with
      | None => upgrade_intervals from to_ migrations
      | Some _ =>
          let! interval := interval_of m in
          let! intervals := upgrade_intervals from to_ migrations in
          Done (if before from (deprecated interval) && negb (after (deprecated interval) to_)
                then interval :: intervals else intervals)
      end
  end.

Fixpoint upgrade_points (intervals : list migrationInterval) (points : list Version)
    : result gerror (list Version) :=
  match intervals with
  | [] => Ok points
  | interval :: intervals =>
      if match last points with None => true | Some p => before p (introduced interval) end then
        let '(v, ok) := Previous (deprecated interval) in
        if ok then upgrade_points intervals (points ++ [v])
        else Err (ErrorNew (str "cannot determine version prior to " ++
                            Version_String (deprecated interval)))
      else upgrade_points intervals points
  end.

Definition scheduleUpgrade (from to_ : Version) (migrations : list yamlMigration)
    : run (result gerror (list MigrationInterrupt)) :=
  let! intervals := upgrade_intervals from to_ migrations in
  let intervals := sort_slice (fun i j => before (deprecated i) (deprecated j)) intervals in
  match upgrade_points intervals [] with
  | Err err => Done (Err err)
  | Ok points =>
      let! interrupts := makeCoveringSet intervals points in
      Done (Ok (sort_slice (fun i j => before (mi_Version i) (mi_Version j)) interrupts))
  end.

(** ** Downgrades *)

Fixpoint downgrade_intervals (from to_ : Version) (migrations : list yamlMigration)
    : run (list migrationInterval) :=
  match migrations with
  | [] => Done []
  | m :: migrations =>
      let m :=
        match DeprecatedVersionMajor m with
        | None =>
            let n := Next to_ in
            MkMigration (ID m) (Team m) (Component m) (Description m) (NonDestructive m) (IsEnterprise m)
              (IntroducedVersionMajor m) (IntroducedVersionMinor m)
              (Some (Major n)) (Some (Minor n))
        | Some _ => m
        end in
      let! interval := interval_of m in
      let! intervals := downgrade_intervals from to_ migrations in
      Done (if negb (after to_ (introduced interval)) && before (introduced interval) from
            then interval :: intervals else intervals)
  end.

Fixpoint downgrade_points (intervals : list migrationInterval) (points : list Version)
    : list Version :=
  match intervals with
  | [] => points
  | interval :: intervals =>
      downgrade_points intervals
        (if match last points with None => true | Some p => negb (after (deprecated interval) p) end
         then points ++ [introduced interval] else points)
  end.

Definition scheduleDowngrade (from to_ : Version) (migrations : list yamlMigration)
    : run (result gerror (list MigrationInterrupt)) :=
  let! intervals := downgrade_intervals from to_ migrations in
  let intervals := sort_slice (fun i j => before (introduced j) (introduced i)) intervals in
  let points := downgrade_points intervals [] in
  let! interrupts := makeCoveringSet intervals points in
  Done (Ok (sort_slice (fun i j => before (mi_Version j) (mi_Version i)) interrupts)).

Definition scheduleMigrationInterrupts (from to_ : Version) (yamlMigrations : list yamlMigration)
    : run (result gerror (list MigrationInterrupt)) :=
  match CompareVersions from to_ with
  | VersionOrderBefore => scheduleUpgrade from to_ yamlMigrations
  | VersionOrderAfter => scheduleDowngrade from to_ yamlMigrations
  | VersionOrderEqual => Done (Ok [])
  end.
End Schedule.
