(* ===== verification/VersionsFacts.v ===== *)
(** Theorems about instance versions and the schedule of out-of-band
    migrations. *)
From stdpp Require Import sorting.
From S2P Require Import Prelude GoStr GoLib Syntax GoMap Versions.

(** Stabbing intervals with points: the greedy scan shared by the schedules of
    upgrades and downgrades, its coverage and its optimality, for any direction
    of the version order. *)

Section Scan.
(** The point chosen for an interval when the last chosen point passes [test]. *)
Context {P I : Type} (pt : I -> P) (test : P -> I -> bool).

Fixpoint greedy (intervals : list I) (points : list P) : list P :=
  match intervals with
  | [] => points
  | i :: intervals =>
      greedy intervals
        (if match last points with None => true | Some p => test p i end
         then points ++ [pt i] else points)
  end.

Lemma greedy_app intervals points : exists new, greedy intervals points = points ++ new.
Proof.
  revert points. induction intervals as [|i rest IH]; intros points; simpl.
  { exists []. by rewrite app_nil_r. }
  case_match; [|apply IH]. destruct (IH (points ++ [pt i])) as [new ->].
  exists (pt i :: new). by rewrite <- app_assoc.
Qed.

Lemma greedy_in_pt intervals points p :
  p ∈ greedy intervals points -> p ∈ points \/ exists i, i ∈ intervals /\ p = pt i.
Proof.
  revert points. induction intervals as [|i rest IH]; intros points; simpl; [by left|].
  intros [H|(j & Hj & ->)]%IH; [|right; exists j; set_solver].
  case_match; [|by left]. apply elem_of_app in H as [H| ->%list_elem_of_singleton]; [by left|].
  right. exists i. set_solver.
Qed.

End Scan.

(** A direction: a strict order [lt] on points, when a point [hits] an interval,
    and what makes the scan with [pt] and [test] correct for the intervals that
    are [good]. *)
Class Direction {P I : Type} (lt : relation P) (hits : P -> I -> Prop) (pt : I -> P)
    (test : P -> I -> bool) (good : I -> Prop) : Prop := {
  dir_strict : StrictOrder lt;
  lt_le_trans p q r : ~ lt q p -> lt q r -> lt p r;
  pt_hits i : good i -> hits (pt i) i;
  pt_last i q : good i -> hits q i -> ~ lt (pt i) q;
  test_true p i q : good i -> test p i = true -> hits q i -> lt p q;
  test_false p i : good i -> test p i = false -> ~ lt (pt i) p -> hits p i
}.

Section Greedy.
Context {P I : Type} (lt : relation P) (hits : P -> I -> Prop) (pt : I -> P)
  (test : P -> I -> bool) (good : I -> Prop) {D : Direction lt hits pt test good}.
#[local] Existing Instance dir_strict.

(** Any points that hit all intervals of a list sorted by [sep] are at least as
    many as the intervals. *)
Definition sep (i j : I) : Prop := forall q r, hits q i -> hits r j -> lt q r.

Lemma sep_stab chosen qs :
  StronglySorted sep chosen -> Forall (fun i => exists q, q ∈ qs /\ hits q i) chosen ->
  (length chosen <= length qs)%nat.
Proof.
  intros Hs. revert qs. induction Hs as [|i chosen Hs IH Hi]; intros qs Hq; simpl; [lia|].
  inversion_clear Hq as [|? ? (q & Hin & Hh) Hrest].
  apply list_elem_of_split in Hin as (l1 & l2 & ->).
  assert (length chosen <= length (l1 ++ l2))%nat as Hle.
  { apply IH. rewrite Forall_forall in *. intros j Hj. destruct (Hrest j Hj) as (r & Hr & Hrj).
    exists r. split; [|done].
    assert (lt q r) as Hlt by (by eapply (Hi j Hj)).
    assert (r <> q) by (intros ->; by apply (irreflexivity lt q)).
    rewrite elem_of_app, elem_of_cons in Hr. rewrite elem_of_app. tauto. }
  rewrite length_app in *. simpl. lia.
Qed.

(** Every interval is hit. *)
Lemma greedy_covers intervals points :
  StronglySorted (fun i j => ~ lt (pt j) (pt i)) intervals -> Forall good intervals ->
  Forall (fun i => Forall (fun p => ~ lt (pt i) p) points) intervals ->
  Forall (fun i => exists p, p ∈ greedy pt test intervals points /\ hits p i) intervals.
Proof.
  intros Hs. revert points. induction Hs as [|i rest Hs IH Hi]; intros points Hg Hp; [done|].
  apply Forall_cons in Hg as [Hgi Hg]. apply Forall_cons in Hp as [Hpi Hp]. simpl.
  destruct (match last points with None => true | Some p => test p i end) eqn:E.
  - constructor.
    + exists (pt i). split; [|by apply pt_hits]. destruct (greedy_app pt test rest (points ++ [pt i])) as [new ->].
      set_solver.
    + apply IH; [done|]. rewrite Forall_forall in Hi, Hp |- *. intros j Hj.
      apply Forall_app. split; [by apply Hp|]. apply Forall_singleton. by apply Hi.
  - constructor; [|by apply IH].
    destruct (last points) as [p|] eqn:El; [|done].
    assert (p ∈ points) as Hin by (by apply last_Some_elem_of).
    exists p. split.
    + destruct (greedy_app pt test rest points) as [new ->]. set_solver.
    + apply test_false; [done..|]. rewrite Forall_forall in Hpi. by apply Hpi.
Qed.

(** The intervals that made the scan choose a point are pairwise separated, and
    the chosen points are strictly increasing. *)
Lemma greedy_chosen intervals points :
  StronglySorted lt points -> Forall good intervals ->
  exists chosen, greedy pt test intervals points = points ++ map pt chosen /\
    chosen `sublist_of` intervals /\ StronglySorted sep chosen /\
    Forall (fun i => forall p q, p ∈ points -> hits q i -> lt p q) chosen.
Proof.
  revert points. induction intervals as [|i rest IH]; intros points Hp Hg; simpl.
  { exists []. rewrite app_nil_r. split_and!; [done|done|constructor|done]. }
  apply Forall_cons in Hg as [Hgi Hg].
  destruct (match last points with None => true | Some p => test p i end) eqn:E.
  - assert (forall p q, p ∈ points -> hits q i -> lt p q) as Hlt.
    { intros p q Hin Hq. destruct (last points) as [l|] eqn:El.
      - apply last_Some in El as [pre ->]. apply elem_of_app in Hin as [Hin| ->%list_elem_of_singleton].
        + transitivity l; [|by eapply test_true].
          apply StronglySorted_app in Hp as (Hpl & _ & _). apply Hpl; set_solver.
        + by eapply test_true.
      - apply last_None in El as ->. set_solver. }
    destruct (IH (points ++ [pt i])) as (chosen & -> & Hsub & Hsep & Hrest); [|done|].
    { apply StronglySorted_app. split_and!; [|done|by repeat constructor].
      intros p q Hin ->%list_elem_of_singleton. by apply Hlt, pt_hits. }
    exists (i :: chosen). split_and!.
    + by rewrite <- app_assoc.
    + by constructor.
    + constructor; [done|]. rewrite Forall_forall in Hrest |- *. intros j Hj q r Hq Hr.
      eapply lt_le_trans; [by apply pt_last|]. eapply Hrest; [done| |done]. set_solver.
    + constructor; [done|]. eapply Forall_impl; [exact Hrest|]. simpl. intros j Hj p q Hin. apply Hj.
      set_solver.
  - destruct (IH points) as (chosen & -> & Hsub & Hsep & Hrest); [done..|].
    exists chosen. split_and!; [done|by constructor|done|done].
Qed.

(** The scan is optimal. *)
Lemma greedy_minimal intervals qs :
  Forall good intervals -> Forall (fun i => exists q, q ∈ qs /\ hits q i) intervals ->
  (length (greedy pt test intervals []) <= length qs)%nat.
Proof.
  intros Hg Hq. destruct (greedy_chosen intervals []) as (chosen & -> & Hsub & Hsep & _);
    [constructor|done|]. simpl. rewrite length_map. apply sep_stab; [done|].
  by eapply Forall_sublist_of.
Qed.
End Greedy.

(** ** The order on versions *)
Definition vlt (a b : Version) : Prop :=
  (Major a < Major b \/ Major a = Major b /\ Minor a < Minor b)%Z.

Ltac vlia := unfold vlt in *; simpl in *; lia.

Lemma compare_cases a b :
  match CompareVersions a b with
  | VersionOrderBefore => vlt a b
  | VersionOrderEqual => Major a = Major b /\ Minor a = Minor b
  | VersionOrderAfter => vlt b a
  end.
Proof.
  unfold CompareVersions, vlt. simpl.
  destruct (Z.ltb_spec (Major a) (Major b)), (Z.ltb_spec (Major b) (Major a)),
    (Z.ltb_spec (Minor a) (Minor b)), (Z.ltb_spec (Minor b) (Minor a)); lia.
Qed.

Lemma before_iff a b : before a b = true <-> vlt a b.
Proof.
  unfold before. rewrite bool_decide_eq_true. pose proof (compare_cases a b) as H.
  destruct (CompareVersions a b); split; intros; try done; vlia.
Qed.

Lemma before_false a b : before a b = false <-> ~ vlt a b.
Proof. rewrite <- not_true_iff_false. by rewrite before_iff. Qed.

Lemma after_iff a b : after a b = true <-> vlt b a.
Proof.
  unfold after. rewrite bool_decide_eq_true. pose proof (compare_cases a b) as H.
  destruct (CompareVersions a b); split; intros; try done; vlia.
Qed.

Lemma after_false a b : after a b = false <-> ~ vlt b a.
Proof. rewrite <- not_true_iff_false. by rewrite after_iff. Qed.

#[export] Instance vlt_strict : StrictOrder vlt.
Proof. split; [intros a H|intros a b c H1 H2]; vlia. Qed.

#[export] Instance vgt_strict : StrictOrder (flip vlt).
Proof. split; [intros a H|intros a b c H1 H2]; unfold flip in *; vlia. Qed.

Lemma before_key_weak {A} (f : A -> Version) : StrictWeak (fun i j => before (f i) (f j)).
Proof.
  split; intros; rewrite ?before_iff, ?before_false in *; vlia.
Qed.

Lemma before_key_weak_flip {A} (f : A -> Version) : StrictWeak (fun i j => before (f j) (f i)).
Proof.
  split; intros; rewrite ?before_iff, ?before_false in *; vlia.
Qed.

(** Without the development flag, versions that are not ordered are equal. *)
Lemma vlt_total a b : Dev a = Dev b -> ~ vlt a b -> ~ vlt b a -> a = b.
Proof.
  destruct a as [a1 a2 d], b as [b1 b2 d']. simpl. intros ->. intros. f_equal; vlia.
Qed.

(** ** Versions that exist *)

(** A minor version that a release line has, within Go's integers. *)
Definition supported (v : Version) : Prop :=
  (0 <= Major v < 2 ^ 63 - 1)%Z /\ (0 <= Minor v < 2 ^ 63 - 1)%Z /\
  forall m, assoc (Major v) lastMinorVersionInMajorRelease = Some m -> (Minor v <= m)%Z.

Definition supportedb (v : Version) : bool :=
  ((0 <=? Major v) && (Major v <? 2 ^ 63 - 1) && (0 <=? Minor v) && (Minor v <? 2 ^ 63 - 1))%Z &&
  match assoc (Major v) lastMinorVersionInMajorRelease with
  | Some m => (Minor v <=? m)%Z
  | None => true
  end.

Lemma supportedb_true v : supportedb v = true -> supported v.
Proof.
  unfold supportedb, supported. rewrite !andb_true_iff. intros [[[[H1 H2] H3] H4] H5].
  split_and!; [lia..|]. intros m E. rewrite E in H5. lia.
Qed.

Lemma assoc_last_minor major m :
  assoc major lastMinorVersionInMajorRelease = Some m <->
  (major = 3 /\ m = 43 \/ major = 4 /\ m = 5)%Z.
Proof.
  split; [|by intros [[-> ->]|[-> ->]]].
  unfold lastMinorVersionInMajorRelease. simpl. repeat case_bool_decide; intros; simplify_eq; lia.
Qed.

(** [Previous] is the predecessor among the versions that exist. *)
Lemma Previous_spec d p :
  supported d -> Previous d = (p, true) ->
  vlt p d /\ Dev p = false /\ supported p /\ forall q, supported q -> vlt q d -> ~ vlt p q.
Proof.
  intros (HM & Hm & Hlast) HP. unfold Previous in HP.
  destruct (Minor d =? 0)%Z eqn:E.
  - rewrite wrap64_small in HP by lia.
    destruct (assoc (Major d - 1)%Z lastMinorVersionInMajorRelease) as [m|] eqn:Ea; [|done].
    injection HP as <-. pose proof Ea as Ea'. apply assoc_last_minor in Ea. split_and!; [vlia|done| |].
    + split_and!; cbn [NewVersion Major Minor]; try lia. intros m'. rewrite Ea'. intros [= ->]. lia.
    + intros q (HqM & Hqm & Hql) Hlt Hpq. assert (Major q = Major d - 1)%Z as Hq by vlia.
      specialize (Hql m). rewrite Hq in Hql. specialize (Hql Ea'). vlia.
  - injection HP as <-. rewrite wrap64_small by lia. split_and!; [vlia|done| |].
    + split_and!; cbn [NewVersion Major Minor]; try lia. intros m Hma. specialize (Hlast m Hma). lia.
    + intros q _ Hlt Hpq. vlia.
Qed.

(** [Next] is the successor among the versions that exist. *)
Lemma Next_spec v :
  supported v -> (Minor v < 2 ^ 63 - 2)%Z -> supported (Next v) /\ vlt v (Next v) /\
  forall q, supported q -> vlt v q -> ~ vlt q (Next v).
Proof.
  intros (HM & Hm & Hlast) Hmax. unfold Next.
  destruct (assoc (Major v) lastMinorVersionInMajorRelease) as [m|] eqn:Ea.
  - pose proof Ea as Ha. apply assoc_last_minor in Ea. specialize (Hlast m eq_refl). destruct (m =? Minor v)%Z eqn:E.
    + rewrite wrap64_small by lia. split_and!; [|vlia|].
      * split_and!; cbn [NewVersion Major Minor]; try lia. intros m' Hm'%assoc_last_minor. lia.
      * intros q (HqM & Hqm & Hql) Hlt Hq. assert (Major q = Major v) as Hqv by vlia.
        specialize (Hql m). rewrite Hqv in Hql. specialize (Hql Ha). vlia.
    + rewrite wrap64_small by lia. split_and!; [|vlia|intros q _ H1 H2; vlia].
      split_and!; cbn [NewVersion Major Minor]; try lia. intros m'. rewrite Ha. intros [= <-]. lia.
  - rewrite wrap64_small by lia. split_and!; [|vlia|intros q _ H1 H2; vlia].
    split_and!; cbn [NewVersion Major Minor]; try lia. intros m'. by rewrite Ea.
Qed.

(** ** [UpgradeRange] *)

(** Every major release before that of [to_] has a last minor version. *)
Definition connected (v to_ : Version) : Prop :=
  forall M, (Major v <= M < Major to_)%Z -> is_Some (assoc M lastMinorVersionInMajorRelease).

(** The position of a version in the sequence of versions of its line. *)
Definition offset (M : Z) : Z := (if M =? 4 then 44 else if M =? 5 then 50 else 0)%Z.
Definition rank (v : Version) : Z := (offset (Major v) + Minor v)%Z.

Lemma connected_majors v to_ :
  connected v to_ -> (Major v < Major to_)%Z -> (3 <= Major v /\ Major to_ <= 5)%Z.
Proof.
  intros Hc Hlt.
  destruct (Hc (Major v) ltac:(lia)) as [m1 H1%assoc_last_minor].
  destruct (Hc (Major to_ - 1)%Z ltac:(lia)) as [m2 H2%assoc_last_minor]. lia.
Qed.

Lemma Next_rank v to_ :
  supported v -> connected v to_ -> ~ vlt to_ v -> (Minor to_ < 2 ^ 63 - 2)%Z ->
  connected (Next v) to_ /\ (vlt to_ (Next v) \/ rank (Next v) = rank v + 1)%Z.
Proof.
  intros (HM & Hm & Hlast) Hc Hle Hmax. unfold Next.
  destruct (assoc (Major v) lastMinorVersionInMajorRelease) as [m|] eqn:Ea.
  - apply assoc_last_minor in Ea. specialize (Hlast m eq_refl).
    rewrite !wrap64_small by lia. destruct (m =? Minor v)%Z eqn:E.
    + split; [intros M HM'; apply Hc; simpl in *; lia|].
      unfold rank, offset. cbn [NewVersion Major Minor].
      destruct (decide (Major to_ = Major v)) as [He|]; [left; vlia|right].
      repeat case_match; lia.
    + split; [intros M HM'; apply Hc; simpl in *; lia|]. right. unfold rank. simpl. lia.
  - assert (Major to_ = Major v) as HMv.
    { destruct (decide (Major v < Major to_)%Z) as [Hlt|]; [|vlia].
      destruct (Hc (Major v)) as [m Hm']; [lia|]. congruence. }
    rewrite wrap64_small by vlia. split; [intros M HM'; apply Hc; simpl in *; lia|].
    right. unfold rank. simpl. lia.
Qed.

Lemma rank_le v to_ :
  supported v -> supported to_ -> connected v to_ -> ~ vlt to_ v -> (rank v <= rank to_)%Z.
Proof.
  intros (HM & Hm & Hlast) (HtM & Htm & Htlast) Hc Hle. unfold rank.
  destruct (decide (Major v = Major to_)) as [He|Hne]; [rewrite He; vlia|].
  assert (Major v < Major to_)%Z as Hlt by vlia.
  pose proof (connected_majors v to_ Hc Hlt) as [H3 H5]. unfold offset.
  destruct (Hc (Major v)) as [m Hm']; [lia|]. specialize (Hlast m Hm').
  apply assoc_last_minor in Hm'. repeat case_match; lia.
Qed.

Lemma upgrade_loop_spec fuel v to_ :
  supported v -> Dev v = false -> supported to_ -> (Minor to_ < 2 ^ 63 - 2)%Z -> connected v to_ ->
  (rank to_ + 1 - rank v <= Z.of_nat fuel)%Z \/ vlt to_ v ->
  exists vs, upgrade_loop fuel v to_ = Done vs /\ StronglySorted vlt vs /\
    (forall q, q ∈ vs -> ~ vlt q v) /\
    (forall q, supported q -> Dev q = false -> q ∈ vs <-> ~ vlt q v /\ ~ vlt to_ q).
Proof.
  revert v. induction fuel as [|fuel IH]; intros v Hv Hd Ht Hmax Hc Hf; simpl;
    destruct (after v to_) eqn:E; [apply after_iff in E|apply after_false in E|
      apply after_iff in E|apply after_false in E].
  1, 3: exists []; split_and!; [done|constructor|set_solver|]; intros q _ _; split;
    [set_solver|intros [? ?]; vlia].
  - pose proof (rank_le v to_ Hv Ht Hc E). destruct Hf; [lia|done].
  - destruct Hf as [Hf|]; [|done].
    assert (Minor v < 2 ^ 63 - 2)%Z as Hvm.
    { destruct Hv as (_ & _ & Hlast). destruct (decide (Major v < Major to_)%Z) as [Hlt|]; [|vlia].
      destruct (Hc (Major v)) as [m Hm]; [lia|]. specialize (Hlast m Hm).
      apply assoc_last_minor in Hm. lia. }
    destruct (Next_spec v Hv Hvm) as (Hn & Hlt & Hsucc).
    destruct (Next_rank v to_ Hv Hc E Hmax) as [Hc' Hr].
    destruct (IH (Next v)) as (vs & -> & Hs & Hlow & Hin); try done.
    { unfold Next. by repeat case_match. }
    { destruct Hr as [?|?]; [by right|left; lia]. }
    exists (v :: vs). split_and!; [done|..].
    + constructor; [done|]. apply Forall_forall. intros q Hq. apply Hlow in Hq. vlia.
    + intros q [->|Hq]%elem_of_cons; [apply irreflexivity, _|]. apply Hlow in Hq. vlia.
    + intros q Hq Hqd. rewrite elem_of_cons, Hin by done. split.
      * intros [->|[H1 H2]]; [split; [apply irreflexivity, _|done]|split; [vlia|done]].
      * intros [H1 H2]. destruct (decide (q = v)) as [->|Hne]; [by left|right]. split; [|done].
        apply Hsucc; [done|]. destruct (before v q) eqn:Eb; [by apply before_iff|].
        apply before_false in Eb. destruct Hne. apply vlt_total; congruence || done.
Qed.

(** No minor version of the line of [v] is its last one, from [v] on. *)
Definition stuck (v : Version) : Prop :=
  forall m, assoc (Major v) lastMinorVersionInMajorRelease = Some m -> (m < Minor v)%Z.

Lemma upgrade_loop_stuck fuel v to_ :
  (0 <= Minor v)%Z -> stuck v -> (Major v < Major to_)%Z ->
  (Minor v + Z.of_nat fuel < 2 ^ 63)%Z -> upgrade_loop fuel v to_ = OutOfFuel.
Proof.
  revert v. induction fuel as [|fuel IH]; intros v Hm Hs Hlt Hf; simpl;
    replace (after v to_) with false by (symmetry; apply after_false; vlia); [done|].
  assert (Next v = NewVersion (Major v) (Minor v + 1)) as ->.
  { unfold Next. destruct (assoc _ _) as [m|] eqn:E; [|by rewrite wrap64_small by lia].
    specialize (Hs m E). destruct (Z.eqb_spec m (Minor v)); [lia|by rewrite wrap64_small by lia]. }
  rewrite IH; [done|..]; unfold stuck in *; cbn [NewVersion Major Minor]; [lia| |lia..].
  intros m E. specialize (Hs m E). lia.
Qed.

Lemma upgrade_loop_mono f g v to_ vs :
  upgrade_loop f v to_ = Done vs -> (f <= g)%nat -> upgrade_loop g v to_ = Done vs.
Proof.
  revert g v vs. induction f as [|f IH]; intros [|g] v vs; simpl; destruct (after v to_); try done;
    intros H Hle; try lia.
  apply run_bind_Done in H as (ws & H & [= <-]). rewrite (IH g (Next v) ws H); [done|lia].
Qed.

(** Between two versions of release lines whose last minor versions are
    known, [UpgradeRange] returns, and what it returns is the ascending list of
    exactly the existing versions in the closed interval. *)
Theorem UpgradeRange_correct (from to_ : Version) :
  supported from -> supported to_ -> Dev from = false -> (Minor to_ < 2 ^ 63 - 2)%Z ->
  vlt from to_ -> connected from to_ ->
  exists n vs, (forall fuel, (n <= fuel)%nat -> UpgradeRange fuel from to_ = Done (Ok vs)) /\
    StronglySorted vlt vs /\
    forall q, supported q -> Dev q = false -> q ∈ vs <-> ~ vlt q from /\ ~ vlt to_ q.
Proof.
  intros Hf Ht Hd Hmax Hlt Hc.
  destruct (upgrade_loop_spec (Z.to_nat (rank to_ + 1 - rank from)) from to_)
    as (vs & Hvs & Hs & _ & Hin); [done..|left; lia|].
  exists (Z.to_nat (rank to_ + 1 - rank from)), vs. split_and!; [|done|done].
  intros fuel Hle. unfold UpgradeRange. rewrite (proj2 (before_iff from to_)) by done. simpl.
  by rewrite (upgrade_loop_mono _ fuel _ _ vs Hvs).
Qed.

Lemma UpgradeRange_correct_witness :
  exists n vs, (forall fuel, (n <= fuel)%nat ->
      UpgradeRange fuel (NewVersion 3 42) (NewVersion 5 1) = Done (Ok vs)) /\
    StronglySorted vlt vs /\
    forall q, supported q -> Dev q = false ->
      q ∈ vs <-> ~ vlt q (NewVersion 3 42) /\ ~ vlt (NewVersion 5 1) q.
Proof.
  apply (UpgradeRange_correct (NewVersion 3 42) (NewVersion 5 1)).
  - by apply supportedb_true.
  - by apply supportedb_true.
  - reflexivity.
  - simpl. lia.
  - vlia.
  - intros M HM. simpl in HM. destruct (decide (M = 3%Z)) as [->|]; [by exists 43%Z|].
    replace M with 4%Z by lia. by exists 5%Z.
Defined.

(** From a version past the last minor version of its line, or of a line whose
    last minor version is not known, to a later line, [UpgradeRange] runs until
    the minor version overflows. *)
Theorem UpgradeRange_stuck (from to_ : Version) (fuel : nat) :
  (0 <= Minor from)%Z -> stuck from -> (Major from < Major to_)%Z ->
  (Minor from + Z.of_nat fuel < 2 ^ 63)%Z -> UpgradeRange fuel from to_ = OutOfFuel.
Proof.
  intros Hm Hs Hlt Hf. unfold UpgradeRange.
  rewrite (proj2 (before_iff from to_)) by vlia. simpl. by rewrite upgrade_loop_stuck.
Qed.

(** ** Round trips of version strings *)
Lemma span_all f s : forallb f s = true -> span f s = (s, []).
Proof.
  induction s as [|c s IH]; simpl; [done|]. rewrite andb_true_iff. intros [-> H].
  by rewrite (IH H).
Qed.

Lemma span_stop f s c t :
  forallb f s = true -> f c = false -> span f (s ++ c :: t) = (s, c :: t).
Proof.
  intros H Hc. induction s as [|d s IH]; simpl; [by rewrite Hc|].
  simpl in H. apply andb_true_iff in H as [-> H]. by rewrite (IH H).
Qed.

Lemma digits_aux_parse fuel n acc maxVal :
  (0 <= n < 2 ^ Z.of_nat fuel)%Z -> (n <= maxVal < 2 ^ 64)%Z ->
  parse_uint_loop (digits_aux fuel n acc) 0 maxVal = parse_uint_loop acc n maxVal.
Proof.
  revert n acc. induction fuel as [|fuel IH]; intros n acc Hn Hmax.
  { replace n with 0%Z by (simpl in Hn; lia). done. }
  assert (forall k, (0 <= k)%Z -> (k * 10 + n mod 10 = n)%Z ->
    parse_uint_loop ((48 + n mod 10)%Z :: acc) k maxVal = parse_uint_loop acc n maxVal) as Hstep.
  { intros k Hk Hkn. cbn [parse_uint_loop].
    assert (is_digit (48 + n mod 10) = true) as ->.
    { pose proof (Z.mod_pos_bound n 10). unfold is_digit, between. lia. }
    simpl negb. cbv iota zeta.
    change ((2 ^ 64 - 1) / 10 + 1)%Z with 1844674407370955162%Z.
    pose proof (Z.mod_pos_bound n 10). replace (1844674407370955162 <=? k)%Z with false by lia.
    replace (k * 10 + (48 + n mod 10 - 48))%Z with n by lia.
    by replace (maxVal <? n)%Z with false by lia. }
  cbn [digits_aux]. destruct (n <? 10)%Z eqn:E.
  - apply Hstep; [lia|]. rewrite Z.mod_small by lia. lia.
  - rewrite IH; [apply Hstep|..].
    + apply Z.div_pos; lia.
    + pose proof (Z.div_mod n 10). lia.
    + split; [apply Z.div_pos; lia|]. apply Z.div_lt_upper_bound; [lia|].
      rewrite Nat2Z.inj_succ, Z.pow_succ_r in Hn by lia. lia.
    + split; [|lia]. transitivity n; [|lia]. apply Z.div_le_upper_bound; lia.
Qed.

Lemma digits_aux_digits fuel n acc :
  (0 <= n)%Z -> forallb is_digit acc = true ->
  forallb is_digit (digits_aux fuel n acc) = true /\ (acc <> [] -> digits_aux fuel n acc <> []).
Proof.
  revert n acc. induction fuel as [|fuel IH]; intros n acc Hn Ha; [done|].
  assert (forallb is_digit ((48 + n mod 10)%Z :: acc) = true) as Ha'.
  { simpl. rewrite Ha, andb_true_r. pose proof (Z.mod_pos_bound n 10). unfold is_digit, between. lia. }
  cbn [digits_aux]. destruct (n <? 10)%Z; [done|].
  destruct (IH (n / 10)%Z _ ltac:(apply Z.div_pos; lia) Ha') as [H1 H2]. split; [done|]. intros _.
  by apply H2.
Qed.

Lemma FormatInt_nonneg n :
  (0 <= n)%Z -> FormatInt n = digits_aux (S (Z.to_nat (Z.log2 n))) n [].
Proof. intros H. unfold FormatInt. rewrite Z.abs_eq by done. by replace (n <? 0)%Z with false by lia. Qed.

Lemma FormatInt_digits n :
  (0 <= n)%Z -> forallb is_digit (FormatInt n) = true /\ exists c t, FormatInt n = c :: t.
Proof.
  intros H. rewrite FormatInt_nonneg by done. split; [by apply digits_aux_digits|].
  cbn [digits_aux]. destruct (n <? 10)%Z; [by eexists _, _|].
  destruct (digits_aux _ _ _) as [|c t] eqn:E; [|by eexists _, _].
  exfalso. eapply (digits_aux_digits _ (n / 10) [(48 + n mod 10)%Z]); [apply Z.div_pos; lia| |done|exact E].
  simpl. rewrite andb_true_r. pose proof (Z.mod_pos_bound n 10). unfold is_digit, between. lia.
Qed.

Lemma Atoi_of_FormatInt n : (0 <= n < 2 ^ 63)%Z -> Atoi (FormatInt n) = NumOk n.
Proof.
  intros Hn. destruct (FormatInt_digits n) as [Hd (c & t & E)]; [lia|].
  unfold Atoi, ParseInt.
  assert (parse_uint_loop (FormatInt n) 0 (2 ^ 64 - 1) = NumOk n) as Hp.
  { rewrite FormatInt_nonneg by lia. rewrite digits_aux_parse; [done| |lia].
    destruct (decide (n = 0%Z)) as [->|]; [done|].
    pose proof (Z.log2_spec n ltac:(lia)). pose proof (Z.log2_nonneg n).
    rewrite Nat2Z.inj_succ, Z2Nat.id by lia. lia. }
  rewrite E in Hd, Hp |- *. simpl in Hd. apply andb_true_iff in Hd as [Hc _].
  unfold is_digit, between in Hc.
  replace (c =? 43)%Z with false by lia. replace (c =? 45)%Z with false by lia.
  rewrite Hp. cbn [negb andb]. by replace (2 ^ (64 - 1) <=? n)%Z with false by lia.
Qed.

Lemma Atoi_FormatInt n : (0 <= n < 2 ^ 63)%Z -> Atoi_value (FormatInt n) = n.
Proof. intros Hn. unfold Atoi_value. by rewrite Atoi_of_FormatInt. Qed.

Lemma digits1_stop s c t :
  forallb is_digit s = true -> s <> [] -> is_digit c = false -> digits1 (s ++ c :: t) = Some (s, c :: t).
Proof. intros H Hs Hc. unfold digits1. rewrite span_stop by done. by destruct s. Qed.

(** The tag of a version names the version. *)
Theorem NewVersionFromString_GitTag (v : Version) (patch : Z) :
  Dev v = false -> (0 <= Major v < 2 ^ 63)%Z -> (0 <= Minor v < 2 ^ 63)%Z -> (0 <= patch < 2 ^ 63)%Z ->
  NewVersionAndPatchFromString (GitTagWithPatch v patch) = Some (v, patch).
Proof.
  intros Hd HM Hm Hp.
  destruct (FormatInt_digits (Major v)) as [DM (cM & tM & EM)]; [lia|].
  destruct (FormatInt_digits (Minor v)) as [Dm (cm & tm & Em)]; [lia|].
  destruct (FormatInt_digits patch) as [Dp (cp & tp & Ep)]; [lia|].
  unfold NewVersionAndPatchFromString, GitTagWithPatch.
  assert (forall pre, HasSuffix (pre ++ FormatInt patch) devVersionFlag = false) as Hsuf.
  { intros pre. unfold HasSuffix. rewrite rev_app_distr.
    destruct (rev (FormatInt patch)) as [|c t] eqn:Er.
    { apply (f_equal (@rev Z)) in Er. rewrite rev_involutive, Ep in Er. done. }
    change (((118 =? c)%Z && HasPrefix (t ++ rev pre) (rev (str "+de"))) = false).
    assert (is_digit c = true) as Hc.
    { rewrite forallb_forall in Dp. apply Dp, in_rev. rewrite Er. by left. }
    unfold is_digit, between in Hc. by replace (118 =? c)%Z with false by lia. }
  rewrite !app_assoc, Hsuf, <- !app_assoc. unfold FindVersion.
  assert (forall x, str "." ++ x = 46%Z :: x) as Hdot by done.
  rewrite !Hdot. change (str "v") with [118%Z]. cbn [app].
  rewrite (digits1_stop (FormatInt (Major v)) 46), (digits1_stop (FormatInt (Minor v)) 46);
    try done; try (by rewrite ?EM, ?Em).
  unfold digits1. rewrite (span_all _ _ Dp), Ep. simpl. rewrite <- Ep.
  rewrite !Atoi_FormatInt by done. destruct v as [a b d]. simpl in *. by rewrite Hd.
Qed.
