(* ===== verification/ScheduleFacts.v ===== *)
(** The schedule of out-of-band migrations: every required migration is
    assigned to one version at which it can run, with as few versions as
    possible. *)
From stdpp Require Import sorting.
From S2P Require Import Prelude GoStr GoLib GoMap Syntax Versions VersionsFacts.

(** ** The covering set *)

Definition intersects (i : migrationInterval) (p : Version) : Prop :=
  ~ vlt p (introduced i) /\ ~ vlt (deprecated i) p.

Lemma pointIntersectsInterval_iff i p :
  pointIntersectsInterval (introduced i) (deprecated i) p = true <-> intersects i p.
Proof.
  unfold pointIntersectsInterval, intersects.
  by rewrite andb_true_iff, !negb_true_iff, !before_false.
Qed.

Lemma find_point_spec i points :
  match find_point i points with
  | Some p => p ∈ points /\ intersects i p
  | None => Forall (fun p => ~ intersects i p) points
  end.
Proof.
  induction points as [|p points IH]; simpl; [done|].
  destruct (pointIntersectsInterval _ _ p) eqn:E.
  - apply pointIntersectsInterval_iff in E. split; [by left|done].
  - rewrite <- not_true_iff_false, pointIntersectsInterval_iff in E.
    destruct (find_point i points); [|by constructor]. destruct IH. split; [by right|done].
Qed.

Lemma find_point_hit i points :
  (exists p, p ∈ points /\ intersects i p) ->
  exists p, find_point i points = Some p /\ p ∈ points /\ intersects i p.
Proof.
  intros (p & Hp & Hi). pose proof (find_point_spec i points) as H.
  destruct (find_point i points) as [q|]; [by exists q|].
  rewrite Forall_forall in H. by destruct (H p).
Qed.

(** All identifiers in a covering set. *)
Definition covered (m : gmap Version (list Z)) : list Z := concat (map_to_list m).*2.

Lemma covered_insert m p n :
  covered (<[p := default [] (m !! p) ++ [n]]> m) ≡ₚ n :: covered m.
Proof.
  unfold covered. rewrite <- insert_delete_eq.
  rewrite map_to_list_insert by apply lookup_delete_eq. csimpl.
  destruct (m !! p) as [ids|] eqn:E; simpl.
  - rewrite <- (insert_delete_id m p ids E) at 2.
    rewrite map_to_list_insert by apply lookup_delete_eq. csimpl. by rewrite <- Permutation_middle, app_nil_r.
  - rewrite delete_id by done. done.
Qed.

Lemma cover_loop_spec intervals points m0 :
  Forall (fun i => exists p, p ∈ points /\ intersects i p) intervals ->
  exists m, cover_loop intervals points m0 = Done m /\
    covered m ≡ₚ covered m0 ++ map id intervals /\
    (forall v, is_Some (m !! v) -> is_Some (m0 !! v) \/ v ∈ points) /\
    (forall v ids n, m !! v = Some ids -> n ∈ ids ->
       n ∈ default [] (m0 !! v) \/ exists i, i ∈ intervals /\ id i = n /\ intersects i v).
Proof.
  intros H. revert m0. induction H as [|i rest Hi _ IH]; intros m0; simpl.
  { exists m0. split_and!; [done|by rewrite app_nil_r|by left|]. intros v ids n -> ?. by left. }
  destruct (find_point_hit i points Hi) as (p & -> & Hp & Hip).
  destruct (IH (<[p:=default [] (m0 !! p) ++ [id i]]> m0)) as (m & -> & Hc & Hk & Hv).
  exists m. split_and!; [done|..].
  - rewrite Hc, covered_insert. simpl. by rewrite <- Permutation_middle.
  - intros v Hs. destruct (Hk v Hs) as [Hm|]; [|by right].
    destruct (decide (v = p)) as [->|]; [by right|left]. by rewrite lookup_insert_ne in Hm.
  - intros v ids n Hm Hn. destruct (Hv v ids n Hm Hn) as [Hin|(j & Hj & Hid & Hx)];
      [|right; exists j; split_and!; [by right|done|done]].
    destruct (decide (v = p)) as [->|]; [|left; by rewrite lookup_insert_ne in Hin].
    rewrite lookup_insert_eq in Hin. simpl in Hin.
    apply elem_of_app in Hin as [Hin| ->%list_elem_of_singleton]; [by left|].
    right. exists i. split_and!; [by left|done|done].
Qed.

Lemma concat_sorted_perm (l : list (Version * list Z)) :
  concat (map MigrationIDs (map (fun '(v, ids) => MkInterrupt v (sort_Ints ids)) l)) ≡ₚ concat l.*2.
Proof.
  induction l as [|[v ids] l IH]; csimpl; [done|]. by rewrite IH, sort_Ints_perm.
Qed.

Section Covering.
Context {G : GoRuntime}.

(** What the interrupts promise, for intervals given in any order. *)
Record scheduled (lt : relation Version) (required : list migrationInterval)
    (interrupts : list MigrationInterrupt) : Prop := {
  in_order : StronglySorted lt (map mi_Version interrupts);
  each_once : concat (map MigrationIDs interrupts) ≡ₚ map id required;
  ids_sorted : Forall (fun i => StronglySorted Z.le (MigrationIDs i)) interrupts;
  can_run : forall i n, i ∈ interrupts -> n ∈ MigrationIDs i ->
    exists r, r ∈ required /\ id r = n /\ intersects r (mi_Version i)
}.

(** Sorting by a direction of the version order. *)
Lemma sort_versions_strict (lt : relation Version) less (l : list MigrationInterrupt) :
  StrictWeak less ->
  (forall i j, Dev (mi_Version i) = false -> Dev (mi_Version j) = false ->
     less j i = false -> mi_Version i <> mi_Version j -> lt (mi_Version i) (mi_Version j)) ->
  Forall (fun i => Dev (mi_Version i) = false) l -> NoDup (map mi_Version l) ->
  StronglySorted lt (map mi_Version (sort_slice less l)).
Proof.
  intros Hw Hlt Hd Hn. pose proof (sort_slice_ascending less l Hw) as Hs.
  pose proof (sort_slice_perm less l) as Hp.
  assert (NoDup (map mi_Version (sort_slice less l))) as Hn' by by rewrite Hp.
  assert (Forall (fun i => Dev (mi_Version i) = false) (sort_slice less l)) as Hd' by by rewrite Hp.
  clear Hp Hn Hd. revert Hn' Hd'. induction Hs as [|i rest Hs IH Hi]; intros Hn Hd; simpl; [constructor|].
  inversion Hn as [|? ? Hni Hn']. inversion Hd as [|? ? Hdi Hd']. subst. constructor; [by apply IH|].
  apply Forall_map. rewrite Forall_forall in Hi, Hd' |- *. intros j Hj.
  apply Hlt; [done|by apply Hd'|by apply Hi|]. intros Heq. apply Hni. rewrite Heq.
  by apply list_elem_of_fmap_2.
Qed.

Lemma makeCoveringSet_spec intervals points :
  Forall (fun i => exists p, p ∈ points /\ intersects i p) intervals ->
  Forall (fun p => Dev p = false) points ->
  exists interrupts, makeCoveringSet intervals points = Done interrupts /\
    NoDup (map mi_Version interrupts) /\ Forall (fun i => Dev (mi_Version i) = false) interrupts /\
    (forall i, i ∈ interrupts -> mi_Version i ∈ points) /\
    concat (map MigrationIDs interrupts) ≡ₚ map id intervals /\
    Forall (fun i => StronglySorted Z.le (MigrationIDs i)) interrupts /\
    (forall i n, i ∈ interrupts -> n ∈ MigrationIDs i ->
       exists r, r ∈ intervals /\ id r = n /\ intersects r (mi_Version i)).
Proof.
  intros Hh Hd. unfold makeCoveringSet. cbv zeta.
  destruct (cover_loop_spec intervals (rev points) ∅) as (m & -> & Hc & Hk & Hv).
  { eapply Forall_impl; [exact Hh|]. simpl. intros i (p & Hp & Hi). exists p.
    split; [|done]. by rewrite <- Permutation_rev. }
  simpl. eexists. split; [done|].
  assert (forall i, i ∈ map (fun '(v, ids) => MkInterrupt v (sort_Ints ids)) (map_range 0 m) ->
    exists ids, m !! mi_Version i = Some ids /\ MigrationIDs i = sort_Ints ids) as Hin.
  { intros i ([v ids] & -> & Hr)%list_elem_of_fmap. apply elem_of_map_range in Hr. by exists ids. }
  assert (forall i, i ∈ map (fun '(v, ids) => MkInterrupt v (sort_Ints ids)) (map_range 0 m) ->
    mi_Version i ∈ points) as Hpts.
  { intros i (ids & Hi & _)%Hin. destruct (Hk (mi_Version i)) as [[? Hx]|Hx]; [by eexists| |].
    - by rewrite lookup_empty in Hx.
    - by rewrite <- Permutation_rev in Hx. }
  split_and!; [| |exact Hpts|..].
  - rewrite map_map. erewrite map_ext; [apply (NoDup_map_range_keys 0 m)|]. by intros [].
  - apply Forall_forall. intros i Hi. rewrite Forall_forall in Hd. by apply Hd, Hpts.
  - rewrite concat_sorted_perm. rewrite map_range_perm. fold (covered m). by rewrite Hc.
  - apply Forall_forall. intros i (ids & _ & ->)%Hin. apply sort_Ints_sorted.
  - intros i n Hi Hn. destruct (Hin i Hi) as (ids & Hm & Hids).
    rewrite Hids, sort_Ints_perm in Hn.
    destruct (Hv _ _ _ Hm Hn) as [Hx|]; [|done]. rewrite lookup_empty in Hx. by apply not_elem_of_nil in Hx.
Qed.
End Covering.

(** ** What has to run *)

(** The interval of a migration that has been deprecated. *)
Definition interval_opt (m : yamlMigration) : option migrationInterval :=
  match DeprecatedVersionMajor m, DeprecatedVersionMinor m with
  | Some major, Some minor =>
      Some (MkInterval (ID m) (MkVersion (IntroducedVersionMajor m) (IntroducedVersionMinor m) false)
              (MkVersion major minor false))
  | _, _ => None
  end.

(** Migrations that are deprecated on the way up. *)
Definition upgrade_required (from to_ : Version) (ms : list yamlMigration) : list migrationInterval :=
  List.filter (fun i => before from (deprecated i) && negb (after (deprecated i) to_))
    (omap interval_opt ms).

(** Migrations that are introduced on the way down. *)
Definition downgrade_required (from to_ : Version) (ms : list yamlMigration)
    : list migrationInterval :=
  List.filter (fun i => negb (after to_ (introduced i)) && before (introduced i) from)
    (omap interval_opt ms).

(** A migration is introduced and deprecated at versions that exist, in this
    order, and there is a version before its deprecation. *)
Definition sound_interval (i : migrationInterval) : Prop :=
  Dev (introduced i) = false /\ supported (introduced i) /\ supported (deprecated i) /\
  vlt (introduced i) (deprecated i) /\ snd (Previous (deprecated i)) = true.

Definition sound_migration (m : yamlMigration) : Prop :=
  match DeprecatedVersionMajor m with
  | None => True
  | Some _ => exists i, interval_opt m = Some i /\ sound_interval i
  end.

Lemma interval_of_opt m i : interval_opt m = Some i -> interval_of m = Done i.
Proof.
  unfold interval_opt, interval_of. destruct (DeprecatedVersionMajor m), (DeprecatedVersionMinor m);
    intros; simplify_eq; done.
Qed.

Lemma upgrade_intervals_spec from to_ ms :
  Forall sound_migration ms -> upgrade_intervals from to_ ms = Done (upgrade_required from to_ ms).
Proof.
  unfold upgrade_required. induction 1 as [|m ms Hm _ IH]; csimpl; [done|].
  unfold sound_migration in Hm.
  destruct (DeprecatedVersionMajor m) as [major|] eqn:E.
  - destruct Hm as (i & Hi & _). rewrite (interval_of_opt m i Hi), IH, Hi. done.
  - rewrite IH. unfold interval_opt at 2. by rewrite E.
Qed.

(** Every migration that is introduced on the way down has been deprecated. *)
Definition introduction (m : yamlMigration) : Version := MkVersion (IntroducedVersionMajor m) (IntroducedVersionMinor m) false.
Definition closed_between (to_ from : Version) (m : yamlMigration) : Prop :=
  ~ vlt (introduction m) to_ -> vlt (introduction m) from -> is_Some (DeprecatedVersionMajor m).

Lemma downgrade_intervals_spec from to_ ms :
  Forall sound_migration ms -> Forall (closed_between to_ from) ms ->
  downgrade_intervals from to_ ms = Done (downgrade_required from to_ ms).
Proof.
  unfold downgrade_required. intros Hm Hc. induction ms as [|m ms IH]; csimpl; [done|].
  apply Forall_cons in Hm as [Hm Hms], Hc as [Hc Hcs]. specialize (IH Hms Hcs).
  unfold sound_migration in Hm. destruct (DeprecatedVersionMajor m) as [major|] eqn:E.
  - destruct Hm as (i & Hi & _). by rewrite (interval_of_opt m i Hi), IH, Hi.
  - change (interval_of _) with (Done (MkInterval (ID m) (introduction m) (MkVersion (Major (Next to_)) (Minor (Next to_)) false))).
    cbn [run_bind]. rewrite IH. cbn [run_bind introduced].
    assert (interval_opt m = None) as -> by (unfold interval_opt; by rewrite E). unfold closed_between in Hc.
    destruct (negb (after to_ (introduction m)) && before (introduction m) from) eqn:Eb; [|done].
    apply andb_true_iff in Eb as [H1%negb_true_iff%after_false H2%before_iff]. rewrite E in Hc. by destruct (Hc H1 H2).
Qed.

Lemma required_sound (f : migrationInterval -> bool) ms :
  Forall sound_migration ms -> Forall sound_interval (List.filter f (omap interval_opt ms)).
Proof.
  intros H. apply Forall_forall. intros i [Hi _]%list_elem_of_In%filter_In.
  apply list_elem_of_In, list_elem_of_omap in Hi as (m & Hm & Hi).
  rewrite Forall_forall in H. specialize (H m Hm). unfold sound_migration in H.
  destruct (DeprecatedVersionMajor m) eqn:E.
  - destruct H as (j & Hj & Hs). congruence.
  - unfold interval_opt in Hi. by rewrite E in Hi.
Qed.

(** ** The two directions as instances of the greedy scan *)

Definition up_point (i : migrationInterval) : Version := fst (Previous (deprecated i)).
Definition up_test (p : Version) (i : migrationInterval) : bool := before p (introduced i).
Definition up_hits (q : Version) (i : migrationInterval) : Prop :=
  ~ vlt q (introduced i) /\ ~ vlt (up_point i) q.

Definition down_test (p : Version) (i : migrationInterval) : bool := negb (after (deprecated i) p).
Definition down_hits (q : Version) (i : migrationInterval) : Prop :=
  ~ vlt q (introduced i) /\ vlt q (deprecated i).

Lemma up_point_spec i :
  sound_interval i ->
  vlt (up_point i) (deprecated i) /\ Dev (up_point i) = false /\ supported (up_point i) /\
  ~ vlt (up_point i) (introduced i) /\
  forall q, supported q -> vlt q (deprecated i) -> ~ vlt (up_point i) q.
Proof.
  intros (_ & Hi & Hd & Hlt & Hp). unfold up_point.
  destruct (Previous (deprecated i)) as [p ok] eqn:E. simpl in Hp. subst ok.
  destruct (Previous_spec _ _ Hd E) as (H1 & H2 & H3 & H4). simpl. split_and!; auto.
Qed.

Lemma upgrade_points_greedy intervals points :
  Forall sound_interval intervals ->
  upgrade_points intervals points = Ok (greedy up_point up_test intervals points).
Proof.
  intros H. revert points. induction H as [|i rest Hi _ IH]; intros points; simpl; [done|].
  destruct Hi as (_ & _ & _ & _ & Hp). unfold up_point, up_test. case_match; [|apply IH].
  destruct (Previous (deprecated i)) as [p ok]. simpl in *. subst ok. apply IH.
Qed.

Lemma downgrade_points_greedy intervals points :
  downgrade_points intervals points = greedy introduced down_test intervals points.
Proof. revert points. induction intervals as [|i rest IH]; intros points; simpl; [done|]. apply IH. Qed.

#[export] Instance up_direction : Direction vlt up_hits up_point up_test sound_interval.
Proof.
  split; unfold up_hits, up_test.
  - apply _.
  - intros. vlia.
  - intros i Hi. destruct (up_point_spec i Hi) as (_ & _ & _ & H & _).
    split; [done|apply irreflexivity, _].
  - by intros i q _ [_ ?].
  - intros p i q _ ?%before_iff [? _]. vlia.
  - intros p i _ ?%before_false. by split.
Qed.

#[export] Instance down_direction :
  Direction (flip vlt) down_hits introduced down_test sound_interval.
Proof.
  split; unfold down_hits, down_test.
  - apply _.
  - unfold flip. intros. vlia.
  - intros i (_ & _ & _ & Hlt & _). split; [apply irreflexivity, _|done].
  - by intros i q _ [? _].
  - intros p i q _ ?%negb_true_iff%after_false [_ ?]. unfold flip. vlia.
  - intros p i _ ?%negb_false_iff%after_iff Hp. by split.
Qed.

(** Points before the deprecation of later intervals stay before it. *)
Lemma up_points_monotone intervals :
  Forall sound_interval intervals ->
  StronglySorted (fun i j => before (deprecated j) (deprecated i) = false) intervals ->
  StronglySorted (fun i j => ~ vlt (up_point j) (up_point i)) intervals.
Proof.
  intros Hg Hs. induction Hs as [|i rest Hs IH Hi]; [constructor|].
  apply Forall_cons in Hg as [Hgi Hg]. constructor; [by apply IH|].
  rewrite Forall_forall in Hi, Hg |- *. intros j Hj. specialize (Hi j Hj). apply before_false in Hi.
  destruct (up_point_spec j (Hg j Hj)) as (_ & _ & _ & _ & Hmax).
  destruct (up_point_spec i Hgi) as (Hlt & _ & Hsup & _). apply Hmax; [done|vlia].
Qed.

(** ** The schedules *)
Section Schedules.
Context {G : GoRuntime}.

(** No set of existing versions at which every required migration can still run
    is smaller than the schedule. *)
Definition fewest (required : list migrationInterval) (interrupts : list MigrationInterrupt) : Prop :=
  forall qs, Forall supported qs ->
    Forall (fun r => exists q, q ∈ qs /\ ~ vlt q (introduced r) /\ vlt q (deprecated r)) required ->
    (length interrupts <= length qs)%nat.

(** The interrupts that [makeCoveringSet] and the last sort make of points that
    hit every interval. *)
Lemma covering_schedule lt less intervals points :
  StrictWeak less ->
  (forall i j, Dev (mi_Version i) = false -> Dev (mi_Version j) = false ->
     less j i = false -> mi_Version i <> mi_Version j -> lt (mi_Version i) (mi_Version j)) ->
  Forall (fun i => exists p, p ∈ points /\ intersects i p) intervals ->
  Forall (fun p => Dev p = false) points ->
  exists interrupts, makeCoveringSet intervals points = Done interrupts /\
    scheduled lt intervals (sort_slice less interrupts) /\
    (length (sort_slice less interrupts) <= length points)%nat /\
    forall i, i ∈ sort_slice less interrupts -> mi_Version i ∈ points.
Proof.
  intros Hw Hlt Hh Hd.
  destruct (makeCoveringSet_spec intervals points Hh Hd)
    as (is' & -> & Hn & Hdev & Hpts & Hc & Hs & Hrun).
  exists is'. split; [done|]. split_and!.
  - split.
    + by apply sort_versions_strict.
    + by rewrite sort_slice_perm.
    + by rewrite sort_slice_perm.
    + intros i n. rewrite sort_slice_perm. apply Hrun.
  - rewrite sort_slice_perm. rewrite <- (length_map mi_Version). apply submseteq_length, NoDup_submseteq;
      [done|]. intros v (i & -> & Hi)%list_elem_of_fmap. by apply Hpts.
  - intros i. rewrite sort_slice_perm. apply Hpts.
Qed.

Lemma scheduled_perm lt l k interrupts : l ≡ₚ k -> scheduled lt l interrupts -> scheduled lt k interrupts.
Proof.
  intros Hp [H1 H2 H3 H4]. split; [done|by rewrite H2, Hp|done|].
  intros i n Hi Hn. destruct (H4 i n Hi Hn) as (r & Hr & ?). exists r. by rewrite <- Hp.
Qed.

Lemma scheduleUpgrade_spec from to_ ms :
  supported from -> Forall sound_migration ms ->
  exists interrupts, scheduleUpgrade from to_ ms = Done (Ok interrupts) /\
    scheduled vlt (upgrade_required from to_ ms) interrupts /\
    Forall (fun i => ~ vlt (mi_Version i) from /\ vlt (mi_Version i) to_) interrupts /\
    fewest (upgrade_required from to_ ms) interrupts.
Proof.
  intros Hf Hm. unfold scheduleUpgrade. rewrite upgrade_intervals_spec by done. simpl.
  set (less := fun i j => before (deprecated i) (deprecated j)).
  set (required := upgrade_required from to_ ms).
  assert (Forall sound_interval (sort_slice less required)) as Hg
    by (rewrite sort_slice_perm; by apply required_sound).
  pose proof (sort_slice_ascending less required (before_key_weak deprecated)) as Hs.
  rewrite upgrade_points_greedy by done.
  pose proof (greedy_covers vlt up_hits up_point up_test sound_interval (sort_slice less required) [])
    as Hcov. specialize (Hcov (up_points_monotone _ Hg Hs) Hg).
  assert (forall p, p ∈ greedy up_point up_test (sort_slice less required) [] ->
    exists r, r ∈ required /\ p = up_point r) as Hpt.
  { intros p [Hp|(r & Hr & ->)]%greedy_in_pt; [by apply not_elem_of_nil in Hp|].
    exists r. by rewrite sort_slice_perm in Hr. }
  assert (Forall sound_interval required) as Hreq by (by apply required_sound).
  rewrite Forall_forall in Hreq.
  destruct (covering_schedule vlt (fun i j => before (mi_Version i) (mi_Version j))
    (sort_slice less required) (greedy up_point up_test (sort_slice less required) []))
    as (is' & -> & Hsch & Hlen & Hin).
  - apply before_key_weak.
  - intros i j Hi Hj ?%before_false Hne. destruct (before (mi_Version i) (mi_Version j)) eqn:E;
      [by apply before_iff|]. apply before_false in E. destruct Hne. apply vlt_total; congruence || done.
  - rewrite Forall_forall in Hg. eapply Forall_impl_in; [exact (Hcov ltac:(by apply Forall_forall))|].
    intros i Hi (p & Hp & H1 & H2). exists p. split; [done|]. split; [done|].
    destruct (up_point_spec i (Hg i Hi)) as (Hlt & _). vlia.
  - apply Forall_forall. intros p (r & Hr & ->)%Hpt.
    by destruct (up_point_spec r (Hreq r Hr)) as (_ & ? & _).
  - simpl. eexists. split; [done|]. split_and!.
    + eapply scheduled_perm; [|exact Hsch]. apply sort_slice_perm.
    + apply Forall_forall. intros i Hi. destruct (Hpt _ (Hin i Hi)) as (r & Hr & ->).
      destruct (up_point_spec r (Hreq r Hr)) as (Hlt & _ & _ & _ & Hmax).
      apply list_elem_of_In, filter_In in Hr as [_ Hr]. apply andb_true_iff in Hr as [H1%before_iff H2].
      apply negb_true_iff, after_false in H2. split; [by apply Hmax|vlia].
    + intros qs Hqs Hq. etransitivity; [exact Hlen|].
      apply (greedy_minimal vlt up_hits up_point up_test sound_interval); [done|].
      rewrite sort_slice_perm. eapply Forall_impl_in; [exact Hq|].
      intros r Hr (q & Hqin & H1 & H2). exists q. split; [done|]. split; [done|].
      destruct (up_point_spec r (Hreq r Hr)) as (_ & _ & _ & _ & Hmax).
      rewrite Forall_forall in Hqs. by apply Hmax, H2; apply Hqs.
Qed.

Lemma scheduleDowngrade_spec from to_ ms :
  Forall sound_migration ms -> Forall (closed_between to_ from) ms ->
  exists interrupts, scheduleDowngrade from to_ ms = Done (Ok interrupts) /\
    scheduled (flip vlt) (downgrade_required from to_ ms) interrupts /\
    Forall (fun i => ~ vlt (mi_Version i) to_ /\ vlt (mi_Version i) from) interrupts /\
    fewest (downgrade_required from to_ ms) interrupts.
Proof.
  intros Hm Hopen. unfold scheduleDowngrade. rewrite downgrade_intervals_spec by done.
  cbn [run_bind]. cbv zeta. set (less := fun i j => before (introduced j) (introduced i)).
  set (required := downgrade_required from to_ ms).
  assert (Forall sound_interval required) as Hreq by (by apply required_sound).
  assert (Forall sound_interval (sort_slice less required)) as Hg by (by rewrite sort_slice_perm).
  pose proof (sort_slice_ascending less required (before_key_weak_flip introduced)) as Hs.
  rewrite downgrade_points_greedy.
  pose proof (greedy_covers (flip vlt) down_hits introduced down_test sound_interval
    (sort_slice less required) []) as Hcov.
  assert (forall p, p ∈ greedy introduced down_test (sort_slice less required) [] ->
    exists r, r ∈ required /\ p = introduced r) as Hpt.
  { intros p [Hp|(r & Hr & ->)]%greedy_in_pt; [by apply not_elem_of_nil in Hp|].
    exists r. by rewrite sort_slice_perm in Hr. }
  rewrite Forall_forall in Hreq.
  destruct (covering_schedule (flip vlt) (fun i j => before (mi_Version j) (mi_Version i))
    (sort_slice less required) (greedy introduced down_test (sort_slice less required) []))
    as (is' & -> & Hsch & Hlen & Hin).
  - apply before_key_weak_flip.
  - intros i j Hi Hj ?%before_false Hne. unfold flip.
    destruct (before (mi_Version j) (mi_Version i)) eqn:E; [by apply before_iff|].
    apply before_false in E. destruct Hne. apply vlt_total; congruence || done.
  - eapply Forall_impl_in; [apply Hcov; [|done|by apply Forall_forall]|].
    + eapply StronglySorted_mono; [|exact Hs]. by intros i j ?%before_false.
    + intros i Hi (p & Hp & H1 & H2). exists p. split; [done|]. split; [done|vlia].
  - apply Forall_forall. intros p (r & Hr & ->)%Hpt. by destruct (Hreq r Hr).
  - simpl. eexists. split; [done|]. split_and!.
    + eapply scheduled_perm; [|exact Hsch]. apply sort_slice_perm.
    + apply Forall_forall. intros i Hi. destruct (Hpt _ (Hin i Hi)) as (r & Hr & ->).
      apply list_elem_of_In, filter_In in Hr as [_ Hr]. apply andb_true_iff in Hr as [H1 H2%before_iff].
      apply negb_true_iff, after_false in H1. by split.
    + intros qs Hqs Hq. etransitivity; [exact Hlen|].
      apply (greedy_minimal (flip vlt) down_hits introduced down_test sound_interval); [done|].
      rewrite sort_slice_perm. eapply Forall_impl; [exact Hq|].
      intros r (q & Hqin & H1 & H2). exists q. by split_and!.
Qed.

Lemma schedule_before from to_ ms :
  vlt from to_ -> scheduleMigrationInterrupts from to_ ms = scheduleUpgrade from to_ ms.
Proof.
  intros H. apply before_iff in H. unfold before in H. apply bool_decide_eq_true in H.
  unfold scheduleMigrationInterrupts. by rewrite H.
Qed.

Lemma schedule_after from to_ ms :
  vlt to_ from -> scheduleMigrationInterrupts from to_ ms = scheduleDowngrade from to_ ms.
Proof.
  intros H. apply after_iff in H. unfold after in H. apply bool_decide_eq_true in H.
  unfold scheduleMigrationInterrupts. by rewrite H.
Qed.


(** ** Downgrades across a migration that is not deprecated *)

Lemma cover_loop_miss intervals points m i :
  i ∈ intervals -> Forall (fun p => ~ intersects i p) points ->
  cover_loop intervals points m = Panics "unreachable: input interval not covered in output".
Proof.
  intros Hi Hp. revert m. induction intervals as [|j rest IH]; intros m; [by apply not_elem_of_nil in Hi|].
  simpl. destruct (find_point j points) as [p|] eqn:E; [|done].
  apply elem_of_cons in Hi as [->|Hi]; [|by apply IH].
  pose proof (find_point_spec j points) as H. rewrite E in H. destruct H as [Hin Hx].
  rewrite Forall_forall in Hp. by destruct (Hp p Hin).
Qed.

(** The interval that a downgrade gives an open migration. *)
Definition open_interval (to_ : Version) (m : yamlMigration) : migrationInterval :=
  MkInterval (ID m) (MkVersion (IntroducedVersionMajor m) (IntroducedVersionMinor m) false)
    (MkVersion (Major (Next to_)) (Minor (Next to_)) false).

Lemma downgrade_intervals_open from to_ ms m :
  Forall (fun m => is_Some (DeprecatedVersionMajor m) -> is_Some (DeprecatedVersionMinor m)) ms ->
  m ∈ ms -> DeprecatedVersionMajor m = None ->
  ~ vlt (introduced (open_interval to_ m)) to_ -> vlt (introduced (open_interval to_ m)) from ->
  exists intervals, downgrade_intervals from to_ ms = Done intervals /\ open_interval to_ m ∈ intervals.
Proof.
  intros Hp Hm Hopen Hlo Hhi.
  assert (forall ms, Forall (fun m => is_Some (DeprecatedVersionMajor m) ->
    is_Some (DeprecatedVersionMinor m)) ms -> exists l, downgrade_intervals from to_ ms = Done l) as Htot.
  { induction 1 as [|m' ms' Hm' _ [l IH]]; simpl; [by eexists|].
    destruct (DeprecatedVersionMajor m') as [a|] eqn:E; unfold interval_of; rewrite ?E; simpl.
    - destruct Hm' as [b ->]; [done|]. simpl. rewrite IH. by eexists.
    - rewrite IH. by eexists. }
  induction Hp as [|m' ms' Hm' Hms' IH]; [by apply not_elem_of_nil in Hm|].
  destruct (Htot ms' Hms') as [l Hl]. simpl.
  apply elem_of_cons in Hm as [<-|Hm].
  - rewrite Hopen. unfold interval_of. simpl. rewrite Hl. simpl. eexists. split; [done|].
    rewrite (proj2 (after_false _ _)) by done. rewrite (proj2 (before_iff _ _)) by done. by left.
  - destruct (IH Hm) as (l' & Hl' & Hin). rewrite Hl in Hl'. injection Hl' as <-.
    destruct (DeprecatedVersionMajor m') as [a|] eqn:E; unfold interval_of; rewrite ?E; simpl.
    + destruct Hm' as [b ->]; [done|]. simpl. rewrite Hl. eexists. split; [done|].
      case_match; [by right|done].
    + rewrite Hl. eexists. split; [done|]. simpl. case_match; [by right|done].
Qed.

(** a downgrade past a migration that is not deprecated yet, introduced after
    the version that follows the target, panics: its interval is closed at that
    version, so no point of the schedule lies in it.  The comment on the code
    says that the interval is assumed to end after the current version. *)
Theorem scheduleDowngrade_open_panics (from to_ : Version) (ms : list yamlMigration)
    (m : yamlMigration) :
  Forall (fun m => is_Some (DeprecatedVersionMajor m) -> is_Some (DeprecatedVersionMinor m)) ms ->
  m ∈ ms -> DeprecatedVersionMajor m = None ->
  vlt (Next to_) (introduced (open_interval to_ m)) ->
  ~ vlt (introduced (open_interval to_ m)) to_ -> vlt (introduced (open_interval to_ m)) from ->
  scheduleMigrationInterrupts from to_ ms =
    Panics "unreachable: input interval not covered in output".
Proof.
  intros Hp Hm Hopen Hnext Hlo Hhi. rewrite schedule_after by vlia. unfold scheduleDowngrade.
  destruct (downgrade_intervals_open from to_ ms m) as (l & -> & Hin); [done..|].
  cbn [run_bind]. cbv zeta. unfold makeCoveringSet. cbv zeta.
  rewrite (cover_loop_miss _ _ _ (open_interval to_ m)); [done|by rewrite sort_slice_perm|].
  apply Forall_forall. intros p _ [H1 H2]. vlia.
Qed.
End Schedules.

Section Witness.
#[local] Instance runtime : GoRuntime := plain_runtime.

Definition w_migration (id major minor : Z) : option Z -> option Z -> yamlMigration :=
  MkMigration id [] [] [] false false major minor.
Definition w_migrations : list yamlMigration :=
  [w_migration 1 3 32 (Some 3) (Some 34); w_migration 2 3 33 (Some 3) (Some 35);
   w_migration 3 3 36 (Some 3) (Some 41); w_migration 4 3 37 (Some 3) (Some 38)]%Z.

Lemma w_migrations_sound : Forall sound_migration w_migrations.
Proof.
  repeat (apply Forall_cons_2;
    [eexists; split; [reflexivity|]; split_and!; [done|by apply supportedb_true..|vlia|done]|]).
  constructor.
Qed.

(** Not deprecated, and introduced above the way down. *)
Definition w_open : yamlMigration := w_migration 21 4 5 None None.


Lemma scheduleDowngrade_open_panics_witness :
  scheduleMigrationInterrupts (NewVersion 4 1) (NewVersion 3 38) [w_migration 9 3 41 None None] =
    Panics "unreachable: input interval not covered in output".
Proof.
  apply (scheduleDowngrade_open_panics (NewVersion 4 1) (NewVersion 3 38)
           [w_migration 9 3 41 None None] (w_migration 9 3 41 None None)).
  - repeat constructor. by intros [].
  - by left.
  - reflexivity.
  - vm_compute. right. split; reflexivity.
  - vlia.
  - vlia.
Defined.

(** A migration can be scheduled at the version of its own deprecation, because
    the interval test is closed: here migration 1, deprecated in 3.33, is
    scheduled at 3.33, although the comment in [scheduleUpgrade] chooses the last
    version prior to the deprecation. *)
Theorem scheduleUpgrade_at_deprecation :
  scheduleMigrationInterrupts (NewVersion 3 30) (NewVersion 3 34)
    [w_migration 1 3 31 (Some 3%Z) (Some 33%Z); w_migration 2 3 33 (Some 3%Z) (Some 34%Z)] =
  Done (Ok [MkInterrupt (NewVersion 3 33) [1; 2]%Z]).
Proof. vm_compute. reflexivity. Qed.
End Witness.
