(* ===== verification/Migrations.v ===== *)
(** Schema migration graphs: [definition.go] and the graph part of [read.go] of
    [internal/database/migration/definition].

    The queries of a migration are values of a type that the model does not
    look into ([sqlf.Query] is a third-party type), behind a pointer.  Slices that the source
    filters or reverses in place are fresh in every call, so they are lists. *)
From S2P Require Import Prelude GoStr GoLib GoMap Syntax.

(** ** Data *)
Record IndexMetadata := MkIndexMetadata { TableName : gostring; IndexName : gostring }.

Record MigrationDefinition (Query : Type) := MkDefinition {
  d_ID : Z;
  d_Name : gostring;
  UpQuery : option Query;
  DownQuery : option Query;
  Privileged : bool;
  NonIdempotent : bool;
  Parents : list Z;
  IsCreateIndexConcurrently : bool;
  d_IndexMetadata : option IndexMetadata
}.
Arguments MkDefinition {Query}.
Arguments d_ID {Query}.
Arguments d_Name {Query}.
Arguments UpQuery {Query}.
Arguments DownQuery {Query}.
Arguments Parents {Query}.

Record Definitions (Query : Type) := MkDefinitions {
  definitions : list (MigrationDefinition Query);
  definitionsMap : gmap Z (MigrationDefinition Query)
}.
Arguments MkDefinitions {Query}.
Arguments definitions {Query}.
Arguments definitionsMap {Query}.

(** Errors: [errors.Newf], the instructional errors of [read.go], and
    [errors.Wrap]. *)
Inductive merror :=
| NewError (msg : gostring)
| instructionalError (class description instructions : gostring)
| WrapError (err : merror) (msg : gostring).

Definition intsToStrings (ints : list Z) : list gostring := map FormatInt ints.

(** [fmt]'s [%v] of a slice of integers. *)
Definition format_ints (ints : list Z) : gostring :=
  str "[" ++ Join (intsToStrings ints) (str " ") ++ str "]".

Definition unknownMigrationError (id : Z) (source : option Z) : merror :=
  match source with
  | None => NewError (str "unknown migration " ++ FormatInt id)
  | Some source =>
      NewError (str "unknown migration " ++ FormatInt id ++ str " referenced from migration " ++
                FormatInt source)
  end.

Section Migrations.
Context {Query : Type}.
Notation def := (MigrationDefinition Query).
Implicit Types (d : def) (ds : list def).

(** ** Reading the graph *)

Definition add_child (child : Z) (childMap : gmap Z (list Z)) (parent : Z) : gmap Z (list Z) :=
  <[parent := default [] (childMap !! parent) ++ [child]]> childMap.

Definition children (migrationDefinitions : list def) : gmap Z (list Z) :=
  fold_left (fun childMap d => fold_left (add_child (d_ID d)) (Parents d) childMap)
    migrationDefinitions ∅.

Definition root (migrationDefinitions : list def) : result merror Z :=
  let roots := map d_ID (List.filter (fun d => Nat.eqb (length (Parents d)) 0) migrationDefinitions) in
  match roots with
  | [] =>
      Err (instructionalError (str "no roots") (str "every migration declares a parent")
             (Join [str "There is no migration defined in this schema that does not declare a parent.";
                    str "This indicates either a migration dependency cycle or a reference to a parent migration that no longer exists."]
                   (str " ")))
  | [r] => Ok r
  | _ =>
      Err (instructionalError (str "multiple roots")
             (str "expected exactly one migration to have no parent but found " ++
              FormatInt (Z.of_nat (length roots)) ++ str " (" ++ format_ints roots ++ str ")")
             (Join [str "There are multiple migrations defined in this schema that do not declare a parent.";
                    str "This indicates a new migration that did not correctly attach itself to an existing migration.";
                    str "This may also indicate the presence of a duplicate squashed migration."]
                   (str " ")))
  end.

(** The marks of the depth-first search; an identifier without an entry is
    unvisited. *)
Inductive MarkType := MarkTypeUnvisited | MarkTypeVisiting | MarkTypeVisited.

Record dfs_state := MkDfs { marks : gmap Z MarkType; order : list Z }.

(** [for len(parents) > 0 && parents[0] != id { parents = parents[1:] }] *)
Fixpoint peel (id : Z) (parents : list Z) : list Z :=
  match parents with
  | [] => []
  | p :: rest => if (p =? id)%Z then parents else peel id rest
  end.

Definition cycle_error (id : Z) (parents : list Z) : merror :=
  instructionalError (str "migration dependency cycle")
    (str "migrations " ++ FormatInt (default 0%Z (last parents)) ++ str " and " ++ FormatInt id ++
     str " declare each other as dependencies")
    (str "Break one of the links in the following cycle:" ++ [10%Z] ++
     Join (intsToStrings (parents ++ [id])) (str " -> ")).

(** The loop over the children of a node, for the function that visits one. *)
Fixpoint dfs_children (visit : Z -> dfs_state -> run (result merror dfs_state))
    (children : list Z) (st : dfs_state) : run (result merror dfs_state) :=
  match children with
  | [] => Done (Ok st)
  | child :: children =>
      let! r := visit child st in
      match r with
      | Err err => Done (Err err)
      | Ok st => dfs_children visit children st
      end
  end.

(** After an error the search is abandoned, so the state is dropped; the
    deferred mark is set on the way out of a call that returns no error. *)
Fixpoint dfs (fuel : nat) (childMap : gmap Z (list Z)) (id : Z) (parents : list Z)
    (st : dfs_state) : run (result merror dfs_state) :=
  match fuel with
  | O => OutOfFuel
  | S fuel =>
      match default MarkTypeUnvisited (marks st !! id) with
      | MarkTypeVisiting =>
          match peel id parents with
          | [] => Panics "unreachable"
          | parents => Done (Err (cycle_error id parents))
          end
      | MarkTypeVisited => Done (Ok st)
      | MarkTypeUnvisited =>
          let st := MkDfs (<[id := MarkTypeVisiting]> (marks st)) (order st) in
          let! r := dfs_children (fun child => dfs fuel childMap child (parents ++ [id]))
                      (default [] (childMap !! id)) st in
          match r with
          | Err err => Done (Err err)
          | Ok st => Done (Ok (MkDfs (<[id := MarkTypeVisited]> (marks st)) (order st ++ [id])))
          end
      end
  end.

(** The search from every node that has no mark yet. *)
Fixpoint dfs_rest (fuel : nat) (childMap : gmap Z (list Z)) (migrationDefinitions : list def)
    (st : dfs_state) : run (result merror dfs_state) :=
  match migrationDefinitions with
  | [] => Done (Ok st)
  | d :: migrationDefinitions =>
      match marks st !! d_ID d with
      | Some _ => dfs_rest fuel childMap migrationDefinitions st
      | None =>
          let! r := dfs fuel childMap (d_ID d) [] st in
          match r with
          | Err err => Done (Err err)
          | Ok st => dfs_rest fuel childMap migrationDefinitions st
          end
      end
  end.

(** Descending order, [sort.Sort(sort.Reverse(sort.IntSlice(children)))]. *)
Definition sort_descending : list Z -> list Z := insertion_sort (fun a b => Z.ltb b a).

(** A path of the search visits distinct nodes, so one unit of fuel per
    definition and two more are enough. *)
Definition dfs_fuel (migrationDefinitions : list def) : nat := length migrationDefinitions + 2.

Definition findDefinitionOrder (migrationDefinitions : list def) : run (result merror (list Z)) :=
  match root migrationDefinitions with
  | Err err => Done (Err err)
  | Ok root =>
      let fuel := dfs_fuel migrationDefinitions in
      let childMap := sort_descending <$> children migrationDefinitions in
      let! r := dfs fuel childMap root [] (MkDfs ∅ []) in
      match r with
      | Err err => Done (Err err)
      | Ok st =>
          if Nat.ltb (length (order st)) (length migrationDefinitions) then
            let! r := dfs_rest fuel childMap migrationDefinitions st in
            match r with
            | Err err => Done (Err err)
            | Ok _ => Panics "unreachable"
            end
          else Done (Ok (order st))
      end
  end.

Definition index_by_id (migrationDefinitions : list def) : gmap Z def :=
  fold_left (fun m d => <[d_ID d := d]> m) migrationDefinitions ∅.

(** The first parent that no definition has. *)
Fixpoint check_parents (m : gmap Z def) (ds : list def) : option merror :=
  match ds with
  | [] => None
  | d :: ds =>
      match List.find (fun parent => bool_decide (m !! parent = None)) (Parents d) with
      | Some parent => Some (unknownMigrationError parent (Some (d_ID d)))
      | None => check_parents m ds
      end
  end.

Definition zeroDefinition : def := MkDefinition 0 [] None None false false [] false None.

(** [migrationDefinitions[len-1-i] = migrationDefinitionMap[id]] for every
    [i, id]. *)
Fixpoint fill_backwards (m : gmap Z def) (n i : nat) (order : list Z) (ds : list def)
    : run (list def) :=
  match order with
  | [] => Done ds
  | id :: order =>
      if Nat.ltb i n
      then fill_backwards m n (S i) order (<[(n - 1 - i)%nat := default zeroDefinition (m !! id)]> ds)
      else Panics "index out of range"
  end.

Definition reorderDefinitions (migrationDefinitions : list def) : run (result merror (list def)) :=
  match migrationDefinitions with
  | [] => Done (Ok [])
  | _ =>
      let migrationDefinitionMap := index_by_id migrationDefinitions in
      match check_parents migrationDefinitionMap migrationDefinitions with
      | Some err => Done (Err err)
      | None =>
          let! r := findDefinitionOrder migrationDefinitions in
          match r with
          | Err err => Done (Err err)
          | Ok order =>
              let! ds := fill_backwards migrationDefinitionMap (length migrationDefinitions) 0
                           order migrationDefinitions in
              Done (Ok ds)
          end
      end
  end.

(** ** Definitions *)

Definition newDefinitions (migrationDefinitions : list def) : Definitions Query :=
  MkDefinitions migrationDefinitions (index_by_id migrationDefinitions).

Definition NewDefinitions (migrationDefinitions : list def)
    : run (result merror (Definitions Query)) :=
  let! r := reorderDefinitions migrationDefinitions in
  match r with
  | Err err => Done (Err (WrapError err (str "reorderDefinitions")))
  | Ok migrationDefinitions => Done (Ok (newDefinitions migrationDefinitions))
  end.

Definition All (ds : Definitions Query) : list def := definitions ds.

Definition GetByID (ds : Definitions Query) (id : Z) : option def := definitionsMap ds !! id.

Definition Root (ds : Definitions Query) : run def :=
  match definitions ds with
  | d :: _ => Done d
  | [] => Panics "index out of range [0] with length 0"
  end.

Definition Leaves (ds : Definitions Query) : list def :=
  let childrenMap := children (definitions ds) in
  List.filter (fun d => Nat.eqb (length (default [] (childrenMap !! d_ID d))) 0) (definitions ds).

(** The first parent of a remaining definition that is not included. *)
Fixpoint check_filter (ids : gset Z) (filtered : list def) : option merror :=
  match filtered with
  | [] => None
  | d :: filtered =>
      match List.find (fun parent => bool_decide (parent ∉ ids)) (Parents d) with
      | Some parent =>
          Some (NewError (str "illegal filter: migration " ++ FormatInt (d_ID d) ++
                          str " (included) references parent migration " ++ FormatInt parent ++
                          str " (excluded)"))
      | None => check_filter ids filtered
      end
  end.

Definition Filter (ds : Definitions Query) (ids : list Z) : result merror (Definitions Query) :=
  let idMap : gset Z := list_to_set ids in
  let filtered := List.filter (fun d => bool_decide (d_ID d ∈ idMap)) (definitions ds) in
  match check_filter idMap filtered with
  | Some err => Err err
  | None => Ok (newDefinitions filtered)
  end.

(** ** Dominators *)

Definition intersect (a : list Z) (bs : list (list Z)) : list Z :=
  fold_left (fun intersection b => List.filter (fun v => bool_decide (v ∈ b)) intersection) bs a.

Definition dominators_step (dominators : gmap Z (list Z)) (d : def) : gmap Z (list Z) :=
  let get id := default [] (dominators !! id) in
  <[d_ID d :=
      d_ID d :: match Parents d with
                | [] => []
                | parent :: parents => intersect (get parent) (map get parents)
                end]> dominators.

Definition dominators (ds : Definitions Query) : gmap Z (list Z) :=
  fold_left dominators_step (definitions ds) ∅.

Definition LeafDominator (ds : Definitions Query) (extraIDs : list Z) : option def :=
  let dominators := dominators ds in
  let get id := default [] (dominators !! id) in
  match map (fun leaf => get (d_ID leaf)) (Leaves ds) ++ map get extraIDs with
  | [] => None
  | a :: bs =>
      match intersect a bs with
      | [] => None
      | same :: _ => GetByID ds same
      end
  end.

(** ** Traversals *)

(** One round over the frontier: identifiers with the node that referred to
    them. *)
Fixpoint traverse_round (ds : Definitions Query) (next : def -> list Z)
    (frontier newFrontier : list (Z * option Z)) (visited : gset Z)
    : result merror (gset Z * list (Z * option Z)) :=
  match frontier with
  | [] => Ok (visited, newFrontier)
  | (id, parent) :: frontier =>
      if bool_decide (id ∈ visited) then traverse_round ds next frontier newFrontier visited
      else
        match GetByID ds id with
        | None => Err (unknownMigrationError id parent)
        | Some d =>
            traverse_round ds next frontier (newFrontier ++ map (fun n => (n, Some id)) (next d))
              ({[id]} ∪ visited)
        end
  end.

Fixpoint traverse_loop (fuel : nat) (ds : Definitions Query) (next : def -> list Z)
    (frontier : list (Z * option Z)) (visited : gset Z) : run (result merror (gset Z)) :=
  match frontier with
  | [] => Done (Ok visited)
  | _ =>
      match fuel with
      | O => OutOfFuel
      | S fuel =>
          match traverse_round ds next frontier [] visited with
          | Err err => Done (Err err)
          | Ok (visited, frontier) => traverse_loop fuel ds next frontier visited
          end
      end
  end.

(** Every round but the last visits a definition for the first time. *)
Definition traverse_fuel (ds : Definitions Query) : nat := size (definitionsMap ds) + 2.

Definition traverse (ds : Definitions Query) (targetIDs : list Z) (next : def -> list Z)
    : run (result merror (list def)) :=
  let! r := traverse_loop (traverse_fuel ds) ds next (map (fun id => (id, None)) targetIDs) ∅ in
  match r with
  | Err err => Done (Err err)
  | Ok visited =>
      Done (Ok (List.filter (fun d => bool_decide (d_ID d ∈ visited)) (definitions ds)))
  end.

Definition Up (ds : Definitions Query) (appliedIDs targetIDs : list Z)
    : run (result merror (list def)) :=
  let! r := traverse ds targetIDs Parents in
  match r with
  | Err err => Done (Err err)
  | Ok ds => Done (Ok (List.filter (fun d => negb (bool_decide (d_ID d ∈ appliedIDs))) ds))
  end.

Definition Down (ds : Definitions Query) (appliedIDs targetIDs : list Z)
    : run (result merror (list def)) :=
  let childrenMap := children (definitions ds) in
  let! r := traverse ds targetIDs (fun d => default [] (childrenMap !! d_ID d)) in
  match r with
  | Err err => Done (Err err)
  | Ok ds =>
      Done (Ok (rev (List.filter (fun d =>
        negb (bool_decide (d_ID d ∈ targetIDs)) && bool_decide (d_ID d ∈ appliedIDs)) ds)))
  end.
End Migrations.
