(* ===== verification/MigrationOrder.v ===== *)
(** Reading a migration graph: [NewDefinitions] accepts exactly the acyclic
    graphs with one root, and orders every migration after its parents. *)
From stdpp Require Import relations.
From S2P Require Import Prelude GoStr Syntax GoMap Migrations.

(** The depth-first search of [findDefinitionOrder]: it returns a post-order of
    the nodes it reaches or an error that comes from a cycle, and it neither
    panics nor runs out of fuel. *)

Section Search.
Context (childMap : gmap Z (list Z)) (U : list Z).

Definition succs (x : Z) : list Z := default [] (childMap !! x).
Definition edge (x y : Z) : Prop := y ∈ succs x.

(** The edges stay in the nodes [U]. *)
Context (closed : forall x y, edge x y -> y ∈ U).

(** Every node of [l] comes after its successors. *)
Definition postorder (l : list Z) : Prop :=
  forall l1 x l2, l = l1 ++ x :: l2 -> forall y, edge x y -> y ∈ l1.

Record search_inv (path : list Z) (st : dfs_state) : Prop := {
  inv_visiting x : marks st !! x = Some MarkTypeVisiting <-> x ∈ path;
  inv_visited x : marks st !! x = Some MarkTypeVisited <-> x ∈ order st;
  inv_unvisited x : marks st !! x <> Some MarkTypeUnvisited;
  inv_nodup : NoDup (order st);
  inv_nodes : order st ⊆ U;
  inv_postorder : postorder (order st)
}.

Definition extends (st st' : dfs_state) : Prop := exists new, order st' = order st ++ new.

Lemma extends_refl st : extends st st.
Proof. exists []. by rewrite app_nil_r. Qed.

Lemma extends_trans st1 st2 st3 : extends st1 st2 -> extends st2 st3 -> extends st1 st3.
Proof. intros [a Ha] [b Hb]. exists (a ++ b). by rewrite Hb, Ha, app_assoc. Qed.

Lemma extends_elem st st' x : extends st st' -> x ∈ order st -> x ∈ order st'.
Proof. intros [a ->] H. apply elem_of_app. by left. Qed.

Lemma peel_elem id parents : id ∈ parents -> exists rest, peel id parents = id :: rest.
Proof.
  induction parents as [|p parents IH]; [by intros ?%not_elem_of_nil|].
  rewrite elem_of_cons. simpl. destruct (Z.eqb_spec p id) as [->|Hne]; [eauto|].
  intros [->|H]; [done|auto].
Qed.

Lemma postorder_snoc l x : postorder l -> (forall y, edge x y -> y ∈ l) -> postorder (l ++ [x]).
Proof.
  intros Hl Hx l1 z l2 E y Hy. destruct l2 as [|w l2 _] using rev_ind.
  - apply app_inj_tail in E as [-> ->]. auto.
  - rewrite app_comm_cons, app_assoc in E. apply app_inj_tail in E as [-> ->]. eauto.
Qed.

(** Entering a node. *)
Lemma search_enter path st id :
  search_inv path st -> marks st !! id = None ->
  search_inv (path ++ [id]) (MkDfs (<[id := MarkTypeVisiting]> (marks st)) (order st)).
Proof.
  intros [H1 H2 H3 H4 H5 H6] Hid. split; simpl; try done; intros x;
    (destruct (decide (x = id)) as [->|Hne];
      [rewrite lookup_insert_eq|rewrite lookup_insert_ne by done]); rewrite ?elem_of_app, ?list_elem_of_singleton.
  - split; [by right|done].
  - rewrite H1. split; [by left|]. by intros [|].
  - split; [done|]. intros Hx%H2. congruence.
  - apply H2.
  - done.
  - apply H3.
Qed.

(** Leaving a node after its successors. *)
Lemma search_leave path st id :
  search_inv (path ++ [id]) st -> id ∉ path -> id ∈ U -> (forall y, edge id y -> y ∈ order st) ->
  search_inv path (MkDfs (<[id := MarkTypeVisited]> (marks st)) (order st ++ [id])).
Proof.
  intros [H1 H2 H3 H4 H5 H6] Hp Hu Hc.
  assert (id ∉ order st) as Hno.
  { intros Hin%H2. assert (marks st !! id = Some MarkTypeVisiting) as Hv
      by (apply H1, elem_of_app; right; by left). congruence. }
  split; simpl.
  - intros x. destruct (decide (x = id)) as [->|Hne];
      [rewrite lookup_insert_eq|rewrite lookup_insert_ne by done]; [by split|].
    rewrite H1, elem_of_app, list_elem_of_singleton. split; [by intros [|]|by left].
  - intros x. rewrite elem_of_app, list_elem_of_singleton. destruct (decide (x = id)) as [->|Hne];
      [rewrite lookup_insert_eq|rewrite lookup_insert_ne by done]; [split; [by right|done]|].
    rewrite H2. split; [by left|by intros [|]].
  - intros x. destruct (decide (x = id)) as [->|Hne];
      [by rewrite lookup_insert_eq|rewrite lookup_insert_ne by done]. apply H3.
  - apply NoDup_app. split_and!; [done| |apply NoDup_singleton].
    intros x Hx ->%list_elem_of_singleton. done.
  - intros x [Hx| ->%list_elem_of_singleton]%elem_of_app; [by apply H5|done].
  - by apply postorder_snoc.
Qed.

Definition dfs_post (path : list Z) (st : dfs_state) (ids : list Z)
    (r : result merror dfs_state) : Prop :=
  match r with
  | Ok st' => search_inv path st' /\ extends st st' /\ forall x, x ∈ ids -> x ∈ order st'
  | Err _ => exists x, tc edge x x
  end.

Lemma dfs_children_spec visit path st children :
  (forall st child, child ∈ children -> search_inv path st ->
     returns (visit child st) (dfs_post path st [child])) ->
  search_inv path st -> returns (dfs_children visit children st) (dfs_post path st children).
Proof.
  intros Hv. revert st. induction children as [|child children IH]; intros st Hst; simpl.
  { apply returns_done. split_and!; [done|apply extends_refl|by intros x ?%not_elem_of_nil]. }
  run_step (Hv st child ltac:(by left) Hst). intros [st'|e] Hr; [|by apply returns_done].
  destruct Hr as (Hst' & He & Hin).
  eapply returns_mono; [apply IH; [|done]|].
  { intros st2 c Hc. apply Hv. by right. }
  intros [st2|e]; [|done]. intros (H1 & H2 & H3). split_and!; [done|by eapply extends_trans|].
  intros x [->|Hx]%elem_of_cons; [|by apply H3]. eapply extends_elem; [done|]. by apply Hin; left.
Qed.

Lemma path_length path id :
  NoDup path -> id ∉ path -> path ⊆ U -> id ∈ U -> (length path < length U)%nat.
Proof.
  intros Hn Hid Hp Hu.
  assert (length (id :: path) <= length U)%nat; [|simpl in *; lia].
  apply submseteq_length, NoDup_submseteq; [by constructor|].
  intros x [->|Hx]%elem_of_cons; auto.
Qed.

Lemma dfs_spec fuel id path st :
  search_inv path st -> NoDup path -> path ⊆ U -> id ∈ U -> Forall (fun x => tc edge x id) path ->
  (length U - length path < fuel)%nat ->
  returns (dfs fuel childMap id path st) (dfs_post path st [id]).
Proof.
  revert id path st. induction fuel as [|fuel IH]; intros id path st Hst Hn Hp Hu Hc Hf; [lia|].
  cbn [dfs]. destruct (marks st !! id) as [[]|] eqn:Em; simpl.
  - by destruct (inv_unvisited _ _ Hst id).
  - apply (inv_visiting _ _ Hst) in Em as Hin. destruct (peel_elem id path Hin) as [rest ->].
    apply returns_done. exists id. rewrite Forall_forall in Hc. by apply Hc.
  - apply returns_done. split_and!; [done|apply extends_refl|].
    intros x ->%list_elem_of_singleton. by apply (inv_visited _ _ Hst).
  - assert (id ∉ path) as Hid.
    { intros Hin. apply (inv_visiting _ _ Hst) in Hin. congruence. }
    pose proof (path_length path id Hn Hid Hp Hu) as Hlen.
    pose proof (search_enter path st id Hst Em) as Hst1.
    apply returns_bind. eapply returns_mono; [apply (dfs_children_spec _ (path ++ [id])); [|done]|].
    { intros st' child Hch Hst'. apply IH; [done|..].
      - apply NoDup_app. split_and!; [done| |apply NoDup_singleton]. by intros x Hx ->%list_elem_of_singleton.
      - intros x [?| ->%list_elem_of_singleton]%elem_of_app; auto.
      - by eapply closed.
      - apply Forall_app. split; [|by apply Forall_singleton, tc_once].
        eapply Forall_impl; [exact Hc|]. intros x Hx. simpl in Hx.
        eapply tc_r; [exact Hx|]. exact Hch.
      - rewrite length_app. simpl. lia. }
    intros [st'|e] Hr; [|by apply returns_done]. destruct Hr as (Hst' & [new He] & Hin).
    apply returns_done. split_and!.
    + by apply search_leave.
    + exists (new ++ [id]). simpl in *. by rewrite He, app_assoc.
    + intros x ->%list_elem_of_singleton. simpl. apply elem_of_app. right. by left.
Qed.
End Search.

Section Order.
Context {Query : Type}.
Notation def := (MigrationDefinition Query).
Implicit Types (d : def) (ds : list def).

Definition ids ds : list Z := map d_ID ds.

(** Every definition comes after its parents. *)
Definition topological ds : Prop :=
  forall l1 d l2, ds = l1 ++ d :: l2 -> forall p, p ∈ Parents d -> p ∈ ids l1.

Definition is_root d : bool := Nat.eqb (length (Parents d)) 0.

(** The definitions can be ordered, and one of them has no parent. *)
Definition single_root_dag ds : Prop :=
  (exists l, l ≡ₚ ds /\ topological l) /\ (ds <> [] -> exists r, List.filter is_root ds = [r]).

(** ** Children *)
Definition child ds (p c : Z) : Prop := exists d, d ∈ ds /\ d_ID d = c /\ p ∈ Parents d.

Lemma add_children c ps (m : gmap Z (list Z)) x y :
  y ∈ default [] (fold_left (add_child c) ps m !! x) <->
  y ∈ default [] (m !! x) \/ (x ∈ ps /\ y = c).
Proof.
  revert m. induction ps as [|p ps IH]; intros m; simpl.
  { split; [by left|]. intros [|[?%not_elem_of_nil _]]; done. }
  rewrite IH, elem_of_cons. unfold add_child. destruct (decide (x = p)) as [->|Hne].
  - rewrite lookup_insert_eq. simpl. rewrite elem_of_app, list_elem_of_singleton. naive_solver.
  - rewrite lookup_insert_ne by done. naive_solver.
Qed.

Lemma children_spec ds x y : y ∈ default [] (children ds !! x) <-> child ds x y.
Proof.
  unfold children, child.
  assert (forall m, y ∈ default [] (fold_left (fun childMap d => fold_left (add_child (d_ID d)) (Parents d) childMap) ds m !! x)
    <-> y ∈ default [] (m !! x) \/ exists d, d ∈ ds /\ d_ID d = y /\ x ∈ Parents d) as H.
  { induction ds as [|d ds IH]; intros m; simpl.
    - split; [by left|]. intros [?|(d & ?%not_elem_of_nil & _)]; done.
    - rewrite IH, add_children. setoid_rewrite elem_of_cons. naive_solver. }
  rewrite H, lookup_empty. simpl. split; [by intros [?%not_elem_of_nil|?]|by right].
Qed.

Lemma sorted_children_edge ds x y :
  edge (sort_descending <$> children ds) x y <-> child ds x y.
Proof.
  unfold edge, succs. rewrite <- children_spec, lookup_fmap.
  destruct (children ds !! x) as [l|]; simpl; [|done].
  unfold sort_descending. by rewrite insertion_sort_perm.
Qed.

(** ** Lookup by identifier *)
Lemma index_by_id_spec ds id :
  NoDup (ids ds) ->
  forall d, index_by_id ds !! id = Some d <-> d ∈ ds /\ d_ID d = id.
Proof.
  intros Hn d. unfold index_by_id.
  assert (forall m : gmap Z def, fold_left (fun m d => <[d_ID d := d]> m) ds m !! id = Some d <->
    (d ∈ ds /\ d_ID d = id) \/ (id ∉ ids ds /\ m !! id = Some d)) as H.
  { induction ds as [|e ds IH]; intros m; simpl.
    - split; [intros; right; split; [by apply not_elem_of_nil|done]|].
      intros [[?%not_elem_of_nil _]|[_ ?]]; done.
    - unfold ids in *. simpl in Hn. apply NoDup_cons in Hn as [He Hn]. rewrite IH by done.
      rewrite elem_of_cons, not_elem_of_cons. split.
      + intros [[? ?]|[Hid Hm]]; [left; auto|].
        destruct (decide (d_ID e = id)) as [<-|Hne].
        * rewrite lookup_insert_eq in Hm. simplify_eq. left. auto.
        * rewrite lookup_insert_ne in Hm by done. right. auto.
      + intros [[[->|Hd] Hid]|[[Hne Hid] Hm]].
        * subst id. right. by rewrite lookup_insert_eq.
        * by left.
        * right. by rewrite lookup_insert_ne by done. }
  rewrite H, lookup_empty. split; [by intros [?|[_ ?]]|by left].
Qed.

Lemma index_by_id_known ds id :
  NoDup (ids ds) -> (is_Some (index_by_id ds !! id) <-> id ∈ ids ds).
Proof.
  intros Hn. unfold ids. rewrite list_elem_of_fmap. split.
  - intros [d [? ?]%index_by_id_spec]; [by exists d|done].
  - intros (d & -> & Hd). exists d. by apply index_by_id_spec.
Qed.

Lemma check_parents_spec m ds :
  match check_parents m ds with
  | None => forall d p, d ∈ ds -> p ∈ Parents d -> is_Some (m !! p)
  | Some _ => exists d p, d ∈ ds /\ p ∈ Parents d /\ m !! p = None
  end.
Proof.
  induction ds as [|d ds IH]; simpl; [by intros d p ?%not_elem_of_nil|].
  destruct (List.find _ (Parents d)) as [p|] eqn:E.
  - apply find_some in E as [Hp%list_elem_of_In Hm%bool_decide_eq_true]. exists d, p.
    split_and!; [by left|done|done].
  - destruct (check_parents m ds).
    + destruct IH as (e & p & He & ?). exists e, p. split; [by right|done].
    + intros e p [->|He]%elem_of_cons Hp; [|by eauto].
      apply list_elem_of_In in Hp. pose proof (find_none _ _ E p Hp) as Hn.
      apply bool_decide_eq_false in Hn. destruct (m !! p); [by eexists|done].
Qed.

(** ** Topological lists *)
Lemma topological_elem ds d p : topological ds -> d ∈ ds -> p ∈ Parents d -> p ∈ ids ds.
Proof.
  intros Ht (l1 & l2 & ->)%list_elem_of_split Hp. specialize (Ht l1 d l2 eq_refl p Hp).
  unfold ids in *. rewrite map_app. apply elem_of_app. by left.
Qed.

(** [x] stands before [y]. *)
Definition precedes (l : list Z) (x y : Z) : Prop := exists l1 l2, l = l1 ++ y :: l2 /\ x ∈ l1.

Lemma precedes_trans l x y z : NoDup l -> precedes l x y -> precedes l y z -> precedes l x z.
Proof.
  intros Hn (l1 & l2 & -> & Hx) (m1 & m2 & E & Hy). apply list_elem_of_split in Hy as (a & b & ->).
  exists (a ++ y :: b), m2. split; [done|]. rewrite <- app_assoc in E. simpl in E.
  destruct (NoDup_middle_inj _ _ _ _ _ E Hn) as [-> _]. apply elem_of_app. by left.
Qed.

Lemma precedes_irrefl l x : NoDup l -> ~ precedes l x x.
Proof.
  intros Hn (l1 & l2 & -> & Hx). apply NoDup_app in Hn as (_ & Hd & _). apply (Hd x Hx). by left.
Qed.

(** Positions strictly increase along edges, so there is no cycle. *)
Lemma topological_tc ds x y :
  topological ds -> NoDup (ids ds) -> tc (child ds) x y -> precedes (ids ds) x y.
Proof.
  intros Ht Hn.
  assert (forall a b, child ds a b -> precedes (ids ds) a b) as Hstep.
  { intros a b (d & (l1 & l2 & ->)%list_elem_of_split & <- & Ha).
    exists (ids l1), (ids l2). split; [|by eapply Ht]. unfold ids. by rewrite map_app. }
  induction 1 as [a b H|a b c H _ IH]; [auto|]. eapply precedes_trans; eauto.
Qed.

Lemma topological_acyclic ds x : topological ds -> NoDup (ids ds) -> ~ tc (child ds) x x.
Proof. intros Ht Hn H. eapply precedes_irrefl; [exact Hn|]. by eapply topological_tc. Qed.

Lemma child_perm ds ds' x y : ds ≡ₚ ds' -> child ds x y -> child ds' x y.
Proof. intros Hp (d & Hd & ?). exists d. by rewrite <- Hp. Qed.

Lemma child_tc_perm ds ds' x y : ds ≡ₚ ds' -> tc (child ds) x y -> tc (child ds') x y.
Proof.
  intros Hp. induction 1 as [a b H|a b c H _ IH]; [apply tc_once|eapply tc_l; [|exact IH]];
    by eapply child_perm.
Qed.

Lemma dag_acyclic ds x : single_root_dag ds -> NoDup (ids ds) -> ~ tc (child ds) x x.
Proof.
  intros [(l & Hp & Ht) _] Hn Hc. eapply (topological_acyclic l x); [done| |].
  - unfold ids in *. by rewrite Hp.
  - by eapply child_tc_perm.
Qed.

(** ** The order that the search finds *)

(** A complete post-order of the children, read backwards, is topological. *)
Lemma postorder_topological ds ds' :
  NoDup (ids ds) -> ids ds' ≡ₚ ids ds -> (forall d, d ∈ ds' -> d ∈ ds) ->
  (forall d p, d ∈ ds -> p ∈ Parents d -> p ∈ ids ds) ->
  postorder (sort_descending <$> children ds) (rev (ids ds')) -> topological ds'.
Proof.
  intros Hn Hperm Hin Hknown Hpost l1 d l2 -> p Hp.
  assert (d ∈ ds) as Hd by (apply Hin, elem_of_app; right; by left).
  assert (NoDup (ids (l1 ++ d :: l2))) as Hn' by by rewrite Hperm.
  assert (p ∈ ids (l1 ++ d :: l2)) as Hpin by (rewrite Hperm; by eapply Hknown).
  assert (child ds p (d_ID d)) as Hc by (by exists d).
  apply sorted_children_edge in Hc. unfold ids in *. rewrite map_app in *. simpl in *.
  apply elem_of_app in Hpin as [?|Hpin]; [done|]. exfalso.
  apply NoDup_app in Hn' as (_ & Hdis & Hn'). apply NoDup_cons in Hn' as [Hd2 _].
  apply elem_of_cons in Hpin as [->|Hpin].
  - assert (d_ID d ∈ rev (map d_ID l2)) as Hx.
    { eapply Hpost; [|exact Hc]. rewrite rev_app_distr. simpl. by rewrite <- app_assoc. }
    by rewrite <- Permutation_rev in Hx.
  - apply list_elem_of_split in Hpin as (a & b & E). rewrite E in *.
    assert (d_ID d ∈ rev b) as Hx.
    { eapply Hpost; [|exact Hc].
      rewrite rev_app_distr. simpl. rewrite rev_app_distr. simpl. by rewrite <- !app_assoc. }
    rewrite <- Permutation_rev in Hx. apply Hd2, elem_of_app. right. by right.
Qed.

Lemma dfs_rest_spec fuel cm U ds st :
  (forall x y, edge cm x y -> y ∈ U) -> (forall d, d ∈ ds -> d_ID d ∈ U) -> (length U < fuel)%nat ->
  search_inv cm U [] st ->
  returns (dfs_rest fuel cm ds st) (dfs_post cm U [] st (ids ds)).
Proof.
  intros Hcl HU Hf. revert st. induction ds as [|d ds IH]; intros st Hst; simpl.
  { apply returns_done. split_and!; [done|apply extends_refl|by intros x ?%not_elem_of_nil]. }
  assert (forall d, d ∈ ds -> d_ID d ∈ U) as HU' by (intros e He; apply HU; by right).
  destruct (marks st !! d_ID d) as [mk|] eqn:Em.
  - eapply returns_mono; [by apply IH|]. intros [st'|e]; [|done]. intros (H1 & H2 & H3).
    split_and!; [done|done|]. intros x [->|Hx]%elem_of_cons; [|by apply H3].
    eapply extends_elem; [done|]. apply (inv_visited _ _ _ _ Hst).
    destruct mk; [by apply (inv_unvisited _ _ _ _ Hst) in Em| |done].
    apply (inv_visiting _ _ _ _ Hst) in Em. by apply not_elem_of_nil in Em.
  - run_step (dfs_spec cm U Hcl fuel (d_ID d) [] st Hst); [apply NoDup_nil_2|by intros ? ?%not_elem_of_nil|by apply HU; left|apply Forall_nil_2|simpl; lia|].
    intros [st'|e] Hr; [|by apply returns_done]. destruct Hr as (Hst' & He & Hin).
    eapply returns_mono; [by apply IH|]. intros [st2|e]; [|done]. intros (H1 & H2 & H3).
    split_and!; [done|by eapply extends_trans|].
    intros x [->|Hx]%elem_of_cons; [|by apply H3]. eapply extends_elem; [done|]. by apply Hin; left.
Qed.

Lemma search_inv_empty cm U : search_inv cm U [] (MkDfs ∅ []).
Proof.
  split; simpl; try (intros x; rewrite lookup_empty).
  - split; [done|by intros ?%not_elem_of_nil].
  - split; [done|by intros ?%not_elem_of_nil].
  - done.
  - constructor.
  - by intros x ?%not_elem_of_nil.
  - intros l1 x l2 E. by destruct l1.
Qed.

Lemma root_spec ds :
  match root ds with
  | Ok r => exists d, List.filter is_root ds = [d] /\ r = d_ID d
  | Err _ => forall d, List.filter is_root ds <> [d]
  end.
Proof.
  unfold root. fold is_root. change (fun d => Nat.eqb (length (Parents d)) 0) with is_root.
  destruct (List.filter is_root ds) as [|d [|e l]]; simpl; [done|by exists d|done].
Qed.

(** A set that holds the root and the children of its elements holds all nodes
    of an acyclic graph. *)
Lemma reaches_all ds l (S : list Z) r :
  l ≡ₚ ds -> topological l -> List.filter is_root ds = [r] -> d_ID r ∈ S ->
  (forall x y, x ∈ S -> child ds x y -> y ∈ S) -> forall d, d ∈ ds -> d_ID d ∈ S.
Proof.
  intros Hp Ht Hr Hroot Hcl.
  assert (forall n l1 l2, l = l1 ++ l2 -> length l1 = n -> forall d, d ∈ l1 -> d_ID d ∈ S) as H.
  { induction n as [|n IH]; intros l1 l2 E Hlen d Hd.
    { destruct l1; [by apply not_elem_of_nil in Hd|done]. }
    destruct l1 as [|e l1 _] using rev_ind; [done|]. rewrite length_app in Hlen. simpl in Hlen.
    rewrite <- app_assoc in E. simpl in E.
    apply elem_of_app in Hd as [Hd| ->%list_elem_of_singleton]; [eapply (IH l1); eauto; lia|].
    assert (e ∈ ds) as He by (rewrite <- Hp, E; apply elem_of_app; right; by left).
    destruct (Parents e) as [|p ps] eqn:Ep.
    - assert (e ∈ List.filter is_root ds) as Hin.
      { apply list_elem_of_In, filter_In. split; [by apply list_elem_of_In|].
        unfold is_root. by rewrite Ep. }
      rewrite Hr in Hin. apply list_elem_of_singleton in Hin as ->. done.
    - apply (Hcl p); [|exists e; split_and!; [done|done|rewrite Ep; by left]].
      assert (p ∈ ids l1) as Hpin by (eapply Ht; [exact E|rewrite Ep; by left]).
      apply list_elem_of_fmap in Hpin as (f & -> & Hf). eapply (IH l1); eauto; lia. }
  intros d Hd. rewrite <- Hp in Hd. apply (H (length l) l []); [by rewrite app_nil_r|done|done].
Qed.

Definition lookup_def ds (id : Z) : def := default zeroDefinition (index_by_id ds !! id).

Lemma lookup_def_id ds d : NoDup (ids ds) -> d ∈ ds -> lookup_def ds (d_ID d) = d.
Proof.
  intros Hn Hd. unfold lookup_def. by rewrite (proj2 (index_by_id_spec ds (d_ID d) Hn d)).
Qed.

Lemma lookup_defs_perm ds order :
  NoDup (ids ds) -> order ≡ₚ ids ds ->
  map (lookup_def ds) order ≡ₚ ds /\ ids (map (lookup_def ds) order) = order.
Proof.
  intros Hn Hp. split.
  - rewrite Hp. unfold ids. rewrite map_map.
    assert (map (fun d => lookup_def ds (d_ID d)) ds = map (fun d => d) ds) as ->.
    { apply map_ext_in. intros d Hd%list_elem_of_In. by apply lookup_def_id. }
    by rewrite map_id.
  - unfold ids in *. rewrite map_map. rewrite <- (map_id order) at 2. apply map_ext_in.
    intros id Hid%list_elem_of_In. rewrite Hp in Hid. apply list_elem_of_fmap in Hid as (d & -> & Hd).
    by rewrite lookup_def_id.
Qed.

Lemma complete_order ds order :
  NoDup (ids ds) -> (forall d p, d ∈ ds -> p ∈ Parents d -> p ∈ ids ds) ->
  order ≡ₚ ids ds -> postorder (sort_descending <$> children ds) order ->
  rev (map (lookup_def ds) order) ≡ₚ ds /\ topological (rev (map (lookup_def ds) order)).
Proof.
  intros Hn Hk Hp Hpost. destruct (lookup_defs_perm ds order Hn Hp) as [H1 H2].
  assert (rev (map (lookup_def ds) order) ≡ₚ ds) as Hr by (by rewrite <- Permutation_rev).
  split; [done|]. apply (postorder_topological ds); [done| | |done|].
  - unfold ids. by rewrite Hr.
  - intros d. by rewrite Hr.
  - unfold ids in *. rewrite map_rev, H2. by rewrite rev_involutive.
Qed.

Lemma findDefinitionOrder_spec ds :
  NoDup (ids ds) -> (forall d p, d ∈ ds -> p ∈ Parents d -> p ∈ ids ds) -> ds <> [] ->
  returns (findDefinitionOrder ds) (fun r =>
    match r with
    | Ok order => order ≡ₚ ids ds /\ postorder (sort_descending <$> children ds) order /\
        exists r, List.filter is_root ds = [r]
    | Err _ => ~ single_root_dag ds
    end).
Proof.
  intros Hn Hk Hne. unfold findDefinitionOrder. pose proof (root_spec ds) as Hroot.
  destruct (root ds) as [r|e].
  2: { apply returns_done. intros [_ H]. destruct (H Hne) as [d Hd]. by apply (Hroot d). }
  destruct Hroot as (rd & Hrd & ->).
  set (cm := sort_descending <$> children ds).
  assert (forall x y, edge cm x y -> y ∈ ids ds) as Hcl.
  { intros x y (d & Hd & <- & _)%sorted_children_edge. by apply list_elem_of_fmap_2. }
  assert (rd ∈ ds) as Hrdin.
  { assert (rd ∈ List.filter is_root ds) as H by (rewrite Hrd; by left).
    by apply list_elem_of_In, filter_In in H as [?%list_elem_of_In _]. }
  assert (forall x, tc (edge cm) x x -> ~ single_root_dag ds) as Hcyc.
  { intros x Hx Hdag. apply (dag_acyclic ds x Hdag Hn). revert Hx. generalize x at 1 3 as y.
    intros y Hy. induction Hy as [a b H|a b c H _ IH]; [apply tc_once|eapply tc_l; [|exact IH]];
      by apply sorted_children_edge. }
  assert (length (ids ds) < dfs_fuel ds)%nat as Hfuel by (unfold ids, dfs_fuel; rewrite length_map; lia).
  run_step (dfs_spec cm (ids ds) Hcl (dfs_fuel ds) (d_ID rd) [] (MkDfs ∅ []) (search_inv_empty _ _));
    [apply NoDup_nil_2|by intros ? ?%not_elem_of_nil|by apply list_elem_of_fmap_2|apply Forall_nil_2|
     simpl; lia|].
  intros [st|e]; [|intros [x Hx]; apply returns_done; by apply (Hcyc x)].
  intros (Hst & _ & Hin). destruct (Nat.ltb_spec (length (order st)) (length ds)) as [Hlt|Hge].
  - run_step (dfs_rest_spec (dfs_fuel ds) cm (ids ds) ds st Hcl); [by intros; apply list_elem_of_fmap_2|done|done|].
    intros [st2|e]; [|intros [x Hx]; apply returns_done; by apply (Hcyc x)].
    intros (Hst2 & _ & Hall). exfalso.
    assert (order st2 ≡ₚ ids ds) as Hp2.
    { symmetry. apply submseteq_length_Permutation; [apply NoDup_submseteq; [done|exact Hall]|].
      apply submseteq_length, NoDup_submseteq; [apply (inv_nodup _ _ _ _ Hst2)|apply (inv_nodes _ _ _ _ Hst2)]. }
    destruct (complete_order ds (order st2) Hn Hk Hp2 (inv_postorder _ _ _ _ Hst2)) as [H1 H2].
    assert (length (ids ds) <= length (order st))%nat; [|unfold ids in *; rewrite length_map in *; lia].
    apply submseteq_length, NoDup_submseteq; [done|].
    intros x (d & -> & Hd)%list_elem_of_fmap.
    eapply (reaches_all ds _ (order st) rd H1 H2 Hrd); [by apply Hin; left| |done].
    intros a b Ha Hab. apply list_elem_of_split in Ha as (l1 & l2 & E).
    apply sorted_children_edge in Hab. rewrite E. apply elem_of_app. left.
    by eapply (inv_postorder _ _ _ _ Hst).
  - apply returns_done. split_and!; [|apply (inv_postorder _ _ _ _ Hst)|by eexists].
    apply submseteq_length_Permutation; [|unfold ids; rewrite length_map; lia].
    apply NoDup_submseteq; [apply (inv_nodup _ _ _ _ Hst)|apply (inv_nodes _ _ _ _ Hst)].
Qed.

Lemma fill_backwards_spec ds0 i order ds :
  (i + length order <= length ds)%nat ->
  fill_backwards (index_by_id ds0) (length ds) i order ds =
  Done (take (length ds - i - length order) ds ++ rev (map (lookup_def ds0) order)
        ++ drop (length ds - i) ds).
Proof.
  revert i ds. induction order as [|id order IH]; intros i ds Hle; simpl.
  { rewrite Nat.sub_0_r. by rewrite take_drop. }
  simpl in Hle. destruct (Nat.ltb_spec i (length ds)) as [Hi|]; [|lia].
  fold (lookup_def ds0 id). set (k := (length ds - 1 - i)%nat).
  assert (length (<[k := lookup_def ds0 id]> ds) = length ds) as Hl by apply length_insert.
  pose proof (IH (S i) (<[k := lookup_def ds0 id]> ds)) as H. rewrite Hl in H. rewrite H by lia.
  f_equal. rewrite <- !app_assoc. f_equal; [|f_equal].
  - rewrite take_insert_ge by lia. f_equal. lia.
  - replace (length ds - S i)%nat with k by lia.
    rewrite insert_take_drop by lia. rewrite drop_app_length' by (rewrite length_take; lia).
    simpl. f_equal. f_equal. lia.
Qed.

Lemma reorderDefinitions_spec ds :
  NoDup (ids ds) ->
  returns (reorderDefinitions ds) (fun r =>
    match r with
    | Ok ds' => ds' ≡ₚ ds /\ topological ds' /\ single_root_dag ds
    | Err _ => ~ single_root_dag ds
    end).
Proof.
  intros Hn. unfold reorderDefinitions. destruct ds as [|d0 ds0] eqn:Eds.
  { apply returns_done. split_and!; [done|intros [|] ? ? E; done|].
    split; [exists []; split; [done|intros [|] ? ? E; done]|done]. }
  rewrite <- Eds in *. assert (ds <> []) as Hne by (by rewrite Eds).
  pose proof (check_parents_spec (index_by_id ds) ds) as Hcheck.
  destruct (check_parents (index_by_id ds) ds).
  { apply returns_done. intros [(l & Hp & Ht) _]. destruct Hcheck as (d & p & Hd & Hpp & Hno).
    rewrite <- Hp in Hd. pose proof (topological_elem l d p Ht Hd Hpp) as Hin.
    unfold ids in Hin. rewrite Hp in Hin. apply (index_by_id_known ds p Hn) in Hin as [x Hx]. congruence. }
  assert (forall d p, d ∈ ds -> p ∈ Parents d -> p ∈ ids ds) as Hk.
  { intros d p Hd Hp. apply index_by_id_known; [done|]. by eapply Hcheck. }
  run_step (findDefinitionOrder_spec ds Hn Hk Hne). intros [order|e] Hr; [|by apply returns_done].
  destruct Hr as (Hp & Hpost & Hroot).
  assert (length order = length ds) as Hlen by (rewrite Hp; unfold ids; by rewrite length_map).
  rewrite fill_backwards_spec by lia. simpl. apply returns_done.
  rewrite Nat.sub_0_r, Hlen, Nat.sub_diag, drop_all, app_nil_r. simpl.
  destruct (complete_order ds order Hn Hk Hp Hpost) as [H1 H2].
  split_and!; [done|done|]. split; [by eexists|done].
Qed.

(** C30: on migrations with distinct identifiers, [NewDefinitions] returns: it
    never reaches its [unreachable] panics and the search ends.  It succeeds
    exactly when the migrations form an acyclic graph with one root and known
    parents, and then the result holds the same migrations, each after all of
    its parents. *)
Theorem NewDefinitions_correct ds :
  NoDup (ids ds) ->
  exists r, NewDefinitions ds = Done r /\
  match r with
  | Ok out => single_root_dag ds /\ definitions out ≡ₚ ds /\ topological (definitions out) /\
      forall id d, GetByID out id = Some d <-> d ∈ ds /\ d_ID d = id
  | Err _ => ~ single_root_dag ds
  end.
Proof.
  intros Hn. destruct (reorderDefinitions_spec ds Hn) as ([ds'|e] & Hr & H);
    unfold NewDefinitions; rewrite Hr; simpl; eexists; (split; [done|]); [|done].
  destruct H as (Hp & Ht & Hdag). split_and!; [done..|]. intros id d. unfold GetByID. simpl.
  rewrite index_by_id_spec by (unfold ids in *; by rewrite Hp). by rewrite Hp.
Qed.
End Order.

Section Witness.
Definition mig (id : Z) (parents : list Z) : MigrationDefinition gostring :=
  MkDefinition id [] None None false false parents false None.

(** A diamond, in an order that is not topological. *)
Definition w_diamond : list (MigrationDefinition gostring) :=
  [mig 4 [2; 3]; mig 2 [1]; mig 1 []; mig 3 [1]]%Z.

Lemma NewDefinitions_correct_witness :
  exists r, NewDefinitions w_diamond = Done r /\
  match r with
  | Ok out => single_root_dag w_diamond /\ definitions out ≡ₚ w_diamond /\
      topological (definitions out) /\
      forall id d, GetByID out id = Some d <-> d ∈ w_diamond /\ d_ID d = id
  | Err _ => ~ single_root_dag w_diamond
  end.
Proof. apply (NewDefinitions_correct w_diamond). repeat constructor; vm_compute; set_solver. Defined.

(** Two migrations with one identifier, as two directories with one version
    number give, reach a panic that is marked unreachable. *)
Theorem NewDefinitions_duplicate_panics :
  NewDefinitions [mig 1 []; mig 2 [1%Z]; mig 2 [1%Z]] = Panics "unreachable".
Proof. vm_compute. reflexivity. Qed.
End Witness.
