(* ===== verification/MigrationPlans.v ===== *)
(** Plans over a migration graph: what [Up] and [Down] return is what has to be
    applied or undone, in an order in which every step is possible. *)
From stdpp Require Import relations.
From S2P Require Import Prelude GoStr GoMap Syntax Migrations MigrationOrder.

Section Plans.
Context {Query : Type}.
Notation def := (MigrationDefinition Query).
Implicit Types (d e : def) (ds : Definitions Query).

(** What [NewDefinitions] establishes. *)
Record valid_definitions ds : Prop := {
  valid_ids : NoDup (ids (definitions ds));
  valid_order : topological (definitions ds);
  valid_map : definitionsMap ds = index_by_id (definitions ds)
}.

Lemma GetByID_spec ds id d :
  valid_definitions ds -> GetByID ds id = Some d <-> d ∈ definitions ds /\ d_ID d = id.
Proof. intros [Hn _ Hm]. unfold GetByID. rewrite Hm. by apply index_by_id_spec. Qed.

Lemma GetByID_known ds id :
  valid_definitions ds -> GetByID ds id = None <-> id ∉ ids (definitions ds).
Proof.
  intros [Hn _ Hm]. unfold GetByID. rewrite Hm, <- index_by_id_known by done.
  by rewrite eq_None_not_Some.
Qed.

(** ** Traversal *)
Section Traverse.
Context (ds : Definitions Query) (next : def -> list Z).
Context (known_next : forall id d n, GetByID ds id = Some d -> n ∈ next d -> is_Some (GetByID ds n)).

Definition next_edge (x y : Z) : Prop := exists d, GetByID ds x = Some d /\ y ∈ next d.
Definition reached (targets : list Z) (x : Z) : Prop := exists t, t ∈ targets /\ rtc next_edge t x.

Lemma traverse_round_spec frontier nf visited :
  match traverse_round ds next frontier nf visited with
  | Err _ => exists id, id ∈ frontier.*1 /\ GetByID ds id = None
  | Ok (visited', nf') =>
      visited' = list_to_set frontier.*1 ∪ visited /\
      (forall x, x ∈ frontier.*1 -> x ∈ visited \/ is_Some (GetByID ds x)) /\
      (forall y, y ∈ nf'.*1 <-> y ∈ nf.*1 \/ exists x, x ∈ frontier.*1 /\ x ∉ visited /\ next_edge x y) /\
      (visited' = visited -> nf' = nf)
  end.
Proof.
  revert nf visited. induction frontier as [|[id parent] frontier IH]; intros nf visited; csimpl.
  { split_and!; [set_solver|by intros x ?%not_elem_of_nil| |done].
    intros y. split; [by left|]. intros [?|(x & ?%not_elem_of_nil & _)]; done. }
  case_bool_decide as Hv.
  - specialize (IH nf visited). destruct (traverse_round _ _ _ _ _) as [[v' nf']|e].
    + destruct IH as (-> & H2 & H3 & H4). split_and!; [set_solver| |..].
      * intros x [->|Hx]%elem_of_cons; [by left|auto].
      * intros y. rewrite H3. split; (intros [?|(x & Hx & ?)]; [by left|right; exists x; set_solver]).
      * intros E. apply H4. set_solver.
    + destruct IH as (x & Hx & ?). exists x. set_solver.
  - destruct (GetByID ds id) as [d|] eqn:Eg; [|exists id; set_solver].
    specialize (IH (nf ++ map (fun n => (n, Some id)) (next d)) ({[id]} ∪ visited)).
    destruct (traverse_round _ _ _ _ _) as [[v' nf']|e].
    + destruct IH as (-> & H2 & H3 & H4). split_and!; [set_solver| |..].
      * intros x [->|Hx]%elem_of_cons; [right; by eexists|].
        destruct (decide (x = id)) as [->|]; [right; by eexists|]. destruct (H2 x Hx); set_solver.
      * intros y. rewrite H3, fmap_app, elem_of_app.
        assert (y ∈ (map (fun n => (n, Some id)) (next d)).*1 <-> next_edge id y) as ->.
        { rewrite <- list_fmap_compose. rewrite list_elem_of_fmap. unfold next_edge. rewrite Eg. simpl. naive_solver. }
        split.
        -- intros [[?|?]|(x & Hx & Hn & Hs)]; [by left|right; exists id; set_solver|].
           right. exists x. set_solver.
        -- intros [?|(x & [->|Hx]%elem_of_cons & Hn & Hs)]; [by left; left|by left; right|].
           destruct (decide (x = id)) as [->|]; [by left; right|]. right. exists x. set_solver.
      * intros E. exfalso. set_solver.
    + destruct IH as (x & Hx & ?). exists x. set_solver.
Qed.

(** The visited nodes are closed up to the frontier. *)
Record loop_inv (targets : list Z) (frontier : list Z) (visited : gset Z) : Prop := {
  li_reached x : x ∈ visited \/ x ∈ frontier -> reached targets x;
  li_targets t : t ∈ targets -> t ∈ visited \/ t ∈ frontier;
  li_closed x y : x ∈ visited -> next_edge x y -> y ∈ visited \/ y ∈ frontier;
  li_known x : x ∈ visited -> is_Some (GetByID ds x)
}.

Lemma loop_inv_done targets visited :
  loop_inv targets [] visited ->
  (forall x, x ∈ visited <-> reached targets x) /\ forall t, t ∈ targets -> is_Some (GetByID ds t).
Proof.
  intros [H1 H2 H3 H4]. split.
  - intros x. split; [by intros; apply H1; left|]. intros (t & Ht & Hr).
    assert (t ∈ visited) as Hv by (by destruct (H2 t Ht) as [?|?%not_elem_of_nil]).
    clear Ht. induction Hr as [|a b c Hab _ IHr]; [done|]. apply IHr.
    by destruct (H3 a b Hv Hab) as [?|?%not_elem_of_nil].
  - intros t Ht. apply H4. by destruct (H2 t Ht) as [?|?%not_elem_of_nil].
Qed.

Lemma loop_inv_round targets (frontier nf' : list (Z * option Z)) visited (v' : gset Z) :
  loop_inv targets frontier.*1 visited -> v' = list_to_set frontier.*1 ∪ visited ->
  (forall x, x ∈ frontier.*1 -> x ∈ visited \/ is_Some (GetByID ds x)) ->
  (forall y, y ∈ nf'.*1 <-> y ∈ (@nil (Z * option Z)).*1 \/
     exists x, x ∈ frontier.*1 /\ x ∉ visited /\ next_edge x y) ->
  loop_inv targets nf'.*1 v'.
Proof.
  intros [H1 H2 H3 H4] -> Hkn Hnf. split; intros x; rewrite ?elem_of_union, ?elem_of_list_to_set.
  - intros [Hx|Hx]; [apply H1; tauto|].
    apply Hnf in Hx as [?%not_elem_of_nil|(w & Hw & _ & Hs)]; [done|].
    destruct (H1 w (or_intror Hw)) as (t & Ht & Hr). exists t. split; [done|]. by eapply rtc_r.
  - intros Ht. left. destruct (H2 x Ht); auto.
  - intros y. rewrite !elem_of_union, !elem_of_list_to_set. intros Hx Hs.
    destruct (decide (x ∈ visited)) as [Hin|Hnin]; [destruct (H3 x y Hin Hs); auto|].
    right. apply Hnf. right. exists x. destruct Hx; [by split_and!|done].
  - intros [Hx|Hx]; [|by apply H4]. destruct (Hkn x Hx); [by apply H4|done].
Qed.

Lemma traverse_loop_spec fuel targets frontier visited :
  loop_inv targets frontier.*1 visited ->
  (forall x, x ∈ frontier.*1 -> x ∈ targets \/ is_Some (GetByID ds x)) ->
  frontier = [] \/ (size (definitionsMap ds) - size visited < fuel)%nat ->
  returns (traverse_loop fuel ds next frontier visited) (fun r =>
    match r with
    | Ok visited' => (forall x, x ∈ visited' <-> reached targets x) /\
        forall t, t ∈ targets -> is_Some (GetByID ds t)
    | Err _ => exists t, t ∈ targets /\ GetByID ds t = None
    end).
Proof.
  revert frontier visited. induction fuel as [|fuel IH]; intros frontier visited Hi Hk Hf;
    (destruct (decide (frontier = [])) as [->|Hne];
      [apply returns_done; by apply loop_inv_done|destruct Hf as [?|Hf]; [done|]]); [lia|].
  assert (traverse_loop (S fuel) ds next frontier visited =
    match traverse_round ds next frontier [] visited with
    | Err err => Done (Err err)
    | Ok (visited, frontier) => traverse_loop fuel ds next frontier visited
    end) as -> by (by destruct frontier).
  pose proof (traverse_round_spec frontier [] visited) as Hr.
  destruct (traverse_round ds next frontier [] visited) as [[v' nf']|e].
  2: { apply returns_done. destruct Hr as (x & Hx & Hno). exists x. split; [|done].
       destruct (Hk x Hx) as [?|[? ?]]; [done|congruence]. }
  destruct Hr as (Hv' & Hkn & Hnf & Hsame).
  pose proof (loop_inv_round targets frontier nf' visited v' Hi Hv' Hkn Hnf) as Hi'.
  apply IH; [done|..].
  - intros x Hx. right. apply Hnf in Hx as [?%not_elem_of_nil|(w & _ & _ & (d & Hd & Hin))]; [done|].
    by eapply known_next.
  - destruct (decide (v' = visited)) as [E|Hnew]; [by left; apply Hsame|right].
    assert (size visited < size v')%nat.
    { apply subset_size. split; [set_solver|]. intros Hsub. apply Hnew. set_solver. }
    assert (size v' <= size (definitionsMap ds))%nat; [|lia].
    rewrite <- size_dom. apply subseteq_size. intros x Hx.
    apply elem_of_dom, (li_known _ _ _ Hi' x Hx).
Qed.

Lemma traverse_spec targets :
  returns (traverse ds targets next) (fun r =>
    match r with
    | Ok out => (forall t, t ∈ targets -> is_Some (GetByID ds t)) /\
        exists visited : gset Z, (forall x, x ∈ visited <-> reached targets x) /\
          out = List.filter (fun d => bool_decide (d_ID d ∈ visited)) (definitions ds)
    | Err _ => exists t, t ∈ targets /\ GetByID ds t = None
    end).
Proof.
  unfold traverse.
  assert ((map (fun id : Z => (id, @None Z)) targets).*1 = targets) as Hfst.
  { induction targets as [|t ts IH]; csimpl; [done|]. by f_equal. }
  run_step (traverse_loop_spec (traverse_fuel ds) targets).
  - rewrite Hfst. split; [|by right|set_solver|set_solver].
    intros x [?|Hx]; [set_solver|]. by exists x.
  - rewrite Hfst. by left.
  - right. unfold traverse_fuel. rewrite size_empty. lia.
  - intros [v|e]; [|by intros; apply returns_done]. intros [H1 H2]. apply returns_done. eauto.
Qed.
End Traverse.

(** ** Filtered topological lists *)

Lemma filter_split (f : def -> bool) l l1 d l2 :
  List.filter f l = l1 ++ d :: l2 ->
  exists m1 m2, l = m1 ++ d :: m2 /\ l1 = List.filter f m1 /\ l2 = List.filter f m2.
Proof.
  revert l1. induction l as [|e l IH]; intros l1 E; simpl in E; [by destruct l1|].
  destruct (f e) eqn:Ef.
  - destruct l1 as [|e' l1]; injection E as -> E.
    + exists [], l. by split_and!.
    + destruct (IH l1 E) as (m1 & m2 & -> & -> & ->). exists (e' :: m1), m2. simpl. by rewrite Ef.
  - destruct (IH l1 E) as (m1 & m2 & -> & -> & ->). exists (e :: m1), m2. simpl. by rewrite Ef.
Qed.

Lemma ids_inj (l : list def) d e : NoDup (ids l) -> d ∈ l -> e ∈ l -> d_ID d = d_ID e -> d = e.
Proof.
  intros Hn Hd He E.
  assert (index_by_id l !! d_ID d = Some d) as H1 by (by apply index_by_id_spec).
  assert (index_by_id l !! d_ID d = Some e) as H2 by (by apply index_by_id_spec).
  congruence.
Qed.

(** A parent that is kept is kept before its child. *)
Lemma filter_topological (f : def -> bool) l l1 d l2 p :
  topological l -> NoDup (ids l) -> List.filter f l = l1 ++ d :: l2 -> p ∈ Parents d ->
  p ∈ ids (List.filter f l) -> p ∈ ids l1.
Proof.
  intros Ht Hn E Hp Hin. apply list_elem_of_fmap in Hin as (x & -> & Hx).
  apply list_elem_of_In, filter_In in Hx as [Hx%list_elem_of_In Hfx].
  apply filter_split in E as (m1 & m2 & -> & -> & _).
  specialize (Ht m1 d m2 eq_refl _ Hp). apply list_elem_of_fmap in Ht as (y & Hxy & Hy).
  assert (x = y) as <-.
  { eapply ids_inj; [exact Hn|done|apply elem_of_app; by left|done]. }
  apply list_elem_of_fmap. exists x. split; [done|]. apply list_elem_of_In, filter_In.
  split; [by apply list_elem_of_In|done].
Qed.

(** ** Applying and undoing migrations *)

(** Migrations are applied one at a time, after all of their parents. *)
Fixpoint apply_all (applied : gset Z) (plan : list def) : option (gset Z) :=
  match plan with
  | [] => Some applied
  | d :: plan =>
      if forallb (fun p => bool_decide (p ∈ applied)) (Parents d)
      then apply_all ({[d_ID d]} ∪ applied) plan else None
  end.

(** Migrations are undone one at a time, before all of their parents. *)
Fixpoint unapply_all ds (applied : gset Z) (plan : list def) : option (gset Z) :=
  match plan with
  | [] => Some applied
  | d :: plan =>
      if forallb (fun e => negb (bool_decide (d_ID d ∈ Parents e) && bool_decide (d_ID e ∈ applied)))
           (definitions ds)
      then unapply_all ds (applied ∖ {[d_ID d]}) plan else None
  end.

Lemma apply_all_spec (plan : list def) (applied : gset Z) :
  (forall l1 d l2, plan = l1 ++ d :: l2 -> forall p, p ∈ Parents d -> p ∈ applied \/ p ∈ ids l1) ->
  apply_all applied plan = Some (list_to_set (ids plan) ∪ applied).
Proof.
  revert applied. induction plan as [|d plan IH]; intros applied H; simpl; [f_equal; set_solver|].
  assert (forallb (fun p => bool_decide (p ∈ applied)) (Parents d) = true) as ->.
  { apply forallb_forall. intros p Hp%list_elem_of_In. apply bool_decide_eq_true.
    destruct (H [] d plan eq_refl p Hp) as [?|?%not_elem_of_nil]; done. }
  rewrite IH; [f_equal; set_solver|]. intros l1 e l2 -> p Hp.
  destruct (H (d :: l1) e l2 eq_refl p Hp) as [?|[->|?]%elem_of_cons]; set_solver.
Qed.

Lemma unapply_all_spec ds (plan : list def) (applied : gset Z) :
  (forall l1 d l2, plan = l1 ++ d :: l2 -> forall e, e ∈ definitions ds -> d_ID d ∈ Parents e ->
     d_ID e ∈ applied -> d_ID e ∈ ids l1) ->
  unapply_all ds applied plan = Some (applied ∖ list_to_set (ids plan)).
Proof.
  revert applied. induction plan as [|d plan IH]; intros applied H; simpl; [f_equal; set_solver|].
  assert (forallb (fun e => negb (bool_decide (d_ID d ∈ Parents e) && bool_decide (d_ID e ∈ applied)))
    (definitions ds) = true) as ->.
  { apply forallb_forall. intros e He%list_elem_of_In. apply negb_true_iff, andb_false_iff.
    destruct (decide (d_ID d ∈ Parents e)) as [Hp|]; [right|left; by apply bool_decide_eq_false].
    apply bool_decide_eq_false. intros Ha. by pose proof (H [] d plan eq_refl e He Hp Ha) as ?%not_elem_of_nil. }
  rewrite IH; [f_equal; set_solver|]. intros l1 x l2 -> e He Hp Ha.
  assert (d_ID e ∈ ids (d :: l1)) as Hin by (eapply (H (d :: l1)); set_solver).
  apply elem_of_cons in Hin as [E|?]; [|done]. set_solver.
Qed.

(** ** [Up] *)

(** [x] is a target or an ancestor of one. *)
Definition needed ds (targets : list Z) (x : Z) : Prop :=
  exists t, t ∈ targets /\ rtc (fun a b => child (definitions ds) b a) t x.

Lemma reached_parents ds targets x :
  valid_definitions ds -> reached ds Parents targets x <-> needed ds targets x.
Proof.
  intros Hv. unfold reached, needed.
  assert (forall a b, next_edge ds Parents a b <-> child (definitions ds) b a) as Hs.
  { intros a b. unfold next_edge, child. setoid_rewrite (GetByID_spec ds); [|done]. naive_solver. }
  split; intros (t & Ht & Hr); exists t; (split; [done|]);
    (eapply rtc_subrel; [|exact Hr]); intros a b; by rewrite Hs.
Qed.

Lemma needed_known ds targets x :
  topological (definitions ds) -> (forall t, t ∈ targets -> t ∈ ids (definitions ds)) ->
  needed ds targets x -> x ∈ ids (definitions ds).
Proof.
  intros Ht Hk (t & Hin & Hr). apply Hk in Hin. clear Hk.
  induction Hr as [|a b c (d & Hd & _ & Hp) _ IH]; [done|]. apply IH. by eapply topological_elem.
Qed.

(** C39: [Up] fails exactly when a target is unknown.  Otherwise it returns the
    targets and their ancestors that are not applied yet; they can be applied
    in the order given, every migration after its parents, and after that all
    targets and ancestors are applied and nothing else has changed. *)
Theorem Up_correct ds (applied targets : list Z) :
  valid_definitions ds ->
  exists r, Up ds applied targets = Done r /\
  match r with
  | Err _ => exists t, t ∈ targets /\ t ∉ ids (definitions ds)
  | Ok plan =>
      (forall t, t ∈ targets -> t ∈ ids (definitions ds)) /\
      (forall d, d ∈ plan <-> d ∈ definitions ds /\ needed ds targets (d_ID d) /\ d_ID d ∉ applied) /\
      exists final, apply_all (list_to_set applied) plan = Some final /\
        forall x, x ∈ final <-> x ∈ applied \/ needed ds targets x
  end.
Proof.
  intros Hv. pose proof Hv as [Hn Ht Hm]. unfold Up.
  destruct (traverse_spec ds Parents) with (targets := targets) as ([out|e] & Hr & H).
  { intros id d n [Hd _]%GetByID_spec Hin; [|done].
    pose proof (topological_elem _ _ _ Ht Hd Hin) as Hk.
    destruct (GetByID ds n) eqn:E; [by eexists|]. by apply GetByID_known in E. }
  2: { rewrite Hr. eexists. split; [done|]. destruct H as (t & Ht' & Hno). exists t.
       split; [done|]. by apply GetByID_known. }
  rewrite Hr. simpl. eexists. split; [done|]. destruct H as (Hknown & visited & Hvis & ->).
  assert (forall d, d ∈ List.filter (fun d => negb (bool_decide (d_ID d ∈ applied)))
      (List.filter (fun d => bool_decide (d_ID d ∈ visited)) (definitions ds)) <->
    d ∈ definitions ds /\ needed ds targets (d_ID d) /\ d_ID d ∉ applied) as Hplan.
  { intros d. rewrite list_elem_of_In, !filter_In, <- list_elem_of_In, negb_true_iff,
      bool_decide_eq_true, bool_decide_eq_false, Hvis, reached_parents by done. tauto. }
  assert (forall t, t ∈ targets -> t ∈ ids (definitions ds)) as Hk.
  { intros t Hin. destruct (Hknown t Hin) as [d [Hd <-]%GetByID_spec]; [|done]. by apply list_elem_of_fmap_2. }
  split_and!; [done|exact Hplan|].
  eexists. split.
  - apply apply_all_spec. intros l1 d l2 E p Hp.
    assert (d ∈ l1 ++ d :: l2) as Hd by (apply elem_of_app; right; by left). rewrite <- E in Hd.
    apply Hplan in Hd as (Hdin & (t & Ht' & Hreach) & _).
    destruct (decide (p ∈ applied)) as [|Hna]; [left; by apply elem_of_list_to_set|right].
    rewrite filter_filter_andb in E. eapply filter_topological; [exact Ht|done|exact E|done|].
    rewrite <- filter_filter_andb. pose proof (topological_elem _ _ _ Ht Hdin Hp) as Hpk.
    apply list_elem_of_fmap in Hpk as (x & -> & Hx). apply list_elem_of_fmap_2, Hplan.
    split_and!; [done| |done]. exists t. split; [done|]. eapply rtc_r; [exact Hreach|].
    by exists d.
  - intros x. rewrite elem_of_union, !elem_of_list_to_set. split.
    + intros [(d & -> & (_ & ? & _)%Hplan)%list_elem_of_fmap|?]; auto.
    + intros [?|Hx]; [by right|]. destruct (decide (x ∈ applied)) as [|Hna]; [by right|left].
      pose proof (needed_known ds targets x Ht Hk Hx) as Hxk.
      apply list_elem_of_fmap in Hxk as (d & -> & Hd). by apply list_elem_of_fmap_2, Hplan.
Qed.

(** ** [Down] *)

Lemma ids_filter_NoDup (f : def -> bool) l : NoDup (ids l) -> NoDup (ids (List.filter f l)).
Proof.
  unfold ids. induction l as [|d l IH]; simpl; [done|]. rewrite NoDup_cons. intros [Hd Hl].
  destruct (f d); simpl; [|by apply IH]. apply NoDup_cons. split; [|by apply IH].
  intros (e & Ee & He)%list_elem_of_fmap. apply Hd. rewrite Ee. apply list_elem_of_fmap_2.
  by apply list_elem_of_In, filter_In in He as [?%list_elem_of_In _].
Qed.

(** Read backwards, a filtered topological list has children before parents. *)
Lemma rev_filter_order (f : def -> bool) l l1 d l2 e :
  topological l -> NoDup (ids l) -> rev (List.filter f l) = l1 ++ d :: l2 ->
  e ∈ List.filter f l -> d_ID d ∈ Parents e -> d_ID e ∈ ids l1.
Proof.
  intros Ht Hn E He Hp. apply (f_equal (@rev _)) in E.
  rewrite rev_involutive, rev_app_distr in E. simpl in E. rewrite <- app_assoc in E. simpl in E.
  pose proof (ids_filter_NoDup f l Hn) as Hnf.
  assert (d ∈ List.filter f l) as Hd by (rewrite E; apply elem_of_app; right; by left).
  pose proof He as He'. rewrite E in He. apply elem_of_app in He as [He|[->|He]%elem_of_cons].
  - exfalso. apply list_elem_of_split in He as (a & b & Eab). rewrite Eab, <- app_assoc in E.
    assert (d_ID d ∈ ids a) as Ha.
    { eapply filter_topological; [exact Ht|done|exact E|done|by apply list_elem_of_fmap_2]. }
    rewrite E in Hnf. unfold ids in Hnf, Ha. rewrite map_app in Hnf.
    apply NoDup_app in Hnf as (_ & Hdis & _). apply (Hdis _ Ha). simpl. rewrite map_app. set_solver.
  - exfalso. apply (topological_acyclic _ (d_ID d) Ht Hn). apply tc_once. exists d. split_and!; [|done|done].
    by apply list_elem_of_In, filter_In in Hd as [?%list_elem_of_In _].
  - rewrite <- Permutation_rev in He. by apply list_elem_of_fmap_2.
Qed.

(** The last edge of a path. *)
Lemma tc_last {A} (R : relation A) x y : tc R x y -> exists z, R z y.
Proof. induction 1; eauto. Qed.

Lemma step_children ds a b :
  valid_definitions ds ->
  next_edge ds (fun d => default [] (children (definitions ds) !! d_ID d)) a b <-> child (definitions ds) a b.
Proof.
  intros Hv. pose proof Hv as [Hn Ht Hm]. unfold next_edge. split.
  - intros (d & [_ <-]%GetByID_spec & Hb); [|done]. by apply children_spec.
  - intros Hc. pose proof Hc as (e & He & <- & Ha).
    pose proof (topological_elem _ _ _ Ht He Ha) as (d & -> & Hd)%list_elem_of_fmap.
    exists d. split; [by apply GetByID_spec|]. by apply children_spec.
Qed.

(** [x] is a strict descendant of a target. *)
Definition below ds (targets : list Z) (x : Z) : Prop :=
  exists t, t ∈ targets /\ tc (child (definitions ds)) t x.

Lemma reached_children ds targets x :
  valid_definitions ds -> (forall t, t ∈ targets -> ~ below ds targets t) ->
  (reached ds (fun d => default [] (children (definitions ds) !! d_ID d)) targets x /\ x ∉ targets)
  <-> below ds targets x.
Proof.
  intros Hv Hanti. unfold reached. split.
  - intros [(t & Ht & Hr) Hno]. exists t. split; [done|].
    assert (rtc (child (definitions ds)) t x) as Hc.
    { eapply rtc_subrel; [|exact Hr]. intros a b. by rewrite step_children. }
    apply rtc_tc in Hc as [->|?]; done.
  - intros (t & Ht & Hc). split; [|intros Hx; apply (Hanti x Hx); by exists t].
    exists t. split; [done|]. eapply rtc_subrel; [|apply tc_rtc; exact Hc].
    intros a b. by rewrite step_children.
Qed.

(** [Down] fails exactly when a target is unknown.  Otherwise, when no target
    is a descendant of another, it returns the applied strict descendants of the
    targets; they can be undone in the order given, every migration before its
    parents, and after that exactly these are gone, so that the targets have no
    applied children. *)
Theorem Down_correct ds (applied targets : list Z) :
  valid_definitions ds -> (forall t, t ∈ targets -> ~ below ds targets t) ->
  exists r, Down ds applied targets = Done r /\
  match r with
  | Err _ => exists t, t ∈ targets /\ t ∉ ids (definitions ds)
  | Ok plan =>
      (forall t, t ∈ targets -> t ∈ ids (definitions ds)) /\
      (forall d, d ∈ plan <-> d ∈ definitions ds /\ below ds targets (d_ID d) /\ d_ID d ∈ applied) /\
      exists final, unapply_all ds (list_to_set applied) plan = Some final /\
        (forall x, x ∈ final <-> x ∈ applied /\ ~ below ds targets x) /\
        (forall t x, t ∈ targets -> child (definitions ds) t x -> x ∉ final)
  end.
Proof.
  intros Hv Hanti. pose proof Hv as [Hn Ht Hm]. unfold Down.
  set (next := fun d => default [] (children (definitions ds) !! d_ID d)).
  destruct (traverse_spec ds next) with (targets := targets) as ([out|e] & Hr & H).
  { intros id d n Hd Hin. assert (child (definitions ds) id n) as (e & He & <- & _).
    { apply step_children; [done|]. by exists d. }
    exists e. by apply GetByID_spec. }
  2: { rewrite Hr. eexists. split; [done|]. destruct H as (t & Ht' & Hno). exists t.
       split; [done|]. by apply GetByID_known. }
  rewrite Hr. simpl. eexists. split; [done|]. destruct H as (Hknown & visited & Hvis & ->).
  set (keep := fun d => negb (bool_decide (d_ID d ∈ targets)) && bool_decide (d_ID d ∈ applied)).
  assert (forall d, d ∈ List.filter keep (List.filter (fun d => bool_decide (d_ID d ∈ visited))
      (definitions ds)) <-> d ∈ definitions ds /\ below ds targets (d_ID d) /\ d_ID d ∈ applied) as Hplan.
  { intros d. rewrite <- reached_children by done. unfold keep.
    rewrite list_elem_of_In, !filter_In, <- list_elem_of_In, andb_true_iff, negb_true_iff,
      !bool_decide_eq_true, bool_decide_eq_false, Hvis. fold next. tauto. }
  assert (forall x, x ∈ applied -> below ds targets x -> exists d, x = d_ID d /\ d ∈ List.filter keep
    (List.filter (fun d => bool_decide (d_ID d ∈ visited)) (definitions ds))) as Hback.
  { intros x Ha Hb. pose proof Hb as (t & _ & [z (d & Hd & <- & _)]%tc_last). exists d.
    split; [done|]. by apply Hplan. }
  split_and!.
  - intros t Hin. destruct (Hknown t Hin) as [d [Hd <-]%GetByID_spec]; [|done]. by apply list_elem_of_fmap_2.
  - intros d. rewrite <- Permutation_rev. apply Hplan.
  - eexists. split; [|split].
    + apply unapply_all_spec. intros l1 d l2 E e He Hp Ha. apply elem_of_list_to_set in Ha.
      assert (d ∈ l1 ++ d :: l2) as Hd by (apply elem_of_app; right; by left).
      rewrite <- E, <- Permutation_rev in Hd. apply Hplan in Hd as (Hd & (t & Ht' & Hc) & Hda).
      destruct (Hback (d_ID e) Ha) as (e' & Hee & He').
      { exists t. split; [done|]. eapply tc_r; [exact Hc|]. by exists e. }
      assert (e = e') as <- by (eapply ids_inj; [exact Hn|done|by apply Hplan in He' as [? _]|done]).
      rewrite filter_filter_andb in E, He'. by eapply rev_filter_order.
    + intros x. rewrite elem_of_difference, !elem_of_list_to_set. unfold ids. rewrite <- Permutation_rev.
      split; intros [Ha Hno]; (split; [done|]).
      * intros Hb. destruct (Hback x Ha Hb) as (d & -> & Hd). by apply Hno, list_elem_of_fmap_2.
      * intros (d & -> & (_ & Hb & _)%Hplan)%list_elem_of_fmap. done.
    + intros t x Hin Hc. rewrite elem_of_difference, !elem_of_list_to_set. unfold ids.
      rewrite <- Permutation_rev. intros [Ha Hno]. destruct (Hback x Ha) as (d & -> & Hd).
      { exists t. split; [done|]. by apply tc_once. }
      by apply Hno, list_elem_of_fmap_2.
Qed.

(** [NewDefinitions] returns valid definitions. *)
Lemma NewDefinitions_valid (l : list def) ds :
  NoDup (ids l) -> NewDefinitions l = Done (Ok ds) -> valid_definitions ds.
Proof.
  intros Hn. unfold NewDefinitions.
  destruct (reorderDefinitions_spec l Hn) as ([ds'|e] & -> & H); simpl; intros [= <-].
  destruct H as (Hp & Ht & _). split; simpl; [unfold ids; by rewrite Hp|done|done].
Qed.
End Plans.

Section Witness.
Definition w_graph : Definitions gostring :=
  newDefinitions [mig 1 []; mig 2 [1]; mig 3 [1]; mig 4 [2; 3]]%Z.

Lemma w_graph_valid : valid_definitions w_graph.
Proof.
  apply (NewDefinitions_valid w_diamond); [repeat constructor; vm_compute; set_solver|].
  vm_compute. reflexivity.
Qed.

Lemma Up_correct_witness :
  valid_definitions w_graph /\ Up w_graph [1%Z] [2%Z] = Done (Ok [mig 2 [1%Z]]) /\
  exists r, Up w_graph [1%Z] [2%Z] = Done r.
Proof.
  split_and!; [exact w_graph_valid|vm_compute; reflexivity|].
  destruct (Up_correct w_graph [1%Z] [2%Z] w_graph_valid) as (r & Hr & _). by exists r.
Defined.

Lemma w_no_target_below : forall t, t ∈ [2%Z] -> ~ below w_graph [2%Z] t.
Proof.
  intros t ->%list_elem_of_singleton (t' & ->%list_elem_of_singleton & Hc).
  destruct w_graph_valid as [Hn Ht _]. by apply (topological_acyclic _ 2%Z Ht Hn).
Qed.

Lemma Down_correct_witness :
  valid_definitions w_graph /\ Down w_graph [1; 2; 4]%Z [2%Z] = Done (Ok [mig 4 [2; 3]%Z]) /\
  exists r, Down w_graph [1; 2; 4]%Z [2%Z] = Done r.
Proof.
  split_and!; [exact w_graph_valid|vm_compute; reflexivity|].
  destruct (Down_correct w_graph [1; 2; 4]%Z [2%Z] w_graph_valid w_no_target_below) as (r & Hr & _).
  by exists r.
Defined.
End Witness.
