(* ===== verification/Dominators.v ===== *)
(** Dominators of the migration graph, which squashing uses: what [dominators]
    computes for a migration and what [LeafDominator] returns. *)
From stdpp Require Import sorting relations.
From S2P Require Import Prelude GoStr GoMap Syntax Migrations MigrationOrder MigrationPlans.

Section Dominators.
Context {Query : Type}.
Notation def := (MigrationDefinition Query).
Implicit Types (d e : def) (ds : Definitions Query).

(** ** Dominators *)

(** [path ds n l]: [l] lists the nodes of a path from a root to [n], backwards. *)
Inductive path ds : Z -> list Z -> Prop :=
| path_root d : d ∈ definitions ds -> Parents d = [] -> path ds (d_ID d) [d_ID d]
| path_step p c l : path ds p l -> child (definitions ds) p c -> path ds c (c :: l).

(** Every path from a root to [n] goes through [x]. *)
Definition dominates ds (x n : Z) : Prop := forall l, path ds n l -> x ∈ l.

Lemma path_last ds n l : path ds n l -> n ∈ l.
Proof. destruct 1; by left. Qed.

Lemma intersect_spec a bs x : x ∈ intersect a bs <-> x ∈ a /\ forall b, b ∈ bs -> x ∈ b.
Proof.
  revert a. induction bs as [|b bs IH]; intros a; simpl.
  { split; [intros; split; [done|by intros b ?%not_elem_of_nil]|by intros [? _]]. }
  change (intersect (List.filter (fun v => bool_decide (v ∈ b)) a) bs) with
    (fold_left (fun intersection b => List.filter (fun v => bool_decide (v ∈ b)) intersection) bs
       (List.filter (fun v => bool_decide (v ∈ b)) a)) in IH.
  unfold intersect in IH |- *. simpl.
  rewrite (IH (List.filter (fun v => bool_decide (v ∈ b)) a)).
  rewrite list_elem_of_In, filter_In, <- list_elem_of_In, bool_decide_eq_true.
  setoid_rewrite elem_of_cons. naive_solver.
Qed.

Lemma path_known ds n l :
  topological (definitions ds) -> path ds n l -> forall x, x ∈ l -> x ∈ ids (definitions ds).
Proof.
  intros Ht. induction 1 as [d Hd|p c l _ IH (d & Hd & <- & _)]; intros x.
  - intros ->%list_elem_of_singleton. by apply list_elem_of_fmap_2.
  - intros [->|?]%elem_of_cons; [by apply list_elem_of_fmap_2|auto].
Qed.

(** Every migration is at the end of a path. *)
Lemma path_exists ds d :
  topological (definitions ds) -> d ∈ definitions ds -> exists l, path ds (d_ID d) l.
Proof.
  intros Ht.
  assert (forall l1 l2, definitions ds = l1 ++ l2 -> forall d, d ∈ l1 -> exists l, path ds (d_ID d) l) as H.
  { intros l1. induction l1 as [|e l1 IH] using rev_ind; intros l2 E x Hx; [by apply not_elem_of_nil in Hx|].
    rewrite <- app_assoc in E. specialize (IH _ E).
    apply elem_of_app in Hx as [Hx| ->%list_elem_of_singleton]; [by apply IH|].
    assert (e ∈ definitions ds) as He by (rewrite E; apply elem_of_app; right; by left).
    destruct (Parents e) as [|p ps] eqn:Ep; [eexists; by apply path_root|].
    assert (p ∈ Parents e) as Hp by (rewrite Ep; by left).
    pose proof (Ht l1 e l2 E p Hp) as (q & -> & Hq)%list_elem_of_fmap.
    destruct (IH q Hq) as [l Hl]. exists (d_ID e :: l). eapply path_step; [exact Hl|]. by exists e. }
  intros Hd. apply (H (definitions ds) []); [by rewrite app_nil_r|done].
Qed.

Lemma dominator_known ds x n :
  topological (definitions ds) -> n ∈ ids (definitions ds) -> dominates ds x n -> x ∈ ids (definitions ds).
Proof.
  intros Ht (d & -> & Hd)%list_elem_of_fmap Hx.
  destruct (path_exists ds d Ht Hd) as [l Hl]. eapply path_known; [done|exact Hl|]. by apply Hx.
Qed.

Lemma filter_sublist_of {A} (f : A -> bool) (l : list A) : List.filter f l `sublist_of` l.
Proof. induction l as [|x l IH]; simpl; [done|]. destruct (f x); by constructor. Qed.

Lemma intersect_sublist a bs : intersect a bs `sublist_of` a.
Proof.
  unfold intersect. revert a. induction bs as [|b bs IH]; intros a; simpl; [done|].
  etransitivity; [apply IH|]. apply filter_sublist_of.
Qed.

(** The dominators of a node: the node, then dominators that dominate all the
    ones before them. *)
Definition dominator_list ds (n : Z) (D : list Z) : Prop :=
  (forall x, x ∈ D <-> dominates ds x n) /\ StronglySorted (fun x y => dominates ds y x) D.

Lemma dominator_list_root ds d :
  valid_definitions ds -> d ∈ definitions ds -> Parents d = [] -> dominator_list ds (d_ID d) [d_ID d].
Proof.
  intros Hv Hd Hp. split; [|by repeat constructor]. intros x. rewrite list_elem_of_singleton. split.
  - intros -> l Hl. by apply path_last in Hl.
  - intros Hx. specialize (Hx _ (path_root ds d Hd Hp)). by apply list_elem_of_singleton in Hx.
Qed.

Lemma dominator_list_step ds d (get : Z -> list Z) p ps :
  valid_definitions ds -> d ∈ definitions ds -> Parents d = p :: ps ->
  (forall q, q ∈ Parents d -> dominator_list ds q (get q)) ->
  dominator_list ds (d_ID d) (d_ID d :: intersect (get p) (map get ps)).
Proof.
  intros Hv Hd Hp Hget. pose proof (valid_ids _ Hv) as Hn.
  assert (forall c l, path ds c l -> c = d_ID d -> exists q l', l = c :: l' /\ q ∈ Parents d /\ path ds q l')
    as Hpath.
  { intros c l [e He Hpe|q c' l' Hl (e & He & Hc & Hq)] E.
    - assert (e = d) as -> by (by eapply ids_inj). congruence.
    - assert (e = d) as -> by (eapply ids_inj; [exact Hn|done|done|congruence]). eauto. }
  assert (forall x, x ∈ d_ID d :: intersect (get p) (map get ps) <-> dominates ds x (d_ID d)) as Hset.
  { intros x. rewrite elem_of_cons, intersect_spec. split.
    - intros [->|[H1 H2]] l Hl; [by apply path_last in Hl|].
      destruct (Hpath _ _ Hl eq_refl) as (q & l' & -> & Hq & Hl'). right.
      assert (x ∈ get q) as Hx.
      { pose proof Hq as Hq'. rewrite Hp in Hq'. apply elem_of_cons in Hq' as [->|Hq']; [done|].
        apply H2. by apply list_elem_of_fmap_2. }
      by apply (Hget q Hq) in Hx; apply Hx.
    - intros Hx. destruct (decide (x = d_ID d)) as [->|Hne]; [by left|right].
      assert (forall q, q ∈ Parents d -> x ∈ get q) as Hall.
      { intros q Hq. apply (Hget q Hq). intros l Hl.
        assert (path ds (d_ID d) (d_ID d :: l)) as Hl' by (eapply path_step; [exact Hl|by exists d]).
        by apply Hx, elem_of_cons in Hl' as [?|?]. }
      rewrite Hp in Hall. split; [apply Hall; by left|].
      intros b (q & -> & Hq)%list_elem_of_fmap. apply Hall. by right. }
  split; [exact Hset|]. constructor.
  - eapply StronglySorted_sublist; [apply intersect_sublist|].
    apply (Hget p). rewrite Hp. by left.
  - apply Forall_forall. intros x Hx. apply Hset. by right.
Qed.

Lemma dominators_spec ds :
  valid_definitions ds ->
  forall d, d ∈ definitions ds -> exists D, dominators ds !! d_ID d = Some D /\ dominator_list ds (d_ID d) D.
Proof.
  intros Hv. pose proof Hv as [Hn Ht _].
  assert (forall l1 l2, definitions ds = l1 ++ l2 ->
    forall d, d ∈ l1 -> exists D, fold_left dominators_step l1 ∅ !! d_ID d = Some D /\
      dominator_list ds (d_ID d) D) as H.
  { intros l1. induction l1 as [|e l1 IH] using rev_ind; intros l2 E d Hd; [by apply not_elem_of_nil in Hd|].
    rewrite <- app_assoc in E. simpl in E. specialize (IH (e :: l2) E).
    rewrite fold_left_app. cbn [fold_left]. unfold dominators_step at 1. cbv zeta.
    set (m := fold_left dominators_step l1 ∅) in *.
    assert (e ∈ definitions ds) as He by (rewrite E; apply elem_of_app; right; by left).
    destruct (decide (d_ID d = d_ID e)) as [Ede|Hne].
    - assert (d = e) as -> by (eapply ids_inj; [exact Hn|rewrite E; set_solver|done|done]).
      rewrite lookup_insert_eq. eexists. split; [done|]. destruct (Parents e) as [|p ps] eqn:Ep.
      + by apply dominator_list_root.
      + apply (dominator_list_step ds e (fun id => default [] (m !! id))); [done|done|exact Ep|]. intros q Hq.
        specialize (Ht l1 e l2 E q Hq). apply list_elem_of_fmap in Ht as (x & -> & Hx).
        destruct (IH x Hx) as (D & -> & HD). done.
    - rewrite lookup_insert_ne by done. apply IH.
      apply elem_of_app in Hd as [?|Hd%list_elem_of_singleton]; [done|congruence]. }
  intros d Hd. unfold dominators. apply (H (definitions ds) []); [by rewrite app_nil_r|done].
Qed.

(** for known extra identifiers, [LeafDominator] returns the nearest common
    dominator of the leaves and the extra migrations: every path from a root to
    one of them goes through it, and every other common dominator dominates it.
    It returns none only when there is no common dominator, or nothing to
    dominate. *)
Theorem LeafDominator_correct ds (extraIDs : list Z) :
  valid_definitions ds -> (forall x, x ∈ extraIDs -> x ∈ ids (definitions ds)) ->
  let ns := ids (Leaves ds) ++ extraIDs in
  match LeafDominator ds extraIDs with
  | Some d => d ∈ definitions ds /\ (forall n, n ∈ ns -> dominates ds (d_ID d) n) /\
      forall x, (forall n, n ∈ ns -> dominates ds x n) -> dominates ds x (d_ID d)
  | None => ns = [] \/ forall x, ~ forall n, n ∈ ns -> dominates ds x n
  end.
Proof.
  intros Hv Hextra ns. set (get := fun id => default [] (dominators ds !! id)).
  assert (LeafDominator ds extraIDs =
    match map get ns with
    | [] => None
    | a :: bs => match intersect a bs with [] => None | same :: _ => GetByID ds same end
    end) as ->.
  { unfold ns, ids. by rewrite map_app, map_map. }
  assert (forall n, n ∈ ns -> n ∈ ids (definitions ds)) as Hns.
  { intros n [(d & -> & Hd)%list_elem_of_fmap|]%elem_of_app; [|auto].
    apply list_elem_of_fmap_2. by apply list_elem_of_In, filter_In in Hd as [?%list_elem_of_In _]. }
  assert (forall n, n ∈ ns -> dominator_list ds n (get n)) as Hget.
  { intros n (d & -> & Hd)%Hns%list_elem_of_fmap.
    destruct (dominators_spec ds Hv d Hd) as (D & E & HD). unfold get. by rewrite E. }
  clearbody ns. destruct ns as [|n ns]; [by left|]. simpl.
  assert (forall x, x ∈ intersect (get n) (map get ns) <-> forall m, m ∈ n :: ns -> dominates ds x m) as Hall.
  { intros x. rewrite intersect_spec. split.
    - intros [H1 H2] m Hm. apply (Hget m Hm). apply elem_of_cons in Hm as [->|Hm]; [done|].
      apply H2. by apply list_elem_of_fmap_2.
    - intros H. split; [apply (Hget n); [by left|]; apply H; by left|].
      intros b (m & -> & Hm)%list_elem_of_fmap. apply (Hget m); [by right|]. apply H. by right. }
  assert (StronglySorted (fun x y => dominates ds y x) (intersect (get n) (map get ns))) as Hsort.
  { eapply StronglySorted_sublist; [apply intersect_sublist|]. apply (Hget n). by left. }
  destruct (intersect (get n) (map get ns)) as [|same rest].
  { right. intros x Hx%Hall. by apply not_elem_of_nil in Hx. }
  assert (forall m, m ∈ n :: ns -> dominates ds same m) as Hsame by (apply Hall; by left).
  destruct (GetByID ds same) as [d|] eqn:E.
  - apply GetByID_spec in E as [Hd <-]; [|done]. split_and!; [done|done|].
    intros x Hx%Hall. apply elem_of_cons in Hx as [->|Hx]; [intros l Hl; by apply path_last in Hl|].
    inversion_clear Hsort as [|? ? _ Hf]. rewrite Forall_forall in Hf. by apply Hf.
  - exfalso. apply GetByID_known in E; [|done]. apply E. clear E Hall Hsort.
    apply (dominator_known ds same n); [apply Hv|apply Hns; by left|apply Hsame; by left].
Qed.
End Dominators.

Lemma LeafDominator_correct_witness :
  LeafDominator w_graph [2; 3]%Z = Some (mig 1 []) /\
  match LeafDominator w_graph [2; 3]%Z with
  | Some d => d ∈ definitions w_graph
  | None => False
  end.
Proof.
  split; [vm_compute; reflexivity|].
  pose proof (LeafDominator_correct w_graph [2; 3]%Z w_graph_valid) as H.
  assert (LeafDominator w_graph [2; 3]%Z = Some (mig 1 [])) as E by (vm_compute; reflexivity).
  rewrite E in *. apply H. vm_compute. set_solver.
Defined.
