(* ===== verification/CommitGraph.v ===== *)
(** The commit graph of code intelligence: which uploads are visible at which
    commit.  Sources: [internal/gitserver/gitdomain/commit_graph.go] and
    [commit_graph.go], [commit_graph_view.go] of
    [enterprise/internal/codeintel/uploads/internal/commitgraph].

    Go leaves the order of a [range] over a map open; a function that ranges
    over a map takes a number [n] that picks the orders of its ranges. *)
From S2P Require Import Prelude GoStr GoLib GoMap.

(** ** Git's commit graph *)
Record CommitGraph := MkCommitGraph { cg_graph : gmap gostring (list gostring); cg_order : list gostring }.

(** The variables of the loop of [ParseCommitGraph]. *)
Record parse_state := MkParse {
  ps_graph : gmap gostring (list gostring); ps_order : list gostring; ps_prefix : list gostring
}.

(** A parent that has no entry yet. *)
Definition add_parent (st : parse_state) (part : gostring) : parse_state :=
  match ps_graph st !! part with
  | Some _ => st
  | None => MkParse (<[part := []]> (ps_graph st)) (ps_order st) (ps_prefix st ++ [part])
  end.

Definition parse_line (st : parse_state) (line : gostring) : parse_state :=
  let line := TrimSpace line in
  if gs_eqb line [] then st
  else
    match Split line 32 with
    | [] => st
    | commit :: parents =>
        let st := MkParse (<[commit := parents]> (ps_graph st)) (ps_order st ++ [commit]) (ps_prefix st) in
        fold_left add_parent parents st
    end.

(** The source reverses its argument in place and reads it from the start. *)
Definition ParseCommitGraph (lines : list gostring) : CommitGraph :=
  let st := fold_left parse_line (rev lines) (MkParse ∅ [] []) in
  MkCommitGraph (ps_graph st) (ps_prefix st ++ ps_order st).

(** ** Uploads *)
Record UploadMeta := MkUpload { UploadID : Z; Distance : Z }.

Record CommitGraphView := MkView {
  Meta : gmap gostring (list UploadMeta);
  Tokens : gmap Z gostring
}.

Definition NewCommitGraphView : CommitGraphView := MkView ∅ ∅.

Definition View_Add (v : CommitGraphView) (meta : UploadMeta) (commit token : gostring) : CommitGraphView :=
  MkView (<[commit := default [] (Meta v !! commit) ++ [meta]]> (Meta v))
         (<[UploadID meta := token]> (Tokens v)).

(** [upload.Distance += distance] on a copy, in 32 bits. *)
Definition add_distance (distance : Z) (u : UploadMeta) : UploadMeta :=
  MkUpload (UploadID u) (wrap32 (Distance u + distance)).

Definition replaces (upload1 upload2 : UploadMeta) : bool :=
  (Distance upload1 <? Distance upload2)%Z ||
  ((Distance upload1 =? Distance upload2)%Z && (UploadID upload1 <? UploadID upload2)%Z).

Notation uploads_map := (gmap gostring (gmap gostring UploadMeta)).

Record Graph := MkGraph {
  commitGraphView : CommitGraphView;
  graph : gmap gostring (list gostring);
  commits : list gostring;
  ancestorUploads : uploads_map
}.

Record VisibilityRelationship := MkVisibility { v_Commit : gostring; v_Uploads : list UploadMeta }.
Record LinkRelationship := MkLink { l_Commit : gostring; AncestorCommit : gostring; l_Distance : Z }.
Record Envelope := MkEnvelope {
  e_Uploads : option VisibilityRelationship; e_Links : option LinkRelationship
}.

(** [graph[commit]], which is nil for a commit without an entry. *)
Definition parents_of (graph : gmap gostring (list gostring)) (commit : gostring) : list gostring :=
  default [] (graph !! commit).

Section CommitGraph.
Context {G : GoRuntime}.

Definition reverse_edges (reverse : gmap gostring (list gostring)) (entry : gostring * list gostring)
    : gmap gostring (list gostring) :=
  fold_left (fun reverse parent => <[parent := parents_of reverse parent ++ [entry.1]]> reverse)
    entry.2 reverse.

Definition reverseGraph (n : nat) (graph : gmap gostring (list gostring)) : gmap gostring (list gostring) :=
  let reverse := fold_left (fun reverse entry => <[entry.1 := []]> reverse) (map_range n graph) ∅ in
  fold_left reverse_edges (map_range (S n) graph) reverse.

(** ** Visible uploads *)

(** The token of an upload, the empty string for an unknown one. *)
Definition token (view : CommitGraphView) (u : UploadMeta) : gostring :=
  default [] (Tokens view !! UploadID u).

(** One upload of an ancestor, at a distance. *)
Definition merge_upload (view : CommitGraphView) (distance : Z)
    (uploadsByToken : gmap gostring UploadMeta) (upload : UploadMeta) : gmap gostring UploadMeta :=
  let token := token view upload in
  let upload := add_distance distance upload in
  match uploadsByToken !! token with
  | Some currentUpload =>
      if replaces upload currentUpload then <[token := upload]> uploadsByToken else uploadsByToken
  | None => <[token := upload]> uploadsByToken
  end.

(** The uploads that a commit defines. *)
Definition defined_here (view : CommitGraphView) (commit : gostring) : gmap gostring UploadMeta :=
  fold_left (fun uploadsByToken upload => <[token view upload := upload]> uploadsByToken)
    (default [] (Meta view !! commit)) ∅.

(** The entries of [uploads[ancestor]], none when it is nil. *)
Definition ancestor_uploads (n : nat) (uploads : uploads_map) (ancestor : gostring) : list UploadMeta :=
  (map_range n (default ∅ (uploads !! ancestor))).*2.

Definition populateUploadsForCommit (n : nat) (uploads : uploads_map) (ancestors : list gostring)
    (distance : Z) (commitGraphView : CommitGraphView) (commit : gostring) : gmap gostring UploadMeta :=
  fold_left
    (fun uploadsByToken ancestor =>
       fold_left (merge_upload commitGraphView distance) (ancestor_uploads n uploads ancestor) uploadsByToken)
    ancestors (defined_here commitGraphView commit).

(** The loop that looks for the nearest ancestors with data. *)
Fixpoint nearest (fuel : nat) (graph : gmap gostring (list gostring)) (uploads : uploads_map)
    (ancestors : list gostring) (distance : Z) : run (list gostring * Z) :=
  match ancestors with
  | [a] =>
      match uploads !! a with
      | Some _ => Done (ancestors, distance)
      | None =>
          match fuel with
          | O => OutOfFuel
          | S fuel => nearest fuel graph uploads (parents_of graph a) (wrap32 (distance + 1))
          end
      end
  | _ => Done (ancestors, distance)
  end.

(** A commit whose visible uploads are recomputed on demand. *)
Definition skipped (graph reverseGraph : gmap gostring (list gostring)) (view : CommitGraphView)
    (commit : gostring) : bool :=
  let ok := bool_decide (is_Some (Meta view !! commit)) in
  negb ok && Nat.leb (length (parents_of graph commit)) 1 &&
  negb (existsb (fun child => Nat.ltb 1 (length (parents_of graph child))) (parents_of reverseGraph commit)).

(** The walk follows parents that come earlier in the order, so the length of
    the order is enough fuel. *)
Fixpoint populate_loop (n fuel : nat) (graph reverseGraph : gmap gostring (list gostring))
    (view : CommitGraphView) (order : list gostring) (uploads : uploads_map) : run uploads_map :=
  match order with
  | [] => Done uploads
  | commit :: order =>
      if skipped graph reverseGraph view commit
      then populate_loop n fuel graph reverseGraph view order uploads
      else
        let! r := nearest fuel graph uploads (parents_of graph commit) 1 in
        let '(ancestors, distance) := r in
        populate_loop (S n) fuel graph reverseGraph view order
          (<[commit := populateUploadsForCommit n uploads ancestors distance view commit]> uploads)
  end.

Definition populateUploadsByTraversal (n : nat) (graph : gmap gostring (list gostring))
    (order : list gostring) (commitGraphView : CommitGraphView) : run uploads_map :=
  populate_loop n (length order) graph (reverseGraph n graph) commitGraphView order ∅.

(** The second component is the commit graph that the caller is left with:
    [sort.Strings] sorts the slice that the commit graph holds. *)
Definition NewGraph (n : nat) (commitGraph : CommitGraph) (commitGraphView : CommitGraphView)
    : run (Graph * CommitGraph) :=
  let graph := cg_graph commitGraph in
  let order := cg_order commitGraph in
  let! ancestorUploads := populateUploadsByTraversal n graph order commitGraphView in
  let order := sort_Strings order in
  Done (MkGraph commitGraphView graph order ancestorUploads, MkCommitGraph graph order).

(** ** Queries *)

Fixpoint traverse_commits (fuel : nat) (graph : gmap gostring (list gostring)) (uploads : uploads_map)
    (commit : gostring) (distance : Z) : run (gostring * Z * bool) :=
  match uploads !! commit with
  | Some _ => Done (commit, distance, true)
  | None =>
      match parents_of graph commit with
      | [] => Done ([], 0%Z, false)
      | parent :: _ =>
          match fuel with
          | O => OutOfFuel
          | S fuel => traverse_commits fuel graph uploads parent (wrap32 (distance + 1))
          end
      end
  end.

Definition traverseForCommit (fuel : nat) (graph : gmap gostring (list gostring)) (uploads : uploads_map)
    (commit : gostring) : run (gostring * Z * bool) :=
  traverse_commits fuel graph uploads commit 0.

Definition traverseForUploads (fuel : nat) (graph : gmap gostring (list gostring)) (uploads : uploads_map)
    (commit : gostring) : run (gmap gostring UploadMeta * Z) :=
  let! r := traverseForCommit fuel graph uploads commit in
  let '(commit, distance, _) := r in
  Done (default ∅ (uploads !! commit), distance).

Definition adjustVisibleUploads (n : nat) (ancestorVisibleUploads : gmap gostring UploadMeta)
    (ancestorDistance : Z) : list UploadMeta :=
  map (add_distance ancestorDistance) (map_range n ancestorVisibleUploads).*2.

Definition UploadsVisibleAtCommit (n : nat) (g : Graph) (commit : gostring) : run (list UploadMeta) :=
  let! r := traverseForUploads (length (commits g)) (graph g) (ancestorUploads g) commit in
  let '(ancestorUploads, ancestorDistance) := r in
  Done (adjustVisibleUploads n ancestorUploads ancestorDistance).

(** What the goroutine of [Stream] sends for one commit. *)
Definition stream_commit (n : nat) (g : Graph) (commit : gostring) : run (list Envelope) :=
  let! r := traverseForCommit (length (commits g)) (graph g) (ancestorUploads g) commit in
  let '(ancestorCommit, ancestorDistance, found) := r in
  if found then
    let ancestorVisibleUploads := default ∅ (ancestorUploads g !! ancestorCommit) in
    if (ancestorDistance =? 0)%Z || Nat.eqb (size ancestorVisibleUploads) 1 then
      Done [MkEnvelope (Some (MkVisibility commit
              (adjustVisibleUploads n ancestorVisibleUploads ancestorDistance))) None]
    else if Nat.ltb 1 (size ancestorVisibleUploads) then
      Done [MkEnvelope None (Some (MkLink commit ancestorCommit ancestorDistance))]
    else Done []
  else Done [].

(** The channel as the list of the values that it carries. *)
Fixpoint stream_loop (n : nat) (g : Graph) (commits : list gostring) : run (list Envelope) :=
  match commits with
  | [] => Done []
  | commit :: commits =>
      let! here := stream_commit n g commit in
      let! rest := stream_loop (S n) g commits in
      Done (here ++ rest)
  end.

Definition Stream (n : nat) (g : Graph) : run (list Envelope) := stream_loop n g (commits g).

Definition gather_envelope
    (acc : gmap gostring (list UploadMeta) * gmap gostring LinkRelationship) (v : Envelope)
    : gmap gostring (list UploadMeta) * gmap gostring LinkRelationship :=
  let '(uploads, links) := acc in
  (match e_Uploads v with
   | Some u => <[v_Commit u := v_Uploads u]> uploads
   | None => uploads
   end,
   match e_Links v with
   | Some l => <[l_Commit l := l]> links
   | None => links
   end).

Definition Gather (n : nat) (g : Graph)
    : run (gmap gostring (list UploadMeta) * gmap gostring LinkRelationship) :=
  let! envelopes := Stream n g in
  Done (fold_left gather_envelope envelopes (∅, ∅)).
End CommitGraph.
