(* ===== verification/CommitGraphCorrect.v ===== *)
(** The commit graph of code intelligence, from the output of [git log] to the
    uploads that are visible at a commit and the stream that stores them. *)
From S2P Require Import Prelude GoStr GoLib GoMap CommitGraph.

(** Visibility of uploads on the commit graph: the nearest upload of every kind
    as a specification, what [NewGraph] stores at selected commits, and what
    lookups and the stream make of it. *)

(** ** Nearest uploads of a set *)
Section Nearest.
Context (view : CommitGraphView).
Notation tok := (token view).
Implicit Types (u v : UploadMeta) (P Q : UploadMeta -> Prop).

(** Nearer, or as near and with an identifier that is not larger. *)
Definition nearer u v : Prop :=
  (Distance u < Distance v)%Z \/ (Distance u = Distance v /\ UploadID u <= UploadID v)%Z.

Lemma replaces_false u v : replaces u v = false <-> nearer v u.
Proof.
  unfold replaces, nearer. rewrite orb_false_iff, andb_false_iff, !Z.ltb_ge, Z.eqb_neq. lia.
Qed.

Lemma replaces_true u v : replaces u v = true -> nearer u v.
Proof. unfold replaces, nearer. rewrite orb_true_iff, andb_true_iff, !Z.ltb_lt, Z.eqb_eq. lia. Qed.

Lemma nearer_refl u : nearer u u.
Proof. unfold nearer. lia. Qed.

Lemma nearer_trans u v w : nearer u v -> nearer v w -> nearer u w.
Proof. unfold nearer. lia. Qed.

Lemma nearer_antisym u v : nearer u v -> nearer v u -> u = v.
Proof. destruct u, v. unfold nearer. simpl. intros. f_equal; lia. Qed.

(** [o] is the nearest upload of [P] with token [t]. *)
Definition is_nearest P (t : gostring) (o : option UploadMeta) : Prop :=
  match o with
  | Some u => P u /\ tok u = t /\ forall v, P v -> tok v = t -> nearer u v
  | None => forall v, P v -> tok v <> t
  end.

(** [m] holds the nearest upload of [P] of every token. *)
Definition nearest_of P (m : gmap gostring UploadMeta) : Prop := forall t, is_nearest P t (m !! t).

Lemma nearest_of_ext P Q m : (forall u, P u <-> Q u) -> nearest_of P m -> nearest_of Q m.
Proof.
  intros H Hm t. specialize (Hm t). unfold is_nearest in *. destruct (m !! t); [|firstorder].
  destruct Hm as (? & ? & ?). split_and!; [by apply H|done|]. intros v ?%H. auto.
Qed.

(** Uploads that are farther away than others add nothing. *)
Lemma nearest_of_dominated P Q m :
  (forall u, P u -> Q u) -> (forall v, Q v -> exists u, P u /\ tok u = tok v /\ nearer u v) ->
  nearest_of P m -> nearest_of Q m.
Proof.
  intros H1 H2 Hm t. specialize (Hm t). unfold is_nearest in *. destruct (m !! t) as [u|].
  - destruct Hm as (Hu & Ht & Hn). split_and!; [auto|done|]. intros v Hv Hvt.
    destruct (H2 v Hv) as (w & Hw & Hwt & Hwv). eapply nearer_trans; [|done]. apply Hn; congruence.
  - intros v Hv Hvt. destruct (H2 v Hv) as (w & Hw & Hwt & _). apply (Hm w Hw). congruence.
Qed.

Lemma nearest_of_elem P m u : nearest_of P m -> (exists t, m !! t = Some u) -> P u.
Proof. intros Hm [t Ht]. specialize (Hm t). rewrite Ht in Hm. apply Hm. Qed.

Lemma nearest_of_exists P m v :
  nearest_of P m -> P v -> exists u, m !! tok v = Some u /\ P u /\ tok u = tok v /\ nearer u v.
Proof.
  intros Hm Hv. specialize (Hm (tok v)). unfold is_nearest in Hm. destruct (m !! tok v) as [u|].
  - destruct Hm as (? & ? & ?). exists u. split_and!; auto.
  - exfalso. by eapply Hm.
Qed.

(** ** Distances *)

Definition shift (d : Z) u : UploadMeta := MkUpload (UploadID u) (Distance u + d).
Definition shifted (d : Z) P u : Prop := exists v, P v /\ u = shift d v.

Lemma tok_shift d u : tok (shift d u) = tok u.
Proof. done. Qed.

Lemma nearer_shift d u v : nearer (shift d u) (shift d v) <-> nearer u v.
Proof. unfold nearer. simpl. lia. Qed.

Lemma shift_shift a b u : shift a (shift b u) = shift (b + a) u.
Proof. unfold shift. simpl. f_equal. lia. Qed.

Lemma shift_0 u : shift 0 u = u.
Proof. destruct u. unfold shift. simpl. f_equal. lia. Qed.

Lemma add_distance_shift d u : (0 <= Distance u + d < 2 ^ 32)%Z -> add_distance d u = shift d u.
Proof. intros H. unfold add_distance. by rewrite wrap32_small. Qed.

Lemma nearest_of_shift d P m : nearest_of P m -> nearest_of (shifted d P) (shift d <$> m).
Proof.
  intros Hm t. specialize (Hm t). rewrite lookup_fmap. unfold is_nearest in *.
  destruct (m !! t) as [u|]; simpl.
  - destruct Hm as (Hu & Ht & Hn). split_and!; [by exists u|done|].
    intros v (w & Hw & ->). rewrite tok_shift, nearer_shift. auto.
  - intros v (w & Hw & ->). rewrite tok_shift. auto.
Qed.

(** ** Merging *)

Lemma merge_upload_spec P m d u :
  (0 <= Distance u + d < 2 ^ 32)%Z -> nearest_of P m ->
  nearest_of (fun v => P v \/ v = shift d u) (merge_upload view d m u).
Proof.
  intros Hd Hm t. unfold merge_upload. cbv zeta. rewrite add_distance_shift by done.
  pose proof (Hm t) as Ht. pose proof (Hm (tok u)) as Hu.
  assert (is_nearest (fun v => P v \/ v = shift d u) (tok u) (Some (shift d u)) ->
    is_nearest (fun v => P v \/ v = shift d u) t (<[tok u := shift d u]> m !! t)) as Hins.
  { intros H. destruct (decide (tok u = t)) as [<-|Hne]; [by rewrite lookup_insert_eq|].
    rewrite lookup_insert_ne by done. unfold is_nearest in *. destruct (m !! t).
    - destruct Ht as (? & ? & ?). split_and!; [by left|done|]. intros v [?| ->]; [auto|done].
    - intros v [?| ->]; [auto|done]. }
  destruct (m !! tok u) as [c|] eqn:Ec.
  - destruct Hu as (Hc & Hct & Hcn). destruct (replaces (shift d u) c) eqn:Er.
    + apply Hins. split_and!; [by right|done|]. intros v [Hv| ->] Hvt; [|apply nearer_refl].
      eapply nearer_trans; [by apply replaces_true|auto].
    + apply replaces_false in Er. destruct (decide (tok u = t)) as [<-|Hne].
      * rewrite Ec. split_and!; [by left|done|]. intros v [Hv| ->] Hvt; auto.
      * unfold is_nearest in *. destruct (m !! t).
        -- destruct Ht as (? & ? & ?). split_and!; [by left|done|]. intros v [?| ->]; [auto|done].
        -- intros v [?| ->]; [auto|done].
  - apply Hins. split_and!; [by right|done|]. intros v [Hv| ->] Hvt; [|apply nearer_refl].
    by destruct (Hu v Hv).
Qed.

Lemma merge_uploads_spec P m d (l : list UploadMeta) :
  (forall u, u ∈ l -> (0 <= Distance u + d < 2 ^ 32)%Z) -> nearest_of P m ->
  nearest_of (fun v => P v \/ exists u, u ∈ l /\ v = shift d u) (fold_left (merge_upload view d) l m).
Proof.
  revert P m. induction l as [|u l IH]; intros P m Hd Hm; simpl.
  { eapply nearest_of_ext; [|exact Hm]. intros v. split; [by left|].
    intros [?|(u & ?%not_elem_of_nil & _)]; done. }
  eapply nearest_of_ext; [|apply IH; [|apply merge_upload_spec; [|exact Hm]]].
  - intros v. setoid_rewrite elem_of_cons. naive_solver.
  - intros w Hw. apply Hd. by right.
  - apply Hd. by left.
Qed.

Lemma defined_here_token commit t u : defined_here view commit !! t = Some u -> tok u = t.
Proof.
  unfold defined_here. generalize (default [] (Meta view !! commit)) as l.
  assert (forall l (m : gmap gostring UploadMeta), (forall t u, m !! t = Some u -> tok u = t) ->
    forall t u, fold_left (fun m upload => <[tok upload := upload]> m) l m !! t = Some u -> tok u = t) as H.
  { induction l as [|x l IH]; intros m Hm; simpl; [exact Hm|]. apply IH. intros t' u'.
    rewrite lookup_insert_Some. naive_solver. }
  intros l. by apply H; intros ? ?; rewrite lookup_empty.
Qed.
End Nearest.

(** ** Visibility *)

(** [k] steps from a commit to a parent lead from [c] to [a]. *)
Inductive commit_path (g : gmap gostring (list gostring)) : gostring -> nat -> gostring -> Prop :=
| commit_path_refl c : commit_path g c 0 c
| commit_path_step c p k a : p ∈ parents_of g c -> commit_path g p k a -> commit_path g c (S k) a.

(** An upload of an ancestor, at the length of a path to the ancestor. *)
Definition visible (view : CommitGraphView) (g : gmap gostring (list gostring)) (c : gostring)
    (u : UploadMeta) : Prop :=
  exists k a v, commit_path g c k a /\ (exists t, defined_here view a !! t = Some v) /\
    u = shift (Z.of_nat k) v.

(** The visible upload that shadows the other ones of its token. *)
Definition nearest_upload (view : CommitGraphView) (g : gmap gostring (list gostring)) (c : gostring)
    (u : UploadMeta) : Prop :=
  visible view g c u /\ forall v, visible view g c v -> token view v = token view u -> nearer u v.

(** Parents come before their children. *)
Record valid_commit_graph (cg : CommitGraph) : Prop := {
  vcg_nodup : NoDup (cg_order cg);
  vcg_names : [] ∉ cg_order cg;
  vcg_entries c : is_Some (cg_graph cg !! c) -> c ∈ cg_order cg;
  vcg_order l1 c l2 : cg_order cg = l1 ++ c :: l2 ->
    forall p, p ∈ parents_of (cg_graph cg) c -> p ∈ l1
}.

(** Distances that stay within 32 bits. *)
Definition bounded_view (view : CommitGraphView) (n : nat) : Prop :=
  (Z.of_nat n < 2 ^ 32)%Z /\
  forall c u, u ∈ default [] (Meta view !! c) ->
    (0 <= Distance u /\ Distance u + Z.of_nat n < 2 ^ 32)%Z.

Lemma defined_here_meta view c t u :
  defined_here view c !! t = Some u -> u ∈ default [] (Meta view !! c).
Proof.
  unfold defined_here. generalize (default [] (Meta view !! c)) as l.
  assert (forall l (m : gmap gostring UploadMeta),
    fold_left (fun m upload => <[token view upload := upload]> m) l m !! t = Some u ->
    m !! t = Some u \/ u ∈ l) as H.
  { induction l as [|x l IH]; intros m; simpl; [by left|]. intros [Hm|Hl]%IH; [|right; by right].
    apply lookup_insert_Some in Hm as [[_ <-]|[_ ?]]; [right; by left|by left]. }
  intros l [Hm|?]%H; [|done]. by rewrite lookup_empty in Hm.
Qed.

Section Visibility.
Context {G : GoRuntime} (cg : CommitGraph) (view : CommitGraphView).
Context (Hvalid : valid_commit_graph cg) (Hbounded : bounded_view view (length (cg_order cg))).
Notation g := (cg_graph cg).
Notation order := (cg_order cg).
Notation tok := (token view).
Notation seen := (visible view g).

Definition own (c : gostring) (u : UploadMeta) : Prop := exists t, defined_here view c !! t = Some u.

(** The uploads visible at ancestors, at a distance. *)
Definition through (ancestors : list gostring) (d : Z) (u : UploadMeta) : Prop :=
  exists a, a ∈ ancestors /\ shifted d (seen a) u.

Lemma visible_cases c u : seen c u <-> own c u \/ through (parents_of g c) 1 u.
Proof.
  split.
  - intros (k & a & v & Hp & Hv & ->). destruct Hp as [c|c p k a Hin Hp].
    + left. by rewrite shift_0.
    + right. exists p. split; [done|]. exists (shift (Z.of_nat k) v). split; [by exists k, a, v|].
      rewrite shift_shift. f_equal. lia.
  - intros [Hu|(p & Hp & v & (k & a & w & Hk & Hw & ->) & ->)].
    + exists 0, c, u. rewrite shift_0. split_and!; [constructor|done|done].
    + exists (S k), a, w. rewrite shift_shift. split_and!; [by econstructor|done|f_equal; lia].
Qed.

Lemma through_cons a l d u : through (a :: l) d u <-> shifted d (seen a) u \/ through l d u.
Proof. unfold through. setoid_rewrite elem_of_cons. naive_solver. Qed.

Lemma through_parents a d u :
  (forall v, ~ own a v) -> through [a] d u <-> through (parents_of g a) (d + 1) u.
Proof.
  intros Hown. unfold through. setoid_rewrite list_elem_of_singleton. split.
  - intros (x & -> & v & [Hv|(p & Hp & w & Hw & ->)]%visible_cases & ->); [by destruct (Hown v)|].
    exists p. split; [done|]. exists w. split; [done|]. rewrite shift_shift. f_equal. lia.
  - intros (p & Hp & w & Hw & ->). exists a. split; [done|]. exists (shift 1 w). split.
    + apply visible_cases. right. exists p. split; [done|]. by exists w.
    + rewrite shift_shift. f_equal. lia.
Qed.

(** A prefix of the order is closed under ancestors, and bounds the paths. *)
Lemma path_prefix l1 l2 c k a :
  order = l1 ++ l2 -> c ∈ l1 -> commit_path g c k a -> k < length l1 /\ a ∈ l1.
Proof.
  intros E Hc Hp. revert l1 l2 E Hc. induction Hp as [c|c p k a Hin Hp IH]; intros l1 l2 E Hc.
  { split; [|done]. destruct l1; [by apply not_elem_of_nil in Hc|simpl; lia]. }
  apply list_elem_of_split in Hc as (m1 & m2 & ->). rewrite <- app_assoc in E. simpl in E.
  destruct (IH m1 (c :: m2 ++ l2) E) as [Hk Ha]; [by eapply (vcg_order _ Hvalid)|].
  rewrite length_app. simpl. split; [lia|]. apply elem_of_app. by left.
Qed.

Lemma visible_bound c u : c ∈ order -> seen c u -> (0 <= Distance u < 2 ^ 32)%Z.
Proof.
  intros Hc (k & a & v & Hp & [t Hv] & ->). apply defined_here_meta, (proj2 Hbounded) in Hv.
  destruct (path_prefix order [] c k a) as [Hk _]; [by rewrite app_nil_r|done|done|]. simpl. lia.
Qed.

Lemma skipped_spec n c :
  skipped g (reverseGraph n g) view c = true ->
  (forall v, ~ own c v) /\ length (parents_of g c) <= 1.
Proof.
  unfold skipped. intros [[Hm%negb_true_iff Hl%Nat.leb_le]%andb_true_iff _]%andb_true_iff.
  split; [|done]. apply bool_decide_eq_false, eq_None_not_Some in Hm.
  intros v [t Ht]. unfold defined_here in Ht. rewrite Hm in Ht. simpl in Ht. by rewrite lookup_empty in Ht.
Qed.

(** ** The reverse graph *)

Lemma reverse_edges_spec reverse e c p :
  c ∈ parents_of (reverse_edges reverse e) p <-> c ∈ parents_of reverse p \/ (c = e.1 /\ p ∈ e.2).
Proof.
  unfold reverse_edges. destruct e as [child ps]; simpl. revert reverse.
  induction ps as [|q ps IH]; intros reverse; simpl; [set_solver|]. rewrite IH. clear IH.
  unfold parents_of at 1. destruct (decide (q = p)) as [->|Hne].
  - rewrite lookup_insert_eq. simpl. rewrite elem_of_app, list_elem_of_singleton, elem_of_cons. tauto.
  - rewrite lookup_insert_ne by done. rewrite elem_of_cons. unfold parents_of. naive_solver.
Qed.

Lemma reverseGraph_spec n c p : p ∈ parents_of g c -> c ∈ parents_of (reverseGraph n g) p.
Proof.
  unfold parents_of at 1. destruct (g !! c) as [ps|] eqn:Ec; [|by intros ?%not_elem_of_nil].
  simpl. intros Hp. unfold reverseGraph. cbv zeta.
  assert ((c, ps) ∈ map_range (S n) g) as Hin by (by apply elem_of_map_range).
  revert Hin. generalize (fold_left (fun reverse entry => <[entry.1 := []]> reverse) (map_range n g)
    (∅ : gmap gostring (list gostring))) as m. generalize (map_range (S n) g) as l.
  assert (forall l m, c ∈ parents_of m p -> c ∈ parents_of (fold_left reverse_edges l m) p) as Hkeep.
  { induction l as [|e l IH]; intros m Hm; simpl; [done|]. apply IH, reverse_edges_spec. by left. }
  induction l as [|e l IH]; intros m Hin; [by apply not_elem_of_nil in Hin|]. simpl.
  apply elem_of_cons in Hin as [<-|Hin]; [|by apply IH]. apply Hkeep, reverse_edges_spec. by right.
Qed.

(** The parents of a merge are selected. *)
Lemma merge_parent_selected n c p :
  1 < length (parents_of g c) -> p ∈ parents_of g c -> skipped g (reverseGraph n g) view p = false.
Proof.
  intros Hl Hp. unfold skipped. apply andb_false_iff. right. apply negb_false_iff, existsb_exists.
  exists c. split; [by apply list_elem_of_In, reverseGraph_spec|]. by apply Nat.ltb_lt.
Qed.

(** ** Stored uploads *)

(** After a prefix [l] of the order: every selected commit of it has its
    nearest uploads, and no other commit has any. *)
Record stored (n : nat) (l : list gostring) (U : uploads_map) : Prop := {
  stored_dom c : is_Some (U !! c) <-> c ∈ l /\ skipped g (reverseGraph n g) view c = false;
  stored_val c m : U !! c = Some m -> nearest_of view (seen c) m
}.

Lemma stored_skipped n l U c :
  stored n l U -> c ∈ l -> U !! c = None -> skipped g (reverseGraph n g) view c = true.
Proof.
  intros [Hd _] Hc Hn. destruct (skipped _ _ _ c) eqn:E; [done|].
  assert (is_Some (U !! c)) as [? ?] by (by apply Hd). congruence.
Qed.

Lemma nearest_spec n fuel l U : stored n l U ->
  forall m m' ancestors d,
  order = m ++ m' -> (forall a, a ∈ m -> a ∈ l) -> (forall a, a ∈ ancestors -> a ∈ m) ->
  length ancestors <= 1 \/ (forall a, a ∈ ancestors -> is_Some (U !! a)) ->
  length m <= fuel -> (0 <= d)%Z -> (d + Z.of_nat (length m) < 2 ^ 32)%Z ->
  returns (nearest fuel g U ancestors d) (fun r =>
    (forall a, a ∈ r.1 -> is_Some (U !! a)) /\ forall u, through r.1 r.2 u <-> through ancestors d u).
Proof.
  intros HU. induction fuel as [|fuel IH]; intros m m' ancestors d E Hml Hin Hmany Hf Hd Hb.
  all: destruct ancestors as [|a [|b ancestors]]; cbn [nearest].
  all: try (apply returns_done; simpl; split; [|done]; destruct Hmany as [Hle|?]; [simpl in Hle; lia|done]).
  all: try (apply returns_done; simpl; split; [by intros a ?%not_elem_of_nil|done]).
  all: assert (a ∈ m) as Ham by (apply Hin; by left).
  all: destruct (U !! a) as [ua|] eqn:Ea; [apply returns_done; simpl; split; [|done];
         intros x ->%list_elem_of_singleton; by exists ua|].
  { destruct m; [by apply not_elem_of_nil in Ham|simpl in Hf; lia]. }
  destruct (skipped_spec n a) as [Hown Hle]; [by eapply stored_skipped; eauto|].
  apply list_elem_of_split in Ham as (m1 & m2 & ->). rewrite <- app_assoc in E. simpl in E.
  rewrite length_app in Hf, Hb. simpl in Hf, Hb. rewrite wrap32_small by lia.
  eapply returns_mono; [apply (IH m1 (a :: m2 ++ m')); [done| |by eapply (vcg_order _ Hvalid)|by left|lia..]|].
  - intros x Hx. apply Hml, elem_of_app. by left.
  - simpl. intros [as' d'] [H1 H2]. split; [done|]. intros u. rewrite H2. symmetry. by apply through_parents.
Qed.

Lemma ancestor_uploads_elem (n : nat) (U : uploads_map) a m u :
  U !! a = Some m -> u ∈ ancestor_uploads n U a <-> exists t, m !! t = Some u.
Proof.
  intros E. unfold ancestor_uploads. rewrite E. simpl. rewrite list_elem_of_fmap. split.
  - intros ([t v] & -> & Hv%elem_of_map_range). by exists t.
  - intros [t Ht]. exists (t, u). split; [done|]. by apply elem_of_map_range.
Qed.

Lemma populateUploadsForCommit_spec k U ancestors d c :
  (forall a, a ∈ ancestors -> exists m, U !! a = Some m /\ nearest_of view (seen a) m) ->
  (forall u, through ancestors d u -> (0 <= Distance u < 2 ^ 32)%Z) ->
  nearest_of view (fun u => own c u \/ through ancestors d u)
    (populateUploadsForCommit k U ancestors d view c).
Proof.
  intros HU Hb. unfold populateUploadsForCommit.
  assert (nearest_of view (own c) (defined_here view c)) as Hdef.
  { intros t. unfold is_nearest. destruct (defined_here view c !! t) as [u|] eqn:Eu.
    - pose proof (defined_here_token view c t u Eu) as Ht. split_and!; [by exists t|done|].
      intros v [t' Hv] Hvt. pose proof (defined_here_token view c t' v Hv) as Ht'.
      assert (u = v) as -> by congruence. apply nearer_refl.
    - intros v [t' Hv] Hvt. pose proof (defined_here_token view c t' v Hv). congruence. }
  revert Hdef. generalize (defined_here view c) as m. generalize (own c) as P.
  induction ancestors as [|a ancestors IH]; intros P m Hm; simpl.
  { eapply nearest_of_ext; [|exact Hm]. intros u. split; [by left|].
    intros [?|(a & ?%not_elem_of_nil & _)]; done. }
  destruct (HU a) as (ua & Ea & Hua); [by left|].
  assert (nearest_of view (fun u => P u \/ shifted d (seen a) u)
    (fold_left (merge_upload view d) (ancestor_uploads k U a) m)) as Hstep.
  { eapply nearest_of_dominated; [| |apply merge_uploads_spec; [|exact Hm]].
    - intros u [?|(v & Hv & ->)]; [by left|right]. apply (ancestor_uploads_elem k U a ua) in Hv; [|done].
      exists v. split; [by eapply nearest_of_elem|done].
    - intros v [Hv|(w & Hw & ->)]; [exists v; split_and!; [by left|done|apply nearer_refl]|].
      destruct (nearest_of_exists view _ _ w Hua Hw) as (u & Hu & _ & Ht & Hn).
      exists (shift d u). split_and!; [right; exists u; split; [|done]|done|by apply nearer_shift].
      apply (ancestor_uploads_elem k U a ua); [done|]. by eexists.
    - intros u Hu. apply (ancestor_uploads_elem k U a ua) in Hu; [|done].
      apply (Hb (shift d u)). exists a. split; [by left|]. exists u. split; [by eapply nearest_of_elem|done]. }
  eapply nearest_of_ext; [|apply IH; [| |exact Hstep]].
  - intros u. simpl. rewrite through_cons. tauto.
  - intros x Hx. apply HU. by right.
  - intros u Hu. apply Hb, through_cons. by right.
Qed.

Lemma populate_loop_spec n k l1 l2 U :
  order = l1 ++ l2 -> stored n l1 U ->
  returns (populate_loop k (length order) g (reverseGraph n g) view l2 U) (stored n order).
Proof.
  revert k l1 U. induction l2 as [|c l2 IH]; intros k l1 U E HU; simpl.
  { apply returns_done. by rewrite E, app_nil_r. }
  assert (c ∈ order) as Hc by (rewrite E; apply elem_of_app; right; by left).
  assert (order = (l1 ++ [c]) ++ l2) as E' by (by rewrite <- app_assoc).
  assert (c ∉ l1) as Hcl.
  { intros Hin. pose proof (vcg_nodup _ Hvalid) as Hn. rewrite E in Hn.
    apply NoDup_app in Hn as (_ & Hd & _). apply (Hd c Hin). by left. }
  destruct (skipped g (reverseGraph n g) view c) eqn:Es.
  { apply (IH k (l1 ++ [c])); [done|]. split; [|apply HU]. intros x.
    rewrite (stored_dom _ _ _ HU), elem_of_app, list_elem_of_singleton.
    destruct (decide (x = c)) as [->|]; [rewrite Es|]; intuition congruence. }
  assert (forall p, p ∈ parents_of g c -> p ∈ l1) as Hpar by (by eapply (vcg_order _ Hvalid)).
  assert (length l1 <= length order) as Hlen by (rewrite E, length_app; lia).
  run_step (nearest_spec n (length order) l1 U HU l1 (c :: l2) (parents_of g c) 1); [done|done|done| |done|done| |].
  - destruct (Nat.le_gt_cases (length (parents_of g c)) 1) as [?|Hgt]; [by left|right].
    intros p Hp. apply (stored_dom _ _ _ HU). split; [by apply Hpar|]. by eapply merge_parent_selected.
  - pose proof (proj1 Hbounded) as Hb. rewrite E, length_app in Hb. simpl in Hb. lia.
  - intros [ancestors d] [Hsome Hthr]. simpl in Hsome, Hthr.
    apply (IH (S k) (l1 ++ [c])); [done|]. split.
    + intros x. rewrite lookup_insert_is_Some, (stored_dom _ _ _ HU), elem_of_app, list_elem_of_singleton.
      destruct (decide (c = x)) as [<-|]; intuition congruence.
    + intros x m. rewrite lookup_insert_Some. intros [[<- <-]|[_ Hx]]; [|by apply (stored_val _ _ _ HU)].
      eapply nearest_of_ext; [|apply populateUploadsForCommit_spec].
      * intros u. rewrite visible_cases, Hthr. done.
      * intros a Ha. destruct (Hsome a Ha) as [m Hm]. exists m. split; [done|]. by apply (stored_val _ _ _ HU).
      * intros u Hu. apply (visible_bound c); [done|]. apply visible_cases. right. by apply Hthr.
Qed.

(** ** Looking up *)

Lemma traverse_commits_spec n U fuel : stored n order U ->
  forall m m' c d,
  order = m ++ m' -> c ∈ m -> length m <= fuel -> (0 <= d)%Z -> (d + Z.of_nat (length m) < 2 ^ 32)%Z ->
  returns (traverse_commits fuel g U c d) (fun r =>
    let '(a, d', found) := r in
    if found : bool then
      is_Some (U !! a) /\ (d <= d')%Z /\ (d' = d -> a = c) /\
      forall u, shifted d (seen c) u <-> shifted d' (seen a) u
    else a = [] /\ forall u, ~ seen c u).
Proof.
  intros HU. induction fuel as [|fuel IH]; intros m m' c d E Hc Hf Hd Hb; cbn [traverse_commits].
  { destruct m; [by apply not_elem_of_nil in Hc|simpl in Hf; lia]. }
  destruct (U !! c) as [uc|] eqn:Ec.
  { apply returns_done. split_and!; [by exists uc|lia|done|done]. }
  destruct (skipped_spec n c) as [Hown Hle].
  { eapply stored_skipped; [done| |done]. rewrite E. apply elem_of_app. by left. }
  apply list_elem_of_split in Hc as (m1 & m2 & ->). rewrite <- app_assoc in E. simpl in E.
  pose proof (vcg_order _ Hvalid _ _ _ E) as Hpar.
  destruct (parents_of g c) as [|p ps] eqn:Ep.
  { apply returns_done. split; [done|]. intros u [?|(p & Hp & _)]%visible_cases; [by eapply Hown|].
    rewrite Ep in Hp. by apply not_elem_of_nil in Hp. }
  assert (ps = []) as -> by (destruct ps; [done|simpl in Hle; lia]).
  rewrite length_app in Hf, Hb. simpl in Hf, Hb. rewrite wrap32_small by lia.
  eapply returns_mono; [apply (IH m1 (c :: m2 ++ m')); [done|apply Hpar; by left|lia..]|].
  intros [[a d'] [|]]; simpl.
  - intros (Hs & Hle' & _ & Hiff). split_and!; [done|lia|lia|]. intros u. rewrite <- Hiff.
    pose proof (through_parents c d u Hown) as Ht. unfold through in Ht. rewrite Ep in Ht.
    setoid_rewrite list_elem_of_singleton in Ht. naive_solver.
  - intros [-> Hno]. split; [done|]. intros u [?|(q & Hq & v & Hv & _)]%visible_cases; [by eapply Hown|].
    rewrite Ep in Hq. apply list_elem_of_singleton in Hq as ->. by eapply Hno.
Qed.

(** The stored commit that stands for [c]. *)
Lemma traverseForCommit_spec n U c : stored n order U -> c ∈ order ->
  returns (traverseForCommit (length order) g U c) (fun r =>
    let '(a, d, found) := r in
    if found : bool then
      a ∈ order /\ (d = 0%Z -> a = c) /\
      exists m, U !! a = Some m /\ nearest_of view (seen c) (shift d <$> m)
    else a = [] /\ forall u, ~ seen c u).
Proof.
  intros HU Hc. unfold traverseForCommit. pose proof (proj1 Hbounded) as Hb.
  eapply returns_mono; [apply (traverse_commits_spec n U (length order) HU order []);
    [by rewrite app_nil_r|done|done|done|lia]|].
  intros [[a d] [|]]; [|done]. intros ([m Hm] & _ & Hz & Hiff). split_and!.
  - apply (stored_dom _ _ _ HU). by exists m.
  - done.
  - exists m. split; [done|]. eapply nearest_of_ext; [|apply nearest_of_shift, (stored_val _ _ _ HU); exact Hm].
    intros u. rewrite <- Hiff. split; [|intros Hu; exists u; by rewrite shift_0].
    intros (v & Hv & ->). by rewrite shift_0.
Qed.

Lemma adjust_spec (k : nat) (d : Z) (c : gostring) (m : gmap gostring UploadMeta) : c ∈ order -> nearest_of view (seen c) (shift d <$> m) ->
  adjustVisibleUploads k m d = map (shift d) (map_range k m).*2.
Proof.
  intros Hc Hm. unfold adjustVisibleUploads. apply map_ext_in. intros u Hu%list_elem_of_In.
  apply add_distance_shift. apply list_elem_of_fmap in Hu as ([t v] & -> & Hv%elem_of_map_range).
  apply (visible_bound c (shift d v) Hc). apply (nearest_of_elem _ _ _ _ Hm).
  exists t. by rewrite lookup_fmap, Hv.
Qed.

Lemma adjust_empty (k : nat) (d : Z) : adjustVisibleUploads k ∅ d = [].
Proof.
  unfold adjustVisibleUploads. assert (map_range k (∅ : gmap gostring UploadMeta) = []) as ->; [|done].
  apply Permutation_nil_r. by rewrite map_range_perm, map_to_list_empty.
Qed.

(** The contents of a list of uploads: the nearest ones, one for a token. *)
Definition lists_nearest (c : gostring) (l : list UploadMeta) : Prop :=
  (forall u, u ∈ l <-> nearest_upload view g c u) /\ NoDup (map tok l) /\
  forall v, seen c v -> exists u, u ∈ l /\ tok u = tok v.

Lemma lists_nearest_range (k : nat) (d : Z) (c : gostring) (m : gmap gostring UploadMeta) :
  nearest_of view (seen c) (shift d <$> m) -> lists_nearest c (map (shift d) (map_range k m).*2).
Proof.
  intros Hm.
  assert (forall u, u ∈ map (shift d) (map_range k m).*2 <-> exists t, (shift d <$> m) !! t = Some u) as Hin.
  { intros u. rewrite list_elem_of_fmap. setoid_rewrite lookup_fmap. split.
    - intros (v & -> & Hv). apply list_elem_of_fmap in Hv as ([t w] & -> & Hw%elem_of_map_range).
      exists t. by rewrite Hw.
    - intros [t Ht]. destruct (m !! t) as [v|] eqn:Ev; [|done]. injection Ht as <-. exists v. split; [done|].
      apply list_elem_of_fmap. exists (t, v). split; [done|]. by apply elem_of_map_range. }
  assert (forall t u, (shift d <$> m) !! t = Some u -> tok u = t) as Htok.
  { intros t u Hu. specialize (Hm t). rewrite Hu in Hm. apply Hm. }
  split_and!.
  - intros u. rewrite Hin. split.
    + intros [t Ht]. pose proof (Htok _ _ Ht) as <-. specialize (Hm (tok u)). rewrite Ht in Hm.
      destruct Hm as (H1 & _ & H2). by split.
    + intros [Hu Hmin]. destruct (nearest_of_exists _ _ _ u Hm Hu) as (v & Hv & Hs & Ht & Hn).
      exists (tok u). rewrite Hv. f_equal. apply nearer_antisym; [done|]. by apply Hmin.
  - assert (map tok (map (shift d) (map_range k m).*2) = (map_range k m).*1) as ->.
    { rewrite map_map, <- list_fmap_compose. apply map_ext_in. intros [t v] Hv%list_elem_of_In. simpl.
      apply (Htok t (shift d v)). rewrite lookup_fmap. apply elem_of_map_range in Hv. by rewrite Hv. }
    apply NoDup_map_range_keys.
  - intros v Hv. destruct (nearest_of_exists _ _ _ v Hm Hv) as (u & Hu & _ & Ht & _).
    exists u. split; [|done]. apply Hin. by eexists.
Qed.

Lemma lists_nearest_none c : (forall u, ~ seen c u) -> lists_nearest c [].
Proof.
  intros Hno. split_and!; [|constructor|].
  - intros u. split; [by intros ?%not_elem_of_nil|]. intros [Hu _]. by destruct (Hno u).
  - intros v Hv. by destruct (Hno v).
Qed.

Lemma NewGraph_spec n :
  returns (NewGraph n cg view) (fun r => exists U, stored n order U /\
    r = (MkGraph view g (sort_Strings order) U, MkCommitGraph g (sort_Strings order))).
Proof.
  unfold NewGraph, populateUploadsByTraversal. cbv zeta.
  run_step (populate_loop_spec n n [] order ∅); [done| |].
  - split; [|by intros c m; rewrite lookup_empty]. intros c. rewrite lookup_empty.
    split; [by intros [? ?]|by intros [?%not_elem_of_nil _]].
  - intros U HU. apply returns_done. by exists U.
Qed.

Lemma UploadsVisible_spec n k U c :
  stored n order U -> c ∈ order ->
  returns (UploadsVisibleAtCommit k (MkGraph view g (sort_Strings order) U) c) (lists_nearest c).
Proof.
  intros HU Hc. unfold UploadsVisibleAtCommit, traverseForUploads. simpl. rewrite sort_Strings_perm.
  apply returns_bind. run_step (traverseForCommit_spec n U c HU Hc). intros [[a d] [|]].
  - intros (Ha & _ & m & Em & Hm). rewrite Em. apply returns_done. simpl. apply returns_done.
    rewrite (adjust_spec k d c m Hc Hm). by apply lists_nearest_range.
  - intros [-> Hno]. assert (U !! [] = None) as ->.
    { apply eq_None_not_Some. intros [Hin _]%(stored_dom _ _ _ HU). by apply (vcg_names _ Hvalid). }
    apply returns_done. simpl. apply returns_done. rewrite adjust_empty. by apply lists_nearest_none.
Qed.

Lemma UploadsVisible_unknown n k U c :
  stored n order U -> c ∉ order ->
  UploadsVisibleAtCommit k (MkGraph view g (sort_Strings order) U) c = Done [].
Proof.
  intros HU Hc. unfold UploadsVisibleAtCommit, traverseForUploads, traverseForCommit. simpl.
  assert (forall x, x ∉ order -> U !! x = None) as Hno.
  { intros x Hx. apply eq_None_not_Some. by intros [? _]%(stored_dom _ _ _ HU). }
  assert (parents_of g c = []) as Hp.
  { unfold parents_of. destruct (g !! c) eqn:E; [|done]. destruct Hc. by apply (vcg_entries _ Hvalid). }
  assert (traverse_commits (length (sort_Strings order)) g U c 0 = Done ([], 0%Z, false)) as ->.
  { destruct (length (sort_Strings order)); simpl; by rewrite Hno, Hp. }
  simpl. rewrite Hno by apply (vcg_names _ Hvalid). f_equal. apply adjust_empty.
Qed.

(** ** The stream *)

(** What the stream has told about a commit. *)
Definition told (U : uploads_map) (c : gostring) (ou : option (list UploadMeta))
    (ol : option LinkRelationship) : Prop :=
  match ou, ol with
  | Some l, None => lists_nearest c l /\ forall m, U !! c = Some m -> exists k, l = (map_range k m).*2
  | None, Some lk => U !! c = None /\ AncestorCommit lk ∈ order /\
      exists m, U !! AncestorCommit lk = Some m /\ nearest_of view (seen c) (shift (l_Distance lk) <$> m)
  | None, None => U !! c = None /\ forall u, ~ seen c u
  | Some _, Some _ => False
  end.

Lemma stream_commit_spec n k U c :
  stored n order U -> c ∈ order ->
  returns (stream_commit k (MkGraph view g (sort_Strings order) U) c) (fun es =>
    exists ou ol, told U c ou ol /\
    forall uploads links, fold_left gather_envelope es (uploads, links) =
      (match ou with Some l => <[c := l]> uploads | None => uploads end,
       match ol with Some lk => <[c := lk]> links | None => links end)).
Proof.
  intros HU Hc. unfold stream_commit. simpl. rewrite sort_Strings_perm.
  assert (forall m, U !! c = Some m -> traverseForCommit (length order) g U c = Done (c, 0%Z, true)) as Hhere.
  { intros m Hm. unfold traverseForCommit. destruct (length order); simpl; by rewrite Hm. }
  apply returns_bind. destruct (traverseForCommit_spec n U c HU Hc) as (r & Er & Hr).
  rewrite Er in Hhere |- *. apply returns_done. destruct r as [[a d] [|]].
  2: { destruct Hr as [_ Hno]. apply returns_done. exists None, None. split; [|done]. split; [|done].
       destruct (U !! c) as [m|] eqn:Em; [|done]. specialize (Hhere m eq_refl). congruence. }
  destruct Hr as (Ha & Hz & m & Em & Hm). rewrite Em. simpl.
  pose proof (adjust_spec k d c m Hc Hm) as Hadj.
  destruct ((d =? 0)%Z || Nat.eqb (size m) 1) eqn:Eb.
  - apply returns_done. exists (Some (adjustVisibleUploads k m d)), None. split; [|done]. rewrite Hadj.
    split; [by apply lists_nearest_range|]. intros m' Hm'. specialize (Hhere m' Hm') as [= -> ->].
    rewrite Em in Hm'. injection Hm' as <-. exists k.
    rewrite (map_ext _ id), map_id; [done|]. intros u. apply shift_0.
  - apply orb_false_iff in Eb as [Hd%Z.eqb_neq H1%Nat.eqb_neq].
    destruct (Nat.ltb_spec 1 (size m)) as [Hlt|Hle]; apply returns_done.
    all: assert (U !! c = None) as Hno
      by (destruct (U !! c) as [mc|] eqn:Emc; [specialize (Hhere mc eq_refl); congruence|done]).
    + exists None, (Some (MkLink c a d)). split; [|done]. split_and!; [done|done|]. by exists m.
    + exists None, None. split; [|done]. split; [done|].
      assert (m = ∅) as -> by (apply map_size_empty_inv; lia). intros u Hu.
      specialize (Hm (tok u)). rewrite fmap_empty, lookup_empty in Hm. by apply (Hm u).
Qed.

Lemma stream_loop_spec n k U (l1 l2 : list gostring) uploads links :
  stored n order U -> (forall c, c ∈ l2 -> c ∈ order) -> NoDup (l1 ++ l2) ->
  (forall c, c ∈ l1 -> told U c (uploads !! c) (links !! c)) ->
  (forall c, c ∉ l1 -> uploads !! c = None /\ links !! c = None) ->
  returns (stream_loop k (MkGraph view g (sort_Strings order) U) l2) (fun es =>
    forall c, c ∈ l1 ++ l2 -> let r := fold_left gather_envelope es (uploads, links) in
      told U c (r.1 !! c) (r.2 !! c)).
Proof.
  intros HU. revert k l1 uploads links. induction l2 as [|c l2 IH]; intros k l1 uploads links Hin Hn H1 H2; simpl.
  { apply returns_done. rewrite app_nil_r. exact H1. }
  run_step (stream_commit_spec n k U c HU); [apply Hin; by left|]. intros es (ou & ol & Htold & Hfold).
  assert (c ∉ l1) as Hc.
  { intros Hc. apply NoDup_app in Hn as (_ & Hd & _). apply (Hd c Hc). by left. }
  assert (l1 ++ c :: l2 = (l1 ++ [c]) ++ l2) as El by (by rewrite <- app_assoc).
  rewrite El in Hn |- *. destruct (H2 c Hc) as [Hu Hl].
  run_step (IH (S k) (l1 ++ [c])); [by intros x Hx; apply Hin; right|done| | |].
  - instantiate (1 := match ol with Some lk => <[c := lk]> links | None => links end).
    instantiate (1 := match ou with Some l => <[c := l]> uploads | None => uploads end).
    intros x [Hx| ->%list_elem_of_singleton]%elem_of_app.
    + assert (c <> x) by (by intros ->). destruct ou, ol; rewrite ?lookup_insert_ne by done; by apply H1.
    + destruct ou, ol; rewrite ?lookup_insert_eq, ?Hu, ?Hl; done.
  - intros x [Hx Hne%not_elem_of_cons]%not_elem_of_app. destruct Hne as [Hne _].
    destruct ou, ol; rewrite ?lookup_insert_ne by done; by apply H2.
  - intros es' Hes'. apply returns_done. intros x Hx. rewrite fold_left_app, Hfold. by apply Hes'.
Qed.

(** The visible uploads of a commit, read back from what was gathered. *)
Definition restore (uploads : gmap gostring (list UploadMeta)) (links : gmap gostring LinkRelationship)
    (c : gostring) : list UploadMeta :=
  match uploads !! c with
  | Some l => l
  | None =>
      match links !! c with
      | Some lk => map (add_distance (l_Distance lk)) (default [] (uploads !! AncestorCommit lk))
      | None => []
      end
  end.

Lemma restore_spec U uploads links c :
  c ∈ order -> (forall x, x ∈ order -> told U x (uploads !! x) (links !! x)) ->
  lists_nearest c (restore uploads links c).
Proof.
  intros Hc Htold. unfold restore. pose proof (Htold c Hc) as H. unfold told in H.
  destruct (uploads !! c) as [l|]; [destruct (links !! c); [done|by destruct H]|].
  destruct (links !! c) as [lk|]; [|by apply lists_nearest_none; destruct H].
  destruct H as (_ & Ha & m & Em & Hm). pose proof (Htold _ Ha) as Hanc. unfold told in Hanc.
  destruct (uploads !! AncestorCommit lk) as [l|]; simpl.
  - destruct (links !! AncestorCommit lk); [done|]. destruct Hanc as [_ Hl]. destruct (Hl m Em) as [k ->].
    pose proof (adjust_spec k (l_Distance lk) c m Hc Hm) as Hadj. unfold adjustVisibleUploads in Hadj.
    rewrite Hadj. by apply lists_nearest_range.
  - exfalso. destruct (links !! AncestorCommit lk); destruct Hanc; congruence.
Qed.
End Visibility.

(** Reading the output of [git log]: [ParseCommitGraph] gives every commit its
    parents and an order in which parents come first. *)

Import Utf8 Utf8Facts AsciiFacts.

(** A line of the log: a commit, then its parents. *)
Definition log_entry : Type := gostring * list gostring.
Definition render (e : log_entry) : gostring := Join (e.1 :: e.2) (str " ").
Definition mentions (e : log_entry) : list gostring := e.1 :: e.2.

(** Commit identifiers: printable ASCII, not empty. *)
Definition identifier (c : gostring) : Prop := c <> [] /\ Forall (fun b => (33 <= b < 127)%Z) c.

(** What [--topo-order] promises: a commit is listed once, and no entry after
    its own (in the order of the log, children first) mentions it. *)
Definition topo_log (entries : list log_entry) : Prop :=
  forall m1 e m2, entries = m1 ++ e :: m2 -> e.1 ∉ e.2 /\ forall e', e' ∈ m2 -> e.1 ∉ mentions e'.

Fixpoint topo_logb (entries : list log_entry) : bool :=
  match entries with
  | [] => true
  | e :: entries =>
      negb (bool_decide (e.1 ∈ e.2)) &&
      forallb (fun e' => negb (bool_decide (e.1 ∈ mentions e'))) entries && topo_logb entries
  end.

Lemma topo_logb_sound entries : topo_logb entries = true -> topo_log entries.
Proof.
  induction entries as [|x l IH]; intros H m1 e m2 E; [by destruct m1|]. simpl in H.
  apply andb_true_iff in H as [[H1%negb_true_iff%bool_decide_eq_false H2]%andb_true_iff H3].
  destruct m1 as [|y m1]; injection E as -> E; [|by eapply IH]. subst m2. split; [done|].
  intros e' He'. rewrite forallb_forall in H2. apply list_elem_of_In, H2 in He'.
  by apply negb_true_iff, bool_decide_eq_false in He'.
Qed.

Definition omit_blank (lines : list gostring) : list gostring :=
  List.filter (fun line => negb (gs_eqb line [])) lines.

(** ** Lines *)

Lemma Split_render e : Forall identifier (mentions e) -> Split (render e) 32 = mentions e.
Proof.
  intros H. apply Split_Join; [done|]. eapply Forall_impl; [exact H|]. intros c [_ Hc].
  eapply Forall_impl; [exact Hc|]. simpl. lia.
Qed.

(** A line starts and ends with bytes that are not spaces. *)
Definition tight (s : gostring) : Prop :=
  ascii s /\ (exists b t, s = b :: t /\ (33 <= b < 127)%Z) /\ exists t b, s = t ++ [b] /\ (33 <= b < 127)%Z.

Lemma tight_identifier c : identifier c -> tight c.
Proof.
  intros [Hne Hc]. split_and!.
  - eapply Forall_impl; [exact Hc|]. simpl. lia.
  - destruct c as [|b t]; [done|]. apply Forall_cons in Hc as [? _]. eauto.
  - destruct c as [|b t _] using rev_ind; [done|]. apply Forall_app in Hc as [_ [? _]%Forall_cons]. eauto.
Qed.

Lemma tight_join c s : identifier c -> tight s -> tight (c ++ 32%Z :: s).
Proof.
  intros Hc (Ha & _ & (t & b & -> & Hb)). destruct (tight_identifier c Hc) as (Hca & (x & y & -> & Hx) & _).
  split_and!.
  - apply Forall_app. split; [done|]. constructor; [lia|done].
  - exists x, (y ++ 32%Z :: t ++ [b]). done.
  - exists ((x :: y) ++ 32%Z :: t), b. split; [|done]. by rewrite <- app_assoc.
Qed.

Lemma tight_render e : Forall identifier (mentions e) -> tight (render e).
Proof.
  destruct e as [c ps]. unfold render, mentions. simpl. revert c.
  induction ps as [|p ps IH]; intros c [Hc Hps]%Forall_cons; [by apply tight_identifier|].
  change (Join (c :: p :: ps) (str " ")) with (c ++ 32%Z :: Join (p :: ps) (str " ")).
  apply tight_join; [done|]. by apply IH.
Qed.

Lemma printable_not_space b : (33 <= b < 127)%Z -> IsSpace b = false.
Proof. intros H. unfold IsSpace, between. destruct ((0 <=? b)%Z && (b <=? 255)%Z) eqn:E; lia. Qed.

Lemma trailing_space_last t b n : ascii t -> (33 <= b < 127)%Z ->
  fold_left (fun n g => if IsSpace (seg_rune g) then n + seg_width g else 0) (segments (t ++ [b])) n = 0.
Proof.
  intros Ht Hb. revert n. induction Ht as [|x t Hx Ht IH]; intros n.
  - simpl app. rewrite segments_ascii_cons by lia. simpl. by rewrite printable_not_space.
  - simpl app. rewrite segments_ascii_cons by lia. simpl. by apply IH.
Qed.

Lemma TrimSpace_tight s : tight s -> TrimSpace s = s.
Proof.
  intros (Ha & (b & t & -> & Hb) & (t' & b' & E & Hb')).
  assert (TrimLeftSpace (b :: t) = b :: t) as El.
  { unfold TrimLeftSpace. rewrite segments_ascii_cons by lia. simpl. by rewrite printable_not_space. }
  unfold TrimSpace. rewrite El, E. unfold trailing_space.
  rewrite trailing_space_last; [|rewrite E in Ha; by apply Forall_app in Ha as [? _]|done].
  by rewrite Nat.sub_0_r, firstn_all.
Qed.

(** ** The loop *)

(** The state after the entries [l], oldest commits first. *)
Record parsed (l : list log_entry) (st : parse_state) : Prop := {
  parsed_order : ps_order st = l.*1;
  parsed_listed c ps : (c, ps) ∈ l -> ps_graph st !! c = Some ps;
  parsed_prefix x : x ∈ ps_prefix st <-> x ∉ l.*1 /\ exists e, e ∈ l /\ x ∈ e.2;
  parsed_roots x : x ∈ ps_prefix st -> ps_graph st !! x = Some [];
  parsed_dom x : is_Some (ps_graph st !! x) -> x ∈ ps_prefix st \/ x ∈ l.*1;
  parsed_nodup : NoDup (ps_prefix st)
}.

Lemma add_parents_spec (ps : list gostring) st :
  (forall x, x ∈ ps_prefix st -> is_Some (ps_graph st !! x)) -> NoDup (ps_prefix st) ->
  let st' := fold_left add_parent ps st in
  ps_order st' = ps_order st /\
  (forall x v, ps_graph st !! x = Some v -> ps_graph st' !! x = Some v) /\
  (forall x, x ∈ ps_prefix st' <-> x ∈ ps_prefix st \/ (x ∈ ps /\ ps_graph st !! x = None)) /\
  (forall x, ps_graph st !! x = None -> ps_graph st' !! x = if bool_decide (x ∈ ps) then Some [] else None) /\
  NoDup (ps_prefix st').
Proof.
  revert st. induction ps as [|p ps IH]; intros st Hp Hn; simpl.
  { split_and!; [done|done|set_solver|done|done]. }
  unfold add_parent at 2 4 6 8 10. destruct (ps_graph st !! p) as [v|] eqn:Ep.
  - destruct (IH st Hp Hn) as (H1 & H2 & H3 & H4 & H5). split_and!; [done|done| | |done].
    + intros x. rewrite H3, elem_of_cons. split; [tauto|]. intros [?|[[->|?] ?]]; [by left|congruence|by right].
    + intros x Hx. rewrite H4 by done. assert (x <> p) by congruence.
      case_bool_decide; case_bool_decide; set_solver.
  - set (st1 := MkParse (<[p := []]> (ps_graph st)) (ps_order st) (ps_prefix st ++ [p])).
    assert (p ∉ ps_prefix st) as Hpp by (intros Hin; destruct (Hp p Hin); congruence).
    destruct (IH st1) as (H1 & H2 & H3 & H4 & H5); simpl.
    + intros x [Hx| ->%list_elem_of_singleton]%elem_of_app; [|by rewrite lookup_insert_eq].
      rewrite lookup_insert_ne; [by apply Hp|by intros ->].
    + apply NoDup_app. split_and!; [done|set_solver|apply NoDup_singleton].
    + split_and!; [done| | | |done].
      * intros x w Hx. apply H2. simpl. rewrite lookup_insert_ne; [done|congruence].
      * intros x. rewrite H3. simpl. rewrite elem_of_app, list_elem_of_singleton, elem_of_cons.
        destruct (decide (x = p)) as [->|Hne]; [rewrite Ep; tauto|].
        rewrite lookup_insert_ne by done. tauto.
      * intros x Hx. destruct (decide (x = p)) as [->|Hne].
        -- rewrite bool_decide_eq_true_2 by (by left). apply H2. simpl. by rewrite lookup_insert_eq.
        -- rewrite H4 by (simpl; by rewrite lookup_insert_ne).
           case_bool_decide; case_bool_decide; set_solver.
Qed.

Lemma parse_line_spec l st e :
  parsed l st -> Forall identifier (mentions e) -> e.1 ∉ e.2 ->
  (forall e', e' ∈ l -> e.1 ∉ mentions e') -> parsed (l ++ [e]) (parse_line st (render e)).
Proof.
  intros [P1 P2 P3 P4 P5 P6] Hid Hself Hfresh. unfold parse_line.
  rewrite TrimSpace_tight by (by apply tight_render).
  assert (gs_eqb (render e) [] = false) as ->.
  { apply gs_eqb_false. destruct (tight_render e Hid) as (_ & (b & t & -> & _) & _). done. }
  rewrite Split_render by done. destruct e as [c ps]. simpl in *.
  assert (c ∉ l.*1) as Hc1.
  { intros ([c' ps'] & -> & He)%list_elem_of_fmap. apply (Hfresh _ He). by left. }
  assert (c ∉ ps_prefix st) as Hc2.
  { intros [_ (e & He & Hin)]%P3. apply (Hfresh _ He). by right. }
  set (st1 := MkParse (<[c := ps]> (ps_graph st)) (ps_order st ++ [c]) (ps_prefix st)).
  destruct (add_parents_spec ps st1) as (H1 & H2 & H3 & H4 & H5); simpl.
  { intros x Hx. rewrite lookup_insert_ne by (by intros ->). rewrite P4 by done. done. }
  { done. }
  assert (forall x, ps_graph st1 !! x = None <-> x <> c /\ ps_graph st !! x = None) as Hnone.
  { intros x. simpl. rewrite lookup_insert_None. naive_solver. }
  assert (forall x, ps_graph st !! x = None <-> x ∉ ps_prefix st /\ x ∉ l.*1) as Hdom.
  { intros x. split.
    - intros Hx. split; [by intros ?%P4; congruence|].
      intros ([x' ps'] & -> & He)%list_elem_of_fmap. apply P2 in He. simpl in *. congruence.
    - intros [Ha Hb]. apply eq_None_not_Some. by intros [?|?]%P5. }
  split; rewrite ?fmap_app; simpl.
  - rewrite H1. simpl. by rewrite P1.
  - intros x xs [Hx|[= -> ->]%list_elem_of_singleton]%elem_of_app; apply H2; simpl.
    + rewrite lookup_insert_ne; [by apply P2|]. intros ->. apply Hc1. by apply (list_elem_of_fmap_2 fst) in Hx.
    + by rewrite lookup_insert_eq.
  - intros x. rewrite H3, Hnone, Hdom. change (ps_prefix st1) with (ps_prefix st). rewrite P3.
    setoid_rewrite elem_of_app. setoid_rewrite list_elem_of_singleton. split.
    + intros [[Ha (e & He & Hin)]|[Hin (Hne & Hp & Hl)]].
      * split; [|by exists e; auto]. intros [?| ->]; [done|]. apply (Hfresh e He). by right.
      * split; [by intros [?| ->]|]. exists (c, ps). auto.
    + intros [Hno (e & [He| ->] & Hin)]; [left; split; [by auto|by exists e]|]. simpl in Hin.
      destruct (decide (x ∈ ps_prefix st)) as [Hex|Hex]; rewrite P3 in Hex; [by left|right].
      split_and!; [done|by intros ->; auto|done|auto].
  - intros x [Hx|[Hx Hx']]%H3.
    + apply H2. simpl. rewrite lookup_insert_ne; [by apply P4|by intros ->].
    + rewrite H4 by done. by rewrite bool_decide_eq_true_2.
  - intros x [v Hv]. setoid_rewrite elem_of_app. rewrite H3. destruct (ps_graph st1 !! x) as [w|] eqn:Ex.
    + simpl in Ex. apply lookup_insert_Some in Ex as [[<- _]|[_ Ex]]; [right; right; by left|].
      destruct (P5 x) as [?|?]; [by eexists|auto..].
    + rewrite H4 in Hv by done. case_bool_decide; [auto|done].
  - done.
Qed.

Lemma parse_blank lines st : fold_left parse_line (omit_blank lines) st = fold_left parse_line lines st.
Proof.
  revert st. induction lines as [|x lines IH]; intros st; simpl; [done|].
  destruct (gs_eqb x []) eqn:E; simpl; [|apply IH]. apply gs_eqb_eq in E as ->. by rewrite IH.
Qed.

Lemma omit_blank_rev lines : omit_blank (rev lines) = rev (omit_blank lines).
Proof.
  unfold omit_blank. induction lines as [|x lines IH]; simpl; [done|]. rewrite List.filter_app, IH. simpl.
  destruct (negb (gs_eqb x [])); simpl; [done|]. by rewrite app_nil_r.
Qed.

Lemma parse_lines_spec (l1 l2 : list log_entry) st :
  parsed l1 st -> Forall (fun e => Forall identifier (mentions e)) l2 ->
  topo_log (rev (l1 ++ l2)) -> parsed (l1 ++ l2) (fold_left parse_line (map render l2) st).
Proof.
  revert l1 st. induction l2 as [|e l2 IH]; intros l1 st Hp Hid Ht; simpl; [by rewrite app_nil_r|].
  apply Forall_cons in Hid as [He Hid].
  assert (l1 ++ e :: l2 = (l1 ++ [e]) ++ l2) as E by (by rewrite <- app_assoc).
  destruct (Ht (rev l2) e (rev l1)) as [Hself Hfresh].
  { rewrite rev_app_distr. simpl. by rewrite <- app_assoc. }
  rewrite E in Ht |- *. apply IH; [|done|done]. apply parse_line_spec; [done|done|done|].
  intros e' He'. apply Hfresh. by rewrite <- Permutation_rev.
Qed.

(** Entries that are parsed in order give a valid graph. *)
Lemma parsed_valid l st :
  parsed l st -> Forall (fun e => Forall identifier (mentions e)) l -> topo_log (rev l) ->
  valid_commit_graph (MkCommitGraph (ps_graph st) (ps_prefix st ++ ps_order st)).
Proof.
  intros [P1 P2 P3 P4 P5 P6] Hid Ht. rewrite Forall_forall in Hid. rewrite P1.
  assert (forall l1 e l2, l = l1 ++ e :: l2 -> e.1 ∉ e.2 /\ forall e', e' ∈ l1 -> e.1 ∉ mentions e') as Hlog.
  { intros l1 e l2 ->. destruct (Ht (rev l2) e (rev l1)) as [H1 H2].
    - rewrite rev_app_distr. simpl. by rewrite <- app_assoc.
    - split; [done|]. intros e' He'. apply H2. by rewrite <- Permutation_rev. }
  assert (NoDup l.*1) as Hn.
  { clear -Hlog. induction l as [|e l IH] using rev_ind; [constructor|]. rewrite fmap_app. simpl.
    destruct (Hlog l e []) as [_ Hf]; [done|]. apply NoDup_app. split_and!.
    - apply IH. intros l1 e' l2 ->. apply (Hlog l1 e' (l2 ++ [e])). by rewrite <- app_assoc.
    - intros x (e' & -> & He')%list_elem_of_fmap E%list_elem_of_singleton. apply (Hf e' He').
      rewrite <- E. by left.
    - apply NoDup_singleton. }
  split; simpl.
  - apply NoDup_app. split_and!; [done| |done]. by intros x [? _]%P3.
  - intros [[_ (e & He & Hin)]%P3|(e & E & He)%list_elem_of_fmap]%elem_of_app.
    + specialize (Hid e He). apply Forall_cons in Hid as [_ Hps]. rewrite Forall_forall in Hps.
      by destruct (Hps _ Hin).
    + specialize (Hid e He). apply Forall_cons in Hid as [[Hne _] _]. done.
  - intros c. rewrite elem_of_app. apply P5.
  - intros l1 c l2 E p Hp.
    assert (c ∈ ps_prefix st ++ l.*1) as Hc by (rewrite E; apply elem_of_app; right; by left).
    apply elem_of_app in Hc as [Hc%P4|Hc]; [unfold parents_of in Hp; rewrite Hc in Hp; by apply not_elem_of_nil in Hp|].
    apply list_elem_of_fmap in Hc as ([c' ps] & -> & Hin). pose proof (P2 _ _ Hin) as Hg.
    unfold parents_of in Hp. simpl in *. rewrite Hg in Hp. simpl in Hp.
    apply list_elem_of_split in Hin as (m1 & m2 & El). destruct (Hlog m1 (c', ps) m2 El) as [Hself _].
    assert (l1 = ps_prefix st ++ m1.*1) as ->.
    { apply (NoDup_middle_inj l1 l2 (ps_prefix st ++ m1.*1) m2.*1 c').
      - rewrite <- E, El, fmap_app, <- app_assoc. done.
      - rewrite <- E. apply NoDup_app. split_and!; [done| |done]. by intros x [? _]%P3. }
    apply elem_of_app. destruct (decide (p ∈ l.*1)) as [Hpl|Hpl].
    + right. apply list_elem_of_fmap in Hpl as (e' & -> & He'). rewrite El in He'.
      apply elem_of_app in He' as [?|[->|He']%elem_of_cons]; [by apply list_elem_of_fmap_2|done|].
      apply list_elem_of_split in He' as (q1 & q2 & ->).
      destruct (Hlog (m1 ++ (c', ps) :: q1) e' q2) as [_ Hf]; [rewrite El; by rewrite <- app_assoc|].
      destruct (Hf (c', ps)); [apply elem_of_app; right; by left|by right].
    + left. apply P3. split; [done|]. exists (c', ps). split; [|done]. rewrite El. apply elem_of_app. right. by left.
Qed.

Lemma ParseCommitGraph_spec (entries : list log_entry) (lines : list gostring) :
  omit_blank lines = map render entries ->
  Forall (fun e => Forall identifier (mentions e)) entries -> topo_log entries ->
  let cg := ParseCommitGraph lines in
  valid_commit_graph cg /\
  (forall c ps, (c, ps) ∈ entries -> cg_graph cg !! c = Some ps) /\
  (forall c, c ∈ cg_order cg <-> exists e, e ∈ entries /\ c ∈ mentions e) /\
  (forall c, c ∈ cg_order cg -> c ∉ entries.*1 -> cg_graph cg !! c = Some []).
Proof.
  intros El Hid Ht. unfold ParseCommitGraph. rewrite <- parse_blank, omit_blank_rev, El, <- map_rev.
  assert (Forall (fun e => Forall identifier (mentions e)) (rev entries)) as Hid' by (by rewrite <- Permutation_rev).
  pose proof (parse_lines_spec [] (rev entries) (MkParse ∅ [] [])) as Hp. simpl in Hp.
  rewrite rev_involutive in Hp.
  assert (parsed (rev entries) (fold_left parse_line (map render (rev entries)) (MkParse ∅ [] []))) as Hparsed.
  { apply Hp; [|done|done]. split; simpl; try done; try (by intros ? ? ?%not_elem_of_nil);
      try (by intros ? ?%not_elem_of_nil); try (intros x; rewrite lookup_empty; by intros [? ?]); [|constructor].
    intros x. split; [by intros ?%not_elem_of_nil|]. by intros [_ (e & ?%not_elem_of_nil & _)]. }
  clear Hp. cbv zeta. set (st := fold_left _ _ _) in *. destruct Hparsed as [P1 P2 P3 P4 P5 P6] eqn:Ep.
  split; [by apply (parsed_valid (rev entries)); [|done|rewrite rev_involutive]|]. simpl.
  assert (forall c, c ∈ (rev entries).*1 <-> c ∈ entries.*1) as Hrev.
  { intros c. by rewrite <- Permutation_rev. }
  split_and!.
  - intros c ps Hin. apply P2. by rewrite <- Permutation_rev.
  - intros c. rewrite elem_of_app, P3, P1, Hrev. setoid_rewrite <- Permutation_rev. unfold mentions.
    setoid_rewrite elem_of_cons. split.
    + intros [[_ (e & He & Hin)]|(e & -> & He)%list_elem_of_fmap]; exists e; auto.
    + intros (e & He & [->|Hin]); [right; by apply list_elem_of_fmap_2|].
      destruct (decide (c ∈ entries.*1)); [by right|left]. split; [done|]. by exists e.
  - intros c [Hc|Hc]%elem_of_app Hno; [by apply P4|]. rewrite P1 in Hc. by apply Hrev in Hc.
Qed.

(** on the output of [git log --topo-order] (blank lines allowed), for
    commits named by printable words, [ParseCommitGraph] gives every listed
    commit the parents it was listed with and every commit that is only
    mentioned none, and its order holds exactly these commits, each once and
    after its parents. *)
Theorem ParseCommitGraph_correct (entries : list log_entry) (lines : list gostring) :
  omit_blank lines = map render entries ->
  Forall (fun e => Forall identifier (mentions e)) entries -> topo_log entries ->
  let cg := ParseCommitGraph lines in
  valid_commit_graph cg /\
  (forall c ps, (c, ps) ∈ entries -> cg_graph cg !! c = Some ps) /\
  (forall c, c ∈ cg_order cg <-> exists e, e ∈ entries /\ c ∈ mentions e) /\
  (forall c, c ∈ cg_order cg -> c ∉ entries.*1 -> cg_graph cg !! c = Some []).
Proof. apply ParseCommitGraph_spec. Qed.

Section Theorems.
Context {G : GoRuntime}.

(** C31: on a commit graph in topological order, with distances that fit 32 bits,
    [NewGraph] terminates, and then [UploadsVisibleAtCommit] returns at every
    commit of the graph exactly the nearest uploads: for every token that an
    upload of an ancestor (or of the commit) has, the one upload whose distance
    plus path length is least, ties broken by the smaller identifier.  At a
    commit that is not in the graph it returns none. *)
Theorem UploadsVisibleAtCommit_correct (n : nat) (cg : CommitGraph) (view : CommitGraphView) :
  valid_commit_graph cg -> bounded_view view (length (cg_order cg)) ->
  exists gr cg', NewGraph n cg view = Done (gr, cg') /\
  forall k c,
    exists l, UploadsVisibleAtCommit k gr c = Done l /\
    (c ∈ cg_order cg ->
      (forall u, u ∈ l <-> nearest_upload view (cg_graph cg) c u) /\
      NoDup (map (token view) l) /\
      (forall v, visible view (cg_graph cg) c v -> exists u, u ∈ l /\ token view u = token view v)) /\
    (c ∉ cg_order cg -> l = []).
Proof.
  intros Hv Hb. destruct (NewGraph_spec cg view Hv Hb n) as (r & -> & U & HU & ->).
  do 2 eexists. split; [done|]. intros k c. destruct (decide (c ∈ cg_order cg)) as [Hc|Hc].
  - destruct (UploadsVisible_spec cg view Hv Hb n k U c HU Hc) as (l & -> & Hl). exists l. by split.
  - rewrite (UploadsVisible_unknown cg view Hv n k U c HU Hc). by exists [].
Qed.

(** C32: the envelopes of [Stream] lose nothing: [Gather] terminates, no commit
    gets both visible uploads and a link, and at every commit of the graph the
    uploads stored for it, or those stored for the ancestor that its link names
    with the distance of the link added, are exactly the nearest uploads. *)
Theorem Gather_lossless (n k : nat) (cg : CommitGraph) (view : CommitGraphView) :
  valid_commit_graph cg -> bounded_view view (length (cg_order cg)) ->
  exists gr cg' uploads links, NewGraph n cg view = Done (gr, cg') /\
  Gather k gr = Done (uploads, links) /\
  forall c, c ∈ cg_order cg ->
    (uploads !! c = None \/ links !! c = None) /\
    forall u, u ∈ restore uploads links c <-> nearest_upload view (cg_graph cg) c u.
Proof.
  intros Hv Hb. destruct (NewGraph_spec cg view Hv Hb n) as (r & -> & U & HU & ->).
  destruct (stream_loop_spec cg view Hv Hb n k U [] (sort_Strings (cg_order cg)) ∅ ∅ HU)
    as (es & Hes & Htold).
  - intros c. by rewrite sort_Strings_perm.
  - rewrite app_nil_l, sort_Strings_perm. apply Hv.
  - by intros c ?%not_elem_of_nil.
  - intros c _. by rewrite !lookup_empty.
  - destruct (fold_left gather_envelope es (∅, ∅)) as [uploads links] eqn:E. simpl in Htold.
    do 4 eexists. split; [done|]. split.
    { unfold Gather, Stream. simpl. rewrite Hes. simpl. rewrite E. done. }
    setoid_rewrite sort_Strings_perm in Htold. intros c Hc. split.
    + specialize (Htold c Hc). unfold told in Htold.
      destruct (uploads !! c), (links !! c); [done|by right|by left|by left].
    + apply (restore_spec cg view Hv Hb U uploads links c Hc Htold).
Qed.
End Theorems.

(** ** Witnesses *)
Section Witness.
#[local] Instance runtime : GoRuntime := plain_runtime.

(** A merge [d] of [b] and [c], which are children of [a]; the parent of [a] is
    beyond the end of the log. *)
Definition w_log : list log_entry :=
  [(str "d", [str "b"; str "c"]); (str "c", [str "a"]); (str "b", [str "a"]); (str "a", [str "r"])].
Definition w_lines : list gostring := map render w_log ++ [[]].

#[local] Instance identifier_dec c : Decision (identifier c).
Proof. unfold identifier. apply _. Defined.

Lemma w_identifiers : Forall (fun e => Forall identifier (mentions e)) w_log.
Proof. apply (bool_decide_unpack _). vm_compute. exact I. Qed.

Lemma w_topo : topo_log w_log.
Proof. apply topo_logb_sound. vm_compute. reflexivity. Qed.

Lemma ParseCommitGraph_correct_witness :
  omit_blank w_lines = map render w_log /\ valid_commit_graph (ParseCommitGraph w_lines).
Proof.
  split; [reflexivity|].
  apply (ParseCommitGraph_correct w_log w_lines eq_refl w_identifiers w_topo).
Defined.

(** An upload at [a] and one of the same token at [b]. *)
Definition w_view : CommitGraphView :=
  View_Add (View_Add (View_Add NewCommitGraphView (MkUpload 7 0) (str "a") (str "go"))
    (MkUpload 9 0) (str "b") (str "go")) (MkUpload 8 0) (str "a") (str "ts").

Lemma w_bounded : bounded_view w_view (length (cg_order (ParseCommitGraph w_lines))).
Proof.
  split; [vm_compute; done|].
  assert (map_Forall (fun _ l => Forall (fun u => (0 <= Distance u)%Z /\ (Distance u + 5 < 2 ^ 32)%Z) l)
    (Meta w_view)) as H by (apply (bool_decide_unpack _); vm_compute; exact I).
  intros c u Hu. destruct (Meta w_view !! c) as [l|] eqn:E; [|by apply not_elem_of_nil in Hu].
  specialize (H c l E). rewrite Forall_forall in H. exact (H u Hu).
Qed.

Lemma w_valid : valid_commit_graph (ParseCommitGraph w_lines).
Proof. apply (ParseCommitGraph_spec w_log w_lines eq_refl w_identifiers w_topo). Qed.

Lemma UploadsVisibleAtCommit_correct_witness :
  valid_commit_graph (ParseCommitGraph w_lines) /\
  (let! r := NewGraph 0 (ParseCommitGraph w_lines) w_view in UploadsVisibleAtCommit 0 r.1 (str "d"))%go =
    Done [MkUpload 8 2; MkUpload 9 1] /\
  exists gr cg', NewGraph 0 (ParseCommitGraph w_lines) w_view = Done (gr, cg').
Proof.
  split_and!; [exact w_valid|vm_compute; reflexivity|].
  destruct (UploadsVisibleAtCommit_correct 0 (ParseCommitGraph w_lines) w_view w_valid w_bounded)
    as (gr & cg' & H & _). exists gr, cg'. exact H.
Defined.

Lemma Gather_lossless_witness :
  exists gr cg' uploads links, NewGraph 0 (ParseCommitGraph w_lines) w_view = Done (gr, cg') /\
    Gather 0 gr = Done (uploads, links).
Proof.
  destruct (Gather_lossless 0 0 (ParseCommitGraph w_lines) w_view w_valid w_bounded)
    as (gr & cg' & uploads & links & H1 & H2 & _).
  exists gr, cg', uploads, links. split; [exact H1|exact H2].
Defined.

(** [NewGraph] leaves the caller's commit graph sorted by name, which is no
    topological order: a second graph made from it does not find, at the merge
    [a], the upload of its parent [y]. *)
Definition w_merge : CommitGraph := ParseCommitGraph [str "a y z"; str "y"; str "z"].
Definition w_merge_view : CommitGraphView :=
  View_Add NewCommitGraphView (MkUpload 7 0) (str "y") (str "go").
Theorem NewGraph_twice :
  (let! r := NewGraph 0 w_merge w_merge_view in UploadsVisibleAtCommit 0 r.1 (str "a"))%go =
    Done [MkUpload 7 1] /\
  (let! r := NewGraph 0 w_merge w_merge_view in
   let! r' := NewGraph 0 r.2 w_merge_view in UploadsVisibleAtCommit 0 r'.1 (str "a"))%go = Done [].
Proof. split; vm_compute; reflexivity. Qed.
End Witness.
