(* ===== verification/FilePath.v ===== *)
(** Slash-separated paths: what the sources use of [path/filepath], on a system
    where the separator is a slash.

    [Clean] works on the segments of a path: empty segments and [.] vanish, and
    [..] removes the segment before it, if there is one. *)
From S2P Require Import Prelude GoStr GoLib.

Notation slash := 47%Z (only parsing).

(** ** Operations *)

(** The segments that are kept, the last one first. *)
Definition clean_step (rooted : bool) (out : list gostring) (seg : gostring) : list gostring :=
  if gs_eqb seg [] || gs_eqb seg (str ".") then out
  else if gs_eqb seg (str "..") then
    match out with
    | last :: rest => if gs_eqb last (str "..") then str ".." :: out else rest
    | [] => if rooted then [] else [str ".."]
    end
  else seg :: out.

Definition Clean (path : gostring) : gostring :=
  if gs_eqb path [] then str "."
  else
    let rooted := HasPrefix path (str "/") in
    let out := rev (fold_left (clean_step rooted) (Split path slash) []) in
    let cleaned := (if rooted then str "/" else []) ++ Join out (str "/") in
    if gs_eqb cleaned [] then str "." else cleaned.

(** Leading empty elements are skipped. *)
Fixpoint Path_Join (elem : list gostring) : gostring :=
  match elem with
  | [] => []
  | e :: rest => if gs_eqb e [] then Path_Join rest else Clean (Join elem (str "/"))
  end.

(** The part up to and with the last slash. *)
Fixpoint upto_slash (path : gostring) : gostring :=
  match path with
  | [] => []
  | c :: rest =>
      if existsb (Z.eqb slash) path then c :: upto_slash rest else []
  end.

Definition Dir (path : gostring) : gostring := Clean (upto_slash path).

(** The segments of a clean path; the first one of a rooted path is empty. *)
Definition path_segments (path : gostring) : list gostring :=
  if gs_eqb path [] then [] else if gs_eqb path (str "/") then [[]] else Split path slash.

Fixpoint strip_common (base targ : list gostring) : list gostring * list gostring :=
  match base, targ with
  | b :: base', t :: targ' => if gs_eqb t b then strip_common base' targ' else (base, targ)
  | _, _ => (base, targ)
  end.

(** The error is its message. *)
Definition Rel (basepath targpath : gostring) : result gostring gostring :=
  let base := Clean basepath in
  let targ := Clean targpath in
  let err := Err (str "Rel: can't make " ++ targpath ++ str " relative to " ++ basepath) in
  if gs_eqb targ base then Ok (str ".")
  else
    let base := if gs_eqb base (str ".") then [] else base in
    if negb (Bool.eqb (HasPrefix base (str "/")) (HasPrefix targ (str "/"))) then err
    else
      match strip_common (path_segments base) (path_segments targ) with
      | (b :: rest, t :: down) =>
          if gs_eqb b (str "..") then err
          else Ok (Join (replicate (length (b :: rest)) (str "..") ++ t :: down) (str "/"))
      | (up, down) => Ok (Join (replicate (length up) (str "..") ++ down) (str "/"))
      end.

Example Rel_below : Rel (str "file:///r/") (str "file:///r/a/b.go") = Ok (str "a/b.go").
Proof. reflexivity. Qed.
Example Rel_beside : Rel (str "a/b/c") (str "a/b/d") = Ok (str "../d").
Proof. reflexivity. Qed.
Example Rel_above : Rel (str "a/b") (str "a") = Ok (str "..").
Proof. reflexivity. Qed.
Example Rel_unknown : Rel (str "..") (str "a") = Err (str "Rel: can't make a relative to ..").
Proof. reflexivity. Qed.
Example Rel_root : Rel (str "/") (str "/a/../b") = Ok (str "b").
Proof. reflexivity. Qed.
Example Clean_up : Clean (str "a//./b/../../../c/") = str "../c".
Proof. reflexivity. Qed.

(** ** Clean relative paths *)

(** A name that a file can have. *)
Definition plain_seg (s : gostring) : Prop :=
  s <> [] /\ s <> str "." /\ s <> str ".." /\ Forall (fun c => c <> slash) s.

Definition path_of (segs : list gostring) : gostring := Join segs (str "/").

Lemma path_of_snoc segs s : segs <> [] -> path_of (segs ++ [s]) = path_of segs ++ slash :: s.
Proof. intros H. unfold path_of. by rewrite Join_app. Qed.

Lemma path_of_cons s segs : segs <> [] -> path_of (s :: segs) = s ++ slash :: path_of segs.
Proof. by destruct segs. Qed.

(** What a path is cleaned to: some [..], then names. *)
Definition ups_then (k : nat) (gs : list gostring) : list gostring := replicate k (str "..") ++ gs.

Definition no_slash (s : gostring) : Prop := Forall (fun c => c <> slash) s.

Lemma ups_then_no_slash k gs : Forall plain_seg gs -> Forall no_slash (ups_then k gs).
Proof.
  intros H. apply Forall_app. split; [apply Forall_replicate; by repeat constructor|].
  eapply Forall_impl; [exact H|]. by intros s (_ & _ & _ & ?).
Qed.

Lemma rev_ups k : rev (replicate k (str "..")) = replicate k (str "..").
Proof. rewrite rev_alt. apply (reverse_replicate k (str "..")). Qed.

Lemma clean_step_plain rooted out s : plain_seg s -> clean_step rooted out s = s :: out.
Proof.
  intros (H1 & H2 & H3 & _). unfold clean_step. apply gs_eqb_false in H1, H2, H3. by rewrite H1, H2, H3.
Qed.

Lemma clean_step_up k : clean_step false (replicate k (str "..")) (str "..") = replicate (S k) (str "..").
Proof. destruct k as [|k]; [done|]. simpl. done. Qed.

Lemma fold_clean_ups k j :
  fold_left (clean_step false) (replicate k (str "..")) (replicate j (str "..")) = replicate (k + j) (str "..").
Proof.
  revert j. induction k as [|k IH]; intros j; [done|]. cbn [replicate fold_left]. rewrite clean_step_up, IH.
  f_equal. lia.
Qed.

Lemma fold_clean_plain rooted gs out :
  Forall plain_seg gs -> fold_left (clean_step rooted) gs out = rev gs ++ out.
Proof.
  intros H. revert out. induction H as [|s gs Hs _ IH]; intros out; [done|]. cbn [fold_left rev].
  rewrite clean_step_plain, IH by done. by rewrite <- app_assoc.
Qed.

Lemma fold_clean_shape segs out k gs :
  Forall no_slash segs -> out = rev (ups_then k gs) -> Forall plain_seg gs ->
  exists k' gs', fold_left (clean_step false) segs out = rev (ups_then k' gs') /\ Forall plain_seg gs'.
Proof.
  intros Hs. revert out k gs. induction Hs as [|s segs Hs _ IH]; intros out k gs -> Hg; [by exists k, gs|].
  cbn [fold_left]. unfold clean_step at 2.
  destruct (gs_eqb s []) eqn:E1; simpl; [by eapply IH|]. destruct (gs_eqb s (str ".")) eqn:E2; [by eapply IH|].
  destruct (gs_eqb s (str "..")) eqn:E3.
  - destruct gs as [|g gs _] using rev_ind.
    + destruct k as [|k]; [apply (IH _ 1 []); done|]. apply (IH _ (S (S k)) []); [|done].
      unfold ups_then. by rewrite !app_nil_r, !rev_ups.
    + unfold ups_then. rewrite app_assoc, rev_app_distr. simpl. apply Forall_app in Hg as [Hg Hgs].
      inversion_clear Hgs as [|? ? Hp _]. destruct Hp as (_ & _ & Hp%gs_eqb_false & _). rewrite Hp.
      by apply (IH _ k gs).
  - apply gs_eqb_false in E1, E2, E3. apply (IH _ k (gs ++ [s])).
    + unfold ups_then. by rewrite app_assoc, (rev_app_distr _ [s]).
    + apply Forall_app. split; [done|]. constructor; [|done]. done.
Qed.

Lemma Split_no_sep s sep : Forall (Forall (fun c => c <> sep)) (Split s sep).
Proof.
  induction s as [|c s IH]; simpl; [by repeat constructor|]. destruct (Z.eqb_spec c sep) as [->|Hne].
  - by constructor.
  - destruct (Split s sep) as [|part parts]; [by repeat constructor|]. inversion_clear IH. by repeat constructor.
Qed.

Lemma first_seg k gs : Forall plain_seg gs -> ups_then k gs <> [] ->
  exists c s segs, ups_then k gs = (c :: s) :: segs /\ c <> slash.
Proof.
  intros Hg Hne. destruct k as [|k]; [|by eexists _, _, _].
  destruct gs as [|g gs]; [done|]. inversion_clear Hg as [|? ? (H1 & _ & _ & H4) _].
  destruct g as [|c s]; [done|]. exists c, s, gs. split; [done|]. by inversion H4.
Qed.

(** A path of names is clean, also with a slash at its end. *)
Lemma Clean_path k gs tail : Forall plain_seg gs -> ups_then k gs <> [] -> tail = [] \/ tail = [slash] ->
  Clean (path_of (ups_then k gs) ++ tail) = path_of (ups_then k gs).
Proof.
  intros Hg Hne Ht. destruct (first_seg k gs Hg Hne) as (c & s & segs & E & Hc).
  assert (exists t, path_of (ups_then k gs) = c :: t) as [t Et].
  { rewrite E. destruct segs; by eexists. }
  assert (exists e, Split (path_of (ups_then k gs) ++ tail) slash = ups_then k gs ++ e /\ (e = [] \/ e = [[]])) as (e & Es & He).
  { pose proof (ups_then_no_slash k gs Hg) as Hn. destruct Ht as [->| ->].
    - exists []. rewrite !app_nil_r. split; [|by left]. by apply Split_Join.
    - exists [[]]. split; [|by right]. rewrite <- (Split_Join (ups_then k gs ++ [[]]) slash).
      + unfold path_of. by rewrite Join_app.
      + by destruct (ups_then k gs).
      + apply Forall_app. split; [done|]. by repeat constructor. }
  unfold Clean. rewrite Es. rewrite Et. cbn [app]. unfold gs_eqb at 1. rewrite bool_decide_false by done.
  assert (HasPrefix (c :: t ++ tail) (str "/") = false) as ->.
  { change (str "/") with [slash]. cbn [HasPrefix]. destruct (Z.eqb_spec slash c) as [<-|]; done. }
  assert (fold_left (clean_step false) (ups_then k gs ++ e) [] = rev (ups_then k gs)) as ->.
  { rewrite fold_left_app.
    assert (fold_left (clean_step false) (ups_then k gs) [] = rev (ups_then k gs)) as ->.
    { unfold ups_then. rewrite fold_left_app. change (@nil gostring) with (replicate 0 (str "..")).
      rewrite fold_clean_ups, fold_clean_plain by done. by rewrite Nat.add_0_r, rev_app_distr, rev_ups. }
    by destruct He as [->| ->]. }
  rewrite rev_involutive. cbn [app]. change (Join (ups_then k gs) (str "/")) with (path_of (ups_then k gs)).
  rewrite Et. by unfold gs_eqb; rewrite bool_decide_false.
Qed.

Lemma Clean_shape path : HasPrefix path (str "/") = false ->
  Clean path = str "." \/
  exists k gs, Forall plain_seg gs /\ ups_then k gs <> [] /\ Clean path = path_of (ups_then k gs).
Proof.
  intros Hr. unfold Clean. destruct (gs_eqb path []); [by left|]. rewrite Hr.
  destruct (fold_clean_shape (Split path slash) [] 0 []) as (k & gs & -> & Hg); [apply Split_no_sep|done|done|].
  rewrite rev_involutive. cbn [app]. change (Join (ups_then k gs) (str "/")) with (path_of (ups_then k gs)).
  destruct (gs_eqb _ []) eqn:E; [by left|]. right. exists k, gs. split_and!; [done| |done].
  intros E'. rewrite E' in E. done.
Qed.

Lemma Path_Join_name segs name : Forall plain_seg segs -> plain_seg name ->
  Path_Join [path_of segs; name] = path_of (segs ++ [name]).
Proof.
  intros Hs Hn. assert (Forall plain_seg (segs ++ [name])) as Ha by (apply Forall_app; split; [done|by constructor]).
  pose proof (Clean_path 0 (segs ++ [name]) [] Ha) as Hc. unfold ups_then in Hc. simpl in Hc.
  rewrite app_nil_r in Hc. specialize (Hc ltac:(by destruct segs) ltac:(by left)).
  destruct segs as [|s segs].
  - cbn. assert (gs_eqb name [] = false) as -> by (apply gs_eqb_false; apply Hn). exact Hc.
  - cbn [Path_Join]. destruct (gs_eqb (path_of (s :: segs)) []) eqn:E.
    { exfalso. apply gs_eqb_eq in E. inversion_clear Hs as [|? ? (Hne & _) _].
      destruct s as [|c s]; [done|]. by destruct segs. }
    rewrite path_of_snoc in Hc |- * by done. exact Hc.
Qed.

Lemma upto_slash_none s : no_slash s -> upto_slash s = [].
Proof.
  intros Hs. destruct s as [|c s]; [done|]. cbn [upto_slash].
  destruct (existsb (Z.eqb slash) (c :: s)) eqn:E; [|done].
  apply existsb_exists in E as (d & Hd%list_elem_of_In & E%Z.eqb_eq). unfold no_slash in Hs.
  rewrite Forall_forall in Hs. by destruct (Hs d Hd).
Qed.

Lemma upto_slash_app p s : no_slash s -> upto_slash (p ++ slash :: s) = p ++ [slash].
Proof.
  intros Hs. induction p as [|c p IH]; cbn [app upto_slash].
  - by rewrite upto_slash_none.
  - rewrite IH. assert (existsb (Z.eqb slash) (c :: p ++ slash :: s) = true) as ->; [|done].
    apply existsb_exists. exists slash. split; [|done]. apply list_elem_of_In. set_solver.
Qed.

Lemma Dir_path k gs s : no_slash s -> Forall plain_seg gs ->
  Dir (path_of (ups_then k gs ++ [s])) = match ups_then k gs with [] => str "." | _ => path_of (ups_then k gs) end.
Proof.
  intros Hs Hg. unfold Dir. destruct (decide (ups_then k gs = [])) as [E|E].
  - rewrite E. cbn. by rewrite upto_slash_none.
  - rewrite path_of_snoc, upto_slash_app by done. rewrite (Clean_path k gs [slash]) by auto.
    by destruct (ups_then k gs).
Qed.

#[global] Arguments Clean : simpl never.
#[global] Arguments Path_Join : simpl never.
#[global] Arguments path_of : simpl never.
