(* ===== verification/PathExistence.v ===== *)
(** Which paths of a dump exist in the git tree: the package
    [lib/codeintel/pathexistence].

    [GetChildrenFunc] is an argument, a function from the names of directories to
    their children or an error; contexts are left out.  [GitGetChildren] is such a
    function, made from one that runs git. *)
From S2P Require Import Prelude GoStr GoLib GoMap FilePath.

Section PathExistence.
Context {G : GoRuntime}.

(** ** [paths.go] and [dirtree.go] *)

Definition dirWithoutDot (path : gostring) : gostring :=
  let dir := Dir path in
  if negb (gs_eqb dir (str ".")) then dir else [].

Inductive DirTreeNode := MkNode (Name : gostring) (Children : list DirTreeNode).
Definition Name (n : DirTreeNode) : gostring := let 'MkNode name _ := n in name.
Definition Children (n : DirTreeNode) : list DirTreeNode := let 'MkNode _ children := n in children.

(** The loop over the children: the first one with the name is replaced,
    otherwise a new one is added. *)
Fixpoint insert_child (name : gostring) (insert : DirTreeNode -> DirTreeNode)
    (children : list DirTreeNode) : list DirTreeNode :=
  match children with
  | [] => [insert (MkNode name [])]
  | c :: rest => if gs_eqb (Name c) name then insert c :: rest else c :: insert_child name insert rest
  end.

Fixpoint insertPathSegmentsIntoNode (n : DirTreeNode) (pathSegments : list gostring) : DirTreeNode :=
  match pathSegments with
  | [] => n
  | name :: rest =>
      MkNode (Name n) (insert_child name (fun c => insertPathSegmentsIntoNode c rest) (Children n))
  end.

Definition directorySet (root : gostring) (paths : list gostring) : gmap gostring unit :=
  fold_left (fun set path =>
      let dir := dirWithoutDot (Path_Join [root; path]) in
      if negb (HasPrefix dir (str "..")) then <[dir := tt]> set else set)
    paths ∅.

Definition makeTree (n : nat) (root : gostring) (paths : list gostring) : DirTreeNode :=
  fold_left (fun tree entry => insertPathSegmentsIntoNode tree (Split entry.1 slash))
    (map_range n (directorySet root paths)) (MkNode [] []).

(** ** [directory_contents.go] *)

Abbreviation StringSet := (gset gostring).
Abbreviation RequestBatch := (gmap gostring (list DirTreeNode)).

Definition makeInitialRequestBatch (n : nat) (root : gostring) (paths : list gostring) : RequestBatch :=
  let node := makeTree n root paths in
  if negb (gs_eqb root []) then {[ [] := Children node ]} else {[ [] := [node] ]}.

Definition dirnames (n : nat) (batch : RequestBatch) : list gostring :=
  sort_Strings (concat (map (fun entry => map (fun node => Path_Join [entry.1; Name node]) entry.2) (map_range n batch))).

Definition next_node (contents : gmap gostring StringSet) (nodeGroupPath : gostring) (nextBatch : RequestBatch)
    (node : DirTreeNode) : RequestBatch :=
  let newNodeGroupPath := Path_Join [nodeGroupPath; Name node] in
  if Nat.ltb 0 (length (Children node)) && Nat.ltb 0 (size (default ∅ (contents !! newNodeGroupPath)))
  then <[newNodeGroupPath := Children node]> nextBatch else nextBatch.

Definition next_batch (n : nat) (batch : RequestBatch) (contents : gmap gostring StringSet) : RequestBatch :=
  fold_left (fun nextBatch entry => fold_left (next_node contents entry.1) entry.2 nextBatch) (map_range n batch) ∅.

Definition store_children (n : nat) (contents : gmap gostring StringSet)
    (batchResults : gmap gostring (list gostring)) : gmap gostring StringSet :=
  fold_left (fun contents entry =>
      if Nat.ltb 0 (length entry.2) then <[entry.1 := list_to_set entry.2]> contents else contents)
    (map_range n batchResults) contents.

Section Contents.
Context {E : Type} (getChildren : list gostring -> result E (gmap gostring (list gostring))).

Fixpoint contents_loop (fuel n : nat) (batch : RequestBatch) (contents : gmap gostring StringSet)
    : run (result E (gmap gostring StringSet)) :=
  match fuel with
  | O => OutOfFuel
  | S fuel =>
      if Nat.ltb 0 (size batch) then
        match getChildren (dirnames n batch) with
        | Err err => Done (Err err)
        | Ok batchResults =>
            let contents := store_children n contents batchResults in
            contents_loop fuel n (next_batch n batch contents) contents
        end
      else Done (Ok contents)
  end.

(** A batch holds directories of one level of the tree, so the height of the
    tree bounds the number of batches. *)
Fixpoint height (node : DirTreeNode) : nat :=
  let 'MkNode _ children := node in S (fold_right (fun c h => Nat.max (height c) h) 0 children).

Definition directoryContents (n : nat) (root : gostring) (paths : list gostring)
    : run (result E (gmap gostring StringSet)) :=
  contents_loop (S (S (height (makeTree n root paths)))) n (makeInitialRequestBatch n root paths) ∅.
End Contents.

(** ** [existence_checker.go] *)

Record ExistenceChecker := MkChecker { ec_root : gostring; ec_directoryContents : gmap gostring StringSet }.

Definition NewExistenceChecker {E} (n : nat) (root : gostring) (paths : list gostring)
    (getChildren : list gostring -> result E (gmap gostring (list gostring))) : run (result E ExistenceChecker) :=
  let! r := directoryContents getChildren n root paths in
  match r with
  | Err err => Done (Err err)
  | Ok contents => Done (Ok (MkChecker root contents))
  end.

Definition path_Exists (ec : ExistenceChecker) (path : gostring) : bool :=
  let path := Path_Join [ec_root ec; path] in
  match ec_directoryContents ec !! dirWithoutDot path with
  | Some children => bool_decide (path ∈ children)
  | None => false
  end.

(** ** [git.go] *)

Definition cleanDirectoriesForLsTree (dirnames : list gostring) : list gostring :=
  map (fun dir =>
      if gs_eqb dir [] then str "."
      else if negb (HasSuffix dir (str "/")) then dir ++ str "/" else dir)
    dirnames.

(** A path goes to the first directory that is a prefix of it. *)
Definition assign_path (dirnames : list gostring) (childrenMap : gmap gostring (list gostring)) (path : gostring)
    : gmap gostring (list gostring) :=
  let append dirname := <[dirname := default [] (childrenMap !! dirname) ++ [path]]> childrenMap in
  if GoLib.Contains path (str "/") then
    match find (HasPrefix path) dirnames with
    | Some dirname => append dirname
    | None => childrenMap
    end
  else
    match last dirnames with
    | Some dirname => if gs_eqb dirname [] then append [] else childrenMap
    | None => childrenMap
    end.

Definition parseDirectoryChildren (dirnames paths : list gostring) : gmap gostring (list gostring) :=
  let childrenMap := fold_left (fun m dirname => <[dirname := []]> m) dirnames ∅ in
  let dirnames := sort_slice (fun a b => Nat.ltb (length b) (length a)) dirnames in
  fold_left (assign_path dirnames) paths childrenMap.

Definition GitGetChildren (gitFunc : list gostring -> result gostring gostring) (commit : gostring)
    (dirnames : list gostring) : result gostring (gmap gostring (list gostring)) :=
  match gitFunc ([str "ls-tree"; str "--name-only"; commit; str "--"] ++ cleanDirectoriesForLsTree dirnames) with
  | Err err => Err (str "Running ls-tree: " ++ err)
  | Ok out => Ok (parseDirectoryChildren dirnames (Split out 10))
  end.
End PathExistence.
