(* ===== verification/PathContents.v ===== *)
(** The batches of requests: [directoryContents] asks for every directory of the
    tree whose ancestors are not empty, level by level. *)
From S2P Require Import Prelude GoStr GoLib GoMap FilePath PathExistence.

(** The tree of the directories of a list of paths: [makeTree]. *)

Section Tree.
Context {G : GoRuntime}.
Implicit Types (n c : DirTreeNode) (segs rest q : list gostring).

(** ** Paths of a tree *)

(** [at_node t segs c]: the directory [segs] of [t] is [c]. *)
Inductive at_node (t : DirTreeNode) : list gostring -> DirTreeNode -> Prop :=
| at_root : at_node t [] t
| at_child segs c c' : at_node t segs c -> c' ∈ Children c -> at_node t (segs ++ [Name c']) c'.

Fixpoint has_path (n : DirTreeNode) (segs : list gostring) : Prop :=
  match segs with
  | [] => True
  | s :: rest => exists c, c ∈ Children n /\ Name c = s /\ has_path c rest
  end.

Lemma at_child_front t c segs d : c ∈ Children t -> at_node c segs d -> at_node t (Name c :: segs) d.
Proof.
  intros Hc. induction 1 as [|segs d d' _ IH Hd].
  - apply (at_child t [] t c); [constructor|done].
  - by apply (at_child t (Name c :: segs) d d').
Qed.

Lemma at_node_has_path t segs : has_path t segs <-> exists c, at_node t segs c.
Proof.
  split.
  - revert t. induction segs as [|s segs IH]; intros t; [intros _; exists t; constructor|].
    intros (c & Hc & <- & (d & Hd)%IH). exists d. by apply at_child_front.
  - intros (c & H). assert (forall rest, has_path c rest -> has_path t (segs ++ rest)) as Hx.
    { induction H as [|segs c c' _ IH Hc]; [done|]. intros rest Hr. rewrite <- app_assoc. apply IH. by exists c'. }
    rewrite <- (app_nil_r segs). by apply Hx.
Qed.

Lemma prefix_snoc_cases {A} (q segs : list A) x : q `prefix_of` segs ++ [x] -> q = segs ++ [x] \/ q `prefix_of` segs.
Proof.
  intros [k E]. destruct k as [|y k _] using rev_ind; [left; by rewrite app_nil_r in E|right].
  rewrite app_assoc in E. apply app_inj_tail in E as [-> _]. by exists k.
Qed.

Lemma at_node_prefix t segs c q : at_node t segs c -> q `prefix_of` segs -> exists d, at_node t q d.
Proof.
  intros H. induction H as [|segs c c' H IH Hc].
  - intros ->%prefix_nil_inv. exists t. constructor.
  - intros Hq. destruct (prefix_snoc_cases _ _ _ Hq) as [->|?]; [|by apply IH]. exists c'. by econstructor.
Qed.

(** ** Names of siblings differ *)

Inductive wf_node : DirTreeNode -> Prop :=
| wf_intro name cs : NoDup (Name <$> cs) -> Forall wf_node cs -> wf_node (MkNode name cs).

Lemma wf_node_inv n : wf_node n -> NoDup (Name <$> Children n) /\ Forall wf_node (Children n).
Proof. by destruct 1. Qed.

Lemma at_node_wf t segs c : wf_node t -> at_node t segs c -> wf_node c.
Proof.
  intros Ht. induction 1 as [|segs c c' _ IH Hc]; [done|]. apply wf_node_inv in IH as [_ IH].
  rewrite Forall_forall in IH. by apply IH.
Qed.

Lemma unique_name n c c' : wf_node n -> c ∈ Children n -> c' ∈ Children n -> Name c = Name c' -> c = c'.
Proof.
  intros [Hn _]%wf_node_inv [i Hi]%list_elem_of_lookup [j Hj]%list_elem_of_lookup E.
  assert (i = j) as ->; [|congruence].
  apply (NoDup_lookup _ i j (Name c) Hn); rewrite list_lookup_fmap; [by rewrite Hi|by rewrite Hj, E].
Qed.

Lemma at_node_fun t segs c c' : wf_node t -> at_node t segs c -> at_node t segs c' -> c = c'.
Proof.
  intros Ht H. revert c'. induction H as [|segs c d H IH Hd]; intros c'.
  - intros H. inversion H as [|segs d e _ _ E]; [done|]. by destruct segs.
  - intros H'. inversion H' as [E|segs' e e' He He' E]; [by destruct segs|]. subst e'.
    apply app_inj_tail in E as [-> E]. apply IH in He as ->.
    apply (unique_name e); [by eapply at_node_wf|done..].
Qed.

(** ** Insertion *)

Lemma Name_insert n segs : Name (insertPathSegmentsIntoNode n segs) = Name n.
Proof. by destruct segs. Qed.

Lemma insert_child_path name (f : DirTreeNode -> DirTreeNode) cs rest s q :
  (forall c, Name (f c) = Name c) ->
  (forall c q, has_path (f c) q <-> has_path c q \/ q `prefix_of` rest) ->
  (exists c, c ∈ insert_child name f cs /\ Name c = s /\ has_path c q) <->
  (exists c, c ∈ cs /\ Name c = s /\ has_path c q) \/ (s = name /\ q `prefix_of` rest).
Proof.
  intros Hn Hf. induction cs as [|c cs IH]; cbn [insert_child].
  - split.
    + intros (c & ->%list_elem_of_singleton & <- & Hq). rewrite Hn. apply Hf in Hq as [Hq|Hq]; [|by right].
      destruct q as [|x q]; [right; split; [done|apply prefix_nil]|]. by destruct Hq as (? & ?%not_elem_of_nil & _).
    + intros [(c & ?%not_elem_of_nil & _)|[-> Hq]]; [done|]. exists (f (MkNode name [])).
      split_and!; [by apply list_elem_of_singleton|by rewrite Hn|]. apply Hf. by right.
  - destruct (gs_eqb (Name c) name) eqn:E.
    + apply gs_eqb_eq in E. setoid_rewrite elem_of_cons. split.
      * intros (d & [->|Hd] & <- & Hq); [|left; exists d; auto]. rewrite Hn. apply Hf in Hq as [Hq|Hq]; [|by right].
        left. exists c. auto.
      * intros [(d & [->|Hd] & <- & Hq)|[-> Hq]]; [|by exists d; auto|].
        -- exists (f c). split_and!; [by left|done|]. apply Hf. by left.
        -- exists (f c). split_and!; [by left|by rewrite Hn|]. apply Hf. by right.
    + setoid_rewrite elem_of_cons. split.
      * intros (d & [->|Hd] & Hs & Hq); [left; exists c; auto|].
        destruct (proj1 IH) as [(e & He & ?)|?]; [by exists d|left; exists e; auto|by right].
      * intros [(d & [->|Hd] & Hs & Hq)|H]; [exists c; auto|..].
        -- destruct (proj2 IH) as (e & He & ?); [left; by exists d|]. exists e. auto.
        -- destruct (proj2 IH) as (e & He & ?); [by right|]. exists e. auto.
Qed.

Lemma insert_path n segs q :
  has_path (insertPathSegmentsIntoNode n segs) q <-> has_path n q \/ q `prefix_of` segs.
Proof.
  revert n q. induction segs as [|name rest IH]; intros n q; cbn [insertPathSegmentsIntoNode].
  - split; [by left|]. intros [?| ->%prefix_nil_inv]; done.
  - destruct q as [|s q]; [split; [by left|done]|]. cbn [has_path Children].
    rewrite (insert_child_path name _ (Children n) rest s q); [|by intros; apply Name_insert|by intros; apply IH].
    split; (intros [?|H]; [by left|right]).
    + destruct H as [-> H]. by apply prefix_cons.
    + split; [by apply prefix_cons_inv_1 in H|by apply prefix_cons_inv_2 in H].
Qed.

Lemma insert_child_names name (f : DirTreeNode -> DirTreeNode) cs x :
  (forall c, Name (f c) = Name c) -> x ∈ Name <$> insert_child name f cs <-> x ∈ Name <$> cs \/ x = name.
Proof.
  intros Hn. induction cs as [|c cs IH]; csimpl; [rewrite Hn; set_solver|].
  destruct (gs_eqb (Name c) name) eqn:E; csimpl; rewrite !elem_of_cons.
  - apply gs_eqb_eq in E. rewrite Hn. naive_solver.
  - rewrite IH. tauto.
Qed.

Lemma insert_child_wf name (f : DirTreeNode -> DirTreeNode) cs :
  (forall c, Name (f c) = Name c) -> (forall c, wf_node c -> wf_node (f c)) ->
  NoDup (Name <$> cs) -> Forall wf_node cs ->
  NoDup (Name <$> insert_child name f cs) /\ Forall wf_node (insert_child name f cs).
Proof.
  intros Hn Hf. induction cs as [|c cs IH]; csimpl; intros Hd Hw.
  - split; [apply NoDup_singleton|]. constructor; [|done]. apply Hf. by constructor; [constructor|].
  - apply NoDup_cons in Hd as [Hc Hd]. apply Forall_cons in Hw as [Hwc Hw].
    destruct (gs_eqb (Name c) name) eqn:E; csimpl.
    + rewrite Hn. split; [by constructor|]. constructor; auto.
    + destruct (IH Hd Hw) as [H1 H2]. split; [|by constructor]. constructor; [|done].
      rewrite insert_child_names by done. apply gs_eqb_false in E. tauto.
Qed.

Lemma insert_wf n segs : wf_node n -> wf_node (insertPathSegmentsIntoNode n segs).
Proof.
  revert n. induction segs as [|name rest IH]; intros n Hw; [done|]. cbn [insertPathSegmentsIntoNode].
  apply wf_node_inv in Hw as [Hd Hw].
  destruct (insert_child_wf name (fun c => insertPathSegmentsIntoNode c rest) (Children n)) as [H1 H2]; auto.
  - intros c. apply Name_insert.
  - by constructor.
Qed.

(** ** The tree of a list of paths *)

Lemma directorySet_spec root paths d :
  is_Some (directorySet root paths !! d) <->
  exists p, p ∈ paths /\ d = dirWithoutDot (Path_Join [root; p]) /\ HasPrefix d (str "..") = false.
Proof.
  unfold directorySet. assert (forall l m, is_Some (fold_left (fun (set : gmap gostring unit) path =>
      let dir := dirWithoutDot (Path_Join [root; path]) in
      if negb (HasPrefix dir (str "..")) then <[dir := tt]> set else set) l m !! d) <->
    is_Some (m !! d) \/ exists p, p ∈ l /\ d = dirWithoutDot (Path_Join [root; p]) /\ HasPrefix d (str "..") = false) as H.
  { induction l as [|p l IH]; intros m; cbn [fold_left]; [set_solver|]. rewrite IH. clear IH.
    setoid_rewrite elem_of_cons. cbv zeta.
    destruct (HasPrefix (dirWithoutDot (Path_Join [root; p])) (str "..")) eqn:E; cbn [negb].
    - split; [intros [?|(q & ? & ?)]; [by left|right; exists q; auto]|].
      intros [?|(q & [->|?] & -> & ?)]; [by left|congruence|right; exists q; auto].
    - rewrite lookup_insert_is_Some'. split.
      + intros [[<-|?]|(q & ? & ?)]; [right; exists p; auto|by left|right; exists q; auto].
      + intros [?|(q & [->|?] & -> & ?)]; [by left; right|by left; left|right; exists q; auto]. }
  rewrite H, lookup_empty. split; [|by right]. by intros [[? ?]|?].
Qed.

Lemma makeTree_spec k root paths :
  wf_node (makeTree k root paths) /\
  forall q, has_path (makeTree k root paths) q <-> q = [] \/
    exists d, is_Some (directorySet root paths !! d) /\ q `prefix_of` Split d slash.
Proof.
  unfold makeTree. set (step := fun (tree : DirTreeNode) (entry : gostring * unit) => _).
  assert (forall l t, wf_node t -> wf_node (fold_left step l t) /\
    forall q, has_path (fold_left step l t) q <-> has_path t q \/ exists e, e ∈ l /\ q `prefix_of` Split e.1 slash) as H.
  { induction l as [|e l IH]; intros t Ht; simpl; [set_solver|].
    destruct (IH (step t e)) as [H1 H2]; [by apply insert_wf|]. split; [done|]. intros q. rewrite H2.
    unfold step. rewrite insert_path. setoid_rewrite elem_of_cons. naive_solver. }
  destruct (H (map_range k (directorySet root paths)) (MkNode [] [])) as [H1 H2]; [by constructor; [constructor|]|].
  split; [done|]. intros q. rewrite H2. clear H H1 H2.
  assert (has_path (MkNode [] []) q <-> q = []) as ->.
  { destruct q; [done|]. split; [|done]. by intros (c & ?%not_elem_of_nil & _). }
  assert ((exists e, e ∈ map_range k (directorySet root paths) /\ q `prefix_of` Split e.1 slash) <->
    exists d, is_Some (directorySet root paths !! d) /\ q `prefix_of` Split d slash) as ->; [|done].
  setoid_rewrite <- (elem_of_map_range_keys k). setoid_rewrite list_elem_of_fmap. naive_solver.
Qed.
End Tree.

Section Contents.
Context {G : GoRuntime} {E : Type} (getChildren : list gostring -> result E (gmap gostring (list gostring))).

(** ** Answers *)

(** The directories of one request are on one level; the root may be with them. *)
Definition one_level (ds : list gostring) : Prop :=
  exists k, forall d, d ∈ ds -> d = [] \/ exists segs, Forall plain_seg segs /\ length segs = S k /\ d = path_of segs.

Context (A : gostring -> list gostring).

(** The directories on the way to [segs] are not empty. *)
Definition live (segs : list gostring) : Prop :=
  forall p, p <> [] -> p `prefix_of` segs -> A (path_of p) <> [].

(** Moreover, only directories are asked for whose parents are not empty. *)
Definition requestable (ds : list gostring) : Prop :=
  one_level ds /\ forall d, d ∈ ds -> d = [] \/ exists segs s, Forall plain_seg (segs ++ [s]) /\ live segs /\ d = path_of (segs ++ [s]).

(** [A] is what the answers say, for all such requests; of others nothing is
    known, an error for example. *)
Definition answers : Prop :=
  forall ds, requestable ds -> exists res, getChildren ds = Ok res /\
    (forall d, d ∈ ds -> exists l, res !! d = Some l /\ forall x, x ∈ l <-> x ∈ A d) /\
    (forall d, d ∉ ds -> default [] (res !! d) = []).

Context (HA : answers).

Lemma store_children_spec (n : nat) (contents : gmap gostring (gset gostring)) (ds : list gostring) (res : gmap gostring (list gostring)) :
  (forall d, d ∈ ds -> exists l, res !! d = Some l /\ forall x, x ∈ l <-> x ∈ A d) ->
  (forall d, d ∉ ds -> default [] (res !! d) = []) ->
  forall d v, store_children n contents res !! d = Some v <->
    if decide (d ∈ ds /\ A d <> []) then v = list_to_set (A d) else contents !! d = Some v.
Proof.
  intros H1 H2 d v. unfold store_children.
  rewrite (fold_insert_spec (fun e : gostring * list gostring => Nat.ltb 0 (length e.2)) fst (fun e => list_to_set e.2)).
  2: { intros [k l] [k' l'] Hx%elem_of_map_range Hy%elem_of_map_range _ _ Hk. simpl in *. subst.
       rewrite Hx in Hy. by injection Hy as ->. }
  destruct (decide (d ∈ ds /\ A d <> [])) as [[Hd Hne]|Hno].
  - destruct (H1 d Hd) as (l & Hl & Hx). assert (0 < length l) as Hlen.
    { destruct (A d) as [|a r]; [done|]. destruct l; [|simpl; lia]. exfalso.
      by apply (not_elem_of_nil a), Hx; left. }
    assert (@list_to_set _ (gset gostring) _ _ _ l = list_to_set (A d)) as El.
    { apply set_eq. intros x. by rewrite !elem_of_list_to_set. }
    split.
    + intros [([k l'] & Hk%elem_of_map_range & _ & <- & <-)|[Hn _]].
      * simpl in *. rewrite Hl in Hk. by injection Hk as <-.
      * exfalso. apply (Hn (d, l)); [by apply elem_of_map_range|by apply Nat.ltb_lt|done].
    + intros ->. left. exists (d, l). split_and!; [by apply elem_of_map_range|by apply Nat.ltb_lt|done|done].
  - assert (default [] (res !! d) = []) as Hd.
    { destruct (decide (d ∈ ds)) as [Hd|?]; [|by apply H2]. destruct (H1 d Hd) as (l & -> & Hx). simpl.
      destruct l as [|a l]; [done|]. exfalso. apply Hno. split; [done|]. intros Ea.
      apply (not_elem_of_nil (A := gostring) a). rewrite <- Ea. apply Hx. by left. }
    split.
    + intros [([k l'] & Hk%elem_of_map_range & Hlt%Nat.ltb_lt & <- & _)|[_ ?]]; [|done]. simpl in *.
      rewrite Hk in Hd. simpl in Hd. subst. simpl in Hlt. lia.
    + intros Hv. right. split; [|done]. intros [k l] Hk%elem_of_map_range Hlt%Nat.ltb_lt <-. simpl in *.
      rewrite Hk in Hd. simpl in Hd. subst. simpl in Hlt. lia.
Qed.

(** ** Levels of the tree *)
Context (t : DirTreeNode) (Hwf : wf_node t).
Context (plain_tree : forall segs c, at_node t segs c -> Forall plain_seg segs \/ (segs = [[]] /\ Children c = [])).
Context (first : gostring -> Prop).

Definition group (k : nat) (key : gostring) (nodes : list DirTreeNode) : Prop :=
  exists segs c, at_node t segs c /\ length segs = k /\ live segs /\ key = path_of segs /\ nodes = Children c /\
    (k = 0 \/ nodes <> []).

Definition level (k : nat) (batch : gmap gostring (list DirTreeNode)) : Prop :=
  forall key nodes, batch !! key = Some nodes <-> group k key nodes.

(** The directories that level [k] asks for. *)
Definition asked (k : nat) (d : gostring) : Prop :=
  exists segs c, at_node t (segs ++ [Name c]) c /\ length segs = k /\ live segs /\ d = path_of (segs ++ [Name c]).

Definition seen (k : nat) (d : gostring) : Prop := first d \/ exists j, j < k /\ asked j d.

Definition stored (k : nat) (contents : gmap gostring (gset gostring)) : Prop :=
  forall d v, contents !! d = Some v <-> A d <> [] /\ v = list_to_set (A d) /\ seen k d.

Lemma at_node_snoc segs s c : at_node t (segs ++ [s]) c -> s = Name c /\ exists p, at_node t segs p /\ c ∈ Children p.
Proof.
  intros H. inversion H as [E0|segs' p c' Hp Hc E0]; [by destruct segs|]. subst c'.
  apply app_inj_tail in E0 as [-> ->]. split; [done|]. by exists p.
Qed.

Lemma join_at segs c : at_node t (segs ++ [Name c]) c -> Path_Join [path_of segs; Name c] = path_of (segs ++ [Name c]).
Proof.
  intros H. destruct (plain_tree _ _ H) as [Hp|[E1 _]].
  - apply Forall_app in Hp as [Hp Hc]. apply Path_Join_name; [done|]. by inversion Hc.
  - destruct segs as [|s segs]; [|by destruct segs]. injection E1 as ->. reflexivity.
Qed.

Lemma path_of_inj segs segs' : Forall plain_seg segs -> Forall plain_seg segs' -> length segs = length segs' ->
  path_of segs = path_of segs' -> segs = segs'.
Proof.
  intros H H' Hl Hp. destruct segs as [|s segs]; [by destruct segs'|]. destruct segs' as [|s' segs']; [done|].
  rewrite <- (Split_Join (s :: segs) slash), <- (Split_Join (s' :: segs') slash); [|done| |done|].
  - change (Split (path_of (s :: segs)) slash = Split (path_of (s' :: segs')) slash). by rewrite Hp.
  - eapply Forall_impl; [exact H'|]. by intros x (_ & _ & _ & ?).
  - eapply Forall_impl; [exact H|]. by intros x (_ & _ & _ & ?).
Qed.

Lemma level_node k batch key nodes node :
  level k batch -> batch !! key = Some nodes -> node ∈ nodes ->
  exists segs, at_node t (segs ++ [Name node]) node /\ length segs = k /\ live segs /\ key = path_of segs /\
    Path_Join [key; Name node] = path_of (segs ++ [Name node]).
Proof.
  intros Hl (segs & c & Ha & Hk & Hv & -> & -> & _)%Hl Hn.
  assert (at_node t (segs ++ [Name node]) node) as Hat by (by econstructor).
  exists segs. split_and!; [done..|]. by apply join_at.
Qed.

Lemma asked_node k batch segs c :
  level k batch -> at_node t (segs ++ [Name c]) c -> length segs = k -> live segs ->
  exists nodes, batch !! path_of segs = Some nodes /\ c ∈ nodes.
Proof.
  intros Hl Hat Hk Hv. destruct (at_node_snoc _ _ _ Hat) as (_ & p & Hp & Hc). exists (Children p). split; [|done].
  apply Hl. exists segs, p. split_and!; [done..|]. right. intros E0. rewrite E0 in Hc. by apply not_elem_of_nil in Hc.
Qed.

Lemma elem_of_dirnames k n batch d : level k batch -> d ∈ dirnames n batch <-> asked k d.
Proof.
  intros Hl. unfold dirnames. rewrite sort_Strings_perm, list_elem_of_In, in_concat. split.
  - intros (ds & ([key nodes] & <- & Hin)%in_map_iff & Hd%list_elem_of_In). apply list_elem_of_In, elem_of_map_range in Hin.
    apply list_elem_of_fmap in Hd as (node & -> & Hn). simpl in *.
    destruct (level_node _ _ _ _ _ Hl Hin Hn) as (segs & Hat & Hk & Hv & -> & Ej). exists segs, node. auto.
  - intros (segs & c & Hat & Hk & Hv & ->). destruct (asked_node _ _ _ _ Hl Hat Hk Hv) as (nodes & Hb & Hc).
    eexists. split; [apply in_map_iff; exists (path_of segs, nodes); split; [done|]; by apply list_elem_of_In, elem_of_map_range|].
    apply list_elem_of_In, list_elem_of_fmap. exists c. simpl. split; [|done]. by rewrite join_at.
Qed.

Lemma dirnames_requestable k n batch : level k batch -> requestable (dirnames n batch).
Proof.
  intros Hl. split; [exists k|]; intros d (segs & c & Hat & Hk & Hv & ->)%(elem_of_dirnames k); try done;
    (destruct (plain_tree _ _ Hat) as [Hp|[E0 _]]; [right|left; by rewrite E0]).
  - exists (segs ++ [Name c]). split_and!; [done| |done]. rewrite length_app. simpl. lia.
  - by exists segs, (Name c).
Qed.

Lemma elem_of_pairs (n : nat) (batch : gmap gostring (list DirTreeNode)) (p : gostring * DirTreeNode) :
  p ∈ concat (map (fun e => map (pair e.1) e.2) (map_range n batch)) <->
  exists nodes, batch !! p.1 = Some nodes /\ p.2 ∈ nodes.
Proof.
  rewrite list_elem_of_In, in_concat. split.
  - intros (ps & ([key nodes] & <- & Hin)%in_map_iff & Hp%list_elem_of_In).
    apply list_elem_of_In, elem_of_map_range in Hin. apply list_elem_of_fmap in Hp as (node & -> & Hn). by exists nodes.
  - intros (nodes & Hb & Hp). eexists. split.
    + apply in_map_iff. exists (p.1, nodes). split; [done|]. by apply list_elem_of_In, elem_of_map_range.
    + apply list_elem_of_In, list_elem_of_fmap. exists p.2. split; [by destruct p|done].
Qed.

Lemma stored_size k contents d : stored k contents -> seen k d ->
  Nat.ltb 0 (size (default ∅ (contents !! d))) = true <-> A d <> [].
Proof.
  intros Hs Hd. rewrite Nat.ltb_lt. destruct (contents !! d) as [v|] eqn:Ev.
  - destruct (proj1 (Hs d v) Ev) as (Hne & -> & _). split; [done|]. intros _. simpl.
    destruct (A d) as [|a l]; [done|]. assert (size (list_to_set (a :: l) : gset gostring) <> 0); [|lia].
    intros Hz. apply size_empty_inv in Hz. set_solver.
  - assert (size (default ∅ (None : option (gset gostring))) = 0) as -> by apply size_empty.
    split; [lia|]. intros Hne. exfalso.
    assert (contents !! d = Some (list_to_set (A d))) as H by (by apply Hs). congruence.
Qed.

Lemma live_snoc segs s : live (segs ++ [s]) <-> live segs /\ A (path_of (segs ++ [s])) <> [].
Proof.
  split.
  - intros H. split; [|apply H; [by destruct segs|done]]. intros p Hp Hpre. apply H; [done|]. by apply prefix_app_r.
  - intros [H Ha] p Hp [->|Hpre]%prefix_snoc_cases; [done|by apply H].
Qed.

Lemma next_level k n batch contents :
  level k batch -> stored (S k) contents -> level (S k) (next_batch n batch contents).
Proof.
  intros Hl Hs key' nodes'.
  assert (next_batch n batch contents = fold_left (fun b p => next_node contents p.1 b p.2)
    (concat (map (fun e => map (pair e.1) e.2) (map_range n batch))) ∅) as ->.
  { exact (fold_left_nested (fun b key node => next_node contents key b node) (map_range n batch) ∅). }
  unfold next_node. cbv zeta.
  pose proof (fold_insert_spec (fun p : gostring * DirTreeNode => Nat.ltb 0 (length (Children p.2)) &&
      Nat.ltb 0 (size (default ∅ (contents !! Path_Join [p.1; Name p.2]))))
    (fun p => Path_Join [p.1; Name p.2]) (fun p => Children p.2)
    (concat (map (fun e => map (pair e.1) e.2) (map_range n batch))) ∅ key' nodes') as Hfold.
  rewrite Hfold.
  2: { intros [key1 c1] [key2 c2] (ns1 & Hb1 & Hc1)%elem_of_pairs (ns2 & Hb2 & Hc2)%elem_of_pairs E1 E2 Ek. simpl in *.
       destruct (level_node _ _ _ _ _ Hl Hb1 Hc1) as (segs1 & At1 & Hk1 & _ & -> & J1).
       destruct (level_node _ _ _ _ _ Hl Hb2 Hc2) as (segs2 & At2 & Hk2 & _ & -> & J2).
       rewrite J1, J2 in Ek. apply andb_true_iff in E1 as [E1%Nat.ltb_lt _], E2 as [E2%Nat.ltb_lt _].
       destruct (plain_tree _ _ At1) as [P1|[_ En]]; [|rewrite En in E1; simpl in E1; lia].
       destruct (plain_tree _ _ At2) as [P2|[_ En]]; [|rewrite En in E2; simpl in E2; lia].
       apply path_of_inj in Ek; [|done|done|rewrite !length_app; simpl; lia]. rewrite Ek in At1.
       f_equal. by eapply at_node_fun. }
  split.
  - intros [([key c] & (nodes & Hb & Hc)%elem_of_pairs & Ec & <- & <-)|[_ ?]]; [|by rewrite lookup_empty in *].
    simpl in *. destruct (level_node _ _ _ _ _ Hl Hb Hc) as (segs & Hat & Hk & Hv & -> & J). rewrite J in Ec |- *.
    apply andb_true_iff in Ec as [Ec%Nat.ltb_lt Es].
    rewrite (stored_size (S k)) in Es; [|done|right; exists k; split; [lia|by exists segs, c]].
    exists (segs ++ [Name c]), c. split_and!; [done|rewrite length_app; simpl; lia|by apply live_snoc|done|done|].
    right. intros E0. rewrite E0 in Ec. simpl in Ec. lia.
  - intros (segs' & c & Hat & Hk & Hv & -> & -> & Hne). left.
    destruct segs' as [|s segs _] using rev_ind; [done|]. rewrite length_app in Hk. simpl in Hk.
    destruct (at_node_snoc _ _ _ Hat) as (-> & _). apply live_snoc in Hv as [Hv Ha].
    assert (length segs = k) as Hk' by lia.
    destruct (asked_node _ _ _ _ Hl Hat Hk' Hv) as (nodes & Hb & Hc).
    exists (path_of segs, c). simpl. rewrite (join_at segs c Hat). split_and!; [| |done|done].
    + apply elem_of_pairs. by exists nodes.
    + apply andb_true_iff. split.
      * destruct Hne as [?|Hne]; [lia|]. apply Nat.ltb_lt. destruct (Children c); [done|simpl; lia].
      * apply (stored_size (S k)); [done| |done]. right. exists k. split; [lia|]. by exists segs, c.
Qed.

(** ** The loop *)

Lemma level_step k n batch contents :
  level k batch -> stored k contents ->
  exists res, getChildren (dirnames n batch) = Ok res /\
  let contents' := store_children n contents res in
  stored (S k) contents' /\ level (S k) (next_batch n batch contents').
Proof.
  intros Hl Hs. destruct (HA _ (dirnames_requestable k n batch Hl)) as (res & Eg & H1 & H2).
  exists res. split; [done|]. cbv zeta.
  assert (stored (S k) (store_children n contents res)) as Hs'; [|split; [done|by apply next_level]].
  intros d v. rewrite (store_children_spec n contents _ res H1 H2).
  assert (seen (S k) d <-> seen k d \/ d ∈ dirnames n batch) as Hseen.
  { rewrite (elem_of_dirnames k) by done. unfold seen. split.
    - intros [?|(j & Hj & ?)]; [by left; left|]. destruct (decide (j = k)) as [->|]; [by right|].
      left. right. exists j. split; [lia|done].
    - intros [[?|(j & Hj & ?)]|?]; [by left|right; exists j; split; [lia|done]|right; exists k; split; [lia|done]]. }
  destruct (decide _) as [[Hd Hne]|Hno].
  - rewrite Hseen. tauto.
  - rewrite (Hs d v), Hseen. split; [tauto|]. intros (Hne & -> & [?|?]); [done|]. tauto.
Qed.

Lemma at_node_height segs c : at_node t segs c -> length segs + height c <= height t.
Proof.
  induction 1 as [|segs c c' _ IH Hc]; [simpl; lia|]. rewrite length_app. simpl.
  assert (S (height c') <= height c); [|lia]. clear -Hc. destruct c as [name cs]. simpl in *.
  induction cs as [|c cs IH]; [by apply not_elem_of_nil in Hc|]. apply elem_of_cons in Hc as [->|Hc]; simpl; [lia|].
  specialize (IH Hc). lia.
Qed.

(** Nothing is asked for after an empty batch. *)
Lemma level_empty k : level k ∅ -> forall j d, asked j d -> j < k.
Proof.
  intros Hl j d (segs & c & Hat & Hj & Hv & ->). destruct (decide (j < k)) as [|Hge]; [done|]. exfalso.
  assert (exists rest s, segs ++ [Name c] = take k segs ++ s :: rest /\ length (take k segs) = k) as (rest & s & E0 & Hk).
  { assert (segs ++ [Name c] = take k segs ++ (drop k segs ++ [Name c])) as -> by (by rewrite app_assoc, take_drop).
    rewrite length_take. destruct (drop k segs) as [|s rest]; [exists [], (Name c)|exists (rest ++ [Name c]), s]; (split; [done|lia]). }
  destruct (at_node_prefix t _ _ (take k segs ++ [s]) Hat) as [c' Hc'].
  { rewrite E0. exists rest. by rewrite <- app_assoc. }
  destruct (at_node_snoc _ _ _ Hc') as (-> & p & Hp & Hin).
  assert ((∅ : gmap gostring (list DirTreeNode)) !! path_of (take k segs) = Some (Children p)) as Habs.
  { apply Hl. exists (take k segs), p. split_and!; [done..| | |done|].
    - intros q Hq Hpre. apply Hv; [done|]. etrans; [exact Hpre|]. exists (drop k segs). by rewrite take_drop.
    - done.
    - right. intros E1. rewrite E1 in Hin. by apply not_elem_of_nil in Hin. }
  by rewrite lookup_empty in Habs.
Qed.

Lemma contents_loop_spec fuel n k batch contents :
  level k batch -> stored k contents -> 0 < fuel -> height t < fuel + k ->
  returns (contents_loop getChildren fuel n batch contents) (fun r => exists contents',
    r = Ok contents' /\ forall d v, contents' !! d = Some v <-> A d <> [] /\ v = list_to_set (A d) /\
      (first d \/ exists j, asked j d)).
Proof.
  revert k batch contents. induction fuel as [|fuel IH]; intros k batch contents Hl Hs Hf0 Hf; [lia|].
  cbn [contents_loop]. destruct (Nat.ltb_spec 0 (size batch)) as [Hpos|Hz].
  - destruct (level_step k n batch contents Hl Hs) as (res & -> & Hs' & Hl').
    assert (k < height t) as Hk.
    { destruct (map_choose batch) as (key & nodes & Hb); [intros ->; by rewrite map_size_empty in Hpos; lia|].
      apply Hl in Hb as (segs & c & Hat & Hk & _). pose proof (at_node_height _ _ Hat) as Hh.
      assert (0 < height c) by (destruct c; simpl; lia). lia. }
    eapply IH; [exact Hl'|exact Hs'|lia|lia].
  - apply returns_done. exists contents. split; [done|]. intros d v. rewrite (Hs d v).
    assert (batch = ∅) as -> by (apply map_size_empty_inv; lia).
    assert (seen k d <-> first d \/ exists j, asked j d) as ->; [|done]. unfold seen. split.
    + intros [?|(j & _ & ?)]; [by left|right; by exists j].
    + intros [?|(j & Hj)]; [by left|right]. exists j. split; [by eapply level_empty|done].
Qed.
End Contents.
