(* ===== verification/PathCorrect.v ===== *)
(** The existence checker is exact: [NewExistenceChecker] and
    [GitGetChildren]. *)
From stdpp Require Import sorting.
From S2P Require Import Prelude GoStr GoLib GoMap FilePath PathExistence PathContents.

(** ** Directories of paths *)

Lemma Clean_rooted p : HasPrefix (Clean p) (str "/") = HasPrefix p (str "/").
Proof.
  unfold Clean. destruct (gs_eqb p []) eqn:E; [apply gs_eqb_eq in E; by subst|].
  destruct (HasPrefix p (str "/")) eqn:Er; [reflexivity|].
  destruct (fold_clean_shape (Split p slash) [] 0 []) as (k & gs & -> & Hg); [apply Split_no_sep|done|done|].
  rewrite rev_involutive. cbn [app]. destruct (gs_eqb (Join (ups_then k gs) (str "/")) []) eqn:Ej; [reflexivity|].
  destruct (decide (ups_then k gs = [])) as [E0|Hne]; [by rewrite E0 in Ej|].
  destruct (first_seg k gs Hg Hne) as (c & s & segs & -> & Hc).
  assert (exists r, Join ((c :: s) :: segs) (str "/") = c :: r) as [r ->] by (destruct segs; by eexists).
  change (str "/") with [slash]. cbn [HasPrefix]. destruct (Z.eqb_spec slash c) as [<-|]; done.
Qed.

Lemma path_of_not_dot k gs : Forall plain_seg gs -> path_of (ups_then k gs) <> str ".".
Proof.
  intros Hg E. destruct (decide (ups_then k gs = [])) as [E0|Hne]; [by rewrite E0 in E|].
  assert (Split (path_of (ups_then k gs)) slash = ups_then k gs) as Hs.
  { apply Split_Join; [done|]. by apply ups_then_no_slash. }
  rewrite E in Hs. change (Split (str ".") slash) with [str "."] in Hs.
  destruct k as [|k]; [|done]. unfold ups_then in Hs. simpl in Hs. subst gs. inversion_clear Hg as [|? ? (_ & H & _) _]. done.
Qed.

(** The directory of a relative path goes up, or is a list of names. *)
Lemma dirWithoutDot_shape path : HasPrefix path (str "/") = false ->
  let d := dirWithoutDot (Clean path) in
  HasPrefix d (str "..") = true \/ exists segs, Forall plain_seg segs /\ d = path_of segs.
Proof.
  intros Hr d. destruct (Clean_shape path Hr) as [E|(k & gs & Hg & Hne & E)].
  { right. exists []. split; [done|]. unfold d. by rewrite E. }
  assert (exists k' gs' s, ups_then k gs = ups_then k' gs' ++ [s] /\ no_slash s /\ Forall plain_seg gs') as (k' & gs' & s & Es & Hs & Hg').
  { destruct gs as [|g gs _] using rev_ind.
    - destruct k as [|k]; [done|]. exists k, [], (str ".."). split_and!; [|by repeat constructor|done].
      unfold ups_then. rewrite !app_nil_r. apply replicate_S_end.
    - apply Forall_app in Hg as [Hg Hs]. exists k, gs, g. split_and!; [unfold ups_then; by rewrite app_assoc| |done].
      by inversion_clear Hs as [|? ? (_ & _ & _ & ?) _]. }
  assert (d = path_of (ups_then k' gs')) as Ed.
  { unfold d, dirWithoutDot. rewrite E, Es, Dir_path by done. cbv zeta.
    destruct (ups_then k' gs') as [|u us] eqn:Eu; [reflexivity|]. rewrite <- Eu.
    by rewrite (proj2 (gs_eqb_false _ _) (path_of_not_dot k' gs' Hg')). }
  destruct k' as [|k']; [right; by exists gs'|left]. rewrite Ed. unfold ups_then. cbn [replicate app].
  destruct (replicate k' (str "..") ++ gs') as [|u us]; [reflexivity|].
  rewrite path_of_cons by done. apply HasPrefix_spec. by eexists.
Qed.

Lemma path_dir_shape root p : HasPrefix (Path_Join [root; p]) (str "/") = false ->
  let d := dirWithoutDot (Path_Join [root; p]) in
  HasPrefix d (str "..") = true \/ exists segs, Forall plain_seg segs /\ d = path_of segs.
Proof.
  unfold Path_Join. destruct (gs_eqb root []).
  - destruct (gs_eqb p []); [intros _; right; by exists []|]. rewrite Clean_rooted. apply dirWithoutDot_shape.
  - rewrite Clean_rooted. apply dirWithoutDot_shape.
Qed.

Lemma Split_path segs : Forall plain_seg segs -> Split (path_of segs) slash = match segs with [] => [[]] | _ => segs end.
Proof.
  intros H. destruct segs as [|s segs]; [done|]. apply Split_Join; [done|].
  eapply Forall_impl; [exact H|]. by intros x (_ & _ & _ & ?).
Qed.

(** Whether a path of names goes up is seen at its first name. *)
Lemma HasPrefix_first s r : no_slash s -> s <> [] -> HasPrefix (s ++ slash :: r) (str "..") = HasPrefix s (str "..").
Proof.
  intros Hs Hne. change (str "..") with [46; 46]%Z. destruct s as [|a [|b s]]; [done| |].
  - reflexivity.
  - reflexivity.
Qed.

Lemma prefix_ups segs q : Forall plain_seg segs -> q `prefix_of` segs -> q <> [] ->
  HasPrefix (path_of q) (str "..") = HasPrefix (path_of segs) (str "..").
Proof.
  intros Hp [r ->] Hq. destruct q as [|s q]; [done|]. inversion_clear Hp as [|? ? (H1 & _ & _ & H4) _].
  assert (forall l, HasPrefix (path_of (s :: l)) (str "..") = HasPrefix s (str "..")) as H.
  { intros l. destruct l as [|x l]; [done|]. rewrite path_of_cons by done. by apply HasPrefix_first. }
  cbn [app]. by rewrite !H.
Qed.

Section Checker.
Context {G : GoRuntime} {E : Type} (getChildren : list gostring -> result E (gmap gostring (list gostring))).
Context (A : gostring -> list gostring) (HA : answers getChildren A).

(** A directory that is not empty is in one that is not empty. *)
Definition closed_listing : Prop := forall segs s,
  Forall plain_seg (segs ++ [s]) -> A (path_of (segs ++ [s])) <> [] -> A (path_of segs) <> [].

Context (closed : closed_listing).

Lemma ancestors segs q : Forall plain_seg segs -> q `prefix_of` segs -> A (path_of segs) <> [] -> A (path_of q) <> [].
Proof.
  induction segs as [|s segs IH] using rev_ind; intros Hp Hq Ha; [by apply prefix_nil_inv in Hq as ->|].
  destruct (prefix_snoc_cases _ _ _ Hq) as [->|Hq']; [done|]. apply IH; [by apply Forall_app in Hp as [? _]|done|].
  by eapply closed.
Qed.

Context (n : nat) (root : gostring) (paths : list gostring).
Context (relative : forall p, p ∈ paths -> HasPrefix (Path_Join [root; p]) (str "/") = false).
#[local] Notation t := (makeTree n root paths).

Lemma directory_shape d : is_Some (directorySet root paths !! d) ->
  HasPrefix d (str "..") = false /\ exists segs, Forall plain_seg segs /\ d = path_of segs.
Proof.
  intros (p & Hp & -> & Hu)%directorySet_spec. split; [done|].
  destruct (path_dir_shape root p (relative p Hp)) as [?|?]; [congruence|done].
Qed.

Lemma tree_path segs c : at_node t segs c -> segs = [] \/
  exists ds, Forall plain_seg ds /\ is_Some (directorySet root paths !! path_of ds) /\
    segs `prefix_of` match ds with [] => [[]] | _ => ds end.
Proof.
  intros Ha. destruct (makeTree_spec n root paths) as [_ Hp].
  assert (has_path t segs) as [->|(d & Hd & Hpre)]%Hp by (apply at_node_has_path; by exists c); [by left|right].
  destruct (directory_shape d Hd) as (_ & ds & Hds & ->). exists ds. by rewrite <- Split_path.
Qed.

Lemma plain_tree segs c : at_node t segs c -> Forall plain_seg segs \/ (segs = [[]] /\ Children c = []).
Proof.
  intros Ha. destruct (tree_path segs c Ha) as [->|(ds & Hds & _ & Hpre)]; [by left|].
  destruct ds as [|d ds].
  - destruct segs as [|s segs]; [by left|]. right. destruct Hpre as [r Er]. destruct segs; [|done]. injection Er as Es _. subst s.
    split; [done|]. destruct (Children c) as [|c' cs] eqn:Ec; [done|]. exfalso.
    assert (at_node t ([[]] ++ [Name c']) c') as Ha' by (econstructor; [done|]; rewrite Ec; by left).
    destruct (tree_path _ _ Ha') as [?|(ds' & Hds' & _ & [r' Er'])]; [done|]. destruct ds' as [|x ds']; [done|].
    injection Er' as -> _. inversion_clear Hds' as [|? ? (? & _) _]. done.
  - left. destruct Hpre as [r Er]. rewrite Er in Hds. by apply Forall_app in Hds as [? _].
Qed.

Lemma Name_tree : Name t = [].
Proof.
  unfold makeTree. set (step := fun (tree : DirTreeNode) (entry : gostring * unit) => _).
  assert (forall l c, Name c = [] -> Name (fold_left step l c) = []) as H; [|by apply H].
  induction l as [|e l IH]; intros c Hc; [done|]. simpl. apply IH. unfold step. by rewrite Name_insert.
Qed.

(** The directories that are asked for, or known to be empty. *)
Definition complete (contents : gmap gostring (gset gostring)) : Prop :=
  forall d v, contents !! d = Some v <-> A d <> [] /\ v = list_to_set (A d) /\
    ((root = [] /\ d = []) \/ exists j, asked A t j d).

Lemma asked_plain j d : asked A t j d -> d = [] \/ exists segs, Forall plain_seg segs /\ d = path_of segs.
Proof.
  intros (segs & c & Hat & _ & _ & ->). destruct (plain_tree _ _ Hat) as [?|[-> _]]; [right; eauto|by left].
Qed.

Lemma level_start : level A t 0 {[ [] := Children t ]}.
Proof.
  intros key nodes. rewrite lookup_singleton_Some. split.
  - intros [<- <-]. exists [], t. split_and!; [constructor|done| |done|done|by left].
    intros p Hp ->%prefix_nil_inv. done.
  - intros (segs & c & Hat & Hk & _ & -> & -> & _). destruct segs; [|done].
    rewrite (at_node_fun t [] c t); [done|apply makeTree_spec|done|constructor].
Qed.

Lemma directoryContents_rooted : root <> [] ->
  returns (directoryContents getChildren n root paths) (fun r => exists contents, r = Ok contents /\ complete contents).
Proof.
  intros Hr. unfold directoryContents, makeInitialRequestBatch. cbv zeta.
  rewrite (proj2 (gs_eqb_false _ _) Hr). cbn [negb]. destruct (makeTree_spec n root paths) as [Hwf _].
  eapply returns_mono; [eapply (contents_loop_spec getChildren A HA t Hwf plain_tree (fun _ => False) _ n 0)|].
  - apply level_start.
  - intros d v. rewrite lookup_empty. split; [done|]. intros (_ & _ & [[]|(j & ? & _)]). lia.
  - lia.
  - lia.
  - intros r (contents & -> & H). exists contents. split; [done|]. intros d v. rewrite H. naive_solver.
Qed.

(** The first request, when there is no root. *)
Lemma first_request (res : gmap gostring (list gostring)) :
  (forall d, d ∈ [[]] -> exists l, res !! d = Some l /\ forall x, x ∈ l <-> x ∈ A d) ->
  (forall d, d ∉ [[]] -> default [] (res !! d) = []) ->
  stored A t (eq []) 0 (store_children n ∅ res).
Proof.
  intros H1 H2 d v. rewrite (store_children_spec A n ∅ [[]] res H1 H2), lookup_empty. unfold seen.
  destruct (decide _) as [[->%list_elem_of_singleton Hne]|Hno].
  - split; [auto|]. by intros (_ & ? & _).
  - split; [done|]. intros (Hne & _ & [<-|(j & ? & _)]); [|lia]. exfalso. apply Hno. split; [by left|done].
Qed.

Lemma next_first contents : next_batch n {[ [] := [t] ]} contents =
  if Nat.ltb 0 (length (Children t)) && Nat.ltb 0 (size (default ∅ (contents !! [])))
  then {[ [] := Children t ]} else ∅.
Proof.
  unfold next_batch. assert (map_range n ({[ [] := [t] ]} : gmap gostring (list DirTreeNode)) = [([], [t])]) as ->.
  { apply Permutation_singleton_r. rewrite map_range_perm. by rewrite map_to_list_singleton. }
  simpl. unfold next_node. rewrite Name_tree. change (Path_Join [[]; []]) with (@nil Z). done.
Qed.

Lemma directoryContents_unrooted : root = [] ->
  returns (directoryContents getChildren n root paths) (fun r => exists contents, r = Ok contents /\ complete contents).
Proof.
  intros Hr. unfold directoryContents, makeInitialRequestBatch. cbv zeta. rewrite Hr at 2. cbn [negb gs_eqb].
  destruct (makeTree_spec n root paths) as [Hwf _].
  change (negb (gs_eqb [] [])) with false. cbn iota. remember (S (height t)) as fuel eqn:Ef. cbn [contents_loop]. rewrite map_size_singleton. cbn [Nat.ltb Nat.leb].
  assert (dirnames n ({[ [] := [t] ]} : gmap gostring (list DirTreeNode)) = [[]]) as ->.
  { unfold dirnames. assert (map_range n ({[ [] := [t] ]} : gmap gostring (list DirTreeNode)) = [([], [t])]) as ->.
    { apply Permutation_singleton_r. rewrite map_range_perm. by rewrite map_to_list_singleton. }
    simpl. by rewrite Name_tree. }
  destruct (HA [[]]) as (res & -> & H1 & H2).
  { split; [exists 0|]; intros d ->%list_elem_of_singleton; by left. }
  pose proof (first_request res H1 H2) as Hs. rewrite next_first.
  destruct (Nat.ltb_spec 0 (length (Children t))) as [Hc|Hc]; [|cbn [andb]].
  - destruct (Nat.ltb 0 (size (default ∅ (store_children n ∅ res !! [])))) eqn:Ea; cbn [andb].
    + eapply returns_mono; [eapply (contents_loop_spec getChildren A HA t Hwf plain_tree (eq []) _ n 0)|].
      * apply level_start.
      * exact Hs.
      * lia.
      * lia.
      * intros r (contents & -> & H). exists contents. split; [done|]. intros d v. rewrite H. naive_solver.
    + subst fuel. apply returns_done. eexists. split; [done|]. intros d v. rewrite (Hs d v). unfold seen.
      assert (A [] = []) as Hn.
      { destruct (A []) as [|a l] eqn:Ena; [done|]. exfalso.
        assert (Nat.ltb 0 (size (default ∅ (store_children n ∅ res !! []))) = true); [|congruence].
        apply (stored_size getChildren A HA t Hwf plain_tree (eq []) 0); [done|by left|by rewrite Ena]. }
      split; [naive_solver lia|]. intros (Hne & -> & [[_ ->]|(j & Hj)]); [done|].
      exfalso. destruct (asked_plain j d Hj) as [->|(segs & Hp & ->)]; [done|].
      by apply (ancestors segs [] Hp (prefix_nil _) Hne).
  - subst fuel. apply returns_done. eexists. split; [done|]. intros d v. rewrite (Hs d v). unfold seen.
    split; [naive_solver lia|]. intros (Hne & -> & [[_ ->]|(j & segs & c & Hat & _)]); [by auto|]. exfalso.
    destruct (at_node_prefix t _ _ (take 1 (segs ++ [Name c])) Hat) as [c' Hc'].
    { exists (drop 1 (segs ++ [Name c])). by rewrite take_drop. }
    destruct (segs ++ [Name c]) as [|s r] eqn:Es; [by destruct segs|]. simpl in Hc'.
    destruct (at_node_snoc t [] s c' Hc') as (_ & p & Hp & Hin).
    rewrite (at_node_fun t [] p t Hwf Hp) in Hin by constructor.
    destruct (Children t); [by apply not_elem_of_nil in Hin|simpl in Hc; lia].
Qed.

(** A directory that is not empty and does not go up has been asked for. *)
Lemma asked_dir p :
  let d := dirWithoutDot (Path_Join [root; p]) in
  p ∈ paths -> HasPrefix d (str "..") = false -> A d <> [] -> exists j, asked A t j d.
Proof.
  intros d Hp Hu Hne.
  assert (is_Some (directorySet root paths !! d)) as Hd by (apply directorySet_spec; by exists p).
  destruct (directory_shape d Hd) as (_ & ds & Hds & Ed).
  destruct (makeTree_spec n root paths) as [_ Htree].
  assert (exists c, at_node t (Split d slash) c) as [c Hc].
  { apply at_node_has_path, Htree. right. by exists d. }
  rewrite Ed, Split_path in Hc by done. destruct ds as [|x ds _] using rev_ind.
  - destruct (at_node_snoc t [] [] c Hc) as (En & _). exists 0, [], c. simpl. rewrite <- En.
    split_and!; [done|done| |by rewrite Ed]. intros q Hq ->%prefix_nil_inv. done.
  - destruct (ds ++ [x]) as [|y l] eqn:El; [by destruct ds|]. rewrite <- El in *. clear y l El.
    destruct (at_node_snoc t ds x c Hc) as (-> & _). exists (length ds), ds, c. split_and!; [done|done| |done].
    rewrite Ed in Hne. intros q _ Hq. eapply ancestors; [exact Hds| |done]. by apply prefix_app_r.
Qed.

Lemma asked_not_up j d : asked A t j d -> HasPrefix d (str "..") = false.
Proof.
  intros (segs & c & Hat & _ & _ & ->). destruct (tree_path _ _ Hat) as [?|(ds & Hds & Hd & Hpre)]; [by destruct segs|].
  destruct (directory_shape _ Hd) as (Hu & _). destruct ds as [|x ds].
  - destruct Hpre as [r Er]. destruct segs as [|s segs]; [|by destruct segs]. by injection Er as <- _.
  - rewrite (prefix_ups (x :: ds)); [done|done|done|by destruct segs].
Qed.

Lemma NewExistenceChecker_spec :
  returns (NewExistenceChecker n root paths getChildren) (fun r => exists ec, r = Ok ec /\
    forall p, p ∈ paths -> path_Exists ec p = true <->
      HasPrefix (dirWithoutDot (Path_Join [root; p])) (str "..") = false /\
      Path_Join [root; p] ∈ A (dirWithoutDot (Path_Join [root; p]))).
Proof.
  assert (returns (directoryContents getChildren n root paths) (fun r => exists contents,
    r = Ok contents /\ complete contents)) as Hdir.
  { destruct (decide (root = [])); [by apply directoryContents_unrooted|by apply directoryContents_rooted]. }
  unfold NewExistenceChecker. run_step Hdir. intros r (contents & -> & Hc). apply returns_done. eexists.
  split; [done|]. intros p Hp. unfold path_Exists. cbn [ec_root ec_directoryContents].
  set (full := Path_Join [root; p]). set (d := dirWithoutDot full).
  destruct (contents !! d) as [v|] eqn:Ev.
  - apply Hc in Ev as (Hne & -> & Hd). rewrite bool_decide_eq_true, elem_of_list_to_set.
    split; [intros Hx; split; [|done]|by intros [_ ?]].
    destruct Hd as [[_ ->]|(j & Hj)]; [done|by eapply asked_not_up].
  - split; [done|]. intros [Hu Hx]. exfalso. assert (A d <> []) as Hne by (intros E0; rewrite E0 in Hx; by apply not_elem_of_nil in Hx).
    assert (contents !! d = Some (list_to_set (A d))) as Hs; [|congruence].
    apply Hc. split_and!; [done|done|]. right. by apply asked_dir.
Qed.
End Checker.

(** ** Git *)
Section Git.
Context {G : GoRuntime}.

#[local] Instance longer_strict_weak : StrictWeak (fun a b : gostring => Nat.ltb (length b) (length a)).
Proof.
  split; [intros a; apply Nat.ltb_irrefl|..]; intros a b c; rewrite ?Nat.ltb_lt, ?Nat.ltb_ge; lia.
Qed.

(** The directory that a line goes to. *)
Definition target (ds : list gostring) (line : gostring) : option gostring :=
  if GoLib.Contains line (str "/") then find (HasPrefix line) ds
  else match last ds with Some [] => Some [] | _ => None end.

Lemma assign_path_spec (ds : list gostring) m line d :
  assign_path ds m line !! d =
  if decide (target ds line = Some d) then Some (default [] (m !! d) ++ [line]) else m !! d.
Proof.
  unfold assign_path, target. destruct (GoLib.Contains line (str "/")).
  - destruct (find (HasPrefix line) ds) as [d'|]; [|done]. destruct (decide (Some d' = Some d)) as [[= ->]|Hne].
    + by rewrite lookup_insert_eq.
    + rewrite lookup_insert_ne; [done|congruence].
  - destruct (last ds) as [[|c d']|]; [|done|done]. change (gs_eqb [] []) with true. cbn iota.
    destruct (decide (Some [] = Some d)) as [[= <-]|Hne].
    + by rewrite lookup_insert_eq.
    + rewrite lookup_insert_ne; [done|congruence].
Qed.

Lemma assign_all_spec (ds lines : list gostring) m d :
  (is_Some (m !! d) -> is_Some (fold_left (assign_path ds) lines m !! d)) /\
  forall x, x ∈ default [] (fold_left (assign_path ds) lines m !! d) <->
    x ∈ default [] (m !! d) \/ (x ∈ lines /\ target ds x = Some d).
Proof.
  revert m. induction lines as [|line lines IH]; intros m; cbn [fold_left]; [set_solver|].
  destruct (IH (assign_path ds m line)) as [H1 H2]. rewrite assign_path_spec in H1. split.
  - intros Hm. apply H1. by destruct (decide _).
  - intros x. rewrite H2, assign_path_spec, elem_of_cons. destruct (decide _) as [Ht|Ht]; simpl.
    + rewrite elem_of_app, list_elem_of_singleton. naive_solver.
    + naive_solver.
Qed.

(** A byte that git prints as it is: a path with any other one is quoted. *)
Definition unquoted (c : Z) : Prop := (32 <= c < 127)%Z /\ c <> 34%Z /\ c <> 92%Z.

(** The git tree as lists of the children of its directories: children are one
    name below their directory, a directory that has children is a child, and git
    does not quote the names. *)
Record git_tree (T : gostring -> list gostring) : Prop := {
  gt_children d x : x ∈ T d -> exists segs s, Forall plain_seg (segs ++ [s]) /\ d = path_of segs /\ x = path_of (segs ++ [s]);
  gt_parent segs s : Forall plain_seg (segs ++ [s]) -> T (path_of (segs ++ [s])) <> [] ->
    path_of (segs ++ [s]) ∈ T (path_of segs);
  gt_unquoted d x : x ∈ T d -> Forall unquoted x
}.

(** [git ls-tree --name-only] prints the children of the directories that it is
    given, one on a line (without any directory it prints some other list).  It need
    only answer requests for directories whose parents are not empty. *)
Definition prints_tree (T : gostring -> list gostring) (gitFunc : list gostring -> result gostring gostring)
    (commit : gostring) : Prop :=
  forall ds, requestable T ds ->
  exists out, gitFunc ([str "ls-tree"; str "--name-only"; commit; str "--"] ++ cleanDirectoriesForLsTree ds) = Ok out /\
  (ds <> [] -> forall line, line ∈ Split out 10 <-> line = [] \/ exists d, d ∈ ds /\ line ∈ T d).

(** The answers: the last, empty line becomes a child of the root. *)
Definition listing (T : gostring -> list gostring) (d : gostring) : list gostring :=
  T d ++ if gs_eqb d [] then [[]] else [].

Lemma plain_path_nonnil segs s : Forall plain_seg (segs ++ [s]) -> path_of (segs ++ [s]) <> [].
Proof.
  intros H E. pose proof (Split_path _ H) as Hs. rewrite E in Hs. destruct (segs ++ [s]) as [|x l] eqn:El; [by destruct segs|].
  injection Hs as <- _. inversion_clear H as [|? ? (? & _) _]. done.
Qed.

Lemma path_of_plain_inj segs segs' : Forall plain_seg segs -> Forall plain_seg segs' ->
  path_of segs = path_of segs' -> segs = segs'.
Proof.
  intros H H' E. pose proof (Split_path _ H) as Hs. rewrite E, Split_path in Hs by done.
  destruct segs as [|x l], segs' as [|x' l']; try done; injection Hs as E1 _; subst;
    [inversion H' as [|? ? (? & _) _]|inversion H as [|? ? (? & _) _]]; done.
Qed.

Lemma Contains_slash s : GoLib.Contains s (str "/") = bool_decide (slash ∈ s).
Proof.
  unfold GoLib.Contains. change (str "/") with [slash]. case_bool_decide as H.
  - apply list_elem_of_split_l in H as (a & b & -> & Ha).
    rewrite Index_app; [done|]. apply Forall_forall. by intros x Hx ->.
  - rewrite Index_plain; [done|]. apply Forall_forall. by intros x Hx ->.
Qed.

(** A longer directory of the same level is no prefix of a child. *)
Lemma level_prefix segs segs' s r :
  Forall plain_seg (segs ++ [s]) -> Forall plain_seg segs' -> segs <> [] -> length segs' = length segs ->
  path_of (segs ++ [s]) = path_of segs' ++ r -> length (path_of segs) <= length (path_of segs') ->
  path_of segs' = path_of segs.
Proof.
  intros Hp Hp' Hne Hl E Hlen. rewrite path_of_snoc in E by done.
  assert (exists u, path_of segs' = path_of segs ++ u /\ slash :: s = u ++ r) as (u & Eu & Er).
  { exists (drop (length (path_of segs)) (path_of segs')).
    assert (take (length (path_of segs)) (path_of segs') = path_of segs) as Ht.
    { apply (f_equal (take (length (path_of segs)))) in E.
      rewrite take_app_length, take_app_le in E by done. done. }
    pose proof (take_drop (length (path_of segs)) (path_of segs')) as Etd. rewrite Ht in Etd.
    split; [done|]. apply (app_inv_head (path_of segs)). by rewrite E, app_assoc, Etd. }
  destruct u as [|c u]; [by rewrite app_nil_r in Eu|]. injection Er as <- Er. exfalso.
  apply Forall_app in Hp as [Hp _]. pose proof (Split_path segs' Hp') as Hs'. rewrite Eu in Hs'.
  destruct segs' as [|x segs']; [destruct segs; done|].
  assert (forall l, Forall plain_seg l -> l <> [] -> Split (path_of l ++ slash :: u) slash = l ++ Split u slash) as Hsplit.
  { clear. induction l as [|y l IH]; intros Hl Hne; [done|]. inversion_clear Hl as [|? ? (_ & _ & _ & Hy) Hl'].
    destruct l as [|z l]; [by apply Split_app|]. rewrite path_of_cons, <- app_assoc by done. simpl.
    rewrite Split_app by done. by rewrite IH. }
  rewrite Hsplit in Hs' by done. apply (f_equal length) in Hs'. rewrite length_app in Hs'.
  assert (0 < length (Split u slash)); [|lia]. destruct u as [|c u]; simpl; [lia|].
  destruct (c =? slash)%Z; [simpl; lia|]. destruct (Split u slash); simpl; lia.
Qed.

Definition by_length (ds : list gostring) : list gostring :=
  sort_slice (fun a b => Nat.ltb (length b) (length a)) ds.

Lemma by_length_perm ds : by_length ds ≡ₚ ds.
Proof. apply sort_slice_perm. Qed.

Lemma longest_first ds l1 l2 a b : by_length ds = l1 ++ l2 -> a ∈ l1 -> b ∈ l2 -> length b <= length a.
Proof.
  intros E Ha Hb. pose proof (sort_slice_ascending (fun a b : gostring => Nat.ltb (length b) (length a)) ds _) as Hs.
  fold (by_length ds) in Hs. rewrite E in Hs.
  pose proof (StronglySorted_app_1_elem_of _ _ _ _ _ Hs Ha Hb) as H. simpl in H. by apply Nat.ltb_ge in H.
Qed.

Lemma find_first {X} (f : X -> bool) l1 x l2 :
  f x = true -> (forall y, y ∈ l1 -> f y = false) -> find f (l1 ++ x :: l2) = Some x.
Proof.
  intros Hx. induction l1 as [|y l1 IH]; intros H; simpl; [by rewrite Hx|].
  rewrite (H y) by (by left). apply IH. intros z Hz. apply H. by right.
Qed.

Lemma last_empty ds : [] ∈ ds -> last (by_length ds) = Some [].
Proof.
  intros Hd. assert ([] ∈ by_length ds) as Hin by (by rewrite (by_length_perm ds)).
  destruct (by_length ds) as [|l l' _] eqn:E using rev_ind; [by apply not_elem_of_nil in Hin|].
  rewrite last_snoc. apply elem_of_app in Hin as [Hin| <-%list_elem_of_singleton]; [|done].
  assert (length l <= 0) as Hl; [|destruct l; [done|simpl in Hl; lia]].
  apply (longest_first ds l' [l] [] l); [done|done|by left].
Qed.

Context (T : gostring -> list gostring) (HT : git_tree T).

(** Children go to their directory. *)
Lemma target_child ds d x : one_level ds -> d ∈ ds -> x ∈ T d -> target (by_length ds) x = Some d.
Proof.
  intros [k Hk] Hd Hx. destruct (gt_children T HT d x Hx) as (segs & s & Hp & -> & ->). unfold target.
  rewrite Contains_slash. pose proof Hp as [Hps Hs]%Forall_app. apply Forall_singleton in Hs as (_ & _ & _ & Hs).
  destruct (decide (segs = [])) as [->|Hne].
  { rewrite bool_decide_false, last_empty; [done|done|]. intros Hin. rewrite Forall_forall in Hs. by apply (Hs slash). }
  rewrite bool_decide_true by (rewrite path_of_snoc by done; set_solver).
  assert (path_of segs <> []) as Hpne.
  { destruct segs as [|y l _] using rev_ind; [done|]. by apply plain_path_nonnil. }
  assert (length segs = S k) as Hlen.
  { destruct (Hk _ Hd) as [?|(segs0 & Hp0 & Hl0 & E0)]; [done|]. by rewrite (path_of_plain_inj segs segs0). }
  assert (path_of segs ∈ by_length ds) as Hin by (by rewrite (by_length_perm ds)).
  apply list_elem_of_split_l in Hin as (l1 & l2 & El & Hl1). rewrite El. apply find_first.
  { apply HasPrefix_spec. rewrite path_of_snoc by done. by eexists. }
  intros y Hy. apply not_true_is_false. intros [r Er]%HasPrefix_spec.
  assert (length (path_of segs) <= length y) as Hle by (apply (longest_first ds l1 (path_of segs :: l2)); [done|done|by left]).
  assert (y ∈ ds) as Hyd by (rewrite <- (by_length_perm ds), El; set_solver).
  destruct (Hk y Hyd) as [->|(segs' & Hp' & Hl' & ->)]; [by destruct (path_of segs); simpl in Hle; [|lia]|].
  apply Hl1. rewrite <- (level_prefix segs segs' s r); [done|done|done|done|lia|done|done].
Qed.

Lemma target_empty ds d : target (by_length ds) [] = Some d <-> d = [] /\ [] ∈ ds.
Proof.
  unfold target. change (GoLib.Contains [] (str "/")) with false. cbn iota. split.
  - destruct (last (by_length ds)) as [[|? ?]|] eqn:El; [|done|done]. intros [= <-]. split; [done|].
    apply last_Some_elem_of in El. by rewrite (by_length_perm ds) in El.
  - intros [-> Hd]. by rewrite last_empty.
Qed.

Lemma target_line ds d x :
  one_level ds -> x = [] \/ (exists d, d ∈ ds /\ x ∈ T d) ->
  target (by_length ds) x = Some d <-> d ∈ ds /\ x ∈ listing T d.
Proof.
  intros Hl Hx. unfold listing. rewrite elem_of_app. destruct (decide (x = [])) as [->|Hne].
  - rewrite target_empty. split.
    + intros [-> Hd]. split; [done|]. right. by left.
    + intros [Hd [Hx'|Hx']].
      * destruct (gt_children T HT d [] Hx') as (segs & s & Hp & _ & E). symmetry in E. by apply plain_path_nonnil in E.
      * destruct (gs_eqb d []) eqn:E; [apply gs_eqb_eq in E as ->; done|by apply not_elem_of_nil in Hx'].
  - destruct Hx as [?|(d0 & Hd0 & Hx)]; [done|]. rewrite (target_child ds d0 x Hl Hd0 Hx). split.
    + intros [= <-]. auto.
    + intros [Hd [Hx'|Hx']].
      * destruct (gt_children T HT d x Hx') as (segs & s & Hp & -> & ->).
        destruct (gt_children T HT d0 _ Hx) as (segs0 & s0 & Hp0 & -> & E0).
        apply path_of_plain_inj in E0; [|done|done]. by apply app_inj_tail in E0 as [-> _].
      * destruct (gs_eqb d []); [by apply list_elem_of_singleton in Hx'|by apply not_elem_of_nil in Hx'].
Qed.

Lemma empty_children (ds : list gostring) d :
  fold_left (fun (m : gmap gostring (list gostring)) dirname => <[dirname := []]> m) ds ∅ !! d =
  if decide (d ∈ ds) then Some [] else None.
Proof.
  assert (forall m : gmap gostring (list gostring), fold_left (fun m dirname => <[dirname := []]> m) ds m !! d =
    if decide (d ∈ ds) then Some [] else m !! d) as H.
  { induction ds as [|y ds IH]; intros m; simpl; [done|]. rewrite IH.
    destruct (decide (d ∈ ds)); [rewrite decide_True by (by right); done|].
    destruct (decide (d = y)) as [->|Hne]; [rewrite decide_True by (by left); by rewrite lookup_insert_eq|].
    rewrite decide_False by (by intros [?|?]%elem_of_cons). by rewrite lookup_insert_ne. }
  by rewrite H, lookup_empty.
Qed.

Lemma listing_requestable ds : requestable (listing T) ds -> requestable T ds.
Proof.
  intros [H1 H2]. split; [done|]. intros d [->|(segs & s & Hp & Hl & ->)]%H2; [by left|right]. exists segs, s. split_and!; [done| |done].
  intros q Hq [r ->]. specialize (Hl q Hq (prefix_app_r _ _ _ (reflexivity _))). unfold listing in Hl.
  destruct q as [|x q _] using rev_ind; [done|]. apply Forall_app in Hp as [[Hp _]%Forall_app _].
  by rewrite (proj2 (gs_eqb_false _ _) (plain_path_nonnil q x Hp)), app_nil_r in Hl.
Qed.

(** Without a directory nothing is kept of what git prints. *)
Lemma parse_nothing lines d : parseDirectoryChildren [] lines !! d = None.
Proof.
  unfold parseDirectoryChildren. cbv zeta. fold (by_length []). assert (by_length [] = []) as -> by (apply Permutation_nil_r, by_length_perm).
  cbn [fold_left]. generalize (lookup_empty (M := gmap gostring) (A := list gostring) d). generalize (∅ : gmap gostring (list gostring)).
  induction lines as [|l lines IH]; intros m Hm; cbn [fold_left]; [done|]. apply IH. rewrite assign_path_spec.
  unfold target. cbn [find last]. by destruct (GoLib.Contains l (str "/")).
Qed.

Lemma GitGetChildren_answers gitFunc commit :
  prints_tree T gitFunc commit -> answers (GitGetChildren gitFunc commit) (listing T).
Proof.
  intros Hg ds Hr. pose proof Hr as [Hds _]. unfold GitGetChildren.
  destruct (Hg ds (listing_requestable ds Hr)) as (out & -> & Hlines). eexists. split; [done|].
  destruct (decide (ds = [])) as [->|Hne].
  { split; [by intros d ?%not_elem_of_nil|]. intros d _. by rewrite parse_nothing. }
  specialize (Hlines Hne).
  unfold parseDirectoryChildren. cbv zeta. fold (by_length ds).
  set (m := fold_left _ ds ∅). pose proof (fun d => assign_all_spec (by_length ds) (Split out 10) m d) as H.
  assert (forall d x, (x ∈ Split out 10 /\ target (by_length ds) x = Some d) <-> d ∈ ds /\ x ∈ listing T d) as Ht.
  { intros d x. rewrite Hlines. split.
    - intros [Hx E]. by apply target_line in E.
    - intros [Hd Hx]. assert (x = [] \/ exists d, d ∈ ds /\ x ∈ T d) as Hx'.
      { unfold listing in Hx. apply elem_of_app in Hx as [Hx|Hx]; [right; by exists d|].
        destruct (gs_eqb d []); [left; by apply list_elem_of_singleton in Hx|by apply not_elem_of_nil in Hx]. }
      split; [done|]. by apply target_line. }
  assert (forall d, m !! d = if decide (d ∈ ds) then Some [] else None) as Hm by (intros; apply empty_children).
  split.
  - intros d Hd. destruct (H d) as [H1 H2]. rewrite Hm, decide_True in H1, H2 by done.
    destruct (H1 ltac:(by eexists)) as [l El]. exists l. split; [done|]. intros x. rewrite El in H2. simpl in H2.
    rewrite H2, Ht. set_solver.
  - intros d Hd. destruct (H d) as [_ H2]. rewrite Hm, decide_False in H2 by done.
    destruct (default [] _) as [|x l]; [done|]. exfalso.
    destruct (proj1 (H2 x) ltac:(by left)) as [?%not_elem_of_nil|[? _]%Ht]; done.
Qed.

Lemma listing_closed : closed_listing (listing T).
Proof.
  intros segs s Hp. unfold listing. rewrite (proj2 (gs_eqb_false _ _) (plain_path_nonnil segs s Hp)), app_nil_r.
  intros Hne%(gt_parent T HT); [|done]. intros E. apply app_eq_nil in E as [E _]. rewrite E in Hne.
  by apply not_elem_of_nil in Hne.
Qed.
End Git.

(** ** The checker on a git tree *)

(** C38: for relative paths and a git tree whose names git prints without quotes,
    building the existence checker terminates without an error when git lists the
    children of directories whose parents (other than the root) are not empty; no
    other directory is asked for, since git may fail for any other request.  The
    checker accepts a path of the list exactly when it is in the git tree and its
    directory does not start with two dots; it also accepts the path that is empty
    after joining the root, because of the empty line at the end of git's output. *)
Theorem NewExistenceChecker_exact {G : GoRuntime} T gitFunc commit n root paths :
  git_tree T -> prints_tree T gitFunc commit ->
  (forall p, p ∈ paths -> HasPrefix (Path_Join [root; p]) (str "/") = false) ->
  exists ec, NewExistenceChecker n root paths (GitGetChildren gitFunc commit) = Done (Ok ec) /\
  forall p, p ∈ paths ->
    let path := Path_Join [root; p] in
    path_Exists ec p = true <->
    HasPrefix (dirWithoutDot path) (str "..") = false /\ (path ∈ T (dirWithoutDot path) \/ path = []).
Proof.
  intros HT Hg Hrel.
  destruct (NewExistenceChecker_spec (GitGetChildren gitFunc commit) (listing T)
    (GitGetChildren_answers T HT gitFunc commit Hg) (listing_closed T HT) n root paths Hrel) as (r & -> & ec & -> & Hec).
  exists ec. split; [done|]. intros p Hp path. rewrite (Hec p Hp). fold path. unfold listing. rewrite elem_of_app.
  assert (path ∈ (if gs_eqb (dirWithoutDot path) [] then [[]] else []) <-> path = []) as ->; [|done]. split.
  - destruct (gs_eqb _ _); [by intros ->%list_elem_of_singleton|by intros ?%not_elem_of_nil].
  - intros ->. by left.
Qed.

Section Witness.
#[local] Instance runtime : GoRuntime := plain_runtime.

Definition w_tree (d : gostring) : list gostring :=
  if gs_eqb d [] then [str "web"]
  else if gs_eqb d (str "web") then [str "web/core"]
  else if gs_eqb d (str "web/core") then [str "web/core/foo.ts"; str "web/core/bar.ts"] else [].

(** [git ls-tree] on this tree, which lists the root when no directory is given. *)
Definition w_dir (arg : gostring) : gostring := if gs_eqb arg (str ".") then [] else removelast arg.
Definition w_git (args : list gostring) : result gostring gostring :=
  Ok (concat (map (fun line => line ++ [10%Z])
    match drop 4 args with [] => w_tree [] | dirs => concat (map (fun arg => w_tree (w_dir arg)) dirs) end)).

Lemma Split_lines (lines : list gostring) : Forall (Forall (fun c => c <> 10%Z)) lines ->
  Split (concat (map (fun line => line ++ [10%Z]) lines)) 10 = lines ++ [[]].
Proof.
  induction 1 as [|l lines Hl _ IH]; simpl; [done|]. rewrite <- app_assoc. simpl. by rewrite Split_app, IH.
Qed.

Lemma w_tree_lines d : Forall (Forall (fun c => c <> 10%Z)) (w_tree d).
Proof. unfold w_tree. repeat destruct (gs_eqb _ _); repeat constructor; done. Qed.

Lemma w_dir_clean ds d : one_level ds -> d ∈ ds ->
  w_dir (if gs_eqb d [] then str "." else if negb (HasSuffix d (str "/")) then d ++ str "/" else d) = d.
Proof.
  intros [k Hk] Hd. destruct (Hk d Hd) as [->|(segs & Hp & Hl & ->)]; [reflexivity|].
  destruct segs as [|s segs _] using rev_ind; [done|].
  rewrite (proj2 (gs_eqb_false _ _) (plain_path_nonnil segs s Hp)).
  assert (exists a c, path_of (segs ++ [s]) = a ++ [c] /\ c <> slash) as (a & c & E & Hc).
  { apply Forall_app in Hp as [_ Hs]. apply Forall_singleton in Hs as (Hne & _ & _ & Hs).
    destruct s as [|c s _] using rev_ind; [done|]. apply Forall_app in Hs as [_ Hs]. apply Forall_inv in Hs.
    destruct (decide (segs = [])) as [->|Hseg]; [exists s, c; split; [reflexivity|exact Hs]|].
    exists (path_of segs ++ slash :: s), c. split; [|done]. rewrite path_of_snoc by done. by rewrite <- app_assoc. }
  rewrite E. unfold HasSuffix. rewrite rev_app_distr. change (rev (str "/")) with [slash]. cbn [rev app HasPrefix].
  destruct (Z.eqb_spec slash c) as [<-|_]; [done|]. cbn [andb negb]. unfold w_dir.
  change (str "/") with [slash]. destruct (gs_eqb ((a ++ [c]) ++ [slash]) (str ".")) eqn:Ed.
  - apply gs_eqb_eq in Ed. apply (f_equal length) in Ed. rewrite !length_app in Ed. simpl in Ed. lia.
  - apply removelast_last.
Qed.

Lemma w_git_prints : prints_tree w_tree w_git (str "HEAD").
Proof.
  intros ds [Hds _]. eexists. split; [reflexivity|]. intros Hne line. cbn [drop app].
  assert (cleanDirectoriesForLsTree ds <> []) as Hc by (by destruct ds).
  replace (match cleanDirectoriesForLsTree ds with [] => _ | dirs => _ end) with
    (concat (map (fun arg => w_tree (w_dir arg)) (cleanDirectoriesForLsTree ds))) by (by destruct (cleanDirectoriesForLsTree ds)).
  rewrite Split_lines.
  2: { apply Forall_forall. intros l Hl%list_elem_of_In. apply in_concat in Hl as (ls & (arg & <- & _)%in_map_iff & Hl).
       pose proof (w_tree_lines (w_dir arg)) as H. rewrite Forall_forall in H. by apply H, list_elem_of_In. }
  rewrite elem_of_app, list_elem_of_singleton, list_elem_of_In, in_concat.
  assert ((exists ls, In ls (map (fun arg => w_tree (w_dir arg)) (cleanDirectoriesForLsTree ds)) /\ In line ls) <->
    exists d, d ∈ ds /\ line ∈ w_tree d) as ->; [|tauto]. unfold cleanDirectoriesForLsTree. rewrite map_map. split.
  - intros (ls & (d & <- & Hd)%in_map_iff & Hl). apply list_elem_of_In in Hd, Hl.
    rewrite (w_dir_clean ds d Hds Hd) in Hl. by exists d.
  - intros (d & Hd & Hl). exists (w_tree d). split; [|by apply list_elem_of_In]. apply in_map_iff. exists d.
    split; [by rewrite (w_dir_clean ds d Hds Hd)|by apply list_elem_of_In].
Qed.

Lemma w_plain : plain_seg (str "web") /\ plain_seg (str "core") /\ plain_seg (str "foo.ts") /\ plain_seg (str "bar.ts").
Proof. split_and!; by (split_and!; [done..|]; repeat constructor). Qed.

Lemma w_git_tree : git_tree w_tree.
Proof.
  destruct w_plain as (P1 & P2 & P3 & P4).
  assert (forall segs s key, path_of (segs ++ [s]) = path_of key -> Forall plain_seg (segs ++ [s]) ->
    Forall plain_seg key -> segs ++ [s] = key) as Hinj by (intros; by apply path_of_plain_inj).
  split.
  - intros d x. unfold w_tree. destruct (gs_eqb d []) eqn:E1; [|destruct (gs_eqb d (str "web")) eqn:E2;
      [|destruct (gs_eqb d (str "web/core")) eqn:E3; [|by intros ?%not_elem_of_nil]]]; apply gs_eqb_eq in E1 || apply gs_eqb_eq in E2 || apply gs_eqb_eq in E3; subst.
    + intros ->%list_elem_of_singleton. exists [], (str "web"). split_and!; [by repeat constructor|done|done].
    + intros ->%list_elem_of_singleton. exists [str "web"], (str "core"). split_and!; [by repeat constructor|done|done].
    + intros [->|[->|?%not_elem_of_nil]%elem_of_cons]%elem_of_cons; [| |done].
      * exists [str "web"; str "core"], (str "foo.ts"). split_and!; [by repeat constructor|done|done].
      * exists [str "web"; str "core"], (str "bar.ts"). split_and!; [by repeat constructor|done|done].
  - intros segs s Hp. unfold w_tree at 1. rewrite (proj2 (gs_eqb_false _ _) (plain_path_nonnil segs s Hp)).
    destruct (gs_eqb (path_of (segs ++ [s])) (str "web")) eqn:E2; [intros _|
      destruct (gs_eqb (path_of (segs ++ [s])) (str "web/core")) eqn:E3; [intros _|done]].
    + apply gs_eqb_eq in E2. rewrite E2. apply (Hinj segs s [str "web"]) in E2; [|done|by repeat constructor].
      destruct segs as [|y segs]; [by left|]. injection E2 as _ E2. by destruct segs.
    + apply gs_eqb_eq in E3. rewrite E3. apply (Hinj segs s [str "web"; str "core"]) in E3; [|done|by repeat constructor].
      destruct segs as [|y segs]; [done|]. injection E3 as -> E3. destruct segs as [|z segs]; [by left|].
      injection E3 as _ E3. by destruct segs.
  - intros d x. unfold w_tree. repeat destruct (gs_eqb d _); rewrite ?elem_of_cons, ?list_elem_of_singleton;
      intros H; repeat destruct H as [->|H]; try subst x; try (by apply not_elem_of_nil in H); by repeat constructor.
Qed.

Lemma NewExistenceChecker_exact_witness :
  exists ec, NewExistenceChecker 0 (str "web") [str "core/foo.ts"; str "lib/x.ts"] (GitGetChildren w_git (str "HEAD")) = Done (Ok ec) /\
  path_Exists ec (str "core/foo.ts") = true.
Proof.
  destruct (NewExistenceChecker_exact w_tree w_git (str "HEAD") 0 (str "web") [str "core/foo.ts"; str "lib/x.ts"]
    w_git_tree w_git_prints) as (ec & E & H).
  { intros p [->|[->|?%not_elem_of_nil]%elem_of_cons]%elem_of_cons; done. }
  exists ec. split; [exact E|]. apply H; [by left|]. split; [reflexivity|]. left. vm_compute. left.
Defined.

(** A directory whose name starts with two dots is taken for one outside of the
    tree: its files are not found. *)
Theorem dots_not_found :
  let git := fun args => Ok (str "..cfg/a.go") in
  match NewExistenceChecker 0 [] [str "..cfg/a.go"] (GitGetChildren git (str "HEAD")) with
  | Done (Ok ec) => path_Exists ec (str "..cfg/a.go") = false
  | _ => False
  end.
Proof. vm_compute. reflexivity. Qed.

(** Git prints the path of a name outside of ASCII in quotes and with escapes, and
    the lines are taken as they are: the file is not found. *)
Theorem quoted_not_found :
  let path := (str "caf" ++ [195; 169]%Z ++ str ".go")%list in
  let git := fun args : list gostring => Ok ([34%Z] ++ str "caf\303\251.go" ++ [34; 10]%Z)%list in
  match NewExistenceChecker 0 [] [path] (GitGetChildren git (str "HEAD")) with
  | Done (Ok ec) => path_Exists ec path = false
  | _ => False
  end.
Proof. vm_compute. reflexivity. Qed.

(** A path goes to the longest directory that is a prefix of its text, which
    need not be a directory that encloses it. *)
Theorem parseDirectoryChildren_text_prefix :
  parseDirectoryChildren [str "a"; str "a/foo"] [str "a/foobar"] =
  {[ str "a" := []; str "a/foo" := [str "a/foobar"] ]}.
Proof. vm_compute. reflexivity. Qed.
End Witness.
