(* ===== verification/IdSets.v ===== *)
(** Identifier sets and maps of identifier sets:
    [lib/codeintel/lsif/conversion/datastructures].

    Sets and maps are reached through pointers in the source.  A set that a map
    holds is held by no other map and by no other key, and what [Get] returns is
    read before the map is written again, so a set is a value here and a method
    returns the receiver it leaves.  A nil pointer to a set is [None].  [n]
    picks the orders in which maps are ranged over. *)
From S2P Require Import Prelude GoMap.

(** ** Sets *)
Module IDSet.

(** [m] is nil in a small set. *)
Record IDSet := MkIDSet { s : list Z; m : option (gset Z) }.

Definition SmallSetThreshold : nat := 16.

Definition NewIDSet : IDSet := MkIDSet [] None.

Definition large (set : IDSet) : gset Z := default ∅ (m set).

Definition Len (set : IDSet) : nat := length (s set) + size (large set).

Definition Contains (set : IDSet) (id : Z) : bool :=
  existsb (Z.eqb id) (s set) || bool_decide (id ∈ large set).

(** Converts a small set to a large one when [n] more elements may not fit. *)
Definition ensure (set : IDSet) (n : nat) : IDSet :=
  match m set with
  | Some _ => set
  | None =>
      if Nat.leb (length (s set) + n) SmallSetThreshold then set
      else MkIDSet [] (Some (fold_left (fun m id => {[id]} ∪ m) (s set) ∅))
  end.

Definition add (set : IDSet) (id : Z) : IDSet :=
  match m set with
  | Some m => MkIDSet (s set) (Some ({[id]} ∪ m))
  | None => if Contains set id then set else MkIDSet (s set ++ [id]) None
  end.

Definition IDSetWith (ids : list Z) : IDSet := fold_left add ids (ensure NewIDSet (length ids)).

Definition Add (set : IDSet) (id : Z) : IDSet := add (ensure set 1) id.

Section Ranges.
Context {G : GoRuntime}.

(** A range over the large set: its keys in some order. *)
Definition range_large (n : nat) (m : gset Z) : list Z := (map_range n (gset_to_gmap tt m)).*1.

(** The calls that [Each] makes, in order. *)
Definition Each (n : nat) (set : IDSet) : list Z := s set ++ range_large n (large set).

Definition Union (n : nat) (set : IDSet) (other : option IDSet) : IDSet :=
  match other with
  | None => set
  | Some other =>
      match m other with
      | None => fold_left add (s other) (ensure set (length (s other)))
      | Some om => fold_left add (range_large n om) (ensure set (size om))
      end
  end.

Definition min_step (min id : Z) : Z := if (min =? 0)%Z || (id <? min)%Z then id else min.

Definition Min (n : nat) (set : IDSet) : Z * bool :=
  (fold_left min_step (range_large n (large set)) (fold_left min_step (s set) 0%Z),
   Nat.ltb 0 (Len set)).

(** The identifier that is removed, if there is one, and the set left. *)
Definition Pop (n : nat) (set : IDSet) : option Z * IDSet :=
  match last (s set) with
  | Some id => (Some id, MkIDSet (take (length (s set) - 1) (s set)) (m set))
  | None =>
      match range_large n (large set) with
      | v :: _ => (Some v, MkIDSet (s set) (Some (large set ∖ {[v]})))
      | [] => (None, set)
      end
  end.

Definition compareIDSets (n : nat) (x y : option IDSet) : bool :=
  match x, y with
  | None, None => true
  | Some x, Some y =>
      Nat.eqb (Len x) (Len y) && fold_left (fun found i => found && Contains y i) (Each n x) true
  | _, _ => false
  end.
End Ranges.
End IDSet.
Notation IDSet := IDSet.IDSet.

(** ** Maps of sets *)
Module SetMap.

Inductive mapState := mapStateEmpty | mapStateInline | mapStateHeap.

Definition uninitSentinelKey : Z := (-0xc0c0)%Z.

Record DefaultIDSetMap := MkSetMap {
  inlineKey : Z;
  inlineValue : option IDSet;
  m : option (gmap Z IDSet)
}.

Definition NewDefaultIDSetMap : DefaultIDSetMap := MkSetMap 0 None None.

(** The three states, with the fields that are in use. *)
Inductive view := Empty | Inline (key : Z) (value : IDSet) | Heap (m : gmap Z IDSet).

Definition state (sm : DefaultIDSetMap) : run view :=
  match inlineValue sm with
  | None =>
      match m sm with
      | None => Done Empty
      | Some m => Done (Heap m)
      end
  | Some value =>
      match m sm with
      | Some _ => Panics "m field of DefaultIDSetMap should be nil when value is present inline"
      | None => Done (Inline (inlineKey sm) value)
      end
  end.

Definition mapState_of (v : view) : mapState :=
  match v with Empty => mapStateEmpty | Inline _ _ => mapStateInline | Heap _ => mapStateHeap end.

Definition Len (sm : DefaultIDSetMap) : run nat :=
  let! st := state sm in
  Done match st with Empty => 0 | Inline _ _ => 1 | Heap m => size m end.

Definition Get (sm : DefaultIDSetMap) (key : Z) : run (option IDSet) :=
  let! st := state sm in
  Done match st with
       | Empty => None
       | Inline k value => if (k =? key)%Z then Some value else None
       | Heap m => m !! key
       end.

Section Ranges.
Context {G : GoRuntime}.

Definition UnorderedKeys (n : nat) (sm : DefaultIDSetMap) : run (list Z) :=
  let! st := state sm in
  Done match st with Empty => [] | Inline k _ => [k] | Heap m => (map_range n m).*1 end.

(** The source copies the one entry left out of the map. *)
Definition deleteFromMap (n : nat) (sm : DefaultIDSetMap) (hm : gmap Z IDSet) (key : Z) : DefaultIDSetMap :=
  let hm := delete key hm in
  if Nat.eqb (size hm) 1 then
    fold_left (fun sm entry => MkSetMap entry.1 (Some entry.2) None) (map_range n hm)
      (MkSetMap (inlineKey sm) (inlineValue sm) None)
  else MkSetMap (inlineKey sm) (inlineValue sm) (Some hm).

Definition Pop (n : nat) (sm : DefaultIDSetMap) (key : Z) : run (option IDSet * DefaultIDSetMap) :=
  let! st := state sm in
  Done match st with
       | Empty => (None, sm)
       | Inline k v =>
           if (k =? key)%Z then (Some v, MkSetMap uninitSentinelKey None (m sm)) else (None, sm)
       | Heap hm =>
           match hm !! key with
           | Some v => (Some v, deleteFromMap n sm hm key)
           | None => (None, sm)
           end
       end.

Definition Delete (n : nat) (sm : DefaultIDSetMap) (key : Z) : run DefaultIDSetMap :=
  let! st := state sm in
  Done match st with
       | Empty => sm
       | Inline k _ => if (k =? key)%Z then MkSetMap uninitSentinelKey None (m sm) else sm
       | Heap hm => deleteFromMap n sm hm key
       end.

(** The calls that [Each] makes, in order. *)
Definition Each (n : nat) (sm : DefaultIDSetMap) : run (list (Z * IDSet)) :=
  let! st := state sm in
  Done match st with Empty => [] | Inline k v => [(k, v)] | Heap m => map_range n m end.

Definition NumIDsForKey (sm : DefaultIDSetMap) (key : Z) : run nat :=
  let! st := state sm in
  Done match st with
       | Empty => 0
       | Inline k value => if (k =? key)%Z then IDSet.Len value else 0
       | Heap m => match m !! key with Some s => IDSet.Len s | None => 0 end
       end.

Definition Contains (sm : DefaultIDSetMap) (key id : Z) : run bool :=
  let! st := state sm in
  Done match st with
       | Empty => false
       | Inline k value => (k =? key)%Z && IDSet.Contains value id
       | Heap m => match m !! key with Some s => IDSet.Contains s id | None => false end
       end.

Definition EachID (n : nat) (sm : DefaultIDSetMap) (key : Z) : run (list Z) :=
  let! st := state sm in
  Done match st with
       | Empty => []
       | Inline k value => if (k =? key)%Z then IDSet.Each n value else []
       | Heap m => match m !! key with Some s => IDSet.Each n s | None => [] end
       end.

(** [getOrCreate] returns a pointer through which its callers update the set
    once; here they pass the update. *)
Definition getOrCreate (sm : DefaultIDSetMap) (key : Z) (update : IDSet -> IDSet) : run DefaultIDSetMap :=
  let! st := state sm in
  Done match st with
       | Empty => MkSetMap key (Some (update IDSet.NewIDSet)) (m sm)
       | Inline k value =>
           if (k =? key)%Z then MkSetMap k (Some (update value)) (m sm)
           else MkSetMap uninitSentinelKey None
                  (Some (<[key := update IDSet.NewIDSet]> (<[k := value]> ∅)))
       | Heap hm =>
           match hm !! key with
           | Some s => MkSetMap (inlineKey sm) (inlineValue sm) (Some (<[key := update s]> hm))
           | None => MkSetMap (inlineKey sm) (inlineValue sm) (Some (<[key := update IDSet.NewIDSet]> hm))
           end
       end.

Definition AddID (sm : DefaultIDSetMap) (key id : Z) : run DefaultIDSetMap :=
  getOrCreate sm key (fun set => IDSet.Add set id).

Definition UnionIDSet (n : nat) (sm : DefaultIDSetMap) (key : Z) (other : option IDSet) : run DefaultIDSetMap :=
  match other with
  | None => Done sm
  | Some o =>
      if Nat.eqb (IDSet.Len o) 0 then Done sm
      else getOrCreate sm key (fun set => IDSet.Union n set other)
  end.

Fixpoint with_entries (n : nat) (entries : list (Z * option IDSet)) (sm : DefaultIDSetMap)
    : run DefaultIDSetMap :=
  match entries with
  | [] => Done sm
  | (k, v) :: entries => let! sm := UnionIDSet n sm k v in with_entries n entries sm
  end.

Definition DefaultIDSetMapWith (n : nat) (entries : gmap Z (option IDSet)) : run DefaultIDSetMap :=
  with_entries n (map_range n entries) NewDefaultIDSetMap.

Definition toMap (sm : DefaultIDSetMap) : run (gmap Z IDSet) :=
  let! st := state sm in
  Done match st with Empty => ∅ | Inline k v => <[k := v]> ∅ | Heap m => m end.

Definition mapState_eqb (a b : mapState) : bool :=
  match a, b with
  | mapStateEmpty, mapStateEmpty | mapStateInline, mapStateInline | mapStateHeap, mapStateHeap => true
  | _, _ => false
  end.

(** [state] dereferences its receiver. *)
Definition compareDefaultIDSetMaps (n : nat) (x y : option DefaultIDSetMap) : run bool :=
  match x, y with
  | None, None => Done true
  | Some x, Some y =>
      let! sx := state x in
      let! sy := state y in
      if negb (mapState_eqb (mapState_of sx) (mapState_of sy)) then Done false
      else
        let! m1 := toMap x in
        let! m2 := toMap y in
        Done (forallb (fun entry => IDSet.compareIDSets n (Some entry.2) (m2 !! entry.1)) (map_range n m1))
  | _, _ => Panics "invalid memory address or nil pointer dereference"
  end.

(** ** Linked identifiers *)

Definition NewDisjointIDSet : DefaultIDSetMap := NewDefaultIDSetMap.

Definition Link (sm : DefaultIDSetMap) (id1 id2 : Z) : run DefaultIDSetMap :=
  let! sm := AddID sm id1 id2 in
  AddID sm id2 id1.

Fixpoint link_pairs (pairs : list Z) (sm : DefaultIDSetMap) : run DefaultIDSetMap :=
  match pairs with
  | a :: b :: pairs => let! sm := Link sm a b in link_pairs pairs sm
  | _ => Done sm
  end.

Definition DisjointIDSetWith (pairs : list Z) : run DefaultIDSetMap :=
  if negb (Nat.eqb (Nat.modulo (length pairs) 2) 0)
  then Panics "DisjointIDSetWith must be supplied pairs of values"
  else link_pairs pairs NewDisjointIDSet.

Fixpoint extract_loop (fuel n : nat) (sm : DefaultIDSetMap) (set frontier : IDSet) : run IDSet :=
  match IDSet.Pop n frontier with
  | (None, _) => Done set
  | (Some v, frontier) =>
      match fuel with
      | O => OutOfFuel
      | S fuel =>
          if IDSet.Contains set v then extract_loop fuel (S n) sm set frontier
          else
            let! next := Get sm v in
            extract_loop fuel (S n) sm (IDSet.Add set v) (IDSet.Union n frontier next)
      end
  end.

(** Every identifier is expanded once, so the loop pops at most as many
    identifiers as the map holds, and the source. *)
Definition extract_fuel (sm : DefaultIDSetMap) : nat :=
  match inlineValue sm, m sm with
  | Some v, _ => S (IDSet.Len v)
  | None, Some m => S (sum_list_with (fun entry => IDSet.Len entry.2) (map_to_list m))
  | None, None => 1
  end.

Definition ExtractSet (n : nat) (sm : DefaultIDSetMap) (id : Z) : run IDSet :=
  extract_loop (extract_fuel sm) n sm IDSet.NewIDSet (IDSet.IDSetWith [id]).
End Ranges.
End SetMap.
Notation DefaultIDSetMap := SetMap.DefaultIDSetMap.
