(* ===== verification/IdSetFacts.v ===== *)
(** Identifier sets implement finite sets, maps of them implement finite maps of
    finite sets, and linked identifiers are extracted by connected component. *)
From stdpp Require Import relations.
From S2P Require Import Prelude GoMap IdSets.

Section Facts.
Context {G : GoRuntime}.

(** ** Sets *)

(** The abstract value and the invariant: a small set lists at most
    [SmallSetThreshold] distinct identifiers, a large one lists none. *)
Definition elems (set : IDSet) : gset Z := list_to_set (IDSet.s set) ∪ IDSet.large set.

Definition wf_set (set : IDSet) : Prop :=
  NoDup (IDSet.s set) /\
  match IDSet.m set with
  | None => length (IDSet.s set) <= IDSet.SmallSetThreshold
  | Some _ => IDSet.s set = []
  end.

Lemma wf_new : wf_set IDSet.NewIDSet.
Proof. split; [constructor|simpl; unfold IDSet.SmallSetThreshold; lia]. Qed.

Lemma elems_new : elems IDSet.NewIDSet = ∅.
Proof. set_solver. Qed.

Lemma range_large_perm n (X : gset Z) : IDSet.range_large n X ≡ₚ elements X.
Proof.
  unfold IDSet.range_large. apply NoDup_Permutation; [apply NoDup_map_range_keys|apply NoDup_elements|].
  intros x. rewrite elem_of_map_range_keys, elem_of_elements. split.
  - by intros [v [? _]%lookup_gset_to_gmap_Some].
  - intros Hx. exists tt. by apply lookup_gset_to_gmap_Some.
Qed.

Lemma elem_of_range_large n (X : gset Z) x : x ∈ IDSet.range_large n X <-> x ∈ X.
Proof. by rewrite range_large_perm, elem_of_elements. Qed.

Lemma set_Each_perm n set : wf_set set -> IDSet.Each n set ≡ₚ elements (elems set).
Proof.
  intros [Hn Hm]. unfold IDSet.Each. rewrite range_large_perm. unfold elems, IDSet.large.
  destruct (IDSet.m set) as [X|]; simpl.
  - rewrite Hm. simpl. f_equiv. set_solver.
  - rewrite elements_empty, app_nil_r, (right_id_L ∅ (∪)). by rewrite elements_list_to_set.
Qed.

Lemma elem_of_set_Each n set x : wf_set set -> x ∈ IDSet.Each n set <-> x ∈ elems set.
Proof. intros H. by rewrite set_Each_perm, elem_of_elements. Qed.

Lemma set_Len_spec set : wf_set set -> IDSet.Len set = size (elems set).
Proof.
  intros [Hn Hm]. unfold IDSet.Len, elems, IDSet.large. destruct (IDSet.m set) as [X|]; simpl.
  - rewrite Hm. simpl. f_equal. set_solver.
  - rewrite (right_id_L ∅ (∪)), size_list_to_set by done. apply Nat.add_0_r.
Qed.

Lemma set_Contains_spec set id : IDSet.Contains set id = bool_decide (id ∈ elems set).
Proof.
  unfold IDSet.Contains, elems. apply eq_true_iff_eq.
  rewrite orb_true_iff, existsb_exists, !bool_decide_eq_true, elem_of_union, elem_of_list_to_set.
  setoid_rewrite <- list_elem_of_In. setoid_rewrite Z.eqb_eq. naive_solver.
Qed.

Lemma ensure_spec set n :
  wf_set set -> wf_set (IDSet.ensure set n) /\ elems (IDSet.ensure set n) = elems set /\
  (IDSet.m (IDSet.ensure set n) = None ->
   length (IDSet.s (IDSet.ensure set n)) + n <= IDSet.SmallSetThreshold).
Proof.
  intros Hw. unfold IDSet.ensure. destruct (IDSet.m set) as [X|] eqn:Em; [by split_and!; rewrite ?Em|].
  destruct (Nat.leb_spec (length (IDSet.s set) + n) IDSet.SmallSetThreshold); [by split_and!|].
  split_and!; [by split; [constructor|]| |done].
  assert (forall l (X : gset Z), fold_left (fun m id => {[id]} ∪ m) l X = list_to_set l ∪ X) as Hf.
  { induction l as [|x l IH]; intros X; simpl; [set_solver|]. rewrite IH. set_solver. }
  unfold elems, IDSet.large. rewrite Em. simpl. rewrite Hf. set_solver.
Qed.

Lemma add_spec set id n :
  wf_set set -> (IDSet.m set = None -> length (IDSet.s set) + S n <= IDSet.SmallSetThreshold) ->
  wf_set (IDSet.add set id) /\ elems (IDSet.add set id) = {[id]} ∪ elems set /\
  (IDSet.m (IDSet.add set id) = None -> length (IDSet.s (IDSet.add set id)) + n <= IDSet.SmallSetThreshold).
Proof.
  intros Hw Hroom. pose proof Hw as [Hn Hm]. unfold IDSet.add. destruct (IDSet.m set) as [X|] eqn:Em.
  - split_and!; [by split| |done]. unfold elems, IDSet.large. rewrite Em. simpl. set_solver.
  - specialize (Hroom eq_refl). rewrite set_Contains_spec. case_bool_decide as Hin.
    + split_and!; [done|set_solver|lia].
    + assert (id ∉ IDSet.s set) as Hns.
      { intros Hs. apply Hin. unfold elems. apply elem_of_union. left. by apply elem_of_list_to_set. }
      split_and!.
      * split; simpl; [|rewrite length_app; simpl; lia]. apply NoDup_app. split_and!; [done|set_solver|apply NoDup_singleton].
      * unfold elems, IDSet.large. rewrite Em. simpl. rewrite list_to_set_app_L. set_solver.
      * simpl. rewrite length_app. simpl. lia.
Qed.

Lemma add_all_spec (ids : list Z) set :
  wf_set set -> (IDSet.m set = None -> length (IDSet.s set) + length ids <= IDSet.SmallSetThreshold) ->
  wf_set (fold_left IDSet.add ids set) /\ elems (fold_left IDSet.add ids set) = list_to_set ids ∪ elems set.
Proof.
  revert set. induction ids as [|id ids IH]; intros set Hw Hroom; simpl; [split; [done|set_solver]|].
  destruct (add_spec set id (length ids) Hw Hroom) as (H1 & H2 & H3).
  destruct (IH _ H1 H3) as [H4 ->]. split; [done|]. rewrite H2. set_solver.
Qed.

Lemma ensure_add_spec (ids : list Z) set :
  wf_set set -> let set' := fold_left IDSet.add ids (IDSet.ensure set (length ids)) in
  wf_set set' /\ elems set' = list_to_set ids ∪ elems set.
Proof.
  intros Hw. destruct (ensure_spec set (length ids) Hw) as (H1 & <- & H2). by apply add_all_spec.
Qed.

Lemma IDSetWith_spec ids : wf_set (IDSet.IDSetWith ids) /\ elems (IDSet.IDSetWith ids) = list_to_set ids.
Proof.
  destruct (ensure_add_spec ids IDSet.NewIDSet wf_new) as [H1 H2]. split; [done|].
  unfold IDSet.IDSetWith. rewrite H2, elems_new. set_solver.
Qed.

Lemma Add_spec set id :
  wf_set set -> wf_set (IDSet.Add set id) /\ elems (IDSet.Add set id) = {[id]} ∪ elems set.
Proof.
  intros Hw. destruct (ensure_add_spec [id] set Hw) as [H1 H2]. split; [done|].
  unfold IDSet.Add. simpl in H2. rewrite H2. set_solver.
Qed.

Lemma Union_spec n set other :
  wf_set set -> wf_set other ->
  wf_set (IDSet.Union n set (Some other)) /\ elems (IDSet.Union n set (Some other)) = elems set ∪ elems other.
Proof.
  intros Hw [Hno Hmo]. unfold IDSet.Union, elems at 3, IDSet.large. destruct (IDSet.m other) as [X|]; simpl.
  - assert (size X = length (IDSet.range_large n X)) as -> by (by rewrite range_large_perm).
    destruct (ensure_add_spec (IDSet.range_large n X) set Hw) as [H1 H2]. split; [done|]. rewrite H2, Hmo.
    apply set_eq. intros x. rewrite !elem_of_union, elem_of_list_to_set, elem_of_range_large. set_solver.
  - destruct (ensure_add_spec (IDSet.s other) set Hw) as [H1 H2]. split; [done|]. rewrite H2. set_solver.
Qed.

Lemma Pop_spec n set :
  wf_set set ->
  match IDSet.Pop n set with
  | (None, set') => elems set = ∅ /\ set' = set
  | (Some id, set') => wf_set set' /\ id ∈ elems set /\ elems set' = elems set ∖ {[id]}
  end.
Proof.
  intros [Hn Hm]. unfold IDSet.Pop. destruct (IDSet.s set) as [|x l _] eqn:Es using rev_ind.
  - simpl. pose proof (fun x => elem_of_range_large n (IDSet.large set) x) as Hr.
    destruct (IDSet.range_large n (IDSet.large set)) as [|v l].
    + split; [|done]. unfold elems. rewrite Es. apply set_eq. intros x. rewrite elem_of_union, <- Hr. set_solver.
    + assert (v ∈ IDSet.large set) as Hv by (apply Hr; by left). unfold elems. rewrite Es.
      split_and!; [by split; simpl|set_solver|]. unfold IDSet.large. simpl. set_solver.
  - rewrite last_snoc, length_app. simpl. rewrite Nat.add_sub, take_app_length.
    apply NoDup_app in Hn as (Hn & Hd & _).
    assert (x ∉ l) as Hx by (intros Hx; apply (Hd x Hx); by left).
    destruct (IDSet.m set) as [X|] eqn:Em; [by destruct l|].
    unfold elems, IDSet.large, wf_set. rewrite Es, Em. simpl. rewrite length_app in Hm. simpl in Hm.
    rewrite list_to_set_app_L. split_and!; [done|lia|set_solver|].
    apply set_eq. intros y. set_solver.
Qed.

Lemma min_fold_spec (l : list Z) (a : Z) :
  (0 ∉ l)%Z -> a <> 0%Z ->
  let r := fold_left IDSet.min_step l a in
  (r = a \/ r ∈ l) /\ (r <= a)%Z /\ forall y, y ∈ l -> (r <= y)%Z.
Proof.
  revert a. induction l as [|x l IH]; intros a H0 Ha; simpl.
  { split_and!; [by left|lia|by intros y ?%not_elem_of_nil]. }
  apply not_elem_of_cons in H0 as [Hx H0]. unfold IDSet.min_step at 2 4 6 8.
  destruct (Z.eqb_spec a 0); [done|]. simpl. destruct (Z.ltb_spec x a).
  - destruct (IH x H0) as (H1 & H2 & H3); [done|]. split_and!; [right; set_solver|lia|].
    intros y [->|Hy]%elem_of_cons; [done|auto].
  - destruct (IH a H0 Ha) as (H1 & H2 & H3). split_and!; [set_solver|lia|].
    intros y [->|Hy]%elem_of_cons; [lia|auto].
Qed.

Lemma Min_spec n set :
  wf_set set -> (0 ∉ elems set)%Z ->
  match IDSet.Min n set with
  | (x, true) => x ∈ elems set /\ forall y, y ∈ elems set -> (x <= y)%Z
  | (_, false) => elems set = ∅
  end.
Proof.
  intros Hw H0. unfold IDSet.Min. rewrite <- fold_left_app. fold (IDSet.Each n set).
  rewrite set_Len_spec by done.
  rewrite <- (elem_of_set_Each n set _ Hw) in H0.
  pose proof (set_Each_perm n set Hw) as Hp. destruct (Nat.ltb_spec 0 (size (elems set))) as [Hlt|Hle].
  - setoid_rewrite <- (fun x => elem_of_set_Each n set x Hw). destruct (IDSet.Each n set) as [|x l].
    + symmetry in Hp. apply Permutation_nil_r, elements_empty_inv in Hp. rewrite Hp, size_empty in Hlt. lia.
    + apply not_elem_of_cons in H0 as [Hx H0]. simpl. unfold IDSet.min_step at 2 4. simpl.
      destruct (min_fold_spec l x H0) as (H1 & H2 & H3); [done|]. split; [set_solver|].
      intros y [->|Hy]%elem_of_cons; [done|auto].
  - apply leibniz_equiv, size_empty_inv. lia.
Qed.

Lemma fold_andb {A} (f : A -> bool) (l : list A) b :
  fold_left (fun found i => found && f i) l b = b && forallb f l.
Proof. revert b. induction l as [|x l IH]; intros b; simpl; [by rewrite andb_true_r|]. by rewrite IH, andb_assoc. Qed.

Lemma compareIDSets_spec n x y :
  wf_set x -> wf_set y -> IDSet.compareIDSets n (Some x) (Some y) = bool_decide (elems x = elems y).
Proof.
  intros Hx Hy. unfold IDSet.compareIDSets. rewrite fold_andb. simpl. rewrite !set_Len_spec by done.
  apply eq_true_iff_eq. rewrite andb_true_iff, Nat.eqb_eq, forallb_forall, bool_decide_eq_true.
  setoid_rewrite <- list_elem_of_In. setoid_rewrite set_Contains_spec.
  setoid_rewrite bool_decide_eq_true. setoid_rewrite (fun i => elem_of_set_Each n x i Hx). split.
  - intros [Hs Hsub]. apply set_subseteq_size_eq; [exact Hsub|lia].
  - intros ->. done.
Qed.

(** ** Maps *)

Definition contents (sm : DefaultIDSetMap) : gmap Z IDSet :=
  match SetMap.inlineValue sm, SetMap.m sm with
  | Some v, _ => {[SetMap.inlineKey sm := v]}
  | None, Some m => m
  | None, None => ∅
  end.

(** The abstract value, and the invariant: one entry is inline, two or more
    are on the heap, and no entry is empty. *)
Definition sets (sm : DefaultIDSetMap) : gmap Z (gset Z) := elems <$> contents sm.

Record wf_map (sm : DefaultIDSetMap) : Prop := {
  wf_state :
    match SetMap.inlineValue sm, SetMap.m sm with
    | Some _, Some _ => False
    | None, Some m => 2 <= size m
    | _, None => True
    end;
  wf_entries k v : contents sm !! k = Some v -> wf_set v /\ elems v <> ∅
}.

(** Adding identifiers at a key. *)
Definition add_at (key : Z) (X : gset Z) (M : gmap Z (gset Z)) : gmap Z (gset Z) :=
  <[key := default ∅ (M !! key) ∪ X]> M.

Definition view_contents (v : SetMap.view) : gmap Z IDSet :=
  match v with
  | SetMap.Empty => ∅
  | SetMap.Inline k v => {[k := v]}
  | SetMap.Heap m => m
  end.

(** [state] does not panic on a well-formed map. *)
Lemma state_spec sm : wf_map sm ->
  exists v, SetMap.state sm = Done v /\ view_contents v = contents sm /\
  match v with
  | SetMap.Empty => SetMap.inlineValue sm = None /\ SetMap.m sm = None
  | SetMap.Inline k s => SetMap.inlineKey sm = k /\ SetMap.inlineValue sm = Some s /\ SetMap.m sm = None
  | SetMap.Heap m => SetMap.inlineValue sm = None /\ SetMap.m sm = Some m /\ 2 <= size m
  end.
Proof.
  intros [Hs _]. unfold SetMap.state, contents. destruct (SetMap.inlineValue sm), (SetMap.m sm); [done|..];
    eexists; (split; [reflexivity|]); done.
Qed.

Lemma Get_spec sm key : wf_map sm -> SetMap.Get sm key = Done (contents sm !! key).
Proof.
  intros Hw. unfold SetMap.Get. destruct (state_spec sm Hw) as (v & -> & <- & _). simpl. f_equal.
  destruct v as [|k s|m]; simpl; [done| |done]. destruct (Z.eqb_spec k key) as [->|?].
  - by rewrite lookup_singleton_eq.
  - by rewrite lookup_singleton_ne.
Qed.

Lemma map_Each_spec n sm : wf_map sm ->
  exists l, SetMap.Each n sm = Done l /\ l ≡ₚ map_to_list (contents sm).
Proof.
  intros Hw. unfold SetMap.Each. destruct (state_spec sm Hw) as (v & -> & <- & _). simpl.
  eexists. split; [done|]. destruct v as [|k s|m]; simpl.
  - by rewrite map_to_list_empty.
  - by rewrite map_to_list_singleton.
  - apply map_range_perm.
Qed.

Lemma map_Len_spec sm : wf_map sm -> SetMap.Len sm = Done (size (sets sm)).
Proof.
  intros Hw. unfold SetMap.Len. destruct (state_spec sm Hw) as (v & -> & Hc & _). simpl. f_equal.
  unfold sets. rewrite map_size_fmap, <- Hc. destruct v as [|k s|m]; simpl; [done| |done].
  by rewrite map_size_singleton.
Qed.

Lemma UnorderedKeys_spec n sm : wf_map sm ->
  exists l, SetMap.UnorderedKeys n sm = Done l /\ NoDup l /\ forall k, k ∈ l <-> is_Some (sets sm !! k).
Proof.
  intros Hw. unfold SetMap.UnorderedKeys, sets. destruct (state_spec sm Hw) as (v & -> & <- & _). simpl.
  eexists. split; [done|]. setoid_rewrite lookup_fmap. setoid_rewrite fmap_is_Some. destruct v as [|k s|m]; simpl.
  - split; [constructor|]. intros k. rewrite lookup_empty. split; [by intros ?%not_elem_of_nil|by intros [? ?]].
  - split; [apply NoDup_singleton|]. intros k'. rewrite list_elem_of_singleton, lookup_singleton_is_Some. naive_solver.
  - split; [apply NoDup_map_range_keys|]. intros k. apply elem_of_map_range_keys.
Qed.

Lemma map_Contains_spec sm key id : wf_map sm ->
  SetMap.Contains sm key id = Done (bool_decide (id ∈ default ∅ (sets sm !! key))).
Proof.
  intros Hw. unfold SetMap.Contains, sets. rewrite lookup_fmap.
  destruct (state_spec sm Hw) as (v & -> & <- & _). simpl. f_equal. destruct v as [|k s|m]; simpl.
  - by rewrite lookup_empty.
  - destruct (Z.eqb_spec k key) as [->|?].
    + by rewrite lookup_singleton_eq, set_Contains_spec.
    + by rewrite lookup_singleton_ne.
  - destruct (m !! key) as [s|]; simpl; [by rewrite set_Contains_spec|done].
Qed.

(** An update of one entry. *)
Lemma wf_update sm sm' key X v' :
  wf_map sm -> contents sm' = <[key := v']> (contents sm) -> wf_set v' ->
  elems v' = default ∅ (sets sm !! key) ∪ X -> X <> ∅ ->
  (forall k v, contents sm' !! k = Some v -> wf_set v /\ elems v <> ∅) /\ sets sm' = add_at key X (sets sm).
Proof.
  intros Hw Hc Hv He HX. split.
  - intros k v. rewrite Hc, lookup_insert_Some. intros [[_ <-]|[_ ?]]; [|by eapply (wf_entries _ Hw)].
    split; [done|]. rewrite He. set_solver.
  - unfold sets in *. by rewrite Hc, fmap_insert, He.
Qed.

Lemma getOrCreate_spec sm key f X :
  wf_map sm -> X <> ∅ -> (forall v, wf_set v -> wf_set (f v) /\ elems (f v) = elems v ∪ X) ->
  exists sm', SetMap.getOrCreate sm key f = Done sm' /\ wf_map sm' /\ sets sm' = add_at key X (sets sm).
Proof.
  intros Hw HX Hf. unfold SetMap.getOrCreate. destruct (state_spec sm Hw) as (v & -> & Hc & Hv). simpl.
  eexists. split; [done|].
  assert (forall sm',
    match SetMap.inlineValue sm', SetMap.m sm' with
    | Some _, Some _ => False | None, Some m => 2 <= size m | _, None => True end ->
    contents sm' = <[key := f (default IDSet.NewIDSet (contents sm !! key))]> (contents sm) ->
    wf_map sm' /\ sets sm' = add_at key X (sets sm)) as Hupd.
  { intros sm' Hs Hc'. set (old := default IDSet.NewIDSet (contents sm !! key)) in *.
    assert (wf_set old /\ elems old = default ∅ (sets sm !! key)) as [Ho1 Ho2].
    { unfold old, sets. rewrite lookup_fmap. destruct (contents sm !! key) as [o|] eqn:Eo; simpl.
      - split; [|done]. by apply (wf_entries _ Hw) in Eo as [? _].
      - split; [apply wf_new|apply elems_new]. }
    destruct (Hf old Ho1) as [Hf1 Hf2]. rewrite Ho2 in Hf2.
    destruct (wf_update sm sm' key X (f old) Hw Hc' Hf1 Hf2 HX) as [? ?]. done. }
  apply Hupd; clear Hupd; rewrite <- ?Hc; destruct v as [|k s|hm]; simpl in *.
  - destruct Hv as [_ ->]. done.
  - destruct Hv as (_ & _ & ->). destruct (Z.eqb_spec k key) as [->|Hne]; simpl; [done|].
    rewrite map_size_insert_None, map_size_insert_None, map_size_empty; [lia|by rewrite lookup_empty|].
    by rewrite lookup_insert_ne, lookup_empty by done.
  - destruct Hv as (Hi & _ & Hs). destruct (hm !! key) as [s|] eqn:Es; simpl; rewrite Hi.
    + by rewrite map_size_insert_Some.
    + rewrite map_size_insert_None by done. lia.
  - destruct Hv as [_ Hm]. unfold contents. simpl. by rewrite lookup_empty.
  - destruct Hv as (_ & _ & Hm). unfold contents. destruct (Z.eqb_spec k key) as [->|Hne]; simpl.
    + rewrite lookup_singleton_eq. simpl. by rewrite insert_singleton_eq.
    + rewrite lookup_singleton_ne by done. done.
  - destruct Hv as (Hi & _ & _). unfold contents. destruct (hm !! key) as [s|] eqn:Es; simpl; by rewrite Hi.
Qed.

Lemma AddID_spec sm key id : wf_map sm ->
  exists sm', SetMap.AddID sm key id = Done sm' /\ wf_map sm' /\ sets sm' = add_at key {[id]} (sets sm).
Proof.
  intros Hw. apply getOrCreate_spec; [done|set_solver|]. intros v Hv.
  destruct (Add_spec v id Hv) as [? ->]. split; [done|set_solver].
Qed.

Definition add_some (key : Z) (X : gset Z) (M : gmap Z (gset Z)) : gmap Z (gset Z) :=
  if bool_decide (X = ∅) then M else add_at key X M.

Lemma UnionIDSet_spec n sm key other : wf_map sm -> (forall o, other = Some o -> wf_set o) ->
  exists sm', SetMap.UnionIDSet n sm key other = Done sm' /\ wf_map sm' /\
    sets sm' = add_some key (default ∅ (elems <$> other)) (sets sm).
Proof.
  intros Hw Ho. unfold SetMap.UnionIDSet, add_some. destruct other as [o|]; simpl; [|by exists sm].
  specialize (Ho o eq_refl). rewrite set_Len_spec by done.
  destruct (Nat.eqb_spec (size (elems o)) 0) as [E|E].
  - apply size_empty_inv, leibniz_equiv in E. rewrite bool_decide_eq_true_2 by done. by exists sm.
  - rewrite bool_decide_eq_false_2 by (intros H; apply E; by rewrite H, size_empty).
    apply getOrCreate_spec; [done| |].
    + intros H. apply E. by rewrite H, size_empty.
    + intros v Hv. destruct (Union_spec n v o Hv Ho) as [? ?]. done.
Qed.

Lemma deleteFromMap_spec n sm hm key :
  wf_map sm -> SetMap.inlineValue sm = None -> SetMap.m sm = Some hm ->
  let sm' := SetMap.deleteFromMap n sm hm key in wf_map sm' /\ sets sm' = delete key (sets sm).
Proof.
  intros Hw Hi Hm. pose proof (wf_state _ Hw) as Hs. rewrite Hi, Hm in Hs.
  assert (contents sm = hm) as Hc by (unfold contents; by rewrite Hi, Hm).
  assert (contents (SetMap.deleteFromMap n sm hm key) = delete key hm /\
    match SetMap.inlineValue (SetMap.deleteFromMap n sm hm key), SetMap.m (SetMap.deleteFromMap n sm hm key) with
    | Some _, Some _ => False | None, Some m => 2 <= size m | _, None => True end) as [H1 H2].
  { unfold SetMap.deleteFromMap. cbv zeta. destruct (Nat.eqb_spec (size (delete key hm)) 1) as [E|E].
    - pose proof (fun i w => elem_of_map_range n (delete key hm) i w) as Hr.
      rewrite <- (length_map_range n) in E.
      destruct (map_range n (delete key hm)) as [|[k v] [|]]; [done| |done]. unfold contents. simpl.
      split; [|done]. apply map_eq. intros i. apply option_eq. intros w.
      rewrite <- Hr, list_elem_of_singleton, lookup_singleton_Some. naive_solver.
    - unfold contents. simpl. rewrite Hi. split; [done|]. rewrite map_size_delete in *. destruct (hm !! key); unfold id in *; lia. }
  split; [split; [exact H2|]|].
  - intros k v. rewrite H1, lookup_delete_Some. intros [_ ?]. apply (wf_entries _ Hw k). by rewrite Hc.
  - unfold sets. by rewrite H1, Hc, fmap_delete.
Qed.

Lemma Delete_spec n sm key : wf_map sm ->
  exists sm', SetMap.Delete n sm key = Done sm' /\ wf_map sm' /\ sets sm' = delete key (sets sm).
Proof.
  intros Hw. unfold SetMap.Delete. destruct (state_spec sm Hw) as (v & -> & Hc & Hv). simpl.
  eexists. split; [done|]. destruct v as [|k s|hm]; simpl in *.
  - split; [done|]. unfold sets. by rewrite <- Hc, fmap_empty, delete_empty.
  - destruct Hv as (Hk & _ & Hm). unfold sets. destruct (Z.eqb_spec k key) as [->|Hne].
    + rewrite Hm, <- Hc. unfold contents. simpl.
      rewrite map_fmap_singleton, delete_singleton_eq, fmap_empty. split; [|done]. by split.
    + split; [done|]. rewrite <- Hc, map_fmap_singleton. by rewrite delete_singleton_ne.
  - destruct Hv as (Hi & Hm & _). by apply deleteFromMap_spec.
Qed.

Lemma map_Pop_spec n sm key : wf_map sm ->
  exists sm', SetMap.Pop n sm key = Done (contents sm !! key, sm') /\ wf_map sm' /\
    sets sm' = delete key (sets sm).
Proof.
  intros Hw. destruct (Delete_spec n sm key Hw) as (sm' & Hd & Hw' & Hs).
  unfold SetMap.Delete, SetMap.Pop in *. destruct (state_spec sm Hw) as (v & Ev & Hc & Hv). rewrite Ev in *.
  simpl in *. injection Hd as Hd. rewrite <- Hc. destruct v as [|k s|hm]; simpl in *.
  - exists sm'. subst sm'. by rewrite lookup_empty.
  - exists sm'. subst sm'. destruct (Z.eqb_spec k key) as [->|Hne].
    + by rewrite lookup_singleton_eq.
    + by rewrite lookup_singleton_ne.
  - destruct (hm !! key) as [s|] eqn:Es; [exists sm'; by subst sm'|]. exists sm. split_and!; [done|done|].
    rewrite delete_id; [done|]. unfold sets. by rewrite <- Hc, lookup_fmap, Es.
Qed.

Lemma EachID_spec n sm key : wf_map sm ->
  exists l, SetMap.EachID n sm key = Done l /\ l ≡ₚ elements (default ∅ (sets sm !! key)).
Proof.
  intros Hw. unfold SetMap.EachID, sets. rewrite lookup_fmap.
  destruct (state_spec sm Hw) as (v & -> & Hc & _). simpl. eexists. split; [done|]. rewrite <- Hc.
  pose proof (wf_entries _ Hw) as He. rewrite <- Hc in He. destruct v as [|k s|m]; simpl in *.
  - by rewrite lookup_empty.
  - destruct (Z.eqb_spec k key) as [->|Hne].
    + rewrite lookup_singleton_eq. simpl. apply set_Each_perm. apply (He key). by rewrite lookup_singleton_eq.
    + by rewrite lookup_singleton_ne.
  - destruct (m !! key) as [s|] eqn:Es; simpl; [|done]. apply set_Each_perm. by apply (He key).
Qed.

Lemma NumIDsForKey_spec sm key : wf_map sm ->
  SetMap.NumIDsForKey sm key = Done (size (default ∅ (sets sm !! key))).
Proof.
  intros Hw. unfold SetMap.NumIDsForKey, sets. rewrite lookup_fmap.
  destruct (state_spec sm Hw) as (v & -> & Hc & _). simpl. f_equal. rewrite <- Hc.
  pose proof (wf_entries _ Hw) as He. rewrite <- Hc in He. destruct v as [|k s|m]; simpl in *.
  - by rewrite lookup_empty.
  - destruct (Z.eqb_spec k key) as [->|Hne].
    + rewrite lookup_singleton_eq. simpl. apply set_Len_spec. apply (He key). by rewrite lookup_singleton_eq.
    + by rewrite lookup_singleton_ne.
  - destruct (m !! key) as [s|] eqn:Es; simpl; [|done]. apply set_Len_spec. by apply (He key).
Qed.

Lemma wf_map_new : wf_map SetMap.NewDefaultIDSetMap.
Proof. by split. Qed.

(** ** Linked identifiers *)

Definition linked_to (M : gmap Z (gset Z)) (x y : Z) : Prop := y ∈ default ∅ (M !! x).

Section Extract.
Context (sm : DefaultIDSetMap) (Hw : wf_map sm) (id : Z).

(** The identifiers that are still to be expanded from. *)
Definition unexpanded (X : gset Z) : nat :=
  sum_list_with (fun entry => if decide (entry.1 ∈ X) then 0 else IDSet.Len entry.2)
    (map_to_list (contents sm)).

Lemma unexpanded_step (X : gset Z) v s :
  v ∉ X -> contents sm !! v = Some s -> unexpanded ({[v]} ∪ X) + IDSet.Len s <= unexpanded X.
Proof.
  intros Hv Hs. apply elem_of_map_to_list in Hs. unfold unexpanded.
  assert (forall l : list (Z * IDSet),
    sum_list_with (fun e => if decide (e.1 ∈ {[v]} ∪ X) then 0 else IDSet.Len e.2) l <=
    sum_list_with (fun e => if decide (e.1 ∈ X) then 0 else IDSet.Len e.2) l) as Hmono.
  { induction l as [|e l IH]; simpl; [lia|]. destruct (decide (e.1 ∈ X)) as [H|H].
    - rewrite decide_True by set_solver. lia.
    - destruct (decide (e.1 ∈ {[v]} ∪ X)); lia. }
  induction (map_to_list (contents sm)) as [|e l IH]; [by apply not_elem_of_nil in Hs|]. simpl.
  apply elem_of_cons in Hs as [<-|Hs].
  - simpl. rewrite decide_True by set_solver. rewrite decide_False by done. specialize (Hmono l). lia.
  - specialize (IH Hs). destruct (decide (e.1 ∈ X)) as [H|H].
    + rewrite decide_True by set_solver. lia.
    + destruct (decide (e.1 ∈ {[v]} ∪ X)); lia.
Qed.

Lemma unexpanded_same (X : gset Z) v : contents sm !! v = None -> unexpanded ({[v]} ∪ X) <= unexpanded X.
Proof.
  intros _. unfold unexpanded. induction (map_to_list (contents sm)) as [|e l IH]; simpl; [lia|].
  destruct (decide (e.1 ∈ X)); [rewrite decide_True by set_solver; lia|].
  destruct (decide (e.1 ∈ {[v]} ∪ X)); lia.
Qed.

Record extract_inv (set frontier : IDSet) : Prop := {
  ei_set : wf_set set;
  ei_frontier : wf_set frontier;
  ei_source : id ∈ elems set ∪ elems frontier;
  ei_reached x : x ∈ elems set ∪ elems frontier -> rtc (linked_to (sets sm)) id x;
  ei_closed x y : x ∈ elems set -> linked_to (sets sm) x y -> y ∈ elems set ∪ elems frontier
}.

Lemma extract_done set frontier x :
  extract_inv set frontier -> elems frontier = ∅ -> x ∈ elems set <-> rtc (linked_to (sets sm)) id x.
Proof.
  intros [_ _ H1 H2 H3] He. rewrite He in *. split; [intros; apply H2; set_solver|].
  assert (id ∈ elems set) as Hid by set_solver. clear H1 H2.
  intros Hr. induction Hr as [|a b c Hab _ IH]; [done|]. apply IH. specialize (H3 a b Hid Hab). set_solver.
Qed.

(** Expanding [v], which was taken from the frontier. *)
Lemma extract_expand n set frontier frontier' v next :
  extract_inv set frontier -> wf_set frontier' -> v ∈ elems frontier ->
  elems frontier' = elems frontier ∖ {[v]} -> next = contents sm !! v ->
  extract_inv (IDSet.Add set v) (IDSet.Union n frontier' next).
Proof.
  intros [W1 W2 H1 H2 H3] Hw' Hv He ->. destruct (Add_spec set v W1) as [Wa Ea].
  assert (wf_set (IDSet.Union n frontier' (contents sm !! v)) /\
    elems (IDSet.Union n frontier' (contents sm !! v)) = elems frontier' ∪ default ∅ (sets sm !! v)) as [Wu Eu].
  { unfold sets. rewrite lookup_fmap. destruct (contents sm !! v) as [s|] eqn:Es; simpl.
    - apply Union_spec; [done|]. by apply (wf_entries _ Hw) in Es as [? _].
    - split; [done|set_solver]. }
  split; rewrite ?Ea, ?Eu, ?He; [done|done| | |].
  - destruct (decide (id = v)); set_solver.
  - intros x Hx. destruct (decide (x ∈ default ∅ (sets sm !! v))) as [Hl|Hl].
    + eapply rtc_r; [apply (H2 v); set_solver|exact Hl].
    + apply H2. destruct (decide (x = v)); set_solver.
  - intros x y Hx Hl. destruct (decide (x = v)) as [->|Hne]; [unfold linked_to in Hl; set_solver|].
    assert (x ∈ elems set) as Hxs by set_solver. specialize (H3 x y Hxs Hl).
    destruct (decide (y = v)); set_solver.
Qed.

(** Dropping [v], which was expanded before. *)
Lemma extract_drop set frontier frontier' v :
  extract_inv set frontier -> wf_set frontier' -> v ∈ elems set ->
  elems frontier' = elems frontier ∖ {[v]} -> extract_inv set frontier'.
Proof.
  intros [W1 W2 H1 H2 H3] Hw' Hv He. split; rewrite ?He; [done|done| | |].
  - destruct (decide (id = v)); set_solver.
  - intros x Hx. apply H2. set_solver.
  - intros x y Hx Hl. specialize (H3 x y Hx Hl). destruct (decide (y = v)); set_solver.
Qed.

Lemma extract_loop_spec fuel n set frontier :
  extract_inv set frontier -> size (elems frontier) + unexpanded (elems set) <= fuel ->
  returns (SetMap.extract_loop fuel n sm set frontier) (fun s =>
    wf_set s /\ forall x, x ∈ elems s <-> rtc (linked_to (sets sm)) id x).
Proof.
  revert n set frontier. induction fuel as [|fuel IH]; intros n set frontier Hi Hf; simpl;
    pose proof (Pop_spec n frontier (ei_frontier _ _ Hi)) as Hp;
    destruct (IDSet.Pop n frontier) as [[v|] frontier'].
  2, 4: apply returns_done; split; [apply Hi|]; intros x; by eapply extract_done; [|apply Hp].
  all: destruct Hp as (Hw' & Hv & He).
  all: assert (size (elems frontier) = S (size (elems frontier'))) as Hsize
    by (rewrite He, size_difference, size_singleton by set_solver;
        assert (size (elems frontier) <> 0) by (intros E; apply size_empty_inv in E; set_solver); lia).
  { lia. }
  rewrite set_Contains_spec. case_bool_decide as Hin.
  - apply IH; [by eapply extract_drop|lia].
  - rewrite Get_spec by done. simpl. apply IH; [by eapply extract_expand|].
    destruct (Add_spec set v (ei_set _ _ Hi)) as [_ ->].
    destruct (contents sm !! v) as [s|] eqn:Es.
    + pose proof (unexpanded_step (elems set) v s Hin Es) as Hu.
      assert (wf_set s) as Hws by (by apply (wf_entries _ Hw) in Es as [? _]).
      destruct (Union_spec n frontier' s Hw' Hws) as [_ ->]. rewrite set_Len_spec in Hu by done.
      pose proof (size_union_alt (elems frontier') (elems s)) as Hsu.
      assert (size (elems s ∖ elems frontier') <= size (elems s)) by (apply subseteq_size; set_solver). lia.
    + pose proof (unexpanded_same (elems set) v Es). simpl. lia.
Qed.

Lemma ExtractSet_spec n :
  returns (SetMap.ExtractSet n sm id) (fun s =>
    wf_set s /\ forall x, x ∈ elems s <-> rtc (linked_to (sets sm)) id x).
Proof.
  unfold SetMap.ExtractSet. destruct (IDSetWith_spec [id]) as [Hw1 He1]. apply extract_loop_spec.
  - split; [apply wf_new|done| | |]; rewrite ?elems_new, ?He1.
    + set_solver.
    + intros x Hx. assert (x = id) as -> by set_solver. done.
    + set_solver.
  - rewrite He1, elems_new. rewrite list_to_set_singleton, size_singleton.
    assert (unexpanded ∅ = sum_list_with (fun entry => IDSet.Len entry.2) (map_to_list (contents sm))) as ->.
    { unfold unexpanded. induction (map_to_list (contents sm)) as [|e l IHl]; simpl; [done|].
      rewrite decide_False by set_solver. by rewrite IHl. }
    unfold SetMap.extract_fuel, contents. pose proof (wf_state _ Hw) as Hs.
    destruct (SetMap.inlineValue sm), (SetMap.m sm); [done| |lia|].
    + rewrite map_to_list_singleton. simpl. lia.
    + rewrite map_to_list_empty. simpl. lia.
Qed.
End Extract.

Lemma linked_to_add M key X x y :
  linked_to (add_at key X M) x y <-> linked_to M x y \/ (x = key /\ y ∈ X).
Proof.
  unfold linked_to, add_at. destruct (decide (key = x)) as [->|Hne].
  - rewrite lookup_insert_eq. simpl. rewrite elem_of_union. naive_solver.
  - rewrite lookup_insert_ne by done. naive_solver.
Qed.

Lemma Link_spec sm a b : wf_map sm ->
  exists sm', SetMap.Link sm a b = Done sm' /\ wf_map sm' /\
  forall x y, linked_to (sets sm') x y <->
    linked_to (sets sm) x y \/ (x = a /\ y = b) \/ (x = b /\ y = a).
Proof.
  intros Hw. unfold SetMap.Link. destruct (AddID_spec sm a b Hw) as (sm1 & -> & Hw1 & E1). simpl.
  destruct (AddID_spec sm1 b a Hw1) as (sm2 & -> & Hw2 & E2). exists sm2. split_and!; [done|done|].
  intros x y. rewrite E2, linked_to_add, E1, linked_to_add, !elem_of_singleton. tauto.
Qed.

Definition flat_pairs (l : list (Z * Z)) : list Z := concat (map (fun p => [p.1; p.2]) l).

Lemma link_pairs_spec (l : list (Z * Z)) sm : wf_map sm ->
  exists sm', SetMap.link_pairs (flat_pairs l) sm = Done sm' /\ wf_map sm' /\
  forall x y, linked_to (sets sm') x y <-> linked_to (sets sm) x y \/ sc (fun a b => (a, b) ∈ l) x y.
Proof.
  revert sm. induction l as [|[a b] l IH]; intros sm Hw; simpl.
  { exists sm. split_and!; [done|done|]. intros x y. split; [by left|].
    intros [?|[?%not_elem_of_nil|?%not_elem_of_nil]]; done. }
  destruct (Link_spec sm a b Hw) as (sm1 & -> & Hw1 & E1). simpl.
  destruct (IH sm1 Hw1) as (sm2 & E & Hw2 & E2). unfold flat_pairs in E. rewrite E.
  exists sm2. split_and!; [done|done|]. intros x y. rewrite E2, E1. unfold sc. rewrite !elem_of_cons.
  naive_solver.
Qed.

Lemma flat_pairs_even l : Nat.modulo (length (flat_pairs l)) 2 = 0.
Proof.
  assert (length (flat_pairs l) = length l * 2) as ->; [|by apply Nat.Div0.mod_mul].
  induction l as [|p l IH]; simpl; [done|]. unfold flat_pairs in IH. by rewrite IH.
Qed.
End Facts.

(** What the sets and maps of identifiers promise to their clients. *)

Section Refinement.
Context {G : GoRuntime}.

(** C37: [IDSet] implements finite sets of integers.  With [elems] as the
    abstraction and [wf_set] as the invariant (a small set lists at most sixteen
    distinct identifiers, a large one is a map), every operation keeps the
    invariant and does on the abstract set what its comment says, for every
    order in which Go ranges over the map; [Min] does when 0 is not a member. *)
Theorem IDSet_refines (n : nat) (set : IDSet) :
  wf_set set ->
  IDSet.Len set = size (elems set) /\
  (forall id, IDSet.Contains set id = bool_decide (id ∈ elems set)) /\
  IDSet.Each n set ≡ₚ elements (elems set) /\
  (forall id, wf_set (IDSet.Add set id) /\ elems (IDSet.Add set id) = {[id]} ∪ elems set) /\
  (forall other, wf_set other ->
     wf_set (IDSet.Union n set (Some other)) /\
     elems (IDSet.Union n set (Some other)) = elems set ∪ elems other) /\
  match IDSet.Pop n set with
  | (None, set') => elems set = ∅ /\ set' = set
  | (Some id, set') => wf_set set' /\ id ∈ elems set /\ elems set' = elems set ∖ {[id]}
  end /\
  (~ (0 ∈ elems set)%Z ->
   match IDSet.Min n set with
   | (x, true) => x ∈ elems set /\ forall y, y ∈ elems set -> (x <= y)%Z
   | (_, false) => elems set = ∅
   end) /\
  (forall other, wf_set other ->
     IDSet.compareIDSets n (Some set) (Some other) = bool_decide (elems set = elems other)).
Proof.
  intros Hw. split_and!.
  - by apply set_Len_spec.
  - apply set_Contains_spec.
  - by apply set_Each_perm.
  - intros id. by apply Add_spec.
  - intros other Ho. by apply Union_spec.
  - by apply Pop_spec.
  - by apply Min_spec.
  - intros other Ho. by apply compareIDSets_spec.
Qed.

(** [DefaultIDSetMap] implements finite maps from integers to non-empty
    finite sets.  With [sets] as the abstraction and [wf_map] as the invariant
    (nothing, one inline entry, or a map of two or more entries), no operation
    reaches a panic on an illegal state, every update keeps the invariant, and
    reads and updates are those of the abstract map. *)
Theorem SetMap_refines (n : nat) (sm : DefaultIDSetMap) (key : Z) :
  wf_map sm ->
  SetMap.Len sm = Done (size (sets sm)) /\
  SetMap.Get sm key = Done (contents sm !! key) /\
  (forall id, SetMap.Contains sm key id = Done (bool_decide (id ∈ default ∅ (sets sm !! key)))) /\
  SetMap.NumIDsForKey sm key = Done (size (default ∅ (sets sm !! key))) /\
  (exists l, SetMap.UnorderedKeys n sm = Done l /\ NoDup l /\ forall k, k ∈ l <-> is_Some (sets sm !! k)) /\
  (exists l, SetMap.EachID n sm key = Done l /\ l ≡ₚ elements (default ∅ (sets sm !! key))) /\
  (forall id, exists sm', SetMap.AddID sm key id = Done sm' /\ wf_map sm' /\
     sets sm' = add_at key {[id]} (sets sm)) /\
  (forall other, wf_set other -> exists sm', SetMap.UnionIDSet n sm key (Some other) = Done sm' /\ wf_map sm' /\
     sets sm' = add_some key (elems other) (sets sm)) /\
  (exists sm', SetMap.Delete n sm key = Done sm' /\ wf_map sm' /\ sets sm' = delete key (sets sm)) /\
  (exists sm', SetMap.Pop n sm key = Done (contents sm !! key, sm') /\ wf_map sm' /\
     sets sm' = delete key (sets sm)).
Proof.
  intros Hw. split_and!.
  - by apply map_Len_spec.
  - by apply Get_spec.
  - intros id. by apply map_Contains_spec.
  - by apply NumIDsForKey_spec.
  - by apply UnorderedKeys_spec.
  - by apply EachID_spec.
  - intros id. by apply AddID_spec.
  - intros other Ho. apply (UnionIDSet_spec n sm key (Some other) Hw). by intros ? [= <-].
  - by apply Delete_spec.
  - by apply map_Pop_spec.
Qed.

(** After linking pairs of identifiers, [ExtractSet] terminates and returns
    the connected component of its argument. *)
Theorem ExtractSet_component (pairs : list (Z * Z)) :
  exists sm, SetMap.DisjointIDSetWith (flat_pairs pairs) = Done sm /\
  forall n id, exists set, SetMap.ExtractSet n sm id = Done set /\ wf_set set /\
    forall x, x ∈ elems set <-> rtsc (fun a b => (a, b) ∈ pairs) id x.
Proof.
  unfold SetMap.DisjointIDSetWith. rewrite flat_pairs_even. simpl.
  destruct (link_pairs_spec pairs SetMap.NewDisjointIDSet wf_map_new) as (sm & -> & Hw & Hl).
  exists sm. split; [done|]. intros n id. destruct (ExtractSet_spec sm Hw id n) as (set & -> & Hs & Hx).
  exists set. split_and!; [done|done|]. intros x. rewrite Hx. unfold rtsc.
  assert (forall a b, linked_to (sets sm) a b <-> sc (fun a b => (a, b) ∈ pairs) a b) as Heq.
  { intros a b. rewrite Hl. split; [|by right]. intros [Ha|?]; [|done].
    unfold linked_to, sets, contents in Ha. simpl in Ha. rewrite fmap_empty, lookup_empty in Ha. set_solver. }
  split; (intros Hr; eapply rtc_subrel; [|exact Hr]); intros a b; by rewrite Heq.
Qed.
End Refinement.

Section Witness.
#[local] Instance runtime : GoRuntime := plain_runtime.

Lemma IDSet_refines_witness :
  IDSet.Len (IDSet.IDSetWith [5; 3; 5]%Z) = 2 /\
  IDSet.Min 0 (IDSet.IDSetWith [5; 3; 5]%Z) = (3%Z, true) /\
  IDSet.Len (IDSet.IDSetWith [5; 3; 5]%Z) = size (elems (IDSet.IDSetWith [5; 3; 5]%Z)).
Proof.
  split_and!; [vm_compute; reflexivity..|].
  apply (IDSet_refines 0 (IDSet.IDSetWith [5; 3; 5]%Z)). apply IDSetWith_spec.
Defined.

Definition w_map : DefaultIDSetMap := SetMap.MkSetMap 4 (Some (IDSet.IDSetWith [7%Z])) None.

Lemma w_map_wf : wf_map w_map.
Proof.
  split; [done|]. intros k v Hv. unfold contents, w_map in Hv. simpl in Hv.
  apply lookup_singleton_Some in Hv as [_ <-]. destruct (IDSetWith_spec [7%Z]) as [H1 H2]. split; [done|].
  rewrite H2. set_solver.
Qed.

Lemma SetMap_refines_witness :
  SetMap.Get w_map 4 = Done (Some (IDSet.IDSetWith [7%Z])) /\ SetMap.Len w_map = Done (size (sets w_map)).
Proof. split; [vm_compute; reflexivity|]. apply (SetMap_refines 0 w_map 4 w_map_wf). Defined.

(** 0 is taken for the start of the search: the least member of a set that holds
    0 is not found. *)
Theorem Min_zero : IDSet.Min 0 (IDSet.IDSetWith [0; 5]%Z) = (5%Z, true).
Proof. vm_compute. reflexivity. Qed.

(** Keys of the second map that the first one does not have are not seen. *)
Definition w_two : run DefaultIDSetMap := SetMap.DisjointIDSetWith [1; 2]%Z.
Definition w_three : run DefaultIDSetMap := (let! sm := w_two in SetMap.AddID sm 3 4)%go.
Theorem compare_not_symmetric :
  (let! a := w_two in let! b := w_three in SetMap.compareDefaultIDSetMaps 0 (Some a) (Some b))%go = Done true /\
  (let! a := w_two in let! b := w_three in SetMap.compareDefaultIDSetMaps 0 (Some b) (Some a))%go = Done false.
Proof. split; vm_compute; reflexivity. Qed.
End Witness.
