(* ===== verification/Lsif.v ===== *)
(** The correlation of an LSIF dump: its elements are read one by one into a
    state.  Sources: [state.go], [types.go], [errors.go] and [correlate.go] of
    [lib/codeintel/lsif/conversion], and the types of
    [lib/codeintel/lsif/protocol].

    Reading and decoding the dump is not modelled: an element comes with its
    decoded payload.  The maps of the state hold
    pointers to maps of sets, each pointer once, so they hold values here; an
    update through a pointer is an update of the entry.  When an element is
    rejected the state is dropped. *)
From S2P Require Import Prelude GoStr GoLib GoMap FilePath IdSets.

(** ** Data *)
Record Pos := MkPos { Line : Z; Character : Z }.
Record RangeData_ := MkRangeData { Start : Pos; End_ : Pos }.
Record RangeTag := MkRangeTag {
  Tag_Type : gostring; Tag_Text : gostring; Tag_Kind : Z; FullRange : option RangeData_;
  Detail : gostring; Tag_Tags : list Z
}.

(** A range, and the results that it was given. *)
Record Range := MkRange {
  r_Data : RangeData_; r_Tag : option RangeTag;
  r_DefinitionResultID : Z; r_ReferenceResultID : Z; r_ImplementationResultID : Z; r_HoverResultID : Z
}.
Record ResultSet := MkResultSet {
  DefinitionResultID : Z; ReferenceResultID : Z; ImplementationResultID : Z; HoverResultID : Z
}.
Record Moniker := MkMoniker {
  Kind : gostring; Scheme : gostring; Identifier : gostring; PackageInformationID : Z
}.
Record PackageInformation := MkPackage { p_Name : gostring; p_Version : gostring; p_Manager : gostring }.
Record Diagnostic := MkDiagnostic {
  Severity : Z; Code : gostring; Message : gostring; d_Source : gostring;
  StartLine : Z; StartCharacter : Z; EndLine : Z; EndCharacter : Z
}.
Record ToolInfo := MkToolInfo { ti_Name : gostring; ti_Version : gostring }.
Record MetaData := MkMetaData {
  md_Version : gostring; md_ProjectRoot : gostring; md_PositionEncoding : gostring; md_ToolInfo : ToolInfo
}.
Record Edge := MkEdge { OutV : Z; InV : Z; InVs : list Z; Document : Z }.

(** The dynamic type of the payload of an element: as the reader decodes it, and
    as correlation expects it. *)
Record reader_Range := MkReaderRange { rr_Data : RangeData_; rr_Tag : option RangeTag }.
Record reader_Moniker := MkReaderMoniker { rm_Kind : gostring; rm_Scheme : gostring; rm_Identifier : gostring }.

Inductive reader_Payload :=
| REdge (edge : Edge)
| RMetaData (metaData : MetaData)
| RPackageInformation (info : PackageInformation)
| RDiagnostic (diagnostic : Diagnostic)
| RRange (range : reader_Range)
| RResultSet
| RMoniker (moniker : reader_Moniker)
| RDiagnostics (diagnostics : list Diagnostic)
| RString (s : gostring)
| ROther.

Inductive Payload :=
| PEdge (edge : Edge)
| PMetaData (metaData : MetaData)
| PPackageInformation (info : PackageInformation)
| PDiagnostic (diagnostic : Diagnostic)
| PRange (range : Range)
| PResultSet (resultSet : ResultSet)
| PMoniker (moniker : Moniker)
| PDiagnostics (diagnostics : list Diagnostic)
| PString (s : gostring)
| POther.

Definition translatePayload (payload : reader_Payload) : Payload :=
  match payload with
  | REdge v => PEdge v
  | RMetaData v => PMetaData v
  | RPackageInformation v => PPackageInformation v
  | RDiagnostic v => PDiagnostic v
  | RRange v => PRange (MkRange (rr_Data v) (rr_Tag v) 0 0 0 0)
  | RResultSet => PResultSet (MkResultSet 0 0 0 0)
  | RMoniker v => PMoniker (MkMoniker (rm_Kind v) (rm_Scheme v) (rm_Identifier v) 0)
  | RDiagnostics v => PDiagnostics v
  | RString s => PString s
  | ROther => POther
  end.

Record Element := MkElement { el_ID : Z; el_Type : gostring; Label : gostring; el_Payload : Payload }.
Record reader_Element := MkReaderElement {
  re_ID : Z; re_Type : gostring; re_Label : gostring; re_Payload : reader_Payload
}.

Definition translate (e : reader_Element) : Element :=
  MkElement (re_ID e) (re_Type e) (re_Label e) (translatePayload (re_Payload e)).

Definition Range_SetDefinitionResultID (r : Range) (id : Z) : Range :=
  MkRange (r_Data r) (r_Tag r) id (r_ReferenceResultID r) (r_ImplementationResultID r) (r_HoverResultID r).
Definition Range_SetReferenceResultID (r : Range) (id : Z) : Range :=
  MkRange (r_Data r) (r_Tag r) (r_DefinitionResultID r) id (r_ImplementationResultID r) (r_HoverResultID r).
Definition Range_SetImplementationResultID (r : Range) (id : Z) : Range :=
  MkRange (r_Data r) (r_Tag r) (r_DefinitionResultID r) (r_ReferenceResultID r) id (r_HoverResultID r).
Definition Range_SetHoverResultID (r : Range) (id : Z) : Range :=
  MkRange (r_Data r) (r_Tag r) (r_DefinitionResultID r) (r_ReferenceResultID r) (r_ImplementationResultID r) id.

Definition SetDefinitionResultID (rs : ResultSet) (id : Z) : ResultSet :=
  MkResultSet id (ReferenceResultID rs) (ImplementationResultID rs) (HoverResultID rs).
Definition SetReferenceResultID (rs : ResultSet) (id : Z) : ResultSet :=
  MkResultSet (DefinitionResultID rs) id (ImplementationResultID rs) (HoverResultID rs).
Definition SetImplementationResultID (rs : ResultSet) (id : Z) : ResultSet :=
  MkResultSet (DefinitionResultID rs) (ReferenceResultID rs) id (HoverResultID rs).
Definition SetHoverResultID (rs : ResultSet) (id : Z) : ResultSet :=
  MkResultSet (DefinitionResultID rs) (ReferenceResultID rs) (ImplementationResultID rs) id.

Definition SetPackageInformationID (m : Moniker) (id : Z) : Moniker :=
  MkMoniker (Kind m) (Scheme m) (Identifier m) id.

(** [state.go] *)
Record State := MkState {
  LSIFVersion : gostring;
  ProjectRoot : gostring;
  DocumentData : gmap Z gostring;
  RangeData : gmap Z Range;
  ResultSetData : gmap Z ResultSet;
  DefinitionData : gmap Z DefaultIDSetMap;
  ReferenceData : gmap Z DefaultIDSetMap;
  ImplementationData : gmap Z DefaultIDSetMap;
  HoverData : gmap Z gostring;
  MonikerData : gmap Z Moniker;
  PackageInformationData : gmap Z PackageInformation;
  DiagnosticResults : gmap Z (list Diagnostic);
  NextData : gmap Z Z;
  ImportedMonikers : IDSet;
  ExportedMonikers : IDSet;
  ImplementedMonikers : IDSet;
  LinkedMonikers : DefaultIDSetMap;
  LinkedReferenceResults : gmap Z (list Z);
  Monikers : DefaultIDSetMap;
  Contains : DefaultIDSetMap;
  Diagnostics : DefaultIDSetMap
}.

Definition set_MetaData (st : State) (version x : gostring) : State :=
  MkState version x (DocumentData st) (RangeData st) (ResultSetData st)
    (DefinitionData st) (ReferenceData st) (ImplementationData st) (HoverData st)
    (MonikerData st) (PackageInformationData st) (DiagnosticResults st) (NextData st)
    (ImportedMonikers st) (ExportedMonikers st) (ImplementedMonikers st) (LinkedMonikers st)
    (LinkedReferenceResults st) (Monikers st) (Contains st) (Diagnostics st).
Definition set_DocumentData (st : State) (x : gmap Z gostring) : State :=
  MkState (LSIFVersion st) (ProjectRoot st) x (RangeData st) (ResultSetData st)
    (DefinitionData st) (ReferenceData st) (ImplementationData st) (HoverData st)
    (MonikerData st) (PackageInformationData st) (DiagnosticResults st) (NextData st)
    (ImportedMonikers st) (ExportedMonikers st) (ImplementedMonikers st) (LinkedMonikers st)
    (LinkedReferenceResults st) (Monikers st) (Contains st) (Diagnostics st).
Definition set_RangeData (st : State) (x : gmap Z Range) : State :=
  MkState (LSIFVersion st) (ProjectRoot st) (DocumentData st) x (ResultSetData st)
    (DefinitionData st) (ReferenceData st) (ImplementationData st) (HoverData st)
    (MonikerData st) (PackageInformationData st) (DiagnosticResults st) (NextData st)
    (ImportedMonikers st) (ExportedMonikers st) (ImplementedMonikers st) (LinkedMonikers st)
    (LinkedReferenceResults st) (Monikers st) (Contains st) (Diagnostics st).
Definition set_ResultSetData (st : State) (x : gmap Z ResultSet) : State :=
  MkState (LSIFVersion st) (ProjectRoot st) (DocumentData st) (RangeData st) x
    (DefinitionData st) (ReferenceData st) (ImplementationData st) (HoverData st)
    (MonikerData st) (PackageInformationData st) (DiagnosticResults st) (NextData st)
    (ImportedMonikers st) (ExportedMonikers st) (ImplementedMonikers st) (LinkedMonikers st)
    (LinkedReferenceResults st) (Monikers st) (Contains st) (Diagnostics st).
Definition set_DefinitionData (st : State) (x : gmap Z DefaultIDSetMap) : State :=
  MkState (LSIFVersion st) (ProjectRoot st) (DocumentData st) (RangeData st) (ResultSetData st)
    x (ReferenceData st) (ImplementationData st) (HoverData st) (MonikerData st)
    (PackageInformationData st) (DiagnosticResults st) (NextData st) (ImportedMonikers st)
    (ExportedMonikers st) (ImplementedMonikers st) (LinkedMonikers st)
    (LinkedReferenceResults st) (Monikers st) (Contains st) (Diagnostics st).
Definition set_ReferenceData (st : State) (x : gmap Z DefaultIDSetMap) : State :=
  MkState (LSIFVersion st) (ProjectRoot st) (DocumentData st) (RangeData st) (ResultSetData st)
    (DefinitionData st) x (ImplementationData st) (HoverData st) (MonikerData st)
    (PackageInformationData st) (DiagnosticResults st) (NextData st) (ImportedMonikers st)
    (ExportedMonikers st) (ImplementedMonikers st) (LinkedMonikers st)
    (LinkedReferenceResults st) (Monikers st) (Contains st) (Diagnostics st).
Definition set_ImplementationData (st : State) (x : gmap Z DefaultIDSetMap) : State :=
  MkState (LSIFVersion st) (ProjectRoot st) (DocumentData st) (RangeData st) (ResultSetData st)
    (DefinitionData st) (ReferenceData st) x (HoverData st) (MonikerData st)
    (PackageInformationData st) (DiagnosticResults st) (NextData st) (ImportedMonikers st)
    (ExportedMonikers st) (ImplementedMonikers st) (LinkedMonikers st)
    (LinkedReferenceResults st) (Monikers st) (Contains st) (Diagnostics st).
Definition set_HoverData (st : State) (x : gmap Z gostring) : State :=
  MkState (LSIFVersion st) (ProjectRoot st) (DocumentData st) (RangeData st) (ResultSetData st)
    (DefinitionData st) (ReferenceData st) (ImplementationData st) x (MonikerData st)
    (PackageInformationData st) (DiagnosticResults st) (NextData st) (ImportedMonikers st)
    (ExportedMonikers st) (ImplementedMonikers st) (LinkedMonikers st)
    (LinkedReferenceResults st) (Monikers st) (Contains st) (Diagnostics st).
Definition set_MonikerData (st : State) (x : gmap Z Moniker) : State :=
  MkState (LSIFVersion st) (ProjectRoot st) (DocumentData st) (RangeData st) (ResultSetData st)
    (DefinitionData st) (ReferenceData st) (ImplementationData st) (HoverData st) x
    (PackageInformationData st) (DiagnosticResults st) (NextData st) (ImportedMonikers st)
    (ExportedMonikers st) (ImplementedMonikers st) (LinkedMonikers st)
    (LinkedReferenceResults st) (Monikers st) (Contains st) (Diagnostics st).
Definition set_PackageInformationData (st : State) (x : gmap Z PackageInformation) : State :=
  MkState (LSIFVersion st) (ProjectRoot st) (DocumentData st) (RangeData st) (ResultSetData st)
    (DefinitionData st) (ReferenceData st) (ImplementationData st) (HoverData st)
    (MonikerData st) x (DiagnosticResults st) (NextData st) (ImportedMonikers st)
    (ExportedMonikers st) (ImplementedMonikers st) (LinkedMonikers st)
    (LinkedReferenceResults st) (Monikers st) (Contains st) (Diagnostics st).
Definition set_DiagnosticResults (st : State) (x : gmap Z (list Diagnostic)) : State :=
  MkState (LSIFVersion st) (ProjectRoot st) (DocumentData st) (RangeData st) (ResultSetData st)
    (DefinitionData st) (ReferenceData st) (ImplementationData st) (HoverData st)
    (MonikerData st) (PackageInformationData st) x (NextData st) (ImportedMonikers st)
    (ExportedMonikers st) (ImplementedMonikers st) (LinkedMonikers st)
    (LinkedReferenceResults st) (Monikers st) (Contains st) (Diagnostics st).
Definition set_NextData (st : State) (x : gmap Z Z) : State :=
  MkState (LSIFVersion st) (ProjectRoot st) (DocumentData st) (RangeData st) (ResultSetData st)
    (DefinitionData st) (ReferenceData st) (ImplementationData st) (HoverData st)
    (MonikerData st) (PackageInformationData st) (DiagnosticResults st) x (ImportedMonikers st)
    (ExportedMonikers st) (ImplementedMonikers st) (LinkedMonikers st)
    (LinkedReferenceResults st) (Monikers st) (Contains st) (Diagnostics st).
Definition set_ImportedMonikers (st : State) (x : IDSet) : State :=
  MkState (LSIFVersion st) (ProjectRoot st) (DocumentData st) (RangeData st) (ResultSetData st)
    (DefinitionData st) (ReferenceData st) (ImplementationData st) (HoverData st)
    (MonikerData st) (PackageInformationData st) (DiagnosticResults st) (NextData st) x
    (ExportedMonikers st) (ImplementedMonikers st) (LinkedMonikers st)
    (LinkedReferenceResults st) (Monikers st) (Contains st) (Diagnostics st).
Definition set_ExportedMonikers (st : State) (x : IDSet) : State :=
  MkState (LSIFVersion st) (ProjectRoot st) (DocumentData st) (RangeData st) (ResultSetData st)
    (DefinitionData st) (ReferenceData st) (ImplementationData st) (HoverData st)
    (MonikerData st) (PackageInformationData st) (DiagnosticResults st) (NextData st)
    (ImportedMonikers st) x (ImplementedMonikers st) (LinkedMonikers st)
    (LinkedReferenceResults st) (Monikers st) (Contains st) (Diagnostics st).
Definition set_ImplementedMonikers (st : State) (x : IDSet) : State :=
  MkState (LSIFVersion st) (ProjectRoot st) (DocumentData st) (RangeData st) (ResultSetData st)
    (DefinitionData st) (ReferenceData st) (ImplementationData st) (HoverData st)
    (MonikerData st) (PackageInformationData st) (DiagnosticResults st) (NextData st)
    (ImportedMonikers st) (ExportedMonikers st) x (LinkedMonikers st)
    (LinkedReferenceResults st) (Monikers st) (Contains st) (Diagnostics st).
Definition set_LinkedMonikers (st : State) (x : DefaultIDSetMap) : State :=
  MkState (LSIFVersion st) (ProjectRoot st) (DocumentData st) (RangeData st) (ResultSetData st)
    (DefinitionData st) (ReferenceData st) (ImplementationData st) (HoverData st)
    (MonikerData st) (PackageInformationData st) (DiagnosticResults st) (NextData st)
    (ImportedMonikers st) (ExportedMonikers st) (ImplementedMonikers st) x
    (LinkedReferenceResults st) (Monikers st) (Contains st) (Diagnostics st).
Definition set_LinkedReferenceResults (st : State) (x : gmap Z (list Z)) : State :=
  MkState (LSIFVersion st) (ProjectRoot st) (DocumentData st) (RangeData st) (ResultSetData st)
    (DefinitionData st) (ReferenceData st) (ImplementationData st) (HoverData st)
    (MonikerData st) (PackageInformationData st) (DiagnosticResults st) (NextData st)
    (ImportedMonikers st) (ExportedMonikers st) (ImplementedMonikers st) (LinkedMonikers st) x
    (Monikers st) (Contains st) (Diagnostics st).
Definition set_Monikers (st : State) (x : DefaultIDSetMap) : State :=
  MkState (LSIFVersion st) (ProjectRoot st) (DocumentData st) (RangeData st) (ResultSetData st)
    (DefinitionData st) (ReferenceData st) (ImplementationData st) (HoverData st)
    (MonikerData st) (PackageInformationData st) (DiagnosticResults st) (NextData st)
    (ImportedMonikers st) (ExportedMonikers st) (ImplementedMonikers st) (LinkedMonikers st)
    (LinkedReferenceResults st) x (Contains st) (Diagnostics st).
Definition set_Contains (st : State) (x : DefaultIDSetMap) : State :=
  MkState (LSIFVersion st) (ProjectRoot st) (DocumentData st) (RangeData st) (ResultSetData st)
    (DefinitionData st) (ReferenceData st) (ImplementationData st) (HoverData st)
    (MonikerData st) (PackageInformationData st) (DiagnosticResults st) (NextData st)
    (ImportedMonikers st) (ExportedMonikers st) (ImplementedMonikers st) (LinkedMonikers st)
    (LinkedReferenceResults st) (Monikers st) x (Diagnostics st).
Definition set_Diagnostics (st : State) (x : DefaultIDSetMap) : State :=
  MkState (LSIFVersion st) (ProjectRoot st) (DocumentData st) (RangeData st) (ResultSetData st)
    (DefinitionData st) (ReferenceData st) (ImplementationData st) (HoverData st)
    (MonikerData st) (PackageInformationData st) (DiagnosticResults st) (NextData st)
    (ImportedMonikers st) (ExportedMonikers st) (ImplementedMonikers st) (LinkedMonikers st)
    (LinkedReferenceResults st) (Monikers st) (Contains st) x.

Definition newState : State :=
  MkState [] [] ∅ ∅ ∅ ∅ ∅ ∅ ∅ ∅ ∅ ∅ ∅ IDSet.NewIDSet IDSet.NewIDSet IDSet.NewIDSet
    SetMap.NewDisjointIDSet ∅ SetMap.NewDefaultIDSetMap SetMap.NewDefaultIDSetMap SetMap.NewDefaultIDSetMap.

Record wrappedState := MkWrapped {
  st : State;
  dumpRoot : gostring;
  unsupportedVertices : IDSet;
  rangeToDoc : gmap Z Z
}.

Definition newWrappedState (dumpRoot : gostring) : wrappedState :=
  MkWrapped newState dumpRoot IDSet.NewIDSet ∅.

Definition set_st (w : wrappedState) (s : State) : wrappedState :=
  MkWrapped s (dumpRoot w) (unsupportedVertices w) (rangeToDoc w).
Definition set_rangeToDoc (w : wrappedState) (m : gmap Z Z) : wrappedState :=
  MkWrapped (st w) (dumpRoot w) (unsupportedVertices w) m.

(** ** Errors *)
Inductive lerror :=
| ErrMissingMetaData
| ErrUnexpectedPayload
| ErrMalformedDump (id references : Z) (kinds : list gostring)
| LErrorf (msg : gostring)
| ErrElement (i : nat) (err : lerror).

Definition malformedDump (id references : Z) (kinds : list gostring) : lerror :=
  ErrMalformedDump id references kinds.

(** Computations that may return an error. *)
Definition try_bind {A B} (m : run (result lerror A)) (k : A -> run (result lerror B))
    : run (result lerror B) :=
  let! r := m in
  match r with
  | Ok a => k a
  | Err err => Done (Err err)
  end.
Notation "'let?' x ':=' m 'in' k" := (try_bind m (fun x => k))
  (at level 10, x name, m at level 100, k at level 200) : go_scope.

Notation step := (run (result lerror wrappedState)).
Definition ret (w : wrappedState) : step := Done (Ok w).
Definition fail (err : lerror) : step := Done (Err err).
Definition has {A} (m : gmap Z A) (id : Z) : bool := bool_decide (is_Some (m !! id)).

(** ** Vertices *)
Section Correlate.
Context {U : UnicodeTables}.

Definition correlateMetaData (w : wrappedState) (element : Element) : step :=
  match el_Payload element with
  | PMetaData payload =>
      let root := md_ProjectRoot payload in
      let root := if HasSuffix root (str "/") then root else root ++ str "/" in
      let root :=
        if negb (gs_eqb (dumpRoot w) []) && negb (HasSuffix root (str "/" ++ dumpRoot w))
        then root ++ dumpRoot w else root in
      ret (set_st w (set_MetaData (st w) (md_Version payload) root))
  | _ => fail ErrUnexpectedPayload
  end.

Definition correlateDocument (w : wrappedState) (element : Element) : step :=
  match el_Payload element with
  | PString payload =>
      if gs_eqb (ProjectRoot (st w)) [] then fail ErrMissingMetaData
      else
        match Rel (ProjectRoot (st w)) payload with
        | Err err =>
            fail (LErrorf (str "document URI " ++ Quote payload ++ str " is not relative to project root " ++
                           Quote (ProjectRoot (st w)) ++ str " (" ++ err ++ str ")"))
        | Ok relativeURI =>
            ret (set_st w (set_DocumentData (st w) (<[el_ID element := relativeURI]> (DocumentData (st w)))))
        end
  | _ => fail ErrUnexpectedPayload
  end.

Definition correlateRange (w : wrappedState) (element : Element) : step :=
  match el_Payload element with
  | PRange payload => ret (set_st w (set_RangeData (st w) (<[el_ID element := payload]> (RangeData (st w)))))
  | _ => fail ErrUnexpectedPayload
  end.

Definition correlateResultSet (w : wrappedState) (element : Element) : step :=
  ret (set_st w (set_ResultSetData (st w)
    (<[el_ID element := MkResultSet 0 0 0 0]> (ResultSetData (st w))))).

Definition correlateDefinitionResult (w : wrappedState) (element : Element) : step :=
  ret (set_st w (set_DefinitionData (st w)
    (<[el_ID element := SetMap.NewDefaultIDSetMap]> (DefinitionData (st w))))).

Definition correlateReferenceResult (w : wrappedState) (element : Element) : step :=
  ret (set_st w (set_ReferenceData (st w)
    (<[el_ID element := SetMap.NewDefaultIDSetMap]> (ReferenceData (st w))))).

Definition correlateImplementationResult (w : wrappedState) (element : Element) : step :=
  ret (set_st w (set_ImplementationData (st w)
    (<[el_ID element := SetMap.NewDefaultIDSetMap]> (ImplementationData (st w))))).

Definition correlateHoverResult (w : wrappedState) (element : Element) : step :=
  match el_Payload element with
  | PString payload => ret (set_st w (set_HoverData (st w) (<[el_ID element := payload]> (HoverData (st w)))))
  | _ => fail ErrUnexpectedPayload
  end.

Definition correlateMoniker (w : wrappedState) (element : Element) : step :=
  match el_Payload element with
  | PMoniker payload =>
      ret (set_st w (set_MonikerData (st w) (<[el_ID element := payload]> (MonikerData (st w)))))
  | _ => fail ErrUnexpectedPayload
  end.

Definition correlatePackageInformation (w : wrappedState) (element : Element) : step :=
  match el_Payload element with
  | PPackageInformation payload =>
      ret (set_st w (set_PackageInformationData (st w)
        (<[el_ID element := payload]> (PackageInformationData (st w)))))
  | _ => fail ErrUnexpectedPayload
  end.

Definition correlateDiagnosticResult (w : wrappedState) (element : Element) : step :=
  match el_Payload element with
  | PDiagnostics payload =>
      ret (set_st w (set_DiagnosticResults (st w)
        (<[el_ID element := payload]> (DiagnosticResults (st w)))))
  | _ => fail ErrUnexpectedPayload
  end.

Definition vertexHandlers : list (gostring * (wrappedState -> Element -> step)) :=
  [(str "metaData", correlateMetaData);
   (str "document", correlateDocument);
   (str "range", correlateRange);
   (str "resultSet", correlateResultSet);
   (str "definitionResult", correlateDefinitionResult);
   (str "referenceResult", correlateReferenceResult);
   (str "implementationResult", correlateImplementationResult);
   (str "hoverResult", correlateHoverResult);
   (str "moniker", correlateMoniker);
   (str "packageInformation", correlatePackageInformation);
   (str "diagnosticResult", correlateDiagnosticResult)].

Definition correlateVertex (w : wrappedState) (element : Element) : step :=
  match assoc (Label element) vertexHandlers with
  | None =>
      ret (MkWrapped (st w) (dumpRoot w) (IDSet.Add (unsupportedVertices w) (el_ID element)) (rangeToDoc w))
  | Some handler => handler w element
  end.

(** ** Edges *)

Fixpoint contains_loop (id : Z) (edge : Edge) (inVs : list Z) (w : wrappedState) : step :=
  match inVs with
  | [] => ret w
  | inV :: inVs =>
      if negb (has (RangeData (st w)) inV) then fail (malformedDump id inV [str "range"])
      else if match rangeToDoc w !! inV with Some doc => negb (doc =? OutV edge)%Z | None => false end then
        fail (LErrorf (str "validate: range " ++ FormatInt inV ++ str " is contained in document " ++
                       FormatInt (OutV edge) ++ str ", but linked to a different document " ++
                       FormatInt (default 0%Z (rangeToDoc w !! inV))))
      else
        let! contains := SetMap.AddID (Contains (st w)) (OutV edge) inV in
        contains_loop id edge inVs (set_st w (set_Contains (st w) contains))
  end.

Definition correlateContainsEdge (w : wrappedState) (id : Z) (edge : Edge) : step :=
  if negb (has (DocumentData (st w)) (OutV edge)) then ret w
  else contains_loop id edge (InVs edge) w.

Definition correlateNextEdge (w : wrappedState) (id : Z) (edge : Edge) : step :=
  if negb (has (ResultSetData (st w)) (InV edge)) then fail (malformedDump id (InV edge) [str "resultSet"])
  else if has (RangeData (st w)) (OutV edge) || has (ResultSetData (st w)) (OutV edge) then
    ret (set_st w (set_NextData (st w) (<[OutV edge := InV edge]> (NextData (st w)))))
  else fail (malformedDump id (OutV edge) [str "range"; str "resultSet"]).

(** The document that a range was linked to must stay the same. *)
Definition link_range (w : wrappedState) (id inV document : Z) : step :=
  match rangeToDoc w !! inV with
  | Some doc =>
      if negb (doc =? document)%Z then
        fail (LErrorf (str "at item edge " ++ FormatInt id ++ str ", range " ++ FormatInt inV ++
                       str " can't be linked to document " ++ FormatInt document ++
                       str " because it's already linked to " ++ FormatInt doc ++
                       str " by a previous item edge"))
      else ret (set_rangeToDoc w (<[inV := document]> (rangeToDoc w)))
  | None => ret (set_rangeToDoc w (<[inV := document]> (rangeToDoc w)))
  end.

(** [documentMap] is the entry of [edge.OutV], which the loop updates. *)
Fixpoint item_definitions (id : Z) (edge : Edge) (inVs : list Z) (documentMap : DefaultIDSetMap)
    (w : wrappedState) : step :=
  match inVs with
  | [] => ret w
  | inV :: inVs =>
      if negb (has (RangeData (st w)) inV) then fail (malformedDump id inV [str "range"])
      else
        let! documentMap := SetMap.AddID documentMap (Document edge) inV in
        let w := set_st w (set_DefinitionData (st w) (<[OutV edge := documentMap]> (DefinitionData (st w)))) in
        let? w := link_range w id inV (Document edge) in
        item_definitions id edge inVs documentMap w
  end.

Fixpoint item_references (id : Z) (edge : Edge) (inVs : list Z) (documentMap : DefaultIDSetMap)
    (w : wrappedState) : step :=
  match inVs with
  | [] => ret w
  | inV :: inVs =>
      if has (ReferenceData (st w)) inV then
        let links := LinkedReferenceResults (st w) in
        item_references id edge inVs documentMap
          (set_st w (set_LinkedReferenceResults (st w)
             (<[OutV edge := default [] (links !! OutV edge) ++ [inV]]> links)))
      else if negb (has (RangeData (st w)) inV) then fail (malformedDump id inV [str "range"])
      else
        let! documentMap := SetMap.AddID documentMap (Document edge) inV in
        let w := set_st w (set_ReferenceData (st w) (<[OutV edge := documentMap]> (ReferenceData (st w)))) in
        let? w := link_range w id inV (Document edge) in
        item_references id edge inVs documentMap w
  end.

Fixpoint item_implementations (id : Z) (edge : Edge) (inVs : list Z) (documentMap : DefaultIDSetMap)
    (w : wrappedState) : step :=
  match inVs with
  | [] => ret w
  | inV :: inVs =>
      if negb (has (RangeData (st w)) inV) then fail (malformedDump id inV [str "range"])
      else
        let! documentMap := SetMap.AddID documentMap (Document edge) inV in
        item_implementations id edge inVs documentMap
          (set_st w (set_ImplementationData (st w) (<[OutV edge := documentMap]> (ImplementationData (st w)))))
  end.

Definition correlateItemEdge (w : wrappedState) (id : Z) (edge : Edge) : step :=
  if (Document edge =? 0)%Z then fail (malformedDump id (OutV edge) [str "document"])
  else
    match DefinitionData (st w) !! OutV edge with
    | Some documentMap => item_definitions id edge (InVs edge) documentMap w
    | None =>
        match ReferenceData (st w) !! OutV edge with
        | Some documentMap => item_references id edge (InVs edge) documentMap w
        | None =>
            match ImplementationData (st w) !! OutV edge with
            | Some documentMap => item_implementations id edge (InVs edge) documentMap w
            | None =>
                if negb (IDSet.Contains (unsupportedVertices w) (OutV edge))
                then fail (malformedDump id (OutV edge) [str "vertex"]) else ret w
            end
        end
    end.

(** The four [textDocument] edges: the target is known, and the source is a
    range or a result set whose field is set. *)
Definition set_result (w : wrappedState) (id : Z) (edge : Edge)
    (setRange : Range -> Z -> Range) (setResultSet : ResultSet -> Z -> ResultSet) : step :=
  match RangeData (st w) !! OutV edge with
  | Some source =>
      ret (set_st w (set_RangeData (st w) (<[OutV edge := setRange source (InV edge)]> (RangeData (st w)))))
  | None =>
      match ResultSetData (st w) !! OutV edge with
      | Some source =>
          ret (set_st w (set_ResultSetData (st w)
            (<[OutV edge := setResultSet source (InV edge)]> (ResultSetData (st w)))))
      | None => fail (malformedDump id (OutV edge) [str "range"; str "resultSet"])
      end
  end.

Definition correlateTextDocumentDefinitionEdge (w : wrappedState) (id : Z) (edge : Edge) : step :=
  if negb (has (DefinitionData (st w)) (InV edge))
  then fail (malformedDump id (InV edge) [str "definitionResult"])
  else set_result w id edge Range_SetDefinitionResultID SetDefinitionResultID.

Definition correlateTextDocumentReferencesEdge (w : wrappedState) (id : Z) (edge : Edge) : step :=
  if negb (has (ReferenceData (st w)) (InV edge))
  then fail (malformedDump id (InV edge) [str "referenceResult"])
  else set_result w id edge Range_SetReferenceResultID SetReferenceResultID.

Definition correlateTextDocumentImplementationEdge (w : wrappedState) (id : Z) (edge : Edge) : step :=
  if negb (has (ImplementationData (st w)) (InV edge))
  then fail (malformedDump id (InV edge) [str "implementationResult"])
  else set_result w id edge Range_SetImplementationResultID SetImplementationResultID.

Definition correlateTextDocumentHoverEdge (w : wrappedState) (id : Z) (edge : Edge) : step :=
  if negb (has (HoverData (st w)) (InV edge))
  then fail (malformedDump id (InV edge) [str "hoverResult"])
  else set_result w id edge Range_SetHoverResultID SetHoverResultID.

Definition correlateMonikerEdge (w : wrappedState) (id : Z) (edge : Edge) : step :=
  if negb (has (MonikerData (st w)) (InV edge)) then fail (malformedDump id (InV edge) [str "moniker"])
  else if has (RangeData (st w)) (OutV edge) || has (ResultSetData (st w)) (OutV edge) then
    let! monikers := SetMap.AddID (Monikers (st w)) (OutV edge) (InV edge) in
    ret (set_st w (set_Monikers (st w) monikers))
  else fail (malformedDump id (OutV edge) [str "range"; str "resultSet"]).

Definition correlateNextMonikerEdge (w : wrappedState) (id : Z) (edge : Edge) : step :=
  if negb (has (MonikerData (st w)) (InV edge)) then fail (malformedDump id (InV edge) [str "moniker"])
  else if negb (has (MonikerData (st w)) (OutV edge)) then fail (malformedDump id (OutV edge) [str "moniker"])
  else
    let! linked := SetMap.Link (LinkedMonikers (st w)) (InV edge) (OutV edge) in
    ret (set_st w (set_LinkedMonikers (st w) linked)).

Definition correlatePackageInformationEdge (w : wrappedState) (id : Z) (edge : Edge) : step :=
  if negb (has (PackageInformationData (st w)) (InV edge))
  then fail (malformedDump id (InV edge) [str "packageInformation"])
  else
    match MonikerData (st w) !! OutV edge with
    | None => fail (malformedDump id (OutV edge) [str "moniker"])
    | Some source =>
        let s := set_MonikerData (st w)
          (<[OutV edge := SetPackageInformationID source (InV edge)]> (MonikerData (st w))) in
        ret (set_st w
          (if gs_eqb (Kind source) (str "import")
           then set_ImportedMonikers s (IDSet.Add (ImportedMonikers s) (OutV edge))
           else if gs_eqb (Kind source) (str "export")
           then set_ExportedMonikers s (IDSet.Add (ExportedMonikers s) (OutV edge))
           else if gs_eqb (Kind source) (str "implementation")
           then set_ImplementedMonikers s (IDSet.Add (ImplementedMonikers s) (OutV edge))
           else s))
    end.

Definition correlateDiagnosticEdge (w : wrappedState) (id : Z) (edge : Edge) : step :=
  if negb (has (DocumentData (st w)) (OutV edge)) then fail (malformedDump id (OutV edge) [str "document"])
  else if negb (has (DiagnosticResults (st w)) (InV edge))
  then fail (malformedDump id (InV edge) [str "diagnosticResult"])
  else
    let! diagnostics := SetMap.AddID (Diagnostics (st w)) (OutV edge) (InV edge) in
    ret (set_st w (set_Diagnostics (st w) diagnostics)).

Definition edgeHandlers : list (gostring * (wrappedState -> Z -> Edge -> step)) :=
  [(str "contains", correlateContainsEdge);
   (str "next", correlateNextEdge);
   (str "item", correlateItemEdge);
   (str "textDocument/definition", correlateTextDocumentDefinitionEdge);
   (str "textDocument/references", correlateTextDocumentReferencesEdge);
   (str "textDocument/implementation", correlateTextDocumentImplementationEdge);
   (str "textDocument/hover", correlateTextDocumentHoverEdge);
   (str "moniker", correlateMonikerEdge);
   (str "nextMoniker", correlateNextMonikerEdge);
   (str "packageInformation", correlatePackageInformationEdge);
   (str "textDocument/diagnostic", correlateDiagnosticEdge)].

Definition correlateEdge (w : wrappedState) (element : Element) : step :=
  match el_Payload element with
  | PEdge payload =>
      match assoc (Label element) edgeHandlers with
      | None => ret w
      | Some handler => handler w (el_ID element) payload
      end
  | _ => ret w
  end.

Definition correlateElement (w : wrappedState) (element : Element) : step :=
  if gs_eqb (el_Type element) (str "vertex") then correlateVertex w element
  else if gs_eqb (el_Type element) (str "edge") then correlateEdge w element
  else fail (LErrorf (str "unknown element type " ++ el_Type element)).

(** ** The dump *)

(** [Pair]: an element, or the error of reading it. *)
Definition Read (pairs : list (result lerror reader_Element)) : list (result lerror Element) :=
  map (fun p => match p with Ok e => Ok (translate e) | Err err => Err err end) pairs.

Fixpoint correlate_loop (i : nat) (pairs : list (result lerror Element)) (w : wrappedState) : step :=
  match pairs with
  | [] => ret w
  | p :: pairs =>
      match p with
      | Err err => fail (ErrElement (S i) err)
      | Ok element =>
          let! r := correlateElement w element in
          match r with
          | Err err => fail (ErrElement (S i) err)
          | Ok w => correlate_loop (S i) pairs w
          end
      end
  end.

(** The channel that the reader fills is the list of its values. *)
Definition correlateFromReader (root : gostring) (pairs : list (result lerror reader_Element))
    : run (result lerror State) :=
  let? w := correlate_loop 0 (Read pairs) (newWrappedState root) in
  if gs_eqb (LSIFVersion (st w)) [] then Done (Err ErrMissingMetaData) else Done (Ok (st w)).
End Correlate.
