(* ===== verification/LsifFacts.v ===== *)
(** Correlation keeps references intact: every identifier that the state refers
    to is the identifier of an element of the kind that is expected there.  The
    documents under which ranges are grouped are not part of this: an item edge may
    name one that does not exist. *)
From S2P Require Import Prelude GoStr GoLib GoMap FilePath IdSets IdSetFacts Lsif.

(** ** References *)

Definition knows {A} (m : gmap Z A) (id : Z) : Prop := is_Some (m !! id).

Lemma knows_insert {A} (m : gmap Z A) id v x : knows m x -> knows (<[id := v]> m) x.
Proof. unfold knows. rewrite lookup_insert_is_Some'. by right. Qed.

Lemma knows_here {A} (m : gmap Z A) id v : knows (<[id := v]> m) id.
Proof. unfold knows. rewrite lookup_insert_is_Some'. by left. Qed.

Lemma has_knows {A} (m : gmap Z A) id : has m id = true <-> knows m id.
Proof. apply bool_decide_eq_true. Qed.

Lemma has_knows_false {A} (m : gmap Z A) id : negb (has m id) = false -> knows m id.
Proof. intros H%negb_false_iff. by apply has_knows. Qed.

(** A range or a result set. *)
Definition item (s : State) (id : Z) : Prop := knows (RangeData s) id \/ knows (ResultSetData s) id.

Definition results_ok (s : State) (d r i h : Z) : Prop :=
  (d <> 0%Z -> knows (DefinitionData s) d) /\ (r <> 0%Z -> knows (ReferenceData s) r) /\
  (i <> 0%Z -> knows (ImplementationData s) i) /\ (h <> 0%Z -> knows (HoverData s) h).

Definition range_ok (s : State) (r : Range) : Prop :=
  results_ok s (r_DefinitionResultID r) (r_ReferenceResultID r) (r_ImplementationResultID r) (r_HoverResultID r).
Definition resultSet_ok (s : State) (r : ResultSet) : Prop :=
  results_ok s (DefinitionResultID r) (ReferenceResultID r) (ImplementationResultID r) (HoverResultID r).

(** A map of sets whose keys and members are known. *)
Definition relation_ok (P Q : Z -> Prop) (sm : DefaultIDSetMap) : Prop :=
  wf_map sm /\ forall a x, linked_to (sets sm) a x -> P a /\ Q x.

Definition locations_ok (s : State) (sm : DefaultIDSetMap) : Prop :=
  relation_ok (fun _ => True) (knows (RangeData s)) sm.

Definition members_ok (P : Z -> Prop) (set : IDSet) : Prop := wf_set set /\ forall x, x ∈ elems set -> P x.

Record state_ok (s : State) : Prop := {
  ok_ranges id r : RangeData s !! id = Some r -> range_ok s r;
  ok_resultSets id r : ResultSetData s !! id = Some r -> resultSet_ok s r;
  ok_definitions id sm : DefinitionData s !! id = Some sm -> locations_ok s sm;
  ok_references id sm : ReferenceData s !! id = Some sm -> locations_ok s sm;
  ok_implementations id sm : ImplementationData s !! id = Some sm -> locations_ok s sm;
  ok_packages id m : MonikerData s !! id = Some m ->
    PackageInformationID m <> 0%Z -> knows (PackageInformationData s) (PackageInformationID m);
  ok_next a b : NextData s !! a = Some b -> item s a /\ knows (ResultSetData s) b;
  ok_imported : members_ok (knows (MonikerData s)) (ImportedMonikers s);
  ok_exported : members_ok (knows (MonikerData s)) (ExportedMonikers s);
  ok_implemented : members_ok (knows (MonikerData s)) (ImplementedMonikers s);
  ok_linked : relation_ok (knows (MonikerData s)) (knows (MonikerData s)) (LinkedMonikers s);
  ok_links a l : LinkedReferenceResults s !! a = Some l ->
    knows (ReferenceData s) a /\ forall b, b ∈ l -> knows (ReferenceData s) b;
  ok_monikers : relation_ok (item s) (knows (MonikerData s)) (Monikers s);
  ok_contains : relation_ok (knows (DocumentData s)) (knows (RangeData s)) (Contains s);
  ok_diagnostics : relation_ok (knows (DocumentData s)) (knows (DiagnosticResults s)) (Diagnostics s)
}.

(** ** More elements *)

(** Nothing that was known is forgotten. *)
Record extends (s s' : State) : Prop := {
  ext_documents x : knows (DocumentData s) x -> knows (DocumentData s') x;
  ext_ranges x : knows (RangeData s) x -> knows (RangeData s') x;
  ext_resultSets x : knows (ResultSetData s) x -> knows (ResultSetData s') x;
  ext_definitions x : knows (DefinitionData s) x -> knows (DefinitionData s') x;
  ext_references x : knows (ReferenceData s) x -> knows (ReferenceData s') x;
  ext_implementations x : knows (ImplementationData s) x -> knows (ImplementationData s') x;
  ext_hovers x : knows (HoverData s) x -> knows (HoverData s') x;
  ext_monikers x : knows (MonikerData s) x -> knows (MonikerData s') x;
  ext_packages x : knows (PackageInformationData s) x -> knows (PackageInformationData s') x;
  ext_diagnostics x : knows (DiagnosticResults s) x -> knows (DiagnosticResults s') x
}.

Create HintDb lsif.
#[local] Hint Resolve knows_insert knows_here : lsif.
#[local] Hint Resolve ext_documents ext_ranges ext_resultSets ext_definitions ext_references
  ext_implementations ext_hovers ext_monikers ext_packages ext_diagnostics : lsif.

Lemma results_ok_mono s s' d r i h : extends s s' -> results_ok s d r i h -> results_ok s' d r i h.
Proof. intros He (H1 & H2 & H3 & H4). split_and!; eauto with lsif. Qed.

Lemma relation_ok_mono (P P' Q Q' : Z -> Prop) sm :
  (forall x, P x -> P' x) -> (forall x, Q x -> Q' x) -> relation_ok P Q sm -> relation_ok P' Q' sm.
Proof. intros HP HQ [Hw H]. split; [done|]. intros a x [? ?]%H. auto. Qed.

Lemma members_ok_mono (P P' : Z -> Prop) set :
  (forall x, P x -> P' x) -> members_ok P set -> members_ok P' set.
Proof. intros HP [Hw H]. split; auto. Qed.

Lemma item_mono s s' x : extends s s' -> item s x -> item s' x.
Proof. intros He [?|?]; [left|right]; eauto with lsif. Qed.

Lemma locations_ok_mono s s' sm : extends s s' -> locations_ok s sm -> locations_ok s' sm.
Proof. intros He. apply relation_ok_mono; [done|]. eauto with lsif. Qed.

Lemma relation_ok_new P Q : relation_ok P Q SetMap.NewDefaultIDSetMap.
Proof.
  split; [apply wf_map_new|]. intros a x H. unfold linked_to, sets, contents in H. simpl in H.
  rewrite fmap_empty, lookup_empty in H. set_solver.
Qed.

Lemma relation_ok_add (P Q : Z -> Prop) sm key x : relation_ok P Q sm -> P key -> Q x ->
  returns (SetMap.AddID sm key x) (relation_ok P Q).
Proof.
  intros [Hw H] HP HQ. destruct (AddID_spec sm key x Hw) as (sm' & -> & Hw' & E). apply returns_done.
  split; [done|]. intros a y. rewrite E, linked_to_add, elem_of_singleton. intros [?|[-> ->]]; auto.
Qed.

Lemma relation_ok_link (P : Z -> Prop) sm x y : relation_ok P P sm -> P x -> P y ->
  returns (SetMap.Link sm x y) (relation_ok P P).
Proof.
  intros [Hw H] HP HQ. destruct (Link_spec sm x y Hw) as (sm' & -> & Hw' & E). apply returns_done.
  split; [done|]. intros a b. rewrite E. intros [?|[[-> ->]|[-> ->]]]; auto.
Qed.

Lemma members_ok_new P : members_ok P IDSet.NewIDSet.
Proof. split; [apply wf_new|]. intros x. rewrite elems_new. set_solver. Qed.

Lemma members_ok_add (P : Z -> Prop) set x : members_ok P set -> P x -> members_ok P (IDSet.Add set x).
Proof.
  intros [Hw H] Hx. destruct (Add_spec set x Hw) as [Hw' E]. split; [done|]. intros y. rewrite E. set_solver.
Qed.

(** What is left to show when the state has grown: the parts that changed. *)
Lemma newState_ok : state_ok newState.
Proof.
  split; simpl; try (by intros ? ?; rewrite lookup_empty); auto using relation_ok_new, members_ok_new.
Qed.

(** Clauses about parts that did not change follow from the old state. *)
Ltac kept Hok Hext :=
  first
  [ solve [intros ?id ?r ?H; eapply results_ok_mono; [exact Hext|];
           first [exact (ok_ranges _ Hok _ _ H) | exact (ok_resultSets _ Hok _ _ H)]]
  | solve [intros ?id ?r ?H; eapply locations_ok_mono; [exact Hext|];
           first [exact (ok_definitions _ Hok _ _ H) | exact (ok_references _ Hok _ _ H)
                 | exact (ok_implementations _ Hok _ _ H)]]
  | solve [intros ?id ?m ?H ?Hne; exact (ext_packages _ _ Hext _ (ok_packages _ Hok _ _ H Hne))]
  | solve [intros ?a ?b ?H; destruct (ok_next _ Hok _ _ H) as [?H1 ?H2]; split;
           [exact (item_mono _ _ _ Hext H1)|exact (ext_resultSets _ _ Hext _ H2)]]
  | solve [intros ?a ?l ?H; destruct (ok_links _ Hok _ _ H) as [?H1 ?H2]; split;
           [exact (ext_references _ _ Hext _ H1)|intros ?b ?Hb; exact (ext_references _ _ Hext _ (H2 _ Hb))]]
  | solve [eapply members_ok_mono; [exact (ext_monikers _ _ Hext)|];
           first [exact (ok_imported _ Hok) | exact (ok_exported _ Hok) | exact (ok_implemented _ Hok)]]
  | solve [eapply relation_ok_mono; [exact (ext_monikers _ _ Hext)|exact (ext_monikers _ _ Hext)|exact (ok_linked _ Hok)]]
  | solve [eapply relation_ok_mono; [exact (fun x => item_mono _ _ x Hext)|exact (ext_monikers _ _ Hext)|exact (ok_monikers _ Hok)]]
  | solve [eapply relation_ok_mono; [exact (ext_documents _ _ Hext)|exact (ext_ranges _ _ Hext)|exact (ok_contains _ Hok)]]
  | solve [eapply relation_ok_mono; [exact (ext_documents _ _ Hext)|exact (ext_diagnostics _ _ Hext)|exact (ok_diagnostics _ Hok)]]
  | idtac ].

(** [grow Hok]: the new state extends the old one; what changed is left. *)
Ltac grow Hok :=
  match goal with |- state_ok ?s' =>
    match type of Hok with state_ok ?s =>
      let Hext := fresh "Hext" in
      assert (extends s s') as Hext by (split; simpl; auto using knows_insert);
      split; kept Hok Hext
    end
  end.

Definition w_ok (w : wrappedState) : Prop :=
  state_ok (st w) /\ wf_set (unsupportedVertices w).

(** A step returns an error or a state that is well formed. *)
Definition step_ok (m : run (result lerror wrappedState)) : Prop :=
  returns m (fun r => match r with Ok w => w_ok w | Err _ => True end).

Lemma step_ok_ret w : w_ok w -> step_ok (ret w).
Proof. intros. by apply returns_done. Qed.

Lemma step_ok_fail err : step_ok (fail err).
Proof. by apply returns_done. Qed.

Lemma step_ok_st w s : w_ok w -> state_ok s -> step_ok (ret (set_st w s)).
Proof. intros [_ Hu] Hs. by apply step_ok_ret. Qed.

Lemma step_ok_try (m : run (result lerror wrappedState)) k :
  step_ok m -> (forall w, w_ok w -> step_ok (k w)) -> step_ok (try_bind m k).
Proof.
  intros (r & -> & H) Hk. unfold try_bind. simpl. destruct r as [w|e]; [by apply Hk|apply step_ok_fail].
Qed.
#[local] Hint Resolve step_ok_ret step_ok_fail step_ok_st : lsif.

(** ** Vertices *)
Section Vertices.
Context {U : UnicodeTables}.

(** The payloads that the reader makes. *)
Definition payload_ok (p : Payload) : Prop :=
  match p with
  | PRange r => forall s, range_ok s r
  | PMoniker m => PackageInformationID m = 0%Z
  | _ => True
  end.

Lemma translatePayload_ok p : payload_ok (translatePayload p).
Proof. by destruct p. Qed.

Lemma vertexHandlers_ok label h w e :
  assoc label vertexHandlers = Some h -> w_ok w -> payload_ok (el_Payload e) -> step_ok (h w e).
Proof.
  intros Hh%assoc_elem_of [Hok Hu] Hp. assert (w_ok w) as Hw by done. unfold vertexHandlers in Hh.
  rewrite !elem_of_cons in Hh.
  repeat match goal with H : _ \/ _ |- _ => destruct H as [[= -> ->]|H] end; [..|by apply not_elem_of_nil in Hh].
  - unfold correlateMetaData. destruct (el_Payload e); auto with lsif. apply step_ok_st; [done|]. by grow Hok.
  - unfold correlateDocument. destruct (el_Payload e); auto with lsif.
    destruct (gs_eqb _ _); auto with lsif. destruct (Rel _ _); auto with lsif.
    apply step_ok_st; [done|]. by grow Hok.
  - unfold correlateRange. destruct (el_Payload e); auto with lsif. apply step_ok_st; [done|]. grow Hok. simpl.
    intros id r. rewrite lookup_insert_Some. intros [[_ <-]|[_ H]]; [apply Hp|exact (ok_ranges _ Hok _ _ H)].
  - apply step_ok_st; [done|]. grow Hok. simpl.
    intros id r. rewrite lookup_insert_Some. intros [[_ <-]|[_ H]]; [by split_and!|exact (ok_resultSets _ Hok _ _ H)].
  - apply step_ok_st; [done|]. grow Hok. simpl.
    intros id r. rewrite lookup_insert_Some. intros [[_ <-]|[_ H]]; [apply relation_ok_new|].
    exact (ok_definitions _ Hok _ _ H).
  - apply step_ok_st; [done|]. grow Hok. simpl.
    intros id r. rewrite lookup_insert_Some. intros [[_ <-]|[_ H]]; [apply relation_ok_new|].
    exact (ok_references _ Hok _ _ H).
  - apply step_ok_st; [done|]. grow Hok. simpl.
    intros id r. rewrite lookup_insert_Some. intros [[_ <-]|[_ H]]; [apply relation_ok_new|].
    exact (ok_implementations _ Hok _ _ H).
  - unfold correlateHoverResult. destruct (el_Payload e); auto with lsif. apply step_ok_st; [done|]. by grow Hok.
  - unfold correlateMoniker. destruct (el_Payload e); auto with lsif. apply step_ok_st; [done|]. grow Hok. simpl.
    intros id m. rewrite lookup_insert_Some. intros [[_ <-]|[_ H]] Hne; [simpl in Hp; congruence|].
    exact (ok_packages _ Hok _ _ H Hne).
  - unfold correlatePackageInformation. destruct (el_Payload e); auto with lsif.
    apply step_ok_st; [done|]. by grow Hok.
  - unfold correlateDiagnosticResult. destruct (el_Payload e); auto with lsif.
    apply step_ok_st; [done|]. by grow Hok.
Qed.
End Vertices.

(** ** Edges *)

Lemma step_ok_bind {A} (m : run A) (P : A -> Prop) k :
  returns m P -> (forall a, P a -> step_ok (k a)) -> step_ok (run_bind m k).
Proof. intros H Hk. unfold step_ok. apply returns_bind. by eapply returns_mono. Qed.

Lemma contains_loop_ok id edge inVs w :
  w_ok w -> knows (DocumentData (st w)) (OutV edge) -> step_ok (contains_loop id edge inVs w).
Proof.
  revert w. induction inVs as [|x inVs IH]; intros w Hw Hd; simpl; [by apply step_ok_ret|].
  destruct (negb _) eqn:Er; [apply step_ok_fail|]. apply has_knows_false in Er.
  destruct (match rangeToDoc w !! x with Some _ => _ | None => _ end); [apply step_ok_fail|].
  pose proof Hw as [Hok Hu].
  eapply step_ok_bind; [exact (relation_ok_add _ _ _ (OutV edge) x (ok_contains _ Hok) Hd Er)|].
  intros sm Hsm. apply IH; [|done]. split; [|done]. simpl. by grow Hok.
Qed.

Lemma link_range_ok w id x doc :
  w_ok w -> returns (link_range w id x doc) (fun r =>
    match r with Ok w' => w_ok w' /\ st w' = st w | Err _ => True end).
Proof.
  intros Hw. unfold link_range. destruct (rangeToDoc w !! x) as [d|]; [destruct (negb _)|];
    by apply returns_done.
Qed.

(** The three loops of item edges update the entry of [edge.OutV]. *)
Lemma item_definitions_ok id edge inVs sm w :
  w_ok w -> locations_ok (st w) sm -> step_ok (item_definitions id edge inVs sm w).
Proof.
  revert sm w. induction inVs as [|x inVs IH]; intros sm w Hw Hsm; simpl; [by apply step_ok_ret|].
  destruct (negb _) eqn:Er; [apply step_ok_fail|]. apply has_knows_false in Er.
  eapply step_ok_bind; [exact (relation_ok_add _ _ _ (Document edge) x Hsm I Er)|]. intros sm' Hsm'.
  cbv zeta. set (w1 := set_st w _). assert (w_ok w1) as Hw1.
  { destruct Hw as [Hok Hu]. split; [|done]. simpl. grow Hok. simpl. intros i m. rewrite lookup_insert_Some.
    intros [[_ <-]|[_ H]]; [done|exact (ok_definitions _ Hok _ _ H)]. }
  destruct (link_range_ok w1 id x (Document edge) Hw1) as (r & -> & Hr). unfold try_bind. simpl.
  destruct r as [w2|e]; [|apply step_ok_fail]. destruct Hr as [Hw2 E]. apply IH; [done|]. by rewrite E.
Qed.

Lemma item_references_ok id edge inVs sm w :
  w_ok w -> locations_ok (st w) sm -> knows (ReferenceData (st w)) (OutV edge) ->
  step_ok (item_references id edge inVs sm w).
Proof.
  revert sm w. induction inVs as [|x inVs IH]; intros sm w Hw Hsm Ho; simpl; [by apply step_ok_ret|].
  pose proof Hw as [Hok Hu]. destruct (has (ReferenceData (st w)) x) eqn:Ex.
  - apply has_knows in Ex. apply IH; [|done|done]. split; [|done]. simpl. grow Hok. simpl.
    intros a l. rewrite lookup_insert_Some. intros [[<- <-]|[_ H]]; [|exact (ok_links _ Hok _ _ H)].
    split; [done|]. intros b [Hb| ->%list_elem_of_singleton]%elem_of_app; [|done].
    destruct (LinkedReferenceResults (st w) !! OutV edge) as [l|] eqn:El; [|by apply not_elem_of_nil in Hb].
    by apply (ok_links _ Hok _ _ El).
  - destruct (negb _) eqn:Er; [apply step_ok_fail|]. apply has_knows_false in Er.
    eapply step_ok_bind; [exact (relation_ok_add _ _ _ (Document edge) x Hsm I Er)|]. intros sm' Hsm'.
    cbv zeta. set (w1 := set_st w _). assert (w_ok w1) as Hw1.
    { split; [|done]. simpl. grow Hok. simpl. intros i m. rewrite lookup_insert_Some.
      intros [[_ <-]|[_ H]]; [done|exact (ok_references _ Hok _ _ H)]. }
    destruct (link_range_ok w1 id x (Document edge) Hw1) as (r & -> & Hr). unfold try_bind. simpl.
    destruct r as [w2|e]; [|apply step_ok_fail]. destruct Hr as [Hw2 E].
    apply IH; [done|by rewrite E|]. rewrite E. simpl. apply knows_here.
Qed.

Lemma item_implementations_ok id edge inVs sm w :
  w_ok w -> locations_ok (st w) sm -> step_ok (item_implementations id edge inVs sm w).
Proof.
  revert sm w. induction inVs as [|x inVs IH]; intros sm w Hw Hsm; simpl; [by apply step_ok_ret|].
  destruct (negb _) eqn:Er; [apply step_ok_fail|]. apply has_knows_false in Er.
  eapply step_ok_bind; [exact (relation_ok_add _ _ _ (Document edge) x Hsm I Er)|]. intros sm' Hsm'.
  apply IH; [|done]. destruct Hw as [Hok Hu]. split; [|done]. simpl. grow Hok. simpl.
  intros i m. rewrite lookup_insert_Some. intros [[_ <-]|[_ H]]; [done|exact (ok_implementations _ Hok _ _ H)].
Qed.

(** Setting a result that is known. *)
Lemma set_result_ok w id edge setRange setResultSet :
  w_ok w ->
  (forall s r, state_ok s -> range_ok (st w) r -> range_ok (st w) (setRange r (InV edge))) ->
  (forall s r, state_ok s -> resultSet_ok (st w) r -> resultSet_ok (st w) (setResultSet r (InV edge))) ->
  step_ok (set_result w id edge setRange setResultSet).
Proof.
  intros Hw Hr Hs. pose proof Hw as [Hok Hu]. unfold set_result.
  destruct (RangeData (st w) !! OutV edge) as [r|] eqn:Er.
  - apply step_ok_st; [done|]. grow Hok. simpl. intros i r'. rewrite lookup_insert_Some.
    intros [[_ <-]|[_ H]]; [apply (Hr _ _ Hok), (ok_ranges _ Hok _ _ Er)|exact (ok_ranges _ Hok _ _ H)].
  - destruct (ResultSetData (st w) !! OutV edge) as [r|] eqn:Es; [|apply step_ok_fail].
    apply step_ok_st; [done|]. grow Hok. simpl. intros i r'. rewrite lookup_insert_Some.
    intros [[_ <-]|[_ H]]; [apply (Hs _ _ Hok), (ok_resultSets _ Hok _ _ Es)|exact (ok_resultSets _ Hok _ _ H)].
Qed.

Ltac known H := destruct (negb _) eqn:H; [apply step_ok_fail|apply has_knows_false in H].

Lemma correlateItemEdge_ok w id edge : w_ok w -> step_ok (correlateItemEdge w id edge).
Proof.
  intros Hw. pose proof Hw as [Hok Hu]. unfold correlateItemEdge.
  destruct (_ =? 0)%Z; [apply step_ok_fail|].
  destruct (DefinitionData (st w) !! OutV edge) as [sm|] eqn:E1.
  { apply item_definitions_ok; [done|]. exact (ok_definitions _ Hok _ _ E1). }
  destruct (ReferenceData (st w) !! OutV edge) as [sm|] eqn:E2.
  { apply item_references_ok; [done|exact (ok_references _ Hok _ _ E2)|by exists sm]. }
  destruct (ImplementationData (st w) !! OutV edge) as [sm|] eqn:E3.
  { apply item_implementations_ok; [done|]. exact (ok_implementations _ Hok _ _ E3). }
  destruct (negb _); [apply step_ok_fail|by apply step_ok_ret].
Qed.

Lemma correlatePackageInformationEdge_ok w id edge :
  w_ok w -> step_ok (correlatePackageInformationEdge w id edge).
Proof.
  intros Hw. pose proof Hw as [Hok Hu]. unfold correlatePackageInformationEdge. known Hp.
  destruct (MonikerData (st w) !! OutV edge) as [m|] eqn:Em; [|apply step_ok_fail]. cbv zeta.
  set (s := set_MonikerData (st w) _).
  assert (state_ok s) as Hs.
  { unfold s. grow Hok. simpl. intros i m'. rewrite lookup_insert_Some.
    intros [[_ <-]|[_ H]]; [done|exact (ok_packages _ Hok _ _ H)]. }
  assert (knows (MonikerData s) (OutV edge)) as Hk by apply knows_here. clearbody s.
  apply step_ok_st; [done|].
  destruct (gs_eqb (Kind m) (str "import")).
  { grow Hs. exact (members_ok_add _ _ _ (ok_imported _ Hs) Hk). }
  destruct (gs_eqb (Kind m) (str "export")).
  { grow Hs. exact (members_ok_add _ _ _ (ok_exported _ Hs) Hk). }
  destruct (gs_eqb (Kind m) (str "implementation")); [|done].
  grow Hs. exact (members_ok_add _ _ _ (ok_implemented _ Hs) Hk).
Qed.

Lemma edgeHandlers_ok label h w id edge :
  assoc label edgeHandlers = Some h -> w_ok w -> step_ok (h w id edge).
Proof.
  intros Hh%assoc_elem_of Hw. pose proof Hw as [Hok Hu]. unfold edgeHandlers in Hh. rewrite !elem_of_cons in Hh.
  repeat match goal with H : _ \/ _ |- _ => destruct H as [[= -> ->]|H] end; [..|by apply not_elem_of_nil in Hh].
  - unfold correlateContainsEdge. destruct (negb _) eqn:Hd; [by apply step_ok_ret|].
    apply has_knows_false in Hd. by apply contains_loop_ok.
  - unfold correlateNextEdge. known Hi. destruct (has _ _ || has _ _) eqn:Ho; [|apply step_ok_fail].
    apply step_ok_st; [done|]. grow Hok. simpl. intros a b. rewrite lookup_insert_Some.
    intros [[<- <-]|[_ H]]; [|exact (ok_next _ Hok _ _ H)]. split; [|done].
    apply orb_true_iff in Ho as [?%has_knows|?%has_knows]; [by left|by right].
  - by apply correlateItemEdge_ok.
  - unfold correlateTextDocumentDefinitionEdge. known Hi.
    apply set_result_ok; [done|intros s r _ (_ & ? & ? & ?); by split_and!..].
  - unfold correlateTextDocumentReferencesEdge. known Hi.
    apply set_result_ok; [done|intros s r _ (? & _ & ? & ?); by split_and!..].
  - unfold correlateTextDocumentImplementationEdge. known Hi.
    apply set_result_ok; [done|intros s r _ (? & ? & _ & ?); by split_and!..].
  - unfold correlateTextDocumentHoverEdge. known Hi.
    apply set_result_ok; [done|intros s r _ (? & ? & ? & _); by split_and!..].
  - unfold correlateMonikerEdge. known Hi. destruct (has _ _ || has _ _) eqn:Ho; [|apply step_ok_fail].
    eapply step_ok_bind; [apply (relation_ok_add _ _ _ (OutV edge) (InV edge) (ok_monikers _ Hok)); [|done]|].
    { apply orb_true_iff in Ho as [?%has_knows|?%has_knows]; [by left|by right]. }
    intros sm Hsm. apply step_ok_st; [done|]. by grow Hok.
  - unfold correlateNextMonikerEdge. known Hi. known Ho.
    eapply step_ok_bind; [exact (relation_ok_link _ _ (InV edge) (OutV edge) (ok_linked _ Hok) Hi Ho)|].
    intros sm Hsm. apply step_ok_st; [done|]. by grow Hok.
  - by apply correlatePackageInformationEdge_ok.
  - unfold correlateDiagnosticEdge. known Ho. known Hi.
    eapply step_ok_bind; [exact (relation_ok_add _ _ _ (OutV edge) (InV edge) (ok_diagnostics _ Hok) Ho Hi)|].
    intros sm Hsm. apply step_ok_st; [done|]. by grow Hok.
Qed.

(** ** Dumps *)
Section Dumps.
Context {U : UnicodeTables}.

Lemma correlateElement_ok w e : w_ok w -> payload_ok (el_Payload e) -> step_ok (correlateElement w e).
Proof.
  intros Hw Hp. unfold correlateElement. destruct (gs_eqb _ _).
  - unfold correlateVertex. destruct (assoc _ _) as [h|] eqn:E; [by eapply vertexHandlers_ok|].
    apply step_ok_ret. destruct Hw as [Hok Hu]. split; [done|]. by apply Add_spec.
  - destruct (gs_eqb _ _); [|apply step_ok_fail]. unfold correlateEdge.
    destruct (el_Payload e); try by apply step_ok_ret.
    destruct (assoc _ _) as [h|] eqn:E; [by eapply edgeHandlers_ok|by apply step_ok_ret].
Qed.

Lemma correlate_loop_ok i pairs w : w_ok w -> step_ok (correlate_loop i (Read pairs) w).
Proof.
  revert i w. induction pairs as [|p pairs IH]; intros i w Hw; simpl; [by apply step_ok_ret|].
  destruct p as [e|err]; [|apply step_ok_fail].
  destruct (correlateElement_ok w (translate e) Hw) as (r & -> & Hr); [apply translatePayload_ok|].
  simpl. destruct r as [w'|err]; [by apply IH|apply step_ok_fail].
Qed.

Lemma correlateFromReader_spec root pairs :
  returns (correlateFromReader root pairs) (fun r =>
    match r with Ok s => state_ok s /\ LSIFVersion s <> [] | Err _ => True end).
Proof.
  unfold correlateFromReader. destruct (correlate_loop_ok 0 pairs (newWrappedState root)) as (r & -> & Hr).
  { split; [apply newState_ok|apply wf_new]. }
  unfold try_bind. simpl. destruct r as [w|e]; [|by apply returns_done]. destruct Hr as [Hok _].
  destruct (gs_eqb (LSIFVersion (st w)) []) eqn:E; apply returns_done; [done|]. split; [done|].
  by apply gs_eqb_false.
Qed.
End Dumps.
