(* ===== verification/Canonicalize.v ===== *)
(** Canonicalization and pruning of a correlated LSIF dump: [canonicalize.go] and
    [prune.go] of [lib/codeintel/lsif/conversion], and [Correlate] up to the
    grouping of the result.

    A [range] loop over a map reads an entry when it reaches it, so a loop that
    updates the map it ranges over looks entries up in the current state.  Keys
    that a loop adds may or may not be reached; the model does not reach them. *)
From S2P Require Import Prelude GoStr GoLib GoMap PathExistence IdSets Lsif.

Section Canonicalize.
Context {G : GoRuntime}.

(** ** Documents *)

Definition group_document (documentIDs : gmap gostring (list Z)) (entry : Z * gostring)
    : gmap gostring (list Z) :=
  <[entry.2 := default [] (documentIDs !! entry.2) ++ [entry.1]]> documentIDs.

Definition documents_by_uri (n : nat) (documentData : gmap Z gostring) : gmap gostring (list Z) :=
  sort_Ints <$> fold_left group_document (map_range n documentData) ∅.

(** [documentIDs[uri][0]]; every document is in the list of its URI. *)
Definition canonical_id (documentIDs : gmap gostring (list Z)) (uri : gostring) : Z :=
  default 0%Z (head (default [] (documentIDs !! uri))).

Definition canonical_ids (n : nat) (documentData : gmap Z gostring) : gmap Z Z :=
  let documentIDs := documents_by_uri n documentData in
  fold_left (fun canonicalIDs entry =>
      let canonicalID := canonical_id documentIDs entry.2 in
      if negb (entry.1 =? canonicalID)%Z then <[entry.1 := canonicalID]> canonicalIDs else canonicalIDs)
    (map_range n documentData) ∅.

(** One map of document ranges. *)
Definition move_ranges (n : nat) (canonicalIDs : gmap Z Z) (documentRanges : DefaultIDSetMap)
    : run DefaultIDSetMap :=
  let! documentIDs := SetMap.UnorderedKeys n documentRanges in
  run_fold (fun documentRanges documentID =>
      match canonicalIDs !! documentID with
      | None => Done documentRanges
      | Some canonicalID =>
          let! '(rangeIDs, documentRanges) := SetMap.Pop n documentRanges documentID in
          SetMap.UnionIDSet n documentRanges canonicalID rangeIDs
      end)
    documentIDs documentRanges.

Definition canonicalizeDocumentsInDefinitionReferences (n : nat)
    (definitionReferenceData : gmap Z DefaultIDSetMap) (canonicalIDs : gmap Z Z)
    : run (gmap Z DefaultIDSetMap) :=
  run_fold (fun data entry =>
      let! documentRanges := move_ranges n canonicalIDs entry.2 in
      Done (<[entry.1 := documentRanges]> data))
    (map_range n definitionReferenceData) definitionReferenceData.

(** One document that is not canonical. *)
Definition merge_document (n : nat) (state : State) (entry : Z * Z) : run State :=
  let '(documentID, canonicalID) := entry in
  let! ranges := SetMap.Get (Contains state) documentID in
  let! contains := SetMap.UnionIDSet n (Contains state) canonicalID ranges in
  let! ids := SetMap.Get (Diagnostics state) documentID in
  let! diagnostics := SetMap.UnionIDSet n (Diagnostics state) canonicalID ids in
  let! contains := SetMap.Delete n contains documentID in
  let! diagnostics := SetMap.Delete n diagnostics documentID in
  let state := set_DocumentData state (delete documentID (DocumentData state)) in
  Done (set_Diagnostics (set_Contains state contains) diagnostics).

Definition canonicalizeDocuments (n : nat) (state : State) : run State :=
  let canonicalIDs := canonical_ids n (DocumentData state) in
  let! definitions := canonicalizeDocumentsInDefinitionReferences n (DefinitionData state) canonicalIDs in
  let! references := canonicalizeDocumentsInDefinitionReferences n (ReferenceData state) canonicalIDs in
  let! implementations := canonicalizeDocumentsInDefinitionReferences n (ImplementationData state) canonicalIDs in
  let state := set_DefinitionData state definitions in
  let state := set_ReferenceData state references in
  let state := set_ImplementationData state implementations in
  run_fold (merge_document n) (map_range n canonicalIDs) state.

(** ** Reference results *)

(** [data[nextID].Each(...)] copies the entries into [data[id]]; a missing entry
    is a nil pointer. *)
Definition copy_references (n : nat) (data : gmap Z DefaultIDSetMap) (id nextID : Z)
    : run (gmap Z DefaultIDSetMap) :=
  match data !! nextID with
  | None => Panics "invalid memory address or nil pointer dereference"
  | Some source =>
      let! entries := SetMap.Each n source in
      run_fold (fun data entry =>
          match data !! id with
          | None => Panics "invalid memory address or nil pointer dereference"
          | Some target =>
              let! target := SetMap.UnionIDSet n target entry.1 (Some entry.2) in
              Done (<[id := target]> data)
          end)
        entries data
  end.

(** The reference data and the identifiers that were visited. *)
Fixpoint visit_reference (fuel n : nat) (links : gmap Z (list Z)) (id : Z)
    (acc : gmap Z DefaultIDSetMap * gset Z) : run (gmap Z DefaultIDSetMap * gset Z) :=
  match fuel with
  | O => OutOfFuel
  | S fuel =>
      let '(data, visited) := acc in
      if bool_decide (id ∈ visited) then Done acc
      else
        let visited := {[id]} ∪ visited in
        match links !! id with
        | None => Done (data, visited)
        | Some nextIDs =>
            run_fold (fun acc nextID =>
                let! '(data, visited) := visit_reference fuel n links nextID acc in
                let! data := copy_references n data id nextID in
                Done (data, visited))
              nextIDs (data, visited)
        end
  end.

(** Every nested call marks an identifier, so the number of reference results
    bounds the depth. *)
Definition canonicalizeReferenceResults (n : nat) (state : State) : run State :=
  let fuel := S (S (size (ReferenceData state))) in
  let! '(data, _) :=
    run_fold (fun acc id => visit_reference fuel n (LinkedReferenceResults state) id acc)
      (map_range n (ReferenceData state)).*1 (ReferenceData state, ∅) in
  Done (set_ReferenceData state data).

(** ** Result sets and ranges *)

Definition zeroResultSet : ResultSet := MkResultSet 0 0 0 0.

Definition next (state : State) (id : Z) : option (Z * ResultSet) :=
  match NextData state !! id with
  | None => None
  | Some nextID => Some (nextID, default zeroResultSet (ResultSetData state !! nextID))
  end.

Definition union_monikers (n : nat) (state : State) (itemID nextID : Z) : run State :=
  let! ids := SetMap.Get (Monikers state) nextID in
  let! monikers := SetMap.UnionIDSet n (Monikers state) itemID ids in
  Done (set_Monikers state monikers).

Definition mergeNextResultSetData (n : nat) (state : State) (itemID : Z) (item : ResultSet) (nextID : Z)
    (nextItem : ResultSet) : run (ResultSet * State) :=
  let item := if (DefinitionResultID item =? 0)%Z
    then SetDefinitionResultID item (DefinitionResultID nextItem) else item in
  let item := if (ReferenceResultID item =? 0)%Z
    then SetReferenceResultID item (ReferenceResultID nextItem) else item in
  let item := if (ImplementationResultID item =? 0)%Z
    then SetImplementationResultID item (ImplementationResultID nextItem) else item in
  let item := if (HoverResultID item =? 0)%Z
    then SetHoverResultID item (HoverResultID nextItem) else item in
  let! state := union_monikers n state itemID nextID in
  Done (item, state).

Definition mergeNextRangeData (n : nat) (state : State) (itemID : Z) (item : Range) (nextID : Z)
    (nextItem : ResultSet) : run (Range * State) :=
  let item := if (r_DefinitionResultID item =? 0)%Z
    then Range_SetDefinitionResultID item (DefinitionResultID nextItem) else item in
  let item := if (r_ReferenceResultID item =? 0)%Z
    then Range_SetReferenceResultID item (ReferenceResultID nextItem) else item in
  let item := if (r_ImplementationResultID item =? 0)%Z
    then Range_SetImplementationResultID item (ImplementationResultID nextItem) else item in
  let item := if (r_HoverResultID item =? 0)%Z
    then Range_SetHoverResultID item (HoverResultID nextItem) else item in
  let! state := union_monikers n state itemID nextID in
  Done (item, state).

Fixpoint canonicalizeResultSetData (fuel n : nat) (state : State) (id : Z) (item : ResultSet)
    : run (ResultSet * State) :=
  match fuel with
  | O => OutOfFuel
  | S fuel =>
      match next state id with
      | None => Done (item, set_ResultSetData state (<[id := item]> (ResultSetData state)))
      | Some (nextID, nextItem) =>
          let! '(nextItem, state) := canonicalizeResultSetData fuel n state nextID nextItem in
          let! '(item, state) := mergeNextResultSetData n state id item nextID nextItem in
          let state := set_NextData state (delete id (NextData state)) in
          Done (item, set_ResultSetData state (<[id := item]> (ResultSetData state)))
      end
  end.

(** [None] is the nil set. *)
Definition gatherMonikers (n : nat) (state : State) (source : option IDSet) : run (option IDSet) :=
  match source with
  | None => Done None
  | Some source =>
      if Nat.eqb (IDSet.Len source) 0 then Done None
      else
        let! monikers := run_fold (fun monikers sourceID =>
            let! set := SetMap.ExtractSet n (LinkedMonikers state) sourceID in
            Done (fold_left (fun monikers id =>
                let kind := match MonikerData state !! id with Some m => Kind m | None => [] end in
                if negb (gs_eqb kind (str "local")) then IDSet.Add monikers id else monikers)
              (IDSet.Each n set) monikers))
          (IDSet.Each n source) IDSet.NewIDSet in
        Done (Some monikers)
  end.

Definition union_gathered (n : nat) (state : State) (id : Z) : run State :=
  let! source := SetMap.Get (Monikers state) id in
  let! gathered := gatherMonikers n state source in
  let! monikers := SetMap.UnionIDSet n (Monikers state) id gathered in
  Done (set_Monikers state monikers).

(** A chain of next edges without a repetition has at most as many edges as
    there are entries. *)
Definition canonicalizeResultSets (n : nat) (state : State) : run State :=
  let! state := run_fold (fun state resultSetID =>
      let item := default zeroResultSet (ResultSetData state !! resultSetID) in
      let! '(_, state) := canonicalizeResultSetData (S (size (NextData state))) n state resultSetID item in
      Done state)
    (map_range n (ResultSetData state)).*1 state in
  run_fold (union_gathered n) (map_range n (ResultSetData state)).*1 state.

Definition canonicalizeRange (n : nat) (state : State) (entry : Z * Range) : run State :=
  let '(rangeID, rangeData) := entry in
  let! '(rangeData, state) :=
    match next state rangeID with
    | None => Done (rangeData, state)
    | Some (nextID, nextItem) =>
        let! '(rangeData, state) := mergeNextRangeData n state rangeID rangeData nextID nextItem in
        Done (rangeData, set_NextData state (delete rangeID (NextData state)))
    end in
  let state := set_RangeData state (<[rangeID := rangeData]> (RangeData state)) in
  union_gathered n state rangeID.

Definition canonicalizeRanges (n : nat) (state : State) : run State :=
  run_fold (canonicalizeRange n) (map_range n (RangeData state)) state.

Definition canonicalize (n : nat) (state : State) : run State :=
  run_fold (fun state fn => fn n state)
    [canonicalizeDocuments; canonicalizeReferenceResults; canonicalizeResultSets; canonicalizeRanges] state.

(** ** Pruning *)

(** One map of document ranges; deleting the entry that a range has reached is
    safe, also when the map shrinks to its inline form. *)
Definition prune_ranges (n : nat) (documentData : gmap Z gostring) (documentRanges : DefaultIDSetMap)
    : run DefaultIDSetMap :=
  let! entries := SetMap.Each n documentRanges in
  run_fold (fun documentRanges entry =>
      if has documentData entry.1 then Done documentRanges
      else SetMap.Delete n documentRanges entry.1)
    entries documentRanges.

Definition pruneFromDefinitionReferences (n : nat) (documentData : gmap Z gostring)
    (definitionReferenceData : gmap Z DefaultIDSetMap) : run (gmap Z DefaultIDSetMap) :=
  run_fold (fun data entry =>
      let! documentRanges := prune_ranges n documentData entry.2 in
      Done (<[entry.1 := documentRanges]> data))
    (map_range n definitionReferenceData) definitionReferenceData.

(** The existence checker is made from the paths of all documents. *)
Definition prune (n : nat) (state : State) (root : gostring)
    (getChildren : list gostring -> result lerror (gmap gostring (list gostring))) : run (result lerror State) :=
  let paths := (map_range n (DocumentData state)).*2 in
  let? checker := NewExistenceChecker n root paths getChildren in
  let documents := fold_left (fun documents entry =>
      if negb (path_Exists checker entry.2) then delete entry.1 documents else documents)
    (map_range n (DocumentData state)) (DocumentData state) in
  let state := set_DocumentData state documents in
  let! definitions := pruneFromDefinitionReferences n documents (DefinitionData state) in
  let! references := pruneFromDefinitionReferences n documents (ReferenceData state) in
  let! implementations := pruneFromDefinitionReferences n documents (ImplementationData state) in
  let state := set_DefinitionData state definitions in
  let state := set_ReferenceData state references in
  Done (Ok (set_ImplementationData state implementations)).

(** [Correlate] up to the grouping of the state; without a function that lists
    the children of a directory nothing is pruned. *)
Definition correlateState {U : UnicodeTables} (n : nat) (root : gostring) (pairs : list (result lerror reader_Element))
    (getChildren : option (list gostring -> result lerror (gmap gostring (list gostring))))
    : run (result lerror State) :=
  let? state := correlateFromReader root pairs in
  let! state := canonicalize n state in
  match getChildren with
  | Some getChildren => prune n state root getChildren
  | None => Done (Ok state)
  end.
End Canonicalize.
