(* ===== verification/CanonDocuments.v ===== *)
(** Documents with one URI: [canonicalizeDocuments] keeps the one with the least
    identifier and moves what the others hold to it. *)
From stdpp Require Import sorting.
From S2P Require Import Prelude GoStr GoLib GoMap IdSets IdSetFacts Lsif LsifFacts Canonicalize.

Section Documents.
Context {G : GoRuntime}.
Implicit Types (M : gmap Z (gset Z)).

(** The canonical document of a URI. *)
Definition least (D : gmap Z gostring) (uri : gostring) (c : Z) : Prop :=
  D !! c = Some uri /\ forall x, D !! x = Some uri -> (c <= x)%Z.

(** The document that takes the place of [d]; an unknown document stays. *)
Definition stands_for (D : gmap Z gostring) (d c : Z) : Prop :=
  match D !! d with Some uri => least D uri c | None => c = d end.

Lemma stands_for_fun D d c c' : stands_for D d c -> stands_for D d c' -> c = c'.
Proof.
  unfold stands_for. destruct (D !! d) as [uri|]; [|congruence]. intros [H1 H2] [H3 H4].
  specialize (H2 _ H3). specialize (H4 _ H1). lia.
Qed.

(** Canonical documents stand for themselves. *)
Lemma stands_for_idem D d c : stands_for D d c -> stands_for D c c.
Proof.
  unfold stands_for at 1. destruct (D !! d) as [uri|] eqn:E.
  - intros [H1 H2]. unfold stands_for. by rewrite H1.
  - intros ->. unfold stands_for. by rewrite E.
Qed.

(** ** The canonical identifiers *)

Lemma group_documents_elem (l : list (Z * gostring)) m uri x :
  x ∈ default [] (fold_left group_document l m !! uri) <-> x ∈ default [] (m !! uri) \/ (x, uri) ∈ l.
Proof.
  revert m. induction l as [|[d u] l IH]; intros m; simpl; [set_solver|]. rewrite IH. clear IH.
  unfold group_document. simpl. destruct (decide (u = uri)) as [->|Hne].
  - rewrite lookup_insert_eq. simpl. rewrite elem_of_app, list_elem_of_singleton, elem_of_cons. naive_solver.
  - rewrite lookup_insert_ne by done. rewrite elem_of_cons. naive_solver.
Qed.

Lemma documents_by_uri_spec n D uri :
  StronglySorted Z.le (default [] (documents_by_uri n D !! uri)) /\
  forall x, x ∈ default [] (documents_by_uri n D !! uri) <-> D !! x = Some uri.
Proof.
  unfold documents_by_uri. rewrite lookup_fmap.
  pose proof (fun x => group_documents_elem (map_range n D) ∅ uri x) as H. rewrite lookup_empty in H. simpl in H.
  destruct (fold_left group_document (map_range n D) ∅ !! uri) as [l|]; simpl in *.
  - split; [apply sort_Ints_sorted|]. intros x. rewrite sort_Ints_perm, H, <- (elem_of_map_range n). set_solver.
  - split; [constructor|]. intros x. rewrite H, <- (elem_of_map_range n). set_solver.
Qed.

Lemma canonical_id_least n D uri d : D !! d = Some uri -> least D uri (canonical_id (documents_by_uri n D) uri).
Proof.
  intros Hd. destruct (documents_by_uri_spec n D uri) as [Hs Hin]. unfold canonical_id.
  destruct (default [] (documents_by_uri n D !! uri)) as [|c l]; simpl.
  { apply Hin in Hd. by apply not_elem_of_nil in Hd. }
  split; [apply Hin; by left|]. intros x Hx%Hin. apply elem_of_cons in Hx as [->|Hx]; [lia|].
  inversion_clear Hs as [|? ? _ Hf]. rewrite Forall_forall in Hf. by apply Hf.
Qed.

Lemma canonical_ids_spec n D d :
  match canonical_ids n D !! d with
  | Some c => stands_for D d c /\ d <> c /\ is_Some (D !! d)
  | None => stands_for D d d
  end.
Proof.
  unfold canonical_ids. cbv zeta. set (ids := documents_by_uri n D).
  set (f := fun (m : gmap Z Z) (entry : Z * gostring) => _).
  assert (forall l (m : gmap Z Z), NoDup l.*1 -> forall d,
    fold_left f l m !! d =
    match list_find (fun e => e.1 = d) l with
    | Some (_, e) => if negb (d =? canonical_id ids e.2)%Z then Some (canonical_id ids e.2) else m !! d
    | None => m !! d
    end) as H.
  { clear d. induction l as [|[k u] l IH]; intros m Hn d; csimpl; [done|].
    apply NoDup_cons in Hn as [Hk Hn]. rewrite IH by done. unfold f. simpl.
    destruct (decide (k = d)) as [->|Hne].
    - assert (list_find (fun e : Z * gostring => e.1 = d) l = None) as ->.
      { apply list_find_None, Forall_forall. intros e He E. apply Hk, list_elem_of_fmap. exists e. simpl in *. by split. }
      destruct (negb _); [by rewrite lookup_insert_eq|done].
    - destruct (list_find _ l) as [[i e]|]; simpl; destruct (negb (k =? _)%Z); rewrite ?lookup_insert_ne by done; done. }
  rewrite H by apply NoDup_map_range_keys. rewrite lookup_empty.
  destruct (list_find (fun e => e.1 = d) (map_range n D)) as [[i [k u]]|] eqn:E.
  - apply list_find_Some in E as (Hi & Hk & _). simpl in Hk. subst k.
    apply list_elem_of_lookup_2, elem_of_map_range in Hi. simpl.
    pose proof (canonical_id_least n D u d Hi) as Hl. fold ids in Hl.
    destruct (Z.eqb_spec d (canonical_id ids u)) as [Heq|Hne]; simpl; unfold stands_for; rewrite Hi.
    + by rewrite Heq at 1.
    + by split_and!.
  - apply list_find_None in E. unfold stands_for. destruct (D !! d) as [u|] eqn:Ed; [|done].
    apply (elem_of_map_range n) in Ed. rewrite Forall_forall in E. by specialize (E _ Ed).
Qed.

(** ** Moving *)

Lemma linked_to_delete d M a x : linked_to (delete d M) a x <-> a <> d /\ linked_to M a x.
Proof.
  unfold linked_to. destruct (decide (d = a)) as [->|Hne].
  - rewrite lookup_delete_eq. simpl. set_solver.
  - rewrite lookup_delete_ne by done. naive_solver.
Qed.

Lemma linked_to_add_some c X M a x : linked_to (add_some c X M) a x <-> linked_to M a x \/ (a = c /\ x ∈ X).
Proof. unfold add_some. case_bool_decide as E; [subst; set_solver|]. apply linked_to_add. Qed.

(** Everything is at the document that stands for its old place: [M'] after the
    documents [l] have been moved, and in the end. *)
Definition moved_some (D : gmap Z gostring) (l : list Z) M M' : Prop :=
  forall c x, linked_to M' c x <->
    exists d, linked_to M d x /\ ((d ∈ l /\ stands_for D d c) \/ (d ∉ l /\ c = d)).

Definition moved (D : gmap Z gostring) M M' : Prop :=
  forall c x, linked_to M' c x <-> exists d, stands_for D d c /\ linked_to M d x.

Lemma moved_nil D M : moved_some D [] M M.
Proof.
  intros c x. split; [intros H; exists c; split; [done|right; split; [by apply not_elem_of_nil|done]]|].
  by intros (d & H & [[?%not_elem_of_nil _]|[_ ->]]).
Qed.

Lemma moved_skip D l M M' d : moved_some D l M M' -> d ∉ l -> stands_for D d d -> moved_some D (l ++ [d]) M M'.
Proof.
  intros H Hd Hs c x. rewrite (H c x). setoid_rewrite elem_of_app. setoid_rewrite list_elem_of_singleton.
  split; intros (d0 & Hl & Hc); exists d0; (split; [done|]); destruct (decide (d0 = d)) as [->|Hne].
  - destruct Hc as [[? _]|[_ ->]]; [done|]. left. auto.
  - destruct Hc as [[? ?]|[? ?]]; [left; auto|right; intuition].
  - destruct Hc as [[_ Hc]|[Hc _]]; [|tauto]. right. split; [done|]. by eapply stands_for_fun.
  - destruct Hc as [[[?|?] ?]|[? ?]]; [by left|done|right]. split; [|done]. intros ?. tauto.
Qed.

Lemma moved_step D l M M1 M2 d c :
  moved_some D l M M1 -> d ∉ l -> stands_for D d c -> d <> c ->
  (forall a x, linked_to M2 a x <-> (a <> d /\ linked_to M1 a x) \/ (a = c /\ linked_to M1 d x)) ->
  moved_some D (l ++ [d]) M M2.
Proof.
  intros H Hd Hs Hne H2 a x. rewrite H2. setoid_rewrite elem_of_app. setoid_rewrite list_elem_of_singleton.
  assert (linked_to M1 d x <-> linked_to M d x) as Hd1.
  { rewrite (H d x). split; [|intros Hx; exists d; auto].
    intros (d0 & Hl & [[Hin Hst]|[_ ->]]); [|done]. exfalso. apply Hne.
    by eapply stands_for_fun; [eapply stands_for_idem|]. }
  rewrite Hd1, (H a x). split.
  - intros [[Ha (d0 & Hl & Hc)]|[-> Hl]]; [|exists d; auto]. exists d0. split; [done|].
    destruct (decide (d0 = d)) as [->|?]; [|intuition]. destruct Hc as [[? _]|[_ ->]]; done.
  - intros (d0 & Hl & Hc). destruct (decide (d0 = d)) as [->|Hd0].
    + right. split; [|done]. destruct Hc as [[_ Hc]|[Hc _]]; [by eapply stands_for_fun|tauto].
    + left. split; [|exists d0; intuition].
      intros ->. destruct Hc as [[_ Hc]|[Hc ->]]; [|tauto].
      apply Hne. by eapply stands_for_fun; [eapply stands_for_idem|].
Qed.

Lemma moved_all D l M M' :
  moved_some D l M M' -> (forall d x, d ∉ l -> linked_to M d x -> stands_for D d d) -> moved D M M'.
Proof.
  intros H Hl c x. rewrite (H c x). split.
  - intros (d & Hx & [[_ ?]|[Hd ->]]); exists d; [done|]. split; [by eapply Hl|done].
  - intros (d & Hs & Hx). exists d. split; [done|]. destruct (decide (d ∈ l)) as [?|Hd]; [by left|right].
    split; [done|]. eapply stands_for_fun; [done|]. by eapply Hl.
Qed.

Lemma move_ranges_spec n D sm : wf_map sm ->
  returns (move_ranges n (canonical_ids n D) sm) (fun sm' => wf_map sm' /\ moved D (sets sm) (sets sm')).
Proof.
  intros Hw. unfold move_ranges. destruct (UnorderedKeys_spec n sm Hw) as (l & -> & Hn & Hk). simpl.
  eapply returns_mono; [apply (run_fold_inv _ (fun l1 sm' => wf_map sm' /\ moved_some D l1 (sets sm) (sets sm')))|].
  - split; [done|apply moved_nil].
  - intros l1 d l2 sm1 -> [Hw1 Hm1].
    assert (d ∉ l1) as Hd by (apply NoDup_app in Hn as (_ & Hd & _); intros Hx; apply (Hd d Hx); by left).
    pose proof (canonical_ids_spec n D d) as Hc. destruct (canonical_ids n D !! d) as [c|].
    2: { apply returns_done. split; [done|]. by apply moved_skip. }
    destruct Hc as (Hs & Hne & _). destruct (map_Pop_spec n sm1 d Hw1) as (sm2 & -> & Hw2 & E2). simpl.
    destruct (UnionIDSet_spec n sm2 c (contents sm1 !! d) Hw2) as (sm3 & -> & Hw3 & E3).
    { intros o Ho. by apply (wf_entries _ Hw1) in Ho as [? _]. }
    apply returns_done. split; [done|]. eapply moved_step; [exact Hm1|done|exact Hs|done|]. intros a x.
    rewrite E3, linked_to_add_some, E2, linked_to_delete. unfold linked_to at 3, sets. by rewrite lookup_fmap.
  - intros sm' [Hw' Hm]. split; [done|]. eapply moved_all; [exact Hm|]. intros d x Hd Hx. exfalso. apply Hd, Hk.
    unfold linked_to in Hx. destruct (sets sm !! d); [by eexists|set_solver].
Qed.

(** ** Entries *)

(** A loop that updates every entry of a map on its own. *)
Definition pointwise {V} (P : V -> V -> Prop) (data data' : gmap Z V) : Prop :=
  forall k, match data !! k, data' !! k with
            | Some v, Some v' => P v v'
            | None, None => True
            | _, _ => False
            end.

Lemma update_entries_spec {V} (f : V -> run V) (P : V -> V -> Prop) n (data : gmap Z V) :
  (forall k v, data !! k = Some v -> returns (f v) (P v)) ->
  returns (run_fold (fun data entry => let! v := f entry.2 in Done (<[entry.1 := v]> data))
             (map_range n data) data) (pointwise P data).
Proof.
  intros Hf. eapply returns_mono; [apply (run_fold_inv _ (fun l1 data' =>
    forall k, if decide (k ∈ l1.*1) then
      match data !! k, data' !! k with Some v, Some v' => P v v' | _, _ => False end
    else data' !! k = data !! k))|].
  - intros k. by rewrite decide_False by apply not_elem_of_nil.
  - intros l1 [k v] l2 data' E Hd. simpl.
    assert (data !! k = Some v) as Hk.
    { apply (elem_of_map_range n). rewrite E. apply elem_of_app. right. by left. }
    destruct (Hf k v Hk) as (v' & -> & Hv'). simpl. apply returns_done. intros k'.
    specialize (Hd k'). rewrite fmap_app. simpl. destruct (decide (k' = k)) as [->|Hne].
    + rewrite decide_True by (apply elem_of_app; right; by left). by rewrite Hk, lookup_insert_eq.
    + rewrite lookup_insert_ne by done. destruct (decide (k' ∈ l1.*1)) as [Hin|Hin].
      * rewrite decide_True by (apply elem_of_app; by left). done.
      * rewrite decide_False; [done|]. intros [?|?%list_elem_of_singleton]%elem_of_app; done.
  - intros data' H k. specialize (H k). destruct (decide _) as [Hin|Hin].
    + by destruct (data !! k), (data' !! k).
    + rewrite H. destruct (data !! k) as [v|] eqn:Ek; [|done]. exfalso. apply Hin.
      apply elem_of_map_range_keys. by rewrite Ek.
Qed.

Lemma pointwise_knows {V} (P : V -> V -> Prop) data data' k :
  pointwise P data data' -> knows data k <-> knows data' k.
Proof.
  intros H. specialize (H k). unfold knows. by destruct (data !! k), (data' !! k).
Qed.

Definition locations_moved (D : gmap Z gostring) (sm sm' : DefaultIDSetMap) : Prop :=
  wf_map sm' /\ moved D (sets sm) (sets sm').

Lemma move_all_ranges_spec n D s (data : gmap Z DefaultIDSetMap) :
  (forall id sm, data !! id = Some sm -> locations_ok s sm) ->
  returns (canonicalizeDocumentsInDefinitionReferences n data (canonical_ids n D))
    (pointwise (locations_moved D) data).
Proof. intros H. apply update_entries_spec. intros k sm [Hw _]%H. by apply move_ranges_spec. Qed.

Lemma pointwise_locations_ok D s data data' :
  pointwise (locations_moved D) data data' -> (forall id sm, data !! id = Some sm -> locations_ok s sm) ->
  forall id sm, data' !! id = Some sm -> locations_ok s sm.
Proof.
  intros Hp H id sm' Hid. specialize (Hp id). rewrite Hid in Hp. destruct (data !! id) as [sm|] eqn:E; [|done].
  destruct Hp as [Hw Hm]. split; [done|]. intros c x (d & _ & Hx)%Hm. by apply (H id sm E) in Hx.
Qed.

(** ** The state *)

(** The state with the parts that documents are in replaced. *)
Definition with_documents (s : State) (D : gmap Z gostring) (contains diagnostics : DefaultIDSetMap) : State :=
  set_Diagnostics (set_Contains (set_DocumentData s D) contains) diagnostics.

Definition with_results (s : State) (de re im : gmap Z DefaultIDSetMap) : State :=
  set_ImplementationData (set_ReferenceData (set_DefinitionData s de) re) im.

Lemma union_delete_spec n sm d c :
  wf_map sm -> d <> c ->
  exists r sm1 sm2, SetMap.Get sm d = Done r /\ SetMap.UnionIDSet n sm c r = Done sm1 /\
  SetMap.Delete n sm1 d = Done sm2 /\ wf_map sm2 /\
  forall a x, linked_to (sets sm2) a x <-> (a <> d /\ linked_to (sets sm) a x) \/ (a = c /\ linked_to (sets sm) d x).
Proof.
  intros Hw Hne. rewrite Get_spec by done.
  destruct (UnionIDSet_spec n sm c (contents sm !! d) Hw) as (sm1 & E1 & Hw1 & S1).
  { intros o Ho. by apply (wf_entries _ Hw) in Ho as [? _]. }
  destruct (Delete_spec n sm1 d Hw1) as (sm2 & E2 & Hw2 & S2).
  exists (contents sm !! d), sm1, sm2. split_and!; [done..|]. intros a x.
  rewrite S2, linked_to_delete, S1, linked_to_add_some. unfold linked_to at 3, sets. rewrite lookup_fmap.
  naive_solver.
Qed.

Lemma merge_documents_spec n s :
  wf_map (Contains s) -> wf_map (Diagnostics s) ->
  returns (run_fold (merge_document n) (map_range n (canonical_ids n (DocumentData s))) s) (fun s' =>
    exists co di, let D := DocumentData s in
    s' = with_documents s (DocumentData s') co di /\ wf_map co /\ wf_map di /\
    moved D (sets (Contains s)) (sets co) /\ moved D (sets (Diagnostics s)) (sets di) /\
    forall d uri, DocumentData s' !! d = Some uri <-> least D uri d).
Proof.
  intros Hc Hd. set (D := DocumentData s). set (ids := canonical_ids n D).
  pose proof (fun d => canonical_ids_spec n D d) as Hids. fold ids in Hids.
  pose proof (NoDup_map_range_keys n ids) as Hn.
  eapply returns_mono; [apply (run_fold_inv _ (fun l1 s' => exists co di,
    s' = with_documents s (DocumentData s') co di /\ wf_map co /\ wf_map di /\
    moved_some D l1.*1 (sets (Contains s)) (sets co) /\ moved_some D l1.*1 (sets (Diagnostics s)) (sets di) /\
    forall d, DocumentData s' !! d = if decide (d ∈ l1.*1) then None else D !! d))|].
  - exists (Contains s), (Diagnostics s). split_and!; [by destruct s|done|done|apply moved_nil|apply moved_nil|].
    intros d. by rewrite decide_False by apply not_elem_of_nil.
  - intros l1 [d c] l2 s1 E (co & di & Es & Wc & Wd & Mc & Md & HD).
    assert (ids !! d = Some c) as Hdc.
    { apply (elem_of_map_range n). rewrite E. apply elem_of_app. right. by left. }
    specialize (Hids d). rewrite Hdc in Hids. destruct Hids as (Hs & Hne & _).
    assert (d ∉ l1.*1) as Hdl.
    { rewrite E, fmap_app in Hn. apply NoDup_app in Hn as (_ & Hdis & _). intros Hx. apply (Hdis d Hx). by left. }
    destruct (union_delete_spec n co d c Wc Hne) as (r & co1 & co2 & C1 & C2 & C3 & C4 & C5).
    destruct (union_delete_spec n di d c Wd Hne) as (r' & di1 & di2 & D1 & D2 & D3 & D4 & D5).
    unfold merge_document.
    assert (Contains s1 = co) as -> by (rewrite Es; reflexivity).
    assert (Diagnostics s1 = di) as -> by (rewrite Es; reflexivity).
    rewrite C1. simpl. rewrite C2. simpl. rewrite D1. simpl. rewrite D2. simpl. rewrite C3. simpl. rewrite D3. simpl.
    apply returns_done. exists co2, di2. rewrite fmap_app. simpl. split_and!; [|done|done| | |].
    + rewrite Es. reflexivity.
    + by eapply moved_step.
    + by eapply moved_step.
    + intros d'. destruct (decide (d' = d)) as [->|Hd'].
      * rewrite lookup_delete_eq, decide_True; [done|]. apply elem_of_app. right. by left.
      * rewrite lookup_delete_ne, HD by done. destruct (decide (d' ∈ l1.*1)) as [Hin|Hin].
        -- rewrite decide_True; [done|]. apply elem_of_app. by left.
        -- rewrite decide_False; [done|]. intros [?|?%list_elem_of_singleton]%elem_of_app; done.
  - intros s' (co & di & Es & Wc & Wd & Mc & Md & HD). exists co, di. cbv zeta. fold D.
    assert (forall d, d ∉ (map_range n ids).*1 -> stands_for D d d) as Hstay.
    { intros d Hd'. specialize (Hids d). destruct (ids !! d) eqn:Ei; [|done].
      exfalso. apply Hd', elem_of_map_range_keys. by rewrite Ei. }
    split_and!; [done..|eapply moved_all; eauto|eapply moved_all; eauto|].
    intros d uri. rewrite HD. destruct (decide _) as [Hin|Hin].
    + split; [done|]. intros [Hd' Hl]. apply elem_of_map_range_keys in Hin as [c Hc'].
      specialize (Hids d). rewrite Hc' in Hids. destruct Hids as (Hs & Hne & _). exfalso. apply Hne.
      eapply stands_for_fun; [|exact Hs]. unfold stands_for. rewrite Hd'. by split.
    + specialize (Hstay d Hin). unfold stands_for in Hstay. split; [|by intros [? _]].
      intros Hd'. rewrite Hd' in Hstay. exact Hstay.
Qed.

(** What canonicalization of documents leaves. *)
Record documents_done (s s' : State) : Prop := {
  dd_rest : exists de re im D co di, s' = with_documents (with_results s de re im) D co di;
  dd_documents d uri : DocumentData s' !! d = Some uri <-> least (DocumentData s) uri d;
  dd_contains : moved (DocumentData s) (sets (Contains s)) (sets (Contains s'));
  dd_diagnostics : moved (DocumentData s) (sets (Diagnostics s)) (sets (Diagnostics s'));
  dd_definitions : pointwise (locations_moved (DocumentData s)) (DefinitionData s) (DefinitionData s');
  dd_references : pointwise (locations_moved (DocumentData s)) (ReferenceData s) (ReferenceData s');
  dd_implementations : pointwise (locations_moved (DocumentData s)) (ImplementationData s) (ImplementationData s')
}.

Lemma moved_known {A} (D D' : gmap Z gostring) (m : gmap Z A) sm sm' :
  wf_map sm' -> moved D (sets sm) (sets sm') -> relation_ok (knows D) (knows m) sm ->
  (forall d uri, D' !! d = Some uri <-> least D uri d) -> relation_ok (knows D') (knows m) sm'.
Proof.
  intros Hw Hm [_ H] HD. split; [done|]. intros c x (d & Hs & Hx)%Hm. apply H in Hx as [[uri Hd] Hx].
  split; [|done]. unfold stands_for in Hs. rewrite Hd in Hs. exists uri. by apply HD.
Qed.

Lemma documents_done_ok s s' :
  state_ok s -> documents_done s s' -> wf_map (Contains s') -> wf_map (Diagnostics s') -> state_ok s'.
Proof.
  intros Hok [(de & re & im & D & co & di & ->) HD Hc Hg Hde Hre Him] Wc Wd. simpl in *.
  pose proof (fun k => pointwise_knows _ _ _ k Hde) as Kde.
  pose proof (fun k => pointwise_knows _ _ _ k Hre) as Kre.
  pose proof (fun k => pointwise_knows _ _ _ k Him) as Kim.
  assert (forall a b c h, results_ok s a b c h ->
    results_ok (with_documents (with_results s de re im) D co di) a b c h) as Hres.
  { intros a b c h (H1 & H2 & H3 & H4). split_and!; simpl; [by intros ?; apply Kde, H1|
      by intros ?; apply Kre, H2|by intros ?; apply Kim, H3|done]. }
  split; simpl.
  - intros id r Hr. apply Hres, (ok_ranges _ Hok _ _ Hr).
  - intros id r Hr. apply Hres, (ok_resultSets _ Hok _ _ Hr).
  - exact (pointwise_locations_ok _ s _ _ Hde (ok_definitions _ Hok)).
  - exact (pointwise_locations_ok _ s _ _ Hre (ok_references _ Hok)).
  - exact (pointwise_locations_ok _ s _ _ Him (ok_implementations _ Hok)).
  - exact (ok_packages _ Hok).
  - exact (ok_next _ Hok).
  - exact (ok_imported _ Hok).
  - exact (ok_exported _ Hok).
  - exact (ok_implemented _ Hok).
  - exact (ok_linked _ Hok).
  - intros a l Hl. destruct (ok_links _ Hok _ _ Hl) as [H1 H2]. split; [by apply Kre|].
    intros b Hb. by apply Kre, H2.
  - exact (ok_monikers _ Hok).
  - by eapply moved_known; [| |exact (ok_contains _ Hok)|].
  - by eapply moved_known; [| |exact (ok_diagnostics _ Hok)|].
Qed.

Lemma canonicalizeDocuments_spec n s :
  state_ok s -> returns (canonicalizeDocuments n s) (fun s' => state_ok s' /\ documents_done s s').
Proof.
  intros Hok. unfold canonicalizeDocuments. cbv zeta.
  run_step (move_all_ranges_spec n (DocumentData s) s (DefinitionData s) (ok_definitions _ Hok)). intros de Hde.
  run_step (move_all_ranges_spec n (DocumentData s) s (ReferenceData s) (ok_references _ Hok)). intros re Hre.
  run_step (move_all_ranges_spec n (DocumentData s) s (ImplementationData s) (ok_implementations _ Hok)). intros im Him.
  eapply returns_mono; [apply (merge_documents_spec n (with_results s de re im))|].
  - apply (ok_contains _ Hok).
  - apply (ok_diagnostics _ Hok).
  - intros s' (co & di & Es & Wc & Wd & Mc & Md & HD).
    assert (documents_done s s') as Hdd.
    { rewrite Es. split; simpl; [by repeat eexists|exact HD|done..]. }
    split; [|done]. apply (documents_done_ok s s' Hok Hdd); by rewrite Es.
Qed.
End Documents.
