(* ===== verification/CanonChains.v ===== *)
(** Chains of next edges: [canonicalizeResultSets] and [canonicalizeRanges] give
    every range and result set the results and the monikers of its chain. *)
From stdpp Require Import relations.
From S2P Require Import Prelude GoStr GoLib GoMap IdSets IdSetFacts Lsif LsifFacts Canonicalize CanonDocuments.

(** Linked reference results: after [canonicalizeReferenceResults] a reference
    result holds the ranges of all reference results that it is linked to. *)

Section References.
Context {G : GoRuntime}.

(** The location [x] in document [d] is in the entry of [id]. *)
Definition located (data : gmap Z DefaultIDSetMap) (id d x : Z) : Prop :=
  exists sm, data !! id = Some sm /\ linked_to (sets sm) d x.

Lemma located_eq data data' id d x : data' !! id = data !! id -> located data' id d x <-> located data id d x.
Proof. intros E. unfold located. by rewrite E. Qed.

Lemma copy_references_spec n data id nextID smi smn :
  data !! id = Some smi -> data !! nextID = Some smn -> wf_map smi -> wf_map smn -> id <> nextID ->
  returns (copy_references n data id nextID) (fun data' => exists smi', data' = <[id := smi']> data /\
    wf_map smi' /\ forall d x, linked_to (sets smi') d x <-> linked_to (sets smi) d x \/ linked_to (sets smn) d x).
Proof.
  intros Hi Hn Wi Wn Hne. unfold copy_references. rewrite Hn.
  destruct (map_Each_spec n smn Wn) as (l & -> & Hl). cbn [run_bind].
  eapply returns_mono; [apply (run_fold_inv _ (fun l1 data' => exists smi', data' = <[id := smi']> data /\
    wf_map smi' /\ forall d x, linked_to (sets smi') d x <->
      linked_to (sets smi) d x \/ exists e, e ∈ l1 /\ e.1 = d /\ x ∈ elems e.2))|].
  - exists smi. split_and!; [by rewrite insert_id|done|]. intros d x. split; [by left|].
    by intros [?|(e & ?%not_elem_of_nil & _)].
  - intros l1 [k v] l2 data' E (smi' & -> & W' & H'). rewrite lookup_insert_eq. cbn [fst snd].
    assert (wf_set v) as Wv.
    { assert ((k, v) ∈ l) as Hin by (rewrite E; apply elem_of_app; right; by left).
      rewrite Hl in Hin. apply elem_of_map_to_list in Hin. by apply (wf_entries _ Wn) in Hin as [? _]. }
    destruct (UnionIDSet_spec n smi' k (Some v) W') as (sm2 & -> & W2 & S2); [by intros o [= <-]|]. simpl.
    apply returns_done. exists sm2. rewrite insert_insert_eq. split_and!; [done|done|]. intros d x.
    unfold linked_to at 1. rewrite S2. simpl. fold (linked_to (add_some k (elems v) (sets smi')) d x).
    unfold add_some. case_bool_decide as Hv.
    + rewrite H'. setoid_rewrite elem_of_app. setoid_rewrite list_elem_of_singleton.
      split; [naive_solver|]. intros [?|(e & [?| ->] & ? & Hx)]; [by left|right; eauto|].
      simpl in Hx. rewrite Hv in Hx. set_solver.
    + rewrite linked_to_add, H'. setoid_rewrite elem_of_app. setoid_rewrite list_elem_of_singleton. naive_solver.
  - intros data' (smi' & -> & W' & H'). exists smi'. split_and!; [done|done|]. intros d x. rewrite H'.
    assert ((exists e, e ∈ l /\ e.1 = d /\ x ∈ elems e.2) <-> linked_to (sets smn) d x) as ->; [|done].
    setoid_rewrite Hl. unfold linked_to, sets. rewrite lookup_fmap. split.
    + intros ([k v] & Hkv%elem_of_map_to_list & <- & Hx). simpl in *. by rewrite Hkv.
    + intros Hx. destruct (contents smn !! d) as [v|] eqn:Ev; [|set_solver]. exists (d, v).
      split_and!; [by apply elem_of_map_to_list|done|done].
Qed.

Section Closure.
Context (n : nat) (data0 : gmap Z DefaultIDSetMap) (links : gmap Z (list Z)).

Definition link (a b : Z) : Prop := exists l, links !! a = Some l /\ b ∈ l.

(** The locations that are reachable through links. *)
Definition reachable_location (id d x : Z) : Prop := exists id', rtc link id id' /\ located data0 id' d x.

Context (acyclic : forall a, ~ tc link a a).
Context (known_links : forall a b, link a b -> knows data0 a /\ knows data0 b).

Lemma reachable_step id d x :
  reachable_location id d x <-> located data0 id d x \/ exists b, link id b /\ reachable_location b d x.
Proof.
  split.
  - intros (id' & Hr & Hl). inversion Hr as [|? b ? Hab Hbc]; subst; [by left|right]. exists b. split; [done|]. by exists id'.
  - intros [Hl|(b & Hb & (id' & Hr & Hl))]; [by exists id|]. exists id'. split; [by eapply rtc_l|done].
Qed.

(** The entries of visited identifiers that are not on the stack are complete;
    those that were not visited have not changed. *)
Record visit_inv (stack : list Z) (data : gmap Z DefaultIDSetMap) (visited : gset Z) : Prop := {
  vi_known k : knows data k <-> knows data0 k;
  vi_wf k sm : data !! k = Some sm -> wf_map sm;
  vi_visited k : k ∈ visited -> knows data0 k;
  vi_fresh k : k ∉ visited -> data !! k = data0 !! k;
  vi_done k d x : k ∈ visited -> k ∉ stack -> located data k d x <-> reachable_location k d x
}.

(** One linked result, after it was visited. *)
Lemma copy_step id stack data visited b (P : Z -> Z -> Prop) :
  visit_inv (id :: stack) data visited -> link id b -> b ∈ visited -> b ∉ id :: stack ->
  (forall d x, located data id d x <-> P d x) -> id ∈ visited ->
  returns (copy_references n data id b) (fun data' =>
    visit_inv (id :: stack) data' visited /\ (forall a, a <> id -> data' !! a = data !! a) /\
    forall d x, located data' id d x <-> P d x \/ reachable_location b d x).
Proof.
  intros Hi Hl Hb Hbs HP Hid. apply not_elem_of_cons in Hbs as [Hne Hbs].
  destruct (known_links id b Hl) as [Ki Kb].
  apply (vi_known _ _ _ Hi) in Ki as [smi Ei]. apply (vi_known _ _ _ Hi) in Kb as [smb Eb].
  eapply returns_mono; [eapply (copy_references_spec n data id b smi smb); [done|done| | |done]|].
  - by eapply (vi_wf _ _ _ Hi).
  - by eapply (vi_wf _ _ _ Hi).
  - intros data' (smi' & -> & W' & H').
    assert (forall d x, located (<[id := smi']> data) id d x <-> P d x \/ reachable_location b d x) as Hloc.
    { intros d x. rewrite <- (vi_done _ _ _ Hi b d x Hb) by (by apply not_elem_of_cons).
      rewrite <- HP. unfold located. rewrite lookup_insert_eq, Ei, Eb. specialize (H' d x). naive_solver. }
    split_and!; [|by intros a Ha; rewrite lookup_insert_ne|done]. split.
    + intros k. rewrite <- (vi_known _ _ _ Hi k). unfold knows. rewrite lookup_insert_is_Some.
      destruct (decide (id = k)) as [<-|]; [rewrite Ei; naive_solver|naive_solver].
    + intros k sm. rewrite lookup_insert_Some. intros [[_ <-]|[_ ?]]; [done|by eapply (vi_wf _ _ _ Hi)].
    + exact (vi_visited _ _ _ Hi).
    + intros k Hk. rewrite lookup_insert_ne; [by apply (vi_fresh _ _ _ Hi)|]. by intros ->.
    + intros k d x Hk Hks. assert (id <> k) by (intros ->; apply Hks; by left).
      rewrite (located_eq data); [by apply (vi_done _ _ _ Hi)|]. by rewrite lookup_insert_ne.
Qed.

Lemma visit_reference_spec fuel id stack data visited :
  visit_inv stack data visited -> (forall a, a ∈ stack -> tc link a id) -> knows data0 id ->
  size data0 - size visited < fuel ->
  returns (visit_reference fuel n links id (data, visited)) (fun r =>
    visit_inv stack r.1 r.2 /\ visited ⊆ r.2 /\ id ∈ r.2 /\ forall a, a ∈ stack -> r.1 !! a = data !! a).
Proof.
  revert id stack data visited. induction fuel as [|fuel IH]; intros id stack data visited Hi Hst Hk Hf; [lia|].
  cbn [visit_reference]. case_bool_decide as Hv; [by apply returns_done|].
  assert (id ∉ stack) as His by (intros Hin; by apply (acyclic id), Hst).
  set (v1 := {[id]} ∪ visited).
  assert (visit_inv (id :: stack) data v1) as Hi1.
  { split; [exact (vi_known _ _ _ Hi)|exact (vi_wf _ _ _ Hi)| | |].
    - intros k [->%elem_of_singleton|?]%elem_of_union; [done|by apply (vi_visited _ _ _ Hi)].
    - intros k Hk'. apply (vi_fresh _ _ _ Hi). set_solver.
    - intros k d x Hkv [Hne Hks]%not_elem_of_cons. apply (vi_done _ _ _ Hi); set_solver. }
  assert (size data0 - size v1 < fuel) as Hf1.
  { assert (size v1 = S (size visited)) as -> by (unfold v1; rewrite size_union, size_singleton by set_solver; lia).
    assert (size visited < size data0); [|lia]. rewrite <- size_dom. apply subset_size. split.
    - intros k Hk'. by apply elem_of_dom, (vi_visited _ _ _ Hi).
    - intros Hsub. apply Hv. by apply Hsub, elem_of_dom. }
  assert (forall d x, located data id d x <-> located data0 id d x) as Hloc0.
  { intros d x. apply located_eq. by apply (vi_fresh _ _ _ Hi). }
  (* after all links the entry is complete *)
  assert (forall data' v', visit_inv (id :: stack) data' v' -> v1 ⊆ v' ->
    (forall a, a ∈ stack -> data' !! a = data !! a) ->
    (forall d x, located data' id d x <-> reachable_location id d x) ->
    visit_inv stack data' v' /\ visited ⊆ v' /\ id ∈ v' /\ forall a, a ∈ stack -> data' !! a = data !! a) as Hdone.
  { intros data' v' Hi' Hsub Hsame Hall. split_and!; [|set_solver|set_solver|done].
    split; [exact (vi_known _ _ _ Hi')|exact (vi_wf _ _ _ Hi')|exact (vi_visited _ _ _ Hi')|
      exact (vi_fresh _ _ _ Hi')|].
    intros k d x Hkv Hks. destruct (decide (k = id)) as [->|Hne]; [done|].
    apply (vi_done _ _ _ Hi'); [done|]. by apply not_elem_of_cons. }
  destruct (links !! id) as [nextIDs|] eqn:El.
  2: { apply returns_done. apply Hdone; [done|done|done|]. intros d x. rewrite Hloc0, reachable_step.
       split; [by left|]. intros [?|(b & (l & Hl & _) & _)]; [done|congruence]. }
  eapply returns_mono; [apply (run_fold_inv _ (fun l1 r =>
    visit_inv (id :: stack) r.1 r.2 /\ v1 ⊆ r.2 /\ (forall a, a ∈ stack -> r.1 !! a = data !! a) /\
    forall d x, located r.1 id d x <-> located data0 id d x \/ exists b, b ∈ l1 /\ reachable_location b d x))|].
  - split_and!; [done|done|done|]. intros d x. rewrite Hloc0. split; [by left|].
    by intros [?|(b & ?%not_elem_of_nil & _)].
  - intros l1 b l2 [data1 w] E (Hi2 & Hsub & Hsame & Hl1). simpl in *.
    assert (link id b) as Hlb by (exists nextIDs; split; [done|]; rewrite E; apply elem_of_app; right; by left).
    assert (forall a, a ∈ id :: stack -> tc link a b) as Hst'.
    { intros a [->|Ha]%elem_of_cons; [by apply tc_once|]. eapply tc_r; [by apply Hst|done]. }
    run_step (IH b (id :: stack) data1 w Hi2 Hst'); [by eapply known_links| |].
    { assert (size v1 <= size w) by (by apply subseteq_size). lia. }
    intros [data2 w2] (Hi3 & Hsub2 & Hb & Hsame2). simpl in *.
    assert (b ∉ id :: stack) as Hbs by (intros Hin; by apply (acyclic b), Hst').
    assert (id ∈ w2) as Hid2 by set_solver.
    run_step (copy_step id stack data2 w2 b (fun d x => located data0 id d x \/
      exists b, b ∈ l1 /\ reachable_location b d x) Hi3 Hlb Hb Hbs).
    + intros d x. rewrite <- Hl1. apply located_eq, Hsame2. by left.
    + done.
    + intros data3 (Hi4 & Hother & Hl3). apply returns_done. simpl. split_and!; [done|set_solver| |].
      * intros a Ha. rewrite Hother by (by intros ->). rewrite Hsame2 by (by right). by apply Hsame.
      * intros d x. rewrite Hl3. setoid_rewrite elem_of_app. setoid_rewrite list_elem_of_singleton. naive_solver.
  - intros [data' v'] (Hi' & Hsub & Hsame & Hl). apply Hdone; [done|done|done|]. intros d x.
    rewrite Hl, reachable_step. unfold link. rewrite El. split; (intros [?|(b & Hb & ?)]; [by left|right]); exists b.
    + split; [by exists nextIDs|done].
    + destruct Hb as (l & [= <-] & Hb). done.
Qed.
End Closure.

(** Reference results are closed under links, for links without cycles. *)
Definition references_done (s s' : State) : Prop :=
  s' = set_ReferenceData s (ReferenceData s') /\
  (forall id, knows (ReferenceData s') id <-> knows (ReferenceData s) id) /\
  forall id d x, knows (ReferenceData s) id ->
    located (ReferenceData s') id d x <-> reachable_location (ReferenceData s) (LinkedReferenceResults s) id d x.

Lemma canonicalizeReferenceResults_spec n s :
  state_ok s -> (forall a, ~ tc (link (LinkedReferenceResults s)) a a) ->
  returns (canonicalizeReferenceResults n s) (fun s' => state_ok s' /\ references_done s s').
Proof.
  intros Hok Hac. unfold canonicalizeReferenceResults. cbv zeta. set (data0 := ReferenceData s).
  set (links := LinkedReferenceResults s) in *.
  assert (forall a b, link links a b -> knows data0 a /\ knows data0 b) as Hkl.
  { intros a b (l & Hl & Hb). destruct (ok_links _ Hok _ _ Hl) as [H1 H2]. auto. }
  assert (visit_inv data0 links [] data0 ∅) as Hinit.
  { split; [done| |set_solver|done|set_solver]. intros k sm Hk. apply (ok_references _ Hok _ _ Hk). }
  eapply returns_bind, returns_mono; [apply (run_fold_inv _ (fun l1 r =>
    visit_inv data0 links [] r.1 r.2 /\ forall id, id ∈ l1 -> id ∈ r.2))|].
  - split; [done|]. by intros id ?%not_elem_of_nil.
  - intros l1 id l2 [data v] E [Hi Hl].
    eapply returns_mono; [apply (visit_reference_spec n data0 links Hac Hkl _ id [] data v Hi)|].
    + by intros a ?%not_elem_of_nil.
    + apply (elem_of_map_range_keys n). fold data0 in E. rewrite E. apply elem_of_app. right. by left.
    + lia.
    + intros [data' v'] (Hi' & Hsub & Hid & _). split; [done|]. simpl in *.
      intros x [Hx%Hl| ->%list_elem_of_singleton]%elem_of_app; [by apply Hsub|done].
  - intros [data v] [Hi Hl]. apply returns_done. simpl in *.
    assert (forall id d x, knows data0 id -> located data id d x <-> reachable_location data0 links id d x) as Hall.
    { intros id d x Hk. apply (vi_done _ _ _ _ _ Hi); [|by apply not_elem_of_nil].
      apply Hl. by apply elem_of_map_range_keys. }
    split; [|split_and!; [done|exact (vi_known _ _ _ _ _ Hi)|exact Hall]].
    assert (extends s (set_ReferenceData s data)) as Hext.
    { split; simpl; auto. intros x. apply (vi_known _ _ _ _ _ Hi). }
    split; kept Hok Hext. intros id sm Hid. simpl in Hid. split; [by eapply (vi_wf _ _ _ _ _ Hi)|].
    intros d x Hx. split; [done|].
    assert (located data id d x) as Hloc by (by exists sm).
    apply Hall in Hloc; [|apply (vi_known _ _ _ _ _ Hi); by exists sm].
    destruct Hloc as (id' & _ & sm0 & Hsm0 & Hx0). by apply (ok_references _ Hok _ _ Hsm0) in Hx0 as [_ ?].
Qed.
End References.

Section Chains.
Context {G : GoRuntime}.

(** ** Merging *)

Definition or0 (x y : Z) : Z := if (x =? 0)%Z then y else x.

Definition merge_results (a b : ResultSet) : ResultSet :=
  MkResultSet (or0 (DefinitionResultID a) (DefinitionResultID b)) (or0 (ReferenceResultID a) (ReferenceResultID b))
    (or0 (ImplementationResultID a) (ImplementationResultID b)) (or0 (HoverResultID a) (HoverResultID b)).

Definition merge_range (r : Range) (b : ResultSet) : Range :=
  MkRange (r_Data r) (r_Tag r) (or0 (r_DefinitionResultID r) (DefinitionResultID b))
    (or0 (r_ReferenceResultID r) (ReferenceResultID b))
    (or0 (r_ImplementationResultID r) (ImplementationResultID b)) (or0 (r_HoverResultID r) (HoverResultID b)).

Lemma mergeNextResultSetData_eq n st id item nextID nextItem :
  mergeNextResultSetData n st id item nextID nextItem =
  let! st := union_monikers n st id nextID in Done (merge_results item nextItem, st).
Proof.
  unfold mergeNextResultSetData, merge_results, or0. destruct item as [a b c d]. simpl.
  destruct (a =? 0)%Z; simpl; destruct (b =? 0)%Z; simpl; destruct (c =? 0)%Z; simpl; destruct (d =? 0)%Z; done.
Qed.

Lemma mergeNextRangeData_eq n st id item nextID nextItem :
  mergeNextRangeData n st id item nextID nextItem =
  let! st := union_monikers n st id nextID in Done (merge_range item nextItem, st).
Proof.
  unfold mergeNextRangeData, merge_range, or0. destruct item as [r t a b c d]. simpl.
  destruct (a =? 0)%Z; simpl; destruct (b =? 0)%Z; simpl; destruct (c =? 0)%Z; simpl; destruct (d =? 0)%Z; done.
Qed.

(** ** Monikers *)

Definition mon (st : State) (a x : Z) : Prop := linked_to (sets (Monikers st)) a x.

Lemma union_monikers_spec n st a b : wf_map (Monikers st) ->
  returns (union_monikers n st a b) (fun st' => st' = set_Monikers st (Monikers st') /\ wf_map (Monikers st') /\
    forall c x, mon st' c x <-> mon st c x \/ (c = a /\ mon st b x)).
Proof.
  intros Hw. unfold union_monikers. rewrite Get_spec by done. simpl.
  destruct (UnionIDSet_spec n (Monikers st) a (contents (Monikers st) !! b) Hw) as (sm & -> & Hw' & E).
  { intros o Ho. by apply (wf_entries _ Hw) in Ho as [? _]. }
  simpl. apply returns_done. simpl. split_and!; [done|done|]. intros c x. unfold mon. simpl.
  rewrite E, linked_to_add_some. unfold linked_to at 3, sets. by rewrite lookup_fmap.
Qed.

(** The monikers that are linked to one of [S] and are not local. *)
Definition gathered (st : State) (S : Z -> Prop) (x : Z) : Prop :=
  (exists m, S m /\ rtc (linked_to (sets (LinkedMonikers st))) m x) /\
  match MonikerData st !! x with Some m => Kind m | None => [] end <> str "local".

Lemma gather_filter_spec st (l : list Z) set : wf_set set ->
  let set' := fold_left (fun monikers id =>
      let kind := match MonikerData st !! id with Some m => Kind m | None => [] end in
      if negb (gs_eqb kind (str "local")) then IDSet.Add monikers id else monikers) l set in
  wf_set set' /\ forall x, x ∈ elems set' <-> x ∈ elems set \/
    (x ∈ l /\ match MonikerData st !! x with Some m => Kind m | None => [] end <> str "local").
Proof.
  revert set. induction l as [|y l IH]; intros set Hw; simpl; [split; [done|set_solver]|].
  destruct (gs_eqb _ (str "local")) eqn:E; simpl.
  - apply gs_eqb_eq in E. destruct (IH set Hw) as [H1 H2]. split; [done|]. intros x. rewrite H2, elem_of_cons.
    split; [tauto|]. intros [?|[[->|?] ?]]; [by left|done|by right].
  - apply gs_eqb_false in E. destruct (Add_spec set y Hw) as [Ha Ea]. destruct (IH _ Ha) as [H1 H2].
    split; [done|]. intros x. rewrite H2, Ea, elem_of_cons, elem_of_union, elem_of_singleton. naive_solver.
Qed.

Lemma gatherMonikers_spec n st source :
  wf_map (LinkedMonikers st) -> (forall o, source = Some o -> wf_set o) ->
  returns (gatherMonikers n st source) (fun r => (forall o, r = Some o -> wf_set o) /\
    forall x, x ∈ default ∅ (elems <$> r) <-> gathered st (fun m => m ∈ default ∅ (elems <$> source)) x).
Proof.
  intros Hl Hs. unfold gatherMonikers. destruct source as [source|].
  2: { apply returns_done. split; [done|]. intros x. unfold gathered. simpl. set_solver. }
  specialize (Hs source eq_refl). rewrite set_Len_spec by done.
  destruct (Nat.eqb_spec (size (elems source)) 0) as [E|E].
  { apply returns_done. split; [done|]. apply size_empty_inv, leibniz_equiv in E. intros x. unfold gathered. simpl.
    rewrite E. set_solver. }
  eapply returns_bind, returns_mono; [apply (run_fold_inv _ (fun l1 set => wf_set set /\
    forall x, x ∈ elems set <-> gathered st (fun m => m ∈ l1) x))|].
  - split; [apply wf_new|]. intros x. rewrite elems_new. unfold gathered. set_solver.
  - intros l1 m l2 set El [Hw Hx]. destruct (ExtractSet_spec (LinkedMonikers st) Hl m n) as (ex & -> & He & Hex). simpl.
    apply returns_done. destruct (gather_filter_spec st (IDSet.Each n ex) set Hw) as [H1 H2].
    split; [done|]. intros x. rewrite H2, Hx, elem_of_set_Each, Hex by done. unfold gathered.
    setoid_rewrite elem_of_app. setoid_rewrite list_elem_of_singleton. naive_solver.
  - intros set [Hw Hx]. apply returns_done. split; [by intros o [= <-]|]. intros x. simpl. rewrite Hx.
    unfold gathered. by setoid_rewrite (fun y => elem_of_set_Each n source y Hs).
Qed.

Lemma union_gathered_spec n st a : wf_map (Monikers st) -> wf_map (LinkedMonikers st) ->
  returns (union_gathered n st a) (fun st' => st' = set_Monikers st (Monikers st') /\ wf_map (Monikers st') /\
    forall c x, mon st' c x <-> mon st c x \/ (c = a /\ gathered st (mon st a) x)).
Proof.
  intros Hw Hl. unfold union_gathered. rewrite Get_spec by done. simpl.
  run_step (gatherMonikers_spec n st (contents (Monikers st) !! a) Hl).
  { intros o Ho. by apply (wf_entries _ Hw) in Ho as [? _]. }
  intros r [Hr Hx]. destruct (UnionIDSet_spec n (Monikers st) a r Hw Hr) as (sm & -> & Hw' & E).
  simpl. apply returns_done. simpl. split_and!; [done|done|]. intros c x.
  assert (forall m, m ∈ default ∅ (elems <$> contents (Monikers st) !! a) <-> mon st a m) as Hm.
  { intros m. unfold mon, linked_to, sets. by rewrite lookup_fmap. }
  unfold mon at 1. simpl. rewrite E, linked_to_add_some, Hx. unfold gathered. by setoid_rewrite Hm.
Qed.

(** ** Result sets *)
Section ResultSets.
Context (n : nat) (s0 : State) (Hok : state_ok s0).

Definition nexts (a b : Z) : Prop := NextData s0 !! a = Some b.

Context (acyclic : forall a, ~ tc nexts a a).

(** The results of a chain of result sets, the nearest first. *)
Inductive resolves : Z -> ResultSet -> Prop :=
| resolves_end id : NextData s0 !! id = None -> resolves id (default zeroResultSet (ResultSetData s0 !! id))
| resolves_next id b v : nexts id b -> resolves b v ->
    resolves id (merge_results (default zeroResultSet (ResultSetData s0 !! id)) v).

(** The monikers of a chain. *)
Definition chain_mon (a x : Z) : Prop := exists b, rtc nexts a b /\ mon s0 b x.

Lemma chain_mon_end a x : NextData s0 !! a = None -> chain_mon a x <-> mon s0 a x.
Proof.
  intros E. split; [|by exists a]. intros (b & Hr & Hx). inversion Hr; subst; [done|]. unfold nexts in *. congruence.
Qed.

Lemma chain_mon_next a b x : nexts a b -> chain_mon a x <-> mon s0 a x \/ chain_mon b x.
Proof.
  intros E. split.
  - intros (c & Hr & Hx). inversion Hr as [|? b' ? Hab Hbc]; subst; [by left|right]. unfold nexts in *.
    assert (b = b') as -> by congruence. by exists c.
  - intros [Hx|(c & Hr & Hx)]; [by exists a|]. exists c. split; [by eapply rtc_l|done].
Qed.

(** The result sets [F] are finished, the others have not changed. *)
Record chain_inv (F : gset Z) (st : State) : Prop := {
  ci_rest : st = set_NextData (set_ResultSetData (set_Monikers s0 (Monikers st)) (ResultSetData st)) (NextData st);
  ci_wf : wf_map (Monikers st);
  ci_known id : id ∈ F -> knows (ResultSetData s0) id;
  ci_next id : NextData st !! id = if decide (id ∈ F) then None else NextData s0 !! id;
  ci_done id : id ∈ F -> exists v, ResultSetData st !! id = Some v /\ resolves id v;
  ci_fresh id : id ∉ F -> ResultSetData st !! id = ResultSetData s0 !! id;
  ci_mon id x : mon st id x <-> if decide (id ∈ F) then chain_mon id x else mon s0 id x
}.

Lemma chain_inv_start : chain_inv ∅ s0.
Proof.
  split; [by destruct s0|apply (ok_monikers _ Hok)|set_solver| |set_solver|done|].
  - intros id. by rewrite decide_False by set_solver.
  - intros id x. by rewrite decide_False by set_solver.
Qed.

(** A result set without a next edge, or one that is finished. *)
Lemma chain_inv_stop F st id :
  chain_inv F st -> knows (ResultSetData s0) id -> NextData st !! id = None ->
  let item := default zeroResultSet (ResultSetData st !! id) in
  resolves id item /\ chain_inv ({[id]} ∪ F) (set_ResultSetData st (<[id := item]> (ResultSetData st))).
Proof.
  intros Hi Hk En item. pose proof (ci_next _ _ Hi id) as Hn. rewrite En in Hn.
  assert (ResultSetData st !! id = Some item /\ resolves id item) as [Er Hres].
  { unfold item. destruct (decide (id ∈ F)) as [Hin|Hin].
    - destruct (ci_done _ _ Hi id Hin) as (v & -> & Hv). done.
    - rewrite (ci_fresh _ _ Hi id Hin). destruct Hk as [v Ev]. rewrite Ev. split; [done|].
      pose proof (resolves_end id (eq_sym Hn)) as H. by rewrite Ev in H. }
  split; [done|]. rewrite insert_id by done.
  assert (set_ResultSetData st (ResultSetData st) = st) as -> by (by destruct st).
  split; [apply Hi|apply Hi| | | | |].
  - intros k [->%elem_of_singleton|?]%elem_of_union; [done|by apply (ci_known _ _ Hi)].
  - intros k. rewrite (ci_next _ _ Hi). destruct (decide (k ∈ F)); [by rewrite decide_True by set_solver|].
    destruct (decide (k ∈ {[id]} ∪ F)) as [Hk'|]; [|done]. assert (k = id) as -> by set_solver.
    by rewrite decide_False in Hn.
  - intros k Hk'. destruct (decide (k = id)) as [->|]; [by exists item|]. apply (ci_done _ _ Hi). set_solver.
  - intros k Hk'. apply (ci_fresh _ _ Hi). set_solver.
  - intros k x. rewrite (ci_mon _ _ Hi). destruct (decide (k ∈ F)); [by rewrite decide_True by set_solver|].
    destruct (decide (k ∈ {[id]} ∪ F)) as [Hk'|]; [|done]. assert (k = id) as -> by set_solver.
    rewrite decide_False in Hn by done. symmetry. by apply chain_mon_end.
Qed.

(** A result set whose next one is finished. *)
Lemma chain_inv_merge F st id b v st' :
  chain_inv F st -> knows (ResultSetData s0) id -> id ∉ F -> nexts id b -> b ∈ F -> resolves b v ->
  st' = set_Monikers st (Monikers st') -> wf_map (Monikers st') ->
  (forall c x, mon st' c x <-> mon st c x \/ (c = id /\ mon st b x)) ->
  let item := merge_results (default zeroResultSet (ResultSetData s0 !! id)) v in
  let st'' := set_NextData st' (delete id (NextData st')) in
  resolves id item /\ chain_inv ({[id]} ∪ F) (set_ResultSetData st'' (<[id := item]> (ResultSetData st''))).
Proof.
  intros Hi Hk Hid Hnx Hb Hv Est Hw Hmon item st''. assert (resolves id item) as Hres by (by eapply resolves_next).
  split; [done|].
  assert (NextData st' = NextData st) as En by (by rewrite Est).
  assert (ResultSetData st' = ResultSetData st) as Er by (by rewrite Est).
  split.
  - unfold st''. rewrite Est, (ci_rest _ _ Hi). reflexivity.
  - done.
  - intros k [->%elem_of_singleton|?]%elem_of_union; [done|by apply (ci_known _ _ Hi)].
  - intros k. simpl. rewrite En. destruct (decide (k = id)) as [->|Hne].
    + rewrite lookup_delete_eq, decide_True by set_solver. done.
    + rewrite lookup_delete_ne, (ci_next _ _ Hi) by done.
      destruct (decide (k ∈ F)); [rewrite decide_True by set_solver|rewrite decide_False by set_solver]; done.
  - intros k Hk'. simpl. rewrite Er. destruct (decide (k = id)) as [->|Hne].
    + exists item. by rewrite lookup_insert_eq.
    + rewrite lookup_insert_ne by done. apply (ci_done _ _ Hi). set_solver.
  - intros k Hk'. simpl. rewrite Er, lookup_insert_ne by set_solver. apply (ci_fresh _ _ Hi). set_solver.
  - intros k x. change (mon (set_ResultSetData st'' _) k x) with (mon st' k x).
    rewrite Hmon, !(ci_mon _ _ Hi). rewrite (decide_True (P := b ∈ F)) by done.
    destruct (decide (k = id)) as [->|Hne].
    + rewrite decide_False, decide_True by set_solver. rewrite (chain_mon_next id b x Hnx). tauto.
    + destruct (decide (k ∈ F)); [rewrite decide_True by set_solver|rewrite decide_False by set_solver]; tauto.
Qed.

Lemma canonicalizeResultSetData_spec fuel st F id stack :
  chain_inv F st -> knows (ResultSetData s0) id -> NoDup stack ->
  (forall a, a ∈ stack -> tc nexts a id /\ knows (NextData st) a) ->
  size (NextData st) < length stack + fuel ->
  returns (canonicalizeResultSetData fuel n st id (default zeroResultSet (ResultSetData st !! id))) (fun r =>
    exists F', chain_inv F' r.2 /\ F ⊆ F' /\ id ∈ F' /\ resolves id r.1 /\
    forall a, a ∈ F' -> a ∈ F \/ rtc nexts id a).
Proof.
  revert st F id stack. induction fuel as [|fuel IH]; intros st F id stack Hi Hk Hn Hst Hf.
  { exfalso. assert (length stack <= size (NextData st)); [|lia].
    rewrite <- size_dom, <- (size_list_to_set (C := gset Z)) by done. apply subseteq_size.
    intros a Ha%elem_of_list_to_set. apply elem_of_dom. by apply Hst. }
  cbn [canonicalizeResultSetData]. unfold next. destruct (NextData st !! id) as [b|] eqn:En.
  2: { apply returns_done. destruct (chain_inv_stop F st id Hi Hk En) as [Hres Hi'].
       exists ({[id]} ∪ F). simpl. split_and!; [done|set_solver|set_solver|done|].
       intros a [->%elem_of_singleton|?]%elem_of_union; [by right|by left]. }
  assert (id ∉ F /\ nexts id b) as [Hid Hnx].
  { pose proof (ci_next _ _ Hi id) as H. rewrite En in H. destruct (decide (id ∈ F)); [done|]. by split. }
  assert (id ∉ stack) as Hids by (intros Hin; by apply (acyclic id), Hst).
  eapply returns_bind, returns_mono; [apply (IH st F b (id :: stack) Hi)|].
  - by apply (ok_next _ Hok) in Hnx as [_ ?].
  - by constructor.
  - intros a [->|Ha]%elem_of_cons; [split; [by apply tc_once|by exists b]|].
    destruct (Hst a Ha) as [Ht ?]. split; [by eapply tc_r|done].
  - simpl. lia.
  - intros [v st1] (F1 & Hi1 & Hsub & Hb & Hv & Hreach). simpl in *.
    assert (id ∉ F1) as Hid1.
    { intros [?|Hr]%Hreach; [done|]. apply (acyclic id). eapply tc_rtc_r; [by apply tc_once|done]. }
    rewrite mergeNextResultSetData_eq. rewrite (ci_fresh _ _ Hi id Hid).
    destruct (union_monikers_spec n st1 id b (ci_wf _ _ Hi1)) as (st2 & -> & Est & Hw & Hmon). simpl.
    apply returns_done. destruct (chain_inv_merge F1 st1 id b v st2 Hi1 Hk Hid1 Hnx Hb Hv Est Hw Hmon) as [Hres Hi2].
    exists ({[id]} ∪ F1). split_and!; [exact Hi2|set_solver|set_solver|exact Hres|].
    intros a [->%elem_of_singleton|[?|Hr]%Hreach]%elem_of_union; [by right|by left|right]. by eapply rtc_l.
Qed.
End ResultSets.
End Chains.
