(* ===== verification/CanonCorrect.v ===== *)
(** Correlation and canonicalization of an LSIF dump: the properties. *)
From stdpp Require Import relations.
From S2P Require Import Prelude GoStr GoLib GoMap IdSets IdSetFacts Lsif LsifFacts Canonicalize CanonDocuments CanonChains.

(** The loops over all result sets and all ranges, and what they leave: every
    chain of next edges is merged into the ranges and result sets at its start. *)

Section Ranges.
Context {G : GoRuntime}.

(** ** Gathering monikers for a list of items *)

Lemma gathered_same st st' S x :
  LinkedMonikers st' = LinkedMonikers st -> MonikerData st' = MonikerData st ->
  gathered st' S x <-> gathered st S x.
Proof. intros E1 E2. unfold gathered. by rewrite E1, E2. Qed.

Lemma gathered_ext st (S S' : Z -> Prop) x : (forall y, S y <-> S' y) -> gathered st S x <-> gathered st S' x.
Proof. intros E. unfold gathered. by setoid_rewrite E. Qed.

(** A set of monikers with what it gathers. *)
Definition closure (st : State) (S : Z -> Prop) (x : Z) : Prop := S x \/ gathered st S x.

Lemma closure_ext st (S S' : Z -> Prop) x : (forall y, S y <-> S' y) -> closure st S x <-> closure st S' x.
Proof. intros E. unfold closure. by rewrite E, (gathered_ext st S S'). Qed.

(** Gathering again adds nothing. *)
Lemma closure_absorb st (S T : Z -> Prop) x :
  closure st (fun y => S y \/ closure st T y) x <-> closure st (fun y => S y \/ T y) x.
Proof.
  unfold closure, gathered. split.
  - intros [[?|[?|[(m & ? & ?) ?]]]|[(m & [?|[?|[(m' & ? & ?) _]]] & Hr) ?]]; [tauto|tauto|right|right|right|right];
      (split; [|done]); [exists m; tauto|exists m; tauto|exists m; tauto|]. exists m'. split; [tauto|by etrans].
  - intros [[?|?]|[(m & [?|?] & ?) ?]]; [tauto|tauto|right|right]; (split; [|done]); exists m; tauto.
Qed.

Lemma gather_all_spec n st (l : list Z) : wf_map (Monikers st) -> wf_map (LinkedMonikers st) -> NoDup l ->
  returns (run_fold (union_gathered n) l st) (fun st' => st' = set_Monikers st (Monikers st') /\
    wf_map (Monikers st') /\
    forall (c x : Z), mon st' c x <-> if decide (c ∈ l) then closure st (mon st c) x else mon st c x).
Proof.
  intros Hw Hl Hn. pose (I := fun (l1 : list Z) st' => st' = set_Monikers st (Monikers st') /\
    wf_map (Monikers st') /\
    forall (c x : Z), mon st' c x <-> if decide (c ∈ l1) then closure st (mon st c) x else mon st c x).
  apply (run_fold_inv _ I); unfold I; clear I.
  - split_and!; [by destruct st|done|]. intros c x. by rewrite decide_False by apply not_elem_of_nil.
  - intros l1 a l2 st1 E (Est & Hw1 & Hm).
    assert (a ∉ l1) as Ha.
    { rewrite E in Hn. apply NoDup_app in Hn as (_ & Hd & _). intros Hx. apply (Hd a Hx). by left. }
    assert (LinkedMonikers st1 = LinkedMonikers st /\ MonikerData st1 = MonikerData st) as [El Ed] by (by rewrite Est).
    eapply returns_mono; [apply (union_gathered_spec n st1 a Hw1); by rewrite El|].
    intros st2 (Est2 & Hw2 & Hm2). split_and!; [rewrite Est2, Est; reflexivity|done|]. intros c x. rewrite Hm2.
    assert (forall y, mon st1 a y <-> mon st a y) as Hma by (intros y; by rewrite Hm, decide_False).
    rewrite (gathered_same st st1), (gathered_ext st (mon st1 a) (mon st a)) by done.
    destruct (decide (c = a)) as [->|Hne].
    + rewrite decide_True, Hma by (apply elem_of_app; right; by left). unfold closure. tauto.
    + rewrite Hm. destruct (decide (c ∈ l1)) as [Hin|Hin].
      * rewrite decide_True by (apply elem_of_app; by left). tauto.
      * rewrite decide_False; [tauto|]. intros [?|?%list_elem_of_singleton]%elem_of_app; done.
Qed.

(** ** All result sets *)
Section All.
Context (n : nat) (s0 : State) (Hok : state_ok s0).
Context (acyclic : forall a, ~ tc (nexts s0) a a).

(** The result sets are finished; the ranges have not changed. *)
Record resultSets_done (st : State) : Prop := {
  rd_rest : st = set_NextData (set_ResultSetData (set_Monikers s0 (Monikers st)) (ResultSetData st)) (NextData st);
  rd_wf : wf_map (Monikers st);
  rd_next id : NextData st !! id = if decide (knows (ResultSetData s0) id) then None else NextData s0 !! id;
  rd_data : pointwise (fun _ _ => True) (ResultSetData s0) (ResultSetData st);
  rd_resolves id v : ResultSetData st !! id = Some v -> resolves s0 id v;
  rd_mon id x : mon st id x <->
    if decide (knows (ResultSetData s0) id) then closure s0 (chain_mon s0 id) x else mon s0 id x
}.

Lemma merge_all_spec :
  returns (run_fold (fun state resultSetID =>
      let item := default zeroResultSet (ResultSetData state !! resultSetID) in
      let! '(_, state) := canonicalizeResultSetData (S (size (NextData state))) n state resultSetID item in
      Done state) (map_range n (ResultSetData s0)).*1 s0)
    (fun st => exists F, chain_inv s0 F st /\ forall id, id ∈ F <-> knows (ResultSetData s0) id).
Proof.
  eapply returns_mono; [apply (run_fold_inv _ (fun l1 st => exists F, chain_inv s0 F st /\ forall id, id ∈ l1 -> id ∈ F))|].
  - exists ∅. split; [by apply chain_inv_start|]. by intros id ?%not_elem_of_nil.
  - intros l1 id l2 st E (F & Hi & HF).
    assert (knows (ResultSetData s0) id) as Hk.
    { apply (elem_of_map_range_keys n). rewrite E. apply elem_of_app. right. by left. }
    run_step (canonicalizeResultSetData_spec n s0 Hok acyclic (S (size (NextData st))) st F id [] Hi Hk).
    + constructor.
    + by intros a ?%not_elem_of_nil.
    + simpl. lia.
    + intros [v st'] (F' & Hi' & Hsub & Hid & _). apply returns_done. exists F'. split; [done|].
      intros x [Hx%HF| ->%list_elem_of_singleton]%elem_of_app; [by apply Hsub|done].
  - intros st (F & Hi & HF). exists F. split; [done|]. intros id. split; [apply (ci_known _ _ _ Hi)|].
    intros Hk. by apply HF, elem_of_map_range_keys.
Qed.

Lemma canonicalizeResultSets_spec : returns (canonicalizeResultSets n s0) resultSets_done.
Proof.
  unfold canonicalizeResultSets. eapply returns_bind, returns_mono; [apply merge_all_spec|].
  intros st (F & Hi & HF).
  assert (LinkedMonikers st = LinkedMonikers s0 /\ MonikerData st = MonikerData s0) as [El Ed]
    by (by rewrite (ci_rest _ _ _ Hi)).
  assert (forall id, id ∈ (map_range n (ResultSetData st)).*1 <-> knows (ResultSetData s0) id) as Hkeys.
  { intros id. rewrite elem_of_map_range_keys, <- HF. destruct (decide (id ∈ F)) as [Hin|Hin].
    - destruct (ci_done _ _ _ Hi id Hin) as (v & -> & _). split; [done|by exists v].
    - rewrite (ci_fresh _ _ _ Hi id Hin). split; [|done]. intros Hk. by apply HF. }
  eapply returns_mono; [apply gather_all_spec; [apply (ci_wf _ _ _ Hi)| |apply NoDup_map_range_keys]|].
  { rewrite El. apply (ok_linked _ Hok). }
  intros st' (Est & Hw & Hm).
  assert (NextData st' = NextData st) as En by (by rewrite Est).
  assert (ResultSetData st' = ResultSetData st) as Er by (by rewrite Est).
  split.
  - rewrite Est, (ci_rest _ _ _ Hi). reflexivity.
  - done.
  - intros id. rewrite En, (ci_next _ _ _ Hi). by apply decide_ext.
  - intros id. rewrite Er. pose proof (Hkeys id) as H. rewrite elem_of_map_range_keys in H. unfold knows in H.
    destruct (ResultSetData s0 !! id), (ResultSetData st !! id); naive_solver.
  - intros id v. rewrite Er. intros Hv.
    assert (id ∈ F) as Hin by (apply HF, Hkeys, elem_of_map_range_keys; by exists v).
    destruct (ci_done _ _ _ Hi id Hin) as (v' & Hv' & ?). congruence.
  - intros id x. rewrite Hm. rewrite (decide_ext _ _ _ _ (Hkeys id)).
    destruct (decide (knows (ResultSetData s0) id)) as [Hk|Hk].
    + unfold closure. rewrite (gathered_same s0 st) by done.
      assert (forall y, mon st id y <-> chain_mon s0 id y) as E.
      { intros y. by rewrite (ci_mon _ _ _ Hi), decide_True by by apply HF. }
      by rewrite E, (gathered_ext s0 (mon st id) (chain_mon s0 id)).
    + rewrite (ci_mon _ _ _ Hi), decide_False; [done|]. by rewrite HF.
Qed.

(** ** All ranges *)

Context (distinct : forall id, knows (RangeData s0) id -> ~ knows (ResultSetData s0) id).

Definition range_resolves (id : Z) (r r' : Range) : Prop :=
  match NextData s0 !! id with
  | None => r' = r
  | Some b => exists v, resolves s0 b v /\ r' = merge_range r v
  end.

(** The ranges [l] are finished. *)
Record ranges_inv (l : list Z) (st : State) : Prop := {
  ri_rest : st = set_RangeData (set_NextData (set_ResultSetData (set_Monikers s0 (Monikers st)) (ResultSetData st))
    (NextData st)) (RangeData st);
  ri_wf : wf_map (Monikers st);
  ri_next id : NextData st !! id =
    if decide (knows (ResultSetData s0) id \/ id ∈ l) then None else NextData s0 !! id;
  ri_resultSets : pointwise (fun _ _ => True) (ResultSetData s0) (ResultSetData st);
  ri_resolves id v : ResultSetData st !! id = Some v -> resolves s0 id v;
  ri_ranges id : match RangeData s0 !! id, RangeData st !! id with
                 | Some r, Some r' => if decide (id ∈ l) then range_resolves id r r' else r' = r
                 | None, None => True
                 | _, _ => False
                 end;
  ri_mon id x : mon st id x <->
    if decide (knows (ResultSetData s0) id \/ id ∈ l) then closure s0 (chain_mon s0 id) x else mon s0 id x
}.

Lemma ranges_inv_start st : resultSets_done st -> ranges_inv [] st.
Proof.
  intros Hd. assert (RangeData st = RangeData s0) as Er by (by rewrite (rd_rest _ Hd)).
  assert (forall id, knows (ResultSetData s0) id <-> knows (ResultSetData s0) id \/ id ∈ @nil Z) as Hl.
  { intros id. rewrite elem_of_nil. tauto. }
  split; [|apply (rd_wf _ Hd)| |apply (rd_data _ Hd)|apply (rd_resolves _ Hd)| |].
  - rewrite Er. rewrite (rd_rest _ Hd) at 1. reflexivity.
  - intros id. rewrite (rd_next _ Hd). apply decide_ext, Hl.
  - intros id. rewrite Er. destruct (RangeData s0 !! id); [|done]. by rewrite decide_False by apply not_elem_of_nil.
  - intros id x. rewrite (rd_mon _ Hd). by rewrite (decide_ext _ _ _ _ (Hl id)).
Qed.

(** A range after its next result set, if any, was merged into it. *)
Definition merged (st : State) (id : Z) (r' : Range) (st' : State) : Prop :=
  st' = set_NextData (set_Monikers st (Monikers st')) (delete id (NextData st)) /\ wf_map (Monikers st') /\
  forall c x, mon st' c x <-> mon st c x \/
    (c = id /\ exists b, nexts s0 id b /\ closure s0 (chain_mon s0 b) x).

Lemma merge_range_spec l st id r :
  ranges_inv l st -> id ∉ l -> knows (RangeData s0) id ->
  returns (match next st id with
    | None => Done (r, st)
    | Some (nextID, nextItem) =>
        let! '(rangeData, state) := mergeNextRangeData n st id r nextID nextItem in
        Done (rangeData, set_NextData state (delete id (NextData state)))
    end) (fun p => range_resolves id r p.1 /\ merged st id p.1 p.2).
Proof.
  intros Hi Hl Hk. assert (NextData st !! id = NextData s0 !! id) as En.
  { rewrite (ri_next _ _ Hi), decide_False; [done|]. intros [?|?]; [by apply (distinct id)|done]. }
  unfold next, range_resolves, merged, nexts. rewrite En. destruct (NextData s0 !! id) as [b|] eqn:Eb.
  2: { apply returns_done. simpl. rewrite delete_id by done. split_and!; [done|by destruct st|apply (ri_wf _ _ Hi)|].
       intros c x. naive_solver. }
  rewrite mergeNextRangeData_eq.
  destruct (union_monikers_spec n st id b (ri_wf _ _ Hi)) as (st1 & -> & Est & Hw & Hmon). simpl.
  apply returns_done. simpl. apply (ok_next _ Hok) in Eb as [_ Hb].
  split_and!; [|by rewrite Est|done|].
  - pose proof (ri_resultSets _ _ Hi b) as Hp. destruct Hb as [v0 Hv0]. rewrite Hv0 in Hp.
    destruct (ResultSetData st !! b) as [v|] eqn:Ev; [|done]. exists v. split; [by apply (ri_resolves _ _ Hi)|done].
  - intros c x. change (mon (set_NextData st1 _) c x) with (mon st1 c x). rewrite Hmon.
    rewrite (ri_mon _ _ Hi b), decide_True by (by left). naive_solver.
Qed.

(** The monikers of a range: its own, those of the chain behind it, and what is
    linked to them. *)
Lemma range_monikers st st1 id x :
  (forall y, mon st id y <-> mon s0 id y) ->
  (forall y, mon st1 id y <-> mon st id y \/
    (id = id /\ exists b, nexts s0 id b /\ closure s0 (chain_mon s0 b) y)) ->
  closure s0 (mon st1 id) x <-> closure s0 (chain_mon s0 id) x.
Proof.
  intros H H1. destruct (NextData s0 !! id) as [b|] eqn:Eb.
  - rewrite (closure_ext _ _ (fun y => mon s0 id y \/ closure s0 (chain_mon s0 b) y)).
    + rewrite closure_absorb. apply closure_ext. intros y. symmetry. by apply chain_mon_next.
    + intros y. rewrite H1, H. unfold nexts. rewrite Eb. naive_solver.
  - apply closure_ext. intros y. rewrite H1, H, (chain_mon_end _ _ _ Eb). unfold nexts. rewrite Eb. naive_solver.
Qed.

Lemma canonicalizeRange_spec l st id r :
  ranges_inv l st -> id ∉ l -> RangeData s0 !! id = Some r ->
  returns (canonicalizeRange n st (id, r)) (ranges_inv (l ++ [id])).
Proof.
  intros Hi Hl Hr. unfold canonicalizeRange.
  run_step (merge_range_spec l st id r Hi Hl); [by exists r|]. intros [r' st1] (Hres & Est & Hw & Hm). simpl in *.
  set (st2 := set_RangeData st1 _).
  assert (LinkedMonikers st2 = LinkedMonikers s0 /\ MonikerData st2 = MonikerData s0) as [El Ed].
  { unfold st2. simpl. rewrite Est. simpl. by rewrite (ri_rest _ _ Hi). }
  eapply returns_mono; [apply (union_gathered_spec n st2 id Hw); rewrite El; apply (ok_linked _ Hok)|].
  intros st' (Est' & Hw' & Hm').
  assert (NextData st' = delete id (NextData st)) as En by (rewrite Est'; unfold st2; simpl; by rewrite Est).
  assert (ResultSetData st' = ResultSetData st) as Er by (rewrite Est'; unfold st2; simpl; by rewrite Est).
  assert (RangeData st' = <[id := r']> (RangeData st)) as Ea by (rewrite Est'; unfold st2; simpl; by rewrite Est).
  assert (forall k, k ∈ l ++ [id] <-> k ∈ l \/ k = id) as Hin.
  { intros k. by rewrite elem_of_app, list_elem_of_singleton. }
  assert (~ knows (ResultSetData s0) id) as Hnot by (apply distinct; by exists r).
  split.
  - rewrite Est'. unfold st2. rewrite Est, (ri_rest _ _ Hi). reflexivity.
  - done.
  - intros k. rewrite En. destruct (decide (k = id)) as [->|Hne].
    + rewrite lookup_delete_eq, decide_True; [done|]. rewrite Hin. tauto.
    + rewrite lookup_delete_ne, (ri_next _ _ Hi) by done. apply decide_ext. rewrite Hin. tauto.
  - rewrite Er. exact (ri_resultSets _ _ Hi).
  - rewrite Er. exact (ri_resolves _ _ Hi).
  - intros k. rewrite Ea. pose proof (ri_ranges _ _ Hi k) as H. destruct (decide (k = id)) as [->|Hne].
    + rewrite Hr, lookup_insert_eq, decide_True; [done|]. rewrite Hin. tauto.
    + rewrite lookup_insert_ne by done. destruct (RangeData s0 !! k), (RangeData st !! k); try done.
      rewrite (decide_ext (k ∈ l ++ [id]) (k ∈ l)); [done|]. rewrite Hin. tauto.
  - intros k x. rewrite Hm'. change (mon st2) with (mon st1). rewrite (gathered_same s0 st2) by done.
    destruct (decide (k = id)) as [->|Hne].
    + rewrite (decide_True (P := knows (ResultSetData s0) id \/ id ∈ l ++ [id])) by (rewrite Hin; tauto).
      rewrite <- (range_monikers st st1 id x).
      * unfold closure. tauto.
      * intros y. rewrite (ri_mon _ _ Hi), decide_False; [done|tauto].
      * intros y. apply Hm.
    + rewrite Hm, (ri_mon _ _ Hi). rewrite (decide_ext (knows (ResultSetData s0) k \/ k ∈ l ++ [id])
        (knows (ResultSetData s0) k \/ k ∈ l)); [tauto|]. rewrite Hin. tauto.
Qed.

(** What the two loops leave. *)
Record chains_done (st : State) : Prop := {
  cd_rest : st = set_RangeData (set_NextData (set_ResultSetData (set_Monikers s0 (Monikers st)) (ResultSetData st))
    ∅) (RangeData st);
  cd_wf : wf_map (Monikers st);
  cd_resultSets : pointwise (fun _ _ => True) (ResultSetData s0) (ResultSetData st);
  cd_resolves id v : ResultSetData st !! id = Some v -> resolves s0 id v;
  cd_ranges id : match RangeData s0 !! id, RangeData st !! id with
                 | Some r, Some r' => range_resolves id r r'
                 | None, None => True
                 | _, _ => False
                 end;
  cd_mon id x : item s0 id -> mon st id x <-> closure s0 (chain_mon s0 id) x;
  cd_mon_other id x : ~ item s0 id -> ~ mon st id x
}.

Lemma canonicalizeRanges_spec st : resultSets_done st -> returns (canonicalizeRanges n st) chains_done.
Proof.
  intros Hd. assert (RangeData st = RangeData s0) as Er by (by rewrite (rd_rest _ Hd)).
  unfold canonicalizeRanges. rewrite Er.
  eapply returns_mono; [apply (run_fold_inv _ (fun l1 => ranges_inv l1.*1))|].
  - by apply ranges_inv_start.
  - intros l1 [id r] l2 st1 E Hi. rewrite fmap_app. apply canonicalizeRange_spec; [done| |].
    + pose proof (NoDup_map_range_keys n (RangeData s0)) as Hn. rewrite E, fmap_app in Hn.
      apply NoDup_app in Hn as (_ & Hdis & _). intros Hx. apply (Hdis id Hx). by left.
    + apply (elem_of_map_range n). rewrite E. apply elem_of_app. right. by left.
  - intros st' Hi. set (l := (map_range n (RangeData s0)).*1) in *.
    assert (forall id, id ∈ l <-> knows (RangeData s0) id) as Hl by (intros; apply elem_of_map_range_keys).
    assert (NextData st' = ∅) as En.
    { apply map_eq. intros id. rewrite lookup_empty, (ri_next _ _ Hi). destruct (decide _) as [|Hno]; [done|].
      rewrite Hl in Hno. destruct (NextData s0 !! id) as [b|] eqn:Eb; [|done].
      apply (ok_next _ Hok) in Eb as [[?|?] _]; tauto. }
    split; [|apply (ri_wf _ _ Hi)|apply (ri_resultSets _ _ Hi)|apply (ri_resolves _ _ Hi)| | |].
    + rewrite (ri_rest _ _ Hi) at 1. by rewrite En.
    + intros id. pose proof (ri_ranges _ _ Hi id) as H. destruct (RangeData s0 !! id) as [r|] eqn:Eq; [|done].
      destruct (RangeData st' !! id); [|done]. rewrite decide_True in H; [done|]. apply Hl. by exists r.
    + intros id x [Hk|Hk]; rewrite (ri_mon _ _ Hi), decide_True; [done|right; by apply Hl|done|by left].
    + intros id x Hno. rewrite (ri_mon _ _ Hi), decide_False.
      * intros Hx. apply Hno. by apply (ok_monikers _ Hok) in Hx as [? _].
      * rewrite Hl. unfold item in Hno. tauto.
Qed.
End All.
End Ranges.

(** ** Results along a chain *)

(** [along get own id z]: [z] is the first identifier along the chain of next
    edges from [id] that is set, where [own] is the one of [id]; 0 if none is. *)
Inductive along (s : State) (get : ResultSet -> Z) : Z -> Z -> Z -> Prop :=
| along_own own id : own <> 0%Z -> along s get own id own
| along_last id : NextData s !! id = None -> along s get 0 id 0
| along_next id b z : NextData s !! id = Some b ->
    along s get (get (default zeroResultSet (ResultSetData s !! b))) b z -> along s get 0 id z.

Lemma along_same s s' get own id z :
  NextData s = NextData s' -> ResultSetData s = ResultSetData s' -> along s get own id z <-> along s' get own id z.
Proof.
  intros En Er. split; induction 1 as [|? E|? ? ? E _ IH];
    [by apply along_own|apply along_last; congruence| |by apply along_own|apply along_last; congruence|];
    (eapply along_next; [rewrite <- E; congruence|]).
  - by rewrite <- Er.
  - by rewrite Er.
Qed.

Lemma resolves_along s get id v :
  (forall a b, get (merge_results a b) = or0 (get a) (get b)) ->
  resolves s id v -> along s get (get (default zeroResultSet (ResultSetData s !! id))) id (get v).
Proof.
  intros Hg. induction 1 as [id E|id b v E H IH].
  - destruct (decide (get (default zeroResultSet (ResultSetData s !! id)) = 0%Z)) as [->|?];
      [by apply along_last|by apply along_own].
  - rewrite Hg. unfold or0. destruct (Z.eqb_spec (get (default zeroResultSet (ResultSetData s !! id))) 0) as [->|?];
      [by eapply along_next|by apply along_own].
Qed.

Definition resultSet_along (s : State) (id : Z) (v v' : ResultSet) : Prop :=
  along s DefinitionResultID (DefinitionResultID v) id (DefinitionResultID v') /\
  along s ReferenceResultID (ReferenceResultID v) id (ReferenceResultID v') /\
  along s ImplementationResultID (ImplementationResultID v) id (ImplementationResultID v') /\
  along s HoverResultID (HoverResultID v) id (HoverResultID v').

Definition range_along (s : State) (id : Z) (r r' : Range) : Prop :=
  r_Data r' = r_Data r /\ r_Tag r' = r_Tag r /\
  along s DefinitionResultID (r_DefinitionResultID r) id (r_DefinitionResultID r') /\
  along s ReferenceResultID (r_ReferenceResultID r) id (r_ReferenceResultID r') /\
  along s ImplementationResultID (r_ImplementationResultID r) id (r_ImplementationResultID r') /\
  along s HoverResultID (r_HoverResultID r) id (r_HoverResultID r').

Lemma resultSet_resolves_along s id v v' :
  ResultSetData s !! id = Some v -> resolves s id v' -> resultSet_along s id v v'.
Proof.
  intros E H. pose proof (fun get Hg => resolves_along s get id v' Hg H) as Ha. rewrite E in Ha.
  split_and!; by apply Ha.
Qed.

Lemma or0_along s get own id b v :
  (forall a b, get (merge_results a b) = or0 (get a) (get b)) -> NextData s !! id = Some b -> resolves s b v ->
  along s get own id (or0 own (get v)).
Proof.
  intros Hg E H. unfold or0. destruct (Z.eqb_spec own 0) as [->|?]; [|by apply along_own].
  eapply along_next; [done|]. by apply resolves_along.
Qed.

Lemma range_resolves_along s id r r' : range_resolves s id r r' -> range_along s id r r'.
Proof.
  unfold range_resolves. destruct (NextData s !! id) as [b|] eqn:E.
  - intros (v & Hv & ->). unfold range_along. simpl. split_and!; [done|done|by eapply or0_along..].
  - intros ->. assert (forall get own, along s get own id own) as H.
    { intros get own. destruct (decide (own = 0%Z)) as [->|?]; [by apply along_last|by apply along_own]. }
    unfold range_along. split_and!; [done|done|apply H..].
Qed.

(** ** Chains keep references intact *)

Lemma or0_cases x y : or0 x y = x \/ or0 x y = y.
Proof. unfold or0. destruct (x =? 0)%Z; auto. Qed.

Lemma results_ok_or0 s d r i h d' r' i' h' :
  results_ok s d r i h -> results_ok s d' r' i' h' ->
  results_ok s (or0 d d') (or0 r r') (or0 i i') (or0 h h').
Proof.
  intros (H1 & H2 & H3 & H4) (K1 & K2 & K3 & K4).
  split_and!; [destruct (or0_cases d d') as [->| ->]|destruct (or0_cases r r') as [->| ->]|
    destruct (or0_cases i i') as [->| ->]|destruct (or0_cases h h') as [->| ->]]; done.
Qed.

Lemma resolves_ok s id v : state_ok s -> resolves s id v -> resultSet_ok s v.
Proof.
  intros Hok H. assert (forall id, resultSet_ok s (default zeroResultSet (ResultSetData s !! id))) as Hd.
  { intros k. destruct (ResultSetData s !! k) as [w|] eqn:E; [by apply (ok_resultSets _ Hok k)|].
    by split_and!. }
  induction H as [id _|id b v _ _ IH]; [apply Hd|]. by apply results_ok_or0; [apply Hd|].
Qed.

Lemma chains_done_ok s s' : state_ok s -> chains_done s s' -> state_ok s'.
Proof.
  intros Hok Hc. pose proof (cd_ranges _ _ Hc) as Hr.
  assert (extends s s') as Hext.
  { rewrite (cd_rest _ _ Hc). split; simpl; auto.
    - intros k [r E]. specialize (Hr k). rewrite E in Hr. unfold knows. by destruct (RangeData s' !! k).
    - intros k. apply (pointwise_knows _ _ _ k (cd_resultSets _ _ Hc)). }
  assert (forall k, item s k <-> item s' k) as Hitem.
  { intros k. unfold item. rewrite (pointwise_knows _ _ _ k (cd_resultSets _ _ Hc)). specialize (Hr k).
    assert (knows (RangeData s) k <-> knows (RangeData s') k) as ->; [|done]. unfold knows.
    destruct (RangeData s !! k), (RangeData s' !! k); naive_solver. }
  pose proof (cd_resolves _ _ Hc) as Hs. pose proof (cd_mon _ _ Hc) as Hm. pose proof (cd_mon_other _ _ Hc) as Ho.
  pose proof (cd_wf _ _ Hc) as Hw. rewrite (cd_rest _ _ Hc) in Hext, Hitem |- *.
  split; kept Hok Hext.
  - intros id r' E. simpl in E. specialize (Hr id). rewrite E in Hr. destruct (RangeData s !! id) as [r|] eqn:Er; [|done].
    pose proof (ok_ranges _ Hok _ _ Er) as Hor. eapply results_ok_mono; [exact Hext|].
    unfold range_resolves in Hr. destruct (NextData s !! id) as [b|]; [|by subst].
    destruct Hr as (v & Hv & ->). apply results_ok_or0; [done|]. by eapply resolves_ok.
  - intros id v E. eapply results_ok_mono; [exact Hext|]. eapply resolves_ok; [done|]. by apply (Hs id).
  - intros a b E. simpl in E. by rewrite lookup_empty in E.
  - split; [done|]. intros a x Hx. destruct (decide (knows (RangeData s) a \/ knows (ResultSetData s) a)) as [Hi|Hi].
    2: { by apply Ho in Hx. }
    split; [by apply Hitem|]. apply Hm in Hx; [|done].
    assert (forall y, chain_mon s a y -> knows (MonikerData s) y) as Hk.
    { intros y (b & _ & Hy). by apply (ok_monikers _ Hok) in Hy as [_ ?]. }
    destruct Hx as [Hx|[(m & Hx & Hlink) _]]; [by apply Hk|]. apply Hk in Hx. clear -Hx Hlink Hok. simpl.
    induction Hlink as [|y z w Hyz _ IH]; [done|]. apply IH. by apply (ok_linked _ Hok) in Hyz as [_ ?].
Qed.

(** ** The whole canonicalization *)

Section Canonical.
Context {G : GoRuntime}.

Lemma pointwise_moved_located D data data' id d x :
  pointwise (locations_moved D) data data' ->
  located data' id d x <-> exists d0, stands_for D d0 d /\ located data id d0 x.
Proof.
  intros Hp. specialize (Hp id). unfold located.
  destruct (data !! id) as [sm|], (data' !! id) as [sm'|]; [|done|done|naive_solver].
  destruct Hp as [_ Hm]. split.
  - intros (? & [= <-] & (d0 & Hs & Hx)%Hm). eauto.
  - intros (d0 & Hs & ? & [= <-] & Hx). exists sm'. split; [done|]. apply Hm. eauto.
Qed.

(** A dump whose links end: no cycle of linked reference results, no cycle of
    next edges, and no identifier of both a range and a result set. *)
Record well_founded_dump (s : State) : Prop := {
  wd_links a : ~ tc (link (LinkedReferenceResults s)) a a;
  wd_nexts a : ~ tc (nexts s) a a;
  wd_distinct id : knows (RangeData s) id -> ~ knows (ResultSetData s) id
}.

(** [s'] is the canonical form of [s]. *)
Record canonical (s s' : State) : Prop := {
  (* one document per URI, the one with the least identifier *)
  can_documents d uri : DocumentData s' !! d = Some uri <-> least (DocumentData s) uri d;
  can_contains : moved (DocumentData s) (sets (Contains s)) (sets (Contains s'));
  can_diagnostics : moved (DocumentData s) (sets (Diagnostics s)) (sets (Diagnostics s'));
  (* locations are in the canonical documents *)
  can_definitions id d x : located (DefinitionData s') id d x <->
    exists d0, stands_for (DocumentData s) d0 d /\ located (DefinitionData s) id d0 x;
  can_implementations id d x : located (ImplementationData s') id d x <->
    exists d0, stands_for (DocumentData s) d0 d /\ located (ImplementationData s) id d0 x;
  (* references include those of linked reference results *)
  can_references id d x : knows (ReferenceData s) id -> located (ReferenceData s') id d x <->
    exists id' d0, rtc (link (LinkedReferenceResults s)) id id' /\ stands_for (DocumentData s) d0 d /\
      located (ReferenceData s) id' d0 x;
  can_known id : (knows (DefinitionData s') id <-> knows (DefinitionData s) id) /\
    (knows (ReferenceData s') id <-> knows (ReferenceData s) id) /\
    (knows (ImplementationData s') id <-> knows (ImplementationData s) id);
  (* results are the nearest of the chain *)
  can_resultSets : forall id, match ResultSetData s !! id, ResultSetData s' !! id with
    | Some v, Some v' => resultSet_along s id v v' | None, None => True | _, _ => False end;
  can_ranges : forall id, match RangeData s !! id, RangeData s' !! id with
    | Some r, Some r' => range_along s id r r' | None, None => True | _, _ => False end;
  can_next : NextData s' = ∅;
  (* monikers are those of the chain, and the ones linked to them that are not local *)
  can_monikers id x : item s id -> linked_to (sets (Monikers s')) id x <->
    closure s (chain_mon s id) x;
  (* the rest of the state *)
  can_rest : LSIFVersion s' = LSIFVersion s /\ ProjectRoot s' = ProjectRoot s /\ HoverData s' = HoverData s /\
    MonikerData s' = MonikerData s /\ PackageInformationData s' = PackageInformationData s /\
    DiagnosticResults s' = DiagnosticResults s /\ LinkedMonikers s' = LinkedMonikers s /\
    ImportedMonikers s' = ImportedMonikers s /\ ExportedMonikers s' = ExportedMonikers s /\
    ImplementedMonikers s' = ImplementedMonikers s
}.

(** [canonical] depends on the parts that the first two steps leave alone. *)
Lemma chains_canonical s s1 s2 s3 :
  documents_done s s1 -> references_done s1 s2 -> chains_done s2 s3 -> canonical s s3.
Proof.
  intros Hd (Er & Kr & Hr) Hc.
  destruct (dd_rest _ _ Hd) as (de & re & im & D & co & di & E1).
  pose proof (cd_rest _ _ Hc) as E3.
  assert (NextData s2 = NextData s) as En by (by rewrite Er, E1).
  assert (ResultSetData s2 = ResultSetData s /\ RangeData s2 = RangeData s) as (Ers & Era) by (by rewrite Er, E1).
  pose proof (fun get own id z => along_same s2 s get own id z En Ers) as Ha.
  assert (forall id x, closure s2 (chain_mon s2 id) x <-> closure s (chain_mon s id) x) as Hm.
  { intros id x. unfold closure, gathered, chain_mon, mon. rewrite Er, E1. done. }
  assert (ReferenceData s3 = ReferenceData s2) as Ere by (by rewrite E3).
  split.
  - intros d uri. rewrite <- (dd_documents _ _ Hd), E3, Er. done.
  - rewrite E3, Er. exact (dd_contains _ _ Hd).
  - rewrite E3, Er. exact (dd_diagnostics _ _ Hd).
  - intros id d x. rewrite E3, Er. simpl. exact (pointwise_moved_located _ _ _ _ _ _ (dd_definitions _ _ Hd)).
  - intros id d x. rewrite E3, Er. simpl. exact (pointwise_moved_located _ _ _ _ _ _ (dd_implementations _ _ Hd)).
  - intros id d x Hk. apply (pointwise_knows _ _ _ id (dd_references _ _ Hd)) in Hk. rewrite Ere.
    rewrite (Hr id d x Hk). assert (LinkedReferenceResults s1 = LinkedReferenceResults s) as -> by (by rewrite E1).
    unfold reachable_location. setoid_rewrite (fun i a b => pointwise_moved_located _ _ _ i a b (dd_references _ _ Hd)).
    naive_solver.
  - intros id. rewrite Ere, Kr, E3, Er. simpl. split_and!; symmetry;
      [exact (pointwise_knows _ _ _ id (dd_definitions _ _ Hd))|exact (pointwise_knows _ _ _ id (dd_references _ _ Hd))|
       exact (pointwise_knows _ _ _ id (dd_implementations _ _ Hd))].
  - intros id. pose proof (cd_resultSets _ _ Hc id) as H. rewrite Ers in H.
    destruct (ResultSetData s !! id) as [v|] eqn:Ev, (ResultSetData s3 !! id) as [v'|] eqn:Ev'; try done.
    pose proof (cd_resolves _ _ Hc id v' Ev') as Hres. rewrite <- Ers in Ev.
    pose proof (resultSet_resolves_along s2 id v v' Ev Hres) as Hal. unfold resultSet_along in *. by rewrite !Ha in Hal.
  - intros id. pose proof (cd_ranges _ _ Hc id) as H. rewrite Era in H.
    destruct (RangeData s !! id) as [r|], (RangeData s3 !! id) as [r'|]; try done.
    apply range_resolves_along in H. unfold range_along in *. by rewrite !Ha in H.
  - by rewrite E3.
  - intros id x Hi. rewrite <- Hm. apply (cd_mon _ _ Hc). unfold item. by rewrite Ers, Era.
  - rewrite E3, Er, E1. done.
Qed.

Lemma canonicalize_spec n s :
  state_ok s -> well_founded_dump s ->
  returns (canonicalize n s) (fun s' => state_ok s' /\ canonical s s').
Proof.
  intros Hok [Hl Hn Hd]. unfold canonicalize. cbn [run_fold].
  run_step (canonicalizeDocuments_spec n s Hok). intros s1 [Hok1 Hd1].
  destruct (dd_rest _ _ Hd1) as (de & re & im & D & co & di & E1).
  run_step (canonicalizeReferenceResults_spec n s1 Hok1); [by rewrite E1|]. intros s2 (Hok2 & Hr2).
  assert (s2 = set_ReferenceData s1 (ReferenceData s2)) as Er by apply Hr2.
  run_step (canonicalizeResultSets_spec n s2 Hok2); [by rewrite Er, E1|]. intros s3 Hs3.
  run_step (canonicalizeRanges_spec n s2 Hok2); [by rewrite Er, E1|done|]. intros s4 Hs4.
  apply returns_done. split; [by eapply chains_done_ok|by eapply chains_canonical].
Qed.
End Canonical.
