(* ===== verification/CorrelateCorrect.v ===== *)
(** The conversion of an LSIF dump up to grouping: what correlation,
    canonicalization and pruning guarantee. *)
From stdpp Require Import relations.
From S2P Require Import Prelude GoStr GoLib GoMap IdSets IdSetFacts Lsif LsifFacts Canonicalize.
From S2P Require Import FilePath PathExistence PathContents PathCorrect.
From S2P Require Import CanonDocuments CanonChains CanonCorrect.

Section Pruning.
Context {G : GoRuntime}.

Lemma prune_ranges_spec n (D : gmap Z gostring) sm : wf_map sm ->
  returns (prune_ranges n D sm) (fun sm' => wf_map sm' /\
    forall d x, linked_to (sets sm') d x <-> knows D d /\ linked_to (sets sm) d x).
Proof.
  intros Hw. unfold prune_ranges. destruct (map_Each_spec n sm Hw) as (l & -> & Hl). cbn [run_bind].
  eapply returns_mono; [apply (run_fold_inv _ (fun l1 sm' => wf_map sm' /\
    forall d x, linked_to (sets sm') d x <-> linked_to (sets sm) d x /\ (d ∈ l1.*1 -> knows D d)))|].
  - split; [done|]. intros d x. split; [|tauto]. intros ?. split; [done|]. by intros ?%not_elem_of_nil.
  - intros l1 [k v] l2 sm1 E [Hw1 H1]. cbn [fst]. rewrite fmap_app. cbn.
    assert (forall d, d ∈ l1.*1 ++ [k] <-> d ∈ l1.*1 \/ d = k) as Hin.
    { intros d. by rewrite elem_of_app, list_elem_of_singleton. }
    destruct (has D k) eqn:Eh.
    + apply has_knows in Eh. apply returns_done. split; [done|]. intros d x. rewrite H1, Hin. naive_solver.
    + assert (~ knows D k) as Hk by (intros Hk%has_knows; congruence).
      destruct (Delete_spec n sm1 k Hw1) as (sm2 & -> & Hw2 & E2). apply returns_done. split; [done|].
      intros d x. rewrite E2, linked_to_delete, H1, Hin. destruct (decide (d = k)) as [->|]; naive_solver.
  - intros sm' [Hw' H']. split; [done|]. intros d x. rewrite H'. split; [|tauto]. intros [Hx Hd]. split; [|done].
    apply Hd. rewrite Hl. unfold linked_to, sets in Hx. rewrite lookup_fmap in Hx.
    destruct (contents sm !! d) as [v|] eqn:E; [|set_solver]. apply list_elem_of_fmap. exists (d, v).
    split; [done|]. by apply elem_of_map_to_list.
Qed.

(** The entries of [data] without the locations in documents that are gone. *)
Definition kept_in (D : gmap Z gostring) (data data' : gmap Z DefaultIDSetMap) : Prop :=
  (forall id sm, data' !! id = Some sm -> wf_map sm) /\
  (forall id, knows data' id <-> knows data id) /\
  forall id d x, located data' id d x <-> knows D d /\ located data id d x.

Lemma prune_data_spec n s (D : gmap Z gostring) data :
  (forall id sm, data !! id = Some sm -> locations_ok s sm) ->
  returns (pruneFromDefinitionReferences n D data) (kept_in D data).
Proof.
  intros H. eapply returns_mono; [apply (update_entries_spec _ (fun sm sm' => wf_map sm' /\
    forall d x, linked_to (sets sm') d x <-> knows D d /\ linked_to (sets sm) d x))|].
  - intros k sm [Hw _]%H. by apply prune_ranges_spec.
  - intros data' Hp. split_and!; [|intros id; symmetry; by eapply pointwise_knows|].
    { intros id sm' E. specialize (Hp id). rewrite E in Hp. by destruct (data !! id) as [sm|]; [destruct Hp|]. }
    intros id d x.
    specialize (Hp id). unfold located. destruct (data !! id) as [sm|], (data' !! id) as [sm'|]; naive_solver.
Qed.

Lemma prune_documents (checker : gostring -> bool) (l : list (Z * gostring)) (D : gmap Z gostring) d :
  fold_left (fun documents entry => if negb (checker entry.2) then delete entry.1 documents else documents) l D !! d =
  if existsb (fun entry => (entry.1 =? d)%Z && negb (checker entry.2)) l then None else D !! d.
Proof.
  revert D. induction l as [|[k uri] l IH]; intros D; simpl; [done|]. rewrite IH.
  destruct (existsb _ l); [by rewrite orb_true_r|]. rewrite orb_false_r.
  destruct (checker uri); simpl; [by rewrite andb_false_r|]. rewrite andb_true_r.
  destruct (Z.eqb_spec k d) as [->|Hne]; [by rewrite lookup_delete_eq|by rewrite lookup_delete_ne].
Qed.

Lemma prune_documents_spec n checker (D : gmap Z gostring) d uri :
  fold_left (fun documents entry => if negb (checker entry.2) then delete entry.1 documents else documents)
    (map_range n D) D !! d = Some uri <-> D !! d = Some uri /\ checker uri = true.
Proof.
  rewrite prune_documents. destruct (existsb _ _) eqn:E.
  - apply existsb_exists in E as ([k v] & Hin%list_elem_of_In & [Hk Hv]%andb_true_iff).
    apply Z.eqb_eq in Hk. simpl in *. subst k.
    apply elem_of_map_range in Hin. rewrite Hin. split; [done|]. intros [[= ->] Hc]. by rewrite Hc in Hv.
  - split; [|tauto]. intros Hd. split; [done|]. destruct (checker uri) eqn:Ec; [done|].
    assert (existsb (fun entry : Z * gostring => (entry.1 =? d)%Z && negb (checker entry.2)) (map_range n D) = true); [|congruence].
    apply existsb_exists. exists (d, uri). split; [by apply list_elem_of_In, elem_of_map_range|].
    simpl. by rewrite Z.eqb_refl, Ec.
Qed.

(** What pruning keeps: the documents that exist, and the locations in them. *)
Record pruned (checker : gostring -> bool) (s s' : State) : Prop := {
  pr_documents d uri : DocumentData s' !! d = Some uri <-> DocumentData s !! d = Some uri /\ checker uri = true;
  pr_definitions : kept_in (DocumentData s') (DefinitionData s) (DefinitionData s');
  pr_references : kept_in (DocumentData s') (ReferenceData s) (ReferenceData s');
  pr_implementations : kept_in (DocumentData s') (ImplementationData s) (ImplementationData s');
  pr_rest : exists D de re im, s' = with_results (set_DocumentData s D) de re im
}.

Lemma prune_spec n s root getChildren r :
  state_ok s -> NewExistenceChecker n root (map_range n (DocumentData s)).*2 getChildren = Done r ->
  match r with
  | Err err => prune n s root getChildren = Done (Err err)
  | Ok ec => exists s', prune n s root getChildren = Done (Ok s') /\ pruned (path_Exists ec) s s'
  end.
Proof.
  intros Hok E. unfold prune. cbv zeta. rewrite E. unfold try_bind. cbn [run_bind].
  destruct r as [ec|err]; [|done].
  pose proof (prune_documents_spec n (path_Exists ec) (DocumentData s)) as HD. set (D := fold_left _ _ _) in *. simpl.
  destruct (prune_data_spec n s D (DefinitionData s) (ok_definitions _ Hok)) as (de & -> & Hde). simpl.
  destruct (prune_data_spec n s D (ReferenceData s) (ok_references _ Hok)) as (re & -> & Hre). simpl.
  destruct (prune_data_spec n s D (ImplementationData s) (ok_implementations _ Hok)) as (im & -> & Him). simpl.
  eexists. split; [done|]. split; simpl; [exact HD|done|done|done|]. by exists D, de, re, im.
Qed.
End Pruning.

(** ** Where locations come from *)
Section Locations.
Context {U : UnicodeTables} (named : Z -> Z -> Z -> Prop).

(** Every location of a result was named. *)
Definition all_named (s : State) : Prop := forall id d x,
  located (DefinitionData s) id d x \/ located (ReferenceData s) id d x \/ located (ImplementationData s) id d x -> named id d x.

Definition keeps_named (m : run (result lerror wrappedState)) : Prop := forall w', m = Done (Ok w') -> all_named (st w').

Lemma located_insert data k sm id d x : located (<[k := sm]> data) id d x ->
  k = id /\ linked_to (sets sm) d x \/ located data id d x.
Proof. intros (sm' & [[-> ->]|[_ E]]%lookup_insert_Some & H); [by left|]. right. by exists sm'. Qed.

Lemma linked_new d x : ~ linked_to (sets SetMap.NewDefaultIDSetMap) d x.
Proof. unfold linked_to, sets, contents. simpl. rewrite fmap_empty, lookup_empty. set_solver. Qed.

(** The results of [s'] are those of [s]. *)
Lemma all_named_same s s' : DefinitionData s' = DefinitionData s -> ReferenceData s' = ReferenceData s ->
  ImplementationData s' = ImplementationData s -> all_named s -> all_named s'.
Proof. unfold all_named. by intros -> -> ->. Qed.

Lemma named_ret w : all_named (st w) -> keeps_named (ret w).
Proof. intros H w' [= <-]. done. Qed.
Lemma named_fail err : keeps_named (fail err).
Proof. done. Qed.
Lemma named_bind {A} (m : run A) k : (forall a, m = Done a -> keeps_named (k a)) -> keeps_named (run_bind m k).
Proof. intros H w'. destruct m as [a| |]; [|done..]. by apply H. Qed.

Ltac same H := first [by apply named_fail|apply named_ret; eapply all_named_same; [..|exact H]; reflexivity].

Lemma vertexHandlers_named label h w e : assoc label vertexHandlers = Some h -> all_named (st w) -> keeps_named (h w e).
Proof.
  intros Hh%assoc_elem_of Hn. unfold vertexHandlers in Hh. rewrite !elem_of_cons in Hh.
  repeat match goal with H : _ \/ _ |- _ => destruct H as [[= -> ->]|H] end; [..|by apply not_elem_of_nil in Hh].
  5, 6, 7: apply named_ret; intros id d x [H|[H|H]]; simpl in H; try (apply Hn; by auto);
    apply located_insert in H as [[_ H]|H]; [by apply linked_new in H|apply Hn; by auto].
  all: unfold correlateMetaData, correlateDocument, correlateRange, correlateResultSet, correlateHoverResult, correlateMoniker,
    correlatePackageInformation, correlateDiagnosticResult; repeat case_match; same Hn.
Qed.

Lemma contains_loop_named id edge inVs w : all_named (st w) -> keeps_named (contains_loop id edge inVs w).
Proof.
  revert w. induction inVs as [|x inVs IH]; intros w Hn; simpl; [by apply named_ret|].
  destruct (negb _); [apply named_fail|]. destruct (match rangeToDoc w !! x with Some _ => _ | None => _ end); [apply named_fail|].
  apply named_bind. intros sm _. apply IH. by eapply all_named_same; [..|exact Hn].
Qed.

Lemma link_range_named w id x d : all_named (st w) -> keeps_named (link_range w id x d).
Proof. intros Hn. unfold link_range. repeat case_match; same Hn. Qed.

Lemma named_try w id x d k : (forall w', st w' = st w -> keeps_named (k w')) -> keeps_named (try_bind (link_range w id x d) k).
Proof.
  intros Hk w'. unfold try_bind, link_range. destruct (rangeToDoc w !! x); [destruct (negb _); [done|]|]; simpl; by apply Hk.
Qed.

Definition edge_named (edge : Edge) : Prop := forall x, x ∈ InVs edge -> named (OutV edge) (Document edge) x.

(** One location more. *)
Lemma add_named sm d x sm' id : wf_map sm -> (forall d' y, linked_to (sets sm) d' y -> named id d' y) -> named id d x ->
  SetMap.AddID sm d x = Done sm' -> wf_map sm' /\ forall d' y, linked_to (sets sm') d' y -> named id d' y.
Proof.
  intros Hw Hsm Hx E. destruct (AddID_spec sm d x Hw) as (sm1 & E1 & Hw1 & Hs). rewrite E in E1. injection E1 as <-. split; [done|].
  intros d' y. rewrite Hs, linked_to_add, elem_of_singleton. intros [?|[-> ->]]; auto.
Qed.

Lemma item_definitions_named id edge inVs sm w : (forall x, x ∈ inVs -> named (OutV edge) (Document edge) x) -> wf_map sm ->
  (forall d y, linked_to (sets sm) d y -> named (OutV edge) d y) -> all_named (st w) -> keeps_named (item_definitions id edge inVs sm w).
Proof.
  revert sm w. induction inVs as [|x inVs IH]; intros sm w He Hw Hsm Hn; simpl; [by apply named_ret|].
  destruct (negb _); [apply named_fail|]. apply named_bind. intros sm' E.
  destruct (add_named _ _ _ _ (OutV edge) Hw Hsm (He x (list_elem_of_here _ _)) E) as [Hw' Hsm'].
  apply named_try. intros w' Ew. apply IH; [intros y Hy; apply He; by right|done|done|]. rewrite Ew.
  intros i d y [H|[H|H]]; simpl in H; try (apply Hn; by auto). apply located_insert in H as [[<- H]|H]; [by apply Hsm'|apply Hn; by auto].
Qed.

Lemma item_references_named id edge inVs sm w : (forall x, x ∈ inVs -> named (OutV edge) (Document edge) x) -> wf_map sm ->
  (forall d y, linked_to (sets sm) d y -> named (OutV edge) d y) -> all_named (st w) -> keeps_named (item_references id edge inVs sm w).
Proof.
  revert sm w. induction inVs as [|x inVs IH]; intros sm w He Hw Hsm Hn; simpl; [by apply named_ret|].
  assert (forall y, y ∈ inVs -> named (OutV edge) (Document edge) y) as He' by (intros y Hy; apply He; by right).
  destruct (has _ x); [apply IH; [done..|]; by eapply all_named_same; [..|exact Hn]|].
  destruct (negb _); [apply named_fail|]. apply named_bind. intros sm' E.
  destruct (add_named _ _ _ _ (OutV edge) Hw Hsm (He x (list_elem_of_here _ _)) E) as [Hw' Hsm'].
  apply named_try. intros w' Ew. apply IH; [done..|]. rewrite Ew.
  intros i d y [H|[H|H]]; simpl in H; try (apply Hn; by auto). apply located_insert in H as [[<- H]|H]; [by apply Hsm'|apply Hn; by auto].
Qed.

Lemma item_implementations_named id edge inVs sm w : (forall x, x ∈ inVs -> named (OutV edge) (Document edge) x) -> wf_map sm ->
  (forall d y, linked_to (sets sm) d y -> named (OutV edge) d y) -> all_named (st w) -> keeps_named (item_implementations id edge inVs sm w).
Proof.
  revert sm w. induction inVs as [|x inVs IH]; intros sm w He Hw Hsm Hn; simpl; [by apply named_ret|].
  destruct (negb _); [apply named_fail|]. apply named_bind. intros sm' E.
  destruct (add_named _ _ _ _ (OutV edge) Hw Hsm (He x (list_elem_of_here _ _)) E) as [Hw' Hsm'].
  apply IH; [intros y Hy; apply He; by right|done|done|].
  intros i d y [H|[H|H]]; simpl in H; try (apply Hn; by auto). apply located_insert in H as [[<- H]|H]; [by apply Hsm'|apply Hn; by auto].
Qed.

Lemma correlateItemEdge_named w id edge : state_ok (st w) -> (Document edge <> 0%Z -> edge_named edge) -> all_named (st w) ->
  keeps_named (correlateItemEdge w id edge).
Proof.
  intros Hok He Hn. unfold correlateItemEdge. destruct (Z.eqb_spec (Document edge) 0) as [|Hd]; [apply named_fail|]. specialize (He Hd).
  destruct (DefinitionData (st w) !! OutV edge) as [sm|] eqn:E1.
  { apply item_definitions_named; [done|apply (ok_definitions _ Hok _ _ E1)| |done]. intros d y H. apply Hn. left. by exists sm. }
  destruct (ReferenceData (st w) !! OutV edge) as [sm|] eqn:E2.
  { apply item_references_named; [done|apply (ok_references _ Hok _ _ E2)| |done]. intros d y H. apply Hn. right; left. by exists sm. }
  destruct (ImplementationData (st w) !! OutV edge) as [sm|] eqn:E3.
  { apply item_implementations_named; [done|apply (ok_implementations _ Hok _ _ E3)| |done]. intros d y H. apply Hn. right; right. by exists sm. }
  case_match; same Hn.
Qed.

Lemma edgeHandlers_named label h w id edge : assoc label edgeHandlers = Some h -> state_ok (st w) ->
  (label = str "item" -> Document edge <> 0%Z -> edge_named edge) -> all_named (st w) -> keeps_named (h w id edge).
Proof.
  intros Hh%assoc_elem_of Hok He Hn. unfold edgeHandlers in Hh. rewrite !elem_of_cons in Hh.
  repeat match goal with H : _ \/ _ |- _ => destruct H as [[= -> ->]|H] end; [..|by apply not_elem_of_nil in Hh].
  3: { apply correlateItemEdge_named; [done| |done]. by apply He. }
  1: { unfold correlateContainsEdge. case_match; [same Hn|]. by apply contains_loop_named. }
  all: unfold correlateNextEdge, correlateTextDocumentDefinitionEdge, correlateTextDocumentReferencesEdge,
    correlateTextDocumentImplementationEdge, correlateTextDocumentHoverEdge, correlateMonikerEdge, correlateNextMonikerEdge,
    correlatePackageInformationEdge, correlateDiagnosticEdge, set_result; cbv zeta; repeat case_match;
    try (apply named_bind; intros ? _); same Hn.
Qed.
End Locations.

(** An item edge of the dump that names the document [d], not zero, for the range
    [x] of the result [id]. *)
Definition item_edge (pairs : list (result lerror reader_Element)) (id d x : Z) : Prop :=
  exists e edge, Ok e ∈ pairs /\ Label (translate e) = str "item" /\ el_Payload (translate e) = PEdge edge /\
    OutV edge = id /\ Document edge = d /\ d <> 0%Z /\ x ∈ InVs edge.

Lemma correlate_loop_named {U : UnicodeTables} pairs pairs' i w : (forall p, p ∈ pairs' -> p ∈ pairs) -> w_ok w ->
  all_named (item_edge pairs) (st w) -> keeps_named (item_edge pairs) (correlate_loop i (Read pairs') w).
Proof.
  intros Hsub. revert i w. induction pairs' as [|p pairs' IH]; intros i w Hw Hn; simpl; [by apply named_ret|].
  destruct p as [e|err]; [|apply named_fail].
  destruct (correlateElement_ok w (translate e) Hw (translatePayload_ok _)) as (r & E & Hr). rewrite E. simpl.
  destruct r as [w'|err]; [|apply named_fail]. apply IH; [intros p Hp; apply Hsub; by right|done|].
  revert E. apply (fun H : keeps_named (item_edge pairs) (correlateElement w (translate e)) => H w').
  unfold correlateElement. destruct (gs_eqb _ _).
  - unfold correlateVertex. destruct (assoc _ _) as [h|] eqn:Eh; [by eapply vertexHandlers_named|by apply named_ret].
  - destruct (gs_eqb _ _); [|apply named_fail]. unfold correlateEdge. destruct (el_Payload (translate e)) eqn:Ep; try by apply named_ret.
    rename select Edge into edge.
    destruct (assoc _ _) as [h|] eqn:Eh; [|by apply named_ret]. eapply edgeHandlers_named; [exact Eh|apply Hw| |done].
    intros El Hd x Hx. exists e, edge. split_and!; try done. apply Hsub. by left.
Qed.

Section Properties.
Context {G : GoRuntime} {U : UnicodeTables}.

(** C36: correlation returns for every sequence of elements, and when it succeeds
    there was metadata and these references of the state are intact: ranges and
    result sets name known results, results hold known ranges, next edges lead from
    ranges and result sets to result sets, links join known reference results,
    monikers are attached to known ranges and result sets, linked to known monikers
    and name known packages, and documents that contain ranges or have diagnostics
    are known.  Of the document of a location in a result nothing is checked but
    that it is not zero: it is the one that an item edge of the dump names for that
    range and result, and it may be missing ([ex_unknown_document]). *)
Theorem correlateFromReader_ok root pairs :
  exists r, correlateFromReader root pairs = Done r /\
  match r with
  | Ok s => state_ok s /\ LSIFVersion s <> [] /\ all_named (item_edge pairs) s
  | Err _ => True
  end.
Proof.
  destruct (correlateFromReader_spec root pairs) as (r & E & Hr). exists r. split; [done|]. destruct r as [s|err]; [|done].
  destruct Hr as [Hok Hv]. split_and!; [done..|]. unfold correlateFromReader, try_bind in E.
  destruct (correlate_loop 0 (Read pairs) (newWrappedState root)) as [[w|]| |] eqn:El; try done. simpl in E.
  destruct (gs_eqb _ _); [done|]. injection E as <-.
  apply (correlate_loop_named pairs pairs 0 (newWrappedState root)); [done| | |done].
  - split; [apply newState_ok|apply wf_new].
  - intros id d x [H|[H|H]]; destruct H as (sm & H & _); simpl in H; by apply lookup_empty_Some in H.
Qed.

(** Canonicalizing documents leaves one document per URI, the one with the
    least identifier, and what the other documents held (ranges, diagnostics,
    locations of results) is at the document that stands for them. *)
Theorem canonicalizeDocuments_correct n s :
  state_ok s ->
  exists s', canonicalizeDocuments n s = Done s' /\ state_ok s' /\
  (forall d uri, DocumentData s' !! d = Some uri <-> least (DocumentData s) uri d) /\
  (forall c x, linked_to (sets (Contains s')) c x <->
    exists d, stands_for (DocumentData s) d c /\ linked_to (sets (Contains s)) d x) /\
  (forall c x, linked_to (sets (Diagnostics s')) c x <->
    exists d, stands_for (DocumentData s) d c /\ linked_to (sets (Diagnostics s)) d x) /\
  forall data, data = DefinitionData \/ data = ReferenceData \/ data = ImplementationData ->
  forall id c x, located (data s') id c x <->
    exists d, stands_for (DocumentData s) d c /\ located (data s) id d x.
Proof.
  intros Hok. destruct (canonicalizeDocuments_spec n s Hok) as (s' & -> & Hok' & Hd).
  exists s'. split_and!; [done|done|apply (dd_documents _ _ Hd)|apply (dd_contains _ _ Hd)|
    apply (dd_diagnostics _ _ Hd)|].
  intros data [->|[->| ->]] id c x; apply pointwise_moved_located, Hd.
Qed.

(** When the links between reference results have no cycle, canonicalizing
    them gives every reference result the locations of all reference results
    that it is linked to, directly or not, and changes nothing else. *)
Theorem canonicalizeReferenceResults_correct n s :
  state_ok s -> (forall a, ~ tc (link (LinkedReferenceResults s)) a a) ->
  exists data, canonicalizeReferenceResults n s = Done (set_ReferenceData s data) /\
  state_ok (set_ReferenceData s data) /\
  (forall id, knows data id <-> knows (ReferenceData s) id) /\
  forall id d x, knows (ReferenceData s) id -> located data id d x <->
    exists id', rtc (link (LinkedReferenceResults s)) id id' /\ located (ReferenceData s) id' d x.
Proof.
  intros Hok Hac. destruct (canonicalizeReferenceResults_spec n s Hok Hac) as (s' & -> & Hok' & E & Hk & Hl).
  exists (ReferenceData s'). rewrite <- E. split_and!; [done|done|done|]. exact Hl.
Qed.

(** C35: canonicalization of a dump whose links end terminates in the canonical
    form of the dump: one document per URI, references closed under links, and
    every range and result set with the nearest results of its chain of next
    edges and the monikers of the chain and those linked to them; references
    stay intact and no next edge is left. *)
Theorem canonicalize_correct n s :
  state_ok s -> well_founded_dump s ->
  exists s', canonicalize n s = Done s' /\ state_ok s' /\ canonical s s'.
Proof. intros Hok Hw. exact (canonicalize_spec n s Hok Hw). Qed.

Lemma correlateState_spec n root pairs :
  exists r, correlateFromReader root pairs = Done r /\
  match r with
  | Err err => forall getChildren, correlateState n root pairs getChildren = Done (Err err)
  | Ok s => well_founded_dump s ->
      exists s1, state_ok s1 /\ canonical s s1 /\
      let paths := (map_range n (DocumentData s1)).*2 in
      correlateState n root pairs None = Done (Ok s1) /\
      (forall getChildren err, NewExistenceChecker n root paths getChildren = Done (Err err) ->
        correlateState n root pairs (Some getChildren) = Done (Err err)) /\
      (forall getChildren A, answers getChildren A -> closed_listing A ->
        (forall p, p ∈ paths -> HasPrefix (Path_Join [root; p]) (str "/") = false) ->
        exists s2 ec, correlateState n root pairs (Some getChildren) = Done (Ok s2) /\ pruned (path_Exists ec) s1 s2 /\
        forall d uri, DocumentData s2 !! d = Some uri <-> DocumentData s1 !! d = Some uri /\
          HasPrefix (dirWithoutDot (Path_Join [root; uri])) (str "..") = false /\
          Path_Join [root; uri] ∈ A (dirWithoutDot (Path_Join [root; uri])))
  end.
Proof.
  destruct (correlateFromReader_spec root pairs) as (r & E & Hr). exists r. split; [done|].
  destruct r as [s|err]; [|intros g; unfold correlateState; by rewrite E]. intros Hw. destruct Hr as [Hok _].
  destruct (canonicalize_spec n s Hok Hw) as (s1 & E1 & Hok1 & Hc). exists s1.
  unfold correlateState. rewrite E. unfold try_bind. simpl. rewrite E1. simpl. split_and!; [done..| |].
  - intros getChildren err En. exact (prune_spec n s1 root getChildren (Err err) Hok1 En).
  - intros getChildren A HA Hcl Hrel.
    destruct (NewExistenceChecker_spec getChildren A HA Hcl n root _ Hrel) as (r & En & ec & -> & Hec).
    destruct (prune_spec n s1 root getChildren (Ok ec) Hok1 En) as (s2 & -> & Hp).
    exists s2, ec. split_and!; [done|done|]. intros d uri. rewrite (pr_documents _ _ _ Hp).
    split; intros [Hd Hx]; (split; [done|]); apply Hec; try done;
      apply list_elem_of_fmap; exists (d, uri); (split; [done|]); by apply elem_of_map_range.
Qed.

(** The conversion up to grouping: it returns an error when correlation
    fails or the children of a directory cannot be listed, and otherwise, for a
    dump whose links end, the canonical state, without the documents that are not
    in the git tree and the locations in them when children are listed. *)
Theorem Correlate_correct n root pairs :
  exists r, correlateFromReader root pairs = Done r /\
  match r with
  | Err err => forall getChildren, correlateState n root pairs getChildren = Done (Err err)
  | Ok s => well_founded_dump s ->
      exists s1, state_ok s1 /\ canonical s s1 /\
      let paths := (map_range n (DocumentData s1)).*2 in
      correlateState n root pairs None = Done (Ok s1) /\
      (forall getChildren err, NewExistenceChecker n root paths getChildren = Done (Err err) ->
        correlateState n root pairs (Some getChildren) = Done (Err err)) /\
      (forall getChildren A, answers getChildren A -> closed_listing A ->
        (forall p, p ∈ paths -> HasPrefix (Path_Join [root; p]) (str "/") = false) ->
        exists s2 ec, correlateState n root pairs (Some getChildren) = Done (Ok s2) /\ pruned (path_Exists ec) s1 s2 /\
        forall d uri, DocumentData s2 !! d = Some uri <-> DocumentData s1 !! d = Some uri /\
          HasPrefix (dirWithoutDot (Path_Join [root; uri])) (str "..") = false /\
          Path_Join [root; uri] ∈ A (dirWithoutDot (Path_Join [root; uri])))
  end.
Proof. exact (correlateState_spec n root pairs). Qed.
End Properties.

(** ** A dump

    Two documents with one URI, a range in each, a chain of two result sets, two
    linked reference results and two linked monikers. *)
Section Witness.
#[local] Instance runtime : GoRuntime := plain_runtime.
#[local] Instance tables : UnicodeTables := plain_tables.

Definition w_vertex (id : Z) (label : String.string) (payload : reader_Payload) : result lerror reader_Element :=
  Ok (MkReaderElement id (str "vertex") (str label) payload).
Definition w_edge (label : String.string) (edge : Edge) : result lerror reader_Element :=
  Ok (MkReaderElement 99 (str "edge") (str label) (REdge edge)).
Definition w_one (out in_ : Z) : Edge := MkEdge out in_ [] 0.
Definition w_range : reader_Range := MkReaderRange (MkRangeData (MkPos 1 2) (MkPos 1 5)) None.
Definition w_moniker (kind : String.string) : reader_Moniker := MkReaderMoniker (str kind) (str "go") (str "pkg:F").

Definition w_metaData : MetaData :=
  MkMetaData (str "0.4.3") (str "file:///r") (str "utf-8") (MkToolInfo (str "lsif-go") (str "v1")).

Definition w_vertices : list (result lerror reader_Element) :=
  [w_vertex 1 "metaData" (RMetaData w_metaData);
   w_vertex 10 "document" (RString (str "file:///r/a.go")); w_vertex 11 "document" (RString (str "file:///r/a.go"));
   w_vertex 20 "range" (RRange w_range); w_vertex 21 "range" (RRange w_range);
   w_vertex 30 "resultSet" RResultSet; w_vertex 31 "resultSet" RResultSet;
   w_vertex 40 "definitionResult" ROther; w_vertex 41 "hoverResult" (RString (str "docs"));
   w_vertex 50 "referenceResult" ROther; w_vertex 51 "referenceResult" ROther;
   w_vertex 60 "moniker" (RMoniker (w_moniker "import")); w_vertex 61 "moniker" (RMoniker (w_moniker "export"))].

Definition w_dump : list (result lerror reader_Element) :=
  w_vertices ++
  [w_edge "contains" (MkEdge 10 0 [20%Z] 0); w_edge "contains" (MkEdge 11 0 [21%Z] 0);
   w_edge "next" (w_one 20 30); w_edge "next" (w_one 30 31);
   w_edge "item" (MkEdge 40 0 [20%Z] 10); w_edge "item" (MkEdge 51 0 [21%Z] 11);
   w_edge "item" (MkEdge 50 0 [51%Z] 10);
   w_edge "textDocument/definition" (w_one 31 40); w_edge "textDocument/references" (w_one 30 50);
   w_edge "textDocument/hover" (w_one 31 41);
   w_edge "moniker" (w_one 31 60); w_edge "nextMoniker" (w_one 60 61)].

Definition correlated (pairs : list (result lerror reader_Element)) : State :=
  match correlateFromReader [] pairs with Done (Ok s) => s | _ => newState end.

Definition w_state : State := correlated w_dump.

Lemma w_correlates : correlateFromReader [] w_dump = Done (Ok w_state).
Proof. vm_compute. reflexivity. Qed.

(** An item edge may name a document that is not there. *)
Example ex_unknown_document :
  let s := correlated (w_vertices ++ [w_edge "item" (MkEdge 40 0 [20%Z] 77)]) in
  correlateFromReader [] (w_vertices ++ [w_edge "item" (MkEdge 40 0 [20%Z] 77)]) = Done (Ok s) /\
  located (DefinitionData s) 40 77 20 /\ DocumentData s !! 77%Z = None.
Proof.
  cbv zeta. split_and!; [vm_compute; reflexivity| |vm_compute; reflexivity].
  eexists. split; [vm_compute; reflexivity|]. unfold linked_to. apply (bool_decide_unpack _). vm_compute. done.
Qed.

Lemma w_state_ok : state_ok w_state.
Proof.
  destruct (correlateFromReader_spec [] w_dump) as (r & E & Hr). rewrite w_correlates in E.
  injection E as <-. apply Hr.
Qed.

Lemma increasing_acyclic (R : Z -> Z -> Prop) : (forall a b, R a b -> (a < b)%Z) -> forall a, ~ tc R a a.
Proof.
  intros H a Ha. assert (forall a b, tc R a b -> (a < b)%Z) as Ht.
  { clear -H. induction 1 as [a b Hab|a b c Hab _ IH]; specialize (H _ _ Hab); lia. }
  specialize (Ht _ _ Ha). lia.
Qed.

Definition increasing (s : State) : bool :=
  forallb (fun e => forallb (fun b => (e.1 <? b)%Z) e.2) (map_to_list (LinkedReferenceResults s)) &&
  forallb (fun e => (e.1 <? e.2)%Z) (map_to_list (NextData s)) &&
  forallb (fun e => negb (has (ResultSetData s) e.1)) (map_to_list (RangeData s)).

Lemma increasing_well_founded s : increasing s = true -> well_founded_dump s.
Proof.
  unfold increasing. rewrite !andb_true_iff, !forallb_forall. intros [[H1 H2] H3]. split.
  - apply increasing_acyclic. intros a b (l & Hl & Hb). apply elem_of_map_to_list, list_elem_of_In in Hl.
    specialize (H1 _ Hl). rewrite forallb_forall in H1. apply list_elem_of_In in Hb. by apply Z.ltb_lt, H1.
  - apply increasing_acyclic. intros a b Hab. apply elem_of_map_to_list, list_elem_of_In in Hab.
    by apply Z.ltb_lt, (H2 _ Hab).
  - intros id [r Hr] Hk%has_knows. apply elem_of_map_to_list, list_elem_of_In in Hr. specialize (H3 _ Hr).
    simpl in H3. by rewrite Hk in H3.
Qed.

Lemma canonicalizeDocuments_correct_witness :
  exists s', canonicalizeDocuments 0 w_state = Done s' /\ DocumentData s' !! 11%Z <> Some (str "a.go").
Proof.
  destruct (canonicalizeDocuments_correct 0 w_state w_state_ok) as (s' & E & _ & HD & _).
  exists s'. split; [exact E|]. rewrite HD. intros [_ Hl].
  specialize (Hl 10%Z ltac:(vm_compute; reflexivity)). lia.
Defined.

Lemma canonicalizeReferenceResults_correct_witness :
  exists data, canonicalizeReferenceResults 0 w_state = Done (set_ReferenceData w_state data) /\
  located data 50 11 21.
Proof.
  destruct (canonicalizeReferenceResults_correct 0 w_state w_state_ok) as (data & E & _ & _ & Hl).
  { apply increasing_well_founded. vm_compute. reflexivity. }
  exists data. split; [exact E|]. apply Hl; [by apply has_knows; vm_compute|].
  exists 51%Z. split.
  - apply rtc_once. exists [51%Z]. split; [vm_compute; reflexivity|by left].
  - eexists. split; [vm_compute; reflexivity|]. unfold linked_to.
    refine (bool_decide_unpack _ _). vm_compute. exact I.
Defined.

Lemma canonicalize_correct_witness :
  exists s', canonicalize 0 w_state = Done s' /\ NextData s' = ∅ /\
  match RangeData s' !! 20%Z with Some r => r_HoverResultID r = 41%Z | None => False end.
Proof.
  destruct (canonicalize_correct 0 w_state w_state_ok) as (s' & E & _ & Hc).
  { apply increasing_well_founded. vm_compute. reflexivity. }
  exists s'. split; [exact E|]. split; [apply (can_next _ _ Hc)|].
  revert E. clear. vm_compute. intros [= <-]. reflexivity.
Defined.

Definition w_listing (d : gostring) : list gostring := if gs_eqb d [] then [str "b.go"] else [].
Definition w_getChildren (ds : list gostring) : result lerror (gmap gostring (list gostring)) :=
  Ok (list_to_map (map (fun d => (d, w_listing d)) ds)).

Lemma w_answers : answers w_getChildren w_listing.
Proof.
  intros ds _. eexists. split; [reflexivity|].
  assert (forall d, (list_to_map (map (fun d => (d, w_listing d)) ds) : gmap gostring (list gostring)) !! d =
    if decide (d ∈ ds) then Some (w_listing d) else None) as H.
  { intros d. induction ds as [|y ds IH]; simpl; [done|]. destruct (decide (d = y)) as [->|Hne].
    - rewrite lookup_insert_eq. by rewrite decide_True by (by left).
    - rewrite lookup_insert_ne, IH by done. apply decide_ext. rewrite elem_of_cons. tauto. }
  split; intros d Hd; rewrite H; [rewrite decide_True by done|by rewrite decide_False]. by exists (w_listing d).
Qed.

Lemma w_listing_closed : closed_listing w_listing.
Proof.
  intros segs s Hp Hne. unfold w_listing in Hne. exfalso.
  by rewrite (proj2 (gs_eqb_false _ _) (plain_path_nonnil segs s Hp)) in Hne.
Qed.

Lemma Correlate_correct_witness :
  exists s2, correlateState 0 [] w_dump (Some w_getChildren) = Done (Ok s2) /\
  forall d uri, DocumentData s2 !! d = Some uri -> Path_Join [[]; uri] ∈ w_listing (dirWithoutDot (Path_Join [[]; uri])).
Proof.
  destruct (Correlate_correct 0 [] w_dump) as (r & E & Hr). rewrite w_correlates in E. injection E as <-.
  destruct Hr as (s1 & _ & _ & E1 & _ & Hr).
  { apply increasing_well_founded. vm_compute. reflexivity. }
  destruct (Hr w_getChildren w_listing w_answers w_listing_closed) as (s2 & ec & E2 & _ & Hd).
  { intros p Hp. revert Hp. clear -E1. revert E1. vm_compute. intros [= <-]. intros Hp. vm_compute in Hp.
    inversion Hp as [|? ? ? Hp']; subst; [reflexivity|inversion Hp']. }
  exists s2. split; [exact E2|]. intros d uri (_ & _ & Hu)%Hd. exact Hu.
Defined.

(** ** Links with cycles *)

(** Three reference results linked in a circle, each with a range of its own. *)
Definition w_cycle : list (result lerror reader_Element) :=
  [w_vertex 1 "metaData" (RMetaData w_metaData);
   w_vertex 10 "document" (RString (str "file:///r/a.go"));
   w_vertex 20 "range" (RRange w_range); w_vertex 21 "range" (RRange w_range); w_vertex 22 "range" (RRange w_range);
   w_vertex 50 "referenceResult" ROther; w_vertex 51 "referenceResult" ROther; w_vertex 52 "referenceResult" ROther;
   w_edge "item" (MkEdge 50 0 [20%Z; 51%Z] 10); w_edge "item" (MkEdge 51 0 [21%Z; 52%Z] 10);
   w_edge "item" (MkEdge 52 0 [22%Z; 50%Z] 10)].

Definition locations (s : State) (id : Z) : list Z :=
  match ReferenceData s !! id with
  | Some sm => elements (default ∅ (sets sm !! 10%Z))
  | None => []
  end.

(** A reference result that is being visited is not complete when it is copied:
    the three results do not end with the same ranges. *)
Theorem reference_cycle_incomplete :
  match canonicalizeReferenceResults 0 (correlated w_cycle) with
  | Done s => map (fun id => length (locations s id)) [50; 51; 52]%Z <> [3; 3; 3]
  | _ => False
  end.
Proof. vm_compute. discriminate. Qed.

(** A result set that is its own next one. *)
Definition w_loop : list (result lerror reader_Element) :=
  [w_vertex 1 "metaData" (RMetaData w_metaData);
   w_vertex 30 "resultSet" RResultSet; w_edge "next" (w_one 30 30)].

(** Correlation accepts it, and canonicalization does not return. *)
Theorem next_cycle_diverges :
  correlateFromReader [] w_loop = Done (Ok (correlated w_loop)) /\
  forall fuel n item, canonicalizeResultSetData fuel n (correlated w_loop) 30 item = OutOfFuel.
Proof.
  split; [vm_compute; reflexivity|]. intros fuel n.
  assert (next (correlated w_loop) 30 = Some (30%Z, zeroResultSet)) as E by (vm_compute; reflexivity).
  induction fuel as [|fuel IH]; intros item; [done|]. cbn [canonicalizeResultSetData]. by rewrite E, IH.
Qed.
End Witness.
