(* ===== verification/Precise.v ===== *)
(** The format of converted dumps: types, hashing and queries of
    [lib/codeintel/precise].

    An [ID] is a Go string.  A bundle is given as maps; the channels of
    [GroupedBundleDataChans] are the lists of the values sent on them. *)
From S2P Require Import Prelude GoStr GoLib GoMap.

Abbreviation ID := (list Z) (only parsing).

(** ** [types.go] *)

Record precise_RangeData := MkPRange {
  pr_StartLine : Z; pr_StartCharacter : Z; pr_EndLine : Z; pr_EndCharacter : Z;
  pr_DefinitionResultID : ID; pr_ReferenceResultID : ID; pr_ImplementationResultID : ID; pr_HoverResultID : ID;
  pr_MonikerIDs : list ID
}.
Record precise_MonikerData := MkPMoniker {
  pm_Kind : gostring; pm_Scheme : gostring; pm_Identifier : gostring; pm_PackageInformationID : ID
}.
Record PackageInformationData_ := MkPPackageInformation { pp_Manager : gostring; pp_Name : gostring; pp_Version : gostring }.
Record QualifiedMonikerData := MkQualified { qm_Moniker : precise_MonikerData; qm_Package : PackageInformationData_ }.
Record DiagnosticData := MkPDiagnostic {
  pd_Severity : Z; pd_Code : gostring; pd_Message : gostring; pd_Source : gostring;
  pd_StartLine : Z; pd_StartCharacter : Z; pd_EndLine : Z; pd_EndCharacter : Z
}.
Record precise_DocumentData := MkPDocument {
  doc_Ranges : gmap gostring precise_RangeData;
  doc_HoverResults : gmap gostring gostring;
  doc_Monikers : gmap gostring precise_MonikerData;
  doc_PackageInformation : gmap gostring PackageInformationData_;
  doc_Diagnostics : list DiagnosticData
}.
Record DocumentIDRangeID := MkDocumentIDRangeID { dr_DocumentID : ID; dr_RangeID : ID }.
Record ResultChunkData := MkChunk {
  ch_DocumentPaths : gmap gostring gostring;
  ch_DocumentIDRangeIDs : gmap gostring (list DocumentIDRangeID)
}.
Record LocationData := MkLocation {
  loc_URI : gostring; loc_StartLine : Z; loc_StartCharacter : Z; loc_EndLine : Z; loc_EndCharacter : Z
}.
Record MonikerLocations := MkMonikerLocations {
  ml_Kind : gostring; ml_Scheme : gostring; ml_Identifier : gostring; ml_Locations : list LocationData
}.
Record Package := MkPackageOf { pk_Scheme : gostring; pk_Manager : gostring; pk_Name : gostring; pk_Version : gostring }.

Abbreviation MonikerMap := (gmap gostring (gmap gostring (gmap gostring (list LocationData)))).

Record GroupedBundleDataChans := MkChans {
  gc_ProjectRoot : gostring;
  gc_NumResultChunks : Z;
  gc_Documents : list (gostring * precise_DocumentData);
  gc_ResultChunks : list (Z * ResultChunkData);
  gc_Definitions : list MonikerLocations;
  gc_References : list MonikerLocations;
  gc_Implementations : list MonikerLocations;
  gc_Packages : list Package;
  gc_PackageReferences : list Package
}.
Record GroupedBundleDataMaps := MkMaps {
  gm_NumResultChunks : Z;
  gm_Documents : gmap gostring precise_DocumentData;
  gm_ResultChunks : gmap Z ResultChunkData;
  gm_Definitions : MonikerMap;
  gm_References : MonikerMap;
  gm_Packages : list Package;
  gm_PackageReferences : list Package
}.

(** ** [hash.go] *)

(** [int32] arithmetic wraps around. *)
Definition wrapS32 (n : Z) : Z := ((n + 2 ^ 31) mod 2 ^ 32 - 2 ^ 31)%Z.

Definition hash_step (hash c : Z) : Z := wrapS32 (wrapS32 (wrapS32 (Z.shiftl hash 5) - hash) + c).
Definition HashKey (id : ID) (maxIndex : Z) : run Z :=
  let hash := fold_left hash_step (Utf8.runes id) 0%Z in
  let hash := if (hash <? 0)%Z then wrapS32 (- hash) else hash in
  if (wrapS32 maxIndex =? 0)%Z then Panics "integer divide by zero"
  else Done (Z.rem hash (wrapS32 maxIndex)).

(** ** [util.go] *)
Section Util.
Context {G : GoRuntime}.

Definition ComparePosition (r : precise_RangeData) (line character : Z) : Z :=
  if (line <? pr_StartLine r)%Z then 1%Z
  else if (pr_EndLine r <? line)%Z then (-1)%Z
  else if (line =? pr_StartLine r)%Z && (character <? pr_StartCharacter r)%Z then 1%Z
  else if (line =? pr_EndLine r)%Z && (pr_EndCharacter r <=? character)%Z then (-1)%Z
  else 0%Z.

Definition FindRanges (n : nat) (ranges : gmap gostring precise_RangeData) (line character : Z)
    : list precise_RangeData :=
  sort_slice (fun a b => negb (ComparePosition a (pr_StartLine b) (pr_StartCharacter b) =? 0)%Z)
    (List.filter (fun r => (ComparePosition r line character =? 0)%Z) (map_range n ranges).*2).

Definition compare_lex (keys : list (Z * Z)) : Z :=
  fold_right (fun '(a, b) rest => if (a <? b)%Z then (-1)%Z else if (b <? a)%Z then 1%Z else rest) 0%Z keys.

Definition CompareRanges (a b : precise_RangeData) : Z :=
  compare_lex [(pr_StartLine a, pr_StartLine b); (pr_StartCharacter a, pr_StartCharacter b);
    (pr_EndLine a, pr_EndLine b); (pr_EndCharacter a, pr_EndCharacter b)].
Definition CompareLocations (a b : LocationData) : Z :=
  compare_lex [(loc_StartLine a, loc_StartLine b); (loc_StartCharacter a, loc_StartCharacter b);
    (loc_EndLine a, loc_EndLine b); (loc_EndCharacter a, loc_EndCharacter b)].

Definition RangeIntersectsSpan (r : precise_RangeData) (startLine endLine : Z) : bool :=
  ((startLine <=? pr_StartLine r) && (pr_StartLine r <? endLine) ||
   (startLine <=? pr_EndLine r) && (pr_EndLine r <? endLine))%Z.

Definition FindRangesInWindow (n : nat) (ranges : gmap gostring precise_RangeData) (startLine endLine : Z)
    : list precise_RangeData :=
  sort_slice (fun a b => (CompareRanges a b <? 0)%Z)
    (List.filter (fun r => RangeIntersectsSpan r startLine endLine) (map_range n ranges).*2).

Definition add_locations (m : MonikerMap) (l : MonikerLocations) : MonikerMap :=
  let kindMap := default ∅ (m !! ml_Kind l) in
  let schemeMap := default ∅ (kindMap !! ml_Scheme l) in
  <[ml_Kind l := <[ml_Scheme l := <[ml_Identifier l := ml_Locations l]> schemeMap]> kindMap]> m.

Definition GroupedBundleDataChansToMaps (chans : GroupedBundleDataChans) : GroupedBundleDataMaps :=
  MkMaps (gc_NumResultChunks chans)
    (fold_left (fun m e => <[e.1 := e.2]> m) (gc_Documents chans) ∅)
    (fold_left (fun m e => <[e.1 := e.2]> m) (gc_ResultChunks chans) ∅)
    (fold_left add_locations (gc_Definitions chans) ∅)
    (fold_left add_locations (gc_References chans) ∅)
    (gc_Packages chans) (gc_PackageReferences chans).

Definition moniker_rows (n : nat) (m : MonikerMap) : list MonikerLocations :=
  concat (map (fun k => concat (map (fun s => map (fun i => MkMonikerLocations k.1 s.1 i.1 i.2)
    (map_range n s.2)) (map_range n k.2))) (map_range n m)).

(** The project root and the implementations are not set. *)
Definition GroupedBundleDataMapsToChans (n : nat) (maps : GroupedBundleDataMaps) : GroupedBundleDataChans :=
  MkChans [] (gm_NumResultChunks maps) (map_range n (gm_Documents maps)) (map_range n (gm_ResultChunks maps))
    (moniker_rows n (gm_Definitions maps)) (moniker_rows n (gm_References maps)) []
    (gm_Packages maps) (gm_PackageReferences maps).

(** ** [query.go] *)

Record QueryResult := MkQueryResult {
  q_Definitions : list LocationData; q_References : list LocationData; q_Hover : gostring;
  q_Monikers : list QualifiedMonikerData
}.

(** The zero values of missing entries. *)
Definition zeroChunk : ResultChunkData := MkChunk ∅ ∅.
Definition zeroDocument : precise_DocumentData := MkPDocument ∅ ∅ ∅ ∅ [].
Definition zeroPRange : precise_RangeData := MkPRange 0 0 0 0 [] [] [] [] [].
Definition zeroPMoniker : precise_MonikerData := MkPMoniker [] [] [] [].
Definition zeroPackageInformation : PackageInformationData_ := MkPPackageInformation [] [] [].

Definition getDefRef (resultID : ID) (numResultChunks : Z) (resultChunks : gmap Z ResultChunkData)
    : run (list DocumentIDRangeID * ResultChunkData) :=
  let! chunkID := HashKey resultID numResultChunks in
  let chunk := default zeroChunk (resultChunks !! chunkID) in
  Done (default [] (ch_DocumentIDRangeIDs chunk !! resultID), chunk).

Definition resolve_location (bundle : GroupedBundleDataMaps) (chunk : ResultChunkData) (p : DocumentIDRangeID) : LocationData :=
  let path := default [] (ch_DocumentPaths chunk !! dr_DocumentID p) in
  let rng := default zeroPRange (doc_Ranges (default zeroDocument (gm_Documents bundle !! path)) !! dr_RangeID p) in
  MkLocation path (pr_StartLine rng) (pr_StartCharacter rng) (pr_EndLine rng) (pr_EndCharacter rng).

Definition resolveLocations (bundle : GroupedBundleDataMaps) (resultID : ID) : run (list LocationData) :=
  let! '(docIDRngIDs, chunk) := getDefRef resultID (gm_NumResultChunks bundle) (gm_ResultChunks bundle) in
  Done (map (resolve_location bundle chunk) docIDRngIDs).

Definition Resolve (bundle : GroupedBundleDataMaps) (document : precise_DocumentData) (rng : precise_RangeData)
    : run QueryResult :=
  let hover := default [] (doc_HoverResults document !! pr_HoverResultID rng) in
  let monikers := map (fun monikerID =>
      let moniker := default zeroPMoniker (doc_Monikers document !! monikerID) in
      MkQualified moniker (default zeroPackageInformation (doc_PackageInformation document !! pm_PackageInformationID moniker)))
    (pr_MonikerIDs rng) in
  let! definitions := resolveLocations bundle (pr_DefinitionResultID rng) in
  let! references := resolveLocations bundle (pr_ReferenceResultID rng) in
  Done (MkQueryResult definitions references hover monikers).

Definition Query (n : nat) (bundle : GroupedBundleDataMaps) (path : gostring) (line character : Z)
    : run (result gostring (list QueryResult)) :=
  match gm_Documents bundle !! path with
  | None => Done (Err (str "path does not exist in bundle"))
  | Some document =>
      let! results := run_fold (fun results rng =>
          let! r := Resolve bundle document rng in
          Done (results ++ [r])) (FindRanges n (doc_Ranges document) line character) [] in
      Done (Ok results)
  end.
End Util.

(** Cases of [hash_test.go]. *)
Example HashKey_uuid1 : HashKey (str "0137b75b-c9a7-4c05-aae3-9dc41b914a04") 20 = Done 13%Z.
Proof. vm_compute. reflexivity. Qed.
Example HashKey_uuid2 : HashKey (str "347cb0fe-c0c3-4c0d-a6ac-4c04b68bcdbc") 20 = Done 0%Z.
Proof. vm_compute. reflexivity. Qed.
