(* ===== verification/PreciseFacts.v ===== *)
(** Hashing, positions and the order of ranges in [lib/codeintel/precise]. *)
From stdpp Require Import sorting.
From S2P Require Import Prelude GoStr GoLib GoMap Precise.

(** ** Hashing *)

Lemma wrapS32_range n : (- 2 ^ 31 <= wrapS32 n < 2 ^ 31)%Z.
Proof. unfold wrapS32. pose proof (Z.mod_pos_bound (n + 2 ^ 31) (2 ^ 32) ltac:(lia)). lia. Qed.

Lemma wrapS32_small n : (- 2 ^ 31 <= n < 2 ^ 31)%Z -> wrapS32 n = n.
Proof. intros H. unfold wrapS32. rewrite Z.mod_small; lia. Qed.

(** The sum that is hashed, before the sign is dropped. *)
Definition raw_hash (id : gostring) : Z := fold_left hash_step (Utf8.runes id) 0%Z.

Lemma raw_hash_range id : (- 2 ^ 31 <= raw_hash id < 2 ^ 31)%Z.
Proof.
  unfold raw_hash. assert (forall l h, (- 2 ^ 31 <= h < 2 ^ 31)%Z -> (- 2 ^ 31 <= fold_left hash_step l h < 2 ^ 31)%Z) as H.
  { induction l as [|c l IH]; intros h Hh; [done|]. apply IH, wrapS32_range. }
  apply H. lia.
Qed.

Lemma HashKey_spec id maxIndex : (0 < maxIndex < 2 ^ 31)%Z ->
  exists i, HashKey id maxIndex = Done i /\ (- maxIndex < i < maxIndex)%Z /\ (raw_hash id <> - 2 ^ 31 -> 0 <= i)%Z.
Proof.
  intros Hm. unfold HashKey. cbv zeta. fold (raw_hash id). pose proof (raw_hash_range id) as Hr.
  rewrite (wrapS32_small maxIndex) by lia. destruct (Z.eqb_spec maxIndex 0); [lia|]. eexists. split; [done|].
  set (h := if (raw_hash id <? 0)%Z then wrapS32 (- raw_hash id) else raw_hash id).
  pose proof (Z.rem_bound_abs h maxIndex ltac:(lia)) as Hb. split; [lia|]. intros Hne.
  apply Z.rem_nonneg; [lia|]. unfold h. destruct (Z.ltb_spec (raw_hash id) 0); [|lia].
  rewrite wrapS32_small; lia.
Qed.

(** ** Positions *)

(** The position is at or after the start of [r] and before its end. *)
Definition inside (r : precise_RangeData) (line character : Z) : Prop :=
  (pr_StartLine r < line \/ pr_StartLine r = line /\ pr_StartCharacter r <= character)%Z /\
  (line < pr_EndLine r \/ line = pr_EndLine r /\ character < pr_EndCharacter r)%Z.

Lemma ComparePosition_inside r line character : (ComparePosition r line character = 0)%Z <-> inside r line character.
Proof.
  unfold ComparePosition, inside.
  repeat match goal with |- context [if ?b then _ else _] => destruct b eqn:? end; rewrite ?andb_true_iff, ?andb_false_iff in *; lia.
Qed.

(** A comparison of keys orders what the keys are computed from. *)
Lemma strict_weak_on {A B} (f : A -> B) (less : B -> B -> bool) (less' : A -> A -> bool) :
  (forall a b, less' a b = less (f a) (f b)) -> StrictWeak less -> StrictWeak less'.
Proof.
  intros E H. split.
  - intros a. rewrite E. apply less_irrefl.
  - intros a b c. rewrite !E. apply less_trans.
  - intros a b c. rewrite !E. apply less_incomparable.
Qed.

(** ** Ranges at a position *)

(** [a] starts before [b]. *)
Definition starts_before (a b : precise_RangeData) : bool :=
  ((pr_StartLine a <? pr_StartLine b) || (pr_StartLine a =? pr_StartLine b) && (pr_StartCharacter a <? pr_StartCharacter b))%Z.

(** Among ranges that contain one position, the comparison of [FindRanges] asks
    which range starts later. *)
Lemma find_less_starts line character a b : inside a line character -> inside b line character ->
  negb (ComparePosition a (pr_StartLine b) (pr_StartCharacter b) =? 0)%Z = starts_before b a.
Proof.
  intros Ha Hb. apply eq_true_iff_eq. unfold starts_before.
  rewrite negb_true_iff, Z.eqb_neq, ComparePosition_inside, orb_true_iff, andb_true_iff, !Z.ltb_lt, Z.eqb_eq.
  unfold inside in *. lia.
Qed.

Lemma find_less_weak line character :
  StrictWeakOn (fun r => inside r line character) (fun a b => negb (ComparePosition a (pr_StartLine b) (pr_StartCharacter b) =? 0)%Z).
Proof.
  split.
  - intros a b Ha Hb. rewrite !(find_less_starts line character) by done. unfold starts_before. lia.
  - intros a b c Ha Hb Hc. rewrite !(find_less_starts line character) by done. unfold starts_before. lia.
Qed.

(** ** Ranges in a window *)

Definition range_key (r : precise_RangeData) : list Z := [pr_StartLine r; pr_StartCharacter r; pr_EndLine r; pr_EndCharacter r].

Lemma CompareRanges_less a b : (CompareRanges a b <? 0)%Z = gs_ltb (range_key a) (range_key b).
Proof.
  unfold CompareRanges, range_key. cbn [compare_lex fold_right gs_ltb].
  repeat match goal with |- context [if ?b then _ else _] => destruct b eqn:? end; lia.
Qed.

#[export] Instance gs_ltb_strict_weak : StrictWeak gs_ltb.
Proof.
  split; [apply gs_ltb_irrefl|apply gs_ltb_trans|]. intros a b c H1 H2. destruct (gs_ltb a c) eqn:E; [|done].
  destruct (gs_ltb_total a b) as [->|[H|H]]; [congruence..|]. by rewrite (gs_ltb_trans b a c) in H2.
Qed.

#[export] Instance CompareRanges_strict_weak : StrictWeak (fun a b => (CompareRanges a b <? 0)%Z).
Proof. apply (strict_weak_on range_key gs_ltb); [apply CompareRanges_less|apply _]. Qed.

(** ** Bundles as maps and as channels *)

(** The rows of a map, and the map of rows. *)
Lemma insert_all_map_range {G : GoRuntime} {K V} `{Countable K} n (m : gmap K V) :
  fold_left (fun m e => <[e.1 := e.2]> m) (map_range n m) ∅ = m.
Proof.
  rewrite map_range_fold.
  - assert (forall (l : list (K * V)) (m0 : gmap K V), NoDup l.*1 -> forall k v,
      fold_left (fun m e => <[e.1 := e.2]> m) l m0 !! k = Some v <-> (k, v) ∈ l \/ (k ∉ l.*1 /\ m0 !! k = Some v)) as Hf.
    { induction l as [|[k0 v0] l IH]; intros m0 Hn k v; cbn [fold_left fst snd].
      - split; [intros ?; right; split; [apply not_elem_of_nil|done]|]. by intros [?%not_elem_of_nil|[_ ?]].
      - inversion_clear Hn as [|? ? Hk Hn']. rewrite IH by done. rewrite lookup_insert_Some, fmap_cons, elem_of_cons, not_elem_of_cons. cbn [fst].
        split.
        + intros [?|[Hno [[<- <-]|[Hne ?]]]]; [by left; right|by left; left|right]. split; [split|]; congruence || done.
        + intros [[[= -> ->]|?]|[[Hne Hno] ?]]; [right|by left|right]; (split; [done|]); [by left|right]. split; congruence || done. }
    apply map_eq. intros k. apply option_eq. intros v. rewrite Hf by apply NoDup_fst_map_to_list.
    rewrite elem_of_map_to_list, lookup_empty. naive_solver.
  - intros b x y _ _ Hne. by rewrite insert_insert_ne by done.
Qed.

(** A map of monikers that holds no empty map. *)
Definition no_empty (m : MonikerMap) : Prop :=
  map_Forall (fun _ kindMap => kindMap <> ∅ /\ map_Forall (fun _ schemeMap => schemeMap <> ∅) kindMap) m.

Lemma add_rows_kind (k s : gostring) (l : list (gostring * list LocationData)) (m : MonikerMap) :
  l <> [] -> fold_left add_locations (map (fun i => MkMonikerLocations k s i.1 i.2) l) m =
  <[k := <[s := fold_left (fun m e => <[e.1 := e.2]> m) l (default ∅ (default ∅ (m !! k) !! s))]> (default ∅ (m !! k))]> m.
Proof.
  revert m. induction l as [|[i v] l IH]; intros m Hl; [done|]. cbn [map fold_left fst snd].
  destruct (decide (l = [])) as [->|Hne]; [done|]. rewrite IH by done. unfold add_locations. cbn [ml_Kind ml_Scheme ml_Identifier ml_Locations].
  rewrite lookup_insert_eq, insert_insert_eq. cbn [default from_option]. unfold id. by rewrite lookup_insert_eq, insert_insert_eq.
Qed.

Section Rows.
Context {G : GoRuntime} (n : nat).

Lemma map_range_nonnil {K V} `{Countable K} (m : gmap K V) : m <> ∅ -> map_range n m <> [].
Proof. intros Hm E. apply Hm, map_size_empty_inv. by rewrite <- (length_map_range n), E. Qed.

Lemma add_rows_schemes (k : gostring) (l : list (gostring * gmap gostring (list LocationData))) (m : MonikerMap) :
  l <> [] -> NoDup l.*1 -> (forall e, e ∈ l -> e.2 <> ∅ /\ default ∅ (m !! k) !! e.1 = None) ->
  fold_left add_locations (concat (map (fun s => map (fun i => MkMonikerLocations k s.1 i.1 i.2) (map_range n s.2)) l)) m =
  <[k := fold_left (fun m e => <[e.1 := e.2]> m) l (default ∅ (m !! k))]> m.
Proof.
  revert m. induction l as [|[s v] l IH]; intros m Hl Hn He; [done|]. cbn [map concat fold_left fst snd].
  rewrite fold_left_app. destruct (He (s, v)) as [Hv Hs]; [by left|]. cbn [fst snd] in *.
  rewrite add_rows_kind by (by apply map_range_nonnil). rewrite Hs. cbn [default from_option]. rewrite insert_all_map_range.
  destruct (decide (l = [])) as [->|Hne]; [done|]. inversion_clear Hn as [|? ? Hk Hn'].
  rewrite IH; [|done|done|].
  - rewrite lookup_insert_eq, insert_insert_eq. done.
  - intros [s' v'] Hin. destruct (He (s', v')) as [H1 H2]; [by right|]. split; [done|]. rewrite lookup_insert_eq. cbn [default from_option fst] in *.
    unfold id. rewrite lookup_insert_ne; [done|]. intros ->. apply Hk, list_elem_of_fmap. by exists (s', v').
Qed.

Lemma add_rows_kinds (l : list (gostring * gmap gostring (gmap gostring (list LocationData)))) (m : MonikerMap) :
  NoDup l.*1 -> (forall e, e ∈ l -> e.2 <> ∅ /\ map_Forall (fun _ schemeMap => schemeMap <> ∅) e.2 /\ m !! e.1 = None) ->
  fold_left add_locations (concat (map (fun k => concat (map (fun s => map (fun i => MkMonikerLocations k.1 s.1 i.1 i.2)
    (map_range n s.2)) (map_range n k.2))) l)) m =
  fold_left (fun m e => <[e.1 := e.2]> m) l m.
Proof.
  revert m. induction l as [|[k v] l IH]; intros m Hn He; [done|]. cbn [map concat fold_left fst snd].
  rewrite fold_left_app. destruct (He (k, v)) as (Hv & Hs & Hk); [by left|]. cbn [fst snd] in *. rewrite add_rows_schemes.
  - rewrite Hk. cbn [default from_option]. rewrite insert_all_map_range. inversion_clear Hn as [|? ? Hk' Hn']. apply IH; [done|].
    intros [k' v'] Hin. destruct (He (k', v')) as (? & ? & ?); [by right|]. split_and!; [done|done|]. cbn [fst] in *.
    rewrite lookup_insert_ne; [done|]. intros ->. apply Hk', list_elem_of_fmap. by exists (k', v').
  - by apply map_range_nonnil.
  - apply NoDup_map_range_keys.
  - intros [s w] Hin%elem_of_map_range. rewrite Hk. split; [by apply (Hs s)|done].
Qed.

Lemma moniker_rows_back (m : MonikerMap) : no_empty m -> fold_left add_locations (moniker_rows n m) ∅ = m.
Proof.
  intros Hm. unfold moniker_rows. rewrite add_rows_kinds.
  - apply insert_all_map_range.
  - apply NoDup_map_range_keys.
  - intros [k v] Hin%elem_of_map_range. destruct (Hm k v Hin) as [? ?]. by split_and!.
Qed.
End Rows.

(** ** Properties *)
Section Properties.
Context {G : GoRuntime}.

(** A chunk index is computed for every identifier and number of chunks that
    fits; it is less than the number of chunks, and not negative unless the hash
    is the least 32-bit integer, whose negation overflows. *)
Theorem HashKey_bounds id maxIndex : (0 < maxIndex < 2 ^ 31)%Z ->
  exists i, HashKey id maxIndex = Done i /\ (- maxIndex < i < maxIndex)%Z /\
    (i < 0 -> raw_hash id = - 2 ^ 31)%Z.
Proof.
  intros H. destruct (HashKey_spec id maxIndex H) as (i & E & Hi & Hn). exists i. split_and!; [done|lia..|].
  intros Hneg. destruct (decide (raw_hash id = - 2 ^ 31)%Z) as [|Hne]; [done|]. specialize (Hn Hne). lia.
Qed.

(** The ranges found at a position are exactly those that contain it, the one
    that starts last first; the ranges found in a window are those with an end
    in it, in reading order. *)
Theorem FindRanges_ordered n ranges line character :
  (exists found, FindRanges n ranges line character ≡ₚ found.*2 /\ NoDup found.*1 /\
    forall id r, (id, r) ∈ found <-> ranges !! id = Some r /\ inside r line character) /\
  StronglySorted (fun a b => starts_before a b = false) (FindRanges n ranges line character) /\
  StronglySorted (fun a b => (CompareRanges a b <= 0)%Z) (FindRangesInWindow n ranges line character).
Proof.
  split_and!.
  - exists (List.filter (fun e => (ComparePosition e.2 line character =? 0)%Z) (map_range n ranges)). split_and!.
    + unfold FindRanges. rewrite sort_slice_perm. induction (map_range n ranges) as [|e l IH]; [done|]. cbn.
      destruct (ComparePosition e.2 line character =? 0)%Z; cbn; by rewrite IH.
    + pose proof (NoDup_map_range_keys n ranges) as Hn. revert Hn. induction (map_range n ranges) as [|e l IH]; intros Hn; [done|].
      inversion_clear Hn as [|? ? Hk Hn']. cbn. destruct (_ =? 0)%Z; [|by apply IH]. cbn. constructor; [|by apply IH].
      intros (e' & E & [Hin _]%list_elem_of_In%filter_In)%list_elem_of_fmap. apply Hk, list_elem_of_fmap. exists e'.
      split; [done|]. by apply list_elem_of_In.
    + intros id r. by rewrite list_elem_of_In, filter_In, <- list_elem_of_In, elem_of_map_range, Z.eqb_eq, ComparePosition_inside.
  - assert (forall r, r ∈ List.filter (fun r => (ComparePosition r line character =? 0)%Z) (map_range n ranges).*2 -> inside r line character) as Hin.
    { intros r [_ H]%list_elem_of_In%filter_In. by apply ComparePosition_inside, Z.eqb_eq. }
    unfold FindRanges. set (l := List.filter _ _) in *. set (less := fun a b : precise_RangeData => negb (ComparePosition a (pr_StartLine b) (pr_StartCharacter b) =? 0)%Z).
    assert (ascending less (sort_slice less l)) as Ha.
    { apply (sort_slice_ascending_on (fun r => inside r line character)); [apply find_less_weak|]. by apply Forall_forall. }
    assert (forall r, r ∈ sort_slice less l -> inside r line character) as Hin' by (intros r; rewrite sort_slice_perm; apply Hin).
    revert Ha Hin'. generalize (sort_slice less l). clear. induction l as [|a l IH]; intros Ha Hin; [constructor|].
    inversion_clear Ha as [|? ? H1 H2]. constructor; [apply IH; [done|]; intros r Hr; apply Hin; by right|].
    rewrite Forall_forall in H2 |- *. intros b Hb. rewrite <- (find_less_starts line character); [by apply H2|..]; apply Hin; [by right|by left].
  - eapply StronglySorted_mono; [|apply sort_slice_ascending, CompareRanges_strict_weak]. cbn. intros a b H%Z.ltb_ge.
    unfold CompareRanges in *. cbn [compare_lex fold_right] in *.
    repeat match goal with |- context [if ?b then _ else _] => destruct b eqn:? end; try lia; 
    repeat match goal with H : context [if ?b then _ else _] |- _ => destruct b eqn:? end; lia.
Qed.

(** Turning the maps of a bundle into channels and back gives the bundle, when
    no inner map of monikers is empty. *)
Theorem GroupedBundleData_roundtrip n maps :
  no_empty (gm_Definitions maps) -> no_empty (gm_References maps) ->
  GroupedBundleDataChansToMaps (GroupedBundleDataMapsToChans n maps) = maps.
Proof.
  intros Hd Hr. unfold GroupedBundleDataChansToMaps, GroupedBundleDataMapsToChans. cbn.
  rewrite !insert_all_map_range, !moniker_rows_back by done. by destruct maps.
Qed.
End Properties.

(** ** Examples *)

(** The negation of the least hash is negative again. *)
Theorem HashKey_negative : HashKey (str "polygenelubricants") 20 = Done (-8)%Z.
Proof. vm_compute. reflexivity. Qed.

(** A range that starts before a window and ends after it does not intersect it. *)
Theorem RangeIntersectsSpan_around : RangeIntersectsSpan (MkPRange 0 0 10 0 [] [] [] [] []) 3 5 = false.
Proof. reflexivity. Qed.

Lemma HashKey_bounds_witness : exists i, HashKey (str "42") 7 = Done i /\ (-7 < i < 7)%Z.
Proof. destruct (HashKey_bounds (str "42") 7 ltac:(lia)) as (i & E & Hi & _). exists i. split; [exact E|exact Hi]. Defined.

Section Witness.
#[local] Instance runtime : GoRuntime := plain_runtime.

Definition w_monikers : MonikerMap := {[str "export" := {[str "go" := {[str "pkg:F" := [MkLocation (str "a.go") 1 2 1 5]]}]}]}.
Definition w_maps : GroupedBundleDataMaps :=
  MkMaps 1 {[str "a.go" := zeroDocument]} {[0%Z := zeroChunk]} w_monikers ∅ [] [].

Lemma GroupedBundleData_roundtrip_witness : GroupedBundleDataChansToMaps (GroupedBundleDataMapsToChans 0 w_maps) = w_maps.
Proof.
  apply (GroupedBundleData_roundtrip 0 w_maps).
  - refine (bool_decide_unpack _ _). vm_compute. exact I.
  - refine (bool_decide_unpack _ _). vm_compute. exact I.
Defined.
End Witness.
