(* ===== verification/Group.v ===== *)
(** Grouping of a correlated dump: [group.go] and [util.go] of
    [lib/codeintel/lsif/conversion].

    The goroutines that fill the channels are not cancelled here: a channel is the
    list of the values that are sent. *)
From S2P Require Import Prelude GoStr GoLib GoMap IdSets Lsif Canonicalize Precise.

Section Group.
Context {G : GoRuntime}.

(** ** [util.go] *)

Definition makeKey (parts : list gostring) : gostring := Join parts (str ":").

Definition toID (id : Z) : ID := if (id =? 0)%Z then [] else FormatInt id.

(** The zero values of missing entries. *)
Definition zeroRange : Range := MkRange (MkRangeData (MkPos 0 0) (MkPos 0 0)) None 0 0 0 0.
Definition zeroMoniker : Moniker := MkMoniker [] [] [] 0.
Definition zeroPackage : PackageInformation := MkPackage [] [] [].

(** ** Documents *)

Definition document_Moniker (state : State) (document : precise_DocumentData) (monikerID : Z) : precise_DocumentData :=
  let moniker := default zeroMoniker (MonikerData state !! monikerID) in
  let monikers := <[toID monikerID := MkPMoniker (Kind moniker) (Scheme moniker) (Identifier moniker)
      (toID (PackageInformationID moniker))]> (doc_Monikers document) in
  let packages :=
    if negb (PackageInformationID moniker =? 0)%Z then
      let info := default zeroPackage (PackageInformationData state !! PackageInformationID moniker) in
      <[toID (PackageInformationID moniker) := MkPPackageInformation [] (p_Name info) (p_Version info)]>
        (doc_PackageInformation document)
    else doc_PackageInformation document in
  MkPDocument (doc_Ranges document) (doc_HoverResults document) monikers packages (doc_Diagnostics document).

Definition precise_range (r : Range) (monikerIDs : list ID) : precise_RangeData :=
  MkPRange (Line (Start (r_Data r))) (Character (Start (r_Data r))) (Line (End_ (r_Data r))) (Character (End_ (r_Data r)))
    (toID (r_DefinitionResultID r)) (toID (r_ReferenceResultID r)) (toID (r_ImplementationResultID r))
    (toID (r_HoverResultID r)) monikerIDs.

Definition document_Range (n : nat) (state : State) (document : precise_DocumentData) (rangeID : Z)
    : run precise_DocumentData :=
  let rangeData := default zeroRange (RangeData state !! rangeID) in
  let! _ := SetMap.NumIDsForKey (Monikers state) rangeID in
  let! ids := SetMap.EachID n (Monikers state) rangeID in
  let document := fold_left (document_Moniker state) ids document in
  let ranges := <[toID rangeID := precise_range rangeData (map toID ids)]> (doc_Ranges document) in
  let hovers :=
    if negb (r_HoverResultID rangeData =? 0)%Z then
      <[toID (r_HoverResultID rangeData) := default [] (HoverData state !! r_HoverResultID rangeData)]>
        (doc_HoverResults document)
    else doc_HoverResults document in
  Done (MkPDocument ranges hovers (doc_Monikers document) (doc_PackageInformation document) (doc_Diagnostics document)).

Definition precise_diagnostic (d : Diagnostic) : DiagnosticData :=
  MkPDiagnostic (Severity d) (Code d) (Message d) (d_Source d) (StartLine d) (StartCharacter d) (EndLine d) (EndCharacter d).

Definition serializeDocument (n : nat) (state : State) (documentID : Z) : run precise_DocumentData :=
  let! _ := SetMap.NumIDsForKey (Contains state) documentID in
  let! _ := SetMap.NumIDsForKey (Diagnostics state) documentID in
  let! rangeIDs := SetMap.EachID n (Contains state) documentID in
  let! document := run_fold (document_Range n state) rangeIDs zeroDocument in
  let! diagnosticIDs := SetMap.EachID n (Diagnostics state) documentID in
  Done (MkPDocument (doc_Ranges document) (doc_HoverResults document) (doc_Monikers document)
    (doc_PackageInformation document)
    (concat (map (fun id => map precise_diagnostic (default [] (DiagnosticResults state !! id))) diagnosticIDs))).

Definition serializeBundleDocuments (n : nat) (state : State) : run (list (gostring * precise_DocumentData)) :=
  run_fold (fun rows entry =>
      if HasPrefix entry.2 (str "..") then Done rows
      else
        let! document := serializeDocument n state entry.1 in
        Done (rows ++ [(entry.2, document)]))
    (map_range n (DocumentData state)) [].

(** ** Result chunks *)

Definition resultsPerResultChunk : Z := 512%Z.

Definition assign_chunk (numResultChunks : Z) (chunkAssignments : gmap Z (list (Z * DefaultIDSetMap)))
    (entry : Z * DefaultIDSetMap) : run (gmap Z (list (Z * DefaultIDSetMap))) :=
  let! index := HashKey (toID entry.1) numResultChunks in
  Done (<[index := default [] (chunkAssignments !! index) ++ [entry]]> chunkAssignments).

(** [Less] of [sortableDocumentIDRangeIDs], on two elements. *)
Definition less_document_range (state : State) (documentPaths : gmap gostring gostring) (rangeIDMap : gmap gostring Z)
    (a b : DocumentIDRangeID) : bool :=
  let path x := default [] (documentPaths !! dr_DocumentID x) in
  let start x := Start (r_Data (default zeroRange (RangeData state !! default 0%Z (rangeIDMap !! dr_RangeID x)))) in
  if negb (gs_eqb (path a) (path b)) then negb (gs_ltb (path b) (path a))
  else
    let cmp := wrap64 (Line (start a) - Line (start b)) in
    if negb (cmp =? 0)%Z then (cmp <? 0)%Z
    else (wrap64 (Character (start a) - Character (start b)) <? 0)%Z.

(** One result of a chunk. *)
Definition chunk_entry (n : nat) (state : State) (chunk : ResultChunkData) (entry : Z * DefaultIDSetMap)
    : run ResultChunkData :=
  let! documents := SetMap.Each n entry.2 in
  let documentPaths := fold_left (fun m e => <[toID e.1 := default [] (DocumentData state !! e.1)]> m)
    documents (ch_DocumentPaths chunk) in
  let pairs := concat (map (fun e => map (fun rangeID => (e.1, rangeID)) (IDSet.Each n e.2)) documents) in
  let rangeIDMap := fold_left (fun m p => <[toID p.2 := p.2]> m) pairs ∅ in
  let documentIDRangeIDs := map (fun p => MkDocumentIDRangeID (toID p.1) (toID p.2)) pairs in
  Done (MkChunk documentPaths
    (<[toID entry.1 := sort_slice (less_document_range state documentPaths rangeIDMap) documentIDRangeIDs]>
      (ch_DocumentIDRangeIDs chunk))).

Definition result_entries (n : nat) (state : State) : list (Z * DefaultIDSetMap) :=
  map_range n (DefinitionData state) ++ map_range n (ReferenceData state) ++ map_range n (ImplementationData state).

Definition serializeResultChunks (n : nat) (state : State) (numResultChunks : Z) : run (list (Z * ResultChunkData)) :=
  let! chunkAssignments := run_fold (assign_chunk numResultChunks) (result_entries n state) ∅ in
  run_fold (fun rows e =>
      if Nat.eqb (length e.2) 0 then Done rows
      else
        let! chunk := run_fold (chunk_entry n state) e.2 zeroChunk in
        Done (rows ++ [(e.1, chunk)]))
    (map_range n chunkAssignments) [].

(** ** Moniker locations *)

(** The identifiers of the results with monikers of a kind, scheme and identifier. *)
Definition add_result (kinds : list gostring) (state : State) (id : Z)
    (m : gmap gostring (gmap gostring (gmap gostring (list Z)))) (monikerID : Z)
    : gmap gostring (gmap gostring (gmap gostring (list Z))) :=
  let moniker := default zeroMoniker (MonikerData state !! monikerID) in
  if negb (existsb (gs_eqb (Kind moniker)) kinds) then m
  else
    let bySchemes := default ∅ (m !! Kind moniker) in
    let byIdentifiers := default ∅ (bySchemes !! Scheme moniker) in
    let ids := default [] (byIdentifiers !! Identifier moniker) ++ [id] in
    <[Kind moniker := <[Scheme moniker := <[Identifier moniker := ids]> byIdentifiers]> bySchemes]> m.

(** [Less] of [sortableLocations]. *)
Definition less_location (a b : LocationData) : bool :=
  if negb (gs_eqb (loc_URI a) (loc_URI b)) then negb (gs_ltb (loc_URI b) (loc_URI a))
  else
    let cmp := wrap64 (loc_StartLine a - loc_StartLine b) in
    if negb (cmp =? 0)%Z then (cmp <? 0)%Z else (loc_StartCharacter a <? loc_StartCharacter b)%Z.

Definition location_of (state : State) (uri : gostring) (rangeID : Z) : LocationData :=
  let r := r_Data (default zeroRange (RangeData state !! rangeID)) in
  MkLocation uri (Line (Start r)) (Character (Start r)) (Line (End_ r)) (Character (End_ r)).

Definition result_locations (n : nat) (state : State) (data : gmap Z DefaultIDSetMap) (locations : list LocationData) (id : Z)
    : run (list LocationData) :=
  match data !! id with
  | None => Panics "invalid memory address or nil pointer dereference"
  | Some ranges =>
      let! documents := SetMap.Each n ranges in
      Done (locations ++ concat (map (fun e =>
        let uri := default [] (DocumentData state !! e.1) in
        if HasPrefix uri (str "..") then [] else map (location_of state uri) (IDSet.Each n e.2)) documents))
  end.

Definition gatherMonikersLocations (n : nat) (state : State) (data : gmap Z DefaultIDSetMap) (kinds : list gostring)
    (getResultID : Range -> Z) : run (list MonikerLocations) :=
  let! monikers := run_fold (fun monikers entry =>
      let resultID := getResultID entry.2 in
      if negb (resultID =? 0)%Z then
        let! ids := SetMap.Get (Monikers state) entry.1 in
        SetMap.UnionIDSet n monikers resultID ids
      else Done monikers)
    (map_range n (RangeData state)) SetMap.NewDefaultIDSetMap in
  let! byKind := run_fold (fun m entry =>
      let! ids := SetMap.Get monikers entry.1 in
      match ids with
      | None => Done m
      | Some monikerIDs => Done (fold_left (add_result kinds state entry.1) (IDSet.Each n monikerIDs) m)
      end)
    (map_range n data) ∅ in
  let rows := concat (map (fun k => concat (map (fun s => map (fun i => (k.1, s.1, i.1, i.2))
    (map_range n s.2)) (map_range n k.2))) (map_range n byKind)) in
  run_fold (fun out '(kind, scheme, identifier, ids) =>
      let! locations := run_fold (result_locations n state data) ids [] in
      if Nat.eqb (length locations) 0 then Done out
      else Done (out ++ [MkMonikerLocations kind scheme identifier (sort_slice less_location locations)]))
    rows [].

(** ** Packages *)

Definition package_of (state : State) (id : Z) : Package :=
  let source := default zeroMoniker (MonikerData state !! id) in
  let info := default zeroPackage (PackageInformationData state !! PackageInformationID source) in
  MkPackageOf (Scheme source) [] (p_Name info) (p_Version info).

Definition package_key (p : Package) : gostring := makeKey [pk_Scheme p; pk_Name p; pk_Version p].

Definition gatherPackages (n : nat) (state : State) : list Package :=
  let uniques := fold_left (fun m id => <[package_key (package_of state id) := package_of state id]> m)
    (IDSet.Each n (ExportedMonikers state)) (∅ : gmap gostring Package) in
  (map_range n uniques).*2.

(** The identifiers that are collected with a package are not used. *)
Definition collect_references (n : nat) (state : State) (packageDefinitionKeySet : gset gostring)
    (uniques : gmap gostring (Package * list gostring)) (monikers : IDSet) : gmap gostring (Package * list gostring) :=
  fold_left (fun uniques id =>
      let source := default zeroMoniker (MonikerData state !! id) in
      let key := package_key (package_of state id) in
      if bool_decide (key ∈ packageDefinitionKeySet) then uniques
      else <[key := (package_of state id, default [] (snd <$> uniques !! key) ++ [Identifier source])]> uniques)
    (IDSet.Each n monikers) uniques.

Definition gatherPackageReferences (n : nat) (state : State) (packageDefinitions : list Package) : list Package :=
  let keys := list_to_set (map package_key packageDefinitions) in
  let uniques := collect_references n state keys ∅ (ImportedMonikers state) in
  let uniques := collect_references n state keys uniques (ImplementedMonikers state) in
  map (fun e => e.2.1) (map_range n uniques).

(** ** The bundle *)

(** The division of floats is exact: the numbers are small. *)
Definition num_chunks (numResults : nat) : Z := Z.max 1 (Z.of_nat numResults / resultsPerResultChunk).

Definition groupBundleData (n : nat) (state : State) : run GroupedBundleDataChans :=
  let numResults := size (DefinitionData state) + size (ReferenceData state) + size (ImplementationData state) in
  let numResultChunks := num_chunks numResults in
  let! documents := serializeBundleDocuments n state in
  let! resultChunks := serializeResultChunks n state numResultChunks in
  let! definitionRows := gatherMonikersLocations n state (DefinitionData state) [str "export"] r_DefinitionResultID in
  let! referenceRows := gatherMonikersLocations n state (ReferenceData state) [str "import"; str "export"] r_ReferenceResultID in
  let! implementationRows := gatherMonikersLocations n state (DefinitionData state) [str "implementation"] r_DefinitionResultID in
  let packages := gatherPackages n state in
  let packageReferences := gatherPackageReferences n state packages in
  Done (MkChans (ProjectRoot state) numResultChunks documents resultChunks definitionRows referenceRows
    implementationRows packages packageReferences).

(** The whole conversion. *)
Definition Correlate {U : UnicodeTables} (n : nat) (root : gostring) (pairs : list (result lerror reader_Element))
    (getChildren : option (list gostring -> result lerror (gmap gostring (list gostring))))
    : run (result lerror GroupedBundleDataChans) :=
  let? state := correlateState n root pairs getChildren in
  let! groupedBundleData := groupBundleData n state in
  Done (Ok groupedBundleData).
End Group.
