(* ===== verification/GroupFacts.v ===== *)
(** Grouping keeps everything: documents, result chunks and their identifiers. *)
From stdpp Require Import sorting.
From S2P Require Import Prelude GoStr GoLib GoMap IdSets IdSetFacts Lsif LsifFacts Precise PreciseFacts Group CanonChains.

(** ** Identifiers *)

(** The value of a list of digits. *)
Definition dec (l : gostring) (n : Z) : Z := fold_left (fun v c => (v * 10 + (c - 48))%Z) l n.

Lemma digits_aux_dec fuel n acc : (0 <= n < 2 ^ Z.of_nat fuel)%Z -> dec (digits_aux fuel n acc) 0 = dec acc n.
Proof.
  revert n acc. induction fuel as [|fuel IH]; intros n acc Hn; [by replace n with 0%Z by (simpl in Hn; lia)|].
  cbn [digits_aux]. pose proof (Z.div_mod n 10 ltac:(lia)) as Hd. pose proof (Z.mod_pos_bound n 10 ltac:(lia)) as Hm.
  destruct (Z.ltb_spec n 10) as [Hlt|Hge].
  - unfold dec. cbn [fold_left]. f_equal. rewrite Z.mod_small; lia.
  - rewrite IH.
    + unfold dec at 1. cbn [fold_left]. fold (dec acc (n / 10 * 10 + (48 + n mod 10 - 48))). f_equal. lia.
    + rewrite Nat2Z.inj_succ, Z.pow_succ_r in Hn by lia. split; [apply Z.div_pos; lia|].
      apply Z.div_lt_upper_bound; lia.
Qed.

Lemma digits_aux_chars fuel n acc : (0 <= n)%Z -> Forall (fun c => 48 <= c)%Z acc ->
  Forall (fun c => 48 <= c)%Z (digits_aux fuel n acc) /\ length acc <= length (digits_aux fuel n acc).
Proof.
  revert n acc. induction fuel as [|fuel IH]; intros n acc Hn Ha; [done|]. cbn [digits_aux].
  pose proof (Z.mod_pos_bound n 10 ltac:(lia)) as Hm.
  assert (Forall (fun c => 48 <= c)%Z ((48 + n mod 10)%Z :: acc)) as Ha' by (constructor; [lia|done]).
  destruct (n <? 10)%Z; [split; [done|simpl; lia]|].
  destruct (IH (n / 10)%Z _ ltac:(apply Z.div_pos; lia) Ha') as [H1 H2]. split; [done|]. simpl in H2. lia.
Qed.

Definition digits (a : Z) : gostring := digits_aux (S (Z.to_nat (Z.log2 a))) a [].

Lemma digits_spec a : (0 <= a)%Z ->
  dec (digits a) 0 = a /\ Forall (fun c => 48 <= c)%Z (digits a) /\ digits a <> [].
Proof.
  intros Ha. unfold digits. split_and!.
  - rewrite digits_aux_dec; [done|]. split; [done|]. destruct (decide (a = 0%Z)) as [->|]; [done|].
    pose proof (Z.log2_spec a ltac:(lia)). pose proof (Z.log2_nonneg a).
    rewrite Nat2Z.inj_succ, Z2Nat.id by lia. lia.
  - by apply digits_aux_chars.
  - cbn [digits_aux]. destruct (a <? 10)%Z; [done|]. intros E.
    destruct (digits_aux_chars (Z.to_nat (Z.log2 a)) (a / 10) [(48 + a mod 10)%Z]) as [_ H].
    + apply Z.div_pos; lia.
    + constructor; [|done]. pose proof (Z.mod_pos_bound a 10 ltac:(lia)). lia.
    + rewrite E in H. simpl in H. lia.
Qed.

Lemma FormatInt_inj a b : FormatInt a = FormatInt b -> a = b.
Proof.
  unfold FormatInt. cbv zeta. fold (digits (Z.abs a)) (digits (Z.abs b)).
  destruct (digits_spec (Z.abs a) ltac:(lia)) as (Da & Fa & Na). destruct (digits_spec (Z.abs b) ltac:(lia)) as (Db & Fb & Nb).
  destruct (Z.ltb_spec a 0), (Z.ltb_spec b 0); intros E.
  - injection E as E. rewrite E in Da. lia.
  - rewrite <- E in Fb. inversion_clear Fb. lia.
  - rewrite E in Fa. inversion_clear Fa. lia.
  - rewrite E in Da. lia.
Qed.

Lemma FormatInt_nonnil a : FormatInt a <> [].
Proof.
  unfold FormatInt. cbv zeta. fold (digits (Z.abs a)).
  destruct (digits_spec (Z.abs a) ltac:(lia)) as (_ & _ & Na). by destruct (a <? 0)%Z.
Qed.

Lemma toID_inj a b : toID a = toID b -> a = b.
Proof.
  unfold toID. destruct (Z.eqb_spec a 0) as [->|Ha], (Z.eqb_spec b 0) as [->|Hb]; [done|..].
  - intros E. symmetry in E. by apply FormatInt_nonnil in E.
  - intros E. by apply FormatInt_nonnil in E.
  - apply FormatInt_inj.
Qed.

#[global] Instance toID_injective : Inj (=) (=) toID.
Proof. intros a b. apply toID_inj. Qed.

Lemma num_chunks_range k : (Z.of_nat k < 2 ^ 39)%Z -> (0 < num_chunks k < 2 ^ 31)%Z.
Proof.
  intros H. unfold num_chunks, resultsPerResultChunk.
  assert (Z.of_nat k / 512 < 2 ^ 31)%Z; [|lia]. apply Z.div_lt_upper_bound; lia.
Qed.

(** ** Documents *)

(** The entry of [z] is what [f] says. *)
Definition holds {V} (f : Z -> V) (m : gmap gostring V) (z : Z) : Prop := m !! toID z = Some (f z).

Lemma holds_insert {V} (f : Z -> V) (m : gmap gostring V) z z' : holds f m z -> holds f (<[toID z' := f z']> m) z.
Proof.
  unfold holds. intros H. destruct (decide (z = z')) as [->|Hne]; [by rewrite lookup_insert_eq|].
  rewrite lookup_insert_ne; [done|]. intros E. by apply toID_inj in E.
Qed.

Lemma holds_here {V} (f : Z -> V) (m : gmap gostring V) z : holds f (<[toID z := f z]> m) z.
Proof. apply lookup_insert_eq. Qed.

Lemma toID_nonnil z : z <> 0%Z -> toID z <> [].
Proof. intros H E. by apply (toID_inj z 0) in E. Qed.

(** The rows sent on a channel, as a map. *)
Definition insert_all {K V} `{Countable K} (rows : list (K * V)) : gmap K V := fold_left (fun m e => <[e.1 := e.2]> m) rows ∅.

Lemma insert_all_snoc {K V} `{Countable K} (rows : list (K * V)) k v : insert_all (rows ++ [(k, v)]) = <[k := v]> (insert_all rows).
Proof. unfold insert_all. by rewrite fold_left_app. Qed.

(** The definition, reference or implementation result [id]. *)
Definition result_of (s : State) (id : Z) (sm : DefaultIDSetMap) : Prop :=
  DefinitionData s !! id = Some sm \/ ReferenceData s !! id = Some sm \/ ImplementationData s !! id = Some sm.

(** What grouping needs of a state to return. *)
Record groupable (s : State) : Prop := {
  gr_monikers : wf_map (Monikers s);
  gr_contains : wf_map (Contains s);
  gr_diagnostics : wf_map (Diagnostics s);
  gr_results id sm : result_of s id sm -> wf_map sm;
  gr_known id r : RangeData s !! id = Some r ->
    (r_DefinitionResultID r <> 0%Z -> knows (DefinitionData s) (r_DefinitionResultID r)) /\
    (r_ReferenceResultID r <> 0%Z -> knows (ReferenceData s) (r_ReferenceResultID r));
  gr_exported : wf_set (ExportedMonikers s);
  gr_imported : wf_set (ImportedMonikers s);
  gr_implemented : wf_set (ImplementedMonikers s)
}.

Lemma state_ok_groupable s : state_ok s -> groupable s.
Proof.
  intros Hok. split; [apply (ok_monikers _ Hok)|apply (ok_contains _ Hok)|apply (ok_diagnostics _ Hok)| | |
    apply (ok_exported _ Hok)|apply (ok_imported _ Hok)|apply (ok_implemented _ Hok)].
  2: { intros id r Hr. destruct (ok_ranges _ Hok id r Hr) as (? & ? & _). done. }
  intros id sm [H|[H|H]]; [apply (ok_definitions _ Hok _ _ H)|apply (ok_references _ Hok _ _ H)|apply (ok_implementations _ Hok _ _ H)].
Qed.

Section Documents.
Context {G : GoRuntime} (n : nat) (s : State) (Hok : groupable s).

Definition range_at (x : Z) : Range := default zeroRange (RangeData s !! x).
Definition moniker_at (x : Z) : Moniker := default zeroMoniker (MonikerData s !! x).
Definition monikers_of (x : Z) : list Z := match SetMap.EachID n (Monikers s) x with Done l => l | _ => [] end.

Definition range_row (x : Z) : precise_RangeData := precise_range (range_at x) (map toID (monikers_of x)).
Definition hover_row (h : Z) : gostring := default [] (HoverData s !! h).
Definition moniker_row (m : Z) : precise_MonikerData :=
  MkPMoniker (Kind (moniker_at m)) (Scheme (moniker_at m)) (Identifier (moniker_at m)) (toID (PackageInformationID (moniker_at m))).
Definition package_row (p : Z) : PackageInformationData_ :=
  let info := default zeroPackage (PackageInformationData s !! p) in MkPPackageInformation [] (p_Name info) (p_Version info).

Lemma monikers_of_spec x : SetMap.EachID n (Monikers s) x = Done (monikers_of x) /\
  monikers_of x ≡ₚ elements (default ∅ (sets (Monikers s) !! x)).
Proof.
  unfold monikers_of. destruct (EachID_spec n (Monikers s) x) as (l & -> & Hl); [apply (gr_monikers _ Hok)|done].
Qed.

Record moniker_rows_ok (ids : list Z) (doc : precise_DocumentData) : Prop := {
  mr_monikers m : m ∈ ids -> holds moniker_row (doc_Monikers doc) m;
  mr_packages m : m ∈ ids -> PackageInformationID (moniker_at m) <> 0%Z ->
    holds package_row (doc_PackageInformation doc) (PackageInformationID (moniker_at m));
  mr_zero : doc_PackageInformation doc !! [] = None
}.

Lemma document_Moniker_spec ids done_ doc :
  moniker_rows_ok done_ doc ->
  let doc' := fold_left (document_Moniker s) ids doc in
  moniker_rows_ok (done_ ++ ids) doc' /\ doc_Ranges doc' = doc_Ranges doc /\ doc_HoverResults doc' = doc_HoverResults doc.
Proof.
  revert done_ doc. induction ids as [|m ids IH]; intros done_ doc Hi; [by rewrite app_nil_r|]. cbn [fold_left].
  assert (moniker_rows_ok (done_ ++ [m]) (document_Moniker s doc m)) as Hi'.
  { unfold document_Moniker. fold (moniker_at m). fold (moniker_row m). split; simpl.
    - intros k [Hk| ->%list_elem_of_singleton]%elem_of_app; [apply holds_insert; by apply (mr_monikers _ _ Hi)|apply holds_here].
    - destruct (Z.eqb_spec (PackageInformationID (moniker_at m)) 0) as [E|Hne]; simpl.
      + intros k [Hk| ->%list_elem_of_singleton]%elem_of_app; [by apply (mr_packages _ _ Hi)|done].
      + fold (package_row (PackageInformationID (moniker_at m))).
        intros k [Hk| ->%list_elem_of_singleton]%elem_of_app Hk0;
          [apply holds_insert; by apply (mr_packages _ _ Hi)|apply holds_here].
    - destruct (Z.eqb_spec (PackageInformationID (moniker_at m)) 0) as [E|Hne]; simpl; [apply (mr_zero _ _ Hi)|].
      rewrite lookup_insert_ne by (by apply toID_nonnil). apply (mr_zero _ _ Hi). }
  destruct (IH _ _ Hi') as (H1 & H2 & H3). rewrite <- app_assoc in H1. split_and!; [done|by rewrite H2|by rewrite H3].
Qed.

(** The rows of the ranges [l]. *)
Record rows_ok (l : list Z) (doc : precise_DocumentData) : Prop := {
  rw_ranges x : x ∈ l -> holds range_row (doc_Ranges doc) x;
  rw_ranges_only k r : doc_Ranges doc !! k = Some r -> exists x, x ∈ l /\ k = toID x;
  rw_hovers x : x ∈ l -> r_HoverResultID (range_at x) <> 0%Z -> holds hover_row (doc_HoverResults doc) (r_HoverResultID (range_at x));
  rw_hover_zero : doc_HoverResults doc !! [] = None;
  rw_monikers : exists ids, moniker_rows_ok ids doc /\ forall x m, x ∈ l -> m ∈ monikers_of x -> m ∈ ids
}.

Lemma document_Range_spec l doc x : rows_ok l doc -> returns (document_Range n s doc x) (rows_ok (l ++ [x])).
Proof.
  intros Hi. unfold document_Range. rewrite NumIDsForKey_spec by apply (gr_monikers _ Hok). cbn [run_bind].
  destruct (monikers_of_spec x) as [-> _]. cbn [run_bind]. apply returns_done.
  destruct (rw_monikers _ _ Hi) as (ids & Hm & Hids).
  destruct (document_Moniker_spec (monikers_of x) ids doc Hm) as (Hm' & Er & Eh).
  set (doc' := fold_left _ _ _) in *. fold (range_at x). split; simpl.
  - rewrite Er. fold (range_row x).
    intros y [Hy| ->%list_elem_of_singleton]%elem_of_app; [apply holds_insert; by apply (rw_ranges _ _ Hi)|apply holds_here].
  - rewrite Er. setoid_rewrite elem_of_app. setoid_rewrite list_elem_of_singleton.
    intros k r [[<- _]|[_ Hk]]%lookup_insert_Some; [exists x; auto|].
    destruct (rw_ranges_only _ _ Hi _ _ Hk) as (y & Hy & ->). exists y. auto.
  - rewrite Eh. destruct (Z.eqb_spec (r_HoverResultID (range_at x)) 0) as [E|Hne]; simpl.
    + intros y [Hy| ->%list_elem_of_singleton]%elem_of_app; [by apply (rw_hovers _ _ Hi)|done].
    + fold (hover_row (r_HoverResultID (range_at x))). intros y [Hy| ->%list_elem_of_singleton]%elem_of_app Hy0;
        [apply holds_insert; by apply (rw_hovers _ _ Hi)|apply holds_here].
  - rewrite Eh. destruct (Z.eqb_spec (r_HoverResultID (range_at x)) 0) as [E|Hne]; simpl; [apply (rw_hover_zero _ _ Hi)|].
    rewrite lookup_insert_ne by (by apply toID_nonnil). apply (rw_hover_zero _ _ Hi).
  - exists (ids ++ monikers_of x). split.
    + destruct Hm' as [H1 H2 H3]. split; done.
    + intros y m [Hy| ->%list_elem_of_singleton]%elem_of_app Hmy; apply elem_of_app; [left; by eapply Hids|by right].
Qed.

Lemma serializeDocument_spec d :
  returns (serializeDocument n s d) (fun doc => exists l, rows_ok l doc /\ NoDup l /\ forall x, x ∈ l <-> linked_to (sets (Contains s)) d x).
Proof.
  unfold serializeDocument. rewrite !NumIDsForKey_spec by (apply (gr_contains _ Hok) || apply (gr_diagnostics _ Hok)).
  cbn [run_bind]. destruct (EachID_spec n (Contains s) d) as (l & -> & Hl); [apply (gr_contains _ Hok)|]. cbn [run_bind].
  eapply returns_bind, returns_mono; [apply (run_fold_inv _ (fun l1 => rows_ok l1))|].
  - split; [by intros x ?%not_elem_of_nil|intros k r E; by apply (lookup_empty_Some k r) in E|by intros x ?%not_elem_of_nil|done|]. exists []. split; [|by intros ? ? ?%not_elem_of_nil].
    split; [by intros x ?%not_elem_of_nil|by intros x ?%not_elem_of_nil|done].
  - intros l1 x l2 doc _ Hi. by apply document_Range_spec.
  - intros doc Hi. destruct (EachID_spec n (Diagnostics s) d) as (ds & -> & _); [apply (gr_diagnostics _ Hok)|]. cbn [run_bind].
    apply returns_done. exists l. split_and!.
    + destruct Hi as [H1 H0 H2 H3 (ids & [M1 M2 M3] & H4)]. split; [done|done|done|done|]. exists ids. by split.
    + rewrite Hl. apply NoDup_elements.
    + intros x. unfold linked_to. by rewrite Hl, elem_of_elements.
Qed.

Definition document_ok (d : Z) (doc : precise_DocumentData) : Prop :=
  exists l, rows_ok l doc /\ NoDup l /\ forall x, x ∈ l <-> linked_to (sets (Contains s)) d x.

(** The documents of a bundle: those of the state under the root. *)
Record documents_ok (docs : gmap gostring precise_DocumentData) : Prop := {
  do_present d uri : DocumentData s !! d = Some uri -> HasPrefix uri (str "..") = false ->
    exists doc, docs !! uri = Some doc /\ document_ok d doc;
  do_only uri : is_Some (docs !! uri) -> exists d, DocumentData s !! d = Some uri /\ HasPrefix uri (str "..") = false
}.

Lemma serializeBundleDocuments_spec :
  (forall d d' uri, DocumentData s !! d = Some uri -> DocumentData s !! d' = Some uri -> d = d') ->
  returns (serializeBundleDocuments n s) (fun rows => documents_ok (insert_all rows)).
Proof.
  intros Hinj. unfold serializeBundleDocuments.
  eapply returns_mono; [apply (run_fold_inv _ (fun l1 rows =>
    (forall d uri, (d, uri) ∈ l1 -> HasPrefix uri (str "..") = false -> exists doc, insert_all rows !! uri = Some doc /\ document_ok d doc) /\
    (forall uri, is_Some (insert_all rows !! uri) -> exists d, (d, uri) ∈ l1 /\ HasPrefix uri (str "..") = false)))|].
  - split; [by intros d uri ?%not_elem_of_nil|by intros uri []].
  - intros l1 [d0 uri0] l2 rows E [Hi1 Hi2]. cbn [fst snd].
    assert (forall d uri, (d, uri) ∈ l1 ++ [(d0, uri0)] <-> (d, uri) ∈ l1 \/ (d = d0 /\ uri = uri0)) as Hin.
    { intros d uri. rewrite elem_of_app, list_elem_of_singleton. intuition congruence. }
    assert (forall d uri, (d, uri) ∈ l1 ++ [(d0, uri0)] -> DocumentData s !! d = Some uri) as Hdoc.
    { intros d uri H. apply (elem_of_map_range n). rewrite E. rewrite cons_middle, app_assoc. apply elem_of_app. by left. }
    destruct (HasPrefix uri0 (str "..")) eqn:Eu.
    { apply returns_done. split; setoid_rewrite Hin; [intros d uri [?|[-> ->]] Hu; [by apply Hi1|congruence]|naive_solver]. }
    run_step (serializeDocument_spec d0). intros doc Hd0. apply returns_done. rewrite insert_all_snoc. split.
    + intros d uri Hd Hu. destruct (decide (uri = uri0)) as [->|Hne].
      * rewrite lookup_insert_eq. exists doc. split; [done|]. rewrite (Hinj d d0 uri0); [done|by apply Hdoc|].
        apply Hdoc, Hin. by right.
      * rewrite lookup_insert_ne by done. apply Hin in Hd as [?|[_ ?]]; [by apply Hi1|done].
    + setoid_rewrite Hin. intros uri. destruct (decide (uri = uri0)) as [->|Hne]; [intros _; exists d0; auto|].
      rewrite lookup_insert_ne by done. intros (d & ? & ?)%Hi2. exists d. auto.
  - intros rows [Hi1 Hi2]. split.
    + intros d uri Hd Hu. apply Hi1; [by apply elem_of_map_range|done].
    + intros uri (d & Hd%elem_of_map_range & Hu)%Hi2. by exists d.
Qed.
End Documents.
