(* ===== verification/GroupMonikers.v ===== *)
(** Moniker locations: the rows of [gatherMonikersLocations] are the locations of
    the results that carry a moniker, grouped by kind, scheme and identifier. *)
From stdpp Require Import sorting.
From S2P Require Import Prelude GoStr GoLib GoMap IdSets IdSetFacts Lsif LsifFacts CanonDocuments CanonChains Precise PreciseFacts.
From S2P Require Import Group GroupFacts.

(** Result chunks: every result is in the chunk that its identifier hashes to,
    with its locations in reading order. *)

(** ** Reading order *)

Abbreviation position_key := (gostring * (Z * Z))%type (only parsing).

(** By path, then by line, then by character. *)
Definition less_key (a b : position_key) : bool :=
  if negb (gs_eqb a.1 b.1) then gs_ltb a.1 b.1
  else if negb (a.2.1 =? b.2.1)%Z then (a.2.1 <? b.2.1)%Z else (a.2.2 <? b.2.2)%Z.

Lemma less_key_iff a b : less_key a b = true <->
  gs_ltb a.1 b.1 = true \/ a.1 = b.1 /\ (a.2.1 < b.2.1 \/ a.2.1 = b.2.1 /\ a.2.2 < b.2.2)%Z.
Proof.
  unfold less_key. destruct (gs_eqb a.1 b.1) eqn:E; simpl.
  - apply gs_eqb_eq in E. rewrite E, gs_ltb_irrefl. destruct (Z.eqb_spec a.2.1 b.2.1); simpl; rewrite Z.ltb_lt; intuition lia.
  - apply gs_eqb_false in E. intuition congruence.
Qed.

#[export] Instance less_key_strict_weak : StrictWeak less_key.
Proof.
  assert (forall a b c, less_key a b = true -> less_key b c = true -> less_key a c = true) as Ht.
  { intros a b c. rewrite !less_key_iff. intros [H1|[E1 H1]] [H2|[E2 H2]].
    - left. by eapply gs_ltb_trans.
    - left. by rewrite <- E2.
    - left. by rewrite E1.
    - right. split; [congruence|lia]. }
  assert (forall a b, a = b \/ less_key a b = true \/ less_key b a = true) as Htot.
  { intros [p [l c]] [p' [l' c']]. rewrite !less_key_iff. simpl.
    destruct (gs_ltb_total p p') as [->|[?|?]]; [|auto..].
    destruct (Z.lt_trichotomy l l') as [?|[->|?]]; [intuition auto| |intuition auto].
    destruct (Z.lt_trichotomy c c') as [?|[->|?]]; intuition auto. }
  split; [|exact Ht|].
  - intros a. apply not_true_iff_false. rewrite less_key_iff, gs_ltb_irrefl. intuition (done || lia).
  - intros a b c H1 H2. apply not_true_iff_false. intros H3. destruct (Htot a b) as [->|[H|H]]; [congruence..|].
    rewrite (Ht b a c) in H2; done.
Qed.

(** The comparisons of paths in the source are [<=] of different paths. *)
Lemma path_le a b : gs_eqb a b = false -> negb (gs_ltb b a) = gs_ltb a b.
Proof.
  intros E%gs_eqb_false. destruct (gs_ltb_total a b) as [?|[H|H]]; [done|..]; rewrite H.
  - destruct (gs_ltb b a) eqn:E'; [|done]. pose proof (gs_ltb_trans _ _ _ H E') as Hi. by rewrite gs_ltb_irrefl in Hi.
  - destruct (gs_ltb a b) eqn:E'; [|done]. pose proof (gs_ltb_trans _ _ _ H E') as Hi. by rewrite gs_ltb_irrefl in Hi.
Qed.

(** Coordinates whose differences do not overflow. *)
Definition small_position (p : Pos) : Prop := (0 <= Line p < 2 ^ 62)%Z /\ (0 <= Character p < 2 ^ 62)%Z.

Definition position_of (uri : gostring) (p : Pos) : position_key := (uri, (Line p, Character p)).

(** ** The locations of a result *)

Lemma NoDup_keyed_pairs {A B} (f : A -> list B) (l : list (Z * A)) :
  NoDup l.*1 -> (forall e, e ∈ l -> NoDup (f e.2)) -> NoDup (concat (map (fun e => map (fun x => (e.1, x)) (f e.2)) l)).
Proof.
  induction l as [|[k a] l IH]; intros Hn Hf; cbn [map concat]; [constructor|]. inversion_clear Hn as [|? ? Hk Hn'].
  apply NoDup_app. split_and!.
  - apply (NoDup_fmap_2 _). by apply (Hf (k, a)); left.
  - intros [k' x] (x' & [= -> ->] & _)%list_elem_of_fmap Hin. apply Hk.
    apply list_elem_of_In, in_concat in Hin as (r & (e & <- & He)%in_map_iff & (y & [= <- ->] & _)%in_map_iff).
    apply list_elem_of_fmap. exists e. split; [done|]. by apply list_elem_of_In.
  - apply IH; [done|]. intros e He. apply Hf. by right.
Qed.

Lemma ascending_map {A B} (f : A -> B) (less : B -> B -> bool) (less' : A -> A -> bool) (l : list A) :
  (forall a b, a ∈ l -> b ∈ l -> less (f a) (f b) = less' a b) -> ascending less (map f l) <-> ascending less' l.
Proof.
  unfold ascending. intros He. induction l as [|x l IH]; [split; constructor|]. cbn [map].
  assert (Forall (fun b => less b (f x) = false) (map f l) <-> Forall (fun a => less' a x = false) l) as Hf.
  { rewrite Forall_map, !Forall_forall. split; intros H y Hy; [rewrite <- He|rewrite He]; try (by apply H); (by right) || (by left). }
  assert (forall a b, a ∈ l -> b ∈ l -> less (f a) (f b) = less' a b) as He' by (intros; apply He; by right).
  split; intros H; inversion_clear H; constructor; try (by apply Hf); by apply IH.
Qed.

Section Pairs.
Context {G : GoRuntime} (n : nat).

Definition pairs_of (documents : list (Z * IDSet)) : list (Z * Z) :=
  concat (map (fun e => map (fun rangeID => (e.1, rangeID)) (IDSet.Each n e.2)) documents).

Lemma pairs_of_spec sm documents : wf_map sm -> documents ≡ₚ map_to_list (contents sm) ->
  NoDup (pairs_of documents) /\ forall p, p ∈ pairs_of documents <-> linked_to (sets sm) p.1 p.2.
Proof.
  intros Hw Hl.
  assert (forall e, e ∈ documents <-> contents sm !! e.1 = Some e.2) as He.
  { intros [k v]. by rewrite Hl, elem_of_map_to_list. }
  split.
  - apply NoDup_keyed_pairs.
    + rewrite Hl. apply NoDup_fst_map_to_list.
    + intros e Hin%He. destruct (wf_entries _ Hw _ _ Hin) as [Hs _]. rewrite set_Each_perm by done. apply NoDup_elements.
  - intros [d x]. unfold pairs_of, linked_to, sets. rewrite lookup_fmap. rewrite list_elem_of_In, in_concat. simpl. split.
    + intros (r & (e & <- & Hin)%in_map_iff & (y & [= <- ->] & Hx)%in_map_iff). apply list_elem_of_In, He in Hin.
      rewrite Hin. simpl. apply list_elem_of_In, elem_of_set_Each in Hx; [done|]. by apply (wf_entries _ Hw _ _ Hin).
    + destruct (contents sm !! d) as [v|] eqn:E; simpl; [|set_solver]. intros Hx.
      exists (map (fun rangeID => (d, rangeID)) (IDSet.Each n v)). split.
      * apply in_map_iff. exists (d, v). split; [done|]. by apply list_elem_of_In, He.
      * apply in_map_iff. exists x. split; [done|]. apply list_elem_of_In, elem_of_set_Each; [|done].
        by apply (wf_entries _ Hw d).
Qed.
End Pairs.

Section Chunks.
Context {G : GoRuntime} (n : nat) (s : State) (Hok : groupable s).
Context (Hsmall : forall x, small_position (Start (r_Data (range_at s x)))).

Definition document_at (d : Z) : gostring := default [] (DocumentData s !! d).
Definition pair_row (p : Z * Z) : DocumentIDRangeID := MkDocumentIDRangeID (toID p.1) (toID p.2).
Definition pair_key (p : Z * Z) : position_key := position_of (document_at p.1) (Start (r_Data (range_at s p.2))).

(** The locations of a result, without repetitions and in reading order. *)
Record reading_order (sm : DefaultIDSetMap) (ps : list (Z * Z)) : Prop := {
  ro_nodup : NoDup ps;
  ro_elem p : p ∈ ps <-> linked_to (sets sm) p.1 p.2;
  ro_sorted : ascending (fun a b => less_key (pair_key a) (pair_key b)) ps
}.

Lemma less_document_range_key paths ids a b :
  let key x := position_of (default [] (paths !! dr_DocumentID x)) (Start (r_Data (range_at s (default 0%Z (ids !! dr_RangeID x))))) in
  less_document_range s paths ids a b = less_key (key a) (key b).
Proof.
  intros key. unfold less_document_range. cbv zeta. fold (range_at s (default 0%Z (ids !! dr_RangeID a))).
  fold (range_at s (default 0%Z (ids !! dr_RangeID b))). unfold less_key, key, position_of. cbn [fst snd].
  destruct (Hsmall (default 0%Z (ids !! dr_RangeID a))) as [L1 C1]. destruct (Hsmall (default 0%Z (ids !! dr_RangeID b))) as [L2 C2].
  generalize dependent (Start (r_Data (range_at s (default 0%Z (ids !! dr_RangeID a))))). intros pa L1 C1.
  generalize dependent (Start (r_Data (range_at s (default 0%Z (ids !! dr_RangeID b))))). intros pb L2 C2.
  destruct (gs_eqb _ _) eqn:E; cbn [negb]; [|by apply path_le].
  rewrite !wrap64_small by lia. destruct (Z.eqb_spec (Line pa) (Line pb)), (Z.eqb_spec (Line pa - Line pb) 0); cbn [negb]; try lia;
    apply eq_true_iff_eq; rewrite !Z.ltb_lt; lia.
Qed.

Lemma less_document_range_strict paths ids : StrictWeak (less_document_range s paths ids).
Proof. eapply strict_weak_on; [intros a b; apply less_document_range_key|apply less_key_strict_weak]. Qed.

(** The rows of the results [l], in any order. *)
Record chunk_ok (l : list (Z * DefaultIDSetMap)) (chunk : ResultChunkData) : Prop := {
  ck_paths id sm d x : (id, sm) ∈ l -> linked_to (sets sm) d x -> holds document_at (ch_DocumentPaths chunk) d;
  ck_rows id sm : (id, sm) ∈ l -> exists ps, reading_order sm ps /\ ch_DocumentIDRangeIDs chunk !! toID id = Some (map pair_row ps);
  ck_none id : id ∉ l.*1 -> ch_DocumentIDRangeIDs chunk !! toID id = None
}.

Lemma fold_holds {X V} (f : Z -> V) (key : X -> Z) (l : list X) (m : gmap gostring V) z :
  holds f m z \/ z ∈ map key l -> holds f (fold_left (fun m e => <[toID (key e) := f (key e)]> m) l m) z.
Proof.
  revert m. induction l as [|e l IH]; intros m; cbn [fold_left map]; [intros [?|?%not_elem_of_nil]; done|].
  intros [H|[->|H]%elem_of_cons]; apply IH; [left; by apply holds_insert|left; apply holds_here|by right].
Qed.

(** The locations that are written for one result. *)
Lemma sorted_pairs_spec (sm : DefaultIDSetMap) (documents : list (Z * IDSet)) (paths : gmap gostring gostring) :
  let pairs := pairs_of n documents in
  let ids := fold_left (fun m p => <[toID p.2 := p.2]> m) pairs (∅ : gmap gostring Z) in
  wf_map sm -> documents ≡ₚ map_to_list (contents sm) ->
  (forall d x, (d, x) ∈ pairs -> holds document_at paths d) ->
  exists ps, reading_order sm ps /\ sort_slice (less_document_range s paths ids) (map pair_row pairs) = map pair_row ps.
Proof.
  intros pairs ids Hw Hl Hp. destruct (pairs_of_spec n sm documents Hw Hl) as [Hn He]. fold pairs in Hn, He.
  destruct (Permutation_map_inv pair_row _ (sort_slice_perm (less_document_range s paths ids) (map pair_row pairs))) as (ps & E & Hps).
  exists ps. split; [|done]. split; [by rewrite <- Hps|intros p; by rewrite <- Hps, He|].
  eapply (ascending_map pair_row); [|rewrite <- E; apply sort_slice_ascending, less_document_range_strict].
  assert (forall p, p ∈ ps -> position_of (default [] (paths !! toID p.1)) (Start (r_Data (range_at s (default 0%Z (ids !! toID p.2))))) =
    pair_key p) as Hk.
  { intros [d x] Hin. rewrite <- Hps in Hin. unfold pair_key. cbn [fst snd]. rewrite (Hp d x Hin).
    assert (holds id ids x) as ->; [|done]. apply (fold_holds id snd). right. apply list_elem_of_In, in_map_iff.
    exists (d, x). split; [done|]. by apply list_elem_of_In. }
  intros a b Ha Hb. rewrite less_document_range_key. cbn [dr_DocumentID dr_RangeID pair_row]. by rewrite !Hk.
Qed.

Lemma chunk_entry_spec l chunk id sm : wf_map sm -> id ∉ l.*1 -> chunk_ok l chunk ->
  returns (chunk_entry n s chunk (id, sm)) (chunk_ok (l ++ [(id, sm)])).
Proof.
  intros Hw Hid Hc. unfold chunk_entry. cbn [fst snd]. destruct (map_Each_spec n sm Hw) as (documents & -> & Hl). cbn [run_bind].
  apply returns_done. cbv zeta. fold (pairs_of n documents). set (paths := fold_left _ documents _).
  assert (forall d, holds document_at (ch_DocumentPaths chunk) d \/ d ∈ documents.*1 -> holds document_at paths d) as Hpaths.
  { intros d. apply (fold_holds document_at fst). }
  assert (forall d x, (d, x) ∈ pairs_of n documents -> holds document_at paths d) as Hpairs.
  { intros d x (r & (e & <- & Hin)%in_map_iff & (y & [= <- ->] & Hx)%in_map_iff)%list_elem_of_In%in_concat.
    apply Hpaths. right. apply list_elem_of_In, in_map. done. }
  destruct (sorted_pairs_spec sm documents paths Hw Hl Hpairs) as (ps & Hps & E). fold pair_row. split; cbn [ch_DocumentPaths ch_DocumentIDRangeIDs].
  - intros id' sm' d x [Hin|[= -> ->]%list_elem_of_singleton]%elem_of_app Hx.
    + apply Hpaths. left. by eapply (ck_paths _ _ Hc).
    + apply (Hpairs d x). by apply (pairs_of_spec n sm documents Hw Hl).
  - intros id' sm' [Hin|[= -> ->]%list_elem_of_singleton]%elem_of_app.
    + rewrite lookup_insert_ne; [by apply (ck_rows _ _ Hc)|]. intros ->%toID_inj. apply Hid, list_elem_of_fmap. by exists (id', sm').
    + exists ps. split; [done|]. by rewrite lookup_insert_eq, <- E.
  - intros id'. rewrite fmap_app, elem_of_app. simpl. rewrite list_elem_of_singleton. intros Hno.
    rewrite lookup_insert_ne; [apply (ck_none _ _ Hc); tauto|]. intros ->%toID_inj. tauto.
Qed.

Lemma chunk_ok_nil : chunk_ok [] zeroChunk.
Proof. split; [by intros ? ? ? ? ?%not_elem_of_nil|by intros ? ? ?%not_elem_of_nil|done]. Qed.

(** ** The assignment of results to chunks *)

Definition chunk_of (num id : Z) : Z := match HashKey (toID id) num with Done i => i | _ => 0%Z end.

(** The results of chunk [i]. *)
Definition assigned (num i : Z) (l : list (Z * DefaultIDSetMap)) : list (Z * DefaultIDSetMap) :=
  List.filter (fun e => (chunk_of num e.1 =? i)%Z) l.

Lemma elem_of_assigned num i l e : e ∈ assigned num i l <-> e ∈ l /\ chunk_of num e.1 = i.
Proof. unfold assigned. by rewrite !list_elem_of_In, filter_In, Z.eqb_eq. Qed.

Lemma HashKey_chunk_of num id : (0 < num < 2 ^ 31)%Z -> HashKey (toID id) num = Done (chunk_of num id).
Proof. intros H. unfold chunk_of. by destruct (HashKey_spec (toID id) num H) as (i & -> & _). Qed.

Lemma assign_chunks_spec num l : (0 < num < 2 ^ 31)%Z ->
  returns (run_fold (assign_chunk num) l ∅) (fun m => forall i, default [] (m !! i) = assigned num i l).
Proof.
  intros Hnum. apply (run_fold_inv _ (fun l1 m => forall i, default [] (m !! i) = assigned num i l1)); [done|].
  intros l1 [id sm] l2 m _ Hm. unfold assign_chunk. cbn [fst]. rewrite HashKey_chunk_of by done. apply returns_done.
  intros i. unfold assigned. rewrite List.filter_app. cbn [List.filter fst]. destruct (Z.eqb_spec (chunk_of num id) i) as [<-|Hne].
  - rewrite lookup_insert_eq. simpl. by rewrite Hm.
  - rewrite lookup_insert_ne by done. rewrite Hm. by rewrite app_nil_r.
Qed.

Lemma NoDup_assigned num i (l : list (Z * DefaultIDSetMap)) : NoDup l.*1 -> NoDup (assigned num i l).*1.
Proof.
  unfold assigned. induction l as [|e l IH]; intros H; cbn; [constructor|]. inversion_clear H as [|? ? Hk Hn].
  destruct (chunk_of num e.1 =? i)%Z; [|by apply IH]. cbn. constructor; [|by apply IH].
  intros (e' & E & [Hin _]%elem_of_assigned)%list_elem_of_fmap. apply Hk. rewrite E.
  apply list_elem_of_fmap. by exists e'.
Qed.

Lemma chunk_entries_spec l : NoDup l.*1 -> (forall id sm, (id, sm) ∈ l -> wf_map sm) ->
  returns (run_fold (chunk_entry n s) l zeroChunk) (chunk_ok l).
Proof.
  intros Hn Hw. apply run_fold_inv; [apply chunk_ok_nil|]. intros l1 [id sm] l2 chunk -> Hc.
  apply chunk_entry_spec; [|by rewrite fmap_app in Hn; apply NoDup_app in Hn as (_ & Hd & _); intros Hin; apply (Hd id Hin); left|done].
  apply (Hw id sm). apply elem_of_app. right. by left.
Qed.

Lemma result_entries_elem id sm : (id, sm) ∈ result_entries n s <-> result_of s id sm.
Proof. unfold result_entries, result_of. by rewrite !elem_of_app, !elem_of_map_range. Qed.

Lemma serializeResultChunks_spec num : (0 < num < 2 ^ 31)%Z -> NoDup (result_entries n s).*1 ->
  returns (serializeResultChunks n s num) (fun rows =>
    forall i, chunk_ok (assigned num i (result_entries n s)) (default zeroChunk (insert_all rows !! i))).
Proof.
  intros Hnum Hn. unfold serializeResultChunks. run_step (assign_chunks_spec num (result_entries n s) Hnum). intros m Hm.
  assert (forall i es, m !! i = Some es -> es = assigned num i (result_entries n s)) as Hes.
  { intros i es E. specialize (Hm i). by rewrite E in Hm. }
  eapply returns_mono; [apply (run_fold_inv _ (fun l1 rows => forall i,
    (i ∈ l1.*1 -> chunk_ok (assigned num i (result_entries n s)) (default zeroChunk (insert_all rows !! i))) /\
    (i ∉ l1.*1 -> insert_all rows !! i = None)))|].
  - intros i. split; [by intros ?%not_elem_of_nil|done].
  - intros l1 [j es] l2 rows E Hi. cbn [fst snd].
    assert (m !! j = Some es) as Hj by (apply (elem_of_map_range n); rewrite E; apply elem_of_app; right; by left).
    assert (j ∉ l1.*1) as Hnew.
    { pose proof (NoDup_map_range_keys n m) as Hk. rewrite E, fmap_app in Hk. apply NoDup_app in Hk as (_ & Hd & _).
      intros Hin. apply (Hd j Hin). by left. }
    assert (forall i, i ∈ (l1 ++ [(j, es)]).*1 <-> i ∈ l1.*1 \/ i = j) as Hin.
    { intros i. rewrite fmap_app, elem_of_app. simpl. by rewrite list_elem_of_singleton. }
    apply Hes in Hj as ->.
    destruct (Nat.eqb_spec (length (assigned num j (result_entries n s))) 0) as [E0|_].
    + apply returns_done. intros i. rewrite Hin. split; [|intros ?; apply Hi; tauto].
      intros [H| ->]; [by apply Hi|]. destruct (Hi j) as [_ ->]; [|done]. apply nil_length_inv in E0. rewrite E0. apply chunk_ok_nil.
    + run_step (chunk_entries_spec (assigned num j (result_entries n s)) (NoDup_assigned num j _ Hn)).
      { intros id sm [Hx _]%elem_of_assigned. by apply (gr_results _ Hok id), result_entries_elem. }
      intros chunk Hc. apply returns_done. intros i. rewrite insert_all_snoc, Hin. destruct (decide (i = j)) as [->|Hne].
      * rewrite lookup_insert_eq. split; [done|tauto].
      * rewrite lookup_insert_ne by done. split; [intros [H|?]; [by apply Hi|done]|intros ?; apply Hi; tauto].
  - intros rows Hi i. destruct (Hi i) as [H1 H2]. destruct (m !! i) as [es|] eqn:E.
    + apply H1, elem_of_map_range_keys. by exists es.
    + rewrite H2 by (rewrite elem_of_map_range_keys, E; by intros []).
      specialize (Hm i). rewrite E in Hm. simpl in Hm. rewrite <- Hm. apply chunk_ok_nil.
Qed.
End Chunks.

Lemma NoDup_concat_keyed {A B K} (h : A -> list B) (key : B -> K) (keyA : A -> K) (l : list A) :
  NoDup (map keyA l) -> (forall a, a ∈ l -> NoDup (h a)) -> (forall a b, b ∈ h a -> key b = keyA a) ->
  NoDup (concat (map h l)).
Proof.
  intros Hn Hh Hk. induction l as [|a l IH]; cbn [map concat] in *; [constructor|]. inversion_clear Hn as [|? ? Ha Hn'].
  apply NoDup_app. split_and!; [apply Hh; by left| |apply IH; [done|]; intros a' Ha'; apply Hh; by right].
  intros b Hb (r & (a' & <- & Ha')%in_map_iff & Hb')%list_elem_of_In%in_concat. apply Ha.
  apply list_elem_of_In in Hb'. rewrite <- (Hk a b Hb), (Hk a' b Hb'). by apply list_elem_of_In, in_map.
Qed.

Abbreviation IdMap := (gmap gostring (gmap gostring (gmap gostring (list Z)))).

(** The identifiers under a kind, a scheme and an identifier. *)
Definition lookup3 (m : IdMap) (k s i : gostring) : list Z :=
  default [] (default ∅ (default ∅ (m !! k) !! s) !! i).

Section Monikers.
Context {G : GoRuntime} (n : nat) (s : State) (Hok : groupable s).

Definition rows3 (m : IdMap) : list (gostring * gostring * gostring * list Z) :=
  concat (map (fun k => concat (map (fun s => map (fun i => (k.1, s.1, i.1, i.2))
    (map_range n s.2)) (map_range n k.2))) (map_range n m)).

Lemma rows3_elem m k sc i ids : (k, sc, i, ids) ∈ rows3 m -> ids = lookup3 m k sc i.
Proof.
  unfold rows3, lookup3.
  intros (r & ([k' a] & <- & Hk)%in_map_iff & (r' & ([s' b] & <- & Hs)%in_map_iff & ([i' l] & [= -> -> -> ->] & Hi)%in_map_iff)%in_concat)%list_elem_of_In%in_concat.
  apply list_elem_of_In, elem_of_map_range in Hk, Hs, Hi. cbn [fst snd] in *. rewrite Hk. simpl. rewrite Hs. simpl. by rewrite Hi.
Qed.

Lemma rows3_complete m k sc i : lookup3 m k sc i <> [] -> (k, sc, i, lookup3 m k sc i) ∈ rows3 m.
Proof.
  unfold rows3, lookup3. destruct (m !! k) as [a|] eqn:Ek; simpl; [|by rewrite lookup_empty].
  destruct (a !! sc) as [b|] eqn:Es; simpl; [|by rewrite lookup_empty].
  destruct (b !! i) as [l|] eqn:Ei; simpl; [|done]. intros _.
  apply list_elem_of_In, in_concat. eexists. split; [apply in_map_iff; exists (k, a); split; [reflexivity|by apply list_elem_of_In, elem_of_map_range]|].
  apply in_concat. eexists. split; [apply in_map_iff; exists (sc, b); split; [reflexivity|by apply list_elem_of_In, elem_of_map_range]|].
  apply in_map_iff. exists (i, l). split; [done|]. by apply list_elem_of_In, elem_of_map_range.
Qed.

Lemma rows3_NoDup m : NoDup (map fst (rows3 m)).
Proof.
  unfold rows3. rewrite concat_map, map_map. apply (NoDup_concat_keyed _ (fun b => b.1.1) fst); [apply NoDup_map_range_keys| |].
  - intros [k a] _. rewrite concat_map, map_map. apply (NoDup_concat_keyed _ (fun b => b.1.2) fst); [apply NoDup_map_range_keys| |].
    + intros [sc b] _. rewrite map_map. simpl.
      rewrite <- (map_map fst (fun i => (k, sc, i)) (map_range n b)). apply (NoDup_fmap_2 (fun i => (k, sc, i))), NoDup_map_range_keys.
    + intros [sc b] c Hc. rewrite map_map in Hc. by apply list_elem_of_In, in_map_iff in Hc as (e & <- & _).
  - intros [k a] c. rewrite concat_map, map_map.
    intros (r & (e & <- & _)%in_map_iff & Hc)%list_elem_of_In%in_concat. rewrite map_map in Hc. by apply in_map_iff in Hc as (e' & <- & _).
Qed.

(** The moniker [m] has this kind, scheme and identifier. *)
Definition named (m : Z) (k sc i : gostring) : Prop :=
  Kind (moniker_at s m) = k /\ Scheme (moniker_at s m) = sc /\ Identifier (moniker_at s m) = i.

#[local] Instance named_dec m k sc i : Decision (named m k sc i).
Proof. unfold named. apply _. Defined.

Section Gather.
Context (data : gmap Z DefaultIDSetMap) (Hdata : forall id sm, data !! id = Some sm -> wf_map sm).
Context (kinds : list gostring) (getResultID : Range -> Z).

(** A range whose result is [id] has the moniker [m]. *)
Definition carries (l : list (Z * Range)) (id m : Z) : Prop :=
  exists x r, (x, r) ∈ l /\ getResultID r = id /\ id <> 0%Z /\ linked_to (sets (Monikers s)) x m.

Lemma result_monikers_spec l :
  returns (run_fold (fun monikers entry =>
      let resultID := getResultID entry.2 in
      if negb (resultID =? 0)%Z then
        let! ids := SetMap.Get (Monikers s) entry.1 in
        SetMap.UnionIDSet n monikers resultID ids
      else Done monikers) l SetMap.NewDefaultIDSetMap)
    (fun sm => wf_map sm /\ forall id m, linked_to (sets sm) id m <-> carries l id m).
Proof.
  apply (run_fold_inv _ (fun l1 sm => wf_map sm /\ forall id m, linked_to (sets sm) id m <-> carries l1 id m)).
  { split; [apply wf_map_new|]. intros id m. unfold linked_to, sets, carries. cbn. rewrite fmap_empty, lookup_empty. simpl.
    split; [set_solver|]. by intros (x & r & ?%not_elem_of_nil & _). }
  intros l1 [x r] l2 sm _ [Hw Hi]. cbn [fst snd]. cbv zeta.
  assert (forall id m, carries (l1 ++ [(x, r)]) id m <->
    carries l1 id m \/ (getResultID r = id /\ id <> 0%Z /\ linked_to (sets (Monikers s)) x m)) as Hc.
  { intros id m. unfold carries. setoid_rewrite elem_of_app. setoid_rewrite list_elem_of_singleton. split.
    - intros (x' & r' & [?|[= -> ->]] & ? & ? & ?); [left; by exists x', r'|by right].
    - intros [(x' & r' & ? & ? & ? & ?)|(? & ? & ?)]; [exists x', r'; auto|exists x, r; auto]. }
  destruct (Z.eqb_spec (getResultID r) 0) as [E0|Hne]; cbn [negb].
  { apply returns_done. split; [done|]. intros id m. rewrite Hc, Hi. naive_solver. }
  rewrite Get_spec by apply (gr_monikers _ Hok). cbn [run_bind].
  destruct (UnionIDSet_spec n sm (getResultID r) (contents (Monikers s) !! x) Hw) as (sm' & -> & Hw' & E).
  { intros o Ho. by apply (wf_entries _ (gr_monikers _ Hok) x). }
  apply returns_done. split; [done|]. intros id m. rewrite E, linked_to_add_some, Hi, Hc.
  assert (linked_to (sets (Monikers s)) x m <-> m ∈ default ∅ (elems <$> contents (Monikers s) !! x)) as ->
    by (unfold linked_to, sets; by rewrite lookup_fmap).
  naive_solver.
Qed.

Lemma lookup3_add m id a k sc i :
  lookup3 (add_result kinds s id m a) k sc i =
  if decide (existsb (gs_eqb k) kinds = true /\ named a k sc i) then lookup3 m k sc i ++ [id] else lookup3 m k sc i.
Proof.
  unfold add_result. fold (moniker_at s a). destruct (existsb (gs_eqb (Kind (moniker_at s a))) kinds) eqn:Ek; cbn [negb].
  2: { rewrite decide_False; [done|]. intros (Hk & <- & _). congruence. }
  unfold lookup3, named. cbv zeta. destruct (decide (Kind (moniker_at s a) = k)) as [<-|Hk].
  2: { rewrite lookup_insert_ne by done. rewrite decide_False; [done|tauto]. }
  rewrite lookup_insert_eq. simpl. destruct (decide (Scheme (moniker_at s a) = sc)) as [<-|Hs].
  2: { rewrite lookup_insert_ne by done. rewrite decide_False; [done|tauto]. }
  rewrite lookup_insert_eq. simpl. destruct (decide (Identifier (moniker_at s a) = i)) as [<-|Hi].
  2: { rewrite lookup_insert_ne by done. rewrite decide_False; [done|tauto]. }
  rewrite lookup_insert_eq. by rewrite decide_True by done.
Qed.

Lemma add_result_spec id (ids : list Z) m k sc i j :
  j ∈ lookup3 (fold_left (add_result kinds s id) ids m) k sc i <->
  j ∈ lookup3 m k sc i \/
  (existsb (gs_eqb k) kinds = true /\ j = id /\ exists moniker, moniker ∈ ids /\ named moniker k sc i).
Proof.
  revert m. induction ids as [|a ids IH]; intros m; cbn [fold_left].
  { split; [auto|]. by intros [?|(_ & _ & ? & ?%not_elem_of_nil & _)]. }
  rewrite IH, lookup3_add. setoid_rewrite elem_of_cons. destruct (decide _) as [Ha|Ha]; [|naive_solver].
  rewrite elem_of_app, list_elem_of_singleton. naive_solver.
Qed.

(** The results under a kind, a scheme and an identifier. *)
Definition grouped (monikers : DefaultIDSetMap) (l : list Z) (m : IdMap) : Prop :=
  forall k sc i j, j ∈ lookup3 m k sc i <->
    existsb (gs_eqb k) kinds = true /\ j ∈ l /\ exists moniker, linked_to (sets monikers) j moniker /\ named moniker k sc i.

Lemma results_by_moniker_spec monikers : wf_map monikers ->
  returns (run_fold (fun m entry =>
      let! ids := SetMap.Get monikers entry.1 in
      match ids with
      | None => Done m
      | Some monikerIDs => Done (fold_left (add_result kinds s entry.1) (IDSet.Each n monikerIDs) m)
      end) (map_range n data) ∅) (grouped monikers (map_range n data).*1).
Proof.
  intros Hw. apply (run_fold_inv _ (fun l1 => grouped monikers l1.*1)).
  { intros k sc i j. split; [|by intros (_ & ?%not_elem_of_nil & _)]. unfold lookup3.
    rewrite lookup_empty. simpl. rewrite lookup_empty. simpl. rewrite lookup_empty. by intros ?%not_elem_of_nil. }
  intros l1 [id sm] l2 m _ Hi. cbn [fst]. rewrite Get_spec by done. cbn [run_bind].
  assert (forall m', linked_to (sets monikers) id m' <-> exists v, contents monikers !! id = Some v /\ m' ∈ IDSet.Each n v) as Hl.
  { intros m'. unfold linked_to, sets. rewrite lookup_fmap. destruct (contents monikers !! id) as [v|] eqn:E; simpl; [|set_solver].
    rewrite <- (elem_of_set_Each n); [naive_solver|]. by apply (wf_entries _ Hw id). }
  rewrite fmap_app. simpl. destruct (contents monikers !! id) as [v|] eqn:E; apply returns_done; intros k sc i j;
    rewrite elem_of_app, list_elem_of_singleton.
  - rewrite add_result_spec, (Hi k sc i j). split.
    + intros [(? & ? & ?)|(? & -> & m' & ? & ?)]; [naive_solver|]. split_and!; [done|auto|]. exists m'. rewrite Hl. eauto.
    + intros (? & [?| ->] & m' & Hm & ?); [naive_solver|]. right. split_and!; [done|done|]. exists m'. rewrite Hl in Hm. naive_solver.
  - rewrite (Hi k sc i j). split; [naive_solver|]. intros (? & [?| ->] & m' & Hm & ?); [naive_solver|].
    rewrite Hl in Hm. naive_solver.
Qed.

(** The locations of the results [ids] in documents under the root. *)
Definition moniker_location (ids : list Z) (loc : LocationData) : Prop :=
  exists id d x, id ∈ ids /\ located data id d x /\ HasPrefix (document_at s d) (str "..") = false /\
    loc = location_of s (document_at s d) x.

Lemma documents_locations_spec sm documents loc : wf_map sm -> documents ≡ₚ map_to_list (contents sm) ->
  loc ∈ concat (map (fun e =>
    let uri := default [] (DocumentData s !! e.1) in
    if HasPrefix uri (str "..") then [] else map (location_of s uri) (IDSet.Each n e.2)) documents) <->
  exists d x, linked_to (sets sm) d x /\ HasPrefix (document_at s d) (str "..") = false /\ loc = location_of s (document_at s d) x.
Proof.
  intros Hw Hl. cbv zeta. rewrite list_elem_of_In, in_concat.
  assert (forall d x, linked_to (sets sm) d x <-> exists v, In (d, v) documents /\ In x (IDSet.Each n v)) as He.
  { intros d x. destruct (pairs_of_spec n sm documents Hw Hl) as [_ H]. rewrite <- (H (d, x)). unfold pairs_of.
    rewrite list_elem_of_In, in_concat. setoid_rewrite in_map_iff. split.
    - intros (r & ([d' v] & <- & Hv) & (y & [= <- ->] & Hy)%in_map_iff). by exists v.
    - intros (v & Hv & Hx). eexists. split; [exists (d, v); split; [reflexivity|done]|]. apply in_map_iff. by exists x. }
  split.
  - intros (r & ([d v] & <- & Hv)%in_map_iff & Hin). cbn [fst snd] in Hin. fold (document_at s d) in Hin.
    destruct (HasPrefix (document_at s d) (str "..")) eqn:E; [done|]. apply in_map_iff in Hin as (x & <- & Hx).
    exists d, x. split_and!; [apply He; by exists v|done|done].
  - intros (d & x & (v & Hv & Hx)%He & E & ->). eexists. split; [apply in_map_iff; exists (d, v); split; [reflexivity|done]|].
    cbn [fst snd]. fold (document_at s d). rewrite E. by apply in_map.
Qed.

Lemma result_locations_spec ids : (forall id, id ∈ ids -> knows data id) ->
  returns (run_fold (result_locations n s data) ids []) (fun locs => forall loc, loc ∈ locs <-> moniker_location ids loc).
Proof.
  intros Hk. apply (run_fold_inv _ (fun l1 locs => forall loc, loc ∈ locs <-> moniker_location l1 loc)).
  { intros loc. split; [by intros ?%not_elem_of_nil|]. by intros (id & d & x & ?%not_elem_of_nil & _). }
  intros l1 id l2 locs -> Hi. unfold result_locations. destruct (Hk id) as [sm E]; [apply elem_of_app; right; by left|]. rewrite E.
  destruct (map_Each_spec n sm (Hdata _ _ E)) as (documents & -> & Hl). cbn [run_bind]. apply returns_done. intros loc.
  rewrite elem_of_app, Hi, (documents_locations_spec sm documents loc (Hdata _ _ E) Hl). unfold moniker_location, located.
  setoid_rewrite elem_of_app. setoid_rewrite list_elem_of_singleton. split.
  - intros [(j & d & x & ? & ? & ? & ?)|(d & x & ? & ? & ?)]; [exists j, d, x; auto|]. exists id, d, x. eauto 8.
  - intros (j & d & x & [?| ->] & (sm' & E' & ?) & ? & ?); [left; exists j, d, x; eauto 8|right]. exists d, x.
    rewrite E in E'. injection E' as <-. auto.
Qed.

Lemma less_location_key a b :
  (0 <= loc_StartLine a < 2 ^ 62)%Z -> (0 <= loc_StartLine b < 2 ^ 62)%Z ->
  less_location a b = less_key (loc_URI a, (loc_StartLine a, loc_StartCharacter a)) (loc_URI b, (loc_StartLine b, loc_StartCharacter b)).
Proof.
  intros Ha Hb. unfold less_location, less_key. cbv zeta. cbn [fst snd].
  destruct (gs_eqb (loc_URI a) (loc_URI b)) eqn:E; cbn [negb]; [|by apply path_le].
  rewrite wrap64_small by lia. destruct (Z.eqb_spec (loc_StartLine a) (loc_StartLine b)), (Z.eqb_spec (loc_StartLine a - loc_StartLine b) 0);
    cbn [negb]; try lia; try done.
Qed.

Definition small_location (loc : LocationData) : Prop := (0 <= loc_StartLine loc < 2 ^ 62)%Z.

Lemma less_location_strict : StrictWeakOn small_location less_location.
Proof.
  split.
  - intros a b Ha Hb. rewrite !less_location_key by done. apply less_asym, less_key_strict_weak.
  - intros a b c Ha Hb Hc. rewrite !less_location_key by done. apply less_incomparable.
Qed.

(** The results with a moniker of this kind, scheme and identifier. *)
Definition with_moniker (k sc i : gostring) (id : Z) : Prop :=
  existsb (gs_eqb k) kinds = true /\ knows data id /\ exists m, carries (map_range n (RangeData s)) id m /\ named m k sc i.

(** The location of a result with such a moniker. *)
Definition moniker_reference (k sc i : gostring) (loc : LocationData) : Prop :=
  exists id d x, with_moniker k sc i id /\ located data id d x /\ HasPrefix (document_at s d) (str "..") = false /\
    loc = location_of s (document_at s d) x.

Record moniker_rows_exact (rows : list MonikerLocations) : Prop := {
  mx_keys : NoDup (map (fun r => (ml_Kind r, ml_Scheme r, ml_Identifier r)) rows);
  mx_sound r : r ∈ rows -> ml_Locations r <> [] /\ ascending less_location (ml_Locations r) /\
    forall loc, loc ∈ ml_Locations r <-> moniker_reference (ml_Kind r) (ml_Scheme r) (ml_Identifier r) loc;
  mx_complete k sc i loc : moniker_reference k sc i loc ->
    exists r, r ∈ rows /\ ml_Kind r = k /\ ml_Scheme r = sc /\ ml_Identifier r = i
}.

Lemma grouped_reference monikers m k sc i loc :
  (forall id m, linked_to (sets monikers) id m <-> carries (map_range n (RangeData s)) id m) ->
  grouped monikers (map_range n data).*1 m ->
  moniker_location (lookup3 m k sc i) loc <-> moniker_reference k sc i loc.
Proof.
  intros Hc Hg. unfold moniker_location, moniker_reference, with_moniker. split; intros (id & d & x & H & ?); exists id, d, x.
  - apply Hg in H as (? & ?%elem_of_map_range_keys & m' & ?%Hc & ?). split; [|done]. eauto 6.
  - split; [|done]. destruct H as (? & ? & m' & ? & ?). apply Hg. split_and!; [done|by apply elem_of_map_range_keys|].
    exists m'. by rewrite Hc.
Qed.

Definition row_key (r : MonikerLocations) : gostring * gostring * gostring := (ml_Kind r, ml_Scheme r, ml_Identifier r).

(** The rows written for the entries [l]. *)
Record rows_written (l : list (gostring * gostring * gostring * list Z)) (out : list MonikerLocations) : Prop := {
  wr_keys : map row_key out `sublist_of` map fst l;
  wr_sound r : r ∈ out -> exists ids, (row_key r, ids) ∈ l /\ ml_Locations r <> [] /\ ascending less_location (ml_Locations r) /\
    forall loc, loc ∈ ml_Locations r <-> moniker_location ids loc;
  wr_complete key ids loc : (key, ids) ∈ l -> moniker_location ids loc -> exists r, r ∈ out /\ row_key r = key
}.

Context (Hsmall : forall x, small_position (Start (r_Data (range_at s x)))).

Lemma write_rows_spec l : (forall key ids id, (key, ids) ∈ l -> id ∈ ids -> knows data id) ->
  returns (run_fold (fun out '(kind, scheme, identifier, ids) =>
      let! locations := run_fold (result_locations n s data) ids [] in
      if Nat.eqb (length locations) 0 then Done out
      else Done (out ++ [MkMonikerLocations kind scheme identifier (sort_slice less_location locations)])) l []) (rows_written l).
Proof.
  intros Hk. apply run_fold_inv.
  { split; [constructor|by intros r ?%not_elem_of_nil|by intros key ids loc ?%not_elem_of_nil]. }
  intros l1 [[[k sc] i] ids] l2 out -> Hi.
  run_step (result_locations_spec ids).
  { intros id. apply (Hk (k, sc, i)). apply elem_of_app. right. by left. }
  intros locs Hlocs. destruct (Nat.eqb_spec (length locs) 0) as [E|Hne]; apply returns_done.
  - apply nil_length_inv in E as ->. split.
    + rewrite map_app. apply sublist_inserts_r, (wr_keys _ _ Hi).
    + intros r (ids' & H & H')%(wr_sound _ _ Hi). exists ids'. split; [|done]. apply elem_of_app. by left.
    + intros key ids' loc [H|[= -> ->]%list_elem_of_singleton]%elem_of_app; [by apply (wr_complete _ _ Hi)|].
      by intros ?%Hlocs%not_elem_of_nil.
  - split.
    + rewrite !map_app. apply sublist_app; [apply (wr_keys _ _ Hi)|done].
    + intros r [H| ->%list_elem_of_singleton]%elem_of_app.
      * apply (wr_sound _ _ Hi) in H as (ids' & H & H'). exists ids'. split; [|done]. apply elem_of_app. by left.
      * exists ids. split_and!; [apply elem_of_app; right; by left| | |].
        -- cbn [ml_Locations]. intros E. apply Hne. by rewrite <- (sort_slice_perm less_location), E.
        -- apply (sort_slice_ascending_on small_location); [apply less_location_strict|]. apply Forall_forall.
           intros loc (id & d & x & _ & _ & _ & ->)%Hlocs. apply (Hsmall x).
        -- intros loc. cbn [ml_Locations]. by rewrite sort_slice_perm.
    + intros key ids' loc [H|[= -> ->]%list_elem_of_singleton]%elem_of_app Hl; setoid_rewrite elem_of_app.
      * destruct (wr_complete _ _ Hi _ _ _ H Hl) as (r & ? & ?). exists r. auto.
      * eexists. split; [right; by left|done].
Qed.

Lemma gatherMonikersLocations_spec : returns (gatherMonikersLocations n s data kinds getResultID) moniker_rows_exact.
Proof.
  unfold gatherMonikersLocations. run_step (result_monikers_spec (map_range n (RangeData s))). intros monikers [Hw Hc].
  run_step (results_by_moniker_spec monikers Hw). intros m Hg. fold (rows3 m).
  assert (forall k sc i loc, moniker_location (lookup3 m k sc i) loc <-> moniker_reference k sc i loc) as Hr.
  { intros k sc i loc. by apply (grouped_reference monikers). }
  eapply returns_mono; [apply write_rows_spec|].
  { intros [[k sc] i] ids id ->%rows3_elem Hid. apply Hg in Hid as (_ & Hid & _). by apply elem_of_map_range_keys in Hid. }
  intros rows Hrows. split.
  - eapply sublist_NoDup; [apply rows3_NoDup|apply (wr_keys _ _ Hrows)].
  - intros r Hin. apply (wr_sound _ _ Hrows) in Hin as (ids & ->%rows3_elem & ? & ? & Hl). split_and!; [done|done|].
    intros loc. by rewrite Hl, Hr.
  - intros k sc i loc Hl. apply Hr in Hl as Hl'.
    destruct (wr_complete _ _ Hrows (k, sc, i) (lookup3 m k sc i) loc) as (r & Hin & [= <- <- <-]); [|done|by exists r].
    apply rows3_complete. destruct Hl' as (id & _ & _ & Hid & _). intros E. rewrite E in Hid. by apply not_elem_of_nil in Hid.
Qed.
End Gather.
End Monikers.
