(* ===== verification/GroupCorrect.v ===== *)
(** Grouping and queries: what a query of the bundle answers is what the state says. *)
From stdpp Require Import sorting.
From S2P Require Import Prelude GoStr GoLib GoMap IdSets IdSetFacts Lsif LsifFacts CanonChains.
From S2P Require Import Precise PreciseFacts Group GroupFacts GroupMonikers.

Section Packages.
Context {G : GoRuntime} (n : nat) (s : State).

Abbreviation key_of := (fun m => package_key (package_of s m)).

(** One package for each key of the monikers [P]. *)
Definition packages_of (P : Z -> Prop) (packages : list Package) : Prop :=
  NoDup (map package_key packages) /\
  (forall p, p ∈ packages -> exists m, P m /\ p = package_of s m) /\
  (forall m, P m -> package_key (package_of s m) ∈ map package_key packages).

Lemma unique_packages {V} (pkg : V -> Package) (m : gmap gostring V) (P : Z -> Prop) :
  (forall k v, m !! k = Some v -> exists id, P id /\ k = key_of id /\ pkg v = package_of s id) ->
  (forall id, P id -> is_Some (m !! key_of id)) ->
  packages_of P (map (fun e => pkg e.2) (map_range n m)).
Proof.
  intros H1 H2. assert (map package_key (map (fun e => pkg e.2) (map_range n m)) = (map_range n m).*1) as E.
  { rewrite map_map. apply map_ext_in. intros [k v] Hin. apply list_elem_of_In, elem_of_map_range, H1 in Hin as (id & _ & -> & E). cbn [fst snd]. by rewrite E. }
  split_and!.
  - rewrite E. apply NoDup_map_range_keys.
  - intros p ([k v] & <- & Hin)%list_elem_of_In%in_map_iff. apply list_elem_of_In, elem_of_map_range, H1 in Hin as (id & ? & _ & E'). exists id. split; [done|]. exact E'.
  - intros id Hid. rewrite E. by apply elem_of_map_range_keys, H2.
Qed.

Lemma gatherPackages_spec : wf_set (ExportedMonikers s) ->
  packages_of (fun m => m ∈ elems (ExportedMonikers s)) (gatherPackages n s).
Proof.
  intros Hw. unfold gatherPackages. cbv zeta. set (f := fun (m : gmap gostring Package) id => _).
  assert (forall l m, (forall k v, m !! k = Some v -> exists id, id ∈ elems (ExportedMonikers s) /\ k = key_of id /\ v = package_of s id) ->
    (forall id, id ∈ l -> id ∈ elems (ExportedMonikers s)) ->
    (forall k v, fold_left f l m !! k = Some v -> exists id, id ∈ elems (ExportedMonikers s) /\ k = key_of id /\ v = package_of s id) /\
    (forall k, is_Some (fold_left f l m !! k) <-> is_Some (m !! k) \/ exists id, id ∈ l /\ k = key_of id)) as H.
  { induction l as [|a l IH]; intros m Hm Hl; cbn [fold_left].
    { split; [done|]. intros k. split; [auto|]. by intros [?|(id & ?%not_elem_of_nil & _)]. }
    destruct (IH (f m a)) as [I1 I2].
    - intros k v [[<- <-]|[_ Hk]]%lookup_insert_Some; [exists a; split_and!; [apply Hl; by left|done|done]|by apply Hm].
    - intros id Hid. apply Hl. by right.
    - split; [done|]. intros k. rewrite I2. unfold f. rewrite lookup_insert_is_Some'. setoid_rewrite elem_of_cons. naive_solver. }
  destruct (H (IDSet.Each n (ExportedMonikers s)) ∅) as [H1 H2].
  - intros k v. by rewrite lookup_empty.
  - intros id. by rewrite elem_of_set_Each.
  - apply (unique_packages id); [done|]. intros id Hid. apply H2. right. exists id. by rewrite elem_of_set_Each.
Qed.

Lemma collect_references_spec (keys : gset gostring) u set (P : Z -> Prop) :
  wf_set set ->
  (forall k v, u !! k = Some v -> exists id, P id /\ k ∉ keys /\ k = key_of id /\ v.1 = package_of s id) ->
  (forall id, P id -> key_of id ∉ keys -> is_Some (u !! key_of id)) ->
  let u' := collect_references n s keys u set in
  (forall k v, u' !! k = Some v -> exists id, (P id \/ id ∈ elems set) /\ k ∉ keys /\ k = key_of id /\ v.1 = package_of s id) /\
  (forall id, P id \/ id ∈ elems set -> key_of id ∉ keys -> is_Some (u' !! key_of id)).
Proof.
  intros Hw H1 H2. unfold collect_references. cbv zeta. setoid_rewrite <- (elem_of_set_Each n set _ Hw).
  revert u P H1 H2. induction (IDSet.Each n set) as [|a l IH]; intros u P H1 H2; cbn [fold_left].
  { split; [intros k v Hk; destruct (H1 k v Hk) as (id & ? & ?); by exists id; auto|].
    intros id [?|?%not_elem_of_nil] ?; [by apply H2|done]. }
  set (u1 := if bool_decide _ then _ else _). destruct (IH u1 (fun id => P id \/ id = a)) as [I1 I2].
  - intros k v. unfold u1. case_bool_decide as Hk; [intros Hv; destruct (H1 k v Hv) as (id & ? & ?); exists id; auto|].
    intros [[<- <-]|[_ Hv]]%lookup_insert_Some; [exists a; auto|]. destruct (H1 k v Hv) as (id & ? & ?). exists id. auto.
  - intros id Hid Hk. unfold u1. case_bool_decide as Ha.
    + destruct Hid as [?| ->]; [by apply H2|done].
    + apply lookup_insert_is_Some'. destruct Hid as [?| ->]; [right; by apply H2|by left].
  - setoid_rewrite elem_of_cons. split.
    + intros k v Hv. destruct (I1 k v Hv) as (id & ? & ?). exists id. intuition auto.
    + intros id Hid. apply I2. tauto.
Qed.

Lemma gatherPackageReferences_spec (packages : list Package) : wf_set (ImportedMonikers s) -> wf_set (ImplementedMonikers s) ->
  packages_of (fun m => (m ∈ elems (ImportedMonikers s) \/ m ∈ elems (ImplementedMonikers s)) /\
    package_key (package_of s m) ∉ map package_key packages) (gatherPackageReferences n s packages).
Proof.
  intros Hw1 Hw2. unfold gatherPackageReferences. cbv zeta. set (keys := list_to_set _ : gset gostring).
  assert (forall k, k ∈ keys <-> k ∈ map package_key packages) as Hk by (intros k; apply elem_of_list_to_set).
  destruct (collect_references_spec keys ∅ (ImportedMonikers s) (fun _ => False) Hw1) as [A1 A2];
    [intros k v; by rewrite lookup_empty|done|].
  destruct (collect_references_spec keys _ (ImplementedMonikers s) _ Hw2 A1 A2) as [B1 B2].
  apply (unique_packages fst).
  - intros k v Hv. destruct (B1 k v Hv) as (id & Hid & Hno & -> & ->). exists id. rewrite Hk in Hno. intuition auto.
  - intros id [Hid Hno]. apply B2; [tauto|by rewrite Hk].
Qed.
End Packages.

(** ** The bundle *)

(** What makes the identifiers of a bundle mean what they mean in the state. *)
Record resolvable (s : State) : Prop := {
  rs_uris d d' uri : DocumentData s !! d = Some uri -> DocumentData s !! d' = Some uri -> d = d';
  rs_distinct id : ~ (knows (DefinitionData s) id /\ knows (ReferenceData s) id) /\
    ~ (knows (DefinitionData s) id /\ knows (ImplementationData s) id) /\
    ~ (knows (ReferenceData s) id /\ knows (ImplementationData s) id);
  rs_nonzero sm : ~ result_of s 0 sm;
  rs_located id sm d x : result_of s id sm -> linked_to (sets sm) d x ->
    exists uri, DocumentData s !! d = Some uri /\ HasPrefix uri (str "..") = false /\ linked_to (sets (Contains s)) d x;
  rs_small x r : RangeData s !! x = Some r -> small_position (Start (r_Data r));
  rs_size : (Z.of_nat (size (DefinitionData s) + size (ReferenceData s) + size (ImplementationData s)) < 2 ^ 39)%Z
}.

Section Bundle.
Context {G : GoRuntime} (n : nat) (s : State) (Hok : groupable s) (Hres : resolvable s).

Lemma small_starts x : small_position (Start (r_Data (range_at s x))).
Proof.
  unfold range_at. destruct (RangeData s !! x) as [r|] eqn:E; [by apply (rs_small _ Hres x)|]. unfold small_position. simpl. lia.
Qed.

Lemma result_entries_NoDup : NoDup (result_entries n s).*1.
Proof.
  unfold result_entries. rewrite !fmap_app.
  assert (forall (m : gmap Z DefaultIDSetMap) id, id ∈ (map_range n m).*1 <-> knows m id) as Hk by (intros; apply elem_of_map_range_keys).
  apply NoDup_app. split_and!; [apply NoDup_map_range_keys| |apply NoDup_app; split_and!; try apply NoDup_map_range_keys];
    intros id; rewrite ?elem_of_app, !Hk; destruct (rs_distinct _ Hres id) as (? & ? & ?); tauto.
Qed.

(** The parts of the bundle. *)
Record bundle_ok (chans : GroupedBundleDataChans) : Prop := {
  bo_root : gc_ProjectRoot chans = ProjectRoot s;
  bo_chunks : (0 < gc_NumResultChunks chans < 2 ^ 31)%Z;
  bo_documents : documents_ok n s (insert_all (gc_Documents chans));
  bo_results i : chunk_ok s (assigned (gc_NumResultChunks chans) i (result_entries n s))
    (default zeroChunk (insert_all (gc_ResultChunks chans) !! i));
  bo_definitions : moniker_rows_exact n s (DefinitionData s) [str "export"] r_DefinitionResultID (gc_Definitions chans);
  bo_references : moniker_rows_exact n s (ReferenceData s) [str "import"; str "export"] r_ReferenceResultID (gc_References chans);
  bo_implementations : moniker_rows_exact n s (DefinitionData s) [str "implementation"] r_DefinitionResultID (gc_Implementations chans);
  bo_packages : packages_of s (fun m => m ∈ elems (ExportedMonikers s)) (gc_Packages chans);
  bo_packageReferences : packages_of s (fun m => (m ∈ elems (ImportedMonikers s) \/ m ∈ elems (ImplementedMonikers s)) /\
    package_key (package_of s m) ∉ map package_key (gc_Packages chans)) (gc_PackageReferences chans)
}.

Lemma groupBundleData_spec : returns (groupBundleData n s) bundle_ok.
Proof.
  unfold groupBundleData. pose proof (num_chunks_range _ (rs_size _ Hres)) as Hnum. set (num := num_chunks _) in *.
  pose proof small_starts as Hsmall.
  run_step (serializeBundleDocuments_spec n s Hok (rs_uris _ Hres)). intros documents Hdocs.
  run_step (serializeResultChunks_spec n s Hok Hsmall num Hnum result_entries_NoDup). intros chunks Hchunks.
  assert (forall id sm, DefinitionData s !! id = Some sm -> wf_map sm) as Hdef by (intros id sm H; apply (gr_results _ Hok id); by left).
  assert (forall id sm, ReferenceData s !! id = Some sm -> wf_map sm) as Href by (intros id sm H; apply (gr_results _ Hok id); right; by left).
  run_step (gatherMonikersLocations_spec n s Hok (DefinitionData s) Hdef [str "export"] r_DefinitionResultID Hsmall). intros defs Hdefs.
  run_step (gatherMonikersLocations_spec n s Hok (ReferenceData s) Href [str "import"; str "export"] r_ReferenceResultID Hsmall). intros refs Hrefs.
  run_step (gatherMonikersLocations_spec n s Hok (DefinitionData s) Hdef [str "implementation"] r_DefinitionResultID Hsmall). intros impls Himpls.
  apply returns_done. split; cbn; try done.
  - apply gatherPackages_spec, (gr_exported _ Hok).
  - apply gatherPackageReferences_spec; [apply (gr_imported _ Hok)|apply (gr_implemented _ Hok)].
Qed.

(** ** Queries *)

(** The locations of a result in reading order, each once. *)
Definition locations_of (data : gmap Z DefaultIDSetMap) (id : Z) (locations : list LocationData) : Prop :=
  exists ps, locations = map (fun p => location_of s (document_at s p.1) p.2) ps /\ NoDup ps /\
    (forall d x, (d, x) ∈ ps <-> id <> 0%Z /\ located data id d x) /\ ascending less_location locations.

Definition qualified_moniker (m : Z) : QualifiedMonikerData :=
  MkQualified (moniker_row s m)
    (if (PackageInformationID (moniker_at s m) =? 0)%Z then zeroPackageInformation
     else package_row s (PackageInformationID (moniker_at s m))).

(** What the state says of the range [x]. *)
Record answer_of (x : Z) (q : QueryResult) : Prop := {
  an_definitions : locations_of (DefinitionData s) (r_DefinitionResultID (range_at s x)) (q_Definitions q);
  an_references : locations_of (ReferenceData s) (r_ReferenceResultID (range_at s x)) (q_References q);
  an_hover : q_Hover q = if (r_HoverResultID (range_at s x) =? 0)%Z then [] else hover_row s (r_HoverResultID (range_at s x));
  an_monikers : exists ms, NoDup ms /\ (forall m, m ∈ ms <-> linked_to (sets (Monikers s)) x m) /\
    q_Monikers q = map qualified_moniker ms
}.

Section Queries.
Context (chans : GroupedBundleDataChans) (Hb : bundle_ok chans).
Abbreviation bundle := (GroupedBundleDataChansToMaps chans).

Lemma resolve_location_spec chunk id sm d x i :
  chunk = default zeroChunk (insert_all (gc_ResultChunks chans) !! i) ->
  (id, sm) ∈ assigned (gc_NumResultChunks chans) i (result_entries n s) -> linked_to (sets sm) d x ->
  resolve_location bundle chunk (pair_row (d, x)) = location_of s (document_at s d) x.
Proof.
  intros -> Hin Hx. pose proof (bo_results _ Hb i) as Hc. unfold resolve_location. cbn [pair_row dr_DocumentID dr_RangeID fst snd].
  rewrite (ck_paths _ _ _ Hc id sm d x Hin Hx). cbn [default from_option].
  assert (result_of s id sm) as Hr by (apply elem_of_assigned in Hin as [Hin _]; by apply (result_entries_elem n)).
  destruct (rs_located _ Hres id sm d x Hr Hx) as (uri & Hd & Hu & Hc').
  destruct (do_present _ _ _ (bo_documents _ Hb) d uri Hd Hu) as (doc & Hdoc & l & Hrows & _ & Hl).
  unfold document_at. rewrite Hd. cbn [default from_option]. change (gm_Documents bundle) with (insert_all (gc_Documents chans)).
  unfold Datatypes.id. rewrite Hdoc. cbn [default from_option]. apply Hl, (rw_ranges _ _ _ _ Hrows) in Hc'.
  by rewrite Hc'.
Qed.

Lemma less_location_pairs a b :
  less_location (location_of s (document_at s a.1) a.2) (location_of s (document_at s b.1) b.2) = less_key (pair_key s a) (pair_key s b).
Proof. rewrite less_location_key; [done|apply small_starts|apply small_starts]. Qed.

Lemma resolveLocations_spec data id :
  (forall sm, data !! id = Some sm -> result_of s id sm) -> (id <> 0%Z -> knows data id) ->
  returns (resolveLocations bundle (toID id)) (locations_of data id).
Proof.
  intros Hdata Hk. unfold resolveLocations, getDefRef. cbn [gm_NumResultChunks gm_ResultChunks GroupedBundleDataChansToMaps].
  rewrite HashKey_chunk_of by apply (bo_chunks _ Hb). cbn [run_bind]. apply returns_done. fold (insert_all (gc_ResultChunks chans)).
  set (i := chunk_of _ id). set (chunk := default zeroChunk _). pose proof (bo_results _ Hb i) as Hc.
  change (default zeroChunk (insert_all (gc_ResultChunks chans) !! i)) with chunk in Hc.
  destruct (decide (id = 0%Z)) as [->|Hne].
  - rewrite (ck_none _ _ _ Hc 0%Z).
    { exists []. split_and!; [done|constructor| |constructor]. intros d x. split; [by intros ?%not_elem_of_nil|tauto]. }
    intros ([id sm] & E & [Hin _]%elem_of_assigned)%list_elem_of_fmap. apply (result_entries_elem n) in Hin.
    cbn in E. subst id. by apply (rs_nonzero _ Hres sm).
  - destruct (Hk Hne) as [sm E]. pose proof (Hdata sm E) as Hr.
    assert ((id, sm) ∈ assigned (gc_NumResultChunks chans) i (result_entries n s)) as Hin.
    { apply elem_of_assigned. split; [by apply result_entries_elem|done]. }
    destruct (ck_rows _ _ _ Hc id sm Hin) as (ps & Hps & ->). cbn [default from_option Datatypes.id]. exists ps.
    assert (map (resolve_location bundle chunk) (map pair_row ps) = map (fun p => location_of s (document_at s p.1) p.2) ps) as ->.
    { rewrite map_map. apply map_ext_in. intros [d x] Hp. apply (resolve_location_spec chunk id sm d x i); [done|done|].
      by apply (ro_elem _ _ _ Hps (d, x)), list_elem_of_In. }
    split_and!; [done|apply (ro_nodup _ _ _ Hps)| |].
    + intros d x. rewrite (ro_elem _ _ _ Hps (d, x)). unfold located. rewrite E. naive_solver.
    + eapply ascending_map; [|apply (ro_sorted _ _ _ Hps)]. intros a b _ _. apply less_location_pairs.
Qed.

Lemma range_results_known x :
  (r_DefinitionResultID (range_at s x) <> 0%Z -> knows (DefinitionData s) (r_DefinitionResultID (range_at s x))) /\
  (r_ReferenceResultID (range_at s x) <> 0%Z -> knows (ReferenceData s) (r_ReferenceResultID (range_at s x))).
Proof.
  unfold range_at. destruct (RangeData s !! x) as [r|] eqn:E; [by apply (gr_known _ Hok x)|]. done.
Qed.

Lemma resolve_moniker_spec l doc x m : rows_ok n s l doc -> x ∈ l -> m ∈ monikers_of n s x ->
  (let moniker := default zeroPMoniker (doc_Monikers doc !! toID m) in
   MkQualified moniker (default zeroPackageInformation (doc_PackageInformation doc !! pm_PackageInformationID moniker))) =
  qualified_moniker m.
Proof.
  intros Hrows Hx Hm. destruct (rw_monikers _ _ _ _ Hrows) as (ids & Hi & Hin). specialize (Hin x m Hx Hm).
  rewrite (mr_monikers _ _ _ Hi m Hin). cbn [default from_option Datatypes.id]. unfold qualified_moniker. f_equal.
  cbn [moniker_row pm_PackageInformationID]. destruct (Z.eqb_spec (PackageInformationID (moniker_at s m)) 0) as [E|Hne].
  - rewrite E. by rewrite (mr_zero _ _ _ Hi : doc_PackageInformation doc !! toID 0 = None).
  - by rewrite (mr_packages _ _ _ Hi m Hin Hne).
Qed.

Lemma Resolve_spec l doc x : rows_ok n s l doc -> x ∈ l -> returns (Resolve bundle doc (range_row n s x)) (answer_of x).
Proof.
  intros Hrows Hx. unfold Resolve. cbv zeta. cbn [range_row precise_range pr_HoverResultID pr_MonikerIDs pr_DefinitionResultID pr_ReferenceResultID].
  destruct (range_results_known x) as [Hd Hr].
  run_step (resolveLocations_spec (DefinitionData s) (r_DefinitionResultID (range_at s x))); [by left|done|]. intros defs Hdefs.
  run_step (resolveLocations_spec (ReferenceData s) (r_ReferenceResultID (range_at s x))); [by right; left|done|]. intros refs Hrefs.
  apply returns_done. split; cbn; [done|done| |].
  - destruct (Z.eqb_spec (r_HoverResultID (range_at s x)) 0) as [E|Hne].
    + rewrite E. by rewrite (rw_hover_zero _ _ _ _ Hrows : doc_HoverResults doc !! toID 0 = None).
    + by rewrite (rw_hovers _ _ _ _ Hrows x Hx Hne).
  - destruct (monikers_of_spec n s Hok x) as [_ Hp]. exists (monikers_of n s x). split_and!.
    + rewrite Hp. apply NoDup_elements.
    + intros m. rewrite Hp. apply elem_of_elements.
    + rewrite map_map. apply map_ext_in. intros m Hm%list_elem_of_In. by apply (resolve_moniker_spec l doc x m).
Qed.

Lemma resolve_all_spec l doc (xs : list Z) : rows_ok n s l doc -> (forall x, x ∈ xs -> x ∈ l) ->
  returns (run_fold (fun results rng => let! r := Resolve bundle doc rng in Done (results ++ [r])) (map (range_row n s) xs) [])
    (Forall2 answer_of xs).
Proof.
  intros Hrows. revert xs. assert (forall done_ xs acc, (forall x, x ∈ xs -> x ∈ l) -> Forall2 answer_of done_ acc ->
    returns (run_fold (fun results rng => let! r := Resolve bundle doc rng in Done (results ++ [r])) (map (range_row n s) xs) acc)
      (Forall2 answer_of (done_ ++ xs))) as H.
  { intros done_ xs. revert done_. induction xs as [|x xs IH]; intros done_ acc Hl Ha; cbn [map run_fold].
    - apply returns_done. by rewrite app_nil_r.
    - apply returns_bind, returns_bind. eapply returns_mono; [apply (Resolve_spec l doc x Hrows); apply Hl; by left|].
      intros q Hq. apply returns_done. rewrite (cons_middle x done_ xs), (app_assoc done_ [x] xs). apply IH; [intros y Hy; apply Hl; by right|].
      apply Forall2_app; [done|]. by constructor. }
  intros xs Hl. by apply (H [] xs []).
Qed.

(** The rows of a document that contain a position. *)
Lemma FindRanges_spec n' l doc line character : NoDup l -> rows_ok n s l doc ->
  exists xs, NoDup xs /\ (forall x, x ∈ xs <-> x ∈ l /\ inside (range_row n s x) line character) /\
    FindRanges n' (doc_Ranges doc) line character = map (range_row n s) xs.
Proof.
  intros Hn Hrows. set (f := fun r => (ComparePosition r line character =? 0)%Z).
  assert (map_range n' (doc_Ranges doc) ≡ₚ map (fun x => (toID x, range_row n s x)) l) as Hp.
  { rewrite map_range_perm. apply NoDup_Permutation; [apply NoDup_map_to_list| |].
    - apply (NoDup_fmap_1 fst). rewrite <- list_fmap_compose. by apply (NoDup_fmap_2 toID).
    - intros [k r]. rewrite elem_of_map_to_list, list_elem_of_In, in_map_iff. setoid_rewrite <- list_elem_of_In. split.
      + intros Hk. destruct (rw_ranges_only _ _ _ _ Hrows k r Hk) as (x & Hx & ->). exists x. split; [|done].
        rewrite (rw_ranges _ _ _ _ Hrows x Hx) in Hk. by injection Hk as ->.
      + intros (x & [= <- <-] & Hx). by apply (rw_ranges _ _ _ _ Hrows). }
  assert (FindRanges n' (doc_Ranges doc) line character ≡ₚ map (range_row n s) (List.filter (fun x => f (range_row n s x)) l)) as Hq.
  { unfold FindRanges. fold f. rewrite sort_slice_perm, Hp. clear. induction l as [|x l IH]; [done|]. cbn.
    destruct (f (range_row n s x)); cbn; by rewrite IH. }
  destruct (Permutation_map_inv _ _ Hq) as (xs & E & Hxs). exists xs. split_and!; [| |done].
  - rewrite <- Hxs. by apply NoDup_ListNoDup, List.NoDup_filter, NoDup_ListNoDup.
  - intros x. rewrite <- Hxs, list_elem_of_In, filter_In, <- list_elem_of_In. unfold f. by rewrite Z.eqb_eq, ComparePosition_inside.
Qed.

Lemma Query_spec n' d uri line character :
  DocumentData s !! d = Some uri -> HasPrefix uri (str "..") = false ->
  exists xs results, Query n' bundle uri line character = Done (Ok results) /\ NoDup xs /\
    (forall x, x ∈ xs <-> linked_to (sets (Contains s)) d x /\ inside (range_row n s x) line character) /\
    Forall2 answer_of xs results.
Proof.
  intros Hd Hu. destruct (do_present _ _ _ (bo_documents _ Hb) d uri Hd Hu) as (doc & Hdoc & l & Hrows & Hn & Hl).
  unfold Query. change (gm_Documents bundle) with (insert_all (gc_Documents chans)). rewrite Hdoc.
  destruct (FindRanges_spec n' l doc line character Hn Hrows) as (xs & Hnx & Hx & ->).
  destruct (resolve_all_spec l doc xs Hrows) as (results & -> & Hr); [intros x ?; by apply Hx|]. cbn [run_bind].
  exists xs, results. split_and!; [done|done| |done]. intros x. by rewrite Hx, Hl.
Qed.

Lemma Query_missing n' uri line character :
  (forall d, DocumentData s !! d = Some uri -> HasPrefix uri (str "..") = true) ->
  Query n' bundle uri line character = Done (Err (str "path does not exist in bundle")).
Proof.
  intros Hno. unfold Query. change (gm_Documents bundle) with (insert_all (gc_Documents chans)).
  destruct (insert_all (gc_Documents chans) !! uri) as [doc|] eqn:E; [|done].
  destruct (do_only _ _ _ (bo_documents _ Hb) uri) as (d & Hd & Hu); [by exists doc|]. by rewrite (Hno d Hd) in Hu.
Qed.
End Queries.
End Bundle.

(** ** Properties *)
Section Properties.
Context {G : GoRuntime}.

(** Queries of the bundle: a position in a document under the root is answered with
    one result per range of the document that contains the position, and a path
    that is not of such a document is an error. *)
Definition answered (n : nat) (s : State) (chans : GroupedBundleDataChans) : Prop :=
  forall n' uri line character,
  (forall d, DocumentData s !! d = Some uri -> HasPrefix uri (str "..") = false ->
    exists xs results, Query n' (GroupedBundleDataChansToMaps chans) uri line character = Done (Ok results) /\ NoDup xs /\
      (forall x, x ∈ xs <-> linked_to (sets (Contains s)) d x /\ inside (range_row n s x) line character) /\
      Forall2 (answer_of s) xs results) /\
  ((forall d, DocumentData s !! d = Some uri -> HasPrefix uri (str "..") = true) ->
    Query n' (GroupedBundleDataChansToMaps chans) uri line character = Done (Err (str "path does not exist in bundle"))).

Lemma groupBundleData_answered n s : groupable s -> resolvable s ->
  returns (groupBundleData n s) (fun chans => bundle_ok n s chans /\ answered n s chans).
Proof.
  intros Hok Hres. eapply returns_mono; [apply (groupBundleData_spec n s Hok Hres)|]. intros chans Hb. split; [done|].
  intros n' uri line character. split.
  - intros d Hd Hu. exact (Query_spec n s Hok Hres chans Hb n' d uri line character Hd Hu).
  - exact (Query_missing n s chans Hb n' uri line character).
Qed.

(** C34: grouping a state returns a bundle from which the state can be read back: a
    query of a position in a document answers, for exactly the ranges of the
    document that contain the position, the hover text, the monikers with their
    packages, and the locations of the definition and of the references of the
    range, each once and in reading order. *)
Theorem groupBundleData_Query n s : groupable s -> resolvable s ->
  exists chans, groupBundleData n s = Done chans /\ answered n s chans.
Proof.
  intros Hok Hres. destruct (groupBundleData_answered n s Hok Hres) as (chans & E & _ & Ha). by exists chans.
Qed.

(** the rows of a bundle for cross-repository queries: for each kind, scheme and
    identifier at most one row, with exactly the locations of the results whose
    ranges carry such a moniker, in reading order; one package for each package key
    of an exported moniker; and package references for the imported and implemented
    monikers of packages that the bundle does not define. *)
Theorem groupBundleData_rows n s : groupable s -> resolvable s ->
  exists chans, groupBundleData n s = Done chans /\
  moniker_rows_exact n s (DefinitionData s) [str "export"] r_DefinitionResultID (gc_Definitions chans) /\
  moniker_rows_exact n s (ReferenceData s) [str "import"; str "export"] r_ReferenceResultID (gc_References chans) /\
  moniker_rows_exact n s (DefinitionData s) [str "implementation"] r_DefinitionResultID (gc_Implementations chans) /\
  packages_of s (fun m => m ∈ elems (ExportedMonikers s)) (gc_Packages chans) /\
  packages_of s (fun m => (m ∈ elems (ImportedMonikers s) \/ m ∈ elems (ImplementedMonikers s)) /\
    package_key (package_of s m) ∉ map package_key (gc_Packages chans)) (gc_PackageReferences chans).
Proof.
  intros Hok Hres. destruct (groupBundleData_spec n s Hok Hres) as (chans & E & Hb). exists chans. split_and!; [done|apply Hb..].
Qed.
End Properties.

(** Different packages may have one key. *)
Theorem package_key_collides :
  package_key (MkPackageOf (str "npm") [] (str "a:b") (str "c")) = package_key (MkPackageOf (str "npm") [] (str "a") (str "b:c")).
Proof. reflexivity. Qed.
