(* ===== verification/ConvertCorrect.v ===== *)
(** The conversion of a dump, end to end: what a query of the bundle answers is
    what the canonical form of the dump says. *)
From stdpp Require Import relations sorting.
From S2P Require Import Prelude GoStr GoLib GoMap IdSets IdSetFacts Lsif LsifFacts Canonicalize.
From S2P Require Import FilePath PathExistence PathContents PathCorrect.
From S2P Require Import CanonDocuments CanonChains CanonCorrect CorrelateCorrect.
From S2P Require Import Precise PreciseFacts Group GroupFacts GroupMonikers GroupCorrect.

(** ** Consistent dumps *)

Definition any_located (s : State) (id d x : Z) : Prop :=
  located (DefinitionData s) id d x \/ located (ReferenceData s) id d x \/ located (ImplementationData s) id d x.

Definition any_result (s : State) (id : Z) : Prop :=
  knows (DefinitionData s) id \/ knows (ReferenceData s) id \/ knows (ImplementationData s) id.

(** A dump with one element per identifier, whose documents are under the root
    and whose locations are in the documents that contain them. *)
Record consistent (s : State) : Prop := {
  cs_distinct id : ~ (knows (DefinitionData s) id /\ knows (ReferenceData s) id) /\
    ~ (knows (DefinitionData s) id /\ knows (ImplementationData s) id) /\
    ~ (knows (ReferenceData s) id /\ knows (ImplementationData s) id);
  cs_nonzero : ~ any_result s 0;
  cs_root d uri : DocumentData s !! d = Some uri -> HasPrefix uri (str "..") = false;
  cs_located id d x : any_located s id d x -> knows (DocumentData s) d /\ linked_to (sets (Contains s)) d x;
  cs_small x r : RangeData s !! x = Some r -> small_position (Start (r_Data r));
  cs_size : (Z.of_nat (size (DefinitionData s) + size (ReferenceData s) + size (ImplementationData s)) < 2 ^ 39)%Z
}.

Lemma result_of_known s id sm : result_of s id sm -> any_result s id.
Proof. intros [H|[H|H]]; [left|right; left|right; right]; by exists sm. Qed.

Lemma result_of_located s id sm d x : result_of s id sm -> linked_to (sets sm) d x -> any_located s id d x.
Proof. intros [H|[H|H]] Hx; [left|right; left|right; right]; by exists sm. Qed.

Lemma knows_size {A B} (m : gmap Z A) (m' : gmap Z B) : (forall id, knows m id <-> knows m' id) -> size m = size m'.
Proof.
  intros H. rewrite <- !size_dom. f_equal. apply set_eq. intros id. rewrite !elem_of_dom. apply H.
Qed.

Lemma canonical_resolvable s s1 : consistent s -> canonical s s1 -> resolvable s1.
Proof.
  intros Hc Hcan. pose proof (can_known _ _ Hcan) as Hk. split.
  - intros d d' uri [H1 H2]%(can_documents _ _ Hcan) [H3 H4]%(can_documents _ _ Hcan).
    specialize (H2 _ H3). specialize (H4 _ H1). lia.
  - intros id. destruct (Hk id) as (-> & -> & ->). apply (cs_distinct _ Hc).
  - intros sm Hr%result_of_known. apply (cs_nonzero _ Hc). destruct (Hk 0%Z) as (E1 & E2 & E3).
    unfold any_result in *. by rewrite <- E1, <- E2, <- E3.
  - intros id sm d x Hr Hx. assert (exists id' d0, stands_for (DocumentData s) d0 d /\ any_located s id' d0 x) as (id' & d0 & Hs & Hl).
    { destruct (Hk id) as (_ & E2 & _). destruct (result_of_located _ _ _ _ _ Hr Hx) as [H|[H|H]].
      - apply (can_definitions _ _ Hcan) in H as (d0 & ? & ?). exists id, d0. split; [done|by left].
      - assert (knows (ReferenceData s) id) as Hkn by (apply E2; destruct H as (sm' & ? & _); by exists sm').
        apply (can_references _ _ Hcan) in H as (id' & d0 & _ & ? & ?); [|done]. exists id', d0. split; [done|by right; left].
      - apply (can_implementations _ _ Hcan) in H as (d0 & ? & ?). exists id, d0. split; [done|by right; right]. }
    apply (cs_located _ Hc) in Hl as [[uri Hd] Hl]. unfold stands_for in Hs. rewrite Hd in Hs. exists uri. split_and!.
    + by apply (can_documents _ _ Hcan).
    + by apply (cs_root _ Hc d0).
    + apply (can_contains _ _ Hcan). exists d0. split; [|done]. unfold stands_for. by rewrite Hd.
  - intros x r' E. pose proof (can_ranges _ _ Hcan x) as H. rewrite E in H. destruct (RangeData s !! x) as [r|] eqn:Er; [|done].
    destruct H as [-> _]. by apply (cs_small _ Hc x).
  - rewrite (knows_size (DefinitionData s1) (DefinitionData s)), (knows_size (ReferenceData s1) (ReferenceData s)),
      (knows_size (ImplementationData s1) (ImplementationData s)) by (intros id; by destruct (Hk id) as (? & ? & ?)).
    apply (cs_size _ Hc).
Qed.

Section Prune.
Context (checker : gostring -> bool) (s s2 : State) (Hp : pruned checker s s2).

Lemma pruned_known id : (knows (DefinitionData s2) id <-> knows (DefinitionData s) id) /\
  (knows (ReferenceData s2) id <-> knows (ReferenceData s) id) /\
  (knows (ImplementationData s2) id <-> knows (ImplementationData s) id).
Proof. split_and!; [apply (pr_definitions _ _ _ Hp)|apply (pr_references _ _ _ Hp)|apply (pr_implementations _ _ _ Hp)]. Qed.

Lemma pruned_located id d x : any_located s2 id d x -> knows (DocumentData s2) d /\ any_located s id d x.
Proof.
  unfold any_located. intros [H|[H|H]].
  - apply (pr_definitions _ _ _ Hp) in H. tauto.
  - apply (pr_references _ _ _ Hp) in H. tauto.
  - apply (pr_implementations _ _ _ Hp) in H. tauto.
Qed.

Lemma pruned_groupable : groupable s -> groupable s2.
Proof.
  intros Hg. pose proof pruned_known as Hk. pose proof (pr_definitions _ _ _ Hp) as [H1 _].
  pose proof (pr_references _ _ _ Hp) as [H2 _]. pose proof (pr_implementations _ _ _ Hp) as [H3 _].
  destruct (pr_rest _ _ _ Hp) as (D & de & re & im & ->). split; try apply Hg.
  - intros id sm [H|[H|H]]; eauto.
  - intros id r Hr. destruct (gr_known _ Hg id r Hr) as [Ha Hb].
    split; intros Hne; [apply (Hk (r_DefinitionResultID r)), Ha, Hne|apply (Hk (r_ReferenceResultID r)), Hb, Hne].
Qed.

Lemma located_result id d x : any_located s id d x -> exists sm, result_of s id sm /\ linked_to (sets sm) d x.
Proof. intros [(sm & E & Hx)|[(sm & E & Hx)|(sm & E & Hx)]]; exists sm; (split; [|done]); [by left|by right; left|by right; right]. Qed.

Lemma pruned_resolvable : resolvable s -> resolvable s2.
Proof.
  intros Hr. pose proof pruned_known as Hk. pose proof (pr_documents _ _ _ Hp) as Hd.
  assert (Contains s2 = Contains s /\ RangeData s2 = RangeData s) as [Ec Er].
  { destruct (pr_rest _ _ _ Hp) as (D & de & re & im & ->). done. }
  split.
  - intros d d' uri [H1 _]%Hd [H2 _]%Hd. by apply (rs_uris _ Hr d d' uri).
  - intros id. destruct (Hk id) as (-> & -> & ->). apply (rs_distinct _ Hr).
  - intros sm H%result_of_known. unfold any_result in H. destruct (Hk 0%Z) as (E1 & E2 & E3). rewrite E1, E2, E3 in H.
    destruct H as [[v H]|[[v H]|[v H]]]; apply (rs_nonzero _ Hr v); [by left|by right; left|by right; right].
  - intros id sm d x H1 H2. destruct (pruned_located id d x (result_of_located _ _ _ _ _ H1 H2)) as [[uri Hu] Hl].
    apply located_result in Hl as (sm' & Hres & Hx). destruct (rs_located _ Hr id sm' d x Hres Hx) as (uri' & Hu' & ? & ?).
    exists uri'. rewrite Ec. split_and!; [|done|done]. pose proof (proj1 (proj1 (Hd d uri) Hu)) as E. congruence.
  - intros x r. rewrite Er. apply (rs_small _ Hr).
  - rewrite (knows_size (DefinitionData s2) (DefinitionData s)), (knows_size (ReferenceData s2) (ReferenceData s)),
      (knows_size (ImplementationData s2) (ImplementationData s)) by (intros id; by destruct (Hk id) as (? & ? & ?)).
    apply (rs_size _ Hr).
Qed.
End Prune.

(** ** Properties *)
Section Properties.
Context {G : GoRuntime} {U : UnicodeTables}.

Lemma Correlate_state n root pairs getChildren s' :
  correlateState n root pairs getChildren = Done (Ok s') -> groupable s' -> resolvable s' ->
  exists chans, Correlate n root pairs getChildren = Done (Ok chans) /\ bundle_ok n s' chans /\ answered n s' chans.
Proof.
  intros E Hg Hr. destruct (groupBundleData_answered n s' Hg Hr) as (chans & Eg & Hb & Ha). exists chans.
  split_and!; [|done|done]. unfold Correlate. rewrite E. unfold try_bind. cbn [run_bind]. by rewrite Eg.
Qed.

(** C33: the conversion end to end: a dump that can be read, whose links end and
    whose identifiers and locations are consistent is converted into a bundle whose
    queries answer what the canonical form of the dump says, without the documents
    that are not in the git tree, and the locations in them, when the children of
    directories are listed. *)
Theorem Correlate_answers n root pairs s :
  correlateFromReader root pairs = Done (Ok s) -> well_founded_dump s -> consistent s ->
  exists s1, canonical s s1 /\
  (exists chans, Correlate n root pairs None = Done (Ok chans) /\ answered n s1 chans) /\
  forall getChildren A, answers getChildren A -> closed_listing A ->
    (forall d uri, DocumentData s1 !! d = Some uri -> HasPrefix (Path_Join [root; uri]) (str "/") = false) ->
    exists s2 chans ec, Correlate n root pairs (Some getChildren) = Done (Ok chans) /\
    pruned (path_Exists ec) s1 s2 /\ answered n s2 chans /\
    forall d uri, DocumentData s2 !! d = Some uri <-> DocumentData s1 !! d = Some uri /\
      HasPrefix (dirWithoutDot (Path_Join [root; uri])) (str "..") = false /\
      Path_Join [root; uri] ∈ A (dirWithoutDot (Path_Join [root; uri])).
Proof.
  intros E Hw Hc. destruct (correlateState_spec n root pairs) as (r & E' & Hr). rewrite E in E'. injection E' as <-.
  destruct (Hr Hw) as (s1 & Hok1 & Hcan & E1 & _ & Hprune). exists s1.
  pose proof (state_ok_groupable _ Hok1) as Hg1. pose proof (canonical_resolvable s s1 Hc Hcan) as Hr1. split_and!; [done| |].
  - destruct (Correlate_state n root pairs None s1 E1 Hg1 Hr1) as (chans & Ec & _ & Ha). by exists chans.
  - intros getChildren A HA Hcl Hrel. destruct (Hprune getChildren A HA Hcl) as (s2 & ec & E2 & Hp & Hd).
    { intros p ([d uri] & -> & Hin%elem_of_map_range)%list_elem_of_fmap. by apply (Hrel d). }
    destruct (Correlate_state n root pairs (Some getChildren) s2 E2) as (chans & Ec & _ & Ha);
      [by apply (pruned_groupable _ _ _ Hp)|by apply (pruned_resolvable _ _ _ Hp)|].
    by exists s2, chans, ec.
Qed.
End Properties.

(** ** Witnesses *)

Definition located_check (s : State) (data : gmap Z DefaultIDSetMap) : bool :=
  forallb (fun e => forallb (fun p => forallb (fun x =>
      has (DocumentData s) p.1 && bool_decide (x ∈ default ∅ (sets (Contains s) !! p.1))) (elements p.2))
    (map_to_list (sets e.2))) (map_to_list data).

Lemma located_check_ok s data id d x : located_check s data = true -> located data id d x ->
  knows (DocumentData s) d /\ linked_to (sets (Contains s)) d x.
Proof.
  unfold located_check. rewrite forallb_forall. intros H (sm & E & Hx). unfold linked_to in Hx.
  destruct (sets sm !! d) as [X|] eqn:Es; [|set_solver].
  specialize (H (id, sm) ltac:(by apply list_elem_of_In, elem_of_map_to_list)). rewrite forallb_forall in H.
  specialize (H (d, X) ltac:(by apply list_elem_of_In, elem_of_map_to_list)). rewrite forallb_forall in H.
  specialize (H x ltac:(by apply list_elem_of_In, elem_of_elements)). apply andb_true_iff in H as [H1 H2].
  apply has_knows in H1. by apply bool_decide_eq_true in H2.
Qed.

Definition consistent_check (s : State) : bool :=
  forallb (fun e => negb (has (ReferenceData s) e.1) && negb (has (ImplementationData s) e.1)) (map_to_list (DefinitionData s)) &&
  forallb (fun e => negb (has (ImplementationData s) e.1)) (map_to_list (ReferenceData s)) &&
  negb (has (DefinitionData s) 0) && negb (has (ReferenceData s) 0) && negb (has (ImplementationData s) 0) &&
  forallb (fun e => negb (HasPrefix e.2 (str ".."))) (map_to_list (DocumentData s)) &&
  located_check s (DefinitionData s) && located_check s (ReferenceData s) && located_check s (ImplementationData s) &&
  forallb (fun e => let p := Start (r_Data e.2) in
    (0 <=? Line p)%Z && (Line p <? 2 ^ 62)%Z && (0 <=? Character p)%Z && (Character p <? 2 ^ 62)%Z) (map_to_list (RangeData s)) &&
  (Z.of_nat (size (DefinitionData s) + size (ReferenceData s) + size (ImplementationData s)) <? 2 ^ 39)%Z.

Lemma not_has {A} (m : gmap Z A) id : negb (has m id) = true -> ~ knows m id.
Proof. intros H%negb_true_iff Hk%has_knows. congruence. Qed.

Lemma consistent_check_ok s : consistent_check s = true -> consistent s.
Proof.
  unfold consistent_check. rewrite !andb_true_iff, !forallb_forall.
  intros ((((((((((H1 & H2) & H3) & H4) & H5) & H6) & H7) & H8) & H9) & H10) & H11).
  assert (forall A (m : gmap Z A) id v, m !! id = Some v -> In (id, v) (map_to_list m)) as Hin
    by (intros; by apply list_elem_of_In, elem_of_map_to_list).
  split.
  - intros id. split_and!.
    + intros [[v Hv] Hk]. specialize (H1 _ (Hin _ _ _ _ Hv)). apply andb_true_iff in H1 as [H1 _]. by apply (not_has _ _ H1).
    + intros [[v Hv] Hk]. specialize (H1 _ (Hin _ _ _ _ Hv)). apply andb_true_iff in H1 as [_ H1]. by apply (not_has _ _ H1).
    + intros [[v Hv] Hk]. specialize (H2 _ (Hin _ _ _ _ Hv)). by apply (not_has _ _ H2).
  - intros [H|[H|H]]; [by apply (not_has _ _ H3)|by apply (not_has _ _ H4)|by apply (not_has _ _ H5)].
  - intros d uri Hd. specialize (H6 _ (Hin _ _ _ _ Hd)). by apply negb_true_iff in H6.
  - intros id d x [H|[H|H]]; by eapply located_check_ok; [|exact H].
  - intros x r Hr. specialize (H10 _ (Hin _ _ _ _ Hr)). unfold small_position. cbv zeta in H10. cbn [snd] in H10. lia.
  - by apply Z.ltb_lt.
Qed.

Section Witness.
#[local] Instance runtime : GoRuntime := plain_runtime.
#[local] Instance tables : UnicodeTables := plain_tables.

Lemma w_canonical : exists s1, canonicalize 0 w_state = Done s1 /\ groupable s1 /\ resolvable s1.
Proof.
  destruct (canonicalize_spec 0 w_state w_state_ok) as (s1 & E & Hok & Hc).
  { apply increasing_well_founded. vm_compute. reflexivity. }
  exists s1. split_and!; [done|by apply state_ok_groupable|]. eapply canonical_resolvable; [|exact Hc].
  apply consistent_check_ok. vm_compute. reflexivity.
Qed.

Lemma groupBundleData_Query_witness :
  exists s1 chans, canonicalize 0 w_state = Done s1 /\ groupBundleData 0 s1 = Done chans /\ answered 0 s1 chans.
Proof.
  destruct w_canonical as (s1 & E & Hg & Hr). destruct (groupBundleData_Query 0 s1 Hg Hr) as (chans & Eg & Ha).
  exists s1, chans. split; [exact E|]. split; [exact Eg|exact Ha].
Defined.

Lemma groupBundleData_rows_witness :
  exists s1 chans, canonicalize 0 w_state = Done s1 /\ groupBundleData 0 s1 = Done chans /\
  packages_of s1 (fun m => m ∈ elems (ExportedMonikers s1)) (gc_Packages chans).
Proof.
  destruct w_canonical as (s1 & E & Hg & Hr). destruct (groupBundleData_rows 0 s1 Hg Hr) as (chans & Eg & _ & _ & _ & Ha & _).
  exists s1, chans. split; [exact E|]. split; [exact Eg|exact Ha].
Defined.

Lemma Correlate_answers_witness :
  exists s1 chans, canonical w_state s1 /\ Correlate 0 [] w_dump None = Done (Ok chans) /\ answered 0 s1 chans.
Proof.
  destruct (Correlate_answers 0 [] w_dump w_state w_correlates) as (s1 & Hc & (chans & E & Ha) & _).
  - apply increasing_well_founded. vm_compute. reflexivity.
  - apply consistent_check_ok. vm_compute. reflexivity.
  - exists s1, chans. split; [exact Hc|]. split; [exact E|exact Ha].
Defined.

(** The query of the position 1:3 in the dump: two ranges, with one definition and
    one reference each. *)
Example query_dump :
  match Correlate 0 [] w_dump None with
  | Done (Ok chans) =>
      match Query 0 (GroupedBundleDataChansToMaps chans) (str "a.go") 1 3 with
      | Done (Ok results) => map (fun q => (q_Hover q, length (q_Definitions q), length (q_References q))) results
      | _ => []
      end
  | _ => []
  end = [([], 0, 0); (str "docs", 1, 1)].
Proof. vm_compute. reflexivity. Qed.
End Witness.
