(* ===== verification/Changesets.v ===== *)
(** Changesets and changeset specs: [enterprise/internal/batches/types]
    ([changeset.go], [changeset_spec.go], [reconciler.go], [util.go]) and
    [lib/batches/published.go].

    A [time.Time] is the number of nanoseconds since the zero time.  The string
    types of the states are inductive types with a constructor for any other
    string.  Of the metadata of a code host the fields are kept that the methods
    below, the history and the derived state read. *)
From S2P Require Import Prelude GoStr GoLib GoMap.

(** ** States *)

Inductive ChangesetPublicationState := Unpublished | Published | OtherPublication (s : gostring).
Inductive ChangesetUiPublicationState := UiUnpublished | UiDraft | UiPublished | UiOther (s : gostring).
Inductive ReconcilerState := Scheduled | Queued | Processing | Errored | Failed | Completed | OtherReconciler (s : gostring).
Inductive ChangesetExternalState :=
  ExternalDraft | ExternalOpen | ExternalClosed | ExternalMerged | ExternalDeleted | ExternalReadOnly | OtherExternal (s : gostring).

#[export] Instance publication_eq_dec : EqDecision ChangesetPublicationState.
Proof. solve_decision. Defined.
#[export] Instance ui_eq_dec : EqDecision ChangesetUiPublicationState.
Proof. solve_decision. Defined.
#[export] Instance reconciler_eq_dec : EqDecision ReconcilerState.
Proof. solve_decision. Defined.
#[export] Instance external_eq_dec : EqDecision ChangesetExternalState.
Proof. solve_decision. Defined.

Inductive ChangesetReviewState :=
  ReviewApproved | ReviewChangesRequested | ReviewPending | ReviewCommented | ReviewDismissed | OtherReview (s : gostring).

#[export] Instance review_eq_dec : EqDecision ChangesetReviewState.
Proof. solve_decision. Defined.

(** [==] of Go. *)
Abbreviation eqb a b := (bool_decide (a = b)).

Definition external_Valid (s : ChangesetExternalState) : bool :=
  match s with OtherExternal _ => false | _ => true end.
Definition review_Valid (s : ChangesetReviewState) : bool := match s with OtherReview _ => false | _ => true end.
Definition publication_Published (s : ChangesetPublicationState) : bool := eqb s Published.
Definition publication_Unpublished (s : ChangesetPublicationState) : bool := eqb s Unpublished.

(** ** Operations *)

Inductive ReconcilerOperation :=
  OpPush | OpUpdate | OpUndraft | OpPublish | OpPublishDraft | OpSync | OpImport | OpClose | OpReopen | OpSleep | OpDetach
  | OpArchive | OpReattach.

#[export] Instance operation_eq_dec : EqDecision ReconcilerOperation.
Proof. solve_decision. Defined.

Definition operation_name (op : ReconcilerOperation) : gostring :=
  match op with
  | OpPush => str "PUSH" | OpUpdate => str "UPDATE" | OpUndraft => str "UNDRAFT" | OpPublish => str "PUBLISH"
  | OpPublishDraft => str "PUBLISH_DRAFT" | OpSync => str "SYNC" | OpImport => str "IMPORT" | OpClose => str "CLOSE"
  | OpReopen => str "REOPEN" | OpSleep => str "SLEEP" | OpDetach => str "DETACH" | OpArchive => str "ARCHIVE"
  | OpReattach => str "REATTACH"
  end.

(** ** [published.go] *)

(** The values that an [any] can hold here. *)
Inductive PublishedValue := ValNil | ValBool (b : bool) | ValString (s : gostring) | ValOther.

Definition value_True (p : PublishedValue) : bool := match p with ValBool b => b | _ => false end.
Definition value_False (p : PublishedValue) : bool := match p with ValBool b => negb b | _ => false end.
Definition value_Draft (p : PublishedValue) : bool := match p with ValString s => gs_eqb s (str "draft") | _ => false end.
Definition value_Nil (p : PublishedValue) : bool := match p with ValNil => true | _ => false end.
Definition value_Valid (p : PublishedValue) : bool := value_True p || value_False p || value_Draft p || value_Nil p.

Definition ChangesetUiPublicationStateFromPublishedValue (value : PublishedValue) : option ChangesetUiPublicationState :=
  if value_True value then Some UiPublished
  else if value_Draft value then Some UiDraft
  else if negb (value_Nil value) then Some UiUnpublished
  else None.

(** ** Changeset specs *)

Inductive ChangesetSpecType := TypeBranch | TypeExisting | OtherType (s : gostring).

Record ChangesetSpec := MkSpec {
  spec_ID : Z;
  spec_Type : ChangesetSpecType;
  spec_DiffStatAdded : Z; spec_DiffStatDeleted : Z;
  spec_BaseRepoID : Z;
  spec_ExternalID : gostring;
  spec_BaseRef : gostring; spec_HeadRef : gostring;
  spec_Title : gostring; spec_Body : gostring;
  spec_Published : PublishedValue;
  spec_Diff : gostring;
  spec_CommitMessage : gostring; spec_CommitAuthorName : gostring; spec_CommitAuthorEmail : gostring;
  spec_ForkNamespace : option gostring
}.

(** The spec asks for a fork, and the namespace of it: [None] is the user's. *)
Definition changesetSpecForkNamespaceUser : gostring := str "<user>".
Definition IsFork (cs : ChangesetSpec) : bool := bool_decide (is_Some (spec_ForkNamespace cs)).
Definition GetForkNamespace (cs : ChangesetSpec) : option gostring :=
  match spec_ForkNamespace cs with
  | Some n => if gs_eqb n changesetSpecForkNamespaceUser then None else Some n
  | None => None
  end.

(** ** Changesets *)

Record BatchChangeAssoc := MkAssoc { BatchChangeID : Z; a_Detach : bool; a_Archive : bool; a_IsArchived : bool }.

#[export] Instance assoc_eq_dec : EqDecision BatchChangeAssoc.
Proof. solve_decision. Defined.

(** What the code hosts report. *)
Record GitHubPullRequest := MkGitHub {
  gh_State : gostring; gh_IsDraft : bool; gh_Title : gostring; gh_Body : gostring;
  gh_BaseRefName : gostring; gh_BaseRefOid : gostring; gh_HeadRefName : gostring; gh_HeadRefOid : gostring; gh_CreatedAt : Z
}.
Record BitbucketServerPullRequest := MkBitbucketServer {
  bs_State : gostring; bs_Title : gostring; bs_Description : gostring; bs_ToRefID : gostring; bs_FromRefID : gostring;
  bs_CreatedDate : Z; bs_Reviewers : list gostring
}.
(** A note of a merge request approves it, takes an approval back, or neither. *)
Inductive Note := ApprovedNote | UnapprovedNote | OtherNote.
Record GitLabMergeRequest := MkGitLab {
  gl_State : gostring; gl_WorkInProgress : bool; gl_Title : gostring; gl_Description : gostring;
  gl_TargetBranch : gostring; gl_SourceBranch : gostring; gl_BaseSHA : gostring; gl_HeadSHA : gostring; gl_CreatedAt : Z;
  gl_Notes : list Note
}.
Record BitbucketCloudPullRequest := MkBitbucketCloud {
  bc_State : gostring; bc_Title : gostring; bc_RawDescription : gostring; bc_DestinationBranch : gostring; bc_DestinationHash : gostring;
  bc_SourceBranch : gostring; bc_SourceHash : gostring; bc_CreatedOn : Z; bc_Participants : list gostring
}.
Record AzureDevOpsPullRequest := MkAzure {
  az_Status : gostring; az_IsDraft : bool; az_Title : gostring; az_Description : gostring; az_TargetRefName : gostring;
  az_SourceRefName : gostring; az_CreationDate : Z; az_Votes : list Z
}.
Record GerritChange := MkGerrit {
  ge_Status : gostring; ge_WorkInProgress : bool; ge_Subject : gostring; ge_Branch : gostring; ge_Created : Z;
  ge_CodeReviews : option (list gostring)
}.
Inductive Metadata :=
  | NoMetadata
  | GitHub (m : GitHubPullRequest) | BitbucketServer (m : BitbucketServerPullRequest) | GitLab (m : GitLabMergeRequest)
  | BitbucketCloud (m : BitbucketCloudPullRequest) | AzureDevOps (m : AzureDevOpsPullRequest) | Gerrit (m : GerritChange).

(** [ChangesetSyncState]. *)
Record ChangesetSyncState := MkSyncState { s_BaseRefOid : gostring; s_HeadRefOid : gostring; s_IsComplete : bool }.

#[export] Instance sync_state_eq_dec : EqDecision ChangesetSyncState.
Proof. solve_decision. Defined.

Record Changeset := MkChangeset {
  c_ID : Z;
  c_RepoID : Z;
  c_UpdatedAt : Z;
  c_Metadata : Metadata;
  c_BatchChanges : list BatchChangeAssoc;
  c_ExternalID : gostring;
  c_ExternalServiceType : gostring;
  c_ExternalForkName : gostring; c_ExternalForkNamespace : gostring;
  c_ExternalDeletedAt : Z;
  c_ExternalState : ChangesetExternalState;
  c_ExternalReviewState : ChangesetReviewState;
  c_SyncState : ChangesetSyncState;
  c_DiffStatAdded : option Z; c_DiffStatDeleted : option Z;
  c_OwnedByBatchChangeID : Z;
  c_CurrentSpecID : Z; c_PreviousSpecID : Z;
  c_PublicationState : ChangesetPublicationState;
  c_UiPublicationState : option ChangesetUiPublicationState;
  c_ReconcilerState : ReconcilerState;
  c_FailureMessage : option gostring; c_PreviousFailureMessage : option gostring; c_SyncErrorMessage : option gostring;
  c_NumResets : Z; c_NumFailures : Z;
  c_Closing : bool;
  c_DetachedAt : Z
}.

(** The zero changeset. *)
Definition zeroChangeset : Changeset :=
  MkChangeset 0 0 0 NoMetadata [] [] [] [] [] 0 (OtherExternal []) (OtherReview []) (MkSyncState [] [] false) None None 0 0 0 (OtherPublication []) None (OtherReconciler [])
    None None None 0 0 false 0.

(** ** Assignments to fields *)

Section Set_.
Context (c : Changeset).
Definition set_Metadata v : Changeset :=
  MkChangeset (c_ID c) (c_RepoID c) (c_UpdatedAt c) v (c_BatchChanges c) (c_ExternalID c)
    (c_ExternalServiceType c) (c_ExternalForkName c) (c_ExternalForkNamespace c) (c_ExternalDeletedAt c)
    (c_ExternalState c) (c_ExternalReviewState c) (c_SyncState c) (c_DiffStatAdded c) (c_DiffStatDeleted c)
    (c_OwnedByBatchChangeID c) (c_CurrentSpecID c) (c_PreviousSpecID c) (c_PublicationState c)
    (c_UiPublicationState c) (c_ReconcilerState c) (c_FailureMessage c) (c_PreviousFailureMessage c)
    (c_SyncErrorMessage c) (c_NumResets c) (c_NumFailures c) (c_Closing c) (c_DetachedAt c).
Definition set_BatchChanges v : Changeset :=
  MkChangeset (c_ID c) (c_RepoID c) (c_UpdatedAt c) (c_Metadata c) v (c_ExternalID c) (c_ExternalServiceType c)
    (c_ExternalForkName c) (c_ExternalForkNamespace c) (c_ExternalDeletedAt c) (c_ExternalState c)
    (c_ExternalReviewState c) (c_SyncState c) (c_DiffStatAdded c) (c_DiffStatDeleted c)
    (c_OwnedByBatchChangeID c) (c_CurrentSpecID c) (c_PreviousSpecID c) (c_PublicationState c)
    (c_UiPublicationState c) (c_ReconcilerState c) (c_FailureMessage c) (c_PreviousFailureMessage c)
    (c_SyncErrorMessage c) (c_NumResets c) (c_NumFailures c) (c_Closing c) (c_DetachedAt c).
Definition set_ExternalDeletedAt v : Changeset :=
  MkChangeset (c_ID c) (c_RepoID c) (c_UpdatedAt c) (c_Metadata c) (c_BatchChanges c) (c_ExternalID c)
    (c_ExternalServiceType c) (c_ExternalForkName c) (c_ExternalForkNamespace c) v (c_ExternalState c)
    (c_ExternalReviewState c) (c_SyncState c) (c_DiffStatAdded c) (c_DiffStatDeleted c)
    (c_OwnedByBatchChangeID c) (c_CurrentSpecID c) (c_PreviousSpecID c) (c_PublicationState c)
    (c_UiPublicationState c) (c_ReconcilerState c) (c_FailureMessage c) (c_PreviousFailureMessage c)
    (c_SyncErrorMessage c) (c_NumResets c) (c_NumFailures c) (c_Closing c) (c_DetachedAt c).
Definition set_ExternalState v : Changeset :=
  MkChangeset (c_ID c) (c_RepoID c) (c_UpdatedAt c) (c_Metadata c) (c_BatchChanges c) (c_ExternalID c)
    (c_ExternalServiceType c) (c_ExternalForkName c) (c_ExternalForkNamespace c) (c_ExternalDeletedAt c) v
    (c_ExternalReviewState c) (c_SyncState c) (c_DiffStatAdded c) (c_DiffStatDeleted c)
    (c_OwnedByBatchChangeID c) (c_CurrentSpecID c) (c_PreviousSpecID c) (c_PublicationState c)
    (c_UiPublicationState c) (c_ReconcilerState c) (c_FailureMessage c) (c_PreviousFailureMessage c)
    (c_SyncErrorMessage c) (c_NumResets c) (c_NumFailures c) (c_Closing c) (c_DetachedAt c).
Definition set_ExternalReviewState v : Changeset :=
  MkChangeset (c_ID c) (c_RepoID c) (c_UpdatedAt c) (c_Metadata c) (c_BatchChanges c) (c_ExternalID c)
    (c_ExternalServiceType c) (c_ExternalForkName c) (c_ExternalForkNamespace c) (c_ExternalDeletedAt c)
    (c_ExternalState c) v (c_SyncState c) (c_DiffStatAdded c) (c_DiffStatDeleted c) (c_OwnedByBatchChangeID c)
    (c_CurrentSpecID c) (c_PreviousSpecID c) (c_PublicationState c) (c_UiPublicationState c)
    (c_ReconcilerState c) (c_FailureMessage c) (c_PreviousFailureMessage c) (c_SyncErrorMessage c)
    (c_NumResets c) (c_NumFailures c) (c_Closing c) (c_DetachedAt c).
Definition set_SyncState v : Changeset :=
  MkChangeset (c_ID c) (c_RepoID c) (c_UpdatedAt c) (c_Metadata c) (c_BatchChanges c) (c_ExternalID c)
    (c_ExternalServiceType c) (c_ExternalForkName c) (c_ExternalForkNamespace c) (c_ExternalDeletedAt c)
    (c_ExternalState c) (c_ExternalReviewState c) v (c_DiffStatAdded c) (c_DiffStatDeleted c)
    (c_OwnedByBatchChangeID c) (c_CurrentSpecID c) (c_PreviousSpecID c) (c_PublicationState c)
    (c_UiPublicationState c) (c_ReconcilerState c) (c_FailureMessage c) (c_PreviousFailureMessage c)
    (c_SyncErrorMessage c) (c_NumResets c) (c_NumFailures c) (c_Closing c) (c_DetachedAt c).
Definition set_CurrentSpecID v : Changeset :=
  MkChangeset (c_ID c) (c_RepoID c) (c_UpdatedAt c) (c_Metadata c) (c_BatchChanges c) (c_ExternalID c)
    (c_ExternalServiceType c) (c_ExternalForkName c) (c_ExternalForkNamespace c) (c_ExternalDeletedAt c)
    (c_ExternalState c) (c_ExternalReviewState c) (c_SyncState c) (c_DiffStatAdded c) (c_DiffStatDeleted c)
    (c_OwnedByBatchChangeID c) v (c_PreviousSpecID c) (c_PublicationState c) (c_UiPublicationState c)
    (c_ReconcilerState c) (c_FailureMessage c) (c_PreviousFailureMessage c) (c_SyncErrorMessage c)
    (c_NumResets c) (c_NumFailures c) (c_Closing c) (c_DetachedAt c).
Definition set_PreviousSpecID v : Changeset :=
  MkChangeset (c_ID c) (c_RepoID c) (c_UpdatedAt c) (c_Metadata c) (c_BatchChanges c) (c_ExternalID c)
    (c_ExternalServiceType c) (c_ExternalForkName c) (c_ExternalForkNamespace c) (c_ExternalDeletedAt c)
    (c_ExternalState c) (c_ExternalReviewState c) (c_SyncState c) (c_DiffStatAdded c) (c_DiffStatDeleted c)
    (c_OwnedByBatchChangeID c) (c_CurrentSpecID c) v (c_PublicationState c) (c_UiPublicationState c)
    (c_ReconcilerState c) (c_FailureMessage c) (c_PreviousFailureMessage c) (c_SyncErrorMessage c)
    (c_NumResets c) (c_NumFailures c) (c_Closing c) (c_DetachedAt c).
Definition set_PublicationState v : Changeset :=
  MkChangeset (c_ID c) (c_RepoID c) (c_UpdatedAt c) (c_Metadata c) (c_BatchChanges c) (c_ExternalID c)
    (c_ExternalServiceType c) (c_ExternalForkName c) (c_ExternalForkNamespace c) (c_ExternalDeletedAt c)
    (c_ExternalState c) (c_ExternalReviewState c) (c_SyncState c) (c_DiffStatAdded c) (c_DiffStatDeleted c)
    (c_OwnedByBatchChangeID c) (c_CurrentSpecID c) (c_PreviousSpecID c) v (c_UiPublicationState c)
    (c_ReconcilerState c) (c_FailureMessage c) (c_PreviousFailureMessage c) (c_SyncErrorMessage c)
    (c_NumResets c) (c_NumFailures c) (c_Closing c) (c_DetachedAt c).
Definition set_ReconcilerState v : Changeset :=
  MkChangeset (c_ID c) (c_RepoID c) (c_UpdatedAt c) (c_Metadata c) (c_BatchChanges c) (c_ExternalID c)
    (c_ExternalServiceType c) (c_ExternalForkName c) (c_ExternalForkNamespace c) (c_ExternalDeletedAt c)
    (c_ExternalState c) (c_ExternalReviewState c) (c_SyncState c) (c_DiffStatAdded c) (c_DiffStatDeleted c)
    (c_OwnedByBatchChangeID c) (c_CurrentSpecID c) (c_PreviousSpecID c) (c_PublicationState c)
    (c_UiPublicationState c) v (c_FailureMessage c) (c_PreviousFailureMessage c) (c_SyncErrorMessage c)
    (c_NumResets c) (c_NumFailures c) (c_Closing c) (c_DetachedAt c).
Definition set_Closing v : Changeset :=
  MkChangeset (c_ID c) (c_RepoID c) (c_UpdatedAt c) (c_Metadata c) (c_BatchChanges c) (c_ExternalID c)
    (c_ExternalServiceType c) (c_ExternalForkName c) (c_ExternalForkNamespace c) (c_ExternalDeletedAt c)
    (c_ExternalState c) (c_ExternalReviewState c) (c_SyncState c) (c_DiffStatAdded c) (c_DiffStatDeleted c)
    (c_OwnedByBatchChangeID c) (c_CurrentSpecID c) (c_PreviousSpecID c) (c_PublicationState c)
    (c_UiPublicationState c) (c_ReconcilerState c) (c_FailureMessage c) (c_PreviousFailureMessage c)
    (c_SyncErrorMessage c) (c_NumResets c) (c_NumFailures c) v (c_DetachedAt c).
Definition set_DetachedAt v : Changeset :=
  MkChangeset (c_ID c) (c_RepoID c) (c_UpdatedAt c) (c_Metadata c) (c_BatchChanges c) (c_ExternalID c)
    (c_ExternalServiceType c) (c_ExternalForkName c) (c_ExternalForkNamespace c) (c_ExternalDeletedAt c)
    (c_ExternalState c) (c_ExternalReviewState c) (c_SyncState c) (c_DiffStatAdded c) (c_DiffStatDeleted c)
    (c_OwnedByBatchChangeID c) (c_CurrentSpecID c) (c_PreviousSpecID c) (c_PublicationState c)
    (c_UiPublicationState c) (c_ReconcilerState c) (c_FailureMessage c) (c_PreviousFailureMessage c)
    (c_SyncErrorMessage c) (c_NumResets c) (c_NumFailures c) (c_Closing c) v.
Definition set_DiffStatFields added deleted : Changeset :=
  MkChangeset (c_ID c) (c_RepoID c) (c_UpdatedAt c) (c_Metadata c) (c_BatchChanges c) (c_ExternalID c)
    (c_ExternalServiceType c) (c_ExternalForkName c) (c_ExternalForkNamespace c) (c_ExternalDeletedAt c)
    (c_ExternalState c) (c_ExternalReviewState c) (c_SyncState c) added deleted (c_OwnedByBatchChangeID c)
    (c_CurrentSpecID c) (c_PreviousSpecID c) (c_PublicationState c) (c_UiPublicationState c)
    (c_ReconcilerState c) (c_FailureMessage c) (c_PreviousFailureMessage c) (c_SyncErrorMessage c)
    (c_NumResets c) (c_NumFailures c) (c_Closing c) (c_DetachedAt c).
Definition set_messages failure previous sync : Changeset :=
  MkChangeset (c_ID c) (c_RepoID c) (c_UpdatedAt c) (c_Metadata c) (c_BatchChanges c) (c_ExternalID c)
    (c_ExternalServiceType c) (c_ExternalForkName c) (c_ExternalForkNamespace c) (c_ExternalDeletedAt c)
    (c_ExternalState c) (c_ExternalReviewState c) (c_SyncState c) (c_DiffStatAdded c) (c_DiffStatDeleted c)
    (c_OwnedByBatchChangeID c) (c_CurrentSpecID c) (c_PreviousSpecID c) (c_PublicationState c)
    (c_UiPublicationState c) (c_ReconcilerState c) failure previous sync (c_NumResets c) (c_NumFailures c)
    (c_Closing c) (c_DetachedAt c).
Definition set_counts resets failures : Changeset :=
  MkChangeset (c_ID c) (c_RepoID c) (c_UpdatedAt c) (c_Metadata c) (c_BatchChanges c) (c_ExternalID c)
    (c_ExternalServiceType c) (c_ExternalForkName c) (c_ExternalForkNamespace c) (c_ExternalDeletedAt c)
    (c_ExternalState c) (c_ExternalReviewState c) (c_SyncState c) (c_DiffStatAdded c) (c_DiffStatDeleted c)
    (c_OwnedByBatchChangeID c) (c_CurrentSpecID c) (c_PreviousSpecID c) (c_PublicationState c)
    (c_UiPublicationState c) (c_ReconcilerState c) (c_FailureMessage c) (c_PreviousFailureMessage c)
    (c_SyncErrorMessage c) resets failures (c_Closing c) (c_DetachedAt c).
End Set_.

(** ** Methods *)

Definition c_Published (c : Changeset) : bool := publication_Published (c_PublicationState c).
Definition c_Unpublished (c : Changeset) : bool := publication_Unpublished (c_PublicationState c).

Definition Closeable (c : Changeset) : bool :=
  negb (eqb (c_ExternalState c) ExternalClosed) && negb (eqb (c_ExternalState c) ExternalMerged) &&
  negb (eqb (c_ExternalState c) ExternalReadOnly).
Definition Complete (c : Changeset) : bool :=
  c_Published c && negb (eqb (c_ExternalState c) ExternalOpen) && negb (eqb (c_ExternalState c) ExternalDraft).
Definition IsImporting (c : Changeset) : bool := c_Unpublished c && (c_CurrentSpecID c =? 0)%Z.
Definition IsImported (c : Changeset) : bool := (c_OwnedByBatchChangeID c =? 0)%Z.
Definition HasDiff (c : Changeset) : bool := eqb (c_ExternalState c) ExternalDraft || eqb (c_ExternalState c) ExternalOpen.
Definition IsDeleted (c : Changeset) : bool := negb (c_ExternalDeletedAt c =? 0)%Z.

Definition TrimPrefix (s prefix : gostring) : gostring := if HasPrefix s prefix then drop (length prefix) s else s.

(** What the metadata says of the pull request; [None] when its type is unknown. *)
Definition c_Title (c : Changeset) : option gostring :=
  match c_Metadata c with
  | NoMetadata => None
  | GitHub m => Some (gh_Title m)
  | BitbucketServer m => Some (bs_Title m)
  | GitLab m => Some (gl_Title m)
  | BitbucketCloud m => Some (bc_Title m)
  | AzureDevOps m => Some (az_Title m)
  | Gerrit m =>
      let title := match Index (ge_Subject m) [10%Z] with Some i => take i (ge_Subject m) | None => ge_Subject m end in
      Some (TrimPrefix (TrimSuffix title [34%Z]) [34%Z])
  end.
Definition c_Body (c : Changeset) : option gostring :=
  match c_Metadata c with
  | NoMetadata => None
  | GitHub m => Some (gh_Body m)
  | BitbucketServer m => Some (bs_Description m)
  | GitLab m => Some (gl_Description m)
  | BitbucketCloud m => Some (bc_RawDescription m)
  | AzureDevOps m => Some (az_Description m)
  | Gerrit m => Some (ge_Subject m)
  end.
Definition c_BaseRef (c : Changeset) : option gostring :=
  match c_Metadata c with
  | NoMetadata => None
  | GitHub m => Some (str "refs/heads/" ++ gh_BaseRefName m)
  | BitbucketServer m => Some (bs_ToRefID m)
  | GitLab m => Some (str "refs/heads/" ++ gl_TargetBranch m)
  | BitbucketCloud m => Some (str "refs/heads/" ++ bc_DestinationBranch m)
  | AzureDevOps m => Some (az_TargetRefName m)
  | Gerrit m => Some (str "refs/heads/" ++ ge_Branch m)
  end.
Definition c_HeadRef (c : Changeset) : option gostring :=
  match c_Metadata c with
  | NoMetadata => None
  | GitHub m => Some (str "refs/heads/" ++ gh_HeadRefName m)
  | BitbucketServer m => Some (bs_FromRefID m)
  | GitLab m => Some (str "refs/heads/" ++ gl_SourceBranch m)
  | BitbucketCloud m => Some (str "refs/heads/" ++ bc_SourceBranch m)
  | AzureDevOps m => Some (az_SourceRefName m)
  | Gerrit m => Some []
  end.
Definition c_BaseRefOid (c : Changeset) : option gostring :=
  match c_Metadata c with
  | NoMetadata => None
  | GitHub m => Some (gh_BaseRefOid m)
  | GitLab m => Some (gl_BaseSHA m)
  | BitbucketCloud m => Some (bc_DestinationHash m)
  | BitbucketServer _ | AzureDevOps _ | Gerrit _ => Some []
  end.
Definition c_HeadRefOid (c : Changeset) : option gostring :=
  match c_Metadata c with
  | NoMetadata => None
  | GitHub m => Some (gh_HeadRefOid m)
  | GitLab m => Some (gl_HeadSHA m)
  | BitbucketCloud m => Some (bc_SourceHash m)
  | BitbucketServer _ | AzureDevOps _ | Gerrit _ => Some []
  end.

(** Nanoseconds since the zero time. *)
Definition unixEpoch : Z := (62135596800 * 10 ^ 9)%Z.
Definition unixMilliToTime (ms : Z) : Z := (unixEpoch + wrap64 (ms * 10 ^ 6))%Z.

Definition ExternalCreatedAt (c : Changeset) : Z :=
  match c_Metadata c with
  | NoMetadata => 0%Z
  | GitHub m => gh_CreatedAt m
  | BitbucketServer m => unixMilliToTime (bs_CreatedDate m)
  | GitLab m => gl_CreatedAt m
  | BitbucketCloud m => bc_CreatedOn m
  | AzureDevOps m => az_CreationDate m
  | Gerrit m => ge_Created m
  end.

Definition SetDeleted (now : Z) (c : Changeset) : Changeset := set_ExternalDeletedAt c now.

(** [diff.Stat]; [int32] arithmetic wraps around. *)
Record Stat := MkStat { Added : Z; Changed : Z; Deleted : Z }.
Definition wrap_int32 (n : Z) : Z := ((n + 2 ^ 31) mod 2 ^ 32 - 2 ^ 31)%Z.

Definition spec_DiffStat (spec : ChangesetSpec) : Stat := MkStat (spec_DiffStatAdded spec) 0 (spec_DiffStatDeleted spec).
Definition c_DiffStat (c : Changeset) : option Stat :=
  match c_DiffStatAdded c, c_DiffStatDeleted c with
  | Some added, Some deleted => Some (MkStat added 0 deleted)
  | _, _ => None
  end.
Definition SetDiffStat (c : Changeset) (stat : option Stat) : Changeset :=
  match stat with
  | None => set_DiffStatFields c None None
  | Some stat => set_DiffStatFields c (Some (wrap_int32 (Added stat + Changed stat))) (Some (wrap_int32 (Deleted stat + Changed stat)))
  end.
Definition SetCurrentSpec (c : Changeset) (spec : ChangesetSpec) : Changeset :=
  SetDiffStat (set_CurrentSpecID c (spec_ID spec)) (Some (spec_DiffStat spec)).

Definition ResetReconcilerState (c : Changeset) (state : ReconcilerState) : Changeset :=
  let c := set_ReconcilerState c state in
  let c := set_counts c 0 0 in
  set_messages c None (c_FailureMessage c) None.

(** ** Associations with batch changes *)

Definition AttachedTo (c : Changeset) (batchChangeID : Z) : bool :=
  existsb (fun assoc => (BatchChangeID assoc =? batchChangeID)%Z) (c_BatchChanges c).

(** The first element that [p] accepts is changed by [f]; [None] when there is none. *)
Fixpoint update_first {A} (p : A -> bool) (f : A -> A) (l : list A) : option (list A) :=
  match l with
  | [] => None
  | x :: l => if p x then Some (f x :: l) else (fun l' => x :: l') <$> update_first p f l
  end.

Definition Attach (c : Changeset) (batchChangeID : Z) : Changeset :=
  match update_first (fun a => (BatchChangeID a =? batchChangeID)%Z) (fun a => MkAssoc (BatchChangeID a) false false false)
    (c_BatchChanges c) with
  | Some l => set_BatchChanges c l
  | None =>
      let c := set_BatchChanges c (c_BatchChanges c ++ [MkAssoc batchChangeID false false false]) in
      if negb (c_DetachedAt c =? 0)%Z then set_DetachedAt c 0%Z else c
  end.

Definition Detach (c : Changeset) (batchChangeID : Z) : bool * Changeset :=
  match update_first (fun a => (BatchChangeID a =? batchChangeID)%Z)
    (fun a => MkAssoc (BatchChangeID a) true (a_Archive a) (a_IsArchived a)) (c_BatchChanges c) with
  | Some l => (true, set_BatchChanges c l)
  | None => (false, c)
  end.

Definition Archive (c : Changeset) (batchChangeID : Z) : bool * Changeset :=
  match update_first (fun a => (BatchChangeID a =? batchChangeID)%Z && negb (a_IsArchived a))
    (fun a => MkAssoc (BatchChangeID a) (a_Detach a) true (a_IsArchived a)) (c_BatchChanges c) with
  | Some l => (true, set_BatchChanges c l)
  | None => (false, c)
  end.

Definition ArchivedIn (c : Changeset) (batchChangeID : Z) : bool :=
  existsb (fun a => (BatchChangeID a =? batchChangeID)%Z && a_IsArchived a) (c_BatchChanges c).

(** A slice: the array behind it, and its length. *)
Record slice A := MkSlice { array : list A; len : nat }.
Arguments MkSlice {A}.
Arguments array {A}.
Arguments len {A}.

Definition elements_of {A} (s : slice A) : list A := take (len s) (array s).

(** [append(s[:i], s[i+1:]...)], which writes into the array of [s]. *)
Definition remove_at {A} (s : slice A) (i : nat) : slice A :=
  MkSlice (take i (array s) ++ take (len s - 1 - i) (drop (S i) (array s)) ++ drop (len s - 1) (array s)) (len s - 1).

(** [RemoveBatchChangeID], with the array: the loop from [i - 1] down to 0. *)
Fixpoint remove_loop (id : Z) (i : nat) (s : slice BatchChangeAssoc) : slice BatchChangeAssoc :=
  match i with
  | O => s
  | S i =>
      let s := match array s !! i with
               | Some a => if (BatchChangeID a =? id)%Z then remove_at s i else s
               | None => s
               end in
      remove_loop id i s
  end.
Definition RemoveBatchChangeID (s : slice BatchChangeAssoc) (id : Z) : slice BatchChangeAssoc := remove_loop id (len s) s.

(** ** Code hosts *)

Definition TypeGitHub : gostring := str "github".
Definition TypeBitbucketServer : gostring := str "bitbucketServer".
Definition TypeGitLab : gostring := str "gitlab".
Definition TypeBitbucketCloud : gostring := str "bitbucketCloud".
Definition TypeAzureDevOps : gostring := str "azuredevops".
Definition TypeGerrit : gostring := str "gerrit".

Inductive CodehostCapability := CapabilityLabels | CapabilityDraftChangesets.

#[export] Instance capability_eq_dec : EqDecision CodehostCapability.
Proof. solve_decision. Defined.

Definition SupportedExternalServices : list (gostring * list CodehostCapability) :=
  [(TypeGitHub, [CapabilityLabels; CapabilityDraftChangesets]); (TypeBitbucketServer, []);
   (TypeGitLab, [CapabilityLabels; CapabilityDraftChangesets]); (TypeBitbucketCloud, []);
   (TypeAzureDevOps, [CapabilityDraftChangesets]); (TypeGerrit, [CapabilityDraftChangesets])].

Definition IsRepoSupported (serviceType : gostring) : bool :=
  existsb (fun e => gs_eqb e.1 serviceType) SupportedExternalServices.
Definition ExternalServiceSupports (extSvcType : gostring) (capability : CodehostCapability) : bool :=
  existsb (fun e => gs_eqb e.1 extSvcType && existsb (fun c => eqb c capability) e.2) SupportedExternalServices.

Definition SupportsLabels (c : Changeset) : bool := ExternalServiceSupports (c_ExternalServiceType c) CapabilityLabels.
Definition SupportsDraft (c : Changeset) : bool := ExternalServiceSupports (c_ExternalServiceType c) CapabilityDraftChangesets.
