(* ===== verification/ReconcilerPlan.v ===== *)
(** The plan of the batch changes reconciler: [plan.go] and
    [publication_state.go] of [enterprise/internal/batches/reconciler]. *)
From S2P Require Import Prelude GoStr GoLib GoMap Changesets.

(** ** [publication_state.go] *)

Record publicationStateCalculator := MkCalculator { spec : PublishedValue; ui : option ChangesetUiPublicationState }.

Definition calculatePublicationState (specPublished : PublishedValue) (uiPublished : option ChangesetUiPublicationState)
    : publicationStateCalculator := MkCalculator specPublished uiPublished.

Definition IsPublished (c : publicationStateCalculator) : bool :=
  value_True (spec c) || (value_Nil (spec c) && eqb (ui c) (Some UiPublished)).
Definition IsDraft (c : publicationStateCalculator) : bool :=
  value_Draft (spec c) || (value_Nil (spec c) && eqb (ui c) (Some UiDraft)).
Definition IsUnpublished (c : publicationStateCalculator) : bool :=
  value_False (spec c) || (value_Nil (spec c) && (eqb (ui c) None || eqb (ui c) (Some UiUnpublished))).

(** ** Operations *)

Definition operationPrecedence (op : ReconcilerOperation) : Z :=
  match op with
  | OpPush | OpDetach | OpArchive | OpReattach => 0
  | OpImport | OpPublish | OpPublishDraft | OpClose => 1
  | OpReopen => 2
  | OpUndraft => 3
  | OpUpdate => 4
  | OpSleep => 5
  | OpSync => 6
  end%Z.

Abbreviation Operations := (list ReconcilerOperation).

Definition IsNone (ops : Operations) : bool := Nat.eqb (length ops) 0.

Definition ops_Contains (ops : Operations) (op : ReconcilerOperation) : bool := existsb (fun o => eqb o op) ops.

Definition ops_Equal (ops b : Operations) : bool :=
  if negb (Nat.eqb (length ops) (length b)) then false
  else forallb (fun op => ops_Contains b op) ops.

Definition unique_ops (ops : Operations) : Operations :=
  fold_left (fun unique op => if ops_Contains unique op then unique else unique ++ [op]) ops [].

Section Order.
Context {G : GoRuntime}.

Definition ExecutionOrder (ops : Operations) : list ReconcilerOperation :=
  sort_slice (fun a b => (operationPrecedence a <? operationPrecedence b)%Z) (unique_ops ops).

Definition Operations_String {U : UnicodeTables} (ops : Operations) : gostring :=
  if IsNone ops then str "No operations required"
  else Join (map (fun op => ToLower (operation_name op)) (ExecutionOrder ops)) (str " => ").
End Order.

(** ** Deltas *)

Record ChangesetSpecDelta := MkDelta {
  TitleChanged : bool; BodyChanged : bool; Undraft : bool; BaseRefChanged : bool; DiffChanged : bool;
  CommitMessageChanged : bool; AuthorNameChanged : bool; AuthorEmailChanged : bool
}.
Definition noDelta : ChangesetSpecDelta := MkDelta false false false false false false false false.

Definition NeedCommitUpdate (d : ChangesetSpecDelta) : bool :=
  DiffChanged d || CommitMessageChanged d || AuthorNameChanged d || AuthorEmailChanged d.
Definition NeedCodeHostUpdate (d : ChangesetSpecDelta) : bool := TitleChanged d || BodyChanged d || BaseRefChanged d.
Definition AttributesChanged (d : ChangesetSpecDelta) : bool := NeedCommitUpdate d || NeedCodeHostUpdate d.

Definition compareChangesetSpecs (previous : option ChangesetSpec) (current : ChangesetSpec)
    (uiPublicationState : option ChangesetUiPublicationState) : ChangesetSpecDelta :=
  match previous with
  | None => noDelta
  | Some previous =>
      let previousCalc := calculatePublicationState (spec_Published previous) uiPublicationState in
      let currentCalc := calculatePublicationState (spec_Published current) uiPublicationState in
      MkDelta
        (negb (gs_eqb (spec_Title previous) (spec_Title current)))
        (negb (gs_eqb (spec_Body previous) (spec_Body current)))
        (IsDraft previousCalc && IsPublished currentCalc)
        (negb (gs_eqb (spec_BaseRef previous) (spec_BaseRef current)))
        (negb (gs_eqb (spec_Diff previous) (spec_Diff current)))
        (negb (gs_eqb (spec_CommitMessage previous) (spec_CommitMessage current)))
        (negb (gs_eqb (spec_CommitAuthorName previous) (spec_CommitAuthorName current)))
        (negb (gs_eqb (spec_CommitAuthorEmail previous) (spec_CommitAuthorEmail current)))
  end.

(** ** The plan *)

Record Plan := MkPlan {
  p_Changeset : Changeset; p_ChangesetSpec : option ChangesetSpec; Ops : Operations; Delta : option ChangesetSpecDelta
}.
Definition AddOp (op : ReconcilerOperation) (p : Plan) : Plan :=
  MkPlan (p_Changeset p) (p_ChangesetSpec p) (Ops p ++ [op]) (Delta p).
Definition SetOp (op : ReconcilerOperation) (p : Plan) : Plan := MkPlan (p_Changeset p) (p_ChangesetSpec p) [op] (Delta p).

(** The local variables that the loop over the associations sets. *)
Record wants := MkWants {
  wantDetach : bool; wantArchive : bool; isArchived : bool; isStillAttached : bool; isReattach : bool;
  wantDetachFromOwnerBatchChange : bool
}.

Definition want_step (currentChangeset : option Changeset) (c : Changeset) (w : wants) (assoc : BatchChangeAssoc) : wants :=
  if a_Detach assoc then
    MkWants true (wantArchive w) (isArchived w) (isStillAttached w) (isReattach w)
      ((BatchChangeID assoc =? c_OwnedByBatchChangeID c)%Z || wantDetachFromOwnerBatchChange w)
  else if a_Archive assoc && (BatchChangeID assoc =? c_OwnedByBatchChangeID c)%Z && c_Published c then
    MkWants (wantDetach w) (negb (a_IsArchived assoc)) (a_IsArchived assoc) (isStillAttached w) (isReattach w)
      (wantDetachFromOwnerBatchChange w)
  else if match currentChangeset with Some cur => Nat.eqb (length (c_BatchChanges cur)) 0 | None => false end then
    MkWants (wantDetach w) (wantArchive w) (isArchived w) (isStillAttached w) true (wantDetachFromOwnerBatchChange w)
  else MkWants (wantDetach w) (wantArchive w) (isArchived w) true (isReattach w) (wantDetachFromOwnerBatchChange w).

Definition wants_of (currentChangeset : option Changeset) (c : Changeset) : wants :=
  fold_left (want_step currentChangeset c) (c_BatchChanges c) (MkWants false false false false false false).

Definition reopenAfterDetach (ch : Changeset) : bool :=
  let closed := eqb (c_ExternalState ch) ExternalClosed || eqb (c_ExternalState ch) ExternalReadOnly in
  if negb closed then false
  else if (c_OwnedByBatchChangeID ch =? 0)%Z then false
  else if c_Closing ch then false
  else AttachedTo ch (c_OwnedByBatchChangeID ch).

(** The case of an unpublished changeset. *)
Definition plan_unpublished (currentSpec : ChangesetSpec) (c : Changeset) (pl : Plan) : Plan :=
  let calc := calculatePublicationState (spec_Published currentSpec) (c_UiPublicationState c) in
  if IsPublished calc then AddOp OpPush (SetOp OpPublish pl)
  else if IsDraft calc && SupportsDraft c then AddOp OpPush (SetOp OpPublishDraft pl)
  else pl.

(** The case of a published changeset. *)
Definition plan_published (currentSpec : ChangesetSpec) (c : Changeset) (delta : ChangesetSpecDelta) (pl : Plan) : Plan :=
  if eqb (c_ExternalState c) ExternalMerged || eqb (c_ExternalState c) ExternalReadOnly then pl
  else
    let pl := if reopenAfterDetach c then SetOp OpReopen pl else pl in
    let pl :=
      if ExternalServiceSupports (c_ExternalServiceType c) CapabilityDraftChangesets then
        if Undraft delta then AddOp OpUndraft pl
        else
          let calc := calculatePublicationState (spec_Published currentSpec) (c_UiPublicationState c) in
          if IsPublished calc && eqb (c_ExternalState c) ExternalDraft then AddOp OpUndraft pl else pl
      else pl in
    if AttributesChanged delta then
      let pl := if NeedCommitUpdate delta then AddOp OpPush pl else pl in
      if negb (NeedCodeHostUpdate delta) then AddOp OpSync (AddOp OpSleep pl) else AddOp OpUpdate pl
    else pl.

Definition DeterminePlan (previousSpec currentSpec : option ChangesetSpec) (currentChangeset : option Changeset)
    (wantedChangeset : Changeset) : Plan * option gostring :=
  let c := wantedChangeset in
  let pl := MkPlan c currentSpec [] None in
  let w := wants_of currentChangeset c in
  let pl := if wantDetach w then SetOp OpDetach pl else pl in
  let pl := if wantArchive w then SetOp OpArchive pl else pl in
  if c_Closing c then
    (if negb (eqb (c_ExternalState c) ExternalReadOnly) then AddOp OpClose pl else pl, None)
  else if wantDetachFromOwnerBatchChange w || wantArchive w || isArchived w then (pl, None)
  else
    match currentSpec with
    | None =>
        if c_Unpublished c && isStillAttached w then (AddOp OpImport pl, None)
        else if isReattach w && negb (wantDetach w) then (AddOp OpReattach pl, None)
        else (pl, None)
    | Some currentSpec =>
        let pl := if bool_decide (is_Some previousSpec) && isReattach w && negb (wantDetach w) then AddOp OpReattach pl else pl in
        let delta := compareChangesetSpecs previousSpec currentSpec (c_UiPublicationState c) in
        let pl := MkPlan (p_Changeset pl) (p_ChangesetSpec pl) (Ops pl) (Some delta) in
        match c_PublicationState c with
        | Unpublished => (plan_unpublished currentSpec c pl, None)
        | Published => (plan_published currentSpec c delta pl, None)
        | OtherPublication s => (pl, Some (str "unknown changeset publication state: " ++ s))
        end
    end.
