(* ===== verification/ReconcilerFacts.v ===== *)
(** What the plan of the reconciler contains, operation by operation. *)
From stdpp Require Import sorting.
From S2P Require Import Prelude GoStr GoLib GoMap Changesets ReconcilerPlan.

(** ** Operations *)

Lemma ops_Contains_iff ops op : ops_Contains ops op = true <-> op ∈ ops.
Proof.
  unfold ops_Contains. rewrite existsb_exists, list_elem_of_In. setoid_rewrite bool_decide_eq_true. naive_solver.
Qed.

Lemma unique_ops_spec ops : NoDup (unique_ops ops) /\ forall op, op ∈ unique_ops ops <-> op ∈ ops.
Proof.
  unfold unique_ops. assert (forall l u, NoDup u ->
    let u' := fold_left (fun unique op => if ops_Contains unique op then unique else unique ++ [op]) l u in
    NoDup u' /\ forall op, op ∈ u' <-> op ∈ u \/ op ∈ l) as H.
  { induction l as [|a l IH]; intros u Hu; cbn [fold_left].
    - split; [done|]. intros op. split; [auto|]. by intros [?|?%not_elem_of_nil].
    - destruct (ops_Contains u a) eqn:E.
      + apply ops_Contains_iff in E. destruct (IH u Hu) as [H1 H2]. split; [done|]. intros op. rewrite H2, elem_of_cons. naive_solver.
      + assert (a ∉ u) as Ha by (rewrite <- ops_Contains_iff; congruence).
        destruct (IH (u ++ [a])) as [H1 H2].
        { apply NoDup_app. split_and!; [done| |apply NoDup_singleton]. intros x Hx ->%list_elem_of_singleton. done. }
        split; [done|]. intros op. rewrite H2, elem_of_app, list_elem_of_singleton, elem_of_cons. naive_solver. }
  destruct (H ops [] (NoDup_nil_2)) as [H1 H2]. split; [done|]. intros op. rewrite H2. split; [|auto].
  by intros [?%not_elem_of_nil|?].
Qed.

Lemma elem_of_StronglySorted_lookup {A} (R : A -> A -> Prop) (l : list A) i j a b :
  StronglySorted R l -> (i < j)%nat -> l !! i = Some a -> l !! j = Some b -> R a b.
Proof.
  intros H. revert i j. induction H as [|x l _ IH Hx]; intros i j Hij Ha Hb; [done|].
  destruct i as [|i], j as [|j]; cbn in *; [lia| |lia|].
  - injection Ha as ->. rewrite Forall_lookup in Hx. by eapply Hx.
  - eapply IH; [|done|done]. lia.
Qed.

#[export] Instance precedence_strict_weak : StrictWeak (fun a b => (operationPrecedence a <? operationPrecedence b)%Z).
Proof. split; intros; lia. Qed.

(** ** Associations *)

Section Wants.
Context (cur : option Changeset) (c : Changeset).

(** The owner's association that is to be archived or is archived. *)
Definition archive_assoc (a : BatchChangeAssoc) : bool :=
  negb (a_Detach a) && (a_Archive a && (BatchChangeID a =? c_OwnedByBatchChangeID c)%Z && c_Published c).
Definition plain_assoc (a : BatchChangeAssoc) : bool := negb (a_Detach a) && negb (archive_assoc a).
Definition was_detached : bool := match cur with Some cur => Nat.eqb (length (c_BatchChanges cur)) 0 | None => false end.

Lemma wants_spec :
  NoDup (map BatchChangeID (c_BatchChanges c)) ->
  wants_of cur c = MkWants
    (existsb a_Detach (c_BatchChanges c))
    (existsb (fun a => archive_assoc a && negb (a_IsArchived a)) (c_BatchChanges c))
    (existsb (fun a => archive_assoc a && a_IsArchived a) (c_BatchChanges c))
    (existsb plain_assoc (c_BatchChanges c) && negb was_detached)
    (existsb plain_assoc (c_BatchChanges c) && was_detached)
    (existsb (fun a => a_Detach a && (BatchChangeID a =? c_OwnedByBatchChangeID c)%Z) (c_BatchChanges c)).
Proof.
  unfold wants_of. induction (c_BatchChanges c) as [|a l IH] using rev_ind; intros Hn; [done|].
  rewrite fold_left_app, !existsb_app. rewrite map_app in Hn. apply NoDup_app in Hn as (Hn & Hd & _). rewrite (IH Hn).
  cbn [fold_left existsb]. unfold want_step. fold was_detached. cbn [wantDetach wantArchive isArchived isStillAttached isReattach wantDetachFromOwnerBatchChange].
  assert (forall f, archive_assoc a = true -> existsb (fun x => archive_assoc x && f x) l = false) as Hno.
  { intros f Ha. apply not_true_iff_false. rewrite existsb_exists. intros (b & Hb & [Hab _]%andb_true_iff). unfold archive_assoc in Ha, Hab.
    rewrite !andb_true_iff, !Z.eqb_eq in Ha, Hab. apply (Hd (BatchChangeID b)); [by apply list_elem_of_In, in_map|].
    apply list_elem_of_singleton. destruct Ha as (_ & (_ & ?) & _), Hab as (_ & (_ & ?) & _). congruence. }
  destruct (a_Detach a) eqn:Ed.
  - assert (archive_assoc a = false /\ plain_assoc a = false) as [-> ->] by (unfold plain_assoc, archive_assoc; by rewrite Ed).
    cbn. rewrite ?orb_false_r, ?orb_true_r. by rewrite orb_comm.
  - destruct (a_Archive a && (BatchChangeID a =? c_OwnedByBatchChangeID c)%Z && c_Published c) eqn:Ea.
    + assert (archive_assoc a = true /\ plain_assoc a = false) as [Ha ->] by (unfold plain_assoc, archive_assoc; by rewrite Ed, Ea).
      rewrite !Hno, Ha by done. cbn. by rewrite ?orb_false_r.
    + assert (archive_assoc a = false /\ plain_assoc a = true) as [-> ->] by (unfold plain_assoc, archive_assoc; by rewrite Ed, Ea).
      destruct was_detached; cbn; rewrite ?orb_false_r, ?orb_true_r, ?andb_false_r, ?andb_true_r; done.
Qed.
End Wants.

(** ** When an operation is due *)

Section Due.
Context (prev current : option ChangesetSpec) (cur : option Changeset) (c : Changeset).
Abbreviation w := (wants_of cur c).

(** Neither closing, nor archived or detached by the owner. *)
Definition active : bool :=
  negb (c_Closing c) && negb (wantDetachFromOwnerBatchChange w || wantArchive w || isArchived w).

Definition to_publish (s : ChangesetSpec) : bool := IsPublished (calculatePublicationState (spec_Published s) (c_UiPublicationState c)).
Definition to_draft (s : ChangesetSpec) : bool :=
  negb (to_publish s) && IsDraft (calculatePublicationState (spec_Published s) (c_UiPublicationState c)) && SupportsDraft c.
Definition delta_to (s : ChangesetSpec) : ChangesetSpecDelta := compareChangesetSpecs prev s (c_UiPublicationState c).

(** A published changeset that can still be written to. *)
Definition writable : bool :=
  eqb (c_PublicationState c) Published && negb (eqb (c_ExternalState c) ExternalMerged || eqb (c_ExternalState c) ExternalReadOnly).

Definition due_publish (s : ChangesetSpec) : bool := c_Unpublished c && to_publish s.
Definition due_draft (s : ChangesetSpec) : bool := c_Unpublished c && to_draft s.
Definition due_reopen : bool := writable && reopenAfterDetach c.
Definition due_undraft (s : ChangesetSpec) : bool :=
  writable && SupportsDraft c && (Undraft (delta_to s) || (to_publish s && eqb (c_ExternalState c) ExternalDraft)).

(** The operations that replace the ones planned before them. *)
Definition replaces (s : ChangesetSpec) : bool := due_publish s || due_draft s || due_reopen.

Definition with_spec (f : ChangesetSpec -> bool) : bool := match current with Some s => active && f s | None => false end.

Definition due (op : ReconcilerOperation) : bool :=
  match op with
  | OpArchive => wantArchive w
  | OpClose => c_Closing c && negb (eqb (c_ExternalState c) ExternalReadOnly)
  | OpDetach => wantDetach w && negb (wantArchive w) && negb (with_spec replaces)
  | OpImport => active && eqb current None && c_Unpublished c && isStillAttached w
  | OpReattach =>
      active && isReattach w && negb (wantDetach w) &&
      match current with
      | None => negb (c_Unpublished c && isStillAttached w)
      | Some s => bool_decide (is_Some prev) && negb (replaces s)
      end
  | OpPublish => with_spec due_publish
  | OpPublishDraft => with_spec due_draft
  | OpReopen => with_spec (fun _ => due_reopen)
  | OpUndraft => with_spec due_undraft
  | OpPush => with_spec (fun s => due_publish s || due_draft s || (writable && NeedCommitUpdate (delta_to s)))
  | OpUpdate => with_spec (fun s => writable && NeedCodeHostUpdate (delta_to s))
  | OpSleep | OpSync => with_spec (fun s => writable && NeedCommitUpdate (delta_to s) && negb (NeedCodeHostUpdate (delta_to s)))
  end.
End Due.

Section DueCorrect.
Context (prev : option ChangesetSpec) (cur : option Changeset) (c : Changeset).

Lemma plan_unpublished_ops s pl op :
  ops_Contains (Ops (plan_unpublished s c pl)) op =
  if to_publish c s then eqb OpPublish op || eqb OpPush op
  else if to_draft c s then eqb OpPublishDraft op || eqb OpPush op
  else ops_Contains (Ops pl) op.
Proof.
  unfold plan_unpublished, to_draft, to_publish. cbv zeta. destruct (IsPublished _); cbn [negb andb].
  - cbn. by rewrite orb_false_r.
  - destruct (IsDraft _ && SupportsDraft c); [|done]. cbn. by rewrite orb_false_r.
Qed.

Lemma Contains_app l l' op : ops_Contains (l ++ l') op = ops_Contains l op || ops_Contains l' op.
Proof. apply existsb_app. Qed.

Lemma plan_published_ops s pl op :
  c_PublicationState c = Published ->
  ops_Contains (Ops (plan_published s c (delta_to prev c s) pl)) op =
  (if due_reopen c then eqb OpReopen op else ops_Contains (Ops pl) op) ||
  (due_undraft prev c s && eqb OpUndraft op) ||
  (writable c && NeedCommitUpdate (delta_to prev c s) && eqb OpPush op) ||
  (writable c && NeedCodeHostUpdate (delta_to prev c s) && eqb OpUpdate op) ||
  (writable c && NeedCommitUpdate (delta_to prev c s) && negb (NeedCodeHostUpdate (delta_to prev c s)) && (eqb OpSleep op || eqb OpSync op)).
Proof.
  intros Hp. unfold plan_published, due_reopen, due_undraft, writable. rewrite Hp. rewrite (bool_decide_eq_true_2 _ eq_refl).
  cbn [andb]. destruct (_ || _) eqn:Em; cbn [negb andb orb]; [by rewrite !orb_false_r|].
  unfold AttributesChanged. fold (SupportsDraft c). fold (to_publish c s).
  destruct (reopenAfterDetach c), (SupportsDraft c), (Undraft (delta_to prev c s)), (NeedCommitUpdate (delta_to prev c s)),
    (NeedCodeHostUpdate (delta_to prev c s)); cbn [negb andb orb];
    try (destruct (to_publish c s && _)); cbn [AddOp SetOp Ops app]; rewrite ?Contains_app; destruct op; cbn;
    rewrite ?orb_false_r, ?orb_true_r; done.
Qed.
End DueCorrect.

Lemma DeterminePlan_due_spec prev current cur c op :
  ops_Contains (Ops (DeterminePlan prev current cur c).1) op = due prev current cur c op.
Proof.
  unfold DeterminePlan. cbv zeta. unfold due, with_spec, active.
  destruct (wants_of cur c) as [wd wa ia sa ra wo]. cbn [wantDetach wantArchive isArchived isStillAttached isReattach wantDetachFromOwnerBatchChange].
  destruct (c_Closing c) eqn:Ec; cbn [negb andb orb fst].
  - destruct (bool_decide (c_ExternalState c = ExternalReadOnly)); destruct wd, wa, current, op; reflexivity.
  - destruct (wo || wa || ia) eqn:Ew; cbn [negb andb orb fst].
    { destruct wd, wa, current, op; reflexivity. }
    apply orb_false_iff in Ew as [[-> ->]%orb_false_iff ->]. destruct current as [s|].
    2: { destruct (c_Unpublished c), sa, ra, wd, op; reflexivity. }
    fold (delta_to prev c s). unfold replaces, due_publish, due_draft. destruct (c_PublicationState c) as [| |o] eqn:Ep; cbn [fst].
    + rewrite plan_unpublished_ops. cbn [Ops].
      assert (c_Unpublished c = true) as -> by (unfold c_Unpublished; by rewrite Ep).
      assert (due_reopen c = false /\ writable c = false) as [-> Hw].
      { unfold due_reopen, writable. rewrite Ep. done. }
      unfold due_undraft. rewrite Hw. cbn [negb andb orb]. assert (to_publish c s = true -> to_draft c s = false) as Hd
        by (unfold to_draft; by intros ->).
      destruct (to_publish c s); [rewrite Hd by done; destruct (bool_decide (is_Some prev)), wd, ra, op; reflexivity|].
      destruct (to_draft c s); destruct (bool_decide (is_Some prev)), wd, ra, op; reflexivity.
    + rewrite plan_published_ops by done. cbn [Ops].
      assert (c_Unpublished c = false) as -> by (unfold c_Unpublished; by rewrite Ep). cbn [negb andb orb].
      assert (due_reopen c = true -> writable c = true) as Hr by (unfold due_reopen; by intros [? _]%andb_true_iff).
      assert (due_undraft prev c s = true -> writable c = true) as Hu by (unfold due_undraft; by intros [[? _]%andb_true_iff _]%andb_true_iff).
      destruct (due_reopen c), (due_undraft prev c s), (writable c); try (by specialize (Hr eq_refl)); try (by specialize (Hu eq_refl));
        cbn [negb andb orb]; destruct (NeedCommitUpdate (delta_to prev c s)), (NeedCodeHostUpdate (delta_to prev c s)); cbn [negb andb orb];
        destruct (bool_decide (is_Some prev)), wd, ra, op; reflexivity.
    + assert (c_Unpublished c = false) as -> by (unfold c_Unpublished; by rewrite Ep).
      assert (writable c = false) as Hw by (unfold writable; by rewrite Ep).
      unfold due_reopen, due_undraft. rewrite Hw. destruct (bool_decide (is_Some prev)), wd, ra, op; reflexivity.
Qed.

(** ** The table in terms of the data

    What is wanted of a changeset, read off the fields of the changeset and of its
    specs, without the functions of the planner. *)
Section Should.
Context (prev current : option ChangesetSpec) (cur : option Changeset) (c : Changeset).

(** A spec asks for a state, or leaves it to the user interface. *)
Definition asks_published (s : ChangesetSpec) : Prop :=
  spec_Published s = ValBool true \/ (spec_Published s = ValNil /\ c_UiPublicationState c = Some UiPublished).
Definition asks_draft (s : ChangesetSpec) : Prop :=
  spec_Published s = ValString (str "draft") \/ (spec_Published s = ValNil /\ c_UiPublicationState c = Some UiDraft).
Definition has_drafts : Prop := c_ExternalServiceType c ∈ [str "github"; str "gitlab"; str "azuredevops"; str "gerrit"].

Definition some_detach : Prop := exists a, a ∈ c_BatchChanges c /\ a_Detach a = true.
Definition owner_detaches : Prop := exists a, a ∈ c_BatchChanges c /\ a_Detach a = true /\ BatchChangeID a = c_OwnedByBatchChangeID c.
(** The owner's association is marked as one to archive. *)
Definition to_archive (a : BatchChangeAssoc) : Prop :=
  a_Detach a = false /\ a_Archive a = true /\ BatchChangeID a = c_OwnedByBatchChangeID c /\ c_PublicationState c = Published.
(** The last one of them decides. *)
Definition archive_mark (archived : bool) : Prop := exists pre a post, c_BatchChanges c = pre ++ a :: post /\
  to_archive a /\ a_IsArchived a = archived /\ Forall (fun x => ~ to_archive x) post.
Definition stays_attached : Prop := exists a, a ∈ c_BatchChanges c /\ a_Detach a = false /\ ~ to_archive a.
Definition was_unattached : Prop := exists d, cur = Some d /\ c_BatchChanges d = [].

(** Nothing ends the changeset: it is not to be closed, and its owner neither
    detaches nor archives it. *)
Definition goes_on : Prop := c_Closing c = false /\ ~ owner_detaches /\ ~ archive_mark false /\ ~ archive_mark true.

Definition open_to_writes : Prop :=
  c_PublicationState c = Published /\ c_ExternalState c <> ExternalMerged /\ c_ExternalState c <> ExternalReadOnly.
Definition publishes (s : ChangesetSpec) : Prop := c_PublicationState c = Unpublished /\ asks_published s.
Definition publishes_draft (s : ChangesetSpec) : Prop := c_PublicationState c = Unpublished /\ asks_draft s /\ has_drafts.
(** It is closed on the code host, and still attached to the batch change that owns it. *)
Definition reopens : Prop :=
  c_PublicationState c = Published /\ c_ExternalState c = ExternalClosed /\ c_OwnedByBatchChangeID c <> 0%Z /\ c_Closing c = false /\
  exists a, a ∈ c_BatchChanges c /\ BatchChangeID a = c_OwnedByBatchChangeID c.
Definition undrafts (s : ChangesetSpec) : Prop :=
  open_to_writes /\ has_drafts /\ asks_published s /\ ((exists p, prev = Some p /\ asks_draft p) \/ c_ExternalState c = ExternalDraft).
Definition commit_changed (s : ChangesetSpec) : Prop := exists p, prev = Some p /\
  ~ (spec_Diff p = spec_Diff s /\ spec_CommitMessage p = spec_CommitMessage s /\ spec_CommitAuthorName p = spec_CommitAuthorName s /\
     spec_CommitAuthorEmail p = spec_CommitAuthorEmail s).
Definition request_changed (s : ChangesetSpec) : Prop := exists p, prev = Some p /\
  ~ (spec_Title p = spec_Title s /\ spec_Body p = spec_Body s /\ spec_BaseRef p = spec_BaseRef s).

(** Publishing and reopening replace what was planned before them. *)
Definition overrides (s : ChangesetSpec) : Prop := publishes s \/ publishes_draft s \/ reopens.
Definition of_spec (P : ChangesetSpec -> Prop) : Prop := exists s, current = Some s /\ goes_on /\ P s.

Definition should (op : ReconcilerOperation) : Prop :=
  match op with
  | OpArchive => archive_mark false
  | OpClose => c_Closing c = true /\ c_ExternalState c <> ExternalReadOnly
  | OpDetach => some_detach /\ ~ archive_mark false /\ ~ of_spec overrides
  | OpImport => goes_on /\ current = None /\ c_PublicationState c = Unpublished /\ stays_attached /\ ~ was_unattached
  | OpReattach =>
      goes_on /\ stays_attached /\ was_unattached /\ ~ some_detach /\ forall s, current = Some s -> is_Some prev /\ ~ overrides s
  | OpPublish => of_spec publishes
  | OpPublishDraft => of_spec publishes_draft
  | OpReopen => of_spec (fun _ => reopens)
  | OpUndraft => of_spec undrafts
  | OpPush => of_spec (fun s => publishes s \/ publishes_draft s \/ (open_to_writes /\ commit_changed s))
  | OpUpdate => of_spec (fun s => open_to_writes /\ request_changed s)
  | OpSleep | OpSync => of_spec (fun s => open_to_writes /\ commit_changed s /\ ~ request_changed s)
  end.
End Should.

Section ShouldCorrect.
Context (prev current : option ChangesetSpec) (cur : option Changeset) (c : Changeset).

Lemma to_publish_iff s : to_publish c s = true <-> asks_published c s.
Proof.
  unfold to_publish, asks_published, IsPublished, calculatePublicationState. cbn [spec ui]. rewrite orb_true_iff, andb_true_iff, bool_decide_eq_true.
  destruct (spec_Published s) as [|[]|x|]; cbn; naive_solver.
Qed.
Lemma IsDraft_iff s : IsDraft (calculatePublicationState (spec_Published s) (c_UiPublicationState c)) = true <-> asks_draft c s.
Proof.
  unfold asks_draft, IsDraft, calculatePublicationState. cbn [spec ui]. rewrite orb_true_iff, andb_true_iff, bool_decide_eq_true.
  destruct (spec_Published s) as [|[]|x|]; cbn; [naive_solver..| |naive_solver]. unfold gs_eqb. rewrite bool_decide_eq_true. naive_solver.
Qed.
Lemma asks_one s : asks_draft c s -> ~ asks_published c s.
Proof. intros [E|[E E1]] [E2|[E2 E3]]; congruence. Qed.
Lemma SupportsDraft_iff : SupportsDraft c = true <-> has_drafts c.
Proof.
  unfold SupportsDraft, ExternalServiceSupports, has_drafts. cbn. rewrite ?andb_true_r, ?andb_false_r, ?orb_false_r, ?orb_false_l, !orb_true_iff.
  unfold gs_eqb. rewrite !bool_decide_eq_true, !elem_of_cons, elem_of_nil. naive_solver.
Qed.
Lemma to_draft_iff s : to_draft c s = true <-> asks_draft c s /\ has_drafts c.
Proof.
  unfold to_draft. rewrite !andb_true_iff, negb_true_iff, <- not_true_iff_false, to_publish_iff, IsDraft_iff, SupportsDraft_iff.
  pose proof (asks_one s). naive_solver.
Qed.
Lemma writable_iff : writable c = true <-> open_to_writes c.
Proof. unfold writable, open_to_writes. rewrite andb_true_iff, negb_true_iff, orb_false_iff, bool_decide_eq_true, !bool_decide_eq_false. done. Qed.
Lemma due_publish_iff s : due_publish c s = true <-> publishes c s.
Proof. unfold due_publish, publishes, c_Unpublished, publication_Unpublished. by rewrite andb_true_iff, bool_decide_eq_true, to_publish_iff. Qed.
Lemma due_draft_iff s : due_draft c s = true <-> publishes_draft c s.
Proof. unfold due_draft, publishes_draft, c_Unpublished, publication_Unpublished. by rewrite andb_true_iff, bool_decide_eq_true, to_draft_iff. Qed.
Lemma due_reopen_iff : due_reopen c = true <-> reopens c.
Proof.
  unfold due_reopen, reopens, reopenAfterDetach, AttachedTo. rewrite andb_true_iff, writable_iff. unfold open_to_writes.
  destruct (decide (c_ExternalState c = ExternalClosed)) as [->|Hne].
  - rewrite bool_decide_eq_true_2 by done. cbn [orb negb]. destruct (Z.eqb_spec (c_OwnedByBatchChangeID c) 0); [naive_solver|].
    destruct (c_Closing c); [naive_solver|]. rewrite existsb_exists. setoid_rewrite Z.eqb_eq. setoid_rewrite <- list_elem_of_In.
    split; [intros ((? & _ & _) & ?)|intros (? & _ & _ & _ & ?)]; done.
  - rewrite bool_decide_eq_false_2 by done. cbn [orb]. case_bool_decide; cbn [negb]; naive_solver.
Qed.
Lemma replaces_iff s : replaces c s = true <-> overrides c s.
Proof. unfold replaces, overrides. rewrite !orb_true_iff, due_publish_iff, due_draft_iff, due_reopen_iff. tauto. Qed.

Lemma gs_neq_iff a b : negb (gs_eqb a b) = true <-> a <> b.
Proof. unfold gs_eqb. by rewrite negb_true_iff, bool_decide_eq_false. Qed.
Lemma commit_iff s : NeedCommitUpdate (delta_to prev c s) = true <-> commit_changed prev s.
Proof.
  unfold delta_to, compareChangesetSpecs, commit_changed. destruct prev as [p|]; [|cbn; naive_solver]. unfold NeedCommitUpdate. cbn [DiffChanged CommitMessageChanged AuthorNameChanged AuthorEmailChanged].
  rewrite !orb_true_iff, !gs_neq_iff.
  split; [intros H; exists p; split; [done|]; tauto|]. intros (p' & [= <-] & H).
  destruct (decide (spec_Diff p = spec_Diff s)), (decide (spec_CommitMessage p = spec_CommitMessage s)),
    (decide (spec_CommitAuthorName p = spec_CommitAuthorName s)); tauto.
Qed.
Lemma request_iff s : NeedCodeHostUpdate (delta_to prev c s) = true <-> request_changed prev s.
Proof.
  unfold delta_to, compareChangesetSpecs, request_changed. destruct prev as [p|]; [|cbn; naive_solver]. unfold NeedCodeHostUpdate. cbn [TitleChanged BodyChanged BaseRefChanged].
  rewrite !orb_true_iff, !gs_neq_iff.
  split; [intros H; exists p; split; [done|]; tauto|]. intros (p' & [= <-] & H).
  destruct (decide (spec_Title p = spec_Title s)), (decide (spec_Body p = spec_Body s)); tauto.
Qed.
Lemma due_undraft_iff s : due_undraft prev c s = true <-> undrafts prev c s.
Proof.
  unfold due_undraft, undrafts. rewrite !andb_true_iff, orb_true_iff, andb_true_iff, writable_iff, SupportsDraft_iff, bool_decide_eq_true, to_publish_iff.
  assert (Undraft (delta_to prev c s) = true <-> (exists p, prev = Some p /\ asks_draft c p) /\ asks_published c s) as ->; [|tauto].
  unfold delta_to, compareChangesetSpecs. destruct prev as [p|]; [|cbn; naive_solver]. cbn [Undraft]. rewrite andb_true_iff, IsDraft_iff.
  fold (to_publish c s). rewrite to_publish_iff. naive_solver.
Qed.

Lemma archive_assoc_iff a : archive_assoc c a = true <-> to_archive c a.
Proof.
  unfold archive_assoc, to_archive, c_Published, publication_Published. rewrite !andb_true_iff, negb_true_iff, Z.eqb_eq, bool_decide_eq_true. tauto.
Qed.
(** The loop over the associations, in closed form. *)
Lemma wants_closed_form :
  wants_of cur c = MkWants
    (existsb a_Detach (c_BatchChanges c))
    (match last (List.filter (archive_assoc c) (c_BatchChanges c)) with Some a => negb (a_IsArchived a) | None => false end)
    (match last (List.filter (archive_assoc c) (c_BatchChanges c)) with Some a => a_IsArchived a | None => false end)
    (existsb (plain_assoc c) (c_BatchChanges c) && negb (was_detached cur))
    (existsb (plain_assoc c) (c_BatchChanges c) && was_detached cur)
    (existsb (fun a => a_Detach a && (BatchChangeID a =? c_OwnedByBatchChangeID c)%Z) (c_BatchChanges c)).
Proof.
  unfold wants_of. induction (c_BatchChanges c) as [|a l IH] using rev_ind; [done|].
  rewrite fold_left_app, !existsb_app, List.filter_app, IH. cbn [fold_left existsb List.filter]. unfold want_step. fold (was_detached cur).
  cbn [wantDetach wantArchive isArchived isStillAttached isReattach wantDetachFromOwnerBatchChange].
  destruct (a_Detach a) eqn:Ed.
  - assert (archive_assoc c a = false /\ plain_assoc c a = false) as [-> ->] by (unfold plain_assoc, archive_assoc; by rewrite Ed).
    rewrite app_nil_r, ?orb_false_r, ?orb_true_r. cbn [andb]. by rewrite orb_comm.
  - destruct (a_Archive a && (BatchChangeID a =? c_OwnedByBatchChangeID c)%Z && c_Published c) eqn:Ea.
    + assert (archive_assoc c a = true /\ plain_assoc c a = false) as [-> ->] by (unfold plain_assoc, archive_assoc; by rewrite Ed, Ea).
      rewrite last_snoc, !orb_false_r. cbn [andb]. by rewrite ?orb_false_r.
    + assert (archive_assoc c a = false /\ plain_assoc c a = true) as [-> ->] by (unfold plain_assoc, archive_assoc; by rewrite Ed, Ea).
      rewrite app_nil_r. cbn [andb]. rewrite ?orb_false_r, ?orb_true_r. by destruct (was_detached cur); rewrite ?andb_false_r, ?andb_true_r.
Qed.

Lemma last_filter {A} (f : A -> bool) (l : list A) a :
  last (List.filter f l) = Some a <-> exists pre post, l = pre ++ a :: post /\ f a = true /\ Forall (fun x => f x = false) post.
Proof.
  induction l as [|x l IH] using rev_ind.
  { split; [done|]. intros (pre & post & E & _). by destruct pre. }
  rewrite List.filter_app. cbn [List.filter]. destruct (f x) eqn:Ex.
  - rewrite last_snoc. split.
    + intros [= ->]. by exists l, [].
    + intros (pre & post & E & Ha & Hp). destruct post as [|y post _] using rev_ind; [by apply app_inj_tail in E as [_ ->]|].
      rewrite app_comm_cons, app_assoc in E. apply app_inj_tail in E as [_ E]. apply Forall_app in Hp as [_ Hy]. rewrite Forall_singleton in Hy. cbv beta in Hy. congruence.
  - rewrite app_nil_r, IH. split.
    + intros (pre & post & -> & Ha & Hp). exists pre, (post ++ [x]). rewrite <- app_assoc. split_and!; [done..|]. apply Forall_app. by rewrite Forall_singleton.
    + intros (pre & post & E & Ha & Hp). destruct post as [|y post _] using rev_ind; [apply app_inj_tail in E as [_ ->]; congruence|].
      rewrite app_comm_cons, app_assoc in E. apply app_inj_tail in E as [-> ->]. exists pre, post. split_and!; [done..|]. by apply Forall_app in Hp as [? _].
Qed.

Lemma archive_mark_iff b :
  match last (List.filter (archive_assoc c) (c_BatchChanges c)) with Some a => Bool.eqb (a_IsArchived a) b | None => false end = true <-> archive_mark c b.
Proof.
  transitivity (exists a, last (List.filter (archive_assoc c) (c_BatchChanges c)) = Some a /\ a_IsArchived a = b).
  { destruct (last _); [rewrite eqb_true_iff|]; naive_solver. }
  unfold archive_mark. setoid_rewrite last_filter. setoid_rewrite archive_assoc_iff. setoid_rewrite <- not_true_iff_false. setoid_rewrite archive_assoc_iff.
  split; [intros (a & (pre & post & ? & ? & ?) & ?)|intros (pre & a & post & ? & ? & ? & ?)]; [exists pre, a, post|exists a; split; [exists pre, post|]]; done.
Qed.

Lemma some_detach_iff : wantDetach (wants_of cur c) = true <-> some_detach c.
Proof. rewrite wants_closed_form. cbn [wantDetach]. rewrite existsb_exists. setoid_rewrite <- list_elem_of_In. done. Qed.
Lemma owner_detaches_iff : wantDetachFromOwnerBatchChange (wants_of cur c) = true <-> owner_detaches c.
Proof.
  rewrite wants_closed_form. cbn [wantDetachFromOwnerBatchChange]. rewrite existsb_exists. setoid_rewrite <- list_elem_of_In. setoid_rewrite andb_true_iff.
  by setoid_rewrite Z.eqb_eq.
Qed.
Lemma wantArchive_iff : wantArchive (wants_of cur c) = true <-> archive_mark c false.
Proof. rewrite wants_closed_form, <- archive_mark_iff. cbn [wantArchive]. destruct (last _) as [a|]; [|done]. by destruct (a_IsArchived a). Qed.
Lemma isArchived_iff : isArchived (wants_of cur c) = true <-> archive_mark c true.
Proof. rewrite wants_closed_form, <- archive_mark_iff. cbn [isArchived]. destruct (last _) as [a|]; [|done]. by destruct (a_IsArchived a). Qed.
Lemma plain_iff : existsb (plain_assoc c) (c_BatchChanges c) = true <-> stays_attached c.
Proof.
  rewrite existsb_exists. setoid_rewrite <- list_elem_of_In. unfold plain_assoc, stays_attached. setoid_rewrite andb_true_iff. setoid_rewrite negb_true_iff.
  setoid_rewrite <- (not_true_iff_false (archive_assoc _ _)). by setoid_rewrite archive_assoc_iff.
Qed.
Lemma was_detached_iff : was_detached cur = true <-> was_unattached cur.
Proof.
  unfold was_detached, was_unattached. destruct cur as [d|]; [|naive_solver]. split.
  - intros H. exists d. split; [done|]. by destruct (c_BatchChanges d).
  - by intros (d' & [= <-] & ->).
Qed.
Lemma still_attached_iff : isStillAttached (wants_of cur c) = true <-> stays_attached c /\ ~ was_unattached cur.
Proof. rewrite wants_closed_form. cbn [isStillAttached]. by rewrite andb_true_iff, negb_true_iff, <- not_true_iff_false, plain_iff, was_detached_iff. Qed.
Lemma reattach_iff : isReattach (wants_of cur c) = true <-> stays_attached c /\ was_unattached cur.
Proof. rewrite wants_closed_form. cbn [isReattach]. by rewrite andb_true_iff, plain_iff, was_detached_iff. Qed.

Lemma active_iff : active cur c = true <-> goes_on c.
Proof.
  unfold active, goes_on. rewrite andb_true_iff, !negb_true_iff, !orb_false_iff, <- !(not_true_iff_false (_ (wants_of _ _))).
  rewrite owner_detaches_iff, wantArchive_iff, isArchived_iff. tauto.
Qed.
Lemma with_spec_iff (f : ChangesetSpec -> bool) (P : ChangesetSpec -> Prop) : (forall s, f s = true <-> P s) ->
  with_spec current cur c f = true <-> of_spec current c P.
Proof.
  intros H. unfold with_spec, of_spec. destruct current as [s|]; [|naive_solver]. rewrite andb_true_iff, active_iff, H. naive_solver.
Qed.

Lemma due_iff op : due prev current cur c op = true <-> should prev current cur c op.
Proof.
  assert (c_Unpublished c = true <-> c_PublicationState c = Unpublished) as Hun by apply bool_decide_eq_true.
  destruct op; cbn [due should].
  - apply with_spec_iff. intros s. rewrite !orb_true_iff, andb_true_iff, due_publish_iff, due_draft_iff, writable_iff, commit_iff. tauto.
  - apply with_spec_iff. intros s. by rewrite andb_true_iff, writable_iff, request_iff.
  - apply with_spec_iff. intros s. apply due_undraft_iff.
  - apply with_spec_iff. intros s. apply due_publish_iff.
  - apply with_spec_iff. intros s. apply due_draft_iff.
  - apply with_spec_iff. intros s. rewrite !andb_true_iff, negb_true_iff, <- not_true_iff_false, writable_iff, commit_iff, request_iff. tauto.
  - rewrite !andb_true_iff, active_iff, bool_decide_eq_true, Hun, still_attached_iff. tauto.
  - by rewrite andb_true_iff, negb_true_iff, bool_decide_eq_false.
  - apply with_spec_iff. intros s. apply due_reopen_iff.
  - apply with_spec_iff. intros s. rewrite !andb_true_iff, negb_true_iff, <- not_true_iff_false, writable_iff, commit_iff, request_iff. tauto.
  - rewrite !andb_true_iff, !negb_true_iff, <- !not_true_iff_false, some_detach_iff, wantArchive_iff, (with_spec_iff _ (overrides c)); [tauto|].
    apply replaces_iff.
  - apply wantArchive_iff.
  - rewrite !andb_true_iff, negb_true_iff, <- not_true_iff_false, active_iff, reattach_iff, some_detach_iff. destruct current as [s|].
    + rewrite andb_true_iff, negb_true_iff, <- not_true_iff_false, bool_decide_eq_true, replaces_iff. naive_solver.
    + rewrite negb_true_iff, <- not_true_iff_false, andb_true_iff, still_attached_iff. naive_solver.
Qed.
End ShouldCorrect.


(** The execution order holds each operation of the plan once, and one of a lower precedence always before one of a higher. *)
Theorem ExecutionOrder_correct {G : GoRuntime} ops :
  NoDup (ExecutionOrder ops) /\ (forall op, op ∈ ExecutionOrder ops <-> op ∈ ops) /\
  (forall i j a b, (i < j)%nat -> ExecutionOrder ops !! i = Some a -> ExecutionOrder ops !! j = Some b ->
     (operationPrecedence a <= operationPrecedence b)%Z).
Proof.
  destruct (unique_ops_spec ops) as [H1 H2]. unfold ExecutionOrder. split_and!.
  - by rewrite sort_slice_perm.
  - intros op. by rewrite sort_slice_perm.
  - intros i j a b Hij Ha Hb. pose proof (sort_slice_ascending _ (unique_ops ops) precedence_strict_weak) as Hs.
    unfold ascending in Hs. pose proof (elem_of_StronglySorted_lookup _ _ i j a b Hs Hij Ha Hb). cbv beta in *. lia.
Qed.
