(* ===== verification/ChangesetHistory.v ===== *)
(** The history of a changeset and the state that is derived from it:
    [changeset_history.go], [changeset_events.go], [state.go] and [counts.go] of
    [enterprise/internal/batches/state], and the methods of [ChangesetEvent] that
    they use.

    Of an event the record keeps what [Timestamp], [ReviewAuthor] and the type
    switches read of its metadata.  The check state is not derived here. *)
From S2P Require Import Prelude GoStr GoLib GoMap Changesets.

(** ** Events *)

Inductive ChangesetEventKind :=
  | GitHubClosed | GitHubMerged | GitHubReopened | GitHubReviewed | GitHubReviewDismissed | GitHubReadyForReview | GitHubConvertToDraft
  | BitbucketServerApproved | BitbucketServerUnapproved | BitbucketServerDeclined | BitbucketServerReviewed
  | BitbucketServerReopened | BitbucketServerMerged | BitbucketServerDismissed
  | GitLabApproved | GitLabClosed | GitLabMerged | GitLabReopened | GitLabUnapproved | GitLabMarkWorkInProgress | GitLabUnmarkWorkInProgress
  | BitbucketCloudApproved | BitbucketCloudChangesRequested | BitbucketCloudPullRequestApproved
  | BitbucketCloudPullRequestChangesRequestCreated | BitbucketCloudPullRequestChangesRequestRemoved
  | BitbucketCloudPullRequestFulfilled | BitbucketCloudPullRequestRejected | BitbucketCloudPullRequestUnapproved
  | AzureDevOpsApproved | AzureDevOpsMerged | AzureDevOpsApprovedWithSuggestions | AzureDevOpsWaitingForAuthor | AzureDevOpsRejected
  | OtherKind (s : gostring).

#[export] Instance kind_eq_dec : EqDecision ChangesetEventKind.
Proof. solve_decision. Defined.

Record ChangesetEvent := MkEvent {
  ev_ChangesetID : Z;
  ev_Kind : ChangesetEventKind;
  Timestamp : Z;
  ReviewAuthor : gostring;
  (** the upper-cased state of a GitHub review, when the metadata is one *)
  ev_Review : option ChangesetReviewState;
  (** the metadata marks the changeset as a draft, or as ready *)
  ev_Draft : option bool
}.

Definition ev_ReviewState (e : ChangesetEvent) : result gostring ChangesetReviewState :=
  match ev_Kind e with
  | BitbucketServerApproved | GitLabApproved | BitbucketCloudApproved | BitbucketCloudPullRequestApproved | AzureDevOpsApproved =>
      Ok ReviewApproved
  | BitbucketServerReviewed | BitbucketCloudChangesRequested | BitbucketCloudPullRequestChangesRequestCreated
  | AzureDevOpsWaitingForAuthor | AzureDevOpsApprovedWithSuggestions => Ok ReviewChangesRequested
  | GitHubReviewed =>
      match ev_Review e with
      | None => Err (str "ChangesetEvent metadata event not PullRequestReview")
      | Some s => if review_Valid s then Ok s else Ok ReviewPending
      end
  | GitHubReviewDismissed | BitbucketServerUnapproved | BitbucketServerDismissed | GitLabUnapproved
  | BitbucketCloudPullRequestUnapproved | BitbucketCloudPullRequestChangesRequestRemoved | AzureDevOpsRejected => Ok ReviewDismissed
  | _ => Ok ReviewPending
  end.

(** [ChangesetEvents.Less], and [sort.IsSorted]. *)
Definition event_Less (a b : ChangesetEvent) : bool := (Timestamp a <? Timestamp b)%Z.
Fixpoint events_IsSorted (ce : list ChangesetEvent) : bool :=
  match ce with
  | a :: (b :: _) as ce' => events_IsSorted ce' && negb (event_Less b a)
  | _ => true
  end.

(** ** Review states *)

(** A set of states, as the [map] from states to [bool]. *)
Definition selectReviewState (states : ChangesetReviewState -> bool) : ChangesetReviewState :=
  if states ReviewChangesRequested then ReviewChangesRequested
  else if states ReviewApproved then ReviewApproved
  else ReviewPending.

Definition reduceReviewStates (statesByAuthor : gmap gostring ChangesetReviewState) : ChangesetReviewState :=
  selectReviewState (fun s => existsb (fun e => eqb e.2 s) (map_to_list statesByAuthor)).

(** ** The history *)

Record changesetStatesAtTime := MkStates { st_t : Z; st_external : ChangesetExternalState; st_review : ChangesetReviewState }.
Abbreviation changesetHistory := (list changesetStatesAtTime).

Fixpoint states_loop (h : changesetHistory) (t : Z) (found : option changesetStatesAtTime) : option changesetStatesAtTime :=
  match h with
  | [] => found
  | s :: h => if (t <? st_t s)%Z then found else states_loop h t (Some s)
  end.
Definition StatesAtTime (h : changesetHistory) (t : Z) : option changesetStatesAtTime := states_loop h t None.

Definition initialExternalState (ch : Changeset) (ce : list ChangesetEvent) : ChangesetExternalState :=
  let walk (open : bool) := fold_right (fun e open => match ev_Draft e with Some draft => draft | None => open end) open ce in
  let state (open : bool) := if walk open then ExternalOpen else ExternalDraft in
  match c_Metadata ch with
  | GitHub m => state (negb (gh_IsDraft m))
  | GitLab m => state (negb (gl_WorkInProgress m))
  | AzureDevOps m => state (negb (az_IsDraft m))
  | Gerrit m => state (negb (ge_WorkInProgress m))
  | _ => ExternalOpen
  end.

(** The variables of [computeHistory]. *)
Record history_vars := MkVars {
  states : changesetHistory;
  currentExtState : ChangesetExternalState;
  currentReviewState : ChangesetReviewState;
  lastReviewByAuthor : gmap gostring ChangesetReviewState;
  isDraft : bool
}.

Definition pushStates (t : Z) (v : history_vars) : history_vars :=
  MkVars (states v ++ [MkStates t (currentExtState v) (currentReviewState v)]) (currentExtState v) (currentReviewState v)
    (lastReviewByAuthor v) (isDraft v).
Definition set_ext (s : ChangesetExternalState) (v : history_vars) : history_vars :=
  MkVars (states v) s (currentReviewState v) (lastReviewByAuthor v) (isDraft v).
Definition set_draft (d : bool) (v : history_vars) : history_vars :=
  MkVars (states v) (currentExtState v) (currentReviewState v) (lastReviewByAuthor v) d.
Definition set_review (r : ChangesetReviewState) (m : gmap gostring ChangesetReviewState) (v : history_vars) : history_vars :=
  MkVars (states v) (currentExtState v) r m (isDraft v).

(** Merged and read-only are final. *)
Definition is_final (s : ChangesetExternalState) : bool := eqb s ExternalMerged || eqb s ExternalReadOnly.

(** The reviews are [m] now; a change of the overall state is recorded. *)
Definition push_reviews (t : Z) (m : gmap gostring ChangesetReviewState) (v : history_vars) : history_vars :=
  let newReviewState := reduceReviewStates m in
  if eqb newReviewState (currentReviewState v) then set_review (currentReviewState v) m v
  else pushStates t (set_review newReviewState m v).

Definition history_step (v : history_vars) (e : ChangesetEvent) : result gostring history_vars :=
  let et := Timestamp e in
  if (et =? 0)%Z then Ok v
  else
    match ev_Kind e with
    | GitHubClosed | BitbucketServerDeclined | GitLabClosed | BitbucketCloudPullRequestRejected =>
        if is_final (currentExtState v) then Ok v else Ok (pushStates et (set_ext ExternalClosed v))
    | GitHubMerged | BitbucketServerMerged | GitLabMerged | BitbucketCloudPullRequestFulfilled | AzureDevOpsMerged =>
        Ok (pushStates et (set_ext ExternalMerged v))
    | GitLabMarkWorkInProgress =>
        let v := set_draft true v in
        if eqb (currentExtState v) ExternalOpen then Ok (pushStates et (set_ext ExternalDraft v)) else Ok v
    | GitHubConvertToDraft =>
        let v := set_draft true v in
        if is_final (currentExtState v) then Ok v else Ok (pushStates et (set_ext ExternalDraft v))
    | GitLabUnmarkWorkInProgress | GitHubReadyForReview =>
        let v := set_draft false v in
        if eqb (currentExtState v) ExternalDraft then Ok (pushStates et (set_ext ExternalOpen v)) else Ok v
    | GitHubReopened | BitbucketServerReopened | GitLabReopened =>
        if is_final (currentExtState v) then Ok v
        else Ok (pushStates et (set_ext (if isDraft v then ExternalDraft else ExternalOpen) v))
    | GitHubReviewed | BitbucketServerApproved | BitbucketServerReviewed | GitLabApproved | BitbucketCloudApproved
    | BitbucketCloudPullRequestApproved | AzureDevOpsApproved =>
        match ev_ReviewState e with
        | Err err => Err err
        | Ok s =>
            if negb (eqb s ReviewApproved) && negb (eqb s ReviewChangesRequested) && negb (eqb s ReviewDismissed) then Ok v
            else if gs_eqb (ReviewAuthor e) [] then Ok v
            else
              let m := if eqb s ReviewDismissed then delete (ReviewAuthor e) (lastReviewByAuthor v)
                       else <[ReviewAuthor e := s]> (lastReviewByAuthor v) in
              Ok (push_reviews et m v)
        end
    | BitbucketServerUnapproved | BitbucketServerDismissed | GitLabUnapproved
    | BitbucketCloudPullRequestChangesRequestRemoved | BitbucketCloudPullRequestUnapproved =>
        if gs_eqb (ReviewAuthor e) [] then Ok v
        else if eqb (ev_Kind e) BitbucketServerUnapproved && negb (eqb (lastReviewByAuthor v !! ReviewAuthor e) (Some ReviewApproved)) then Ok v
        else if eqb (ev_Kind e) BitbucketServerDismissed && negb (eqb (lastReviewByAuthor v !! ReviewAuthor e) (Some ReviewChangesRequested))
          then Ok v
        else Ok (push_reviews et (delete (ReviewAuthor e) (lastReviewByAuthor v)) v)
    | AzureDevOpsRejected | AzureDevOpsApprovedWithSuggestions | AzureDevOpsWaitingForAuthor =>
        Ok (pushStates et (set_review ReviewChangesRequested (<[ReviewAuthor e := ReviewChangesRequested]> (lastReviewByAuthor v)) v))
    | _ => Ok v
    end.

Fixpoint history_loop (ce : list ChangesetEvent) (v : history_vars) : result gostring history_vars :=
  match ce with
  | [] => Ok v
  | e :: ce => match history_step v e with Err err => Err err | Ok v => history_loop ce v end
  end.

Definition computeHistory (ch : Changeset) (ce : list ChangesetEvent) : result gostring changesetHistory :=
  if negb (events_IsSorted ce) then Err (str "changeset events not sorted")
  else
    let ext := initialExternalState ch ce in
    let v := MkVars [] ext ReviewPending ∅ (eqb ext ExternalDraft) in
    let openedAt := ExternalCreatedAt ch in
    if (openedAt =? 0)%Z then Err (str "changeset ExternalCreatedAt has zero value")
    else
      match history_loop ce (pushStates openedAt v) with
      | Err err => Err err
      | Ok v =>
          let deletedAt := c_ExternalDeletedAt ch in
          let v := if negb (deletedAt =? 0)%Z then pushStates deletedAt (set_ext ExternalClosed v) else v in
          Ok (states v)
      end.

(** ** States of a single changeset *)

(** [ChangesetExternalState(s)]. *)
Definition external_of (s : gostring) : ChangesetExternalState :=
  if gs_eqb s (str "DRAFT") then ExternalDraft
  else if gs_eqb s (str "OPEN") then ExternalOpen
  else if gs_eqb s (str "CLOSED") then ExternalClosed
  else if gs_eqb s (str "MERGED") then ExternalMerged
  else if gs_eqb s (str "DELETED") then ExternalDeleted
  else if gs_eqb s (str "READONLY") then ExternalReadOnly
  else OtherExternal s.
Definition external_string (s : ChangesetExternalState) : gostring :=
  match s with
  | ExternalDraft => str "DRAFT" | ExternalOpen => str "OPEN" | ExternalClosed => str "CLOSED" | ExternalMerged => str "MERGED"
  | ExternalDeleted => str "DELETED" | ExternalReadOnly => str "READONLY" | OtherExternal s => s
  end.

Definition computeSingleChangesetExternalState (c : Changeset) : result gostring ChangesetExternalState :=
  if negb (c_ExternalDeletedAt c =? 0)%Z then Ok ExternalDeleted
  else
    let checked s := if external_Valid s then Ok s else Err (str "changeset state invalid: " ++ external_string s) in
    match c_Metadata c with
    | GitHub m =>
        if gh_IsDraft m && gs_eqb (gh_State m) (str "OPEN") then Ok ExternalDraft else checked (external_of (gh_State m))
    | BitbucketServer m =>
        if gs_eqb (bs_State m) (str "DECLINED") then Ok ExternalClosed else checked (external_of (bs_State m))
    | GitLab m =>
        if gs_eqb (gl_State m) (str "closed") || gs_eqb (gl_State m) (str "locked") then Ok ExternalClosed
        else if gs_eqb (gl_State m) (str "merged") then Ok ExternalMerged
        else if gs_eqb (gl_State m) (str "opened") then Ok (if gl_WorkInProgress m then ExternalDraft else ExternalOpen)
        else Err (str "unknown GitLab merge request state: " ++ gl_State m)
    | BitbucketCloud m =>
        if gs_eqb (bc_State m) (str "DECLINED") || gs_eqb (bc_State m) (str "SUPERSEDED") then Ok ExternalClosed
        else if gs_eqb (bc_State m) (str "MERGED") then Ok ExternalMerged
        else if gs_eqb (bc_State m) (str "OPEN") then Ok ExternalOpen
        else Err (str "unknown Bitbucket Cloud pull request state: " ++ bc_State m)
    | AzureDevOps m =>
        if gs_eqb (az_Status m) (str "abandoned") then Ok ExternalClosed
        else if gs_eqb (az_Status m) (str "completed") then Ok ExternalMerged
        else if gs_eqb (az_Status m) (str "active") then Ok (if az_IsDraft m then ExternalDraft else ExternalOpen)
        else Err (str "unknown Azure DevOps pull request state: " ++ az_Status m)
    | Gerrit m =>
        if gs_eqb (ge_Status m) (str "ABANDONED") then Ok ExternalClosed
        else if gs_eqb (ge_Status m) (str "MERGED") then Ok ExternalMerged
        else if gs_eqb (ge_Status m) (str "NEW") then Ok (if ge_WorkInProgress m then ExternalDraft else ExternalOpen)
        else Err (str "unknown Gerrit Change state: " ++ ge_Status m)
    | NoMetadata => Err (str "unknown changeset type")
    end.

Definition bitbucketServerReview (status : gostring) : option ChangesetReviewState :=
  if gs_eqb status (str "UNAPPROVED") then Some ReviewPending
  else if gs_eqb status (str "NEEDS_WORK") then Some ReviewChangesRequested
  else if gs_eqb status (str "APPROVED") then Some ReviewApproved
  else None.
Definition bitbucketCloudReview (state : gostring) : ChangesetReviewState :=
  if gs_eqb state (str "approved") then ReviewApproved
  else if gs_eqb state (str "changes_requested") then ReviewChangesRequested
  else ReviewPending.
Definition azureReview (vote : Z) : ChangesetReviewState :=
  if (vote =? 10)%Z then ReviewApproved
  else if (vote =? 5)%Z || (vote =? -5)%Z || (vote =? -10)%Z then ReviewChangesRequested
  else ReviewPending.
Definition gerritReview (score : gostring) : ChangesetReviewState :=
  if gs_eqb score (str "+2") || gs_eqb score (str "+1") then ReviewApproved
  else if gs_eqb score (str " 0") then ReviewPending
  else if gs_eqb score (str "-1") || gs_eqb score (str "-2") then ReviewChangesRequested
  else ReviewPending.

(** The first note that approves, or takes an approval back. *)
Fixpoint gitLabReview (notes : list Note) : ChangesetReviewState :=
  match notes with
  | [] => ReviewPending
  | ApprovedNote :: _ => ReviewApproved
  | UnapprovedNote :: _ => ReviewChangesRequested
  | OtherNote :: notes => gitLabReview notes
  end.

Definition computeSingleChangesetReviewState (c : Changeset) : result gostring ChangesetReviewState :=
  let select (l : list ChangesetReviewState) := Ok (selectReviewState (fun s => existsb (fun x => eqb x s) l)) in
  match c_Metadata c with
  | GitHub m => Ok ReviewPending
  | BitbucketServer m => select (omap bitbucketServerReview (bs_Reviewers m))
  | GitLab m => Ok (gitLabReview (gl_Notes m))
  | BitbucketCloud m => select (map bitbucketCloudReview (bc_Participants m))
  | AzureDevOps m => select (map azureReview (az_Votes m))
  | Gerrit m => match ge_CodeReviews m with None => select [ReviewPending] | Some l => select (map gerritReview l) end
  | NoMetadata => Err (str "unknown changeset type")
  end.

(** ** The derived states *)

(** The part of [types.Repo] that is used. *)
Record Repo := MkRepo { r_ID : Z; r_Name : gostring; r_ServiceType : gostring; r_Archived : bool }.

Definition computeExternalState (c : Changeset) (history : changesetHistory) (repo : Repo) : result gostring ChangesetExternalState :=
  if r_Archived repo then Ok ExternalReadOnly
  else
    match last history with
    | None => computeSingleChangesetExternalState c
    | Some newestDataPoint =>
        if (st_t newestDataPoint <? c_UpdatedAt c)%Z then computeSingleChangesetExternalState c
        else Ok (st_external newestDataPoint)
    end.

Definition computeReviewState (c : Changeset) (history : changesetHistory) : result gostring ChangesetReviewState :=
  match last history with
  | None => computeSingleChangesetReviewState c
  | Some newestDataPoint =>
      if gs_eqb (c_ExternalServiceType c) TypeGitHub then Ok (st_review newestDataPoint)
      else if (st_t newestDataPoint <? c_UpdatedAt c)%Z then computeSingleChangesetReviewState c
      else Ok (st_review newestDataPoint)
  end.

(** ** Counts over time *)

Record ChangesetCounts := MkCounts {
  Time : Z; Total : Z; Merged : Z; Closed : Z; Draft : Z; Open : Z; OpenApproved : Z; OpenChangesRequested : Z; OpenPending : Z
}.
Definition zeroCounts (t : Z) : ChangesetCounts := MkCounts t 0 0 0 0 0 0 0 0.

(** The counts are [int32]s, incremented. *)
Definition inc (n : Z) : Z := wrap_int32 (n + 1).

Definition count_states (s : changesetStatesAtTime) (c : ChangesetCounts) : ChangesetCounts :=
  let c := MkCounts (Time c) (inc (Total c)) (Merged c) (Closed c) (Draft c) (Open c) (OpenApproved c) (OpenChangesRequested c) (OpenPending c) in
  match st_external s with
  | ExternalDraft => MkCounts (Time c) (Total c) (Merged c) (Closed c) (inc (Draft c)) (Open c) (OpenApproved c) (OpenChangesRequested c) (OpenPending c)
  | ExternalOpen =>
      let c := MkCounts (Time c) (Total c) (Merged c) (Closed c) (Draft c) (inc (Open c)) (OpenApproved c) (OpenChangesRequested c) (OpenPending c) in
      match st_review s with
      | ReviewPending => MkCounts (Time c) (Total c) (Merged c) (Closed c) (Draft c) (Open c) (OpenApproved c) (OpenChangesRequested c) (inc (OpenPending c))
      | ReviewApproved => MkCounts (Time c) (Total c) (Merged c) (Closed c) (Draft c) (Open c) (inc (OpenApproved c)) (OpenChangesRequested c) (OpenPending c)
      | ReviewChangesRequested => MkCounts (Time c) (Total c) (Merged c) (Closed c) (Draft c) (Open c) (OpenApproved c) (inc (OpenChangesRequested c)) (OpenPending c)
      | _ => c
      end
  | ExternalMerged => MkCounts (Time c) (Total c) (inc (Merged c)) (Closed c) (Draft c) (Open c) (OpenApproved c) (OpenChangesRequested c) (OpenPending c)
  | ExternalClosed | ExternalReadOnly =>
      MkCounts (Time c) (Total c) (Merged c) (inc (Closed c)) (Draft c) (Open c) (OpenApproved c) (OpenChangesRequested c) (OpenPending c)
  | _ => c
  end.

Definition count_history (h : changesetHistory) (c : ChangesetCounts) : ChangesetCounts :=
  match StatesAtTime h (Time c) with None => c | Some s => count_states s c end.

Definition timestampCount : Z := 150.

(** [end.Sub(start)], a [Duration]. *)
Definition time_Sub (a b : Z) : Z := Z.max (- 2 ^ 63) (Z.min (2 ^ 63 - 1) (a - b)).

(** The loop that walks backwards from [end] to [start]. *)
Fixpoint timestamps_loop (fuel : nat) (start timeStep t : Z) (ts : list Z) : run (list Z) :=
  match fuel with
  | O => OutOfFuel
  | S fuel => if (t <? start)%Z then Done ts else timestamps_loop fuel start timeStep (t - timeStep) (ts ++ [t])
  end.
Definition GenerateTimestamps (fuel : nat) (start end_ : Z) : run (list Z) :=
  let timeStep := Z.quot (time_Sub end_ start) timestampCount in
  let! ts := timestamps_loop fuel start timeStep end_ [] in
  Done (rev ts).

(** The changesets are distinct pointers, here their positions in the list. *)
Fixpoint counts_loop (order : list (Changeset * list ChangesetEvent)) (counts : list ChangesetCounts)
    : list ChangesetCounts * option gostring :=
  match order with
  | [] => (counts, None)
  | (changeset, csEvents) :: order =>
      match computeHistory changeset csEvents with
      | Err err => (counts, Some err)
      | Ok history => counts_loop order (map (count_history history) counts)
      end
  end.

Definition by_changeset (cs : list Changeset) (es : list ChangesetEvent) : list (Changeset * list ChangesetEvent) :=
  map (fun c => (c, List.filter (fun e => (ev_ChangesetID e =? c_ID c)%Z) es)) cs.

Definition CalcCounts {G : GoRuntime} (fuel : nat) (start end_ : Z) (cs : list Changeset) (es : list ChangesetEvent)
    : run (list ChangesetCounts * option gostring) :=
  let! ts := GenerateTimestamps fuel start end_ in
  let byChangeset : gmap nat (Changeset * list ChangesetEvent) := list_to_map (imap pair (by_changeset cs es)) in
  Done (counts_loop (map snd (map_range 0 byChangeset)) (map zeroCounts ts)).
