(* ===== verification/HistoryFacts.v ===== *)
(** The history of a changeset is a timeline: it starts when the changeset was
    opened, it only holds states that the counts distinguish, and nothing but a
    deletion leaves the merged state.  What a changeset looks like at a time is
    stated from its events alone, without the states that the code computes on the
    way, and the counts of a burndown chart are the numbers of changesets that look
    open, merged, closed and so on then. *)
From stdpp Require Import sorting.
From S2P Require Import Prelude GoStr GoLib GoMap Changesets ChangesetHistory.

(** ** Timestamps *)

Section Timestamps.
Context (start step : Z) (Hstep : (0 < step)%Z).

(** [end, end - step, ...], [n] of them. *)
Fixpoint steps_back (n : nat) (t : Z) : list Z :=
  match n with O => [] | S n => t :: steps_back n (t - step) end.

Definition steps_count (t : Z) : nat := if (t <? start)%Z then 0%nat else S (Z.to_nat ((t - start) / step)).

Lemma steps_count_next t : (start <= t)%Z -> steps_count t = S (steps_count (t - step)).
Proof.
  intros Ht. unfold steps_count. assert ((t <? start)%Z = false) as -> by lia. destruct (t - step <? start)%Z eqn:E.
  - by rewrite Z.div_small by lia.
  - assert (0 <= (t - step - start) / step)%Z by (apply Z.div_pos; lia).
    assert ((t - start) / step = (t - step - start) / step + 1)%Z as ->; [|lia].
    replace (t - start)%Z with (t - step - start + 1 * step)%Z by lia. rewrite Z.div_add by lia. lia.
Qed.

Lemma timestamps_loop_spec fuel t ts :
  (steps_count t < fuel)%nat -> timestamps_loop fuel start step t ts = Done (ts ++ steps_back (steps_count t) t).
Proof.
  revert t ts. induction fuel as [|fuel IH]; intros t ts Hf; [lia|]. cbn [timestamps_loop].
  destruct (t <? start)%Z eqn:E.
  - assert (steps_count t = 0%nat) as -> by (unfold steps_count; by rewrite E). by rewrite app_nil_r.
  - rewrite steps_count_next in Hf |- * by lia. rewrite IH by lia. cbn [steps_back]. by rewrite <- app_assoc.
Qed.

Lemma steps_back_lookup n t i : steps_back n t !! i = if (i <? n)%nat then Some (t - Z.of_nat i * step)%Z else None.
Proof.
  revert t i. induction n as [|n IH]; intros t [|i]; cbn [steps_back lookup list_lookup]; try done.
  - f_equal. lia.
  - rewrite IH. change (S i <? S n)%nat with (i <? n)%nat. destruct (i <? n)%nat; f_equal. lia.
Qed.

Lemma steps_back_length n t : length (steps_back n t) = n.
Proof. revert t. induction n; intros; cbn; auto. Qed.
End Timestamps.

(** The walk never ends when the step is zero. *)
Lemma timestamps_loop_zero fuel start t ts : (start <= t)%Z -> timestamps_loop fuel start 0 t ts = OutOfFuel.
Proof.
  revert ts. induction fuel as [|fuel IH]; intros ts Ht; cbn [timestamps_loop]; [done|].
  assert ((t <? start)%Z = false) as -> by lia. rewrite Z.sub_0_r. by apply IH.
Qed.

(** when the two times are at least 150 nanoseconds (and at most 292 years) apart, [GenerateTimestamps] returns: at least 151
    times, in ascending order, equally spaced by a 150th of the difference, the first at or less than one step after [start], the last
    exactly [end]. *)
Theorem GenerateTimestamps_correct fuel start end_ :
  (150 <= end_ - start < 2 ^ 63)%Z ->
  let step := Z.quot (end_ - start) timestampCount in
  (Z.to_nat ((end_ - start) / step) + 2 <= fuel)%nat ->
  exists ts, GenerateTimestamps fuel start end_ = Done ts /\
    (151 <= length ts)%nat /\ (length ts = Z.to_nat ((end_ - start) / step) + 1)%nat /\
    (forall i, (i < length ts)%nat -> ts !! i = Some (end_ - Z.of_nat (length ts - 1 - i) * step)%Z) /\
    (exists t, head ts = Some t /\ start <= t < start + step)%Z.
Proof.
  intros Hd step Hf. unfold GenerateTimestamps.
  assert (time_Sub end_ start = end_ - start)%Z as -> by (unfold time_Sub; lia). fold step.
  assert (step = (end_ - start) / 150)%Z as Es by (unfold step, timestampCount; by rewrite Z.quot_div_nonneg by lia).
  assert (1 <= step)%Z as Hs by (rewrite Es; apply Z.div_le_lower_bound; lia).
  assert (150 * step <= end_ - start)%Z as Hle by (rewrite Es; apply Z.mul_div_le; lia).
  assert (150 <= (end_ - start) / step)%Z as Hq by (apply Z.div_le_lower_bound; lia).
  assert (steps_count start step end_ = Z.to_nat ((end_ - start) / step) + 1)%nat as Hc.
  { unfold steps_count. assert ((end_ <? start)%Z = false) as -> by lia. lia. }
  rewrite timestamps_loop_spec by lia. cbn [run_bind app]. eexists. split; [done|].
  assert (forall i, (i < steps_count start step end_)%nat ->
    rev (steps_back step (steps_count start step end_) end_) !! i =
    Some (end_ - Z.of_nat (steps_count start step end_ - 1 - i) * step)%Z) as Hl.
  { intros i Hi. rewrite rev_alt; fold (reverse (steps_back step (steps_count start step end_) end_)); rewrite reverse_lookup, steps_back_length, steps_back_lookup by (rewrite ?steps_back_length; done).
    assert ((steps_count start step end_ - S i <? steps_count start step end_)%nat = true) as -> by (apply Nat.ltb_lt; lia).
    do 3 f_equal. lia. }
  rewrite length_rev, steps_back_length, Hc. rewrite Hc in Hl. split_and!; [lia|lia|done|].
  exists (end_ - ((end_ - start) / step) * step)%Z.
  pose proof (Z.div_mod (end_ - start) step ltac:(lia)). pose proof (Z.mod_pos_bound (end_ - start) step ltac:(lia)).
  split; [|nia]. rewrite head_lookup, Hl by lia. do 2 f_equal. f_equal. lia.
Qed.

(** ** The timeline *)

Definition ext_known (s : ChangesetExternalState) : bool :=
  match s with ExternalDraft | ExternalOpen | ExternalClosed | ExternalMerged => true | _ => false end.
Definition review_known (s : ChangesetReviewState) : bool :=
  match s with ReviewPending | ReviewApproved | ReviewChangesRequested => true | _ => false end.
Definition states_known (s : changesetStatesAtTime) : bool := ext_known (st_external s) && review_known (st_review s).

(** Once merged, always merged. *)
Fixpoint merged_stays (h : changesetHistory) : Prop :=
  match h with
  | [] => True
  | s :: h => (st_external s = ExternalMerged -> Forall (fun s' => st_external s' = ExternalMerged) h) /\ merged_stays h
  end.

Lemma merged_stays_app h s :
  merged_stays (h ++ [s]) <-> merged_stays h /\ (Exists (fun s' => st_external s' = ExternalMerged) h -> st_external s = ExternalMerged).
Proof.
  induction h as [|a h IH]; cbn [merged_stays app].
  - split; [|by intros _]. intros _. split; [done|]. by intros ?%Exists_nil.
  - rewrite IH, Forall_app, Forall_singleton, Exists_cons. naive_solver.
Qed.

Lemma merged_stays_last h s :
  merged_stays (h ++ [s]) -> Exists (fun s' => st_external s' = ExternalMerged) (h ++ [s]) -> st_external s = ExternalMerged.
Proof. rewrite merged_stays_app, Exists_app, Exists_cons, Exists_nil. naive_solver. Qed.

(** The invariant of the loop: the last entry shows the current states. *)
Record timeline (first : changesetStatesAtTime) (v : history_vars) : Prop := {
  tl_last : exists h t, states v = h ++ [MkStates t (currentExtState v) (currentReviewState v)];
  tl_first : head (states v) = Some first;
  tl_known : Forall states_known (states v);
  tl_merged : merged_stays (states v);
  tl_draft : match currentExtState v with ExternalDraft => isDraft v = true | ExternalOpen => isDraft v = false | _ => True end;
  tl_review : currentReviewState v = reduceReviewStates (lastReviewByAuthor v)
}.

Lemma selectReviewState_known f : review_known (selectReviewState f) = true.
Proof. unfold selectReviewState. by destruct (f ReviewChangesRequested), (f ReviewApproved). Qed.

Lemma timeline_current first v : timeline first v -> ext_known (currentExtState v) = true /\ review_known (currentReviewState v) = true.
Proof.
  intros [(h & t & E) _ Hk _ _ _]. rewrite E, Forall_app, Forall_singleton in Hk. destruct Hk as [_ Hk%Is_true_true].
  by apply andb_true_iff in Hk.
Qed.

Lemma timeline_not_merged first v : timeline first v -> currentExtState v <> ExternalMerged ->
  ~ Exists (fun s => st_external s = ExternalMerged) (states v).
Proof. intros [(h & t & E) _ _ Hm _ _] Hn He. rewrite E in *. by apply merged_stays_last in He. Qed.

(** A state is pushed. *)
Lemma timeline_push first v t ext review last draft :
  timeline first v -> ext_known ext = true -> (currentExtState v = ExternalMerged -> ext = ExternalMerged) ->
  match ext with ExternalDraft => draft = true | ExternalOpen => draft = false | _ => True end ->
  review = reduceReviewStates last ->
  timeline first (pushStates t (MkVars (states v) ext review last draft)).
Proof.
  intros Hv He Hm Hd Hr. pose proof (timeline_not_merged _ _ Hv) as Hn. destruct Hv as [(h & t' & E) Hf Hk Hms _ _].
  split; cbn [pushStates states currentExtState currentReviewState lastReviewByAuthor isDraft]; [by eauto| | | |done|done].
  - rewrite E in *. by destruct h.
  - rewrite Forall_app, Forall_singleton. split; [done|]. unfold states_known. cbn [st_external st_review]. rewrite He, Hr.
    unfold reduceReviewStates. by rewrite selectReviewState_known.
  - apply merged_stays_app. split; [done|]. intros Hx. cbn [st_external]. destruct (decide (currentExtState v = ExternalMerged)) as [Em|Em].
    + by apply Hm.
    + by destruct (Hn Em).
Qed.

Lemma timeline_set_draft first v d : timeline first v ->
  match currentExtState v with ExternalDraft => d = true | ExternalOpen => d = false | _ => True end -> timeline first (set_draft d v).
Proof. intros [] ?. by split. Qed.

Lemma timeline_push_reviews first v t m : timeline first v -> timeline first (push_reviews t m v).
Proof.
  intros Hv. unfold push_reviews, set_review. destruct (bool_decide _) eqn:E.
  - apply bool_decide_eq_true in E. destruct Hv. split; try done.
  - pose proof (timeline_current _ _ Hv) as [? _]. apply timeline_push; try done. by destruct Hv.
Qed.

Lemma is_final_false s : is_final s = false -> s <> ExternalMerged.
Proof. by intros E ->. Qed.

Lemma reduce_changes_requested (m : gmap gostring ChangesetReviewState) a : reduceReviewStates (<[a := ReviewChangesRequested]> m) = ReviewChangesRequested.
Proof.
  unfold reduceReviewStates, selectReviewState. assert (existsb _ _ = true) as ->; [|done].
  apply existsb_exists. exists (a, ReviewChangesRequested). split; [|by apply bool_decide_eq_true].
  apply list_elem_of_In, elem_of_map_to_list, lookup_insert_eq.
Qed.

Lemma history_step_timeline first v e v' : timeline first v -> history_step v e = Ok v' -> timeline first v'.
Proof.
  intros Hv. pose proof (tl_draft _ _ Hv) as Hd. pose proof (timeline_push_reviews first v (Timestamp e)) as Hp.
  unfold history_step. destruct (Timestamp e =? 0)%Z; [by intros [= <-]|].
  assert (forall d ext, (is_final (currentExtState v) = false \/ ext = ExternalMerged) -> ext_known ext = true ->
    match ext with ExternalDraft => d = true | ExternalOpen => d = false | _ => True end ->
    timeline first (pushStates (Timestamp e) (set_ext ext (set_draft d v)))) as Hpush.
  { intros d ext Hf He Hx. unfold set_ext, set_draft. apply (timeline_push first v); try done.
    - intros Em. destruct Hf as [Hf|Hf]; [|done]. by apply is_final_false in Hf.
    - by destruct Hv. }
  assert (forall ext, pushStates (Timestamp e) (set_ext ext v) = pushStates (Timestamp e) (set_ext ext (set_draft (isDraft v) v))) as Hsame
    by (by destruct v).
  destruct (ev_Kind e) eqn:Ek; cbv zeta; cbn [set_draft currentExtState];
    try (by intros [= <-]);
    try (case_match eqn:Ef; intros [= <-]; rewrite ?Hsame; try done; try (by apply Hpush; auto); by apply Hpush; [auto|by destruct (isDraft v)|by destruct (isDraft v)]);
    try (intros [= <-]; rewrite Hsame; apply Hpush; by auto);
    try (destruct (ev_ReviewState e) as [s|]; [|done]; repeat case_match; intros [= <-]; auto; done);
    try (repeat case_match; intros [= <-]; auto; done);
    try (intros [= <-]; apply (timeline_push first v); [done|by apply (timeline_current _ _ Hv)|done|done|by rewrite reduce_changes_requested]).
  all: case_match eqn:Ef; intros [= <-];
    first [apply timeline_set_draft; [done|]; by destruct (currentExtState v)
          |apply Hpush; try done; left; try done; apply bool_decide_eq_true in Ef; by rewrite Ef].
Qed.

Lemma history_loop_timeline first ce v v' : timeline first v -> history_loop ce v = Ok v' -> timeline first v'.
Proof.
  revert v. induction ce as [|e ce IH]; intros v Hv; cbn [history_loop]; [by intros [= <-]|].
  destruct (history_step v e) as [v1|] eqn:E; [|done]. apply IH. by eapply history_step_timeline.
Qed.

(** ** The order of the entries *)

Lemma history_step_states v e v' : history_step v e = Ok v' ->
  states v' = states v \/ (Timestamp e <> 0%Z /\ exists s, states v' = states v ++ [s] /\ st_t s = Timestamp e).
Proof.
  unfold history_step. destruct (Timestamp e =? 0)%Z eqn:E0; [intros [= <-]; by left|]. apply Z.eqb_neq in E0.
  intros H. assert (exists t, Timestamp e = t) as [t Et] by eauto. rewrite Et in *. clear Et.
  cut (states v' = states v \/ exists s, states v' = states v ++ [s] /\ st_t s = t); [naive_solver|].
  unfold push_reviews, set_draft, set_ext, set_review, pushStates in H. cbv zeta in H.
  repeat (case_match; simplify_eq/=); eauto.
Qed.

Abbreviation in_order h := (StronglySorted Z.le (map st_t h)).

Lemma in_order_snoc h s : in_order h -> Forall (fun x => (st_t x <= st_t s)%Z) h -> in_order (h ++ [s]).
Proof.
  induction h as [|a h IH]; cbn; intros Hs Hf; [by repeat constructor|].
  apply StronglySorted_inv in Hs as [Hs Ha]. apply Forall_cons in Hf as [Hf1 Hf]. constructor; [by apply IH|].
  rewrite map_app. apply Forall_app. split; [done|]. by apply Forall_singleton.
Qed.

Lemma events_IsSorted_strong ce : events_IsSorted ce = true -> StronglySorted (fun a b => (Timestamp a <= Timestamp b)%Z) ce.
Proof.
  intros H. apply Sorted_StronglySorted; [intros ???; cbv beta; lia|]. induction ce as [|a [|b ce] IH]; [constructor|by repeat constructor|].
  cbn [events_IsSorted] in H. apply andb_true_iff in H as [H Hab]. constructor; [by apply IH|]. constructor. unfold event_Less in Hab. lia.
Qed.

(** No entry is later than an event that is still to come. *)
Definition precedes (v : history_vars) (ce : list ChangesetEvent) : Prop :=
  forall s e, s ∈ states v -> e ∈ ce -> Timestamp e = 0%Z \/ (st_t s <= Timestamp e)%Z.

Lemma history_loop_in_order ce v v' :
  StronglySorted (fun a b => (Timestamp a <= Timestamp b)%Z) ce -> in_order (states v) -> precedes v ce ->
  history_loop ce v = Ok v' -> in_order (states v').
Proof.
  revert v. induction ce as [|e ce IH]; intros v Hs Ho Hb; cbn [history_loop]; [by intros [= <-]|].
  destruct (history_step v e) as [v1|] eqn:E; [|done]. apply StronglySorted_inv in Hs as [Hs He]. rewrite Forall_forall in He.
  apply history_step_states in E as [E|(Hz & s & E & Et)]; apply IH; try done.
  - by rewrite E.
  - intros s x Hx Hxe. rewrite E in Hx. apply Hb; [done|]. by apply elem_of_cons; right.
  - rewrite E. apply in_order_snoc; [done|]. apply Forall_forall. intros x Hx. rewrite Et.
    by destruct (Hb x e Hx (list_elem_of_here _ _)).
  - intros x y Hx Hy. rewrite E, elem_of_app, list_elem_of_singleton in Hx. destruct Hx as [Hx| ->].
    + apply Hb; [done|]. by apply elem_of_cons; right.
    + right. rewrite Et. by apply He.
Qed.

(** ** The history *)

(** An entry was there, or its time is that of an event. *)
Lemma history_loop_times ce v v' s : history_loop ce v = Ok v' -> s ∈ states v' -> s ∈ states v \/ st_t s ∈ map Timestamp ce.
Proof.
  revert v. induction ce as [|e ce IH]; intros v; cbn [history_loop map]; [intros [= <-]; auto|].
  destruct (history_step v e) as [v1|] eqn:E; [|done]. intros Hl Hin. destruct (IH _ Hl Hin) as [H|H]; [|set_solver].
  apply history_step_states in E as [E|(_ & x & E & Et)]; rewrite E in H; [auto|].
  apply elem_of_app in H as [?| ->%list_elem_of_singleton]; [auto|]. right. rewrite Et. set_solver.
Qed.

Lemma merged_stays_lookup h i j a b : merged_stays h -> h !! i = Some a -> h !! j = Some b -> (i <= j)%nat ->
  st_external a = ExternalMerged -> st_external b = ExternalMerged.
Proof.
  revert i j. induction h as [|s h IH]; intros i j Hm Ha Hb Hij Em; [done|]. destruct Hm as [H1 H2].
  destruct i as [|i], j as [|j]; simplify_eq/=; try done; [|lia|].
  - rewrite Forall_lookup in H1. by eapply H1.
  - eapply IH; [done| |exact Hb| |done]; [exact Ha|lia].
Qed.

Lemma initialExternalState_cases ch ce : initialExternalState ch ce = ExternalOpen \/ initialExternalState ch ce = ExternalDraft.
Proof. unfold initialExternalState. destruct (c_Metadata ch); auto; case_match; auto. Qed.

(** What the loop ends with. *)
Lemma computeHistory_vars ch ce h : computeHistory ch ce = Ok h ->
  let first := MkStates (ExternalCreatedAt ch) (initialExternalState ch ce) ReviewPending in
  ExternalCreatedAt ch <> 0%Z /\ events_IsSorted ce = true /\
  exists v, timeline first v /\
    history_loop ce (MkVars [first] (initialExternalState ch ce) ReviewPending ∅ (eqb (initialExternalState ch ce) ExternalDraft)) = Ok v /\
    h = if (c_ExternalDeletedAt ch =? 0)%Z then states v
        else states v ++ [MkStates (c_ExternalDeletedAt ch) ExternalClosed (currentReviewState v)].
Proof.
  unfold computeHistory. destruct (events_IsSorted ce) eqn:Es; [|done]. cbn [negb]. cbv zeta.
  destruct (ExternalCreatedAt ch =? 0)%Z eqn:E0; [done|]. apply Z.eqb_neq in E0.
  destruct (history_loop ce _) as [v|] eqn:El; [|done]. intros [= <-]. split_and!; [done..|]. exists v. split_and!.
  - eapply history_loop_timeline; [|exact El]. unfold pushStates. cbn.
    split; cbn [states currentExtState currentReviewState lastReviewByAuthor isDraft head]; try done.
    { by exists [], (ExternalCreatedAt ch). }
    all: destruct (initialExternalState_cases ch ce) as [-> | ->]; try done; by repeat constructor.
  - done.
  - by destruct (c_ExternalDeletedAt ch =? 0)%Z.
Qed.

(** the history of a changeset starts with its creation, open or as a draft and not reviewed; every entry has one of the four
    external and three review states that the counts distinguish; after a merge every entry is merged, save the one of a deletion;
    and the entries are in the order of time when no event precedes the creation or follows the deletion. *)
Theorem computeHistory_timeline ch ce h : computeHistory ch ce = Ok h ->
  head h = Some (MkStates (ExternalCreatedAt ch) (initialExternalState ch ce) ReviewPending) /\
  Forall states_known h /\
  (forall i j a b, h !! i = Some a -> h !! j = Some b -> (i <= j)%nat -> st_external a = ExternalMerged ->
     st_external b = ExternalMerged \/ (c_ExternalDeletedAt ch <> 0%Z /\ S j = length h /\ st_external b = ExternalClosed)) /\
  ((forall e, e ∈ ce -> Timestamp e = 0%Z \/ (ExternalCreatedAt ch <= Timestamp e)%Z) ->
   (c_ExternalDeletedAt ch = 0%Z \/ forall t, t ∈ ExternalCreatedAt ch :: map Timestamp ce -> (t <= c_ExternalDeletedAt ch)%Z) ->
   in_order h).
Proof.
  intros (H0 & Hs & v & Hv & Hl & ->)%computeHistory_vars. pose proof Hv as [(hv & tv & El) Hf Hk Hm _ _].
  assert (exists rest : changesetHistory, (if (c_ExternalDeletedAt ch =? 0)%Z then states v
    else states v ++ [MkStates (c_ExternalDeletedAt ch) ExternalClosed (currentReviewState v)]) = states v ++ rest /\
    (rest = [] \/ c_ExternalDeletedAt ch <> 0%Z /\
      rest = [MkStates (c_ExternalDeletedAt ch) ExternalClosed (currentReviewState v)])) as (rest & -> & Hrest).
  { destruct (c_ExternalDeletedAt ch =? 0)%Z eqn:Ed; [exists []; rewrite app_nil_r; auto|]. apply Z.eqb_neq in Ed. eauto. }
  split_and!.
  - destruct (states v); [by destruct hv|done].
  - apply Forall_app. split; [done|]. destruct Hrest as [-> |[_ ->]]; [done|]. apply Forall_singleton. unfold states_known. cbn.
    by rewrite (proj2 (timeline_current _ _ Hv)).
  - intros i j a b Ha Hb Hij Em. destruct Hrest as [-> |[Hd ->]].
    + left. rewrite app_nil_r in *. by eapply merged_stays_lookup.
    + apply lookup_app_Some in Hb as [Hb|[Hj Hb]].
      * left. eapply merged_stays_lookup; [done| |exact Hb|done|done]. rewrite lookup_app_l in Ha; [done|]. apply lookup_lt_Some in Hb. lia.
      * right. apply list_lookup_singleton_Some in Hb as [Hj' <-]. rewrite length_app. cbn [length]. split_and!; [done|lia|done].
  - intros Hopen Hdel. assert (in_order (states v)) as Ho.
    { eapply history_loop_in_order; [by apply events_IsSorted_strong| | |exact Hl].
      - by repeat constructor.
      - intros s e ->%list_elem_of_singleton He. by apply Hopen. }
    destruct Hrest as [-> |[Hd ->]]; [by rewrite app_nil_r|]. destruct Hdel as [?|Hdel]; [done|].
    apply in_order_snoc; [done|]. apply Forall_forall. intros s Hsin. cbn [st_t]. apply Hdel.
    eapply history_loop_times in Hl as [Hin|Hin]; [| |exact Hsin]; set_solver.
Qed.

(** ** What a changeset looks like at a time *)

(** The reference, in terms of the events alone.  A changeset is merged when there
    was a merge; closed when the latest event that closes or opens it closes it; and
    otherwise a draft or open as the latest event about that says. *)
Definition merges (e : ChangesetEvent) : bool :=
  match ev_Kind e with
  | GitHubMerged | BitbucketServerMerged | GitLabMerged | BitbucketCloudPullRequestFulfilled | AzureDevOpsMerged => true
  | _ => false
  end.
Definition closed_mark (e : ChangesetEvent) : option bool :=
  match ev_Kind e with
  | GitHubClosed | BitbucketServerDeclined | GitLabClosed | BitbucketCloudPullRequestRejected => Some true
  | GitHubReopened | BitbucketServerReopened | GitLabReopened | GitHubConvertToDraft => Some false
  | _ => None
  end.
Definition draft_mark (e : ChangesetEvent) : option bool :=
  match ev_Kind e with
  | GitLabMarkWorkInProgress | GitHubConvertToDraft => Some true
  | GitLabUnmarkWorkInProgress | GitHubReadyForReview => Some false
  | _ => None
  end.
Definition latest (f : ChangesetEvent -> option bool) (initially : bool) (es : list ChangesetEvent) : bool :=
  default initially (last (omap f es)).
Definition external_after (drafted : bool) (es : list ChangesetEvent) : ChangesetExternalState :=
  if existsb merges es then ExternalMerged
  else if latest closed_mark false es then ExternalClosed
  else if latest draft_mark drafted es then ExternalDraft else ExternalOpen.

(** The standing review of one author.  Reviews of deleted users do not count, and
    on Bitbucket Server an event takes back only the review that it is about. *)
Definition voted (standing : option ChangesetReviewState) (e : ChangesetEvent) : option ChangesetReviewState :=
  match ev_Kind e, ReviewAuthor e with
  | (AzureDevOpsRejected | AzureDevOpsApprovedWithSuggestions | AzureDevOpsWaitingForAuthor), _ => Some ReviewChangesRequested
  | _, [] => standing
  | (BitbucketServerApproved | GitLabApproved | BitbucketCloudApproved | BitbucketCloudPullRequestApproved | AzureDevOpsApproved), _ =>
      Some ReviewApproved
  | BitbucketServerReviewed, _ => Some ReviewChangesRequested
  | GitHubReviewed, _ =>
      match ev_Review e with
      | Some ReviewApproved => Some ReviewApproved
      | Some ReviewChangesRequested => Some ReviewChangesRequested
      | Some ReviewDismissed => None
      | _ => standing
      end
  | BitbucketServerUnapproved, _ => match standing with Some ReviewApproved => None | _ => standing end
  | BitbucketServerDismissed, _ => match standing with Some ReviewChangesRequested => None | _ => standing end
  | (GitLabUnapproved | BitbucketCloudPullRequestChangesRequestRemoved | BitbucketCloudPullRequestUnapproved), _ => None
  | _, _ => standing
  end.
Definition opinion (es : list ChangesetEvent) (a : gostring) : option ChangesetReviewState :=
  fold_left (fun standing e => if gs_eqb (ReviewAuthor e) a then voted standing e else standing) es None.
(** Changes requested by anyone, else approved by anyone. *)
Definition review_after (es : list ChangesetEvent) : ChangesetReviewState :=
  if existsb (fun e => eqb (opinion es (ReviewAuthor e)) (Some ReviewChangesRequested)) es then ReviewChangesRequested
  else if existsb (fun e => eqb (opinion es (ReviewAuthor e)) (Some ReviewApproved)) es then ReviewApproved
  else ReviewPending.

(** Whether it was opened as a draft: what the first event about that changed,
    and without one what it is now. *)
Definition opened_as_draft (ch : Changeset) (es : list ChangesetEvent) : bool :=
  let was now := match omap ev_Draft es with changed :: _ => negb changed | [] => now end in
  match c_Metadata ch with
  | GitHub m => was (gh_IsDraft m)
  | GitLab m => was (gl_WorkInProgress m)
  | AzureDevOps m => was (az_IsDraft m)
  | Gerrit m => was (ge_WorkInProgress m)
  | _ => false
  end.

Definition until (t : Z) (es : list ChangesetEvent) : list ChangesetEvent :=
  List.filter (fun e => negb (Timestamp e =? 0)%Z && (Timestamp e <=? t)%Z) es.
Definition looks (t : Z) (ch : Changeset) (es : list ChangesetEvent) : option (ChangesetExternalState * ChangesetReviewState) :=
  if (t <? ExternalCreatedAt ch)%Z then None
  else
    let deleted := negb (c_ExternalDeletedAt ch =? 0)%Z && (c_ExternalDeletedAt ch <=? t)%Z in
    Some (if deleted then ExternalClosed else external_after (opened_as_draft ch es) (until t es), review_after (until t es)).

(** What the counts need of the events of a changeset: it has a time of opening,
    the events are sorted, a review of GitHub has its metadata, and nothing follows
    the deletion. *)
Record tellable (ch : Changeset) (es : list ChangesetEvent) : Prop := {
  tell_opened : ExternalCreatedAt ch <> 0%Z;
  tell_sorted : StronglySorted (fun a b => (Timestamp a <= Timestamp b)%Z) es;
  tell_review : Forall (fun e => ev_Kind e = GitHubReviewed -> ev_Review e <> None) es;
  tell_deleted : c_ExternalDeletedAt ch = 0%Z \/
    (ExternalCreatedAt ch <= c_ExternalDeletedAt ch)%Z /\ Forall (fun e => Timestamp e <= c_ExternalDeletedAt ch)%Z es
}.

Lemma latest_snoc f d es e : latest f d (es ++ [e]) = default (latest f d es) (f e).
Proof. unfold latest. rewrite omap_app. cbn [omap list_omap]. destruct (f e); [by rewrite last_snoc|]. by rewrite app_nil_r. Qed.

Lemma opinion_snoc es e a : opinion (es ++ [e]) a = if gs_eqb (ReviewAuthor e) a then voted (opinion es a) e else opinion es a.
Proof. unfold opinion. by rewrite fold_left_app. Qed.

Lemma opinion_author es a s : opinion es a = Some s -> exists e, e ∈ es /\ ReviewAuthor e = a.
Proof.
  revert s. induction es as [|e es IH] using rev_ind; intros s; [done|]. rewrite opinion_snoc. destruct (gs_eqb (ReviewAuthor e) a) eqn:E.
  - apply gs_eqb_eq in E. intros _. exists e. set_solver.
  - intros (x & Hx & ?)%IH. exists x. set_solver.
Qed.

Lemma existsb_opinion (m : gmap gostring ChangesetReviewState) (es : list ChangesetEvent) s : (forall a, m !! a = opinion es a) ->
  existsb (fun e => eqb e.2 s) (map_to_list m) = existsb (fun e => eqb (opinion es (ReviewAuthor e)) (Some s)) es.
Proof.
  intros Hm. apply eq_true_iff_eq. rewrite !existsb_exists. setoid_rewrite bool_decide_eq_true. split.
  - intros ([a s'] & Hin & E). simpl in E. subst s'. apply list_elem_of_In, elem_of_map_to_list in Hin. rewrite Hm in Hin.
    destruct (opinion_author _ _ _ Hin) as (e & He & <-). exists e. by rewrite <- list_elem_of_In.
  - intros (e & _ & He). exists (ReviewAuthor e, s). split; [|done]. apply list_elem_of_In, elem_of_map_to_list. by rewrite Hm.
Qed.

Lemma reduce_opinions m es : (forall a, m !! a = opinion es a) -> reduceReviewStates m = review_after es.
Proof. intros Hm. unfold reduceReviewStates, selectReviewState, review_after. by rewrite !(existsb_opinion m es). Qed.

Record agrees (drafted : bool) (es : list ChangesetEvent) (v : history_vars) : Prop := {
  agrees_external : currentExtState v = external_after drafted es;
  agrees_draft : isDraft v = latest draft_mark drafted es;
  agrees_reviews a : lastReviewByAuthor v !! a = opinion es a
}.

Lemma opinion_vote (es : list ChangesetEvent) (e : ChangesetEvent) (m m' : gmap gostring ChangesetReviewState) : (forall a, m !! a = opinion es a) ->
  m' !! ReviewAuthor e = voted (m !! ReviewAuthor e) e -> (forall a, a <> ReviewAuthor e -> m' !! a = m !! a) ->
  forall a, m' !! a = opinion (es ++ [e]) a.
Proof.
  intros Hm He Ho a. rewrite opinion_snoc. destruct (gs_eqb (ReviewAuthor e) a) eqn:E.
  - apply gs_eqb_eq in E as <-. by rewrite <- Hm.
  - rewrite Ho, Hm; [done|]. intros ->. by rewrite (proj2 (gs_eqb_eq _ _)) in E.
Qed.

Lemma external_after_snoc drafted es e : external_after drafted (es ++ [e]) =
  if existsb merges es || merges e then ExternalMerged
  else if default (latest closed_mark false es) (closed_mark e) then ExternalClosed
  else if default (latest draft_mark drafted es) (draft_mark e) then ExternalDraft else ExternalOpen.
Proof. unfold external_after. by rewrite existsb_app, !latest_snoc; simpl; rewrite orb_false_r. Qed.

(** An event that is not a review. *)
Lemma opinion_same (es : list ChangesetEvent) (e : ChangesetEvent) (m : gmap gostring ChangesetReviewState) : (forall a, m !! a = opinion es a) ->
  (forall standing, voted standing e = standing) -> forall a, m !! a = opinion (es ++ [e]) a.
Proof. intros Hm He. apply (opinion_vote es e m m); [done|by rewrite He|done]. Qed.

(** An event that is only a review. *)
Lemma agrees_review drafted es e v v' : agrees drafted es v -> merges e = false -> closed_mark e = None -> draft_mark e = None ->
  currentExtState v' = currentExtState v -> isDraft v' = isDraft v ->
  (forall a, lastReviewByAuthor v' !! a = opinion (es ++ [e]) a) -> agrees drafted (es ++ [e]) v'.
Proof.
  intros [Hx Hd _] H1 H2 H3 Ex Ed Hm. split; [rewrite external_after_snoc, Ex, Hx, H1, H2, H3; by rewrite orb_false_r|
    by rewrite latest_snoc, H3, Ed|done].
Qed.

Lemma push_reviews_fields t m v : currentExtState (push_reviews t m v) = currentExtState v /\
  isDraft (push_reviews t m v) = isDraft v /\ lastReviewByAuthor (push_reviews t m v) = m.
Proof. unfold push_reviews. by destruct (bool_decide _). Qed.

(** An event that sets, or takes back, the review of its author. *)
Lemma agrees_push drafted es e v t m : agrees drafted es v -> merges e = false -> closed_mark e = None -> draft_mark e = None ->
  m !! ReviewAuthor e = voted (lastReviewByAuthor v !! ReviewAuthor e) e ->
  (forall a, a <> ReviewAuthor e -> m !! a = lastReviewByAuthor v !! a) -> agrees drafted (es ++ [e]) (push_reviews t m v).
Proof.
  intros Hv H1 H2 H3 He Ho. destruct (push_reviews_fields t m v) as (Ex & Ed & Em).
  eapply agrees_review; [done..|]. rewrite Em. eapply opinion_vote; [by apply (agrees_reviews _ _ _ Hv)|done|done].
Qed.

(** A review that is not counted. *)
Lemma agrees_unvoted drafted es e v : agrees drafted es v -> merges e = false -> closed_mark e = None -> draft_mark e = None ->
  voted (lastReviewByAuthor v !! ReviewAuthor e) e = lastReviewByAuthor v !! ReviewAuthor e -> agrees drafted (es ++ [e]) v.
Proof.
  intros Hv H1 H2 H3 He. eapply agrees_review; [done..|]. by apply (opinion_vote es e _ _ (agrees_reviews _ _ _ Hv)).
Qed.

(** The kinds of events that are reviews. *)
Definition reviews (e : ChangesetEvent) : bool :=
  match ev_Kind e with
  | GitHubReviewed | BitbucketServerApproved | BitbucketServerReviewed | GitLabApproved | BitbucketCloudApproved
  | BitbucketCloudPullRequestApproved | AzureDevOpsApproved | BitbucketServerUnapproved | BitbucketServerDismissed | GitLabUnapproved
  | BitbucketCloudPullRequestChangesRequestRemoved | BitbucketCloudPullRequestUnapproved
  | AzureDevOpsRejected | AzureDevOpsApprovedWithSuggestions | AzureDevOpsWaitingForAuthor => true
  | _ => false
  end.

Ltac decide_states := repeat first [rewrite bool_decide_eq_true_2 by done|rewrite bool_decide_eq_false_2 by done]; cbn [negb andb].

Lemma history_step_marks drafted es e v : Timestamp e <> 0%Z -> reviews e = false ->
  agrees drafted es v -> exists v', history_step v e = Ok v' /\ agrees drafted (es ++ [e]) v'.
Proof.
  intros Ht%Z.eqb_neq Hr [Hx Hd Hm]. unfold history_step. rewrite Ht. unfold reviews in Hr.
  assert (forall standing, voted standing e = standing) as Hs
    by (intros; unfold voted; destruct (ev_Kind e); try done; by destruct (ReviewAuthor e)).
  pose proof (opinion_same es e _ Hm Hs) as Hm'.
  destruct v as [sts ext rev m d]; cbn [currentExtState isDraft lastReviewByAuthor] in *; subst ext d; unfold external_after.
  destruct (ev_Kind e) eqn:Ek; try done; clear Hr;
    destruct (existsb merges es) eqn:Em, (latest closed_mark false es) eqn:Ec, (latest draft_mark drafted es) eqn:Ed;
    (eexists; split; [reflexivity|]; split;
     [rewrite external_after_snoc; unfold merges at 2, closed_mark at 2, draft_mark at 2; rewrite Ek, Em, Ec, Ed; reflexivity
     |rewrite latest_snoc; unfold draft_mark at 2; rewrite Ek, Ed; reflexivity|exact Hm']).
Qed.

Lemma history_step_reviews drafted es e v : Timestamp e <> 0%Z -> (ev_Kind e = GitHubReviewed -> ev_Review e <> None) -> reviews e = true ->
  agrees drafted es v -> exists v', history_step v e = Ok v' /\ agrees drafted (es ++ [e]) v'.
Proof.
  intros Ht%Z.eqb_neq Hg Hr Hv. pose proof (agrees_reviews _ _ _ Hv) as Hm. unfold history_step. rewrite Ht.
  assert (merges e = false /\ closed_mark e = None /\ draft_mark e = None) as (H1 & H2 & H3)
    by (unfold reviews, merges, closed_mark, draft_mark in *; by destruct (ev_Kind e)).
  destruct (gs_eqb (ReviewAuthor e) []) eqn:Ea;
    [apply gs_eqb_eq in Ea
    |apply gs_eqb_false in Ea; assert (exists c l, ReviewAuthor e = c :: l) as (c & l & El) by (destruct (ReviewAuthor e); [done|by eauto])].
  all: unfold reviews in Hr; destruct (ev_Kind e) eqn:Ek; try done; clear Hr; cbv zeta; unfold ev_ReviewState; rewrite ?Ek.
  all: try (destruct (ev_Review e) as [[]|] eqn:Er; [..|by destruct (Hg eq_refl)]; cbn [review_Valid]).
  all: try (eexists; split; [reflexivity|]; apply agrees_unvoted; [done..|]; unfold voted; rewrite Ek, ?Ea, ?El, ?Er; done).
  all: try (eexists; split; [reflexivity|]; eapply agrees_review; [done..|]; apply (opinion_vote es e _ _ Hm);
    [unfold voted; rewrite Ek; apply lookup_insert_eq|intros; by apply lookup_insert_ne]).
  all: decide_states.
  all: try (destruct (lastReviewByAuthor v !! ReviewAuthor e) as [[]|] eqn:Eo; decide_states).
  all: try (eexists; split; [reflexivity|]; apply agrees_push; [done..| |];
    [unfold voted; rewrite ?lookup_insert_eq, ?lookup_delete_eq, ?Eo, Ek, El, ?Er; done
    |intros; rewrite ?lookup_insert_ne, ?lookup_delete_ne by congruence; done]).
  all: eexists; split; [reflexivity|]; apply agrees_unvoted; [done..|]; unfold voted; rewrite Eo, Ek, El; done.
Qed.

Lemma history_loop_agrees drafted es v ce : agrees drafted es v ->
  Forall (fun e => ev_Kind e = GitHubReviewed -> ev_Review e <> None) ce ->
  exists v', history_loop ce v = Ok v' /\ agrees drafted (es ++ List.filter (fun e => negb (Timestamp e =? 0)%Z) ce) v'.
Proof.
  revert es v. induction ce as [|e ce IH]; intros es v Hv Hr; cbn [history_loop List.filter]; [rewrite app_nil_r; eauto|].
  apply Forall_cons in Hr as [He Hr]. destruct (Z.eqb_spec (Timestamp e) 0) as [Et|Et]; cbn [negb].
  - assert (history_step v e = Ok v) as -> by (unfold history_step; by rewrite (proj2 (Z.eqb_eq _ _))). by apply IH.
  - assert (exists v', history_step v e = Ok v' /\ agrees drafted (es ++ [e]) v') as (v1 & -> & Hv1)
      by (destruct (reviews e) eqn:Er; [by apply history_step_reviews|by apply history_step_marks]).
    destruct (IH _ _ Hv1 Hr) as (v' & -> & Hv'). exists v'. split; [done|]. by rewrite <- app_assoc in Hv'.
Qed.

Lemma initialExternalState_draft ch ce : initialExternalState ch ce = if opened_as_draft ch ce then ExternalDraft else ExternalOpen.
Proof.
  assert (forall open, fold_right (fun e open => match ev_Draft e with Some draft => draft | None => open end) open ce =
    match omap ev_Draft ce with d :: _ => d | [] => open end) as H.
  { intros open. induction ce as [|e ce IH]; [done|]. cbn [fold_right omap list_omap]. destruct (ev_Draft e); [done|]. apply IH. }
  unfold initialExternalState, opened_as_draft. destruct (c_Metadata ch); try done; rewrite H; destruct (omap ev_Draft ce) as [|[] ?]; try done;
    match goal with |- context [negb ?b] => by destruct b end.
Qed.

Lemma events_sorted ce : StronglySorted (fun a b => (Timestamp a <= Timestamp b)%Z) ce -> events_IsSorted ce = true.
Proof.
  induction 1 as [|e ce Hs IH He]; [done|]. destruct ce as [|e' ce]; [done|]. change (events_IsSorted (e' :: ce) && negb (event_Less e' e) = true). rewrite IH.
  apply Forall_cons in He as [He _]. unfold event_Less. by rewrite (proj2 (Z.ltb_ge _ _)).
Qed.

Lemma sorted_split t ce : StronglySorted (fun a b => (Timestamp a <= Timestamp b)%Z) ce ->
  ce = List.filter (fun e => (Timestamp e <=? t)%Z) ce ++ List.filter (fun e => (t <? Timestamp e)%Z) ce.
Proof.
  induction 1 as [|e ce Hs IH He]; [done|]. cbn [List.filter]. destruct (Z.leb_spec (Timestamp e) t) as [Hle|Hlt].
  - rewrite (proj2 (Z.ltb_ge _ _)) by lia. cbn [app]. by f_equal.
  - rewrite (proj2 (Z.ltb_lt _ _)) by lia. assert (List.filter (fun e => (Timestamp e <=? t)%Z) ce = []) as En.
    { clear IH. induction He as [|x ce Hx He IH]; [done|]. cbn [List.filter]. apply StronglySorted_inv in Hs as [Hs _].
      rewrite (proj2 (Z.leb_gt _ _)) by lia. by apply IH. }
    rewrite En in *. cbn [app] in *. by f_equal.
Qed.

Lemma history_loop_app ce1 ce2 v : history_loop (ce1 ++ ce2) v = match history_loop ce1 v with Ok v => history_loop ce2 v | Err err => Err err end.
Proof. revert v. induction ce1 as [|e ce1 IH]; intros v; cbn [app history_loop]; [done|]. by destruct (history_step v e). Qed.

(** Entries are only added, with times of events. *)
Lemma history_loop_extends ce v v' : history_loop ce v = Ok v' ->
  exists more, states v' = states v ++ more /\ Forall (fun s => st_t s ∈ map Timestamp ce) more.
Proof.
  revert v. induction ce as [|e ce IH]; intros v; cbn [history_loop map]; [intros [= <-]; exists []; by rewrite app_nil_r|].
  destruct (history_step v e) as [v1|] eqn:E; [|done]. intros (more & Em & Hm)%IH.
  assert (Forall (fun s => st_t s ∈ Timestamp e :: map Timestamp ce) more) as Hm'
    by (eapply Forall_impl; [exact Hm|]; intros; set_solver).
  apply history_step_states in E as [E|(_ & s & E & Et)]; rewrite E in Em; [by exists more|].
  exists (s :: more). rewrite <- app_assoc in Em. split; [done|]. constructor; [rewrite Et; set_solver|done].
Qed.

Lemma StatesAtTime_split a b t : Forall (fun s => st_t s <= t)%Z a -> Forall (fun s => t < st_t s)%Z b -> StatesAtTime (a ++ b) t = last a.
Proof.
  intros Ha Hb. unfold StatesAtTime. assert (forall o, states_loop b t o = o) as Hb'.
  { intros o. destruct Hb as [|s b Hs Hb]; [done|]. cbn [states_loop]. by rewrite (proj2 (Z.ltb_lt _ _)). }
  cut (forall o, states_loop (a ++ b) t o = match last a with Some s => Some s | None => o end); [intros ->; by destruct (last a)|].
  induction Ha as [|s a Hs Ha IH]; intros o; cbn [app states_loop]; [apply Hb'|].
  rewrite (proj2 (Z.ltb_ge _ _)), IH, last_cons by done. by destruct (last a).
Qed.

Lemma times_until t ce s : st_t s ∈ map Timestamp (List.filter (fun e => (Timestamp e <=? t)%Z) ce) -> (st_t s <= t)%Z.
Proof. rewrite list_elem_of_In, in_map_iff. intros (e & <- & [_ He]%filter_In). by apply Z.leb_le in He. Qed.
Lemma times_after t ce s : st_t s ∈ map Timestamp (List.filter (fun e => (t <? Timestamp e)%Z) ce) -> (t < st_t s)%Z.
Proof. rewrite list_elem_of_In, in_map_iff. intros (e & <- & [_ He]%filter_In). by apply Z.ltb_lt in He. Qed.

Definition shown_states (s : changesetStatesAtTime) : ChangesetExternalState * ChangesetReviewState := (st_external s, st_review s).

(** The loop at a time: what the events until then leave. *)
Lemma history_until t ch ce v0 v : StronglySorted (fun a b => (Timestamp a <= Timestamp b)%Z) ce ->
  Forall (fun e => ev_Kind e = GitHubReviewed -> ev_Review e <> None) ce ->
  timeline (MkStates (ExternalCreatedAt ch) (currentExtState v0) ReviewPending) v0 ->
  states v0 = [MkStates (ExternalCreatedAt ch) (currentExtState v0) ReviewPending] -> (ExternalCreatedAt ch <= t)%Z ->
  agrees (isDraft v0) [] v0 -> history_loop ce v0 = Ok v ->
  exists past future v1, states v = past ++ future /\ Forall (fun s => st_t s <= t)%Z past /\ Forall (fun s => t < st_t s)%Z future /\
    shown_states <$> last past = Some (external_after (isDraft v0) (until t ce), review_after (until t ce)) /\
    (List.filter (fun e => (t <? Timestamp e)%Z) ce = [] -> future = [] /\ v1 = v) /\ currentReviewState v1 = review_after (until t ce).
Proof.
  intros Hs Hr Htl E0 Ho Ha Hl. rewrite (sorted_split t ce Hs), history_loop_app in Hl.
  set (ce1 := List.filter (fun e => (Timestamp e <=? t)%Z) ce) in *. set (ce2 := List.filter (fun e => (t <? Timestamp e)%Z) ce) in *.
  destruct (history_loop_agrees (isDraft v0) [] v0 ce1 Ha) as (v1 & E1 & [Hx _ Hm]).
  { subst ce1. rewrite Forall_forall in *. intros e He. apply Hr. rewrite list_elem_of_In, filter_In, <- list_elem_of_In in He. apply He. }
  rewrite E1 in Hl. assert (List.filter (fun e => negb (Timestamp e =? 0)%Z) ce1 = until t ce) as Eu.
  { unfold ce1, until. rewrite filter_filter_andb. apply filter_ext. intros e. apply andb_comm. }
  rewrite Eu in *. cbn [app] in *.
  pose proof (history_loop_timeline _ _ _ _ Htl E1) as Ht1. pose proof (tl_review _ _ Ht1) as Hrev. rewrite (reduce_opinions _ _ Hm) in Hrev.
  destruct (history_loop_extends _ _ _ E1) as (more1 & Em1 & Hm1), (history_loop_extends _ _ _ Hl) as (more2 & Em2 & Hm2).
  exists (states v1), more2, v1. split_and!; [done|..|done].
  - rewrite Em1, E0. constructor; [done|]. eapply Forall_impl; [exact Hm1|]. intros s. apply times_until.
  - eapply Forall_impl; [exact Hm2|]. intros s. apply times_after.
  - destruct (tl_last _ _ Ht1) as (h & t' & El). rewrite El, last_snoc. unfold shown_states. simpl. by rewrite Hx, Hrev.
  - intros E2. rewrite E2 in Hl. cbn in Hl. injection Hl as <-. split; [|done].
    apply (f_equal length) in Em2. rewrite length_app in Em2. destruct more2; [done|simpl in Em2; lia].
Qed.

(** The history of a changeset shows at every time what the changeset looked like. *)
Lemma computeHistory_looks ch ce : tellable ch ce ->
  exists h, computeHistory ch ce = Ok h /\ forall t, shown_states <$> StatesAtTime h t = looks t ch ce.
Proof.
  intros [Ho Hs Hr Hd]. unfold computeHistory. rewrite (events_sorted ce Hs). cbn [negb]. cbv zeta.
  rewrite (proj2 (Z.eqb_neq _ _) Ho). set (v0 := pushStates _ _).
  assert (isDraft v0 = opened_as_draft ch ce) as Ed.
  { unfold v0. simpl. rewrite initialExternalState_draft. by destruct (opened_as_draft ch ce). }
  assert (agrees (isDraft v0) [] v0) as Ha.
  { split; [|done|intros; apply lookup_empty]. rewrite Ed. unfold v0. simpl. apply initialExternalState_draft. }
  destruct (history_loop_agrees _ _ _ ce Ha Hr) as (v & El & _). rewrite El. eexists. split; [done|]. intros t.
  assert (timeline (MkStates (ExternalCreatedAt ch) (currentExtState v0) ReviewPending) v0) as Htl.
  { split; try done; [by exists [], (ExternalCreatedAt ch)|..]; unfold v0; simpl;
      destruct (initialExternalState_cases ch ce) as [-> | ->]; try done; by repeat constructor. }
  unfold looks. destruct (Z.ltb_spec t (ExternalCreatedAt ch)) as [Hlt|Hge].
  - pose proof (tl_first _ _ (history_loop_timeline _ _ _ _ Htl El)) as Hh. destruct (states v) as [|s sts] eqn:Es; [done|].
    injection Hh as ->. destruct (negb _); [simpl states; rewrite Es|rewrite Es];
      unfold StatesAtTime; cbn [app states_loop st_t]; rewrite (proj2 (Z.ltb_lt _ _)) by done; done.
  - destruct (history_until t ch ce v0 v Hs Hr Htl eq_refl Hge Ha El) as (past & future & v1 & Es & Hp & Hf & Hlast & Hall & Hrev).
    rewrite Ed in Hlast. destruct (Z.eqb_spec (c_ExternalDeletedAt ch) 0) as [E0|E0]; cbn [negb andb].
    { rewrite Es, StatesAtTime_split by done. done. }
    destruct Hd as [?|[Hod Hd]]; [done|]. simpl states. rewrite Es. destruct (Z.leb_spec (c_ExternalDeletedAt ch) t) as [Hdl|Hdl].
    + assert (List.filter (fun e => (t <? Timestamp e)%Z) ce = []) as En.
      { clear -Hd Hdl. induction Hd as [|e ce He Hd IH]; [done|]. cbn [List.filter]. by rewrite (proj2 (Z.ltb_ge _ _)) by lia. }
      destruct (Hall En) as [-> ->]. rewrite app_nil_r, <- (app_nil_r (past ++ _)), StatesAtTime_split, last_snoc; [|..|done].
      { unfold shown_states. simpl. by rewrite Hrev. }
      apply Forall_app. split; [done|]. by constructor.
    + rewrite <- app_assoc, StatesAtTime_split; [done|done|]. apply Forall_app. split; [done|]. by constructor.
Qed.

(** ** Counts *)

Abbreviation look := (ChangesetExternalState * ChangesetReviewState)%type.
Definition num (p : look -> bool) (ss : list look) : Z := Z.of_nat (length (List.filter p ss)).

Abbreviation in_state e := (fun s : look => eqb s.1 e).
Abbreviation open_with r := (fun s : look => eqb s.1 ExternalOpen && eqb s.2 r).

(** The counts of the changesets that exist at a time, by what they look like. *)
Definition countsOf (t : Z) (ss : list look) : ChangesetCounts :=
  MkCounts t (num (fun _ => true) ss) (num (in_state ExternalMerged) ss)
    (num (fun s => eqb s.1 ExternalClosed || eqb s.1 ExternalReadOnly) ss)
    (num (in_state ExternalDraft) ss) (num (in_state ExternalOpen) ss)
    (num (open_with ReviewApproved) ss) (num (open_with ReviewChangesRequested) ss) (num (open_with ReviewPending) ss).

(** The events of a changeset, and what the changesets look like that exist at a time. *)
Definition own_events (es : list ChangesetEvent) (ch : Changeset) : list ChangesetEvent :=
  List.filter (fun e => (ev_ChangesetID e =? c_ID ch)%Z) es.
Definition looking (t : Z) (cs : list Changeset) (es : list ChangesetEvent) : list look :=
  omap (fun ch => looks t ch (own_events es ch)) cs.

Lemma num_snoc p ss s : num p (ss ++ [s]) = (num p ss + if p s then 1 else 0)%Z.
Proof. unfold num. rewrite List.filter_app, length_app. cbn [List.filter]. destruct (p s); cbn [length]; lia. Qed.

Lemma num_le p ss : (0 <= num p ss <= Z.of_nat (length ss))%Z.
Proof. unfold num. pose proof (List.filter_length_le p ss). lia. Qed.

Lemma num_perm p ss ss' : ss ≡ₚ ss' -> num p ss = num p ss'.
Proof.
  unfold num. induction 1 as [|a ? ? _ IH|a b ?|]; cbn [List.filter]; [done| | |congruence].
  - destruct (p a); cbn [length]; lia.
  - destruct (p a), (p b); cbn [length]; lia.
Qed.

Lemma countsOf_perm t ss ss' : ss ≡ₚ ss' -> countsOf t ss = countsOf t ss'.
Proof. intros H. unfold countsOf. f_equal; by apply num_perm. Qed.

Lemma inc_num p ss : (Z.of_nat (length ss) < 2 ^ 31 - 1)%Z -> inc (num p ss) = (num p ss + 1)%Z.
Proof. intros H. pose proof (num_le p ss). unfold inc, wrap_int32. rewrite Z.mod_small; lia. Qed.

Lemma count_states_snoc t ss s : (Z.of_nat (length ss) < 2 ^ 31 - 1)%Z ->
  count_states s (countsOf t ss) = countsOf t (ss ++ [shown_states s]).
Proof.
  intros H. unfold count_states, countsOf. cbv zeta.
  cbn [Time Total ChangesetHistory.Merged Closed Draft Open OpenApproved OpenChangesRequested OpenPending].
  rewrite !num_snoc, !inc_num by done. unfold shown_states. cbn [fst snd].
  destruct (st_external s); cbn; rewrite ?Z.add_0_r; try done. destruct (st_review s); cbn; by rewrite ?Z.add_0_r.
Qed.

(** The counts of changesets with these histories. *)
Definition states_at (hs : list changesetHistory) (t : Z) : list look := omap (fun h => shown_states <$> StatesAtTime h t) hs.

Lemma states_at_length hs t : (length (states_at hs t) <= length hs)%nat.
Proof. unfold states_at. induction hs as [|h hs IH]; cbn; [done|]. destruct (StatesAtTime h t); cbn; lia. Qed.

Lemma count_histories t hs :
  (Z.of_nat (length hs) < 2 ^ 31)%Z -> fold_left (fun c h => count_history h c) hs (zeroCounts t) = countsOf t (states_at hs t).
Proof.
  induction hs as [|h hs IH] using rev_ind; [done|]. rewrite length_app. cbn [length]. intros Hl. rewrite fold_left_app, IH by lia.
  unfold states_at. rewrite omap_app. cbn [fold_left omap list_omap]. unfold count_history. cbn [Time countsOf].
  destruct (StatesAtTime h t); [|by rewrite app_nil_r]. apply count_states_snoc.
  pose proof (states_at_length hs t). unfold states_at in *. lia.
Qed.

Lemma counts_loop_ok order hs counts :
  Forall2 (fun ce h => computeHistory ce.1 ce.2 = Ok h) order hs ->
  counts_loop order counts = (map (fun c => fold_left (fun c h => count_history h c) hs c) counts, None).
Proof.
  intros H. revert counts. induction H as [|[c e] h order hs Hh _ IH]; intros counts; cbn [counts_loop fold_left]; [by rewrite map_id|].
  cbn in Hh. rewrite Hh, IH, map_map. done.
Qed.

(** In a history in the order of time, the states at a time are those of the last entry that is not after it. *)
Lemma StatesAtTime_correct h t : in_order h -> StatesAtTime h t = last (List.filter (fun s => (st_t s <=? t)%Z) h).
Proof.
  unfold StatesAtTime. cut (forall o, in_order h ->
    states_loop h t o = match last (List.filter (fun s => (st_t s <=? t)%Z) h) with Some s => Some s | None => o end).
  { intros H Ho. rewrite H by done. by destruct (last _). }
  induction h as [|a h IH]; intros o Ho; cbn [states_loop List.filter]; [done|].
  cbn in Ho. apply StronglySorted_inv in Ho as [Ho Ha]. destruct (t <? st_t a)%Z eqn:E.
  - assert ((st_t a <=? t)%Z = false) as -> by lia. assert (List.filter (fun s => (st_t s <=? t)%Z) h = []) as ->; [|done].
    clear -E Ha. induction h as [|b h IH]; cbn in *; [done|]. apply Forall_cons in Ha as [Hb Ha].
    assert ((st_t b <=? t)%Z = false) as -> by lia. by apply IH.
  - assert ((st_t a <=? t)%Z = true) as -> by lia. rewrite IH by done. rewrite last_cons. by destruct (last _).
Qed.

(** The histories of the changesets, when they all have one. *)
Definition history_of (ce : Changeset * list ChangesetEvent) : changesetHistory :=
  match computeHistory ce.1 ce.2 with Ok h => h | Err _ => [] end.

Lemma history_of_Forall2 (order : list (Changeset * list ChangesetEvent)) :
  Forall (fun ce => exists h, computeHistory ce.1 ce.2 = Ok h) order ->
  Forall2 (fun ce h => computeHistory ce.1 ce.2 = Ok h) order (map history_of order).
Proof. induction 1 as [|ce order [h Hh] _ IH]; cbn; constructor; [|done]. unfold history_of. by rewrite Hh. Qed.

Definition look_known (s : look) : bool := ext_known s.1 && review_known s.2.

Lemma looking_known t cs es : Forall look_known (looking t cs es).
Proof.
  unfold looking. induction cs as [|ch cs IH]; [done|]. cbn [omap list_omap]. destruct (looks _ _ _) as [s|] eqn:E; [|done]. constructor; [|done].
  unfold looks in E. destruct (_ <? _)%Z; [done|]. injection E as <-. unfold look_known, external_after, review_after. cbn [fst snd].
  by repeat case_match.
Qed.

Lemma countsOf_partition t ss : Forall look_known ss ->
  Total (countsOf t ss) = (ChangesetHistory.Merged (countsOf t ss) + Closed (countsOf t ss) + Draft (countsOf t ss) + Open (countsOf t ss))%Z /\
  Open (countsOf t ss) = (OpenApproved (countsOf t ss) + OpenChangesRequested (countsOf t ss) + OpenPending (countsOf t ss))%Z.
Proof.
  cbn [countsOf Total ChangesetHistory.Merged Closed Draft Open OpenApproved OpenChangesRequested OpenPending].
  induction ss as [|[x r] ss IH] using rev_ind; intros Hk; [done|]. apply Forall_app in Hk as [Hk Hs%Forall_singleton%Is_true_true].
  apply IH in Hk. rewrite !num_snoc. unfold look_known in Hs. cbn [fst snd] in *.
  destruct x; try done; [..|destruct r; try done| |];
    repeat first [rewrite bool_decide_eq_true_2 by done|rewrite bool_decide_eq_false_2 by done]; cbn [andb orb]; lia.
Qed.

Lemma imap_pair_snd {A} (l : list A) n : map snd (imap (fun i x => ((n + i)%nat, x)) l) = l.
Proof.
  revert n. induction l as [|a l IH]; intros n; cbn; [done|]. f_equal. rewrite <- (IH (S n)) at 2. f_equal. apply imap_ext. intros. cbn.
  f_equal. lia.
Qed.

Lemma imap_pair_fst {A} (l : list A) n : (imap (fun i x => ((n + i)%nat, x)) l).*1 = seq n (length l).
Proof.
  revert n. induction l as [|a l IH]; intros n; cbn; [done|]. rewrite Nat.add_0_r. f_equal. rewrite <- (IH (S n)). f_equal. apply imap_ext.
  intros. cbn. f_equal. lia.
Qed.

Lemma calc_order {G : GoRuntime} cs es :
  map snd (map_range 0 (list_to_map (imap pair (by_changeset cs es)) : gmap nat (Changeset * list ChangesetEvent))) ≡ₚ by_changeset cs es.
Proof.
  rewrite map_range_perm, map_to_list_to_map.
  - by rewrite (imap_pair_snd _ 0).
  - rewrite (imap_pair_fst _ 0). apply NoDup_seq.
Qed.

(** C29: the burndown chart.  For two times at least 150 nanoseconds and at most 292 years apart, fewer than 2^31 changesets, and for each of them a time of opening, sorted events, metadata of each GitHub review and no event after the deletion, [CalcCounts] returns without an error: there are at least 151 times, a 150th of the difference apart and the last one [end], and the counts at each of them are the numbers of changesets that are, by the events up to then, merged, closed, drafts, open, and open and approved, with changes requested and pending; each changeset that exists then is counted in exactly one of the external states, and each open one in exactly one of the review states. *)
Theorem CalcCounts_correct {G : GoRuntime} fuel start end_ cs es :
  (150 <= end_ - start < 2 ^ 63)%Z -> (302 <= fuel)%nat -> (Z.of_nat (length cs) < 2 ^ 31)%Z ->
  Forall (fun ch => tellable ch (own_events es ch)) cs ->
  exists ts, CalcCounts fuel start end_ cs es = Done (map (fun t => countsOf t (looking t cs es)) ts, None) /\
    (151 <= length ts)%nat /\
    (forall i, (i < length ts)%nat -> ts !! i = Some (end_ - Z.of_nat (length ts - 1 - i) * ((end_ - start) / 150))%Z) /\
    (exists t, head ts = Some t /\ start <= t < start + (end_ - start) / 150)%Z /\
    forall t, let c := countsOf t (looking t cs es) in
      Total c = (ChangesetHistory.Merged c + Closed c + Draft c + Open c)%Z /\
      Open c = (OpenApproved c + OpenChangesRequested c + OpenPending c)%Z.
Proof.
  intros Hd Hf Hl Ht. destruct (GenerateTimestamps_correct fuel start end_ Hd) as (ts & Ets & Hlen & _ & Hi & Hh).
  { unfold timestampCount. rewrite Z.quot_div_nonneg by lia. pose proof (Z.mul_succ_div_gt (end_ - start) 150 ltac:(lia)).
    assert (1 <= (end_ - start) / 150)%Z by (apply Z.div_le_lower_bound; lia).
    assert ((end_ - start) / ((end_ - start) / 150) <= 300)%Z by (apply Z.div_le_upper_bound; lia). lia. }
  unfold timestampCount in Hi, Hh. rewrite Z.quot_div_nonneg in Hi, Hh by lia.
  exists ts. split_and!; [|done|done|done|intros t c; apply countsOf_partition, looking_known].
  assert (Forall (fun ce => exists h, computeHistory ce.1 ce.2 = Ok h) (by_changeset cs es)) as Hall.
  { unfold by_changeset. apply Forall_fmap. eapply Forall_impl; [exact Ht|]. intros ch (h & Hh' & _)%computeHistory_looks. by exists h. }
  unfold CalcCounts. rewrite Ets. cbn [run_bind]. set (order := map snd (map_range 0 _)).
  pose proof (calc_order cs es) as Ho. fold order in Ho.
  rewrite (counts_loop_ok order (map history_of order)) by (apply history_of_Forall2; by rewrite Ho).
  do 2 f_equal. rewrite map_map. apply map_ext. intros t. rewrite count_histories.
  - apply countsOf_perm. unfold states_at. transitivity (omap (fun h => shown_states <$> StatesAtTime h t) (map history_of (by_changeset cs es))).
    { apply omap_Permutation. by rewrite Ho. }
    match goal with |- ?a ≡ₚ ?b => cut (a = b); [by intros ->|] end.
    unfold by_changeset, looking. clear -Ht. induction Ht as [|ch cs Hch _ IH]; [done|].
    destruct (computeHistory_looks ch _ Hch) as (h & Eh & Hlook). cbn [map omap list_omap].
    assert (history_of (ch, own_events es ch) = h) as E by (unfold history_of; simpl; by rewrite Eh).
    change (List.filter (fun e => (ev_ChangesetID e =? c_ID ch)%Z) es) with (own_events es ch).
    rewrite E, Hlook. destruct (looks _ _ _); [by f_equal|done].
  - rewrite length_map, (Permutation_length Ho). unfold by_changeset. by rewrite length_map.
Qed.

(** ** Close times *)

(** The walk does not end when the times are less than 150 nanoseconds apart, for example equal. *)
Lemma GenerateTimestamps_diverges fuel start end_ : (0 <= end_ - start < 150)%Z -> GenerateTimestamps fuel start end_ = OutOfFuel.
Proof.
  intros H. unfold GenerateTimestamps. assert (time_Sub end_ start = end_ - start)%Z as -> by (unfold time_Sub; lia).
  unfold timestampCount. rewrite Z.quot_small by lia. by rewrite timestamps_loop_zero by lia.
Qed.

(** ** A pull request: opened at 10 as a draft, ready at 20, approved by one and sent back by another reviewer, merged at 50. *)
Definition ex_pr : GitHubPullRequest := MkGitHub (str "MERGED") false [] [] [] [] [] [] 10.
Definition ex_changeset : Changeset :=
  MkChangeset 7 1 60 (GitHub ex_pr) [] (str "1") TypeGitHub [] [] 0 ExternalMerged ReviewPending (MkSyncState [] [] false) None None 3 5 0
    Published None Completed None None None 0 0 false 0.
Definition ex_event k t author review draft : ChangesetEvent := MkEvent 7 k t author review draft.
Definition ex_events : list ChangesetEvent :=
  [ex_event GitHubReadyForReview 20 [] None (Some false);
   ex_event GitHubReviewed 30 (str "ann") (Some ReviewApproved) None;
   ex_event GitHubReviewed 40 (str "bob") (Some ReviewChangesRequested) None;
   ex_event GitHubMerged 50 [] None None; ex_event GitHubClosed 50 [] None None]%Z.
Definition ex_history : changesetHistory :=
  [MkStates 10 ExternalDraft ReviewPending; MkStates 20 ExternalOpen ReviewPending; MkStates 30 ExternalOpen ReviewApproved;
   MkStates 40 ExternalOpen ReviewChangesRequested; MkStates 50 ExternalMerged ReviewChangesRequested]%Z.

Example ex_history_ok : computeHistory ex_changeset ex_events = Ok ex_history.
Proof. vm_compute. reflexivity. Qed.

Lemma computeHistory_timeline_witness : computeHistory ex_changeset ex_events = Ok ex_history /\ in_order ex_history.
Proof.
  assert (computeHistory ex_changeset ex_events = Ok ex_history) as H by (vm_compute; reflexivity). split; [exact H|].
  apply (computeHistory_timeline ex_changeset ex_events ex_history H).
  - intros e He. right. unfold ex_events in He. apply list_elem_of_In in He. cbn in He.
    repeat (destruct He as [<-|He]; [vm_compute; discriminate|]). destruct He.
  - left. reflexivity.
Defined.

Lemma GenerateTimestamps_correct_witness : exists ts, GenerateTimestamps 200 0 300 = Done ts /\ (length ts = 151)%nat.
Proof.
  destruct (GenerateTimestamps_correct 200 0 300) as (ts & H & _ & H' & _); [lia|vm_compute; lia|]. exists ts. split; [exact H|].
  rewrite H'. reflexivity.
Defined.

Lemma ex_tellable : tellable ex_changeset ex_events.
Proof.
  split; [vm_compute; discriminate| | |by left].
  - repeat (constructor; [|repeat constructor; vm_compute; discriminate]). constructor.
  - repeat constructor; discriminate.
Qed.

Lemma CalcCounts_correct_witness : exists ts,
  CalcCounts (G := plain_runtime) 302 0 300 [ex_changeset] ex_events =
  Done (map (fun t => countsOf t (looking t [ex_changeset] ex_events)) ts, None) /\ (151 <= length ts)%nat.
Proof.
  destruct (CalcCounts_correct (G := plain_runtime) 302 0 300 [ex_changeset] ex_events) as (ts & H & Hl & _);
    [lia|lia|vm_compute; reflexivity|constructor; [exact ex_tellable|constructor]|].
  exists ts. split; [exact H|exact Hl].
Defined.

(** The pull request at three times: a draft, sent back, and merged. *)
Example ex_looks : map (fun t => looks t ex_changeset ex_events) [5; 15; 45; 60]%Z =
  [None; Some (ExternalDraft, ReviewPending); Some (ExternalOpen, ReviewChangesRequested); Some (ExternalMerged, ReviewChangesRequested)].
Proof. vm_compute. reflexivity. Qed.

(** Changes requested on Bitbucket Cloud are not part of the history, though taking
    them back is. *)
Example ex_bitbucket_cloud_changes :
  looks 30 ex_changeset [ex_event BitbucketCloudPullRequestChangesRequestCreated 20 (str "ann") None None] = Some (ExternalOpen, ReviewPending) /\
  computeHistory ex_changeset [ex_event BitbucketCloudPullRequestChangesRequestCreated 20 (str "ann") None None] =
    Ok [MkStates 10 ExternalOpen ReviewPending].
Proof. split; vm_compute; reflexivity. Qed.
