(* ===== verification/Reconciler.v ===== *)
(** The executor of a plan and the reconciler: [executor.go] and [reconciler.go]
    of [enterprise/internal/batches/reconciler], with [SetDerivedState] of
    [state.go], [GetRemoteRepo] and [IsOutdated] of [sources], and the errors of
    [errcode].

    The database, gitserver, the code hosts, the clock and the text templates are
    the class [Services]: functions on a [World].  The executor's fields and the
    world are the state of a small monad; a nil [e.spec] that is dereferenced is a
    panic. *)
From stdpp Require Import sorting.
From S2P Require Import Prelude GoStr GoLib GoMap Changesets ChangesetHistory ReconcilerPlan.

(** ** Errors *)

Record CommitError := MkCommitError { ce_RepositoryName : gostring; ce_InternalError : gostring; ce_Command : gostring; CombinedOutput : gostring }.

Inductive error :=
  | errorString (msg : gostring)
  | context_Canceled | context_DeadlineExceeded
  | Wrap (e : error) (msg : gostring)
  | nonRetryableError (e : error)
  | archivedError (archived : bool) (msg : gostring)
  | ErrNoResults
  | ErrMissingCredentials | ErrNoSSHCredential | ErrNoPushCredentials (credentialsType : gostring)
  | ErrChangesetSourceCannotFork
  | ChangesetNotFoundError
  | CreateCommitFromPatchError (c : CommitError)
  | pushCommitError (c : CommitError)
  | errPublishSameBranch
  | errNoSSHCredential
  | errMissingCredentials (repo : gostring)
  | errNoPushCredentials (credentialsType : gostring).

(** [errors.As]: the first error of the chain that [get] accepts.  Only [Wrap]
    unwraps: [nonRetryableError] embeds an error without [Unwrap]. *)
Fixpoint errors_As {A} (get : error -> option A) (e : error) : option A :=
  match get e with
  | Some a => Some a
  | None => match e with Wrap e _ => errors_As get e | _ => None end
  end.

Definition IsNonRetryable (e : error) : bool :=
  match errors_As (fun e => match e with
    | nonRetryableError _ | ChangesetNotFoundError | errPublishSameBranch | errNoSSHCredential | errMissingCredentials _
    | errNoPushCredentials _ => Some true
    | _ => None end) e with Some b => b | None => false end.
Definition IsArchivedError (e : error) : bool :=
  match errors_As (fun e => match e with archivedError b _ => Some b | _ => None end) e with Some b => b | None => false end.
Definition IsNotFound (e : error) : bool :=
  bool_decide (is_Some (errors_As (fun e => match e with ChangesetNotFoundError => Some () | _ => None end) e)).
Definition as_pushCommitError (e : error) : option CommitError :=
  errors_As (fun e => match e with pushCommitError c => Some c | _ => None end) e.

Definition errCannotPushToArchivedRepo : error := nonRetryableError (errorString (str "cannot push to an archived repo")).

(** ** Services *)

Record BatchChange := MkBatchChange { bc_ID : Z; bc_Name : gostring; bc_NamespaceOrgID : Z; bc_NamespaceUserID : Z }.

(** [sources.Changeset]. *)
Record SourceChangeset := MkSource {
  s_Title : gostring; s_Body : gostring; s_BaseRef : gostring; s_HeadRef : gostring;
  s_RemoteRepo : Repo; s_TargetRepo : Repo; s_Changeset : Changeset
}.

Class Services := {
  World : Type;
  (** the clock *)
  time_Now : World -> Z * World;
  (** [store.Store] and what is reached through it *)
  Repos_Get : Z -> World -> result error Repo * World;
  GetChangeset (externalServiceType : gostring) (repoID : Z) (externalBranch : gostring) : World -> result error Changeset * World;
  GetChangesetSpecByID : Z -> World -> result error ChangesetSpec * World;
  GetBatchChange : Z -> World -> result error BatchChange * World;
  Namespace_Name (orgID userID : Z) : World -> result error gostring * World;
  BatchChange_URL : BatchChange -> gostring -> World -> result error gostring * World;
  UpdateRepo : Repo -> World -> option error * World;
  UpsertChangesetEvents : list ChangesetEvent -> World -> option error * World;
  UpdateChangeset : Changeset -> World -> option error * World;
  Transact : World -> option error * World;
  tx_Done : option error -> World -> option error * World;
  Enqueue (eventType : gostring) (id : Z) : World -> World;
  (** gitserver *)
  CommitRequest : Type;
  CreateCommitFromPatch : CommitRequest -> World -> option error * World;
  ResolveRevision (repo rev : gostring) : World -> result error gostring * World;
  (** the files of a diff, and the error that ends the iteration early *)
  git_Diff (repo base head : gostring) : World -> result error (list Stat * option error) * World;
  (** [sources.Sourcer] and [sources.ChangesetSource]; the methods change the changeset they are given *)
  Source : Type;
  PushConfig : Type;
  ForChangeset : Changeset -> World -> result error Source * World;
  is_Draft : Source -> bool;
  is_Archivable : Source -> bool;
  is_Forkable : Source -> bool;
  GitserverPushConfig : Source -> Repo -> result error PushConfig;
  BuildCommitOpts : Source -> Repo -> Changeset -> ChangesetSpec -> PushConfig -> CommitRequest;
  IsArchivedPushError : Source -> gostring -> bool;
  GetFork : Source -> Repo -> option gostring -> option gostring -> World -> result error Repo * World;
  LoadChangeset : Source -> SourceChangeset -> World -> (Changeset * option error) * World;
  CreateChangeset : Source -> SourceChangeset -> World -> (Changeset * result error bool) * World;
  CreateDraftChangeset : Source -> SourceChangeset -> World -> (Changeset * result error bool) * World;
  UndraftChangeset : Source -> SourceChangeset -> World -> (Changeset * option error) * World;
  svc_UpdateChangeset : Source -> SourceChangeset -> World -> (Changeset * option error) * World;
  ReopenChangeset : Source -> SourceChangeset -> World -> (Changeset * option error) * World;
  CloseChangeset : Source -> SourceChangeset -> World -> (Changeset * option error) * World;
  (** the events that the metadata of a changeset holds *)
  ch_Events : Changeset -> result error (list ChangesetEvent);
  (** the template of a body, in which [batch_change_link] is the given link *)
  template_Execute (body link : gostring) : result error gostring
}.

Inductive Webhook := ChangesetClose | ChangesetPublish | ChangesetPublishError | ChangesetUpdate | ChangesetUpdateError.
Definition webhook_name (w : Webhook) : gostring :=
  match w with
  | ChangesetClose => str "changeset:close" | ChangesetPublish => str "changeset:publish"
  | ChangesetPublishError => str "changeset:publish_error" | ChangesetUpdate => str "changeset:update"
  | ChangesetUpdateError => str "changeset:update_error"
  end.

(** What an operation returns: the webhook to enqueue afterwards, and an error. *)
Abbreviation outcome := (option Webhook * option error)%type.

Section Executor.
Context {SV : Services} {G : GoRuntime}.

(** The remote repository is the target's pointer or a fork. *)
Inductive remote_ref := TheTarget | TheFork (r : Repo).

Record executor := MkExecutor {
  x_ch : Changeset;
  x_spec : option ChangesetSpec;
  targetRepo : Repo;
  x_css : option (result error Source);
  x_remote : option (result error remote_ref);
  x_world : World
}.
Definition x_set_ch (c : Changeset) (e : executor) : executor := MkExecutor c (x_spec e) (targetRepo e) (x_css e) (x_remote e) (x_world e).
Definition x_set_css r (e : executor) : executor := MkExecutor (x_ch e) (x_spec e) (targetRepo e) r (x_remote e) (x_world e).
Definition x_set_remote r (e : executor) : executor := MkExecutor (x_ch e) (x_spec e) (targetRepo e) (x_css e) r (x_world e).
Definition x_set_target r (e : executor) : executor := MkExecutor (x_ch e) (x_spec e) r (x_css e) (x_remote e) (x_world e).
Definition x_set_world w (e : executor) : executor := MkExecutor (x_ch e) (x_spec e) (targetRepo e) (x_css e) (x_remote e) w.

(** ** The monad *)

Definition M (A : Type) : Type := executor -> run (A * executor).
Definition ret {A} (a : A) : M A := fun e => Done (a, e).
Definition bind {A B} (m : M A) (k : A -> M B) : M B := fun e => let! ae := m e in k ae.1 ae.2.
Definition gets {A} (f : executor -> A) : M A := fun e => Done (f e, e).
Definition modify (f : executor -> executor) : M () := fun e => Done ((), f e).
Definition svc {A} (f : World -> A * World) : M A := fun e => let r := f (x_world e) in Done (r.1, x_set_world r.2 e).
Definition panic {A} (why : string) : M A := fun _ => Panics why.

Notation "'do' x <- m ; k" := (bind m (fun x => k)) (at level 200, x name, m at level 100, k at level 200).
Notation "'do' ' x <- m ; k" := (bind m (fun x => k)) (at level 200, x strict pattern, m at level 100, k at level 200).

(** [e.spec], dereferenced. *)
Definition the_spec : M ChangesetSpec :=
  do s <- gets x_spec; match s with Some s => ret s | None => panic "nil pointer dereference: e.spec" end.

(** [x, err := m; if err != nil { return afterDone, err }]. *)
Definition try_ {A} (afterDone : option Webhook) (m : M (result error A)) (k : A -> M outcome) : M outcome :=
  do r <- m; match r with Err e => ret (afterDone, Some e) | Ok a => k a end.

(** [errors.Wrap] of the error of a result. *)
Definition wrapped {A} (msg : gostring) (m : M (result error A)) : M (result error A) :=
  do r <- m; ret (match r with Err e => Err (Wrap e msg) | Ok a => Ok a end).

(** A method of the source: the changeset is updated. *)
Definition call {A} (f : World -> (Changeset * A) * World) : M A :=
  do r <- svc f; do _ <- modify (x_set_ch r.1); ret r.2.

Definition or_error (o : option error) : result error () := match o with Some e => Err e | None => Ok () end.

(** ** Sources *)

Definition loadChangesetSource : M (result error Source) :=
  do e <- gets id;
  do r <- svc (ForChangeset (x_ch e));
  ret (match r with
       | Ok css => Ok css
       | Err ErrMissingCredentials => Err (errMissingCredentials (r_Name (targetRepo e)))
       | Err ErrNoSSHCredential => Err errNoSSHCredential
       | Err err =>
           match errors_As (fun e => match e with ErrNoPushCredentials t => Some t | _ => None end) err with
           | Some t => Err (errNoPushCredentials t)
           | None => Err err
           end
       end).

(** With [sync.Once]. *)
Definition changesetSource : M (result error Source) :=
  do c <- gets x_css;
  match c with
  | Some r => ret r
  | None => do r <- loadChangesetSource; do _ <- modify (x_set_css (Some r)); ret r
  end.

Definition GetRemoteRepo (css : Source) (targetRepo : Repo) (ch : Changeset) (spec : option ChangesetSpec) : M (result error remote_ref) :=
  if gs_eqb (c_ExternalForkNamespace ch) [] && match spec with None => true | Some s => negb (IsFork s) end then ret (Ok TheTarget)
  else if negb (is_Forkable css) then ret (Err ErrChangesetSourceCannotFork)
  else
    let fork msg (r : result error Repo) := match r with Ok r => Ok (TheFork r) | Err e => Err (Wrap e msg) end in
    if negb (gs_eqb (c_ExternalForkNamespace ch) []) then
      do r <- svc (GetFork css targetRepo (Some (c_ExternalForkNamespace ch)) (Some (c_ExternalForkName ch)));
      ret (fork (str "getting fork for changeset") r)
    else
      match spec with
      | None => panic "nil pointer dereference: spec"
      | Some s =>
          do r <- svc (GetFork css targetRepo (GetForkNamespace s) None);
          ret (fork (str "getting fork for changeset spec") r)
      end.

Definition deref_remote (e : executor) (r : result error remote_ref) : result error Repo :=
  match r with Err err => Err err | Ok TheTarget => Ok (targetRepo e) | Ok (TheFork r) => Ok r end.

Definition remoteRepo : M (result error Repo) :=
  do c <- gets x_remote;
  match c with
  | Some r => gets (fun e => deref_remote e r)
  | None =>
      do css <- changesetSource;
      do e <- gets id;
      do r <- match css with
              | Err err => ret (Err (Wrap err (str "getting changeset source")))
              | Ok css => GetRemoteRepo css (targetRepo e) (x_ch e) (x_spec e)
              end;
      do _ <- modify (x_set_remote (Some r));
      gets (fun e => deref_remote e r)
  end.

(** ** Archived repositories *)

Definition archive_repo (r : Repo) : Repo := MkRepo (r_ID r) (r_Name r) (r_ServiceType r) true.

(** [repo.Archived = true], through the pointer. *)
Definition mark_archived : M () :=
  modify (fun e => match x_remote e with
                   | Some (Ok TheTarget) => x_set_target (archive_repo (targetRepo e)) e
                   | Some (Ok (TheFork r)) => x_set_remote (Some (Ok (TheFork (archive_repo r)))) e
                   | _ => e
                   end).

Definition handleArchivedRepo : M (result error ()) :=
  do repo <- wrapped (str "getting the archived remote repo") remoteRepo;
  match repo with
  | Err e => ret (Err e)
  | Ok repo =>
      do _ <- mark_archived;
      do err <- svc (UpdateRepo (archive_repo repo));
      match err with
      | Some e => ret (Err (Wrap e (str "updating archived status of repo " ++ FormatInt (r_ID repo))))
      | None => do _ <- modify (fun e => x_set_ch (set_ExternalState (x_ch e) ExternalReadOnly) e); ret (Ok ())
      end
  end.

(** ** The body of a changeset *)

Definition loadBatchChange (id : Z) : M (result error BatchChange) :=
  if (id =? 0)%Z then ret (Err (errorString (str "changeset has no owning batch change")))
  else
    do r <- svc (GetBatchChange id);
    ret (match r with
         | Ok b => Ok b
         | Err ErrNoResults => Err (errorString (str "batch change not found: " ++ FormatInt id))
         | Err e => Err (Wrap e (str "retrieving owning batch change: " ++ FormatInt id))
         end).

Definition batch_change_link (namespace name url : gostring) : gostring :=
  str "[_Created by Sourcegraph batch change `" ++ namespace ++ str "/" ++ name ++ str "`._](" ++ url ++ str ")".

Definition decorateChangesetBody (body : gostring) : M (result error gostring) :=
  do ch <- gets x_ch;
  do b <- wrapped (str "failed to load batch change") (loadBatchChange (c_OwnedByBatchChangeID ch));
  match b with
  | Err e => ret (Err e)
  | Ok b =>
      do ns <- wrapped (str "retrieving namespace") (svc (Namespace_Name (bc_NamespaceOrgID b) (bc_NamespaceUserID b)));
      match ns with
      | Err e => ret (Err e)
      | Ok ns =>
          do u <- wrapped (str "building URL") (svc (BatchChange_URL b ns));
          match u with
          | Err e => ret (Err e)
          | Ok u =>
              let bcl := batch_change_link ns (bc_Name b) u in
              if Contains body (str "batch_change_link") then ret (template_Execute body bcl)
              else ret (Ok (body ++ [10; 10]%Z ++ bcl))
          end
      end
  end.

(** [decorateChangesetBody] of [e.spec.Body], with the caller's wrapping. *)
Definition decorated_body : M (result error gostring) :=
  do s <- the_spec;
  do ch <- gets x_ch;
  wrapped (str "decorating body for changeset " ++ FormatInt (c_ID ch)) (decorateChangesetBody (spec_Body s)).

(** The [sources.Changeset] that the operations build. *)
Definition source_changeset (title body baseRef headRef : gostring) (remoteRepo : Repo) : M SourceChangeset :=
  do e <- gets id; ret (MkSource title body baseRef headRef remoteRepo (targetRepo e) (x_ch e)).
Definition spec_changeset (body : ChangesetSpec -> gostring) (remoteRepo : Repo) : M SourceChangeset :=
  do s <- the_spec; source_changeset (spec_Title s) (body s) (spec_BaseRef s) (spec_HeadRef s) remoteRepo.

(** ** Operations *)

Definition pushCommit (opts : CommitRequest) : M (result error ()) :=
  do err <- svc (CreateCommitFromPatch opts);
  ret (match err with
       | None => Ok ()
       | Some err =>
           match errors_As (fun e => match e with CreateCommitFromPatchError c => Some c | _ => None end) err with
           | Some c =>
               if Contains (CombinedOutput c) (str "patch does not apply") then Err (nonRetryableError (pushCommitError c))
               else Err (pushCommitError c)
           | None => Err err
           end
       end).

(** A failed push to a repository that the code host says is archived. *)
Definition archived_push (css : Source) (err : error) : bool :=
  match as_pushCommitError err with
  | Some pce => is_Archivable css && IsArchivedPushError css (CombinedOutput pce)
  | None => false
  end.

Definition pushChangesetPatch (triggerUpdateWebhook : bool) : M outcome :=
  let afterDone := if triggerUpdateWebhook then Some ChangesetUpdateError else None in
  do s <- the_spec;
  do ch <- gets x_ch;
  do existing <- svc (GetChangeset (c_ExternalServiceType ch) (c_RepoID ch) (spec_HeadRef s));
  let sameBranch :=
    match existing with
    | Ok c => if negb (c_ID c =? c_ID ch)%Z then Some errPublishSameBranch else None
    | Err ErrNoResults => None
    | Err e => Some e
    end in
  match sameBranch with
  | Some e => ret (afterDone, Some e)
  | None =>
      try_ afterDone changesetSource (fun css =>
      try_ afterDone remoteRepo (fun remoteRepo =>
      if r_Archived remoteRepo then ret (afterDone, Some errCannotPushToArchivedRepo)
      else
        try_ afterDone (ret (GitserverPushConfig css remoteRepo)) (fun pushConf =>
        do e <- gets id;
        do r <- pushCommit (BuildCommitOpts css (targetRepo e) (x_ch e) s pushConf);
        match r with
        | Ok () => ret (if triggerUpdateWebhook then Some ChangesetUpdate else afterDone, None)
        | Err err =>
            if archived_push css err then
              try_ afterDone (wrapped (str "handling archived repo") handleArchivedRepo) (fun _ =>
              ret (afterDone, Some errCannotPushToArchivedRepo))
            else ret (afterDone, Some err)
        end)))
  end.

Definition EnsureRefPrefix (ref : gostring) : gostring := str "refs/heads/" ++ TrimPrefix ref (str "refs/heads/").

(** [cs.IsOutdated()], of the changeset as it is now. *)
Definition IsOutdated (cs : SourceChangeset) (ch : Changeset) : result error bool :=
  match c_Title ch with
  | None => Err (errorString (str "title unknown changeset type"))
  | Some currentTitle =>
      if negb (gs_eqb currentTitle (s_Title cs)) then Ok true
      else
        match c_Body ch with
        | None => Err (errorString (str "body unknown changeset type"))
        | Some currentBody =>
            if negb (gs_eqb currentBody (s_Body cs)) then Ok true
            else
              match c_BaseRef ch with
              | None => Err (errorString (str " base ref unknown changeset type"))
              | Some currentBaseRef =>
                  Ok (negb (gs_eqb (EnsureRefPrefix currentBaseRef) (EnsureRefPrefix (s_BaseRef cs))))
              end
        end
  end.

(** [cs] with the changeset as it is now. *)
Definition refreshed (cs : SourceChangeset) : M SourceChangeset :=
  do ch <- gets x_ch;
  ret (MkSource (s_Title cs) (s_Body cs) (s_BaseRef cs) (s_HeadRef cs) (s_RemoteRepo cs) (s_TargetRepo cs) ch).

Definition ToDraftChangesetSource (css : Source) : result error Source :=
  if is_Draft css then Ok css else Err (errorString (str "changeset source doesn't implement DraftChangesetSource")).

Definition set_published : M () := modify (fun e => x_set_ch (set_PublicationState (x_ch e) Published) e).

Definition publishChangeset (asDraft : bool) : M outcome :=
  let afterDoneUpdate := Some ChangesetUpdateError in
  let afterDonePublish := Some ChangesetUpdateError in
  try_ afterDoneUpdate decorated_body (fun body =>
  try_ afterDoneUpdate changesetSource (fun css =>
  try_ afterDoneUpdate remoteRepo (fun remoteRepo =>
  do cs <- spec_changeset (fun _ => body) remoteRepo;
  let created (k : bool -> M outcome) : M outcome :=
    if asDraft then
      try_ afterDoneUpdate (ret (ToDraftChangesetSource css)) (fun draftCss =>
      try_ afterDonePublish (wrapped (str "creating draft changeset") (call (CreateDraftChangeset draftCss cs))) k)
    else try_ afterDonePublish (wrapped (str "creating changeset") (call (CreateChangeset css cs))) k in
  created (fun exists_ =>
  if exists_ then
    do ch <- gets x_ch;
    try_ afterDonePublish (wrapped (str "could not determine whether changeset needs update") (ret (IsOutdated cs ch))) (fun outdated =>
    if outdated then
      do cs <- refreshed cs;
      do err <- call (svc_UpdateChangeset css cs);
      match err with
      | Some e => ret (afterDoneUpdate, Some (Wrap e (str "updating changeset")))
      | None => do _ <- set_published; ret (Some ChangesetUpdate, None)
      end
    else do _ <- set_published; ret (Some ChangesetPublish, None))
  else do _ <- set_published; ret (Some ChangesetPublish, None))))).

Definition loadChangeset : M (result error ()) :=
  do css <- changesetSource;
  match css with
  | Err e => ret (Err e)
  | Ok css =>
      do r <- remoteRepo;
      match r with
      | Err e => ret (Err e)
      | Ok remoteRepo =>
          do cs <- source_changeset [] [] [] [] remoteRepo;
          do err <- call (LoadChangeset css cs);
          ret (or_error err)
      end
  end.

Definition syncChangeset : M (result error ()) :=
  do r <- loadChangeset;
  match r with
  | Ok () => ret (Ok ())
  | Err e =>
      if negb (IsNotFound e) then ret (Err e)
      else
        do ch <- gets x_ch;
        if IsDeleted ch then ret (Ok ())
        else do now <- svc time_Now; do _ <- modify (fun e => x_set_ch (SetDeleted now (x_ch e)) e); ret (Ok ())
  end.

Definition importChangeset : M (result error ()) :=
  do r <- loadChangeset;
  match r with Err e => ret (Err e) | Ok () => do _ <- set_published; ret (Ok ()) end.

Definition updateChangeset : M outcome :=
  let afterDone := Some ChangesetUpdateError in
  try_ afterDone decorated_body (fun body =>
  try_ afterDone changesetSource (fun css =>
  try_ afterDone remoteRepo (fun remoteRepo =>
  do cs <- spec_changeset (fun _ => body) remoteRepo;
  do err <- call (svc_UpdateChangeset css cs);
  match err with
  | None => ret (Some ChangesetUpdate, None)
  | Some e =>
      if IsArchivedError e then try_ afterDone handleArchivedRepo (fun _ => ret (Some ChangesetUpdate, None))
      else ret (afterDone, Some (Wrap e (str "updating changeset")))
  end))).

Definition reopenChangeset : M outcome :=
  let afterDone := Some ChangesetUpdateError in
  try_ afterDone changesetSource (fun css =>
  try_ afterDone remoteRepo (fun remoteRepo =>
  do cs <- spec_changeset spec_Body remoteRepo;
  do err <- call (ReopenChangeset css cs);
  match err with
  | Some e => ret (afterDone, Some (Wrap e (str "reopening changeset")))
  | None => ret (Some ChangesetUpdate, None)
  end)).

(** The [range] of [detachChangeset] evaluates the slice once and reads the
    elements of its array, which [RemoveBatchChangeID] overwrites. *)
Fixpoint detach_loop (i n : nat) (s : slice BatchChangeAssoc) : slice BatchChangeAssoc :=
  match n with
  | O => s
  | S n =>
      let s := match array s !! i with
               | Some assoc => if a_Detach assoc then RemoveBatchChangeID s (BatchChangeID assoc) else s
               | None => s
               end in
      detach_loop (S i) n s
  end.
Definition detached (l : list BatchChangeAssoc) : list BatchChangeAssoc :=
  elements_of (detach_loop 0 (length l) (MkSlice l (length l))).

Definition detachChangeset : M () :=
  do ch <- gets x_ch;
  do _ <- modify (x_set_ch (set_BatchChanges ch (detached (c_BatchChanges ch))));
  do ch <- gets x_ch;
  if Nat.eqb (length (c_BatchChanges ch)) 0 then
    do now <- svc time_Now; modify (x_set_ch (set_DetachedAt ch now))
  else ret ().

Definition archive_assocs (l : list BatchChangeAssoc) : list BatchChangeAssoc :=
  map (fun a => if a_Archive a then MkAssoc (BatchChangeID a) (a_Detach a) false true else a) l.
Definition archiveChangeset : M () :=
  modify (fun e => x_set_ch (set_BatchChanges (x_ch e) (archive_assocs (c_BatchChanges (x_ch e)))) e).

Definition reattachChangeset : M () :=
  modify (fun e => if negb (c_DetachedAt (x_ch e) =? 0)%Z then x_set_ch (set_DetachedAt (x_ch e) 0%Z) e else e).

Definition closeChangeset : M outcome :=
  let afterDone := Some ChangesetUpdateError in
  do _ <- modify (fun e => x_set_ch (set_Closing (x_ch e) false) e);
  do ch <- gets x_ch;
  if negb (eqb (c_ExternalState ch) ExternalDraft) && negb (eqb (c_ExternalState ch) ExternalOpen) then ret (None, None)
  else
    try_ afterDone changesetSource (fun css =>
    try_ afterDone remoteRepo (fun remoteRepo =>
    do cs <- source_changeset [] [] [] [] remoteRepo;
    do err <- call (CloseChangeset css cs);
    match err with
    | Some e => ret (afterDone, Some (Wrap e (str "closing changeset")))
    | None => ret (Some ChangesetClose, None)
    end)).

Definition undraftChangeset : M outcome :=
  let afterDone := Some ChangesetUpdateError in
  try_ afterDone changesetSource (fun css =>
  try_ afterDone (ret (ToDraftChangesetSource css)) (fun draftCss =>
  do r <- remoteRepo;
  match r with
  | Err _ => ret (afterDone, None)
  | Ok remoteRepo =>
      do cs <- spec_changeset spec_Body remoteRepo;
      do err <- call (UndraftChangeset draftCss cs);
      match err with
      | Some e => ret (afterDone, Some (Wrap e (str "undrafting changeset")))
      | None => ret (Some ChangesetUpdate, None)
      end
  end)).

(** ** The derived state *)

Definition computeRev (repo : gostring) (oid ref_ : option gostring) : M (result error gostring) :=
  let rev := match oid with
             | None => Err (errorString (str "ref oid unknown changeset type"))
             | Some [] => match ref_ with None => Err (errorString (str "ref unknown changeset type")) | Some r => Ok r end
             | Some rev => Ok rev
             end in
  match rev with Err e => ret (Err e) | Ok rev => svc (ResolveRevision repo rev) end.

Definition computeSyncState (c : Changeset) (repo : gostring) : M (result error ChangesetSyncState) :=
  do base <- computeRev repo (c_BaseRefOid c) (c_BaseRef c);
  match base with
  | Err e => ret (Err e)
  | Ok base =>
      do head <- computeRev repo (c_HeadRefOid c) (c_HeadRef c);
      ret (match head with Err e => Err e | Ok head => Ok (MkSyncState base head (Complete c)) end)
  end.

Definition add_stat (stat fs : Stat) : Stat :=
  MkStat (wrap_int32 (Added stat + (Added fs + Changed fs))) (Changed stat) (wrap_int32 (Deleted stat + (Deleted fs + Changed fs))).

Definition computeDiffStat (c : Changeset) (repo : gostring) : M (result error (option Stat)) :=
  if gs_eqb (s_BaseRefOid (c_SyncState c)) (s_HeadRefOid (c_SyncState c)) then ret (Ok (c_DiffStat c))
  else
    do r <- svc (git_Diff repo (s_BaseRefOid (c_SyncState c)) (s_HeadRefOid (c_SyncState c)));
    ret (match r with
         | Err e => Err e
         | Ok (files, Some e) => Err e
         | Ok (files, None) => Ok (Some (fold_left add_stat files (MkStat 0 0 0)))
         end).

Definition SetDerivedState (es : list ChangesetEvent) : M () :=
  let events := sort_slice event_Less es in
  do c <- gets x_ch;
  do r <- svc (Repos_Get (c_RepoID c));
  match r with
  | Err _ => ret ()
  | Ok repo =>
      match computeHistory c events with
      | Err _ => ret ()
      | Ok history =>
          let c := match computeExternalState c history repo with Ok s => set_ExternalState c s | Err _ => c end in
          let c := match computeReviewState c history with Ok s => set_ExternalReviewState c s | Err _ => c end in
          do _ <- modify (x_set_ch c);
          if s_IsComplete (c_SyncState c) && Complete c then ret ()
          else
            do s <- computeSyncState c (r_Name repo);
            match s with
            | Err _ => ret ()
            | Ok newState =>
                let oldState := c_SyncState c in
                let c := set_SyncState c newState in
                do _ <- modify (x_set_ch c);
                if eqb oldState newState then ret ()
                else
                  do stat <- computeDiffStat c (r_Name repo);
                  match stat with Err _ => ret () | Ok stat => modify (x_set_ch (SetDiffStat c stat)) end
            end
      end
  end.

(** ** Running a plan *)

(** [err = m] leaves [afterDone] as it is. *)
Definition keep_done (afterDone : option Webhook) (m : M (result error ())) : M outcome :=
  do r <- m; ret (afterDone, match r with Err e => Some e | Ok _ => None end).
Definition silent (afterDone : option Webhook) (m : M ()) : M outcome := do _ <- m; ret (afterDone, None).

Definition execute (triggerUpdateWebhook : bool) (afterDone : option Webhook) (op : ReconcilerOperation) : M outcome :=
  match op with
  | OpSync => keep_done afterDone syncChangeset
  | OpImport => keep_done afterDone importChangeset
  | OpPush => pushChangesetPatch triggerUpdateWebhook
  | OpPublish => publishChangeset false
  | OpPublishDraft => publishChangeset true
  | OpReopen => reopenChangeset
  | OpUpdate => updateChangeset
  | OpUndraft => undraftChangeset
  | OpClose => closeChangeset
  | OpSleep => silent afterDone (ret ())
  | OpDetach => silent afterDone detachChangeset
  | OpArchive => silent afterDone archiveChangeset
  | OpReattach => silent afterDone reattachChangeset
  end.

Fixpoint run_ops (triggerUpdateWebhook : bool) (ops : list ReconcilerOperation) (afterDone : option Webhook) : M outcome :=
  match ops with
  | [] => ret (afterDone, None)
  | op :: ops =>
      do r <- execute triggerUpdateWebhook afterDone op;
      match r.2 with Some _ => ret r | None => run_ops triggerUpdateWebhook ops r.1 end
  end.

Definition trigger_update (ops : Operations) : bool :=
  ops_Contains ops OpPush && negb (ops_Contains ops OpPublish) && negb (ops_Contains ops OpUpdate).

Definition finish_run (afterDone : option Webhook) : M outcome :=
  do ch <- gets x_ch;
  match ch_Events ch with
  | Err e => ret (afterDone, Some (nonRetryableError e))
  | Ok events =>
      do _ <- SetDerivedState events;
      do err <- svc (UpsertChangesetEvents events);
      match err with
      | Some e => ret (afterDone, Some e)
      | None =>
          do _ <- modify (fun e => x_set_ch (set_messages (x_ch e) (c_FailureMessage (x_ch e)) None (c_SyncErrorMessage (x_ch e))) e);
          do ch <- gets x_ch;
          do err <- svc (UpdateChangeset ch);
          ret (afterDone, err)
      end
  end.

Definition Run (plan : Plan) : M outcome :=
  if IsNone (Ops plan) then ret (None, None)
  else
    do ch <- gets x_ch;
    do r <- svc (Repos_Get (c_RepoID ch));
    match r with
    | Err e => ret (None, Some (Wrap e (str "failed to load repository")))
    | Ok repo =>
        do _ <- modify (x_set_target repo);
        do r <- run_ops (trigger_update (Ops plan)) (ExecutionOrder (Ops plan)) None;
        match r.2 with Some _ => ret r | None => finish_run r.1 end
    end.

(** The repository is not loaded yet. *)
Definition noRepo : Repo := MkRepo 0 [] [] false.
Definition executePlan (plan : Plan) (w : World) : run (outcome * executor) :=
  Run plan (MkExecutor (p_Changeset plan) (p_ChangesetSpec plan) noRepo None None w).

(** ** The reconciler *)

Definition loadSpec (id : Z) (w : World) : result error (option ChangesetSpec) * World :=
  if (id =? 0)%Z then (Ok None, w)
  else match GetChangesetSpecByID id w with (Ok s, w) => (Ok (Some s), w) | (Err e, w) => (Err e, w) end.
Definition loadChangesetSpecs (ch : Changeset) (w : World) : result error (option ChangesetSpec * option ChangesetSpec) * World :=
  match loadSpec (c_CurrentSpecID ch) w with
  | (Err e, w) => (Err e, w)
  | (Ok curr, w) =>
      match loadSpec (c_PreviousSpecID ch) w with
      | (Err e, w) => (Err e, w)
      | (Ok prev, w) => (Ok (prev, curr), w)
      end
  end.

(** Copy over and reset the error message. *)
Definition reset_failure (ch : Changeset) : Changeset :=
  match c_FailureMessage ch with Some m => set_messages ch None (Some m) (c_SyncErrorMessage ch) | None => ch end.

(** The result, the changeset and the world after [process]. *)
Definition process (ch : Changeset) (w : World) : run (outcome * Changeset * World) :=
  let ch := reset_failure ch in
  match loadChangesetSpecs ch w with
  | (Err _, w) => Done ((None, None), ch, w)
  | (Ok (prev, curr), w) =>
      match DeterminePlan prev curr None ch with
      | (_, Some err) => Done ((None, Some (errorString err)), ch, w)
      | (plan, None) => let! r := executePlan plan w in Done (r.1, x_ch r.2, x_world r.2)
      end
  end.

Definition enqueueWebhook (id : Z) (afterDone : option Webhook) (w : World) : World :=
  match afterDone with Some h => Enqueue (webhook_name h) id w | None => w end.

Definition HandlerFunc (job : Changeset) (w : World) : run (option error * World) :=
  match Transact w with
  | (Some e, w) => Done (Some e, w)
  | (None, w) =>
      let! '(((afterDone, err), ch), w) := process job w in
      let '(err, w) := tx_Done err w in
      Done (err, enqueueWebhook (c_ID ch) afterDone w)
  end.
End Executor.
