(* ===== verification/ReconcilerRefine.v ===== *)
(** What the executor does to the fields of a changeset that say what is wanted
    of it: it refines a machine on those fields, one step for each operation of
    the plan, and never panics. *)
From stdpp Require Import sorting.
From S2P Require Import Prelude GoStr GoLib GoMap Changesets ChangesetHistory ReconcilerPlan ReconcilerFacts Reconciler.

(** ** Detaching *)

(** A mark belongs to a batch change with one association, and no two marked
    associations are next to each other. *)
Definition detachable (l : list BatchChangeAssoc) : Prop :=
  forall i j a b, l !! i = Some a -> l !! j = Some b -> a_Detach a = true ->
    (BatchChangeID b = BatchChangeID a -> j = i) /\ (j = S i -> a_Detach b = false).
Definition kept_assocs (l : list BatchChangeAssoc) : list BatchChangeAssoc := List.filter (fun a => negb (a_Detach a)) l.

Lemma remove_loop_none id k s :
  (forall j a, (j < k)%nat -> array s !! j = Some a -> BatchChangeID a <> id) -> remove_loop id k s = s.
Proof.
  induction k as [|k IH]; intros H; cbn [remove_loop]; [done|].
  destruct (array s !! k) as [a|] eqn:Ea; [|apply IH; intros; eapply H; [|done]; lia].
  assert ((BatchChangeID a =? id)%Z = false) as -> by (apply Z.eqb_neq; eapply H; [|done]; lia).
  apply IH. intros. eapply H; [|done]. lia.
Qed.

Section One.
Context (pre post junk : list BatchChangeAssoc) (a : BatchChangeAssoc).
Abbreviation live := (pre ++ a :: post).
Abbreviation s := (MkSlice (live ++ junk) (length live)).
Hypothesis Hid : forall j x, live !! j = Some x -> BatchChangeID x = BatchChangeID a -> j = length pre.

(** The only association with the id is taken out; the array moves up. *)
Lemma remove_one : exists junk', RemoveBatchChangeID s (BatchChangeID a) = MkSlice (pre ++ post ++ junk') (length pre + length post) /\
  forall x, x ∈ junk' -> x ∈ live ++ junk.
Proof.
  assert (forall k, (length pre < k <= length live)%nat -> remove_loop (BatchChangeID a) k s = remove_at s (length pre)) as Hr.
  { induction k as [|k IH]; intros Hk; [lia|]. cbn [remove_loop array]. destruct (decide (k = length pre)) as [->|Hne].
    - rewrite <- app_assoc. cbn [app]. rewrite list_lookup_middle by done. rewrite Z.eqb_refl. apply remove_loop_none. intros j x Hj Hx Hxa.
      cbn [remove_at array len] in Hx. rewrite take_app_length, lookup_app_l in Hx by lia.
      assert (j = length pre); [|lia]. apply (Hid j x); [by rewrite lookup_app_l by lia|done].
    - rewrite lookup_app_l by lia. destruct (live !! k) as [x|] eqn:Ex; [|apply lookup_ge_None in Ex; lia].
      assert ((BatchChangeID x =? BatchChangeID a)%Z = false) as ->; [|apply IH; lia].
      apply Z.eqb_neq. intros Hxa. apply Hne. by apply (Hid k x). }
  unfold RemoveBatchChangeID. cbn [len]. rewrite Hr by (rewrite length_app; cbn [length]; lia). unfold remove_at. cbn [array len].
  exists (drop (length live - 1) (live ++ junk)). split; [|intros x (j & Hj)%list_elem_of_lookup; rewrite lookup_drop in Hj; apply list_elem_of_lookup; eauto].
  rewrite length_app. cbn [length]. f_equal; [|lia]. rewrite <- app_assoc, take_app_length. cbn [app]. f_equal.
  replace (S (length pre)) with (length pre + 1)%nat by lia. rewrite <- drop_drop, drop_app_length. cbn [drop].
  replace (length pre + S (length post) - 1 - length pre)%nat with (length post) by lia. rewrite drop_0. by rewrite take_app_length.
Qed.
End One.

Section Detaching.
Context (l : list BatchChangeAssoc) (Hl : detachable l).

(** The state of the loop at its turn [i]: [k] of the associations are dealt with. *)
Definition detaching (i : nat) (s : slice BatchChangeAssoc) : Prop := exists k junk,
  array s = kept_assocs (take k l) ++ drop k l ++ junk /\ len s = (length (kept_assocs (take k l)) + length (drop k l))%nat /\
  (forall x, x ∈ junk -> x ∈ l) /\ (length (kept_assocs (take k l)) <= i)%nat /\ ((k < length l)%nat -> i = length (kept_assocs (take k l))).

Lemma kept_snoc k x : l !! k = Some x -> kept_assocs (take (S k) l) = kept_assocs (take k l) ++ (if a_Detach x then [] else [x]).
Proof. intros Hx. rewrite (take_S_r _ _ x) by done. unfold kept_assocs. rewrite List.filter_app. cbn. by destruct (a_Detach x). Qed.
Lemma kept_in k x : x ∈ kept_assocs (take k l) -> x ∈ l /\ a_Detach x = false.
Proof.
  intros [Hx Hd%negb_true_iff]%list_elem_of_In%filter_In. split; [|done]. apply list_elem_of_In in Hx. by apply elem_of_take in Hx as (j & Hj%list_elem_of_lookup_2 & _).
Qed.
Lemma marked_apart x y : x ∈ l -> y ∈ l -> a_Detach x = true -> a_Detach y = false -> BatchChangeID y <> BatchChangeID x.
Proof.
  intros (i & Hi)%list_elem_of_lookup (j & Hj)%list_elem_of_lookup Hx Hy E. destruct (Hl i j x y Hi Hj Hx) as [H _]. rewrite (H E) in Hj. congruence.
Qed.

Lemma detaching_step i s : detaching i s ->
  detaching (S i) (match array s !! i with Some a => if a_Detach a then RemoveBatchChangeID s (BatchChangeID a) else s | None => s end).
Proof.
  intros (k & junk & Ha & Hn & Hj & Hle & Hi). destruct s as [arr n]. cbn [array len] in *. subst arr n. destruct (decide (k < length l)%nat) as [Hk|Hk].
  - specialize (Hi Hk). destruct (lookup_lt_is_Some_2 l k Hk) as [x Hx]. rewrite (drop_S _ x) in * by done. cbn [app length].
    rewrite Hi at 1. rewrite list_lookup_middle by done. destruct (a_Detach x) eqn:Ed.
    + destruct (remove_one (kept_assocs (take k l)) (drop (S k) l) junk x) as (junk' & E & Hj').
      { intros j y Hy Exy. destruct (decide (j = length (kept_assocs (take k l)))) as [|Hne]; [done|exfalso]. apply lookup_app_Some in Hy as [Hy|[Hge Hy]].
        - apply list_elem_of_lookup_2, kept_in in Hy as [Hy Hd]. revert Exy. apply marked_apart; [by eapply list_elem_of_lookup_2|done..].
        - apply lookup_cons_Some in Hy as [[? _]|[_ Hy]]; [lia|]. rewrite lookup_drop in Hy. destruct (Hl _ _ x y Hx Hy Ed) as [H _]. specialize (H Exy). lia. }
      rewrite <- app_assoc in E. cbn [app] in E. rewrite length_app in E. cbn [length] in E. rewrite E. clear E.
      assert (forall y, y ∈ junk' -> y ∈ l) as Hjl.
      { intros y [[Hy|Hy]%elem_of_app|Hy]%Hj'%elem_of_app; [by apply kept_in in Hy as [? _]| |by apply Hj]. apply elem_of_cons in Hy as [->|Hy]; [by eapply list_elem_of_lookup_2|].
        apply list_elem_of_lookup in Hy as (j & Hy). rewrite lookup_drop in Hy. by eapply list_elem_of_lookup_2. }
      pose proof (kept_snoc k x Hx) as Hs. rewrite Ed, app_nil_r in Hs. destruct (drop (S k) l) as [|y post] eqn:Edr.
      * exists (S k), junk'. rewrite Hs, Edr. cbn [array len length app]. split_and!; try done; [lia|]. apply (f_equal length) in Edr. rewrite length_drop in Edr. cbn in Edr. lia.
      * assert (l !! S k = Some y) as Hy by (rewrite <- (Nat.add_0_r (S k)), <- lookup_drop, Edr; done).
        assert (a_Detach y = false) as Edy by (by apply (Hl k (S k) x y Hx Hy)).
        assert (drop (S (S k)) l = post) as Ep by (rewrite <- (Nat.add_1_r (S k)), <- drop_drop, Edr; done).
        exists (S (S k)), junk'. rewrite (kept_snoc (S k) y Hy), Edy, Hs, Ep, length_app. cbn [array len length]. rewrite <- app_assoc. cbn [app].
        split_and!; try done; lia.
    + exists (S k), junk. rewrite (kept_snoc k x Hx), Ed, length_app. cbn [array len length]. rewrite <- app_assoc. cbn [app]. split_and!; try done; lia.
  - rewrite (drop_ge l k) in * by lia. cbn [app length] in *. rewrite Nat.add_0_r. rewrite (take_ge l k) in * by lia.
    assert (detaching (S i) (MkSlice (kept_assocs l ++ junk) (length (kept_assocs l)))) as Hstay.
    { exists k, junk. rewrite (drop_ge l k), (take_ge l k) by lia. cbn [array len app length]. split_and!; [done|lia|done|lia|lia]. }
    destruct ((kept_assocs l ++ junk) !! i) as [x|] eqn:Ex; [|done]. destruct (a_Detach x) eqn:Ed; [|done]. rewrite lookup_app_r in Ex by lia.
    apply list_elem_of_lookup_2, Hj in Ex. unfold RemoveBatchChangeID. rewrite remove_loop_none; [done|]. intros j y Hjn Hy. cbn [array len] in *.
    rewrite lookup_app_l in Hy by done. apply list_elem_of_lookup_2 in Hy. rewrite <- (take_ge l k) in Hy by lia. apply kept_in in Hy as [? ?]. by apply marked_apart.
Qed.

(** The marked associations are removed, and no others. *)
Lemma detached_kept : detached l = kept_assocs l.
Proof.
  unfold detached. assert (forall m i s, detaching i s -> detaching (i + m) (detach_loop i m s)) as Hloop.
  { induction m as [|m IH]; intros i s Hs; [by rewrite Nat.add_0_r|]. rewrite Nat.add_succ_r, <- Nat.add_succ_l. cbn [detach_loop]. apply IH. by apply detaching_step. }
  destruct (Hloop (length l) 0 (MkSlice l (length l))) as (k & junk & Ha & Hn & _ & _ & Hi).
  { exists 0%nat, []. cbn [array len]. rewrite app_nil_r. split_and!; try done. by intros x ?%not_elem_of_nil. }
  assert (length (kept_assocs (take k l)) <= k)%nat as Hk by (unfold kept_assocs; rewrite filter_length_le, length_take; lia).
  assert (length l <= k)%nat as Hge by (destruct (decide (k < length l)%nat) as [H|H]; [specialize (Hi H)|]; lia).
  rewrite (take_ge l k), (drop_ge l k) in * by done. unfold elements_of. rewrite Ha, Hn. cbn [app length]. rewrite Nat.add_0_r. apply take_app_length.
Qed.
End Detaching.

(** ** The abstract machine *)

(** The fields that a changeset source leaves as they are. *)
Record Intent := MkIntent {
  i_BatchChanges : list BatchChangeAssoc;
  i_PublicationState : ChangesetPublicationState;
  i_Closing : bool;
  i_DetachedAt : Z;
  i_UiPublicationState : option ChangesetUiPublicationState;
  i_OwnedBy : Z;
  i_CurrentSpecID : Z; i_PreviousSpecID : Z;
  i_ID : Z; i_RepoID : Z
}.

Definition intent (c : Changeset) : Intent :=
  MkIntent (c_BatchChanges c) (c_PublicationState c) (c_Closing c) (c_DetachedAt c) (c_UiPublicationState c)
    (c_OwnedByBatchChangeID c) (c_CurrentSpecID c) (c_PreviousSpecID c) (c_ID c) (c_RepoID c).

Definition i_set (bc : list BatchChangeAssoc) (pub : ChangesetPublicationState) (closing : bool) (detachedAt : Z) (i : Intent) : Intent :=
  MkIntent bc pub closing detachedAt (i_UiPublicationState i) (i_OwnedBy i) (i_CurrentSpecID i) (i_PreviousSpecID i) (i_ID i) (i_RepoID i).

(** An association marked to be archived is archived, and has the mark no more. *)
Definition archived_assoc (a : BatchChangeAssoc) : BatchChangeAssoc :=
  MkAssoc (BatchChangeID a) (a_Detach a) false (a_IsArchived a || a_Archive a).

(** One operation, at the time [now]: detaching removes the associations that are
    marked, and notes the time when none is left. *)
Definition intend (now : Z) (op : ReconcilerOperation) (i : Intent) : Intent :=
  match op with
  | OpPublish | OpPublishDraft | OpImport => i_set (i_BatchChanges i) Published (i_Closing i) (i_DetachedAt i) i
  | OpClose => i_set (i_BatchChanges i) (i_PublicationState i) false (i_DetachedAt i) i
  | OpArchive => i_set (map archived_assoc (i_BatchChanges i)) (i_PublicationState i) (i_Closing i) (i_DetachedAt i) i
  | OpReattach => i_set (i_BatchChanges i) (i_PublicationState i) (i_Closing i) 0 i
  | OpDetach =>
      let l := kept_assocs (i_BatchChanges i) in
      i_set l (i_PublicationState i) (i_Closing i) (if Nat.eqb (length l) 0 then now else i_DetachedAt i) i
  | OpPush | OpUpdate | OpUndraft | OpSync | OpReopen | OpSleep => i
  end.

Lemma archive_assocs_map l : archive_assocs l = map archived_assoc l.
Proof. apply map_ext. intros [id d [] ia]; unfold archived_assoc; cbn; by rewrite ?orb_true_r, ?orb_false_r. Qed.

Lemma intend_detachable now op i : detachable (i_BatchChanges i) -> detachable (i_BatchChanges (intend now op i)).
Proof.
  intros H. destruct op; try done; cbn [intend i_set i_BatchChanges].
  - intros p q a b Ha _ Hd. apply list_elem_of_lookup_2, list_elem_of_In, filter_In in Ha as [_ Ha]. by rewrite Hd in Ha.
  - intros p q a b. rewrite !list_lookup_fmap. intros (a' & Ha & ->)%fmap_Some (b' & Hb & ->)%fmap_Some Hd. cbn in *.
    by apply (H p q a' b').
Qed.

(** The operations read [e.spec]. *)
Definition needs_spec (op : ReconcilerOperation) : bool :=
  match op with OpPush | OpPublish | OpPublishDraft | OpUpdate | OpReopen | OpUndraft => true | _ => false end.

Section Refine.
Context {SV : Services} {G : GoRuntime}.

(** A changeset source populates a changeset with what the code host reports: the
    metadata, the external ids, the type of the code host and the fork.  The fields
    that say what is wanted are left alone. *)
Record SourcesFrame : Prop := {
  frame_Load css cs w : intent (LoadChangeset css cs w).1.1 = intent (s_Changeset cs);
  frame_Create css cs w : intent (CreateChangeset css cs w).1.1 = intent (s_Changeset cs);
  frame_CreateDraft css cs w : intent (CreateDraftChangeset css cs w).1.1 = intent (s_Changeset cs);
  frame_Undraft css cs w : intent (UndraftChangeset css cs w).1.1 = intent (s_Changeset cs);
  frame_Update css cs w : intent (svc_UpdateChangeset css cs w).1.1 = intent (s_Changeset cs);
  frame_Reopen css cs w : intent (ReopenChangeset css cs w).1.1 = intent (s_Changeset cs);
  frame_Close css cs w : intent (CloseChangeset css cs w).1.1 = intent (s_Changeset cs)
}.

(** ** Triples *)

Definition triple {A} (P : executor -> Prop) (m : M A) (Q : A -> executor -> Prop) : Prop :=
  forall e, P e -> exists a e', m e = Done (a, e') /\ Q a e'.

Definition ok (s : option ChangesetSpec) (I : Intent) (e : executor) : Prop :=
  x_spec e = s /\ (SourcesFrame -> intent (x_ch e) = I).
Definition keeps {A} (s : option ChangesetSpec) (m : M A) : Prop := forall I, triple (ok s I) m (fun _ => ok s I).

Lemma triple_bind {A B} P (m : M A) (k : A -> M B) Q R :
  triple P m Q -> (forall a, triple (Q a) (k a) R) -> triple P (bind m k) R.
Proof.
  intros Hm Hk e He. destruct (Hm e He) as (a & e1 & E & H1). destruct (Hk a e1 H1) as (b & e2 & E2 & H2).
  exists b, e2. split; [|done]. unfold bind. rewrite E. done.
Qed.

Lemma triple_ret {A} P (a : A) (Q : A -> executor -> Prop) : (forall e, P e -> Q a e) -> triple P (ret a) Q.
Proof. intros H e He. exists a, e. auto. Qed.

Lemma triple_gets {A} P (f : executor -> A) (Q : A -> executor -> Prop) : (forall e, P e -> Q (f e) e) -> triple P (gets f) Q.
Proof. intros H e He. exists (f e), e. auto. Qed.

Lemma triple_modify P f (Q : () -> executor -> Prop) : (forall e, P e -> Q () (f e)) -> triple P (modify f) Q.
Proof. intros H e He. exists (), (f e). auto. Qed.

Lemma triple_weaken {A} P (m : M A) (Q Q' : A -> executor -> Prop) : triple P m Q -> (forall a e, Q a e -> Q' a e) -> triple P m Q'.
Proof. intros H HQ e He. destruct (H e He) as (a & e' & E & H'). eauto. Qed.

Lemma triple_pre {A} (P P' : executor -> Prop) (m : M A) Q : triple P' m Q -> (forall e, P e -> P' e) -> triple P m Q.
Proof. intros H HP e He. apply H; auto. Qed.

Lemma triple_conj {A} P (R : Prop) (m : M A) Q : (R -> triple P m Q) -> triple (fun e => R /\ P e) m Q.
Proof. intros H e [HR He]. by apply H. Qed.

(** ** What keeps the intent *)

Section Keeps.
Context (s : option ChangesetSpec).

Lemma keeps_ret {A} (a : A) : keeps s (ret a).
Proof. intros I. by apply triple_ret. Qed.

Lemma keeps_gets {A} (f : executor -> A) : keeps s (gets f).
Proof. intros I. by apply triple_gets. Qed.

Lemma keeps_bind {A B} (m : M A) (k : A -> M B) : keeps s m -> (forall a, keeps s (k a)) -> keeps s (bind m k).
Proof. intros Hm Hk I. eapply triple_bind; [apply Hm|]. intros a. apply Hk. Qed.

Lemma keeps_svc {A} (f : World -> A * World) : keeps s (svc f).
Proof. intros I e [H1 H2]. unfold svc. eexists _, _. split; [done|]. by split. Qed.

Lemma keeps_modify f : (forall e, x_spec (f e) = x_spec e) -> (forall e, intent (x_ch (f e)) = intent (x_ch e)) -> keeps s (modify f).
Proof. intros H1 H2 I. apply triple_modify. intros e [H3 H4]. split; [by rewrite H1|]. intros Hf. rewrite H2. auto. Qed.

Lemma keeps_wrapped {A} msg (m : M (result error A)) : keeps s m -> keeps s (wrapped msg m).
Proof. intros H. apply keeps_bind; [done|]. intros. apply keeps_ret. Qed.

Lemma keeps_try {A} wh (m : M (result error A)) k : keeps s m -> (forall a, keeps s (k a)) -> keeps s (try_ wh m k).
Proof. intros Hm Hk. apply keeps_bind; [done|]. intros [a|e]; [apply Hk|apply keeps_ret]. Qed.

Lemma keeps_the_spec : is_Some s -> keeps s the_spec.
Proof.
  intros [sp ->] I. eapply (triple_bind _ _ _ (fun o e => o = Some sp /\ ok (Some sp) I e)).
  - apply triple_gets. intros e He. split; [|done]. by destruct He.
  - intros o. apply triple_conj. intros ->. by apply triple_ret.
Qed.
End Keeps.

Create HintDb keeps.
#[local] Hint Resolve keeps_ret keeps_gets keeps_svc keeps_wrapped keeps_try keeps_the_spec : keeps.
#[local] Hint Extern 1 (is_Some _) => eassumption : keeps.
#[local] Hint Extern 3 (keeps _ (bind _ _)) => apply keeps_bind; [|intros ?] : keeps.
#[local] Hint Extern 3 (keeps _ (try_ _ _ _)) => apply keeps_try; [|intros ?] : keeps.
#[local] Hint Extern 3 (keeps _ (modify _)) => apply keeps_modify; intros; repeat case_match; done : keeps.
#[local] Hint Extern 4 (keeps _ (match ?x with _ => _ end)) => destruct x : keeps.

Ltac keeps := auto 30 with keeps.
(** The same for a triple. *)
Ltac kept := cbv beta; match goal with |- triple (ok ?s ?I) ?m _ => assert (keeps s m) as Hkept by keeps; apply Hkept end.

(** A method of a source that leaves the intent alone. *)
Abbreviation populates F := (SourcesFrame -> forall cs w, intent (F cs w).1.1 = intent (s_Changeset cs)).

Section Sources.
Context (s : option ChangesetSpec).

Lemma keeps_changesetSource : keeps s changesetSource.
Proof. unfold changesetSource, loadChangesetSource. keeps. Qed.

Lemma keeps_GetRemoteRepo css r ch : keeps s (GetRemoteRepo css r ch s).
Proof.
  unfold GetRemoteRepo. destruct s as [sp|].
  - keeps.
  - rewrite andb_true_r. destruct (gs_eqb _ []); cbn [negb]; keeps.
Qed.

Lemma keeps_remoteRepo : keeps s remoteRepo.
Proof.
  intros I. unfold remoteRepo. eapply triple_bind; [apply keeps_gets|]. intros [r|]; [apply keeps_gets|].
  eapply triple_bind; [apply keeps_changesetSource|]. intros css.
  eapply (triple_bind _ _ _ (fun e e' => x_spec e = s /\ ok s I e')).
  { apply triple_gets. intros e He. split; [|done]. by destruct He. }
  intros e. apply triple_conj. intros Hs. cbn [id]. rewrite Hs. eapply triple_bind.
  { destruct css as [css|err]; [apply keeps_GetRemoteRepo|apply keeps_ret]. }
  intros r. kept.
Qed.

Lemma keeps_handleArchivedRepo : keeps s handleArchivedRepo.
Proof. pose proof keeps_remoteRepo. unfold handleArchivedRepo, mark_archived. keeps. Qed.

Lemma keeps_decorated_body : is_Some s -> keeps s decorated_body.
Proof. intros Hs. unfold decorated_body, decorateChangesetBody, loadBatchChange. keeps. Qed.

Lemma keeps_pushCommit opts : keeps s (pushCommit opts).
Proof. unfold pushCommit. keeps. Qed.

(** ** Calls of the code host *)

Definition framed (cs : SourceChangeset) (I : Intent) : Prop := SourcesFrame -> intent (s_Changeset cs) = I.

Lemma triple_source_changeset t b r h repo I :
  triple (ok s I) (source_changeset t b r h repo) (fun cs e => framed cs I /\ ok s I e).
Proof.
  intros e He. eexists _, _. split; [done|]. split; [|done]. intros Hf. cbn. by apply He.
Qed.

Lemma triple_spec_changeset body repo I :
  is_Some s -> triple (ok s I) (spec_changeset body repo) (fun cs e => framed cs I /\ ok s I e).
Proof.
  intros Hs. eapply triple_bind; [by apply keeps_the_spec|]. intros sp. apply triple_source_changeset.
Qed.

Lemma triple_refreshed cs I : triple (ok s I) (refreshed cs) (fun cs e => framed cs I /\ ok s I e).
Proof. intros e He. eexists _, _. split; [done|]. split; [|done]. intros Hf. cbn. by apply He. Qed.

Lemma triple_call {A} (F : SourceChangeset -> World -> (Changeset * A) * World) cs I :
  populates F -> framed cs I -> triple (ok s I) (call (F cs)) (fun _ => ok s I).
Proof.
  intros HF Hcs e [H1 H2]. unfold call, bind, svc, modify, ret. cbn [run_bind fst snd]. eexists _, _. split; [done|].
  split; [done|]. intros Hf. cbn. rewrite HF by done. auto.
Qed.

(** A changeset is built, and a method is called with it. *)
Lemma keeps_call {A B} (mk : M SourceChangeset) (F : SourceChangeset -> World -> (Changeset * A) * World) (k : A -> M B) :
  (forall I, triple (ok s I) mk (fun cs e => framed cs I /\ ok s I e)) -> populates F -> (forall a, keeps s (k a)) ->
  keeps s (bind mk (fun cs => bind (call (F cs)) k)).
Proof.
  intros Hmk HF Hk I. eapply triple_bind; [apply Hmk|]. intros cs. apply triple_conj. intros Hcs.
  eapply triple_bind; [by apply triple_call|]. intros a. apply Hk.
Qed.
End Sources.

#[local] Hint Resolve keeps_changesetSource keeps_remoteRepo keeps_handleArchivedRepo keeps_decorated_body keeps_pushCommit : keeps.
#[local] Hint Resolve triple_source_changeset triple_spec_changeset : keeps.
#[local] Hint Extern 2 (keeps _ (bind (spec_changeset _ _) _)) => apply keeps_call; [intros ?| |intros ?] : keeps.
#[local] Hint Extern 2 (keeps _ (bind (source_changeset _ _ _ _ _) _)) => apply keeps_call; [intros ?| |intros ?] : keeps.
#[local] Hint Extern 1 (intent _ = intent _) => match goal with H : SourcesFrame |- _ => by destruct H end : keeps.

Section Operations.
Context (s : option ChangesetSpec).

Lemma keeps_push b : is_Some s -> keeps s (pushChangesetPatch b).
Proof. intros Hs. unfold pushChangesetPatch. keeps. Qed.

Lemma keeps_update : is_Some s -> keeps s updateChangeset.
Proof. intros Hs. unfold updateChangeset. keeps. Qed.

Lemma keeps_reopen : is_Some s -> keeps s reopenChangeset.
Proof. intros Hs. unfold reopenChangeset. keeps. Qed.

Lemma keeps_undraft : is_Some s -> keeps s undraftChangeset.
Proof. intros Hs. unfold undraftChangeset. keeps. Qed.

Lemma keeps_load : keeps s loadChangeset.
Proof. unfold loadChangeset. keeps. Qed.

Lemma keeps_sync : keeps s syncChangeset.
Proof. pose proof keeps_load. unfold syncChangeset. keeps. Qed.

(** What an operation establishes: the step of the abstract machine, when it succeeds. *)
Definition steps (op : ReconcilerOperation) (I : Intent) (r : outcome) (e : executor) : Prop :=
  x_spec e = s /\ (r.2 = None -> SourcesFrame -> detachable (i_BatchChanges I) -> exists now, intent (x_ch e) = intend now op I).

Lemma keeps_steps op m : (forall now I, intend now op I = I) -> keeps s m -> forall I, triple (ok s I) m (steps op I).
Proof.
  intros Hop Hm I. eapply triple_weaken; [apply Hm|]. intros a e [H1 H2]. split; [done|]. intros _ Hf _. exists 0%Z. rewrite Hop. auto.
Qed.

Lemma steps_fail op I wh e : triple (ok s I) (ret (wh, Some e)) (steps op I).
Proof. apply triple_ret. intros x [H _]. by split. Qed.

Lemma steps_try {A} op I wh (m : M (result error A)) k :
  keeps s m -> (forall a, triple (ok s I) (k a) (steps op I)) -> triple (ok s I) (try_ wh m k) (steps op I).
Proof. intros Hm Hk. eapply triple_bind; [apply Hm|]. intros [a|e]; [apply Hk|apply steps_fail]. Qed.

(** The last thing that publishing does. *)
Lemma steps_published op I wh :
  (forall now, intend now op I = intend now OpPublish I) ->
  triple (ok s I) (bind set_published (fun _ => ret (wh, None))) (steps op I).
Proof.
  intros Hop. eapply (triple_bind _ _ _ (fun _ => ok s (intend 0 OpPublish I))).
  - apply triple_modify. intros e [H1 H2]. split; [done|]. intros Hf. rewrite <- (H2 Hf). done.
  - intros _. apply triple_ret. intros e [H1 H2]. split; [done|]. intros _ Hf _. exists 0%Z. rewrite Hop. auto.
Qed.

Lemma steps_published_call {A} op I wh (F : SourceChangeset -> World -> (Changeset * result error A) * World) cs msg k :
  populates F -> framed cs I -> (forall a, triple (ok s I) (k a) (steps op I)) ->
  triple (ok s I) (try_ wh (wrapped msg (call (F cs))) k) (steps op I).
Proof.
  intros HF Hcs Hk. eapply triple_bind.
  - eapply triple_bind; [by apply triple_call|]. intros r. by apply triple_ret with (Q := fun _ => ok s I).
  - intros [a|e]; [apply Hk|apply steps_fail].
Qed.

Lemma steps_publish (asDraft : bool) I : is_Some s -> triple (ok s I) (publishChangeset asDraft) (steps (if asDraft then OpPublishDraft else OpPublish) I).
Proof.
  intros Hs. set (op := if asDraft then OpPublishDraft else OpPublish).
  assert (forall now, intend now op I = intend now OpPublish I) as Hop by (by destruct asDraft).
  unfold publishChangeset. cbv zeta. repeat (apply steps_try; [keeps|]; intros ?).
  eapply triple_bind; [by apply triple_spec_changeset|]. intros cs. apply triple_conj. intros Hcs.
  assert (forall exists_ : bool, triple (ok s I) (if exists_ then
    bind (gets x_ch) (fun ch => try_ (Some ChangesetUpdateError)
      (wrapped (str "could not determine whether changeset needs update") (ret (IsOutdated cs ch))) (fun outdated =>
      if outdated then bind (refreshed cs) (fun cs => bind (call (svc_UpdateChangeset a0 cs)) (fun err =>
        match err with
        | Some e => ret (Some ChangesetUpdateError, Some (Wrap e (str "updating changeset")))
        | None => bind set_published (fun _ => ret (Some ChangesetUpdate, None))
        end))
      else bind set_published (fun _ => ret (Some ChangesetPublish, None))))
    else bind set_published (fun _ => ret (Some ChangesetPublish, None))) (steps op I)) as Hk.
  { intros [|]; [|by apply steps_published]. eapply triple_bind; [apply keeps_gets|]. intros ch. apply steps_try; [keeps|].
    intros [|]; [|by apply steps_published]. eapply triple_bind; [apply triple_refreshed|]. intros cs'. apply triple_conj. intros Hcs'.
    eapply triple_bind; [apply triple_call; [intros []; auto|done]|]. intros [err|]; [apply steps_fail|by apply steps_published]. }
  destruct asDraft; [apply steps_try; [keeps|]; intros d|]; (apply steps_published_call; [intros []; auto|done|done]).
Qed.

Lemma steps_import wh I : triple (ok s I) (keep_done wh importChangeset) (steps OpImport I).
Proof.
  unfold keep_done, importChangeset. eapply triple_bind.
  - eapply triple_bind; [apply keeps_load|]. intros [[]|err].
    + eapply (triple_bind _ _ _ (fun _ => ok s (intend 0 OpPublish I))).
      * apply triple_modify. intros e [H1 H2]. split; [done|]. intros Hf. by rewrite <- (H2 Hf).
      * intros _. apply (triple_ret _ _ (fun r e => x_spec e = s /\ (r = Ok () -> ok s (intend 0 OpPublish I) e))). by intros e [? ?].
    + apply triple_ret. intros e [? ?]. done.
  - intros r. apply triple_ret. intros e [H1 H2]. split; [done|]. destruct r as [[]|]; [|done]. intros _ Hf _. exists 0%Z.
    by apply (H2 eq_refl).
Qed.

Lemma steps_silent op I wh m : triple (ok s I) m (fun _ e => x_spec e = s /\
    (SourcesFrame -> detachable (i_BatchChanges I) -> exists now, intent (x_ch e) = intend now op I)) ->
  triple (ok s I) (silent wh m) (steps op I).
Proof. intros Hm. eapply triple_bind; [exact Hm|]. intros []. apply triple_ret. intros e [H1 H2]. by split. Qed.

Lemma steps_detach wh I : triple (ok s I) (silent wh detachChangeset) (steps OpDetach I).
Proof.
  apply steps_silent. intros e [H1 H2]. unfold detachChangeset, bind, gets, modify. cbn [run_bind fst snd x_set_ch x_ch set_BatchChanges c_BatchChanges].
  destruct (Nat.eqb (length (detached (c_BatchChanges (x_ch e)))) 0) eqn:El.
  - unfold svc. cbn [run_bind fst snd]. eexists _, _. split; [done|]. split; [done|]. intros Hf. rewrite <- (H2 Hf). intros Hd.
    rewrite detached_kept in El |- * by done. eexists. unfold intend, intent. cbn -[kept_assocs Nat.eqb]. by rewrite El.
  - eexists _, _. split; [done|]. split; [done|]. intros Hf. rewrite <- (H2 Hf). intros Hd. rewrite detached_kept in El |- * by done.
    exists 0%Z. unfold intend, intent. cbn -[kept_assocs Nat.eqb]. by rewrite El.
Qed.

Lemma steps_archive wh I : triple (ok s I) (silent wh archiveChangeset) (steps OpArchive I).
Proof.
  apply steps_silent, triple_modify. intros e [H1 H2]. split; [done|]. intros Hf _. rewrite <- (H2 Hf), archive_assocs_map. by exists 0%Z.
Qed.

Lemma steps_reattach wh I : triple (ok s I) (silent wh reattachChangeset) (steps OpReattach I).
Proof.
  apply steps_silent, triple_modify. intros e [H1 H2]. split; [by case_match|]. intros Hf _. rewrite <- (H2 Hf). exists 0%Z.
  destruct (c_DetachedAt (x_ch e) =? 0)%Z eqn:E; cbn [negb]; [|done]. apply Z.eqb_eq in E. unfold intend, intent, i_set. cbn. by rewrite E.
Qed.

Lemma steps_close I : triple (ok s I) closeChangeset (steps OpClose I).
Proof.
  unfold closeChangeset. eapply (triple_bind _ _ _ (fun _ => ok s (intend 0 OpClose I))).
  { apply triple_modify. intros e [H1 H2]. split; [done|]. intros Hf. by rewrite <- (H2 Hf). }
  intros []. eapply triple_weaken.
  - kept.
  - intros r e [H1 H2]. split; [done|]. intros _ Hf _. exists 0%Z. auto.
Qed.

Lemma steps_execute b wh op I : (needs_spec op = true -> is_Some s) -> triple (ok s I) (execute b wh op) (steps op I).
Proof.
  intros Hs. destruct op; cbn [needs_spec execute] in *; try specialize (Hs eq_refl).
  - apply keeps_steps; [done|by apply keeps_push].
  - apply keeps_steps; [done|by apply keeps_update].
  - apply keeps_steps; [done|by apply keeps_undraft].
  - by apply steps_publish.
  - by apply steps_publish.
  - apply keeps_steps; [done|]. pose proof keeps_sync. unfold keep_done. keeps.
  - apply steps_import.
  - apply steps_close.
  - apply keeps_steps; [done|by apply keeps_reopen].
  - apply keeps_steps; [done|]. unfold silent. keeps.
  - apply steps_detach.
  - apply steps_archive.
  - apply steps_reattach.
Qed.

(** ** The run *)

Lemma triple_set_ch c I : (SourcesFrame -> intent c = I) -> triple (ok s I) (modify (x_set_ch c)) (fun _ => ok s I).
Proof. intros H. apply triple_modify. intros e [H1 _]. by split. Qed.

Lemma keeps_SetDerivedState es : keeps s (SetDerivedState es).
Proof.
  intros I. eapply (triple_bind _ _ _ (fun c e => (SourcesFrame -> intent c = I) /\ ok s I e)).
  { apply triple_gets. intros e He. split; [by apply He|done]. }
  intros c. apply triple_conj. intros Hc. eapply triple_bind; [apply keeps_svc|]. intros [repo|]; [|kept].
  destruct (computeHistory c _) as [h|]; [|kept]. cbv zeta.
  match goal with |- context [x_set_ch ?x] => set (c1 := x) end.
  assert (SourcesFrame -> intent c1 = I) as Hc1 by (unfold c1; intros Hf; rewrite <- (Hc Hf); by repeat case_match).
  eapply triple_bind; [by apply triple_set_ch|]. intros []. cbv beta. destruct (_ && _); [kept|].
  eapply triple_bind; [assert (keeps s (computeSyncState c1 (r_Name repo))) as Hk by (unfold computeSyncState, computeRev; keeps); apply Hk|].
  intros [newState|]; [|kept]. eapply triple_bind; [by apply triple_set_ch|]. intros []. cbv beta. destruct (bool_decide _); [kept|].
  eapply triple_bind; [assert (keeps s (computeDiffStat (set_SyncState c1 newState) (r_Name repo))) as Hk by (unfold computeDiffStat; keeps); apply Hk|].
  intros [stat|]; [|kept]. apply triple_set_ch. intros Hf. rewrite <- (Hc1 Hf). by destruct stat.
Qed.

Lemma keeps_finish_run wh : keeps s (finish_run wh).
Proof. pose proof keeps_SetDerivedState. unfold finish_run. keeps. Qed.

(** The operations, one after the other. *)
Inductive intends : list ReconcilerOperation -> Intent -> Intent -> Prop :=
  | intends_nil I : intends [] I I
  | intends_cons now op ops I J : intends ops (intend now op I) J -> intends (op :: ops) I J.

Definition runs (ops : list ReconcilerOperation) (I : Intent) (r : outcome) (e : executor) : Prop :=
  x_spec e = s /\ (r.2 = None -> SourcesFrame -> detachable (i_BatchChanges I) -> intends ops I (intent (x_ch e))).

Lemma ok_now e : x_spec e = s -> ok s (intent (x_ch e)) e.
Proof. by split. Qed.

Lemma runs_ops b ops wh I :
  (forall op, op ∈ ops -> needs_spec op = true -> is_Some s) -> triple (ok s I) (run_ops b ops wh) (runs ops I).
Proof.
  revert wh I. induction ops as [|op ops IH]; intros wh I Hs; cbn [run_ops].
  { apply triple_ret. intros e [H1 H2]. split; [done|]. intros _ Hf _. rewrite (H2 Hf). constructor. }
  intros e He. destruct (steps_execute b wh op I (Hs op (list_elem_of_here _ _)) e He) as (r & e1 & E & H1 & H2).
  unfold bind. rewrite E. cbn [run_bind fst snd]. destruct (r.2) as [err|] eqn:Er.
  { eexists _, _. split; [done|]. split; [done|]. by rewrite Er. }
  destruct (IH r.1 (intent (x_ch e1)) (fun o Ho => Hs o (list_elem_of_further _ _ _ Ho)) e1 (ok_now _ H1)) as (r2 & e2 & E2 & H3 & H4).
  exists r2, e2. split; [done|]. split; [done|]. intros Hn Hf Hd. destruct (H2 eq_refl Hf Hd) as [now Hi]. apply (intends_cons now).
  rewrite <- Hi. apply H4; [done..|]. rewrite Hi. by apply intend_detachable.
Qed.

Lemma runs_Run plan I :
  (forall op, op ∈ Ops plan -> needs_spec op = true -> is_Some s) -> triple (ok s I) (Run plan) (runs (ExecutionOrder (Ops plan)) I).
Proof.
  intros Hs. unfold Run. destruct (Ops plan) as [|o ops] eqn:Eo; cbn [IsNone length Nat.eqb].
  { apply triple_ret. intros e [H1 H2]. split; [done|]. intros _ Hf _. rewrite (H2 Hf). unfold ExecutionOrder.
    assert (sort_slice (fun a b => (operationPrecedence a <? operationPrecedence b)%Z) (unique_ops []) = []) as ->; [|constructor].
    apply Permutation_nil_r. by rewrite sort_slice_perm. }
  rewrite <- Eo in *. clear o ops Eo. eapply triple_bind; [apply keeps_gets|]. intros ch.
  eapply triple_bind; [apply keeps_svc|]. intros [repo|err]; [|apply triple_ret; intros e [H1 _]; by split].
  eapply (triple_bind _ _ _ (fun _ => ok s I)); [assert (keeps s (modify (x_set_target repo))) as Hk by keeps; apply Hk|]. intros [].
  eapply triple_bind.
  { apply runs_ops. intros op Hop. apply Hs. unfold ExecutionOrder in Hop. rewrite sort_slice_perm in Hop. by apply unique_ops_spec. }
  intros r e [H1 H2]. destruct (r.2) eqn:Er.
  - exists r, e. split; [done|]. split; [done|]. by rewrite Er.
  - destruct (keeps_finish_run r.1 (intent (x_ch e)) e (ok_now _ H1)) as (r2 & e2 & E2 & H3 & H4).
    exists r2, e2. split; [done|]. split; [done|]. intros _ Hf Hd. rewrite (H4 Hf). auto.
Qed.
End Operations.

(** ** The reconciler *)

Lemma DeterminePlan_frame prev curr cur c : p_Changeset (DeterminePlan prev curr cur c).1 = c /\ p_ChangesetSpec (DeterminePlan prev curr cur c).1 = curr.
Proof. unfold DeterminePlan, plan_unpublished, plan_published. cbv zeta. repeat case_match; done. Qed.

Lemma plan_needs_spec prev curr cur c op :
  op ∈ Ops (DeterminePlan prev curr cur c).1 -> needs_spec op = true -> is_Some curr.
Proof.
  rewrite <- ops_Contains_iff, DeterminePlan_due_spec. intros Hd Hn. destruct curr; [by eexists|]. by destruct op.
Qed.

Lemma reset_failure_intent ch : intent (reset_failure ch) = intent ch.
Proof. unfold reset_failure. by case_match. Qed.

(** The outcome of [process]. *)
Lemma process_spec ch w :
  exists r ch' w', process ch w = Done (r, ch', w') /\
    (SourcesFrame -> r.2 = None -> detachable (c_BatchChanges ch) ->
     match loadChangesetSpecs (reset_failure ch) w with
     | (Err _, _) => intent ch' = intent ch
     | (Ok (prev, curr), _) =>
         (DeterminePlan prev curr None (reset_failure ch)).2 = None /\
         intends (ExecutionOrder (Ops (DeterminePlan prev curr None (reset_failure ch)).1)) (intent ch) (intent ch')
     end).
Proof.
  unfold process. cbv zeta. destruct (loadChangesetSpecs (reset_failure ch) w) as [[[prev curr]|e] w1].
  2: { eexists _, _, _. split; [done|]. intros _ _ _. apply reset_failure_intent. }
  pose proof (DeterminePlan_frame prev curr None (reset_failure ch)) as [Hc Hs].
  pose proof (plan_needs_spec prev curr None (reset_failure ch)) as Hn.
  destruct (DeterminePlan prev curr None (reset_failure ch)) as [plan [err|]]; cbn [fst snd] in *.
  { eexists _, _, _. split; [done|]. done. }
  unfold executePlan. rewrite Hc, Hs.
  destruct (runs_Run curr plan (intent ch) Hn (MkExecutor (reset_failure ch) curr noRepo None None w1)) as (r & e & E & H1 & H2).
  { split; [done|]. intros _. apply reset_failure_intent. }
  rewrite E. cbn [run_bind fst snd]. eexists _, _, _. split; [done|]. auto.
Qed.

(** C17: processing a changeset never panics, whatever the database, gitserver and the code host answer: an operation that reads the
    changeset spec is only planned when there is one, and the reconciler always returns. *)
Theorem process_returns ch w : exists r ch' w', process ch w = Done (r, ch', w').
Proof. destruct (process_spec ch w) as (r & ch' & w' & H & _). eauto. Qed.

(** C18: the executor implements its operations.  When the code hosts leave what is wanted of a changeset alone, processing succeeds, and
    the changeset's marked associations can be detached (they are the only ones of their batch changes, and no two of them are next to
    each other), then the associations, the publication state, the closing flag and the time of detachment of the changeset are those
    that the operations of the plan, in the order of execution, make of them: publishing and importing publish, closing clears the flag,
    archiving turns the marks to archive into archived associations, detaching removes exactly the marked associations and notes the
    time when none is left, and reattaching clears that time.  The specs, the owner, the state from the user interface and the
    repository are unchanged. *)
Theorem process_refines ch w prev curr w1 wh ch' w' :
  SourcesFrame -> loadChangesetSpecs (reset_failure ch) w = (Ok (prev, curr), w1) -> process ch w = Done ((wh, None), ch', w') ->
  detachable (c_BatchChanges ch) ->
  intends (ExecutionOrder (Ops (DeterminePlan prev curr None (reset_failure ch)).1)) (intent ch) (intent ch').
Proof.
  intros Hf Hl Hp Hd. destruct (process_spec ch w) as (r & c & x & H & H1). rewrite Hp in H. simplify_eq. rewrite Hl in H1. by apply H1.
Qed.
End Refine.
