(* ===== verification/Rewirer.v ===== *)
(** The rewirer: [enterprise/internal/batches/rewirer/rewirer.go], which turns the
    matching of changeset specs to changesets into new and updated changesets for
    the reconciler.  [DefaultReconcilerEnqueueState] reads the site configuration:
    its value is the argument [enqueueState]. *)
From S2P Require Import Prelude GoStr GoLib GoMap Changesets ChangesetHistory.

Record RewirerMapping := MkMapping {
  m_ChangesetSpec : option ChangesetSpec;
  m_Changeset : option Changeset;
  m_RepoID : Z;
  m_Repo : option Repo
}.

Inductive rewire_error := RepoNotFoundErr (id : Z) | ErrRepoNotSupported (serviceType repoName : gostring).

Definition checkRepoSupported (repo : Repo) : option rewire_error :=
  if IsRepoSupported (r_ServiceType repo) then None else Some (ErrRepoNotSupported (r_ServiceType repo) (r_Name repo)).

#[export] Instance spec_type_eq_dec : EqDecision ChangesetSpecType.
Proof. solve_decision. Defined.

Section Rewirer.
Context (enqueueState : ReconcilerState) (batchChangeID : Z).

Definition createChangesetForSpec (repo : Repo) (spec : ChangesetSpec) : Changeset :=
  let z := zeroChangeset in
  let newChangeset :=
    MkChangeset (c_ID z) (spec_BaseRepoID spec) (c_UpdatedAt z) (c_Metadata z) [MkAssoc batchChangeID false false false] (c_ExternalID z)
      (r_ServiceType repo) (c_ExternalForkName z) (c_ExternalForkNamespace z) (c_ExternalDeletedAt z) (c_ExternalState z)
      (c_ExternalReviewState z) (c_SyncState z) (c_DiffStatAdded z) (c_DiffStatDeleted z) batchChangeID (c_CurrentSpecID z)
      (c_PreviousSpecID z) Unpublished (c_UiPublicationState z) (c_ReconcilerState z) (c_FailureMessage z)
      (c_PreviousFailureMessage z) (c_SyncErrorMessage z) (c_NumResets z) (c_NumFailures z) (c_Closing z) (c_DetachedAt z) in
  ResetReconcilerState (SetCurrentSpec newChangeset spec) enqueueState.

Definition updateChangesetToNewSpec (c : Changeset) (spec : ChangesetSpec) : Changeset :=
  let c := if eqb (c_ReconcilerState c) Completed then set_PreviousSpecID c (c_CurrentSpecID c) else c in
  let c := SetCurrentSpec c spec in
  let c := Attach c batchChangeID in
  ResetReconcilerState c enqueueState.

Definition createTrackingChangeset (repo : Repo) (externalID : gostring) : Changeset :=
  let z := zeroChangeset in
  MkChangeset (c_ID z) (r_ID repo) (c_UpdatedAt z) (c_Metadata z) [MkAssoc batchChangeID false false false] externalID
    (r_ServiceType repo) (c_ExternalForkName z) (c_ExternalForkNamespace z) (c_ExternalDeletedAt z) (c_ExternalState z)
    (c_ExternalReviewState z) (c_SyncState z) (c_DiffStatAdded z) (c_DiffStatDeleted z) (c_OwnedByBatchChangeID z) (c_CurrentSpecID z)
    (c_PreviousSpecID z) Unpublished (c_UiPublicationState z) Queued (c_FailureMessage z) (c_PreviousFailureMessage z)
    (c_SyncErrorMessage z) (c_NumResets z) (c_NumFailures z) (c_Closing z) (c_DetachedAt z).

Definition attachTrackingChangeset (changeset : Changeset) : Changeset :=
  let changeset := Attach changeset batchChangeID in
  if (c_OwnedByBatchChangeID changeset =? 0)%Z && (eqb (c_ReconcilerState changeset) Errored || eqb (c_ReconcilerState changeset) Failed)
  then ResetReconcilerState changeset enqueueState
  else changeset.

Definition closeChangeset_rewire (changeset : Changeset) : Changeset :=
  let '(reset, changeset) :=
    if negb (c_CurrentSpecID changeset =? 0)%Z && (c_OwnedByBatchChangeID changeset =? batchChangeID)%Z && c_Published changeset then
      let changeset := if eqb (c_ReconcilerState changeset) Completed then set_PreviousSpecID changeset (c_CurrentSpecID changeset) else changeset in
      if negb (ArchivedIn changeset batchChangeID) then
        let changeset := (Archive changeset batchChangeID).2 in
        (true, if Closeable changeset then set_Closing changeset true else changeset)
      else (false, changeset)
    else Detach changeset batchChangeID in
  if reset then ResetReconcilerState changeset enqueueState else changeset.

(** A nil changeset is dereferenced when a mapping has neither a spec nor a
    changeset; a spec of another type maps to a nil changeset. *)
Fixpoint Rewire (mappings : list RewirerMapping) (newChangesets : list (option Changeset)) (updateChangesets : list Changeset)
    : run (result rewire_error (list (option Changeset) * list Changeset)) :=
  match mappings with
  | [] => Done (Ok (newChangesets, updateChangesets))
  | m :: mappings =>
      match m_ChangesetSpec m with
      | None =>
          match m_Repo m with
          | None => Rewire mappings newChangesets updateChangesets
          | Some _ =>
              match m_Changeset m with
              | None => Panics "nil pointer dereference: changeset"
              | Some changeset =>
                  if negb (AttachedTo changeset batchChangeID) then Rewire mappings newChangesets updateChangesets
                  else Rewire mappings newChangesets (updateChangesets ++ [closeChangeset_rewire changeset])
              end
          end
      | Some spec =>
          match m_Repo m with
          | None => Done (Err (RepoNotFoundErr (m_RepoID m)))
          | Some repo =>
              match checkRepoSupported repo with
              | Some err => Done (Err err)
              | None =>
                  match m_Changeset m with
                  | Some changeset =>
                      let changeset :=
                        if eqb (spec_Type spec) TypeExisting then attachTrackingChangeset changeset
                        else if eqb (spec_Type spec) TypeBranch then updateChangesetToNewSpec changeset spec
                        else changeset in
                      Rewire mappings newChangesets (updateChangesets ++ [changeset])
                  | None =>
                      let changeset :=
                        if eqb (spec_Type spec) TypeExisting then Some (createTrackingChangeset repo (spec_ExternalID spec))
                        else if eqb (spec_Type spec) TypeBranch then Some (createChangesetForSpec repo spec)
                        else None in
                      Rewire mappings (newChangesets ++ [changeset]) updateChangesets
                  end
              end
          end
      end
  end.
End Rewirer.
