(* ===== verification/ReconcilerConverge.v ===== *)
(** Reconciling converges: detaching removes the associations that are marked,
    and a changeset that was reconciled with its spec needs nothing more when the
    same spec is applied again. *)
From stdpp Require Import sorting.
From S2P Require Import Prelude GoStr GoLib GoMap Changesets ChangesetHistory ReconcilerPlan ReconcilerFacts Reconciler ReconcilerRefine.
From S2P Require Import Rewirer.

(** ** Detaching *)

(** With two of them in a row the second one stays, as the array has moved under the loop. *)
Example detach_two :
  detached [MkAssoc 1 true false false; MkAssoc 2 true false false; MkAssoc 3 false false false] =
  [MkAssoc 2 true false false; MkAssoc 3 false false false].
Proof. reflexivity. Qed.

(** ** Applying the same spec again *)

(** No association is marked. *)
Definition unmarked (l : list BatchChangeAssoc) : Prop := Forall (fun a => a_Detach a = false /\ a_Archive a = false) l.

Lemma unmarked_wants c : unmarked (c_BatchChanges c) -> exists b, wants_of None c = MkWants false false false b false false.
Proof.
  unfold wants_of, unmarked. intros H. cut (forall b, exists b', fold_left (want_step None c) (c_BatchChanges c) (MkWants false false false b false false) =
    MkWants false false false b' false false); [auto|].
  induction H as [|a l [H1 H2] _ IH]; intros b; cbn [fold_left]; [by eexists|]. unfold want_step at 2. rewrite H1, H2. cbn. apply IH.
Qed.

Lemma unmarked_active c : unmarked (c_BatchChanges c) -> c_Closing c = false -> active None c = true.
Proof. intros (b & Hw)%unmarked_wants Hc. unfold active. by rewrite Hw, Hc. Qed.

Lemma compare_same s u : compareChangesetSpecs (Some s) s u = noDelta.
Proof.
  unfold compareChangesetSpecs, noDelta. rewrite !gs_eqb_refl. cbn [negb]. f_equal.
  unfold IsDraft, IsPublished, calculatePublicationState. cbn [spec ui].
  destruct (spec_Published s) as [|[|]|x|]; cbn; try done.
  - destruct u as [[]|]; done.
  - by rewrite andb_false_r.
Qed.

(** The code host does not ask for more: the changeset is not closed there, and not a draft that is to be published. *)
Definition settled_state (s : ChangesetSpec) (c : Changeset) : Prop :=
  c_ExternalState c <> ExternalClosed /\ (c_ExternalState c = ExternalDraft -> ~ asks_published c s).

(** Nothing is left to publish. *)
Definition published_as_wanted (s : ChangesetSpec) (c : Changeset) : bool := negb (due_publish c s) && negb (due_draft c s).

Lemma no_ops ops : (forall op, ops_Contains ops op = false) -> ops = [].
Proof.
  intros H. destruct ops as [|op ops]; [done|]. specialize (H op). cbn in H. by rewrite bool_decide_eq_true_2 in H.
Qed.

Lemma settled_plan s c :
  unmarked (c_BatchChanges c) -> c_Closing c = false -> settled_state s c -> published_as_wanted s c = true ->
  Ops (DeterminePlan (Some s) (Some s) None c).1 = [].
Proof.
  intros Hu Hc Hst Hpub. apply no_ops. intros op. rewrite DeterminePlan_due_spec. pose proof (unmarked_active c Hu Hc) as Ha.
  destruct (unmarked_wants c Hu) as [b Hw]. unfold published_as_wanted in Hpub. apply andb_true_iff in Hpub as [Hp1%negb_true_iff Hp2%negb_true_iff].
  destruct Hst as [Hs1 Hs2]. rewrite <- to_publish_iff in Hs2.
  assert (due_reopen c = false) as Hr.
  { unfold due_reopen, writable, reopenAfterDetach. rewrite (bool_decide_eq_false_2 _ Hs1). cbn [orb]. destruct (bool_decide (c_ExternalState c = ExternalReadOnly)); cbn [negb orb andb].
    - by rewrite orb_true_r, andb_false_r.
    - by rewrite andb_false_r. }
  assert (due_undraft (Some s) c s = false) as Hd.
  { unfold due_undraft, delta_to. rewrite compare_same. cbn [Undraft noDelta orb].
    destruct (to_publish c s); [|by rewrite andb_false_r]. rewrite bool_decide_eq_false_2; [by rewrite andb_false_r|]. intros H. by apply Hs2. }
  unfold due, with_spec. rewrite ?Ha, ?Hw, ?Hp1, ?Hp2, ?Hr, ?Hd, ?Hc. unfold replaces, delta_to. rewrite ?Hp1, ?Hp2, ?Hr, ?compare_same.
  cbn [NeedCommitUpdate NeedCodeHostUpdate noDelta wantDetach wantArchive isReattach].
  destruct op; cbn; rewrite ?andb_false_r; try done.
Qed.

(** ** The rewired changeset *)

Lemma unmarked_update_first p (l l' : list BatchChangeAssoc) :
  unmarked l -> update_first p (fun a => MkAssoc (BatchChangeID a) false false false) l = Some l' -> unmarked l'.
Proof.
  intros H. revert l'. induction H as [|a l Ha Hl IH]; intros l'; cbn [update_first]; [done|].
  destruct (p a); [intros [= <-]; by constructor|]. destruct (update_first _ _ l) as [l1|]; [|done]. intros [= <-]. constructor; [done|]. by apply IH.
Qed.

(** What applying a spec to a changeset leaves as it is. *)
Lemma reapplied q b c s : let a := updateChangesetToNewSpec q b c s in
  c_PublicationState a = c_PublicationState c /\ c_UiPublicationState a = c_UiPublicationState c /\
  c_ExternalServiceType a = c_ExternalServiceType c /\ c_ExternalState a = c_ExternalState c /\ c_Closing a = c_Closing c /\
  (unmarked (c_BatchChanges c) -> unmarked (c_BatchChanges a)) /\
  (c_ReconcilerState c = Completed -> c_PreviousSpecID a = c_CurrentSpecID c).
Proof.
  unfold updateChangesetToNewSpec. cbv zeta.
  assert (forall c0, let a := ResetReconcilerState (Attach (SetCurrentSpec c0 s) b) q in
    c_PublicationState a = c_PublicationState c0 /\ c_UiPublicationState a = c_UiPublicationState c0 /\
    c_ExternalServiceType a = c_ExternalServiceType c0 /\ c_ExternalState a = c_ExternalState c0 /\ c_Closing a = c_Closing c0 /\
    (unmarked (c_BatchChanges c0) -> unmarked (c_BatchChanges a)) /\ c_PreviousSpecID a = c_PreviousSpecID c0) as H.
  { intros c0 a. unfold a, ResetReconcilerState, Attach. cbn [SetCurrentSpec SetDiffStat set_CurrentSpecID set_DiffStatFields c_BatchChanges].
    destruct (update_first _ _ (c_BatchChanges c0)) as [l'|] eqn:El; [|destruct (negb _)]; split_and!; try done.
    - intros Hu. cbn. by eapply unmarked_update_first.
    - intros Hu. cbn. apply Forall_app. split; [done|]. by constructor.
    - intros Hu. cbn. apply Forall_app. split; [done|]. by constructor. }
  destruct (bool_decide (c_ReconcilerState c = Completed)) eqn:E.
  - destruct (H (set_PreviousSpecID c (c_CurrentSpecID c))) as (?&?&?&?&?&?&?). done.
  - apply bool_decide_eq_false in E. destruct (H c) as (?&?&?&?&?&?&?). done.
Qed.

Section Converge.
Context {SV : Services} {G : GoRuntime}.

Definition publishing (op : ReconcilerOperation) : bool := eqb op OpPublish || eqb op OpPublishDraft.

(** Operations that neither publish nor touch the associations or the closing flag. *)
Lemma intends_spec_ops ops I J :
  intends ops I J -> Forall (fun op => needs_spec op = true \/ op = OpSleep \/ op = OpSync) ops ->
  J = if existsb publishing ops then i_set (i_BatchChanges I) Published (i_Closing I) (i_DetachedAt I) I else I.
Proof.
  induction 1 as [I|now op ops I J _ IH]; intros Hf; [done|]. apply Forall_cons in Hf as [Ho Hf]. rewrite (IH Hf). clear IH. cbn [existsb].
  destruct op; destruct Ho as [?|[?|?]]; try done; cbn; by destruct (existsb publishing ops).
Qed.

(** What is planned for a changeset with a spec and no marks. *)
Lemma unmarked_plan prev s c op :
  unmarked (c_BatchChanges c) -> c_Closing c = false -> op ∈ Ops (DeterminePlan prev (Some s) None c).1 ->
  needs_spec op = true \/ op = OpSleep \/ op = OpSync.
Proof.
  intros Hu Hc. rewrite <- ops_Contains_iff, DeterminePlan_due_spec. destruct (unmarked_wants c Hu) as [b Hw].
  unfold due. rewrite Hw, Hc. cbn. destruct op; try done; auto; rewrite ?andb_false_r; done.
Qed.

Lemma unmarked_detachable l : unmarked l -> detachable l.
Proof. intros Hu i j a b Ha _ Hd. unfold unmarked in Hu. rewrite Forall_lookup in Hu. destruct (Hu i a Ha) as [? _]. congruence. Qed.

(** C20: reconciling reaches a fixed point.  Take a changeset that has a spec, none of whose associations is marked to be detached or
    archived, and that is not to be closed.  When it was processed without an error, the code hosts left what is wanted of it alone and
    it is of the same type of code host as before, and its state there is then not closed and not a draft that the spec wants published,
    applying the same spec to it again plans no operation.  (With a mark it may: a mark to detach survives a reopening, [ex_detach_lost].) *)
Theorem reconciled_again q b ch w prev s w1 wh ch' w' :
  SourcesFrame -> loadChangesetSpecs (reset_failure ch) w = (Ok (prev, Some s), w1) ->
  unmarked (c_BatchChanges ch) -> c_Closing ch = false ->
  process ch w = Done ((wh, None), ch', w') -> c_ExternalServiceType ch' = c_ExternalServiceType ch -> settled_state s ch' ->
  let again := updateChangesetToNewSpec q b (set_ReconcilerState ch' Completed) s in
  c_PreviousSpecID again = c_CurrentSpecID ch /\ Ops (DeterminePlan (Some s) (Some s) None again).1 = [].
Proof.
  intros Hf Hl Hu Hc Hp Hty Hst again. destruct (process_spec ch w) as (r & c & x & H & H1). rewrite Hp in H. injection H as <- <- <-.
  rewrite Hl in H1. destruct (H1 Hf eq_refl (unmarked_detachable _ Hu)) as [_ Hi]. clear H1.
  assert (c_BatchChanges (reset_failure ch) = c_BatchChanges ch /\ c_Closing (reset_failure ch) = c_Closing ch) as [Eb Ec]
    by (unfold reset_failure; by case_match).
  pose proof (unmarked_plan prev s (reset_failure ch)) as Hops. rewrite Eb, Ec in Hops.
  set (plan := (DeterminePlan prev (Some s) None (reset_failure ch)).1) in *.
  assert (forall op, op ∈ ExecutionOrder (Ops plan) <-> op ∈ Ops plan) as Hexec.
  { intros op. unfold ExecutionOrder. rewrite sort_slice_perm. apply unique_ops_spec. }
  apply intends_spec_ops in Hi; [|apply Forall_forall; intros op Hop; apply Hops; try done; by apply Hexec].
  assert (published_as_wanted s ch' = true) as Hpub.
  { unfold published_as_wanted, due_publish, due_draft. destruct (existsb publishing (ExecutionOrder (Ops plan))) eqn:Ex.
    - assert (c_Unpublished ch' = false) as ->; [|done]. apply (f_equal i_PublicationState) in Hi. cbn in Hi. unfold c_Unpublished. by rewrite Hi.
    - assert (forall op, publishing op = true -> due prev (Some s) None (reset_failure ch) op = false) as Hno.
      { intros op Hop. rewrite <- DeterminePlan_due_spec. fold plan. apply not_true_iff_false. rewrite ops_Contains_iff, <- Hexec. intros Hin.
        apply not_true_iff_false in Ex. apply Ex, existsb_exists. exists op. split; [by apply list_elem_of_In|done]. }
      pose proof (unmarked_active (reset_failure ch)) as Ha. rewrite Eb, Ec in Ha. specialize (Ha Hu Hc).
      pose proof (Hno OpPublish eq_refl) as H1. pose proof (Hno OpPublishDraft eq_refl) as H2. cbn [due with_spec] in H1, H2.
      rewrite Ha in H1, H2. cbn [andb] in H1, H2. rewrite <- (reset_failure_intent ch) in Hi.
      unfold due_publish, due_draft, to_draft, to_publish, c_Unpublished, SupportsDraft in *.
      pose proof (f_equal i_PublicationState Hi) as E1. pose proof (f_equal i_UiPublicationState Hi) as E2.
      assert (c_ExternalServiceType ch' = c_ExternalServiceType (reset_failure ch)) as E3 by (rewrite Hty; unfold reset_failure; by case_match).
      cbn in E1, E2. by rewrite E1, E2, E3, H1, H2. }
  assert (c_BatchChanges ch' = c_BatchChanges ch /\ c_Closing ch' = false /\ c_CurrentSpecID ch' = c_CurrentSpecID ch) as (Eb' & Ec' & Es').
  { pose proof (f_equal i_BatchChanges Hi) as E1. pose proof (f_equal i_Closing Hi) as E2. pose proof (f_equal i_CurrentSpecID Hi) as E3.
    destruct (existsb publishing _); cbn in E1, E2, E3; by rewrite E1, E2, E3. }
  destruct (reapplied q b (set_ReconcilerState ch' Completed) s) as (F1 & F2 & F3 & F4 & F5 & F6 & F7). fold again in F1, F2, F3, F4, F5, F6, F7.
  cbn [set_ReconcilerState c_PublicationState c_UiPublicationState c_ExternalServiceType c_ExternalState c_Closing c_BatchChanges] in F1, F2, F3, F4, F5, F6.
  rewrite Eb' in F6. split; [rewrite F7 by done; exact Es'|].
  apply settled_plan; [by apply F6|congruence| |].
  - unfold settled_state, asks_published in *. by rewrite F2, F4.
  - unfold published_as_wanted, due_publish, due_draft, to_draft, to_publish, c_Unpublished, SupportsDraft in *. by rewrite F1, F2, F3.
Qed.
End Converge.
