(* ===== verification/RewirerFacts.v ===== *)
(** What the reconciler plans for the changesets that the rewirer made or
    changed. *)
From stdpp Require Import sorting.
From S2P Require Import Prelude GoStr GoLib GoMap Changesets ChangesetHistory ReconcilerPlan ReconcilerFacts Reconciler ReconcilerRefine.
From S2P Require Import ReconcilerConverge Rewirer.

(** ** Associations *)

Lemma update_first_spec {A} (p : A -> bool) f l l' :
  update_first p f l = Some l' -> exists pre x post, l = pre ++ x :: post /\ p x = true /\ l' = pre ++ f x :: post.
Proof.
  revert l'. induction l as [|a l IH]; intros l'; cbn [update_first]; [done|]. destruct (p a) eqn:E.
  - intros [= <-]. by exists [], a, l.
  - destruct (update_first p f l) as [l1|]; [|done]. intros [= <-]. destruct (IH l1 eq_refl) as (pre & x & post & -> & Hx & ->).
    by exists (a :: pre), x, post.
Qed.

Lemma update_first_none {A} (p : A -> bool) f l : update_first p f l = None -> forall x, x ∈ l -> p x = false.
Proof.
  induction l as [|a l IH]; cbn [update_first]; [by intros _ x ?%not_elem_of_nil|]. destruct (p a) eqn:E; [done|].
  destruct (update_first p f l); [done|]. intros _ x [->|Hx]%elem_of_cons; [done|]. by apply IH.
Qed.

Section Rewired.
Context (q : ReconcilerState) (b : Z).

(** The mapping's changeset is not archived in the batch change, and its other associations are not marked. *)
Definition archives (c : Changeset) : Prop :=
  c_CurrentSpecID c <> 0%Z /\ c_OwnedByBatchChangeID c = b /\ c_Published c = true /\ ArchivedIn c b = false.

(** The flags that the loop over the associations sets. *)
Lemma archived_wants c pre x post :
  c_BatchChanges c = pre ++ MkAssoc (BatchChangeID x) (a_Detach x) true (a_IsArchived x) :: post ->
  c_OwnedByBatchChangeID c = b -> c_Published c = true -> NoDup (map BatchChangeID (pre ++ x :: post)) -> a_Detach x = false ->
  a_IsArchived x = false -> BatchChangeID x = b -> Forall (fun a => a_Detach a = false) (pre ++ post) ->
  exists sa, wants_of None c = MkWants false true false sa false false.
Proof.
  intros Hb Ho Hp Hn Hd Hi Hid Hf.
  assert (forall a, a ∈ pre ++ post -> archive_assoc c a = false) as Hother.
  { intros a Ha. unfold archive_assoc. rewrite Ho. destruct (BatchChangeID a =? b)%Z eqn:E; [|by rewrite andb_false_r, andb_false_r].
    apply Z.eqb_eq in E. exfalso. clear -Hn Ha Hid E. rewrite map_app in Hn. cbn in Hn. apply NoDup_app in Hn as (_ & H1 & H2).
    apply NoDup_cons in H2 as [H2 _]. apply elem_of_app in Ha as [Ha|Ha].
    - apply (H1 (BatchChangeID x)); [|by left]. rewrite Hid, <- E. by apply list_elem_of_fmap_2.
    - apply H2. rewrite Hid, <- E. by apply list_elem_of_fmap_2. }
  rewrite Forall_forall in Hf. rewrite wants_spec.
  2: { rewrite Hb. rewrite map_app in *. exact Hn. }
  eexists. cbn [was_detached]. rewrite andb_false_r, Hb, !existsb_app. cbn [existsb].
  assert (archive_assoc c (MkAssoc (BatchChangeID x) (a_Detach x) true (a_IsArchived x)) = true) as Hx.
  { unfold archive_assoc. cbn. by rewrite Hd, Ho, Hp, Hid, Z.eqb_refl. }
  rewrite Hx. cbn [a_Detach a_IsArchived]. rewrite Hd, Hi. cbn [negb andb orb].
  assert (forall f : BatchChangeAssoc -> bool, (forall a, a ∈ pre ++ post -> f a = false) -> existsb f pre = false /\ existsb f post = false) as Hno.
  { intros f H. split; apply not_true_iff_false; rewrite existsb_exists; intros (a & Ha%list_elem_of_In & E); rewrite H in E; set_solver. }
  destruct (Hno a_Detach Hf) as [-> ->].
  destruct (Hno (fun a => archive_assoc c a && a_IsArchived a)) as [-> ->]; [intros a Ha; by rewrite Hother|].
  destruct (Hno (fun a => a_Detach a && (BatchChangeID a =? c_OwnedByBatchChangeID c)%Z)) as [-> ->]; [intros a Ha; by rewrite Hf|].
  destruct (Hno (fun a => archive_assoc c a && negb (a_IsArchived a))) as [-> _]; [intros a Ha; by rewrite Hother|].
  by rewrite ?orb_false_r.
Qed.

(** Only this association can be archived, so the loop over the associations sees it. *)
Lemma closed_archives c prev curr :
  AttachedTo c b = true -> NoDup (map BatchChangeID (c_BatchChanges c)) -> Forall (fun a => a_Detach a = false) (c_BatchChanges c) -> archives c ->
  Ops (DeterminePlan prev curr None (closeChangeset_rewire q b c)).1 =
  OpArchive :: (if (Closeable c || c_Closing c) && negb (eqb (c_ExternalState c) ExternalReadOnly) then [OpClose] else []).
Proof.
  intros Hat Hn Hd (H1 & H2 & H3 & H4). unfold closeChangeset_rewire. apply Z.eqb_neq in H1. rewrite H1, H2, H3, Z.eqb_refl. cbn [negb andb].
  match goal with |- context [ArchivedIn ?x b] => set (c0 := x) end.
  assert (c_BatchChanges c0 = c_BatchChanges c /\ c_OwnedByBatchChangeID c0 = b /\ c_PublicationState c0 = c_PublicationState c /\
    c_ExternalState c0 = c_ExternalState c /\ c_Closing c0 = c_Closing c) as (E1 & E2 & E3 & E4 & E5) by (unfold c0; by case_match).
  assert (ArchivedIn c0 b = false) as -> by (unfold ArchivedIn in *; by rewrite E1). cbn [negb]. clearbody c0.
  unfold Archive. rewrite E1. destruct (update_first _ _ _) as [l|] eqn:El.
  2: { exfalso. apply existsb_exists in Hat as (a & Ha%list_elem_of_In & Hb). apply update_first_none with (x := a) in El; [|done].
    rewrite Hb in El. cbn [andb] in El. apply negb_false_iff in El. apply not_true_iff_false in H4. apply H4, existsb_exists. exists a.
    split; [by apply list_elem_of_In|]. by rewrite Hb, El. }
  apply update_first_spec in El as (pre & x & post & Eb & [Hx Hx']%andb_true_iff & ->). cbn [snd].
  rewrite Eb in *. apply Forall_app in Hd as [Hd1 Hd2]. apply Forall_cons in Hd2 as [Hdx Hd2].
  cbn [snd]. match goal with |- context [DeterminePlan prev curr None ?x] => set (c1 := x) end.
  assert (c_BatchChanges c1 = pre ++ MkAssoc (BatchChangeID x) (a_Detach x) true (a_IsArchived x) :: post /\ c_OwnedByBatchChangeID c1 = b /\
    c_PublicationState c1 = c_PublicationState c /\ c_ExternalState c1 = c_ExternalState c /\ c_Closing c1 = Closeable c || c_Closing c)
    as (F1 & F2 & F3 & F4 & F5).
  { assert (forall l, Closeable (set_BatchChanges c0 l) = Closeable c) as Hcl by (intros; unfold Closeable; cbn; by rewrite E4).
    unfold c1. rewrite Hcl. destruct (Closeable c); split_and!; try done. }
  clearbody c1. pose proof (archived_wants c1 pre x post F1) as Hw. rewrite F2 in Hw. specialize (Hw eq_refl).
  destruct Hw as [sa Hw]; [unfold c_Published; by rewrite F3|done|done|by apply negb_true_iff in Hx'|by apply Z.eqb_eq|by apply Forall_app|].
  unfold DeterminePlan. rewrite Hw, F4, F5. cbv zeta. cbn [wantDetach wantArchive isArchived wantDetachFromOwnerBatchChange].
  destruct (Closeable c || c_Closing c); [|done]. cbn [fst]. by destruct (bool_decide _).
Qed.

(** A changeset that this batch change does not archive is marked to be detached. *)
Section Detached.
Context (c : Changeset) (curr : option ChangesetSpec).
Hypothesis (Hat : AttachedTo c b = true) (Hn : NoDup (map BatchChangeID (c_BatchChanges c))) (Hu : unmarked (c_BatchChanges c)).
Hypothesis Hc : c_CurrentSpecID c = 0%Z \/ c_OwnedByBatchChangeID c <> b \/ c_PublicationState c <> Published.

Lemma closed_marks : exists pre x post, c_BatchChanges c = pre ++ x :: post /\ BatchChangeID x = b /\
  closeChangeset_rewire q b c = ResetReconcilerState (set_BatchChanges c (pre ++ MkAssoc b true false (a_IsArchived x) :: post)) q.
Proof.
  unfold closeChangeset_rewire.
  assert (negb (c_CurrentSpecID c =? 0)%Z && (c_OwnedByBatchChangeID c =? b)%Z && c_Published c = false) as ->.
  { unfold c_Published, publication_Published. destruct Hc as [->|[Ho%Z.eqb_neq|Hp]]; [done|by rewrite Ho, andb_false_r|]. by rewrite bool_decide_eq_false_2, andb_false_r by done. }
  unfold Detach. destruct (update_first _ _ _) as [l|] eqn:El.
  - apply update_first_spec in El as (pre & x & post & Eb & Hx%Z.eqb_eq & ->). exists pre, x, post. split_and!; [done..|]. unfold unmarked in Hu. rewrite Eb, Forall_app, Forall_cons in Hu.
    destruct Hu as (_ & [_ Ha] & _). by rewrite Ha, Hx.
  - exfalso. apply existsb_exists in Hat as (a & Hin%list_elem_of_In & Hb). apply update_first_none with (x := a) in El; [|done]. congruence.
Qed.

Lemma closed_detaches prev : OpDetach ∈ Ops (DeterminePlan prev curr None (closeChangeset_rewire q b c)).1 <->
  ~ (c_OwnedByBatchChangeID c <> b /\ c_Closing c = false /\ exists s, curr = Some s /\ overrides c s).
Proof.
  destruct closed_marks as (pre & x & post & Eb & Hx & ->). set (y := MkAssoc b true false (a_IsArchived x)).
  set (c1 := ResetReconcilerState _ q). rewrite <- ops_Contains_iff, DeterminePlan_due_spec, due_iff. cbn [should].
  assert (c_BatchChanges c1 = pre ++ y :: post) as F1 by done. unfold unmarked in Hu. rewrite Eb, Forall_app, Forall_cons in Hu. destruct Hu as (Hu1 & _ & Hu2).
  assert (forall a, a ∈ c_BatchChanges c1 -> a = y \/ (a_Detach a = false /\ a_Archive a = false)) as Hin.
  { rewrite Forall_forall in Hu1, Hu2. intros a. rewrite F1, elem_of_app, elem_of_cons. naive_solver. }
  assert (y ∈ c_BatchChanges c1) as Hy by (rewrite F1; set_solver).
  assert (forall a, a ∈ c_BatchChanges c1 -> ~ to_archive c1 a) as Hno.
  { intros a Ha (Hd & Hr & _). destruct (Hin a Ha) as [->|[_ ?]]; [done|congruence]. }
  assert (forall bo, ~ archive_mark c1 bo) as Hmark.
  { intros bo (pre' & a & post' & E & Ha & _). apply (Hno a); [|done]. rewrite E. set_solver. }
  assert (owner_detaches c1 <-> c_OwnedByBatchChangeID c = b) as Hown.
  { split; [intros (a & Ha & Hd & E)|intros E; by exists y]. destruct (Hin a Ha) as [->|[? _]]; [by symmetry|congruence]. }
  assert (forall s, overrides c1 s <-> overrides c s) as Hov.
  { intros s. unfold overrides, publishes, publishes_draft, reopens, asks_published, asks_draft, has_drafts. cbn -[elem_of].
    assert ((exists a, a ∈ pre ++ y :: post /\ BatchChangeID a = c_OwnedByBatchChangeID c) <->
            (exists a, a ∈ c_BatchChanges c /\ BatchChangeID a = c_OwnedByBatchChangeID c)) as ->; [|done].
    rewrite Eb. setoid_rewrite elem_of_app. setoid_rewrite elem_of_cons. split; intros (a & [Ha|[->|Ha]] & E); eauto; [exists x|exists y]; cbn in *; naive_solver. }
  assert (some_detach c1) as Hsome by (by exists y). unfold of_spec, goes_on. split.
  - intros (_ & _ & Hspec) (Ho & Hcl & s & Es & Hs). apply Hspec. exists s. split_and!; [done|done|by rewrite Hown|apply Hmark..|by apply Hov].
  - intros Hspec. split_and!; [done|apply Hmark|]. intros (s & Es & (Hcl & Ho & _) & Hs). rewrite Hown in Ho. apply Hspec. split_and!; [done..|].
    exists s. split; [done|]. by apply Hov.
Qed.
End Detached.

(** A new changeset is published as its spec says. *)
Lemma created_plan repo s : let c := createChangesetForSpec q b repo s in
  Ops (DeterminePlan None (Some s) None c).1 =
  if to_publish c s then [OpPublish; OpPush] else if to_draft c s then [OpPublishDraft; OpPush] else [].
Proof.
  cbv zeta. set (c := createChangesetForSpec q b repo s). unfold DeterminePlan.
  assert (wants_of None c = MkWants false false false true false false) as ->.
  { unfold wants_of, want_step. by cbn. }
  assert (c_Closing c = false /\ c_PublicationState c = Unpublished) as [-> ->] by done.
  cbn [wantDetach wantArchive isArchived isStillAttached isReattach wantDetachFromOwnerBatchChange negb andb orb fst].
  unfold plan_unpublished, to_draft. fold (to_publish c s). rewrite andb_false_r. cbn [andb].
  destruct (to_publish c s); [done|]. cbn [negb andb]. by destruct (_ && _).
Qed.

(** Every mapping leaves its changeset in the result. *)
Lemma Rewire_in ms n u n' u' : Rewire q b ms n u = Done (Ok (n', u')) ->
  (forall x, x ∈ n -> x ∈ n') /\ (forall x, x ∈ u -> x ∈ u') /\
  forall m, m ∈ ms ->
    (forall c, m_ChangesetSpec m = None -> is_Some (m_Repo m) -> m_Changeset m = Some c -> AttachedTo c b = true -> closeChangeset_rewire q b c ∈ u') /\
    (forall s, m_ChangesetSpec m = Some s -> exists repo, m_Repo m = Some repo /\ IsRepoSupported (r_ServiceType repo) = true /\
       (spec_Type s = TypeBranch ->
        match m_Changeset m with
        | Some c => updateChangesetToNewSpec q b c s ∈ u'
        | None => Some (createChangesetForSpec q b repo s) ∈ n'
        end)).
Proof.
  revert n u. induction ms as [|m ms IH]; intros n u; cbn [Rewire].
  { intros [= <- <-]. split_and!; [done|done|]. by intros m ?%not_elem_of_nil. }
  unfold checkRepoSupported. destruct (m_ChangesetSpec m) as [s|] eqn:Es.
  - destruct (m_Repo m) as [repo|] eqn:Er; [|done]. destruct (IsRepoSupported _) eqn:Eu; [|done].
    destruct (m_Changeset m) as [c|] eqn:Ec; intros (H1 & H2 & H3)%IH; (split_and!; [set_solver|set_solver|]);
      intros m' [->|Hm]%elem_of_cons; auto; (split; [by rewrite Es|]); intros s' Hs'; rewrite Es in Hs'; injection Hs' as <-;
      exists repo; (split_and!; [done|done|]); intros Ht; rewrite Ec;
      rewrite (bool_decide_eq_false_2 (spec_Type s = TypeExisting)) in * by congruence;
      rewrite (bool_decide_eq_true_2 (spec_Type s = TypeBranch)) in * by done; set_solver.
  - destruct (m_Repo m) as [repo|] eqn:Er.
    + destruct (m_Changeset m) as [c|] eqn:Ec; [|done]. destruct (AttachedTo c b) eqn:Eat; cbn [negb]; intros (H1 & H2 & H3)%IH;
        (split_and!; [set_solver|set_solver|]); intros m' [->|Hm]%elem_of_cons; auto; (split; [|by rewrite Es]);
        intros c' _ _ Hc' Hat; rewrite Ec in Hc'; injection Hc' as <-; [set_solver|congruence].
    + intros (H1 & H2 & H3)%IH. split_and!; [done|done|]. intros m' [->|Hm]%elem_of_cons; auto. split; [|by rewrite Es].
      intros c _ [? Hr]. congruence.
Qed.

Lemma created_plan_data repo s : let c := createChangesetForSpec q b repo s in
  (asks_published c s -> Ops (DeterminePlan None (Some s) None c).1 = [OpPublish; OpPush]) /\
  (asks_draft c s -> has_drafts c -> Ops (DeterminePlan None (Some s) None c).1 = [OpPublishDraft; OpPush]) /\
  (~ asks_published c s -> ~ (asks_draft c s /\ has_drafts c) -> Ops (DeterminePlan None (Some s) None c).1 = []).
Proof.
  cbv zeta. rewrite created_plan. set (c := createChangesetForSpec q b repo s). pose proof (asks_one c s) as H1.
  rewrite <- to_publish_iff, <- to_draft_iff in *. destruct (to_publish c s) eqn:E; split_and!; try done.
  - intros Ha. by apply H1 in Ha.
  - intros Ha Hd. assert (to_draft c s = true) as -> by (by apply to_draft_iff). done.
  - intros _ Ha. by destruct (to_draft c s).
Qed.

(** It is to be closed, or can be, and the repository can be written to. *)
Definition closes (c : Changeset) : Prop :=
  c_ExternalState c <> ExternalReadOnly /\ (c_Closing c = true \/ (c_ExternalState c <> ExternalClosed /\ c_ExternalState c <> ExternalMerged)).
Lemma closes_iff c : (Closeable c || c_Closing c) && negb (eqb (c_ExternalState c) ExternalReadOnly) = true <-> closes c.
Proof.
  unfold Closeable, closes. rewrite andb_true_iff, orb_true_iff, !andb_true_iff, !negb_true_iff, !bool_decide_eq_false. tauto.
Qed.

(** C21: the rewirer's result and the reconciler's plan fit together.  When rewiring succeeds, every mapping with a spec has a supported
    repository, and a branch spec without a changeset becomes a new changeset that is attached, in the queue, and whose plan pushes and
    publishes it, as a draft where the spec asks for one and the code host has drafts, or leaves it unpublished.  An attached changeset
    without a spec whose associations are distinct and not marked becomes one that is archived, if the batch change owns and published
    it from a spec and it is not archived there yet, and closed too, unless it is closed, merged or read-only already, whatever its specs
    are; and one that is detached, if it has no spec, another owner or is not published, except when the reconciler finds the spec
    of another owner, which has it published or reopened instead (the mark to detach then stays). *)
Theorem Rewire_plans ms new upd : Rewire q b ms [] [] = Done (Ok (new, upd)) -> forall m, m ∈ ms ->
  (forall s, m_ChangesetSpec m = Some s ->
     exists repo, m_Repo m = Some repo /\ IsRepoSupported (r_ServiceType repo) = true /\
     (spec_Type s = TypeBranch -> m_Changeset m = None -> exists c, Some c ∈ new /\ AttachedTo c b = true /\ c_ReconcilerState c = q /\
        (asks_published c s -> Ops (DeterminePlan None (Some s) None c).1 = [OpPublish; OpPush]) /\
        (asks_draft c s -> has_drafts c -> Ops (DeterminePlan None (Some s) None c).1 = [OpPublishDraft; OpPush]) /\
        (~ asks_published c s -> ~ (asks_draft c s /\ has_drafts c) -> Ops (DeterminePlan None (Some s) None c).1 = []))) /\
  (forall c, m_ChangesetSpec m = None -> is_Some (m_Repo m) -> m_Changeset m = Some c -> AttachedTo c b = true ->
     NoDup (map BatchChangeID (c_BatchChanges c)) -> unmarked (c_BatchChanges c) ->
     exists c', c' ∈ upd /\
       (archives c -> forall prev curr,
          (closes c -> Ops (DeterminePlan prev curr None c').1 = [OpArchive; OpClose]) /\
          (~ closes c -> Ops (DeterminePlan prev curr None c').1 = [OpArchive])) /\
       (c_CurrentSpecID c = 0%Z \/ c_OwnedByBatchChangeID c <> b \/ c_PublicationState c <> Published -> forall prev curr,
          OpDetach ∈ Ops (DeterminePlan prev curr None c').1 <->
          ~ (c_OwnedByBatchChangeID c <> b /\ c_Closing c = false /\ exists s, curr = Some s /\ overrides c s))).
Proof.
  intros (_ & _ & H)%Rewire_in m Hm. destruct (H m Hm) as [Hnone Hsome]. split.
  - intros s Hs. destruct (Hsome s Hs) as (repo & H1 & H2 & H3). exists repo. split_and!; [done|done|]. intros Ht Hc. rewrite Hc in H3.
    eexists. split; [by apply H3|]. split; [cbn; by rewrite Z.eqb_refl|]. split; [done|]. apply created_plan_data.
  - intros c Hs Hr Hc Hat Hn Hu. exists (closeChangeset_rewire q b c). split_and!; [by apply Hnone| |].
    + intros Har prev curr. rewrite <- closes_iff, (closed_archives c prev curr); [|done|done|eapply Forall_impl; [exact Hu|by intros ? [? _]]|done].
      split; [by intros ->|]. by intros ->%not_true_iff_false.
    + intros Hd prev curr. by apply closed_detaches.
Qed.
End Rewired.
