(* ===== verification/ReconcilerExamples.v ===== *)
(** A world in which the theorems about the reconciler apply: a GitHub repository
    and an instance of [Services] with it, whose failures can be chosen. *)
From stdpp Require Import sorting.
From S2P Require Import Prelude GoStr GoLib GoMap Changesets ChangesetHistory ReconcilerPlan ReconcilerFacts Reconciler ReconcilerRefine.
From S2P Require Import ReconcilerConverge Rewirer RewirerFacts.

Definition ex_repo : Repo := MkRepo 1 (str "github.com/a/b") TypeGitHub false.
Definition ex_spec : ChangesetSpec :=
  MkSpec 5 TypeBranch 1 0 1 [] (str "refs/heads/main") (str "refs/heads/fix") (str "Fix") (str "Body") (ValBool true) (str "diff") (str "msg")
    (str "ann") (str "ann@example.com") None.
Definition ex_batch_change : BatchChange := MkBatchChange 3 (str "fix") 0 7.
Definition ex_open : GitHubPullRequest :=
  MkGitHub (str "OPEN") false (str "Fix") (str "Body") (str "main") (str "b1") (str "fix") (str "h1") 10.

(** What the code host answers. *)
Record Answers := MkAnswers { on_push : option error; on_create : option error; on_load : option error; on_fork : bool }.
Definition all_well : Answers := MkAnswers None None None false.

Definition populate (err : option error) (cs : SourceChangeset) : Changeset * option error :=
  (match err with None => set_Metadata (s_Changeset cs) (GitHub ex_open) | Some _ => s_Changeset cs end, err).

(** The world is the list of the calls that write. *)
Definition ex_services (a : Answers) : Services := {|
  World := list gostring;
  time_Now w := (100%Z, w);
  Repos_Get _ w := (Ok ex_repo, w);
  GetChangeset _ _ _ w := (Err ErrNoResults, w);
  GetChangesetSpecByID _ w := (Ok ex_spec, w);
  GetBatchChange _ w := (Ok ex_batch_change, w);
  Namespace_Name _ _ w := (Ok (str "ann"), w);
  BatchChange_URL _ _ w := (Ok (str "https://sourcegraph.test/users/ann/batch-changes/fix"), w);
  UpdateRepo _ w := (None, w ++ [str "update repo"]);
  UpsertChangesetEvents _ w := (None, w);
  UpdateChangeset _ w := (None, w ++ [str "update changeset"]);
  Transact w := (None, w);
  tx_Done err w := (err, w);
  Enqueue t _ w := w ++ [t];
  CommitRequest := gostring;
  CreateCommitFromPatch r w := (on_push a, w ++ [str "push"]);
  ResolveRevision _ rev w := (Ok rev, w);
  git_Diff _ _ _ w := (Ok ([MkStat 2 1 0], None), w);
  Source := ();
  PushConfig := ();
  ForChangeset _ w := (Ok (), w);
  is_Draft _ := true;
  is_Archivable _ := true;
  is_Forkable _ := negb (on_fork a);
  GitserverPushConfig _ _ := Ok ();
  BuildCommitOpts _ _ _ s _ := spec_Diff s;
  IsArchivedPushError _ out := Contains out (str "archived");
  GetFork _ r _ _ w := (Ok r, w);
  LoadChangeset _ cs w := (populate (on_load a) cs, w);
  CreateChangeset _ cs w := (((populate (on_create a) cs).1, match on_create a with Some e => Err e | None => Ok false end), w ++ [str "create"]);
  CreateDraftChangeset _ cs w := (((populate (on_create a) cs).1, match on_create a with Some e => Err e | None => Ok false end), w ++ [str "create"]);
  UndraftChangeset _ cs w := (populate None cs, w ++ [str "undraft"]);
  svc_UpdateChangeset _ cs w := (populate None cs, w ++ [str "update"]);
  ReopenChangeset _ cs w := (populate None cs, w ++ [str "reopen"]);
  CloseChangeset _ cs w := (populate None cs, w ++ [str "close"]);
  ch_Events _ := Ok [];
  template_Execute body _ := Ok body
|}.

#[local] Existing Instance plain_runtime.

Lemma ex_frame a : @SourcesFrame (ex_services a).
Proof. split; intros; cbn; first [done|by destruct (on_load a)|by destruct (on_create a)]. Qed.

(** ** Publishing *)

Definition ex_new : Changeset := createChangesetForSpec Queued 3 ex_repo ex_spec.

(** The commit is pushed before the pull request is created, the changeset is saved, and the webhook is sent. *)
Example ex_publish : HandlerFunc (SV := ex_services all_well) ex_new [] =
  Done (None, [str "push"; str "create"; str "update changeset"; str "changeset:publish"]).
Proof. vm_compute. reflexivity. Qed.

Definition ex_published : Changeset :=
  match process (SV := ex_services all_well) ex_new [] with Done (_, ch, _) => ch | _ => zeroChangeset end.

Lemma process_refines_witness :
  intends (ExecutionOrder (Ops (DeterminePlan None (Some ex_spec) None ex_new).1)) (intent ex_new) (intent ex_published).
Proof.
  apply (process_refines (SV := ex_services all_well) ex_new [] None (Some ex_spec) [] (Some ChangesetPublish) ex_published
    [str "push"; str "create"; str "update changeset"]).
  - apply ex_frame.
  - reflexivity.
  - vm_compute. reflexivity.
  - intros i j a b Ha _ Hd. destruct i as [|[|]]; vm_compute in Ha; simplify_eq.
Defined.

Lemma reconciled_again_witness :
  Ops (DeterminePlan (Some ex_spec) (Some ex_spec) None
    (updateChangesetToNewSpec Queued 3 (set_ReconcilerState ex_published Completed) ex_spec)).1 = [].
Proof.
  apply (reconciled_again (SV := ex_services all_well) Queued 3 ex_new [] None ex_spec [] (Some ChangesetPublish) ex_published
    [str "push"; str "create"; str "update changeset"]).
  - apply ex_frame.
  - reflexivity.
  - constructor; [split; reflexivity|constructor].
  - reflexivity.
  - vm_compute. reflexivity.
  - vm_compute. reflexivity.
  - split; vm_compute; [discriminate|intros; discriminate].
Defined.

(** ** Failures *)

(** A failed creation is announced as a failed update. *)
Example ex_create_fails :
  exists e, HandlerFunc (SV := ex_services (MkAnswers None (Some (errorString (str "boom"))) None false)) ex_new [] =
    Done (Some e, [str "push"; str "create"; str "changeset:update_error"]).
Proof. eexists. vm_compute. reflexivity. Qed.

(** A patch that does not apply is not retried; a push to an archived repository marks the repository. *)
Definition ex_push_error (out : string) : error := CreateCommitFromPatchError (MkCommitError (str "b") (str "push failed") (str "git push") (str out)).

Example ex_does_not_apply :
  exists e ch w, process (SV := ex_services (MkAnswers (Some (ex_push_error "error: patch does not apply")) None None false)) ex_new [] =
    Done ((None, Some e), ch, w) /\ IsNonRetryable e = true.
Proof. eexists _, _, _. split; [vm_compute; reflexivity|reflexivity]. Qed.

Example ex_archived :
  exists e ch, process (SV := ex_services (MkAnswers (Some (ex_push_error "repository is archived")) None None false)) ex_new [] =
    Done ((None, Some e), ch, [str "push"; str "update repo"]) /\ IsNonRetryable e = true /\ c_ExternalState ch = ExternalReadOnly.
Proof. eexists _, _. split; [vm_compute; reflexivity|done]. Qed.

(** An undraft whose remote repository cannot be determined succeeds without a call to the code host. *)
Definition ex_fork_spec : ChangesetSpec :=
  MkSpec 5 TypeBranch 1 0 1 [] (str "refs/heads/main") (str "refs/heads/fix") (str "Fix") (str "Body") (ValBool true) (str "diff") (str "msg")
    (str "ann") (str "ann@example.com") (Some (str "forks")).
Example ex_undraft_swallows :
  let sv := ex_services (MkAnswers None None None true) in
  exists e, undraftChangeset (SV := sv) (MkExecutor (SV := sv) ex_new (Some ex_fork_spec) ex_repo None None []) =
    Done ((Some ChangesetUpdateError, None), e) /\ x_world (SV := sv) e = [].
Proof. eexists. split; vm_compute; reflexivity. Qed.

(** ** A planned detachment that is lost *)

(** Attached to its owner 3 and, marked to be detached, to 4; closed on the code host. *)
Definition ex_detach_reopen : Changeset :=
  set_ExternalState (set_PublicationState (set_BatchChanges ex_published
    [MkAssoc 3 false false false; MkAssoc 4 true false false]) Published) ExternalClosed.
Example ex_detach_lost :
  Ops (DeterminePlan (Some ex_spec) (Some ex_spec) None ex_detach_reopen).1 = [OpReopen].
Proof. vm_compute. reflexivity. Qed.

(** ** An archived changeset that is processed again *)

Definition ex_archived_changeset : Changeset :=
  set_ExternalState (set_BatchChanges ex_published (archive_assocs [MkAssoc 3 false true false])) ExternalClosed.
Example ex_archived_reopens :
  Ops (DeterminePlan (Some ex_spec) (Some ex_spec) None ex_archived_changeset).1 = [OpReopen].
Proof. vm_compute. reflexivity. Qed.

(** ** Rewiring *)

(** One spec is new; the published changeset has none any more. *)
Definition ex_mappings : list RewirerMapping :=
  [MkMapping (Some ex_spec) None 1 (Some ex_repo); MkMapping None (Some ex_published) 1 (Some ex_repo)].

Lemma Rewire_plans_witness :
  exists c, c ∈ [closeChangeset_rewire Queued 3 ex_published] /\ Ops (DeterminePlan None (Some ex_spec) None c).1 = [OpArchive; OpClose].
Proof.
  destruct (Rewire_plans Queued 3 ex_mappings [Some ex_new] [closeChangeset_rewire Queued 3 ex_published]) with
    (m := MkMapping None (Some ex_published) 1 (Some ex_repo)) as [_ H].
  - vm_compute. reflexivity.
  - apply list_elem_of_In. right. left. reflexivity.
  - destruct (H ex_published) as (c & Hc & Ha & _).
    + reflexivity.
    + exists ex_repo. reflexivity.
    + reflexivity.
    + vm_compute. reflexivity.
    + vm_compute. apply NoDup_singleton.
    + vm_compute. constructor; [split; reflexivity|constructor].
    + exists c. split; [exact Hc|]. apply Ha; [split; [|split; [|split]]; vm_compute; [discriminate|reflexivity..]|].
      vm_compute. split; [discriminate|right; split; discriminate].
Defined.
