(* ===== verification/WorkerQueue.v ===== *)
(** The queue of a database-backed worker: the statements of
    [internal/workerutil/dbworker/store/store.go] on the row of one record, and
    what [Worker.handle] of [internal/workerutil/worker.go] does with the result
    of the handler.

    Times are in nanoseconds.  [now] is the store's clock and [clock] the
    database's [clock_timestamp()].  A heartbeat only moves [last_heartbeat_at];
    it is not a step of the row's life. *)
From stdpp Require Import sorting relations.
From S2P Require Import Prelude GoStr GoLib GoMap Changesets ReconcilerPlan ChangesetHistory Reconciler ReconcilerRefine Rewirer.
From S2P Require Import ReconcilerExamples.

(** ** Rows and options *)

Inductive RecordState := StQueued | StProcessing | StCompleted | StErrored | StFailed | StCanceled.

#[export] Instance record_state_eq_dec : EqDecision RecordState.
Proof. solve_decision. Defined.

Record Row := MkRow {
  row_state : RecordState;
  queued_at : Z;
  started_at : option Z;
  last_heartbeat_at : option Z;
  finished_at : option Z;
  process_after : option Z;
  failure_message : option gostring;
  num_resets : Z;
  num_failures : Z;
  cancel : bool
}.

Record Options := MkOptions { StalledMaxAge : Z; MaxNumResets : Z; RetryAfter : Z; MaxNumRetries : Z; ResetFailureMessage : gostring }.

Definition second : Z := (10 ^ 9)%Z.

(** [reconcilerWorkerStoreOpts]. *)
Definition reconcilerMaxNumRetries : Z := 10.
Definition reconcilerMaxNumResets : Z := 10.
Definition reconcilerWorkerStoreOpts : Options := MkOptions (60 * second) reconcilerMaxNumResets (5 * second) reconcilerMaxNumRetries [].

Section Store.
Context (o : Options).

(** ** Statements *)

(** The candidates of [dequeueQuery]; a comparison with NULL does not hold. *)
Definition dequeueable (now : Z) (r : Row) : bool :=
  let retryAfter := Z.quot (RetryAfter o) second in
  (eqb (row_state r) StQueued && match process_after r with None => true | Some t => (t <=? now)%Z end) ||
  ((0 <? retryAfter)%Z && eqb (row_state r) StErrored &&
   match finished_at r with None => false | Some t => (retryAfter * second <? now - t)%Z end).

(** [Dequeue], when the row is the first candidate. *)
Definition Dequeue (now : Z) (r : Row) : option Row :=
  if dequeueable now r then
    Some (MkRow StProcessing (queued_at r) (Some now) (Some now) None (process_after r) None (num_resets r) (num_failures r) (cancel r))
  else None.

Definition Heartbeat (now : Z) (r : Row) : Row :=
  if eqb (row_state r) StProcessing then
    MkRow (row_state r) (queued_at r) (started_at r) (Some now) (finished_at r) (process_after r) (failure_message r) (num_resets r)
      (num_failures r) (cancel r)
  else r.

Definition Requeue (clock after : Z) (r : Row) : Row :=
  MkRow StQueued clock None (last_heartbeat_at r) (finished_at r) (Some after) (failure_message r) (num_resets r) (num_failures r) false.

(** The result says whether the row was updated. *)
Definition finish_as (s : RecordState) (clock : Z) (msg : option gostring) (failures : Z) (r : Row) : bool * Row :=
  if eqb (row_state r) StProcessing then
    (true, MkRow s (queued_at r) (started_at r) (last_heartbeat_at r) (Some clock) (process_after r) msg (num_resets r) failures (cancel r))
  else (false, r).

Definition MarkComplete (clock : Z) (r : Row) : bool * Row := finish_as StCompleted clock (failure_message r) (num_failures r) r.
Definition MarkErrored (clock : Z) (msg : gostring) (r : Row) : bool * Row :=
  finish_as (if cancel r then StCanceled else if (MaxNumRetries o <=? num_failures r + 1)%Z then StFailed else StErrored) clock (Some msg)
    (if cancel r then num_failures r else num_failures r + 1)%Z r.
Definition MarkFailed (clock : Z) (msg : gostring) (r : Row) : bool * Row :=
  finish_as (if cancel r then StCanceled else StFailed) clock (Some msg) (if cancel r then num_failures r else num_failures r + 1)%Z r.

Definition defaultResetFailureMessage : gostring := str "job processor died while handling this message too many times".

(** The row has not had a heartbeat for too long. *)
Definition stalled (now : Z) (r : Row) : bool :=
  eqb (row_state r) StProcessing &&
  match last_heartbeat_at r with None => false | Some t => (Z.quot (StalledMaxAge o) second * second <? now - t)%Z end.

(** The two statements of [ResetStalled], one after the other. *)
Definition ResetStalled (now clock : Z) (r : Row) : Row :=
  let r := if stalled now r && (num_resets r <? MaxNumResets o)%Z then
             MkRow StQueued clock None (last_heartbeat_at r) (finished_at r) (process_after r) (failure_message r) (num_resets r + 1)
               (num_failures r) (cancel r)
           else r in
  if stalled now r && (MaxNumResets o <=? num_resets r)%Z then
    MkRow StFailed (queued_at r) (started_at r) (last_heartbeat_at r) (Some clock) (process_after r)
      (Some (if gs_eqb (ResetFailureMessage o) [] then defaultResetFailureMessage else ResetFailureMessage o)) (num_resets r)
      (num_failures r) (cancel r)
  else r.

(** ** The worker *)

(** [ctx.Err()] *)
Inductive ctx_error := CtxCanceled | CtxDeadlineExceeded.
Definition is_ctx_error (e : error) (c : ctx_error) : bool :=
  match e, c with context_Canceled, CtxCanceled | context_DeadlineExceeded, CtxDeadlineExceeded => true | _, _ => false end.
(** [errors.Is] with an error of a context. *)
Definition errors_Is (e : error) (c : ctx_error) : bool :=
  bool_decide (is_Some (errors_As (fun e => if is_ctx_error e c then Some () else None) e)).

(** [running] says whether the record is in the set of running records.  An error
    is not nil, so it is not [ctx.Err()] when that is nil. *)
Definition isJobCanceled (running : bool) (handleErr : error) (ctxErr : option ctx_error) : bool :=
  match ctxErr with None => false | Some c => errors_Is handleErr c end && running && negb (errors_Is handleErr CtxDeadlineExceeded).

(** What the worker finds when the handler returns: the configured maximum of the
    runtime, with its text, the error of the context, whether the record is in the
    running set, the error of the statement that marks the record, and the messages
    of errors. *)
Record HandleEnv := MkHandleEnv {
  MaximumRuntimePerJob : Z; runtime_text : gostring; ctx_Err : option ctx_error; running_Has : bool; mark_Err : option error;
  err_Error : error -> gostring }.

(** [handleErr] after the handler returned. *)
Definition runtime_error (v : HandleEnv) (handleErr : option error) : option error :=
  match handleErr with
  | Some e =>
      Some (if (0 <? MaximumRuntimePerJob v)%Z && errors_Is e CtxDeadlineExceeded
            then Wrap e (str "job exceeded maximum execution time of " ++ runtime_text v) else e)
  | None => None
  end.

(** A statement that fails leaves the row, and its error is returned. *)
Definition mark (v : HandleEnv) (name : string) (marked : bool * Row) (r : Row) : option error * Row :=
  match mark_Err v with Some markErr => (Some (Wrap markErr (str name)), r) | None => (None, marked.2) end.

(** [Worker.handle], when the handler returned [handleErr]. *)
Definition worker_handle (clock : Z) (v : HandleEnv) (handleErr : option error) (r : Row) : option error * Row :=
  match runtime_error v handleErr with
  | Some err =>
      if IsNonRetryable err || isJobCanceled (running_Has v) err (ctx_Err v)
      then mark v "store.MarkFailed" (MarkFailed clock (err_Error v err) r) r
      else mark v "store.MarkErrored" (MarkErrored clock (err_Error v err) r) r
  | None => mark v "store.MarkComplete" (MarkComplete clock r) r
  end.

(** ** The life of a row *)

Inductive step (r : Row) : Row -> Prop :=
  | step_dequeue now r' : Dequeue now r = Some r' -> step r r'
  | step_handle clock v err r' : row_state r = StProcessing -> mark_Err v = None -> worker_handle clock v err r = (None, r') -> step r r'
  | step_reset now clock : stalled now r = true -> step r (ResetStalled now clock r)
  | step_cancel : row_state r = StProcessing -> cancel r = false ->
      step r (MkRow (row_state r) (queued_at r) (started_at r) (last_heartbeat_at r) (finished_at r) (process_after r) (failure_message r)
                (num_resets r) (num_failures r) true).
End Store.

(** Every record that is in a worker's queue ends: after a bounded number of
    steps it is completed, failed or canceled, whatever the handler returns and
    however often the worker dies. *)

Section Liveness.
Context (o : Options).

Definition final (r : Row) : bool :=
  match row_state r with StCompleted | StFailed | StCanceled => true | _ => false end.

(** A record that errored has finished. *)
Definition row_ok (r : Row) : Prop := row_state r = StErrored -> is_Some (finished_at r).

(** What is left: failures and resets, two steps for each, and a cancellation. *)
Definition budget (r : Row) : Z :=
  if final r then 0
  else 1 + 2 * (Z.max 0 (MaxNumRetries o - 1 - num_failures r) + Z.max 0 (MaxNumResets o - num_resets r)) +
       (if eqb (row_state r) StProcessing then 0 else 1) + (if cancel r then 0 else 1).

(** On every way that the record can take, [P] holds sooner or later. *)
Inductive eventually (P : Row -> Prop) (r : Row) : Prop :=
  | eventually_now : P r -> eventually P r
  | eventually_later : (exists r', step o r r') -> (forall r', step o r r' -> eventually P r') -> eventually P r.

(** ** Steps *)

Lemma budget_nonneg r : (0 <= budget r)%Z.
Proof. unfold budget. repeat case_match; lia. Qed.

Definition left_over (r : Row) : Z :=
  2 * (Z.max 0 (MaxNumRetries o - 1 - num_failures r) + Z.max 0 (MaxNumResets o - num_resets r)) + (if cancel r then 0 else 1).

Lemma budget_eq r : budget r = match row_state r with
  | StQueued | StErrored => 2 + left_over r
  | StProcessing => 1 + left_over r
  | _ => 0
  end%Z.
Proof. unfold budget, left_over, final. destruct (row_state r); cbn [bool_decide decide_rel]; repeat case_match; try done; lia. Qed.

Lemma left_over_nonneg r : (0 <= left_over r)%Z.
Proof. unfold left_over. case_match; lia. Qed.

Lemma dequeue_step now r r' : Dequeue o now r = Some r' -> (budget r' < budget r)%Z /\ row_ok r'.
Proof.
  unfold Dequeue. destruct (dequeueable o now r) eqn:E; [|done]. intros [= <-]. split; [|done].
  rewrite !budget_eq. cbn [row_state]. change (left_over (MkRow _ _ _ _ _ _ _ _ _ _)) with (left_over r).
  unfold dequeueable in E. destruct (row_state r) eqn:Es; rewrite ?(bool_decide_eq_false_2 (_ = _)), ?andb_false_r in E by done; try done; lia.
Qed.

Lemma finish_processing s clock msg failures r : row_state r = StProcessing ->
  (finish_as s clock msg failures r).2 =
  MkRow s (queued_at r) (started_at r) (last_heartbeat_at r) (Some clock) (process_after r) msg (num_resets r) failures (cancel r).
Proof. unfold finish_as. intros E. by rewrite bool_decide_eq_true_2. Qed.

Lemma handle_step clock v err r r' : row_state r = StProcessing -> mark_Err v = None ->
  worker_handle o clock v err r = (None, r') -> (budget r' < budget r)%Z /\ row_ok r'.
Proof.
  intros Es Hm H. rewrite !budget_eq, Es. pose proof (left_over_nonneg r).
  unfold worker_handle, mark, MarkFailed, MarkErrored, MarkComplete in H. rewrite Hm in H.
  destruct (runtime_error v err) as [e|]; [destruct (_ || _)|]; injection H as <-; rewrite finish_processing by done; (split; [|by eexists]); cbn [row_state];
    [destruct (cancel r); lia| |lia].
  destruct (cancel r) eqn:Ec; [lia|]. destruct (MaxNumRetries o <=? num_failures r + 1)%Z eqn:E; [lia|].
  unfold left_over. cbn. rewrite Ec. lia.
Qed.

Lemma reset_step now clock r : stalled o now r = true -> (budget (ResetStalled o now clock r) < budget r)%Z /\ row_ok (ResetStalled o now clock r).
Proof.
  intros Hst. assert (row_state r = StProcessing) as Es by (unfold stalled in Hst; apply andb_true_iff in Hst as [H _]; by apply bool_decide_eq_true in H).
  pose proof (left_over_nonneg r). rewrite !budget_eq, Es.
  unfold ResetStalled. rewrite Hst. cbn [andb]. cbv zeta. destruct (num_resets r <? MaxNumResets o)%Z eqn:E.
  - assert (stalled o now (MkRow StQueued clock None (last_heartbeat_at r) (finished_at r) (process_after r) (failure_message r)
      (num_resets r + 1) (num_failures r) (cancel r)) = false) as -> by done. cbn [andb row_state]. split; [|done].
    unfold left_over. cbn. lia.
  - rewrite Hst. assert ((MaxNumResets o <=? num_resets r)%Z = true) as -> by lia. cbn [andb row_state]. split; [|done]. lia.
Qed.

Lemma step_budget r r' : step o r r' -> (budget r' < budget r)%Z /\ row_ok r'.
Proof.
  intros [now r1 H|clock v err r1 H Hm Hw|now clock H|Hs Hc].
  - by eapply dequeue_step.
  - by eapply handle_step.
  - by apply reset_step.
  - split; [|unfold row_ok; cbn; by rewrite Hs]. rewrite !budget_eq. cbn [row_state]. rewrite Hs. unfold left_over. cbn. rewrite Hc. lia.
Qed.

(** ** Progress *)

Lemma final_no_step r r' : final r = true -> ~ step o r r'.
Proof.
  intros Hf [now r1 H|clock v err r1 H Hm Hw|now clock H|Hs Hc].
  - unfold Dequeue, dequeueable, final in *. by destruct (row_state r); cbn in H; rewrite ?andb_false_r in H.
  - unfold final in Hf. by rewrite H in Hf.
  - unfold stalled, final in *. by destruct (row_state r).
  - unfold final in Hf. by rewrite Hs in Hf.
Qed.

Lemma can_step r : (second <= RetryAfter o)%Z -> row_ok r -> final r = false -> exists r', step o r r'.
Proof.
  intros Ho Hr Hf. destruct (row_state r) eqn:Es; try (unfold final in Hf; by rewrite Es in Hf).
  - set (now := match process_after r with None => 0%Z | Some t => t end).
    assert (dequeueable o now r = true) as Hd.
    { unfold dequeueable, now. rewrite Es. cbn. destruct (process_after r); [|done]. by rewrite Z.leb_refl. }
    eexists. apply (step_dequeue _ _ now). unfold Dequeue. by rewrite Hd.
  - eexists. by eapply (step_handle _ _ 0 (MkHandleEnv 0 [] None true None (fun _ => [])) None).
  - destruct (Hr Es) as [t Ht]. set (retryAfter := Z.quot (RetryAfter o) second).
    assert (0 < retryAfter)%Z as Hq.
    { unfold retryAfter. assert (1 <= Z.quot (RetryAfter o) second)%Z; [|lia]. apply Z.quot_le_lower_bound; unfold second in *; lia. }
    set (now := (t + retryAfter * second + 1)%Z). assert (dequeueable o now r = true) as Hd.
    { unfold dequeueable. fold retryAfter. rewrite Es, Ht. cbn [bool_decide decide_rel]. apply orb_true_iff. right. unfold now.
      rewrite !andb_true_iff. split_and!; [lia|by apply bool_decide_eq_true|lia]. }
    eexists. apply (step_dequeue _ _ now). unfold Dequeue. by rewrite Hd.
Qed.

Lemma eventually_final r : (second <= RetryAfter o)%Z -> row_ok r -> eventually (fun r => final r = true) r.
Proof.
  intros Ho. remember (Z.to_nat (budget r)) as n eqn:En. revert r En. induction (lt_wf n) as [n _ IH]. intros r En Hr.
  destruct (final r) eqn:Ef; [by apply eventually_now|]. apply eventually_later; [by apply can_step|].
  intros r' Hs. destruct (step_budget _ _ Hs) as [Hb Hr']. pose proof (budget_nonneg r'). apply (IH (Z.to_nat (budget r'))); [lia|done|done].
Qed.

(** C19: a worker's record does not stay in the queue.  When a failed attempt is retried after at least a second, every row reaches a
    final state on every way it can take: attempts that succeed, fail or fail for good, workers that die, and cancellations, in any
    order; until then some step can always be taken, and after it none; and there are never more steps than the retries and
    resets that are left allow, two for each of them. *)
Theorem worker_finishes r :
  (second <= RetryAfter o)%Z -> row_ok r ->
  eventually (fun r => final r = true /\ forall r', ~ step o r r') r /\
  (forall n r', nsteps (step o) n r r' -> (Z.of_nat n <= budget r)%Z).
Proof.
  intros Ho Hr. split.
  - assert (forall r, eventually (fun r => final r = true) r -> eventually (fun r => final r = true /\ forall r', ~ step o r r') r) as H.
    { induction 1 as [x Hx|x Hx _ IH]; [|by apply eventually_later]. apply eventually_now. split; [done|]. intros r'. by apply final_no_step. }
    by apply H, eventually_final.
  - intros n r'. clear Hr. induction 1 as [x|n x y z Hs _ IH]; [apply budget_nonneg|]. apply step_budget in Hs as [Hs _]. lia.
Qed.
End Liveness.

(** ** The reconciler's queue *)

Definition queued_row : Row := MkRow StQueued 0 None None None None None 0 0 false.

(** At most 41 steps: 20 attempts and a cancellation. *)
Lemma worker_finishes_witness :
  eventually reconcilerWorkerStoreOpts (fun r => final r = true /\ forall r', ~ step reconcilerWorkerStoreOpts r r') queued_row /\
  (forall n r', nsteps (step reconcilerWorkerStoreOpts) n queued_row r' -> (Z.of_nat n <= 41)%Z).
Proof. apply (worker_finishes reconcilerWorkerStoreOpts queued_row); [vm_compute; discriminate|discriminate]. Defined.

(** The row while it is handled: heartbeats come, and it may be asked to cancel. *)
Definition in_process (now : Z) (r : Row) (heartbeat : option Z) (canceled : bool) : Row :=
  MkRow StProcessing (queued_at r) (Some now) heartbeat None (process_after r) None (num_resets r) (num_failures r) canceled.

Lemma Dequeue_in_process o now r : dequeueable o now r = true -> Dequeue o now r = Some (in_process now r (Some now) (cancel r)).
Proof. unfold Dequeue. by intros ->. Qed.

(** The root of an error, below its wrappings. *)
Fixpoint root_cause (e : error) : error := match e with Wrap e _ => root_cause e | _ => e end.
Lemma errors_Is_root e c : errors_Is e c = is_ctx_error (root_cause e) c.
Proof.
  unfold errors_Is. by induction e; destruct c.
Qed.
Lemma IsNonRetryable_wrap e msg : IsNonRetryable (Wrap e msg) = IsNonRetryable e.
Proof. done. Qed.

(** The worker itself canceled the job: its context is canceled, which the handler
    returned, and the record was still in the running set. *)
Definition worker_canceled (v : HandleEnv) (e : error) : bool :=
  match root_cause e, ctx_Err v with context_Canceled, Some CtxCanceled => running_Has v | _, _ => false end.
(** The message of an error, with the runtime if the handler ran out of it. *)
Definition outcome_message (v : HandleEnv) (e : error) : gostring :=
  match root_cause e with
  | context_DeadlineExceeded =>
      err_Error v (if (0 <? MaximumRuntimePerJob v)%Z then Wrap e (str "job exceeded maximum execution time of " ++ runtime_text v) else e)
  | _ => err_Error v e
  end.

Lemma runtime_error_spec v e : exists e', runtime_error v (Some e) = Some e' /\ IsNonRetryable e' = IsNonRetryable e /\
  isJobCanceled (running_Has v) e' (ctx_Err v) = worker_canceled v e /\ err_Error v e' = outcome_message v e.
Proof.
  eexists. split; [done|]. unfold isJobCanceled, worker_canceled, outcome_message.
  destruct ((0 <? MaximumRuntimePerJob v)%Z && errors_Is e CtxDeadlineExceeded) eqn:E;
    [rewrite IsNonRetryable_wrap; split; [done|]|split; [done|]]; destruct (ctx_Err v) as [c|]; rewrite !errors_Is_root in *; cbn [root_cause].
  1, 2: apply andb_true_iff in E as [-> E]; destruct (root_cause e); try done; destruct c, (running_Has v); done.
  all: destruct (root_cause e); try done; cbn in E |- *; rewrite ?andb_true_r in E; rewrite ?E; try done; by destruct c, (running_Has v).
Qed.

(** C23: an attempt always comes to an end, and its outcome is recorded unless the database fails.  The handler returns for every record
    that can be dequeued.  Whatever it returned, however the row was updated by heartbeats and cancellations meanwhile, and whatever
    the state of the job's context is: when the statement that marks the record fails, its error is returned and the row stays in
    processing (where it is reset when it has stalled); otherwise the record is completed if there was no error.  If there was one, its
    message is kept, with the maximum runtime if that was exceeded; the record is canceled when that was asked for; else it counts as a
    failure, and the record has failed if the error is not retryable, the worker canceled the job or the retries are used up, and will
    be retried otherwise. *)
Theorem attempt_outcome {SV : Services} {G : GoRuntime} o now clock v job w r heartbeat canceled :
  dequeueable o now r = true ->
  exists err w', Dequeue o now r = Some (in_process now r (Some now) (cancel r)) /\ HandlerFunc job w = Done (err, w') /\
  let r1 := in_process now r heartbeat canceled in
  let '(ret, r') := worker_handle o clock v err r1 in
  match mark_Err v with
  | Some markErr => (exists name, ret = Some (Wrap markErr name)) /\ r' = r1
  | None =>
      ret = None /\ num_resets r' = num_resets r /\ finished_at r' = Some clock /\
      match err with
      | None => row_state r' = StCompleted /\ num_failures r' = num_failures r /\ failure_message r' = None
      | Some e =>
          failure_message r' = Some (outcome_message v e) /\
          if canceled then row_state r' = StCanceled /\ num_failures r' = num_failures r
          else num_failures r' = (num_failures r + 1)%Z /\
               row_state r' = if IsNonRetryable e || worker_canceled v e || (MaxNumRetries o <=? num_failures r + 1)%Z then StFailed else StErrored
      end
  end.
Proof.
  intros Hd. assert (exists err w', HandlerFunc job w = Done (err, w')) as (err & w' & E).
  { unfold HandlerFunc. destruct (Transact w) as [[e|] w1]; [by eexists _, _|].
    destruct (process_spec job w1) as ([wh err] & ch & w2 & -> & _). cbn [run_bind]. destruct (tx_Done err w2) as [err' w3]. by eexists _, _. }
  exists err, w'. split; [by apply Dequeue_in_process|]. split; [done|]. cbv zeta. unfold worker_handle, mark.
  destruct err as [e|]; [destruct (runtime_error_spec v e) as (e' & -> & -> & -> & ->)|cbn [runtime_error]].
  - unfold MarkFailed, MarkErrored, finish_as. destruct (mark_Err v); [destruct (_ || _); eauto|].
    destruct (IsNonRetryable e), (worker_canceled v e), canceled; cbn; done.
  - destruct (mark_Err v); [eauto|]. done.
Qed.

#[local] Existing Instance plain_runtime.
Definition ex_env : HandleEnv := MkHandleEnv 0 [] None true None (fun _ => []).
Lemma attempt_outcome_witness :
  exists err w', HandlerFunc (SV := ex_services all_well) ex_new [] = Done (err, w') /\
    row_state (worker_handle reconcilerWorkerStoreOpts 2 ex_env err (in_process 1 queued_row None true)).2 = StCompleted.
Proof.
  destruct (attempt_outcome (SV := ex_services all_well) reconcilerWorkerStoreOpts 1 2 ex_env ex_new [] queued_row None true)
    as (err & w' & _ & H & Hr); [reflexivity|].
  exists err, w'. split; [exact H|]. vm_compute in H. injection H as <- <-. exact (proj1 (proj2 (proj2 (proj2 Hr)))).
Defined.

(** A handler that returns the cancellation of its context fails for good; one that
    runs out of its time is retried. *)
Example ex_canceled_fails :
  row_state (worker_handle reconcilerWorkerStoreOpts 2 (MkHandleEnv 0 [] (Some CtxCanceled) true None (fun _ => []))
    (Some (Wrap context_Canceled (str "x"))) (in_process 1 queued_row None false)).2 = StFailed /\
  row_state (worker_handle reconcilerWorkerStoreOpts 2 (MkHandleEnv 1 (str "1ns") (Some CtxDeadlineExceeded) true None (fun _ => []))
    (Some context_DeadlineExceeded) (in_process 1 queued_row None false)).2 = StErrored.
Proof. split; reflexivity. Qed.
