(* ===== verification/Float64.v ===== *)
(** Go's [float64] arithmetic on non-negative numbers, bit by bit with the
    binary64 format of [SpecFloat], and what is needed of its rounding: integers
    below 2^53 are exact, and a quotient, product or difference whose exact value
    is at most such an integer is still at most that integer after rounding, and
    the exact value of a quotient, product or difference is missed by at most a
    stated multiple of 2^-52. *)
From Stdlib Require Import SpecFloat.
From S2P Require Import Prelude GoStr GoLib GoMap.
#[local] Open Scope Z_scope.

(** ** Operations *)

Definition float64 : Type := spec_float.
Definition of_int (n : Z) : float64 := binary_normalize 53 1024 n 0 false.
Definition fmul : float64 -> float64 -> float64 := SFmul 53 1024.
Definition fdiv : float64 -> float64 -> float64 := SFdiv 53 1024.
Definition fsub : float64 -> float64 -> float64 := SFsub 53 1024.
Definition fabs : float64 -> float64 := SFabs.

(** What Go leaves to the platform: the integer that a float outside of the
    64-bit range is converted to. *)
Class FloatConversion := { outside_int64 : float64 -> Z }.

(** [int(f)] and [time.Duration(f)]: the fraction is cut off. *)
Definition to_int {F : FloatConversion} (f : float64) : Z :=
  match f with
  | S754_zero _ => 0
  | S754_finite s m e =>
      let v := cond_Zopp s (if 0 <=? e then Z.pos m * 2 ^ e else Z.pos m / 2 ^ (- e)) in
      if (- 2 ^ 63 <=? v) && (v <? 2 ^ 63) then v else outside_int64 f
  | _ => outside_int64 f
  end.

(** ** Shifts *)

#[local] Instance location_eq_dec : EqDecision location.
Proof. solve_decision. Defined.

Lemma digits2_log2 p : Z.pos (digits2_pos p) = Z.log2 (Z.pos p) + 1.
Proof.
  induction p as [p IH|p IH|]; simpl digits2_pos; [..|done]; rewrite Pos2Z.inj_succ, IH.
  - rewrite (Pos2Z.inj_xI p), Z.log2_succ_double by lia. lia.
  - rewrite (Pos2Z.inj_xO p), Z.log2_double by lia. lia.
Qed.

Lemma Zdigits2_log2 m : 0 < m -> Zdigits2 m = Z.log2 m + 1.
Proof. destruct m; try lia. intros _. apply digits2_log2. Qed.

Lemma Zdigits2_bound m k : 0 <= m -> 0 <= k -> m < 2 ^ k -> Zdigits2 m <= k.
Proof.
  intros Hm Hk Hlt. destruct (decide (m = 0)) as [->|]; [done|]. rewrite Zdigits2_log2 by lia.
  apply Z.log2_lt_pow2 in Hlt; lia.
Qed.

Lemma shr_1_m m r s : 0 <= m -> shr_m (shr_1 (Build_shr_record m r s)) = m / 2.
Proof. intros Hm. destruct m as [|[p|p|]|]; try lia; simpl; Z.to_euclidean_division_equations; lia. Qed.

Lemma shr_1_even m : 0 <= m -> shr_1 (Build_shr_record (2 * m) false false) = Build_shr_record m false false.
Proof. intros Hm. by destruct m as [|p|]; try lia. Qed.

Lemma iter_pos_iter {A} (f : A -> A) p x : SpecFloat.iter_pos f p x = Pos.iter f x p.
Proof. revert x. induction p as [p IH|p IH|]; intros x; simpl; [..|done]; rewrite !IH; [|done].
  rewrite <- !Pos.iter_swap. done.
Qed.

Lemma iter_shr_m p m r s : 0 <= m -> shr_m (SpecFloat.iter_pos shr_1 p (Build_shr_record m r s)) = m / 2 ^ Z.pos p.
Proof.
  intros Hm. rewrite iter_pos_iter. revert p. apply Pos.peano_ind.
  - cbn [Pos.iter]. rewrite shr_1_m by done. f_equal.
  - intros p IH. rewrite Pos.iter_succ. destruct (Pos.iter shr_1 _ p) as [m' r' s'] eqn:E. simpl in IH. subst m'.
    rewrite shr_1_m by (apply Z.div_pos; lia). rewrite Pos2Z.inj_succ, Z.pow_succ_r, Z.mul_comm by lia.
    rewrite Z.div_div by lia. done.
Qed.

Lemma iter_shr_exact p m : 0 <= m ->
  SpecFloat.iter_pos shr_1 p (Build_shr_record (m * 2 ^ Z.pos p) false false) = Build_shr_record m false false.
Proof.
  intros Hm. rewrite iter_pos_iter. revert m Hm. revert p. apply (Pos.peano_ind (fun p => forall m, 0 <= m ->
    Pos.iter shr_1 (Build_shr_record (m * 2 ^ Z.pos p) false false) p = Build_shr_record m false false)).
  - intros m Hm. cbn [Pos.iter]. replace (m * 2 ^ 1) with (2 * m) by lia. by apply shr_1_even.
  - intros p IH m Hm. rewrite Pos.iter_succ. replace (m * 2 ^ Z.pos (Pos.succ p)) with ((2 * m) * 2 ^ Z.pos p).
    + rewrite IH by lia. by apply shr_1_even.
    + rewrite Pos2Z.inj_succ, Z.pow_succ_r by lia. lia.
Qed.

(** ** Rounding *)

(** A non-negative float that is at most the integer [B]. *)
Definition at_most (B : Z) (f : float64) : Prop :=
  match f with
  | S754_zero s => True
  | S754_finite s m e => s = false /\ e <= 0 /\ Z.pos m <= B * 2 ^ (- e)
  | _ => False
  end.

(** The exact value that is rounded: [m] units of [2 ^ e], and more when the
    location is not exact. *)
Definition below (B m e : Z) (l : location) : Prop :=
  0 <= m /\ e <= 0 /\ match l with loc_Exact => m <= B * 2 ^ (- e) | _ => m < B * 2 ^ (- e) end.

Lemma below_shift B m e l : 0 <= B < 2 ^ 53 -> below B m e l -> fexp 53 1024 (Zdigits2 m + e) <= 0.
Proof.
  intros HB (Hm & He & Hl). assert (m <= B * 2 ^ (- e)) as Hle by (destruct l; lia).
  assert (Zdigits2 m <= 53 + - e).
  { apply Zdigits2_bound; [lia..|]. rewrite Z.pow_add_r by lia. pose proof (Z.pow_pos_nonneg 2 (- e)). nia. }
  unfold fexp, emin. lia.
Qed.

Lemma shr_fexp_below B m e l : 0 <= B < 2 ^ 53 -> below B m e l ->
  exists m' e' r s, shr_fexp 53 1024 m e l = (Build_shr_record m' r s, e') /\
    below B m' e' (loc_of_shr_record (Build_shr_record m' r s)).
Proof.
  intros HB Hb. pose proof (below_shift B m e l HB Hb) as Hf. destruct Hb as (Hm & He & Hl). unfold shr_fexp, shr.
  set (n := fexp 53 1024 (Zdigits2 m + e) - e) in *.
  assert (exists r0 s0, shr_record_of_loc m l = Build_shr_record m r0 s0 /\
            loc_of_shr_record (Build_shr_record m r0 s0) = l /\ (l = loc_Exact -> r0 = false /\ s0 = false)) as (r0 & s0 & E & El & Ex).
  { destruct l as [|[]]; do 2 eexists; (split; [reflexivity|]); (split; [reflexivity|]); done. }
  rewrite E. destruct n as [|p|p] eqn:En; [do 4 eexists; split; [done|]; rewrite El; done| |do 4 eexists; split; [done|]; rewrite El; done].
  destruct (SpecFloat.iter_pos shr_1 p _) as [m' r s] eqn:Ei. do 4 eexists. split; [done|].
  assert (m' = m / 2 ^ Z.pos p) as Em by (rewrite <- (iter_shr_m p m r0 s0), Ei by done; done).
  pose proof (Z.pow_pos_nonneg 2 (Z.pos p) ltac:(lia) ltac:(lia)) as Hp.
  assert (- e = - (e + Z.pos p) + Z.pos p) as Hsum by lia. rewrite Hsum, Z.pow_add_r in Hl by lia.
  set (b := B * 2 ^ (- (e + Z.pos p))) in *. rewrite Z.mul_assoc in Hl. fold b in Hl.
  split_and!; [subst m'; apply Z.div_pos; lia|lia|].
  destruct (decide (l = loc_Exact /\ m = m' * 2 ^ Z.pos p)) as [[-> Hd]|Hn].
  - destruct (Ex eq_refl) as [-> ->]. rewrite Hd, iter_shr_exact in Ei by (subst m'; apply Z.div_pos; lia).
    simplify_eq. simpl. fold b. nia.
  - assert (m' * 2 ^ Z.pos p <= m) by (subst m'; rewrite Z.mul_comm; apply Z.mul_div_le; lia).
    assert (m' < b); [|fold b; destruct (loc_of_shr_record (Build_shr_record m' r s)); lia].
    destruct l; [|nia]. assert (m <> m' * 2 ^ Z.pos p) by tauto. nia.
Qed.

Lemma round_at_most B m e l : 0 <= B < 2 ^ 53 -> below B m e l -> at_most B (binary_round_aux 53 1024 false m e l).
Proof.
  intros HB Hb. unfold binary_round_aux.
  destruct (shr_fexp_below B m e l HB Hb) as (m1 & e1 & r1 & s1 & -> & Hb1).
  set (l1 := loc_of_shr_record _) in *. set (m2 := round_nearest_even _ l1).
  assert (below B m2 e1 loc_Exact) as Hb2.
  { subst m2. destruct Hb1 as (H0 & He & Hl). unfold round_nearest_even. simpl.
    destruct l1 as [|[]]; split_and!; try done; try destruct (Z.even m1); lia. }
  destruct (shr_fexp_below B m2 e1 loc_Exact HB Hb2) as (m3 & e3 & r3 & s3 & -> & H0 & He & Hl). cbn [shr_m].
  destruct m3 as [|p|p]; [done| |lia]. rewrite (proj2 (Z.leb_le _ _)) by lia. split_and!; [done..|].
  destruct r3, s3; simpl in Hl; lia.
Qed.

Lemma shl_align_value m e e' : exists m1, shl_align m e e' = (m1, Z.min e e') /\ Z.pos m1 = Z.pos m * 2 ^ (e - Z.min e e').
Proof.
  unfold shl_align. destruct (e' - e) as [|d|d] eqn:E.
  - exists m. replace (Z.min e e') with e by lia. split; [done|]. rewrite Z.sub_diag. lia.
  - exists m. replace (Z.min e e') with e by lia. split; [done|]. rewrite Z.sub_diag. lia.
  - exists (Pos.iter xO m d). replace (Z.min e e') with e' by lia. split; [done|].
    replace (e - e') with (Z.pos d) by lia. clear E. revert d. apply Pos.peano_ind.
    + cbn [Pos.iter]. lia.
    + intros d IH. rewrite Pos.iter_succ, Pos2Z.inj_xO, IH, Pos2Z.inj_succ, Z.pow_succ_r by lia. lia.
Qed.

(** The result of [binary_normalize] on [m * 2 ^ e], which is at most [B]. *)
Lemma normalize_at_most B m e : 0 <= B < 2 ^ 53 -> 0 <= m -> e <= 0 -> m <= B * 2 ^ (- e) ->
  at_most B (binary_normalize 53 1024 m e false).
Proof.
  intros HB Hm He Hle. destruct m as [|m|]; [done| |lia]. simpl. unfold binary_round.
  destruct (shl_align_value m e (fexp 53 1024 (Z.pos (digits2_pos m) + e))) as (m1 & -> & Hm1).
  set (e1 := Z.min e _) in *. apply round_at_most; [done|]. split_and!; [lia|lia|]. rewrite Hm1.
  replace (- e1) with (- e + (e - e1)) by lia. rewrite Z.pow_add_r by lia.
  pose proof (Z.pow_pos_nonneg 2 (e - e1)). nia.
Qed.

(** ** Integers are exact *)

Lemma of_int_exact n : 0 < n < 2 ^ 53 -> exists m e, of_int n = S754_finite false m e /\ e <= 0 /\ Z.pos m = n * 2 ^ (- e).
Proof.
  intros Hn. destruct n as [|n|]; [lia| |lia]. unfold of_int. simpl binary_normalize. unfold binary_round.
  rewrite Z.add_0_r, digits2_log2.
  pose proof (Z.log2_nonneg (Z.pos n)). assert (Z.log2 (Z.pos n) < 53) by (apply Z.log2_lt_pow2; lia).
  destruct (shl_align_value n 0 (fexp 53 1024 (Z.log2 (Z.pos n) + 1))) as (m & -> & Hm).
  replace (Z.min 0 _) with (Z.log2 (Z.pos n) - 52) in * by (unfold fexp, emin; lia).
  assert (forall l, shr_fexp 53 1024 (Z.pos m) (Z.log2 (Z.pos n) - 52) l =
                    (shr_record_of_loc (Z.pos m) l, Z.log2 (Z.pos n) - 52)) as Hshr.
  { intros l. unfold shr_fexp. rewrite Zdigits2_log2, Hm, Z.log2_mul_pow2 by lia.
    replace (fexp 53 1024 _ - _) with 0 by (unfold fexp, emin; lia). done. }
  unfold binary_round_aux. rewrite Hshr. cbn [shr_record_of_loc loc_of_shr_record shr_m round_nearest_even]. rewrite Hshr.
  cbn [shr_record_of_loc shr_m]. rewrite (proj2 (Z.leb_le _ _)) by lia. do 2 eexists. split; [done|]. split; [lia|].
  rewrite Hm. f_equal.
Qed.

Lemma of_int_at_most n : 0 <= n < 2 ^ 53 -> at_most n (of_int n).
Proof. intros Hn. apply normalize_at_most; lia. Qed.

(** ** Operations on bounded floats *)

Lemma fmul_at_most X Y x y : 0 <= X * Y < 2 ^ 53 -> at_most X x -> at_most Y y -> at_most (X * Y) (fmul x y).
Proof.
  intros HB Hx Hy. destruct x as [| | |sx mx ex], y as [| | |sy my ey]; try done.
  destruct Hx as (-> & Hex & Hx), Hy as (-> & Hey & Hy). unfold fmul, SFmul. simpl xorb. apply round_at_most; [done|].
  split_and!; [lia..|]. rewrite Pos2Z.inj_mul. replace (- (ex + ey)) with (- ex + - ey) by lia.
  rewrite Z.pow_add_r by lia. nia.
Qed.

Lemma quotient_below q r d b : 0 <= r < d -> d * q + r <= d * b -> if r =? 0 then q <= b else q < b.
Proof. intros Hr Hv. destruct (Z.eqb_spec r 0); nia. Qed.

Lemma fdiv_at_most B a b : 0 <= B < 2 ^ 53 -> 0 <= a < 2 ^ 53 -> 0 < b < 2 ^ 53 -> a <= B * b ->
  at_most B (fdiv (of_int a) (of_int b)).
Proof.
  intros HB Ha Hb Hle. destruct (of_int_exact b Hb) as (mb & eb & -> & Heb & Hmb).
  destruct (decide (a = 0)) as [->|Hne]; [done|].
  destruct (of_int_exact a ltac:(lia)) as (ma & ea & -> & Hea & Hma). unfold fdiv, SFdiv, SFdiv_core_binary. simpl xorb.
  set (e' := Z.min _ (ea - eb)). assert (e' <= 0) as He'.
  { unfold e'. rewrite !Zdigits2_log2, Hma, Hmb, !Z.log2_mul_pow2 by lia.
    assert (Z.log2 a < 53) by (apply Z.log2_lt_pow2; lia). pose proof (Z.log2_nonneg b).
    unfold fexp, emin. lia. }
  set (s := ea - eb - e'). assert (0 <= s) by (subst s e'; lia).
  replace (match s with Z0 => Z.pos ma | Z.pos _ => Z.shiftl (Z.pos ma) s | Z.neg _ => 0 end) with (Z.pos ma * 2 ^ s)
    by (destruct s; [lia|rewrite Z.shiftl_mul_pow2 by lia; done|lia]).
  pose proof (Z_div_mod (Z.pos ma * 2 ^ s) (Z.pos mb) ltac:(lia)) as Hdm.
  destruct (Z.div_eucl _ _) as [q r]. destruct Hdm as [Hq Hr]. apply round_at_most; [done|].
  assert (Z.pos ma * 2 ^ s <= Z.pos mb * (B * 2 ^ (- e'))) as Hv.
  { rewrite Hma, Hmb, <- Z.mul_assoc, <- Z.pow_add_r by lia. replace (- ea + s) with (- eb + - e') by (subst s; lia).
    rewrite Z.pow_add_r by lia. pose proof (Z.pow_pos_nonneg 2 (- eb)). pose proof (Z.pow_pos_nonneg 2 (- e')).
    transitivity ((B * b) * (2 ^ (- eb) * 2 ^ (- e'))); [apply Z.mul_le_mono_nonneg_r; nia|lia]. }
  split_and!; [|done|].
  - assert (0 <= Z.pos ma * 2 ^ s) by (pose proof (Z.pow_nonneg 2 s); lia). nia.
  - unfold new_location, new_location_even, new_location_odd. rewrite Hq in Hv.
    pose proof (quotient_below q r _ _ Hr Hv) as Hb'.
    destruct (Z.even (Z.pos mb)); revert Hb'; by destruct (Z.eqb_spec r 0).
Qed.

Lemma fsub_one_at_most x : at_most 1 x -> at_most 1 (fsub (of_int 1) x).
Proof.
  intros Hx. destruct (of_int_exact 1 ltac:(lia)) as (m1 & e1 & E & He1 & Hm1). unfold fsub. rewrite E.
  destruct x as [| | |sx mx ex]; try done; [simpl; lia|]. destruct Hx as (-> & Hex & Hx). unfold SFsub.
  destruct (shl_align_value m1 e1 (Z.min e1 ex)) as (a & -> & Ha).
  destruct (shl_align_value mx ex (Z.min e1 ex)) as (b & -> & Hb). cbn [fst cond_Zopp].
  rewrite Ha, Hb, Hm1. replace (Z.min e1 (Z.min e1 ex)) with (Z.min e1 ex) by lia.
  replace (Z.min ex (Z.min e1 ex)) with (Z.min e1 ex) by lia. set (ez := Z.min e1 ex).
  assert (1 * 2 ^ (- e1) * 2 ^ (e1 - ez) = 2 ^ (- ez)) as -> by (rewrite Z.mul_1_l, <- Z.pow_add_r by lia; f_equal; lia).
  assert (Z.pos mx * 2 ^ (ex - ez) <= 2 ^ (- ez)).
  { replace (- ez) with (- ex + (ex - ez)) by lia. rewrite Z.pow_add_r by lia.
    pose proof (Z.pow_pos_nonneg 2 (ex - ez)). nia. }
  apply normalize_at_most; [lia|lia|lia|]. pose proof (Z.pow_nonneg 2 (ex - ez)). nia.
Qed.

Lemma fabs_of_int_opp n : 0 < n < 2 ^ 53 -> fabs (of_int (- n)) = of_int n.
Proof.
  intros Hn. destruct n as [|n|]; [lia| |lia]. change (SFabs (binary_round 53 1024 true n 0) = binary_round 53 1024 false n 0). unfold binary_round.
  destruct (shl_align _ _ _). unfold binary_round_aux. destruct (shr_fexp _ _ _ _ _). destruct (shr_fexp _ _ _ _ _).
  destruct (shr_m _); [done| |done]. by destruct (_ <=? _).
Qed.

Lemma to_int_at_most {F : FloatConversion} B f : 0 <= B < 2 ^ 53 -> at_most B f -> 0 <= to_int f <= B.
Proof.
  intros HB Hf. destruct f as [| | |s m e]; try done; [simpl; lia|]. destruct Hf as (-> & He & Hm). unfold to_int.
  cbn [cond_Zopp]. assert (0 <= (if 0 <=? e then Z.pos m * 2 ^ e else Z.pos m / 2 ^ (- e)) <= B) as Hv.
  { destruct (Z.leb_spec 0 e); [replace e with 0 in * by lia; simpl in *; lia|].
    pose proof (Z.pow_pos_nonneg 2 (- e)). split; [apply Z.div_pos; lia|]. apply Z.div_le_upper_bound; lia. }
  rewrite (proj2 (Z.leb_le _ _)), (proj2 (Z.ltb_lt _ _)) by lia. done.
Qed.

Lemma to_int_zero {F : FloatConversion} b p : 0 < b < 2 ^ 53 -> 0 <= p < 2 ^ 53 ->
  to_int (fmul (fdiv (of_int 0) (of_int b)) (of_int p)) = 0.
Proof.
  intros Hb Hp. destruct (of_int_exact b Hb) as (? & ? & -> & _). destruct (decide (p = 0)) as [->|]; [done|].
  by destruct (of_int_exact p ltac:(lia)) as (? & ? & -> & _).
Qed.

(** ** Rounding errors *)

(** The float is [N / D] up to [d / 2^52]. *)
Definition close (N D d : Z) (f : float64) : Prop :=
  match f with
  | S754_zero _ => Z.abs N * 2 ^ 52 <= d * D
  | S754_finite s m e => s = false /\ e <= 0 /\ Z.abs (Z.pos m * D - N * 2 ^ (- e)) * 2 ^ 52 <= d * D * 2 ^ (- e)
  | _ => False
  end.

(** The same of [m] units of [2 ^ e]. *)
Definition near (N D d m e : Z) : Prop := Z.abs (m * D - N * 2 ^ (- e)) * 2 ^ 52 <= d * D * 2 ^ (- e).

Lemma pow_split e p : e + p <= 0 -> 0 <= p -> 2 ^ (- e) = 2 ^ (- (e + p)) * 2 ^ p.
Proof. intros. rewrite <- Z.pow_add_r by lia. f_equal. lia. Qed.

(** A shift to the precision of the format keeps the number or leaves units that
    are fine enough. *)
Lemma shr_fexp_fine B m e l : 0 < B < 2 ^ 53 -> below B m e l ->
  exists m' e' r s, shr_fexp 53 1024 m e l = (Build_shr_record m' r s, e') /\
    below B m' e' (loc_of_shr_record (Build_shr_record m' r s)) /\
    (m' = m /\ e' = e /\ loc_of_shr_record (Build_shr_record m' r s) = l \/
     exists p, 0 < p /\ e' = e + p /\ e' <= 0 /\ 2 ^ 52 <= B * 2 ^ (- e') /\ m' * 2 ^ p <= m < (m' + 1) * 2 ^ p).
Proof.
  intros HB Hb. pose proof (below_shift B m e l ltac:(lia) Hb) as Hf.
  destruct (shr_fexp_below B m e l ltac:(lia) Hb) as (m' & e' & r & s & E & Hb'). exists m', e', r, s. split_and!; [done..|].
  destruct Hb as (Hm & He & Hl). unfold shr_fexp, shr in E.
  assert (m <= B * 2 ^ (- e)) as Hle by (destruct l; lia).
  assert (exists r0 s0, shr_record_of_loc m l = Build_shr_record m r0 s0 /\ loc_of_shr_record (Build_shr_record m r0 s0) = l) as (r0 & s0 & Er & El).
  { destruct l as [|[]]; do 2 eexists; split; reflexivity. }
  rewrite Er in E. destruct (fexp 53 1024 (Zdigits2 m + e) - e) as [|p|p] eqn:En; [left|right|left].
  1, 3: simplify_eq; auto.
  assert (m' = m / 2 ^ Z.pos p /\ e' = e + Z.pos p) as [Hm' ->].
  { destruct (SpecFloat.iter_pos shr_1 p _) as [? ? ?] eqn:Ei. simplify_eq. split; [|done].
    rewrite <- (iter_shr_m p m r0 s0) by done. by rewrite Ei. }
  exists (Z.pos p). pose proof (Z.pow_pos_nonneg 2 (Z.pos p) ltac:(lia) ltac:(lia)) as Hp.
  split_and!; [lia..| | |].
  - rewrite (pow_split e (Z.pos p)) in Hle by lia. pose proof (Z.pow_pos_nonneg 2 (- (e + Z.pos p)) ltac:(lia) ltac:(lia)).
    unfold fexp, emin in En. destruct (Z.max_spec (Zdigits2 m + e - 53) (3 - 1024 - 53)) as [[_ Ex]|[_ Ex]]; rewrite Ex in En.
    + replace (- (e + Z.pos p)) with 1074 by lia. transitivity (1 * 2 ^ 1074); [|apply Z.mul_le_mono_nonneg_r; lia].
      rewrite Z.mul_1_l. apply Z.pow_le_mono_r; lia.
    + assert (m <> 0) by (intros ->; simpl in *; lia). rewrite Zdigits2_log2 in En by lia.
      pose proof (proj1 (Z.log2_spec m ltac:(lia))) as Hlog. replace (Z.log2 m) with (52 + Z.pos p) in Hlog by lia.
      rewrite Z.pow_add_r in Hlog by lia. apply (Z.mul_le_mono_pos_r _ _ (2 ^ Z.pos p)); [lia|]. lia.
  - subst m'. rewrite Z.mul_comm. apply Z.mul_div_le. lia.
  - subst m'. rewrite Z.mul_comm, Z.add_1_r. apply Z.mul_succ_div_gt. lia.
Qed.

Lemma near_shift N D d d' m e m' p : 0 < D -> 0 < p -> e + p <= 0 ->
  near N D d m e -> 2 ^ 52 <= d' * 2 ^ (- (e + p)) -> m' * 2 ^ p <= m < (m' + 1) * 2 ^ p -> near N D (d + d') m' (e + p).
Proof.
  intros HD Hp He Hn Hfine Hm. unfold near in *. rewrite (pow_split e p) in Hn by lia.
  pose proof (Z.pow_pos_nonneg 2 p ltac:(lia) ltac:(lia)). set (E := 2 ^ (- (e + p))) in *. set (P := 2 ^ p) in *.
  apply (Z.mul_le_mono_pos_r _ _ P); [lia|].
  assert (Z.abs (m' * D - N * E) * P <= Z.abs (m * D - N * (E * P)) + D * P) as Ht by nia.
  transitivity ((Z.abs (m * D - N * (E * P)) + D * P) * 2 ^ 52); [lia|].
  rewrite Z.mul_add_distr_r. assert (D * P * 2 ^ 52 <= D * P * (d' * E)) by (apply Z.mul_le_mono_nonneg_l; nia). lia.
Qed.

(** Rounding the value [N / D], which has [m] units of [2 ^ e] in front of it. *)
Lemma round_close B N D m e l : 0 < B < 2 ^ 53 -> 0 < D -> below B m e l ->
  m * D <= N * 2 ^ (- e) <= (m + 1) * D -> (l = loc_Exact -> N * 2 ^ (- e) = m * D) ->
  (l = loc_Exact \/ 2 ^ 52 <= B * 2 ^ (- e)) -> close N D (2 * B) (binary_round_aux 53 1024 false m e l).
Proof.
  intros HB HD Hb Hloc Hex Hfine. unfold binary_round_aux.
  destruct (shr_fexp_fine B m e l HB Hb) as (m1 & e1 & r1 & s1 & -> & Hb1 & Hs1).
  set (l1 := loc_of_shr_record _) in *.
  assert (l1 = loc_Exact /\ near N D 0 m1 e1 \/ 2 ^ 52 <= B * 2 ^ (- e1) /\ m1 * D <= N * 2 ^ (- e1) <= (m1 + 1) * D) as H1.
  { destruct Hs1 as [(-> & -> & ->)|(p & Hp & -> & He & Hf & Hm)].
    - destruct Hfine as [El|Hf]; [left; split; [done|]; unfold near; rewrite Hex by done; rewrite Z.sub_diag; simpl; lia|right; done].
    - right. split; [done|]. rewrite (pow_split e p) in Hloc by lia. pose proof (Z.pow_pos_nonneg 2 p ltac:(lia) ltac:(lia)). nia. }
  cbn [shr_m]. set (m2 := round_nearest_even m1 l1).
  assert (below B m2 e1 loc_Exact /\ near N D B m2 e1) as [Hb2 Hn2].
  { destruct Hb1 as (H0 & He & Hl). assert (m2 = m1 \/ m2 = m1 + 1 /\ l1 <> loc_Exact) as Hm2.
    { subst m2. unfold round_nearest_even. destruct l1 as [|[]]; [by left|destruct (Z.even m1); auto|auto|auto]. }
    pose proof (Z.pow_pos_nonneg 2 (- e1) ltac:(lia) ltac:(lia)).
    split; [split_and!; [lia|done|]; destruct Hm2 as [->|[-> ?]]; destruct l1; try done; lia|].
    destruct H1 as [[E1 Hn]|[Hf Hl1]].
    - destruct Hm2 as [->|[-> ?]]; [|done]. unfold near in *. nia.
    - unfold near. assert (Z.abs (m2 * D - N * 2 ^ (- e1)) <= D) by (destruct Hm2 as [->|[-> ?]]; lia). nia. }
  destruct (shr_fexp_fine B m2 e1 loc_Exact HB Hb2) as (m3 & e3 & r3 & s3 & -> & (H0 & He & _) & Hs3). cbn [shr_m].
  assert (near N D (2 * B) m3 e3) as Hn3.
  { destruct Hs3 as [(-> & -> & _)|(p & Hp & -> & He3 & Hf & Hm)].
    - unfold near in *. pose proof (Z.pow_pos_nonneg 2 (- e1) ltac:(lia) ltac:(lia)). assert (0 <= B * D * 2 ^ (- e1)) by nia. lia.
    - replace (2 * B) with (B + B) by lia. by eapply near_shift. }
  pose proof (Z.pow_pos_nonneg 2 (- e3) ltac:(lia) ltac:(lia)).
  destruct m3 as [|q|q]; [| |lia].
  - unfold near in Hn3. unfold close. rewrite Z.mul_0_l, Z.sub_0_l, Z.abs_opp, Z.abs_mul, (Z.abs_eq (2 ^ _)) in Hn3 by lia. nia.
  - rewrite (proj2 (Z.leb_le _ _)) by lia. done.
Qed.

Lemma close_trans N D d N' D' d' f : 0 < D -> 0 < D' ->
  close N D d f -> Z.abs (N * D' - N' * D) * 2 ^ 52 <= d' * D * D' -> close N' D' (d + d') f.
Proof.
  intros HD HD' Hc Hd. destruct f as [| | |s m e]; try done.
  - simpl in *. apply (Z.mul_le_mono_pos_r _ _ D); [lia|]. assert (Z.abs N' * D <= Z.abs N * D' + Z.abs (N * D' - N' * D)) by nia. nia.
  - destruct Hc as (-> & He & Hc). split_and!; [done..|]. pose proof (Z.pow_pos_nonneg 2 (- e) ltac:(lia) ltac:(lia)).
    set (E := 2 ^ (- e)) in *. apply (Z.mul_le_mono_pos_r _ _ D); [lia|].
    assert (Z.abs (Z.pos m * D' - N' * E) * D <= Z.abs (Z.pos m * D - N * E) * D' + Z.abs (N * D' - N' * D) * E) as Ht by nia.
    transitivity ((Z.abs (Z.pos m * D - N * E) * D' + Z.abs (N * D' - N' * D) * E) * 2 ^ 52); [nia|].
    assert (Z.abs (Z.pos m * D - N * E) * 2 ^ 52 * D' <= d * D * E * D') by (apply Z.mul_le_mono_nonneg_r; lia).
    assert (Z.abs (N * D' - N' * D) * 2 ^ 52 * E <= d' * D * D' * E) by (apply Z.mul_le_mono_nonneg_r; lia). lia.
Qed.

Lemma fmul_comm x y : fmul x y = fmul y x.
Proof. destruct x as [s|s| |s m e], y as [s'|s'| |s' m' e']; simpl; rewrite ?(xorb_comm s s'), ?(Pos.mul_comm m m'), ?(Z.add_comm e e'); done. Qed.

Lemma fdiv_close B a b : 0 < B < 2 ^ 53 -> 0 <= a < 2 ^ 53 -> 0 < b < 2 ^ 53 -> a <= B * b ->
  close a b (2 * B) (fdiv (of_int a) (of_int b)).
Proof.
  intros HB Ha Hb Hle. destruct (of_int_exact b Hb) as (mb & eb & Eb & Heb & Hmb).
  destruct (decide (a = 0)) as [->|Hne]; [rewrite Eb; simpl; lia|].
  destruct (of_int_exact a ltac:(lia)) as (ma & ea & Ea & Hea & Hma). rewrite Ea, Eb. unfold fdiv, SFdiv, SFdiv_core_binary. simpl xorb.
  set (e' := Z.min _ (ea - eb)).
  assert (e' <= fexp 53 1024 (Z.log2 a - Z.log2 b)) as Hfe.
  { unfold e'. rewrite !Zdigits2_log2, Hma, Hmb, !Z.log2_mul_pow2 by lia. etransitivity; [apply Z.le_min_l|].
    apply Z.eq_le_incl. f_equal. lia. }
  assert (e' <= 0) as He'.
  { assert (Z.log2 a < 53) by (apply Z.log2_lt_pow2; lia). pose proof (Z.log2_nonneg b). unfold fexp, emin in Hfe. lia. }
  set (s := ea - eb - e'). assert (0 <= s) by (subst s e'; lia).
  replace (match s with Z0 => Z.pos ma | Z.pos _ => Z.shiftl (Z.pos ma) s | Z.neg _ => 0 end) with (Z.pos ma * 2 ^ s)
    by (destruct s; [lia|rewrite Z.shiftl_mul_pow2 by lia; done|lia]).
  pose proof (Z_div_mod (Z.pos ma * 2 ^ s) (Z.pos mb) ltac:(lia)) as Hdm.
  destruct (Z.div_eucl _ _) as [q r]. destruct Hdm as [Hq Hr].
  pose proof (Z.pow_pos_nonneg 2 (- eb) ltac:(lia) ltac:(lia)) as Pb. pose proof (Z.pow_pos_nonneg 2 (- e') ltac:(lia) ltac:(lia)) as Pe.
  assert (a * 2 ^ (- e') * 2 ^ (- eb) = b * 2 ^ (- eb) * q + r) as Hv.
  { rewrite <- Hmb, <- Hq, Hma, <- !Z.mul_assoc, <- !Z.pow_add_r by lia. do 2 f_equal. subst s. lia. }
  rewrite Hmb in Hr. assert (0 <= q) by nia.
  assert (b * 2 ^ (- eb) * q + r <= b * 2 ^ (- eb) * (B * 2 ^ (- e'))) as Hv'.
  { rewrite <- Hv. transitivity ((B * b) * (2 ^ (- e') * 2 ^ (- eb))); [rewrite <- Z.mul_assoc; apply Z.mul_le_mono_nonneg_r; nia|lia]. }
  assert (new_location (Z.pos mb) r = loc_Exact -> r = 0) as Hexact.
  { unfold new_location, new_location_even, new_location_odd. destruct (Z.even _), (Z.eqb_spec r 0); try done; by destruct (_ ?= _). }
  apply round_close; [done|lia| | | |].
  - split_and!; [done..|]. pose proof (quotient_below q r _ _ Hr Hv') as Hb'. 
    unfold new_location, new_location_even, new_location_odd. destruct (Z.even _); revert Hb'; by destruct (Z.eqb_spec r 0).
  - nia.
  - intros ->%Hexact. nia.
  - right. set (k := Z.log2 a - Z.log2 b - 53).
    pose proof (Z.log2_spec a ltac:(lia)) as [Hla _]. pose proof (Z.log2_spec b ltac:(lia)) as [_ Hlb].
    assert (Z.log2 a < 53) by (apply Z.log2_lt_pow2; lia). assert (Z.log2 b < 53) by (apply Z.log2_lt_pow2; lia).
    pose proof (Z.log2_nonneg a). pose proof (Z.log2_nonneg b).
    assert (e' <= k) by (unfold fexp, emin in Hfe; lia).
    assert (2 ^ (- k) <= 2 ^ (- e')) as Hk by (apply Z.pow_le_mono_r; lia).
    transitivity (B * 2 ^ (- k)); [|apply Z.mul_le_mono_nonneg_l; lia].
    pose proof (Z.pow_pos_nonneg 2 (- k) ltac:(lia) ltac:(lia)). pose proof (Z.pow_pos_nonneg 2 (Z.succ (Z.log2 b)) ltac:(lia) ltac:(lia)).
    apply (Z.mul_le_mono_pos_r _ _ (2 ^ Z.succ (Z.log2 b))); [done|].
    assert (2 ^ 52 * 2 ^ Z.succ (Z.log2 b) = 2 ^ Z.log2 a * 2 ^ (- k)) as -> by (rewrite <- !Z.pow_add_r by lia; f_equal; lia).
    transitivity (B * b * 2 ^ (- k)); [apply Z.mul_le_mono_nonneg_r; lia|]. nia.
Qed.

(** Exact arithmetic, and the error of its rounding. *)
Lemma exact_close B m e : 0 < B < 2 ^ 53 -> 0 <= m -> e <= 0 -> m <= B * 2 ^ (- e) ->
  close m (2 ^ (- e)) (2 * B) (binary_round_aux 53 1024 false m e loc_Exact).
Proof.
  intros HB Hm He Hle. pose proof (Z.pow_pos_nonneg 2 (- e) ltac:(lia) ltac:(lia)).
  apply round_close; [done|done|by split_and!|nia|nia|by left].
Qed.

(** The product with an integer. *)
Lemma fmul_close n Y N D d y : 0 < n * Y < 2 ^ 53 -> 0 < n < 2 ^ 53 -> 0 < D -> at_most Y y -> close N D d y ->
  close (n * N) D (2 * (n * Y) + n * d) (fmul (of_int n) y).
Proof.
  intros HB Hn HD Hy Hc. destruct (of_int_exact n Hn) as (mx & ex & -> & Hex & Hmx).
  destruct y as [s| | |s my ey]; try done.
  - simpl in *. rewrite Z.abs_mul, (Z.abs_eq n) by lia. nia.
  - destruct Hy as (-> & Hey & Hy), Hc as (_ & _ & Hc). unfold fmul, SFmul. simpl xorb.
    pose proof (Z.pow_pos_nonneg 2 (- ex) ltac:(lia) ltac:(lia)). pose proof (Z.pow_pos_nonneg 2 (- ey) ltac:(lia) ltac:(lia)).
    assert (2 ^ (- (ex + ey)) = 2 ^ (- ex) * 2 ^ (- ey)) as Hpow by (rewrite <- Z.pow_add_r by lia; f_equal; lia).
    eapply close_trans; [| |apply exact_close; [done|lia|lia|]|]; rewrite ?Hpow, ?Pos2Z.inj_mul, ?Hmx; [nia|done|nia|].
    set (Ex := 2 ^ (- ex)) in *. set (Ey := 2 ^ (- ey)) in *.
    replace (n * Ex * Z.pos my * D - n * N * (Ex * Ey)) with (n * Ex * (Z.pos my * D - N * Ey)) by lia.
    rewrite Z.abs_mul, (Z.abs_eq (n * Ex)) by nia.
    transitivity (n * Ex * (d * D * Ey)); [|lia]. rewrite <- Z.mul_assoc. apply Z.mul_le_mono_nonneg_l; nia.
Qed.

Lemma normalize_close B m e : 0 < B < 2 ^ 53 -> 0 <= m -> e <= 0 -> m <= B * 2 ^ (- e) ->
  close m (2 ^ (- e)) (2 * B) (binary_normalize 53 1024 m e false).
Proof.
  intros HB Hm He Hle. pose proof (Z.pow_pos_nonneg 2 (- e) ltac:(lia) ltac:(lia)).
  destruct m as [|m|]; [simpl; nia| |lia]. simpl binary_normalize. unfold binary_round.
  destruct (shl_align_value m e (fexp 53 1024 (Z.pos (digits2_pos m) + e))) as (m1 & -> & Hm1).
  set (e1 := Z.min e _) in *. pose proof (Z.pow_pos_nonneg 2 (e - e1) ltac:(lia) ltac:(lia)).
  assert (2 ^ (- e1) = 2 ^ (- e) * 2 ^ (e - e1)) as Hpow by (rewrite <- Z.pow_add_r by lia; f_equal; lia).
  rewrite <- (Z.add_0_r (2 * B)). eapply close_trans; [| |apply exact_close; [done|lia|lia|]|]; rewrite ?Hpow, ?Hm1; [nia|lia|nia|].
  rewrite (Z.mul_comm (2 ^ (- e))), Z.mul_assoc, Z.sub_diag. simpl. nia.
Qed.

Lemma fsub_one_close N D d x : 0 < D -> at_most 1 x -> close N D d x -> close (D - N) D (2 + d) (fsub (of_int 1) x).
Proof.
  intros HD Hx Hc. destruct (of_int_exact 1 ltac:(lia)) as (m1 & e1 & E & He1 & Hm1). unfold fsub. rewrite E.
  pose proof (Z.pow_pos_nonneg 2 (- e1) ltac:(lia) ltac:(lia)).
  destruct x as [| | |sx mx ex]; try done.
  - simpl in *. split_and!; [done..|]. rewrite Hm1. replace (1 * 2 ^ (- e1) * D - (D - N) * 2 ^ (- e1)) with (N * 2 ^ (- e1)) by lia.
    rewrite Z.abs_mul, (Z.abs_eq (2 ^ _)) by lia. nia.
  - destruct Hx as (-> & Hex & Hx), Hc as (_ & _ & Hc). unfold SFsub.
    destruct (shl_align_value m1 e1 (Z.min e1 ex)) as (a & -> & Ha).
    destruct (shl_align_value mx ex (Z.min e1 ex)) as (b & -> & Hb). cbn [fst cond_Zopp].
    rewrite Ha, Hb, Hm1. replace (Z.min e1 (Z.min e1 ex)) with (Z.min e1 ex) by lia.
    replace (Z.min ex (Z.min e1 ex)) with (Z.min e1 ex) by lia. set (ez := Z.min e1 ex).
    assert (1 * 2 ^ (- e1) * 2 ^ (e1 - ez) = 2 ^ (- ez)) as -> by (rewrite Z.mul_1_l, <- Z.pow_add_r by lia; f_equal; lia).
    pose proof (Z.pow_pos_nonneg 2 (ex - ez) ltac:(lia) ltac:(lia)). pose proof (Z.pow_pos_nonneg 2 (- ex) ltac:(lia) ltac:(lia)).
    assert (2 ^ (- ez) = 2 ^ (- ex) * 2 ^ (ex - ez)) as Hpow by (rewrite <- Z.pow_add_r by lia; f_equal; lia).
    set (P := 2 ^ (ex - ez)) in *. set (E' := 2 ^ (- ex)) in *. replace 2 with (2 * 1) at 1 by lia.
    eapply close_trans; [| |apply normalize_close; [lia| |lia|]|]; rewrite ?Hpow; [nia|done|nia|nia|].
    replace ((E' * P - Z.pos mx * P) * D - (D - N) * (E' * P)) with (- (P * (Z.pos mx * D - N * E'))) by lia.
    rewrite Z.abs_opp, Z.abs_mul, (Z.abs_eq P) by lia. transitivity (P * (d * D * E')); [|lia].
    rewrite <- Z.mul_assoc. apply Z.mul_le_mono_nonneg_l; lia.
Qed.

(** Cutting off the fraction: less than two units away when the error is less than one. *)
Lemma to_int_close {F : FloatConversion} B N D d f : 0 <= B < 2 ^ 53 -> 0 < D -> d < 2 ^ 52 -> at_most B f -> close N D d f ->
  Z.abs (to_int f * D - N) < 2 * D.
Proof.
  intros HB HD Hd Hf Hc. pose proof (to_int_at_most B f HB Hf) as Hr. destruct f as [| | |s m e]; try done.
  - simpl in *. nia.
  - destruct Hc as (-> & He & Hc). unfold to_int in *. cbn [cond_Zopp] in *.
    set (v := if 0 <=? e then _ else _) in *.
    pose proof (Z.pow_pos_nonneg 2 (- e) ltac:(lia) ltac:(lia)). set (E := 2 ^ (- e)) in *.
    assert (v * E <= Z.pos m < (v + 1) * E) as Hv.
    { subst v. destruct (Z.leb_spec 0 e); [subst E; replace e with 0 in * by lia; simpl; lia|]. fold E.
      pose proof (Z.mul_div_le (Z.pos m) E ltac:(lia)). pose proof (Z.mul_succ_div_gt (Z.pos m) E ltac:(lia)). lia. }
    assert (v <= B).
    { destruct Hf as (_ & _ & Hm). apply (Z.mul_le_mono_pos_r _ _ E); [done|]. fold E in Hm. lia. }
    assert (0 <= v) by nia. rewrite (proj2 (Z.leb_le _ _)), (proj2 (Z.ltb_lt _ _)) by lia. cbn [andb].
    apply (Z.mul_lt_mono_pos_r E); [done|].
    assert (Z.abs (Z.pos m * D - N * E) < D * E) by nia. 
    assert (Z.abs (v * D - N) * E <= Z.abs (Z.pos m * D - N * E) + D * E) by nia. lia.
Qed.
