(* ===== verification/Window.v ===== *)
(** The rollout windows of batch changes:
    [enterprise/internal/batches/types/scheduler/window], that is, the sets of
    weekdays, times of day, rates, windows, schedules and the configuration with
    its estimates, and the parser of the site configuration.

    A time is the number of nanoseconds since January 1 of year 1 in UTC, and a
    location gives the offset from UTC in force at a time.  Only the time that is
    passed in has a location of its own; the times that the code builds with
    [time.Date] are in UTC.  The rate limiter is a third-party
    package: a schedule keeps how it was made, and [Limiters] is what it
    answers. *)
From S2P Require Import Prelude GoStr GoLib GoMap ChangesetHistory Float64.
#[local] Open Scope Z_scope.

(** ** Times and durations *)

Definition Second : Z := 10 ^ 9.
Definition Minute : Z := 60 * Second.
Definition Hour : Z := 60 * Minute.
Definition Day : Z := 24 * Hour.
Definition Week : Z := 7 * Day.

Definition Location : Type := Z -> Z.
Definition UTC : Location := fun _ => 0.

Section Clock.
Context (loc : Location).
(** The wall clock of the location. *)
Definition wall (t : Z) : Z := t + loc t.
Definition time_Hour (t : Z) : Z := wall t mod Day / Hour.
Definition time_Minute (t : Z) : Z := wall t mod Hour / Minute.
(** January 1 of year 1 is a Monday, [time.Sunday] is zero. *)
Definition time_Weekday (t : Z) : Z := (wall t / Day + 1) mod 7.
(** [time.Date(t.Year(), t.Month(), t.Day(), hour, minute, 0, 0, time.UTC)]. *)
Definition time_Date (t hour minute : Z) : Z := wall t / Day * Day + hour * Hour + minute * Minute.
End Clock.

(** [t.Truncate(d)], which counts from the zero time and not on the wall clock. *)
Definition time_Truncate (t d : Z) : Z := t - t mod d.

(** ** Sets of weekdays *)

Definition weekdaySet : Type := Z.
Definition wrap8 (n : Z) : Z := (n + 2 ^ 7) mod 2 ^ 8 - 2 ^ 7.
Definition weekdayToBit (day : Z) : weekdaySet := wrap8 (Z.shiftl 1 day).
Definition ws_add (ws : weekdaySet) (day : Z) : weekdaySet := Z.lor ws (weekdayToBit day).
Definition newWeekdaySet (days : list Z) : weekdaySet := fold_left ws_add days 0.
Definition ws_all (ws : weekdaySet) : bool := (ws =? 0) || (ws =? 127).
Definition ws_includes (ws : weekdaySet) (day : Z) : bool :=
  if ws_all ws then true else negb (Z.land ws (weekdayToBit day) =? 0).

(** ** Times of day *)

Record timeOfDay := MkTimeOfDay { tod_hour : Z; tod_minute : Z; tod_cmp : Z }.
Definition timeOfDayFromParts (hour minute : Z) : timeOfDay := MkTimeOfDay hour minute (hour * 60 + minute).
Definition timeOfDayFromTime (loc : Location) (t : Z) : timeOfDay :=
  timeOfDayFromParts (wrap8 (time_Hour loc t)) (wrap8 (time_Minute loc t)).
Definition tod_after (t other : timeOfDay) : bool := tod_cmp other <? tod_cmp t.
Definition tod_before (t other : timeOfDay) : bool := tod_cmp t <? tod_cmp other.

(** ** Rates *)

Definition rateUnit : Type := Z.
Definition ratePerSecond : rateUnit := 0.
Definition ratePerMinute : rateUnit := 1.
Definition ratePerHour : rateUnit := 2.
Record rate := MkRate { rate_n : Z; rate_unit : rateUnit }.
Definition makeUnlimitedRate : rate := MkRate (-1) ratePerSecond.
Definition IsUnlimited (r : rate) : bool := rate_n r =? -1.
Definition AsDuration (ru : rateUnit) : run Z :=
  if ru =? ratePerSecond then Done Second
  else if ru =? ratePerMinute then Done Minute
  else if ru =? ratePerHour then Done Hour
  else Panics "invalid rateUnit value".

(** ** Windows *)

Record Window := MkWindow { w_days : weekdaySet; w_start : option timeOfDay; w_end : option timeOfDay; w_rate : rate }.

Definition covers (w : Window) (when : timeOfDay) : bool :=
  match w_start w, w_end w with
  | Some s, Some e => negb (tod_before when s || tod_after when e)
  | _, _ => true
  end.

Definition IsOpen (loc : Location) (w : Window) (at_ : Z) : bool :=
  ws_includes (w_days w) (time_Weekday loc at_) && covers w (timeOfDayFromTime loc at_).

(** The loop of [NextOpenAfter]; [when] is in UTC. *)
Fixpoint next_open_loop (fuel : nat) (days : weekdaySet) (after when : Z) : run Z :=
  match fuel with
  | O => OutOfFuel
  | S fuel =>
      if ws_includes days (time_Weekday UTC when) && (after <? when) then Done when
      else if Week <? time_Sub when after
      then Panics "cannot find the next time this window is active after searching the next week"
      else next_open_loop fuel days after (when + Day)
  end.
(** A week of days, with the two that the location may move the date by. *)
Definition next_open_fuel : nat := 10.

Definition NextOpenAfter (loc : Location) (w : Window) (after : Z) : run Z :=
  if IsOpen loc w after then Done after
  else
    let '(h, m) := match w_start w with Some t => (tod_hour t, tod_minute t) | None => (0, 0) end in
    next_open_loop next_open_fuel (w_days w) after (time_Date loc after h m).

(** ** Schedules *)

(** [ratelimit.NewUnlimited()] and [ratelimit.New(n, ratelimit.Per(d))]. *)
Inductive Limiter := NewUnlimited | NewLimiter (n per : Z).
Class Limiters := { limiter_Take : Limiter -> Z }.

Record Schedule := MkSchedule { s_limiter : option Limiter; s_until : Z; s_duration : Z; s_rate : rate }.

Definition newSchedule (base d : Z) (r : rate) : run Schedule :=
  let! limiter :=
    if IsUnlimited r then Done (Some NewUnlimited)
    else if 0 <? rate_n r then let! per := AsDuration (rate_unit r) in Done (Some (NewLimiter (rate_n r) per))
    else Done None in
  Done (MkSchedule limiter (base + d) d r).

Definition ErrZeroSchedule : gostring := str "schedule will never yield".
Definition Take {L : Limiters} (s : Schedule) : result gostring Z :=
  match s_limiter s with None => Err ErrZeroSchedule | Some l => Ok (limiter_Take l) end.
Definition ValidUntil (s : Schedule) : Z := s_until s.

Definition total {F : FloatConversion} (s : Schedule) : run Z :=
  match s_limiter s with
  | None => Done 0
  | Some _ =>
      if IsUnlimited (s_rate s) then Done (-1)
      else
        let! unit := AsDuration (rate_unit (s_rate s)) in
        let perHour := wrap64 (rate_n (s_rate s) * Z.quot Hour unit) in
        let inAnHour := fdiv (of_int (s_duration s)) (of_int Hour) in
        Done (to_int (fmul inAnHour (of_int perHour)))
  end.

(** ** The configuration *)

Record Configuration := MkConfiguration { windows : list Window }.

Definition HasRolloutWindows (cfg : Configuration) : bool := negb (Nat.eqb (length (windows cfg)) 0).

(** The windows after the last one that is open, with that window in front. *)
Fixpoint from_last_open (loc : Location) (ws : list Window) (now : Z) : option (Window * list Window) :=
  match ws with
  | [] => None
  | w :: ws =>
      match from_last_open loc ws now with
      | Some found => Some found
      | None => if IsOpen loc w now then Some (w, ws) else None
      end
  end.

(** The loop that looks for the end of a window that is limited to some days. *)
Fixpoint day_end_loop (fuel : nat) (loc : Location) (days : weekdaySet) (now start : Z) : run Z :=
  match fuel with
  | O => OutOfFuel
  | S fuel =>
      let start := start + Day in
      if negb (ws_includes days (time_Weekday loc start)) then Done start
      else if now + Week <? start then Panics "could not find end of a day-limited window in the next week"
      else day_end_loop fuel loc days now start
  end.
Definition day_end_fuel : nat := 10.

(** One turn of the loops that keep the earliest opening. *)
Definition keep_earliest (loc : Location) (now : Z) (next : option Z) (w : Window) : run (option Z) :=
  let! at_ := NextOpenAfter loc w now in
  Done (match next with None => Some at_ | Some n => Some (if at_ <? n then at_ else n) end).

Definition windowFor (loc : Location) (cfg : Configuration) (now : Z) : run (option Window * option Z) :=
  if Nat.eqb (length (windows cfg)) 0 then Done (None, None)
  else
    match from_last_open loc (windows cfg) now with
    | None =>
        let! next := run_fold (keep_earliest loc now) (windows cfg) None in
        Done (None, (fun n => time_Sub n now) <$> next)
    | Some (window, later) =>
        let! end_ :=
          match w_end window with
          | None =>
              if negb (ws_all (w_days window)) then
                let! e := day_end_loop day_end_fuel loc (w_days window) now (time_Truncate now Day) in Done (Some e)
              else Done None
          | Some e => Done (Some (time_Date loc now (tod_hour e) (tod_minute e)))
          end in
        let! end_ := run_fold (keep_earliest loc now) later end_ in
        Done (Some window, (fun e => time_Sub e now) <$> end_)
    end.

Definition scheduleAt (loc : Location) (cfg : Configuration) (at_ : Z) : run Schedule :=
  let! ' (window, validity) := windowFor loc cfg at_ in
  match window with
  | None =>
      match validity with
      | Some d => newSchedule at_ d (MkRate 0 ratePerSecond)
      | None => newSchedule at_ (1 * Minute) (MkRate 0 ratePerSecond)
      end
  | Some w =>
      match validity with
      | None => newSchedule at_ (24 * Hour) (w_rate w)
      | Some d => newSchedule at_ d (w_rate w)
      end
  end.

(** [now] is [time.Now()], in the local time zone of the process. *)
Definition Configuration_Schedule (loc : Location) (cfg : Configuration) (now : Z) : run Schedule :=
  if negb (HasRolloutWindows cfg) then newSchedule now (10 * Minute) (MkRate (-1) ratePerSecond)
  else scheduleAt loc cfg now.

(** ** Estimates *)
Section Estimates.
Context {F : FloatConversion} (loc : Location) (cfg : Configuration).

Fixpoint estimate_loop (fuel : nat) (until at_ rem : Z) : run (option Z) :=
  match fuel with
  | O => OutOfFuel
  | S fuel =>
      if negb (at_ <? until) then Done None
      else
        let! schedule := scheduleAt loc cfg at_ in
        let! total := total schedule in
        if total =? -1 then Done (Some at_)
        else if total =? 0 then estimate_loop fuel until (ValidUntil schedule) rem
        else
          let rem := wrap64 (rem - total) in
          if rem <? 0 then
            let perc := fsub (of_int 1) (fdiv (fabs (of_int rem)) (of_int total)) in
            let duration := to_int (fmul (of_int (time_Sub (ValidUntil schedule) at_)) perc) in
            Done (Some (at_ + duration))
          else if rem =? 0 then Done (Some (ValidUntil schedule))
          else estimate_loop fuel until (ValidUntil schedule) rem
  end.

Definition Estimate (fuel : nat) (now n : Z) : run (option Z) :=
  if negb (HasRolloutWindows cfg) then Done (Some now)
  else estimate_loop fuel (now + 7 * 24 * Hour) now n.
End Estimates.

(** ** The site configuration *)

(** [schema.BatchChangeRolloutWindow.Rate], a value of any type.  A number of a
    JSON document is a [float64]. *)
Inductive RawRate := RawInt (v : Z) | RawString (v : gostring) | RawOther (type_name : gostring).
Record BatchChangeRolloutWindow := MkRawWindow {
  raw_Days : list gostring; raw_End : gostring; raw_Rate : RawRate; raw_Start : gostring }.

(** [strings.SplitN(s, sep, 2)] with a one-byte separator. *)
Definition SplitN2 (s : gostring) (sep : Z) : list gostring :=
  match Index s [sep] with None => [s] | Some i => [take i s; drop (S i) s] end.

Section Parse.
Context {U : UnicodeTables}.

Definition malformed (what raw : gostring) : gostring := (str "malformed " ++ what ++ str ": " ++ Quote raw)%list.

Definition parseTimePart (s : gostring) : option Z :=
  match ParseInt s 8 with NumOk part => Some (wrap8 part) | _ => None end.

Definition parseWindowTime (raw : gostring) : result gostring (option timeOfDay) :=
  if gs_eqb raw [] then Ok None
  else
    match SplitN2 raw 58 with
    | [p0; p1] =>
        match parseTimePart p0 with
        | None => Err (malformed (str "time") raw)
        | Some hour =>
            if (hour <? 0) || (23 <? hour) then Err (malformed (str "time") raw)
            else
              match parseTimePart p1 with
              | None => Err (malformed (str "time") raw)
              | Some minute =>
                  if (minute <? 0) || (59 <? minute) then Err (malformed (str "time") raw)
                  else Ok (Some (timeOfDayFromParts hour minute))
              end
        end
    | _ => Err (malformed (str "time") raw)
    end.

Definition weekday_names : list (gostring * Z) :=
  [(str "sun", 0); (str "mon", 1); (str "tue", 2); (str "wed", 3); (str "thu", 4); (str "fri", 5); (str "sat", 6)].

Definition parseWeekday (raw : gostring) : result gostring Z :=
  let unknown := (str "unknown weekday: " ++ Quote raw)%list in
  if (length raw <? 3)%nat then Err unknown
  else match assoc (ToLower (take 3 raw)) weekday_names with Some day => Ok day | None => Err unknown end.

Definition parseRateUnit (raw : gostring) : result gostring rateUnit :=
  match raw with
  | [] => Err (malformed (str "unit") raw)
  | c :: _ =>
      if (c =? 115) || (c =? 83) then Ok ratePerSecond
      else if (c =? 109) || (c =? 77) then Ok ratePerMinute
      else if (c =? 104) || (c =? 72) then Ok ratePerHour
      else Err (malformed (str "unit") raw)
  end.

Definition parseRate (raw : RawRate) : result gostring rate :=
  match raw with
  | RawInt v =>
      if v =? 0 then Ok (MkRate 0 ratePerSecond)
      else Err (str "malformed rate (numeric values can only be 0): " ++ FormatInt v)%list
  | RawString v =>
      let s := ToLower v in
      if gs_eqb s (str "unlimited") then Ok (MkRate (-1) ratePerSecond)
      else
        match SplitN2 s 47 with
        | [p0; p1] =>
            match Atoi p0 with
            | NumOk n =>
                if n <? 0 then Err (malformed (str "rate") v)
                else
                  match parseRateUnit p1 with
                  | Err _ => Err (malformed (str "rate") v)
                  | Ok unit => Ok (MkRate n unit)
                  end
            | _ => Err (malformed (str "rate") v)
            end
        | _ => Err (malformed (str "rate") v)
        end
  | RawOther type_name => Err (str "malformed rate: unknown type " ++ type_name)%list
  end.

(** [errors.Append] collects the errors; [raw] is a pointer. *)
Definition parse_day (acc : weekdaySet * list gostring) (raw : gostring) : weekdaySet * list gostring :=
  match parseWeekday raw with
  | Err err => (acc.1, acc.2 ++ [err])%list
  | Ok day => (ws_add acc.1 day, acc.2)
  end.

Definition parse_time (what raw : gostring) : option timeOfDay * list gostring :=
  match parseWindowTime raw with
  | Err err => (None, [(what ++ str ": " ++ err)%list])
  | Ok t => (t, [])
  end.

Definition check_times (start end_ : option timeOfDay) : list gostring :=
  match start, end_ with
  | Some _, None | None, Some _ => [str "both start and end times must be provided"]
  | Some s, Some e => if negb (tod_before s e) then [str "end time must be after the start time"] else []
  | None, None => []
  end.

Definition zeroWindow : Window := MkWindow 0 None None (MkRate 0 ratePerSecond).

Definition parseWindow (raw : option BatchChangeRolloutWindow) : Window * list gostring :=
  match raw with
  | None => (zeroWindow, [str "raw window cannot be nil"])
  | Some raw =>
      let '(days, errs_days) := fold_left parse_day (raw_Days raw) (newWeekdaySet [], []) in
      let '(start, errs_start) := parse_time (str "start time") (raw_Start raw) in
      let '(end_, errs_end) := parse_time (str "end time") (raw_End raw) in
      let '(r, errs_rate) :=
        match parseRate (raw_Rate raw) with Err err => (MkRate 0 ratePerSecond, [err]) | Ok r => (r, []) end in
      (MkWindow days start end_ r, errs_days ++ errs_start ++ errs_end ++ check_times start end_ ++ errs_rate)%list
  end.

(** The errors are kept with the index that [errors.Wrapf] puts in front. *)
Definition parse_step (acc : list Window * list (nat * list gostring)) (iraw : nat * option BatchChangeRolloutWindow)
    : list Window * list (nat * list gostring) :=
  let '(i, raw) := iraw in
  match parseWindow raw with
  | (w, []) => (acc.1 ++ [w], acc.2)%list
  | (_, errs) => (acc.1, acc.2 ++ [(i, errs)])%list
  end.

Definition parseConfiguration (raw : option (list (option BatchChangeRolloutWindow)))
    : list Window * list (nat * list gostring) :=
  match raw with
  | None => ([], [])
  | Some raw => fold_left parse_step (imap pair raw) ([], [])
  end.

Definition NewConfiguration (raw : option (list (option BatchChangeRolloutWindow)))
    : result (list (nat * list gostring)) Configuration :=
  match parseConfiguration raw with
  | (windows, []) => Ok (MkConfiguration windows)
  | (_, errs) => Err errs
  end.
End Parse.
