(* ===== verification/WindowFacts.v ===== *)
(** What the rollout windows guarantee in UTC: the parser only builds valid
    windows, [NextOpenAfter] finds the first time a window is open, and the
    schedule of a time holds the configured rate for as long as it is valid. *)
From S2P Require Import Prelude GoStr GoLib GoMap ChangesetHistory Float64 Window.
#[local] Open Scope Z_scope.

(** Linear arithmetic over times, with the units as numbers and divisions by
    them replaced by their quotients and remainders. *)
Ltac ns :=
  change Week with 604800000000000 in *; change Day with 86400000000000 in *; change Hour with 3600000000000 in *;
  change Minute with 60000000000 in *; change Second with 1000000000 in *.
Ltac nlia := ns ; Z.to_euclidean_division_equations ; lia.

(** ** Valid windows *)

Definition valid_time (t : timeOfDay) : Prop :=
  0 <= tod_hour t <= 23 /\ 0 <= tod_minute t <= 59 /\ tod_cmp t = tod_hour t * 60 + tod_minute t.
Definition valid_days (ws : weekdaySet) : Prop := 0 <= ws < 128.
Definition valid_rate (r : rate) : Prop := -1 <= rate_n r < 2 ^ 63 /\ 0 <= rate_unit r <= 2.
Definition valid_times (w : Window) : Prop :=
  match w_start w, w_end w with
  | None, None => True
  | Some s, Some e => valid_time s /\ valid_time e /\ tod_cmp s < tod_cmp e
  | _, _ => False
  end.
Definition valid_window (w : Window) : Prop := valid_days (w_days w) /\ valid_times w /\ valid_rate (w_rate w).

(** ** The weekdays of a set *)

Definition days_of_week : list Z := seqZ 0 7.

Lemma weekdays_checked :
  forallb (fun ws => forallb (fun day =>
    existsb (fun k => ws_includes ws ((day + k) mod 7)) days_of_week &&
    (ws_all ws || existsb (fun k => negb (ws_includes ws ((day + k) mod 7))) days_of_week)) days_of_week)
    (seqZ 0 128) = true.
Proof. vm_compute. reflexivity. Qed.

Lemma weekdays_found ws day : valid_days ws -> 0 <= day < 7 ->
  (exists k, 0 <= k < 7 /\ ws_includes ws ((day + k) mod 7) = true) /\
  (ws_all ws = false -> exists k, 0 <= k < 7 /\ ws_includes ws ((day + k) mod 7) = false).
Proof.
  intros Hw Hd. pose proof weekdays_checked as H. rewrite forallb_forall in H.
  specialize (H ws). rewrite <- list_elem_of_In, elem_of_seqZ in H. specialize (H ltac:(unfold valid_days in *; lia)).
  rewrite forallb_forall in H. specialize (H day). unfold days_of_week in H.
  rewrite <- list_elem_of_In, elem_of_seqZ in H. specialize (H ltac:(lia)).
  apply andb_true_iff in H as [H1 H2]. split.
  - apply existsb_exists in H1 as (k & Hk & ?). rewrite <- list_elem_of_In, elem_of_seqZ in Hk. exists k. split; [lia|done].
  - intros E. rewrite E in H2. apply existsb_exists in H2 as (k & Hk & ?%negb_true_iff).
    rewrite <- list_elem_of_In, elem_of_seqZ in Hk. exists k. split; [lia|done].
Qed.

Lemma weekday_range loc t : 0 <= time_Weekday loc t < 7.
Proof. unfold time_Weekday. nlia. Qed.
Lemma weekday_shift t k : time_Weekday UTC (t + k * Day) = (time_Weekday UTC t + k) mod 7.
Proof. unfold time_Weekday, wall, UTC. nlia. Qed.
Lemma weekday_same t u : t / Day = u / Day -> time_Weekday UTC t = time_Weekday UTC u.
Proof. unfold time_Weekday, wall, UTC. rewrite !Z.add_0_r. by intros ->. Qed.

(** ** Open windows *)

(** The minute of the day, which is all that [covers] looks at. *)
Definition minute_of (t : Z) : Z := t mod Day / Minute.

Lemma timeOfDay_minute t : tod_cmp (timeOfDayFromTime UTC t) = minute_of t.
Proof.
  unfold timeOfDayFromTime, timeOfDayFromParts, minute_of, time_Hour, time_Minute, wall, UTC, wrap8. simpl. nlia.
Qed.

Definition first_minute (w : Window) : Z := match w_start w with Some s => tod_cmp s | None => 0 end.
Definition last_minute (w : Window) : Z := match w_end w with Some e => tod_cmp e | None => 1439 end.

Lemma minute_range t : 0 <= minute_of t < 1440.
Proof. unfold minute_of. nlia. Qed.

Lemma IsOpen_iff w t : valid_window w ->
  IsOpen UTC w t = true <->
  ws_includes (w_days w) (time_Weekday UTC t) = true /\ first_minute w <= minute_of t <= last_minute w.
Proof.
  intros (_ & Ht & _). unfold IsOpen. rewrite andb_true_iff. unfold covers, first_minute, last_minute, valid_times in *.
  pose proof (minute_range t). destruct (w_start w), (w_end w); try done.
  - unfold tod_before, tod_after. rewrite timeOfDay_minute. rewrite negb_true_iff, orb_false_iff, !Z.ltb_ge. tauto.
  - split; [|tauto]. intros [? _]. split; [done|]. lia.
Qed.

Lemma valid_minutes w : valid_window w -> 0 <= first_minute w <= last_minute w /\ last_minute w < 1440.
Proof.
  intros (_ & Ht & _). unfold first_minute, last_minute, valid_times, valid_time in *.
  destruct (w_start w), (w_end w); try done; lia.
Qed.

(** ** The next opening *)

(** [u] is the first time from [t] on at which the window is open. *)
Definition first_open (w : Window) (t u : Z) : Prop :=
  t <= u /\ IsOpen UTC w u = true /\ (forall x, t <= x < u -> IsOpen UTC w x = false) /\ (u = t \/ u mod Minute = 0) /\ u <= t + Week + Day.

Lemma least (P : nat -> bool) n : P n = true -> exists k, (k <= n)%nat /\ P k = true /\ forall j, (j < k)%nat -> P j = false.
Proof.
  induction n as [n IH] using lt_wf_ind. intros Hn. destruct (existsb P (seq 0 n)) eqn:E.
  - apply existsb_exists in E as (j & Hj%in_seq & HP). destruct (IH j ltac:(lia) HP) as (k & ? & ? & ?).
    exists k. split_and!; [lia|done..].
  - exists n. split_and!; [lia|done|]. intros j ?. destruct (P j) eqn:Ej; [|done]. exfalso.
    apply not_true_iff_false in E. apply E, existsb_exists. exists j. split; [apply in_seq; lia|done].
Qed.

Section NextOpen.
Context (days : weekdaySet) (after : Z).
Definition opens_at (when : Z) : bool := ws_includes days (time_Weekday UTC when) && (after <? when).

Lemma next_open_loop_at k : forall fuel when, (k < fuel)%nat ->
  (forall j, (j < k)%nat -> opens_at (when + Z.of_nat j * Day) = false /\ when + Z.of_nat j * Day - after <= Week) ->
  opens_at (when + Z.of_nat k * Day) = true ->
  next_open_loop fuel days after when = Done (when + Z.of_nat k * Day).
Proof.
  induction k as [|k IH]; intros [|fuel] when Hf Hj Hk; try lia; simpl; fold (opens_at when).
  - rewrite Z.mul_0_l, Z.add_0_r in Hk |- *. by rewrite Hk.
  - destruct (Hj 0%nat ltac:(lia)) as [H0 Hw]. rewrite Z.mul_0_l, Z.add_0_r in H0, Hw. rewrite H0.
    rewrite (proj2 (Z.ltb_ge _ _)) by (unfold time_Sub; nlia).
    rewrite IH; [f_equal; lia|lia|..].
    + intros j ?. destruct (Hj (S j) ltac:(lia)) as [H1 H2]. rewrite <- H1. split; [f_equal; lia|lia].
    + rewrite <- Hk. f_equal. lia.
Qed.

(** The loop ends without a panic for every start within two days, and at the
    first matching day. *)
Lemma next_open_loop_total when : valid_days days -> after - 2 * Day < when < after + 2 * Day ->
  exists k, next_open_loop next_open_fuel days after when = Done (when + Z.of_nat k * Day) /\
    when + Z.of_nat k * Day <= after + Week + Day /\
    opens_at (when + Z.of_nat k * Day) = true /\ forall j, (j < k)%nat -> opens_at (when + Z.of_nat j * Day) = false.
Proof.
  intros Hd Hw.
  assert (exists j0, 0 <= j0 <= 2 /\ after < when + j0 * Day /\ (j0 = 0 \/ when + (j0 - 1) * Day <= after)) as (j0 & Hj0 & Ha & Hb).
  { destruct (decide (after < when)); [exists 0|destruct (decide (after < when + Day)); [exists 1|exists 2]]; nlia. }
  destruct (weekdays_found days (time_Weekday UTC (when + j0 * Day)) Hd (weekday_range _ _)) as [(d & Hd7 & Hi) _].
  rewrite <- weekday_shift in Hi.
  destruct (least (fun k => opens_at (when + Z.of_nat k * Day)) (Z.to_nat (j0 + d))) as (k & Hk & HP & Hmin).
  { unfold opens_at. rewrite Z2Nat.id by lia. rewrite Z.mul_add_distr_r, Z.add_assoc, Hi. simpl. apply Z.ltb_lt. nlia. }
  exists k. split_and!; [|nlia|done..]. apply next_open_loop_at; [unfold next_open_fuel; lia|..|done].
  intros j ?. split; [by apply Hmin|]. nlia.
Qed.
End NextOpen.

Lemma NextOpenAfter_correct w t : valid_window w -> exists u, NextOpenAfter UTC w t = Done u /\ first_open w t u.
Proof.
  intros Hv. unfold NextOpenAfter. destruct (IsOpen UTC w t) eqn:Ho.
  { exists t. unfold first_open. split_and!; [done|lia|done|lia|by left|nlia]. }
  set (when := t / Day * Day + first_minute w * Minute).
  pose proof (valid_minutes w Hv) as Hm. pose proof (minute_range t) as Hr.
  destruct (next_open_loop_total (w_days w) t when) as (k & E & Hb & HP & Hmin); [apply Hv|subst when; nlia|].
  exists (when + Z.of_nat k * Day). split.
  { rewrite <- E. destruct Hv as (_ & Ht & _). unfold valid_times, valid_time, first_minute, time_Date, wall, UTC in *.
    destruct (w_start w) as [s|], (w_end w); try done; rewrite Z.add_0_r; f_equal; subst when; nlia. }
  apply andb_true_iff in HP as [Hi Hlt%Z.ltb_lt]. split_and!; [lia|..].
  - apply IsOpen_iff; [done|]. split; [done|].
    enough (minute_of (when + Z.of_nat k * Day) = first_minute w) by lia. subst when. unfold minute_of. nlia.
  - intros x Hx. apply not_true_is_false. intros [Hxi Hxm]%IsOpen_iff; [|done].
    set (j := x / Day - t / Day). assert (0 <= j) by (subst j; nlia).
    assert (when + j * Day <= x) as Hjx by (subst when j; unfold minute_of in Hxm; nlia).
    assert (j < Z.of_nat k) as Hjk by (nlia).
    specialize (Hmin (Z.to_nat j) ltac:(lia)). rewrite Z2Nat.id in Hmin by lia. unfold opens_at in Hmin.
    rewrite (weekday_same (when + j * Day) x), Hxi in Hmin by (subst when j; nlia).
    apply Z.ltb_ge in Hmin. assert (x / Day = t / Day) as Hd by (subst when j; nlia).
    apply not_true_iff_false in Ho. apply Ho, IsOpen_iff; [done|]. rewrite (weekday_same t x) by lia. split; [done|].
    subst when j. unfold minute_of in *. nlia.
  - right. subst when. nlia.
  - done.
Qed.

(** ** The window in force *)

(** The reference: in the event windows overlap, the last one that is open. *)
Definition active (ws : list Window) (t : Z) : option Window := last (List.filter (fun w => IsOpen UTC w t) ws).
Definition closed (t : Z) (w : Window) : Prop := IsOpen UTC w t = false.

Lemma active_none ws t : Forall (closed t) ws -> active ws t = None.
Proof. unfold active. induction 1 as [|w ws H _ IH]; simpl; [done|]. unfold closed in H. by rewrite H. Qed.

Lemma active_last before w later t :
  IsOpen UTC w t = true -> Forall (closed t) later -> active (before ++ w :: later) t = Some w.
Proof.
  intros Hw Hl. unfold active. rewrite List.filter_app, last_app. simpl. rewrite Hw.
  apply active_none in Hl. unfold active in Hl. rewrite last_None in Hl. by rewrite Hl.
Qed.

Lemma from_last_open_spec ws t :
  match from_last_open UTC ws t with
  | None => Forall (closed t) ws
  | Some (w, later) => exists before, ws = before ++ w :: later /\ IsOpen UTC w t = true /\ Forall (closed t) later
  end.
Proof.
  induction ws as [|w ws IH]; simpl; [constructor|].
  destruct (from_last_open UTC ws t) as [[w' later]|].
  - destruct IH as (before & -> & ?). by exists (w :: before).
  - destruct (IsOpen UTC w t) eqn:E; [by exists []|by constructor].
Qed.

(** The loops over the windows keep the earliest of the next openings. *)
Definition earliest (ws : list Window) (t : Z) (next r : option Z) : Prop :=
  match r with
  | None => next = None /\ ws = []
  | Some m =>
      (forall w x, w ∈ ws -> t <= x < m -> IsOpen UTC w x = false) /\
      (forall n, next = Some n -> m <= n) /\
      (next = Some m \/ exists w, w ∈ ws /\ first_open w t m)
  end.

Lemma keep_earliest_fold ws t next : Forall valid_window ws ->
  returns (run_fold (keep_earliest UTC t) ws next) (earliest ws t next).
Proof.
  intros Hv. apply (run_fold_inv _ (fun l => earliest l t next)).
  { destruct next; simpl; [|done]. split_and!; [set_solver|intros; simplify_eq; lia|by left]. }
  intros l1 w l2 r -> He. apply Forall_app in Hv as [_ [Hw _]%Forall_cons].
  destruct (NextOpenAfter_correct w t Hw) as (u & E & Hu). unfold keep_earliest. rewrite E. simpl. apply returns_done.
  pose proof Hu as (Hle & _ & Hbefore & _).
  destruct r as [m|]; simpl in *.
  - destruct He as (H1 & H2 & H3).
    destruct (Z.ltb_spec u m); split_and!.
    + intros w' x [Hin|Hin%list_elem_of_singleton]%elem_of_app ?; [apply H1; [done|lia]|subst w'; apply Hbefore; lia].
    + intros n Hn. specialize (H2 n Hn). lia.
    + right. exists w. split; [set_solver|done].
    + intros w' x [Hin|Hin%list_elem_of_singleton]%elem_of_app ?; [apply H1; [done|lia]|subst w'; apply Hbefore; lia].
    + done.
    + destruct H3 as [?|(w' & ? & ?)]; [by left|right; exists w'; split; [set_solver|done]].
  - destruct He as [-> ->]. split_and!; [|done|right; exists w; split; [set_solver|done]].
    intros w' x Hin%list_elem_of_singleton ?. subst w'. apply Hbefore. lia.
Qed.

(** A window that is limited to some days ends with the last of them. *)
Lemma day_end_loop_at loc days now k : forall fuel start, (k < fuel)%nat ->
  (forall j, (j < k)%nat -> ws_includes days (time_Weekday loc (start + (Z.of_nat j + 1) * Day)) = true /\
                     start + (Z.of_nat j + 1) * Day <= now + Week) ->
  ws_includes days (time_Weekday loc (start + (Z.of_nat k + 1) * Day)) = false ->
  day_end_loop fuel loc days now start = Done (start + (Z.of_nat k + 1) * Day).
Proof.
  induction k as [|k IH]; intros [|fuel] start Hf Hj Hk; try lia; cbn [day_end_loop].
  - replace (start + (Z.of_nat 0 + 1) * Day) with (start + Day) in * by lia. by rewrite Hk.
  - destruct (Hj 0%nat ltac:(lia)) as [H0 Hw]. replace (start + (Z.of_nat 0 + 1) * Day) with (start + Day) in * by lia.
    rewrite H0. simpl. rewrite (proj2 (Z.ltb_ge _ _)) by lia.
    rewrite IH; [f_equal; lia|lia|..].
    + intros j ?. destruct (Hj (S j) ltac:(lia)) as [H1 H2]. rewrite <- H1. split; [do 2 f_equal; lia|lia].
    + rewrite <- Hk. do 2 f_equal. lia.
Qed.

Lemma day_end_loop_correct days now : valid_days days -> ws_all days = false ->
  ws_includes days (time_Weekday UTC now) = true ->
  exists e, day_end_loop day_end_fuel UTC days now (time_Truncate now Day) = Done e /\ now < e /\ e mod Minute = 0 /\
    e <= now + Week /\
    forall x, now <= x < e -> ws_includes days (time_Weekday UTC x) = true.
Proof.
  intros Hd Ha Hn. set (start := time_Truncate now Day).
  destruct (weekdays_found days (time_Weekday UTC start) Hd (weekday_range _ _)) as [_ Hex].
  destruct (Hex Ha) as (d & Hd7 & Hi). rewrite <- weekday_shift in Hi.
  assert (time_Weekday UTC start = time_Weekday UTC now) as Hs by (apply weekday_same; unfold start, time_Truncate; nlia).
  assert (d <> 0) by (intros ->; rewrite Z.mul_0_l, Z.add_0_r, Hs in Hi; congruence).
  destruct (least (fun k => negb (ws_includes days (time_Weekday UTC (start + (Z.of_nat k + 1) * Day)))) (Z.to_nat (d - 1)))
    as (k & Hk & HP & Hmin).
  { replace (Z.of_nat (Z.to_nat (d - 1)) + 1) with d by lia. by rewrite Hi. }
  apply negb_true_iff in HP. exists (start + (Z.of_nat k + 1) * Day). split_and!.
  - apply day_end_loop_at; [unfold day_end_fuel; lia| |done]. intros j Hj. split; [by apply negb_false_iff, Hmin|].
    unfold start, time_Truncate. nlia.
  - unfold start, time_Truncate. nlia.
  - unfold start, time_Truncate. nlia.
  - unfold start, time_Truncate. nlia.
  - intros x Hx. destruct (decide (x / Day = now / Day)) as [E|E]; [by rewrite (weekday_same _ _ E)|].
    set (j := x / Day - now / Day - 1). assert (0 <= j < Z.of_nat k) by (unfold j, start, time_Truncate in *; nlia).
    specialize (Hmin (Z.to_nat j) ltac:(lia)). apply negb_false_iff in Hmin. rewrite <- Hmin. f_equal. apply weekday_same.
    unfold j, start, time_Truncate in *. nlia.
Qed.

(** ** The validity of a window *)

(** The minute at whose start the window's end lies; the window is still open. *)
Definition closing (w : Window) (t : Z) : bool :=
  match w_end w with Some e => minute_of t =? tod_cmp e | None => false end.

(** What [windowFor] promises at [now]: the window in force, that it stays in
    force for the duration, and that the duration ends at a full minute and is
    positive unless the window is closing. *)
Record stays (ws : list Window) (now : Z) (r : option Window * option Z) : Prop := {
  stays_now : r.1 = active ws now;
  stays_valid x : now <= x -> (forall d, r.2 = Some d -> x < now + d) -> active ws x = r.1;
  stays_aligned d : r.2 = Some d -> (now + d) mod Minute = 0;
  stays_positive d : r.2 = Some d -> match r.1 with Some w => closing w now = false | None => True end -> 0 < d;
  stays_closing d w : r.2 = Some d -> r.1 = Some w -> closing w now = true -> now + d = now - now mod Minute;
  stays_week d : r.2 = Some d -> - Minute < d <= Week + Day;
  stays_none : r.1 = None -> r.2 <> None;
  stays_forever w : r.1 = Some w -> r.2 = None -> w_end w = None
}.

(** The end that the window itself sets. *)
Definition own_end (w : Window) (now : Z) (e : option Z) : Prop :=
  match e with
  | None => w_end w = None /\ forall x, now <= x -> IsOpen UTC w x = true
  | Some e =>
      e mod Minute = 0 /\ (forall x, now <= x < e -> IsOpen UTC w x = true) /\ (closing w now = false -> now < e) /\
      (closing w now = true -> e = now - now mod Minute) /\ now - Minute < e <= now + Week
  end.

Lemma own_end_found w now : valid_window w -> IsOpen UTC w now = true ->
  returns (match w_end w with
           | None =>
               if negb (ws_all (w_days w)) then
                 let! e := day_end_loop day_end_fuel UTC (w_days w) now (time_Truncate now Day) in Done (Some e)
               else Done None
           | Some e => Done (Some (time_Date UTC now (tod_hour e) (tod_minute e)))
           end) (own_end w now).
Proof.
  intros Hv Ho. pose proof Ho as [Hi Hm]%IsOpen_iff; [|done].
  pose proof Hv as (Hd & Ht & _). unfold valid_times in Ht. destruct (w_end w) as [e|] eqn:Ee.
  - apply returns_done. destruct (w_start w) as [s|] eqn:Es; [|done]. destruct Ht as (_ & (Hh & Hmi & Hc) & _).
    unfold own_end, closing, time_Date, wall, UTC, last_minute in *. rewrite Ee in *. rewrite Z.add_0_r.
    rewrite Z.eqb_neq, Z.eqb_eq. unfold minute_of in *. split_and!; [nlia| |nlia..].
    intros x Hx. apply IsOpen_iff; [done|]. rewrite (weekday_same x now) by nlia. split; [done|].
    unfold last_minute. rewrite Ee. unfold minute_of. nlia.
  - destruct (w_start w) eqn:Es; [done|].
    assert (forall x, IsOpen UTC w x = ws_includes (w_days w) (time_Weekday UTC x)) as Hopen.
    { intros x. unfold IsOpen, covers. by rewrite Es, andb_true_r. }
    destruct (ws_all (w_days w)) eqn:Ea; cbn [negb].
    + apply returns_done. split; [done|]. intros x _. rewrite Hopen. unfold ws_includes. by rewrite Ea.
    + destruct (day_end_loop_correct (w_days w) now Hd Ea Hi) as (e & -> & ? & ? & ? & Hin). apply returns_done.
      simpl. unfold closing. rewrite Ee. split_and!; [done| |done|done|nlia|done]. intros x ?. rewrite Hopen. by apply Hin.
Qed.

Lemma first_open_later w t u : closed t w -> first_open w t u -> t < u /\ u mod Minute = 0 /\ u <= t + Week + Day.
Proof.
  intros Hc (? & Ho & _ & Hor & ?). unfold closed in Hc. assert (u <> t) by congruence. split_and!; [lia|tauto|done].
Qed.

Lemma time_Sub_small t u : t - Week <= u <= t + Week + Day -> time_Sub u t = u - t.
Proof. unfold time_Sub. nlia. Qed.

(** No window is open: the schedule lasts until the first one opens. *)
Lemma stays_closed ws now r : ws <> [] -> Forall (closed now) ws -> earliest ws now None r ->
  stays ws now (None, (fun n => time_Sub n now) <$> r).
Proof.
  intros Hne Hc He. destruct r as [m|]; simpl in He; [|tauto]. destruct He as (Hb & _ & [|(w & Hw & Hf)]); [done|].
  rewrite Forall_forall in Hc. apply first_open_later in Hf as (Hlt & Ha & Hle); [|by apply Hc].
  cbn [fmap option_fmap option_map]. rewrite time_Sub_small by nlia.
  assert (forall x, now <= x < m -> active ws x = None) as Hnone.
  { intros x Hx. apply active_none, Forall_forall. intros w' ?. by apply Hb. }
  split; simpl; try (intros; simplify_eq; nlia).
  - rewrite Hnone; [done|lia].
  - intros x ? Hx. apply Hnone. specialize (Hx _ eq_refl). lia.
  - done.
Qed.

(** The last open window stays in force until it ends or a later one opens. *)
Lemma stays_open before w later now e r :
  IsOpen UTC w now = true -> Forall (closed now) later -> own_end w now e -> earliest later now e r ->
  stays (before ++ w :: later) now (Some w, (fun n => time_Sub n now) <$> r).
Proof.
  intros Ho Hc He Hr.
  assert (forall x, now <= x -> (forall m, r = Some m -> x < m) -> active (before ++ w :: later) x = Some w) as Hact.
  { intros x Hx Hm. apply active_last.
    - destruct r as [m|]; simpl in Hr; [|by destruct Hr as [-> _]; apply He].
      destruct Hr as (_ & Hle & _). specialize (Hm _ eq_refl). destruct e as [e|]; [|by apply He].
      apply He. specialize (Hle _ eq_refl). lia.
    - rewrite Forall_forall. intros w' Hw'. destruct r as [m|]; simpl in Hr; [|by destruct Hr as [_ ->]; set_solver].
      apply (proj1 Hr); [done|]. specialize (Hm _ eq_refl). lia. }
  assert (forall m, r = Some m -> m mod Minute = 0 /\ (closing w now = false -> now < m) /\
            (closing w now = true -> m = now - now mod Minute) /\ now - Minute < m <= now + Week + Day) as Hend.
  { intros m ->. simpl in Hr. destruct Hr as (_ & Hle & Hor). destruct e as [e|].
    - destruct He as (He1 & _ & He2 & He3 & He4). specialize (Hle _ eq_refl).
      destruct Hor as [?|(w' & Hw' & Hf)]; [simplify_eq; split_and!; [done..|nlia|nlia]|].
      rewrite Forall_forall in Hc. apply first_open_later in Hf as (? & ? & ?); [|by apply Hc].
      split_and!; [done|done| |nlia|done]. intros ?%He3. nlia.
    - destruct He as [He _]. unfold closing. rewrite He.
      destruct Hor as [?|(w' & Hw' & Hf)]; [done|]. rewrite Forall_forall in Hc.
      apply first_open_later in Hf as (? & ? & ?); [|by apply Hc]. split_and!; [done|done|done|nlia|done]. }
  assert ((fun n => time_Sub n now) <$> r = (fun n => n - now) <$> r) as ->.
  { destruct r as [m|]; [|done]. simpl. f_equal. apply time_Sub_small. destruct (Hend _ eq_refl) as (_ & _ & _ & ?). nlia. }
  destruct r as [m|]; simpl.
  - destruct (Hend _ eq_refl) as (H1 & H2 & H3 & H4).
    split; simpl.
    + by rewrite active_last.
    + intros x ? Hx. apply Hact; [done|]. intros; simplify_eq. specialize (Hx _ eq_refl). lia.
    + intros d ?. simplify_eq. by replace (now + (m - now)) with m by lia.
    + intros d ? Hcl. simplify_eq. specialize (H2 Hcl). lia.
    + intros d w' ? ? Hcl. simplify_eq. specialize (H3 Hcl). lia.
    + intros d ?. simplify_eq. lia.
    + done.
    + done.
  - destruct Hr as [-> _], He as [He _].
    split; simpl; try done; [by rewrite active_last|intros x ? _; by apply Hact|by intros w' [= <-]].
Qed.

Lemma windowFor_stays cfg now : Forall valid_window (windows cfg) -> windows cfg <> [] ->
  returns (windowFor UTC cfg now) (stays (windows cfg) now).
Proof.
  intros Hv Hne. unfold windowFor. rewrite (proj2 (Nat.eqb_neq _ _)) by (by destruct (windows cfg)).
  pose proof (from_last_open_spec (windows cfg) now) as Hl.
  destruct (from_last_open UTC (windows cfg) now) as [[w later]|].
  - destruct Hl as (before & E & Ho & Hc).
    assert (valid_window w /\ Forall valid_window later) as [Hw Hlater].
    { rewrite E in Hv. by apply Forall_app in Hv as [_ [? ?]%Forall_cons]. }
    run_step own_end_found; [done..|]. intros e He. run_step keep_earliest_fold; [done|].
    intros r Hr. apply returns_done. rewrite E. by eapply stays_open.
  - run_step keep_earliest_fold; [done|]. intros r Hr. apply returns_done. by apply stays_closed.
Qed.

(** ** What the parser builds *)

Lemma parse_uint_loop_range s n maxVal r : 0 <= n -> parse_uint_loop s n maxVal = NumOk r -> 0 <= r.
Proof.
  revert n. induction s as [|c s IH]; intros n Hn; simpl; [by intros; simplify_eq|].
  destruct (is_digit c) eqn:Ec; [|done]. simpl. unfold is_digit, between in Ec. apply andb_true_iff in Ec as [? ?].
  destruct (_ <=? n); [done|]. destruct (maxVal <? _); [done|]. apply IH. lia.
Qed.

Lemma ParseInt_range s bits n : 0 < bits -> ParseInt s bits = NumOk n -> - 2 ^ (bits - 1) <= n < 2 ^ (bits - 1).
Proof.
  intros Hb. unfold ParseInt. pose proof (Z.pow_pos_nonneg 2 (bits - 1) ltac:(lia) ltac:(lia)).
  set (p := match s with [] => _ | _ => _ end). destruct p as [neg digits].
  destruct digits as [|c digits]; [done|]. destruct (parse_uint_loop (c :: digits) 0 _) as [un| |] eqn:E; try done.
  apply parse_uint_loop_range in E; [|lia].
  destruct neg; simpl; [destruct (Z.ltb_spec (2 ^ (bits - 1)) un)|destruct (Z.leb_spec (2 ^ (bits - 1)) un)];
    intros; simplify_eq; lia.
Qed.

Section ParseFacts.
Context {U : UnicodeTables}.

Lemma parseWindowTime_valid raw t : parseWindowTime raw = Ok (Some t) -> valid_time t.
Proof.
  unfold parseWindowTime. destruct (gs_eqb raw []); [done|]. destruct (SplitN2 raw 58) as [|p0 [|p1 [|]]]; try done.
  destruct (parseTimePart p0) as [h|]; [|done]. destruct (_ || _) eqn:Eh; [done|].
  destruct (parseTimePart p1) as [m|]; [|done]. destruct ((m <? 0) || (59 <? m)) eqn:Em; [done|].
  apply orb_false_iff in Eh as [? ?]. apply orb_false_iff in Em as [? ?]. intros [= <-]. unfold valid_time. simpl. lia.
Qed.

Lemma parse_time_valid what raw t errs : parse_time what raw = (t, errs) -> forall u, t = Some u -> valid_time u.
Proof.
  unfold parse_time. destruct (parseWindowTime raw) eqn:E; [|by intros; simplify_eq]. intros [= -> <-] u ->.
  by eapply parseWindowTime_valid.
Qed.

Lemma parseRate_valid raw r : parseRate raw = Ok r -> valid_rate r.
Proof.
  unfold parseRate, valid_rate, parseRateUnit, ratePerSecond, ratePerMinute, ratePerHour.
  destruct raw as [v|v|ty]; [destruct (v =? 0); intros; simplify_eq; simpl; lia| |done].
  destruct (gs_eqb (ToLower v) _); [intros; simplify_eq; simpl; lia|]. destruct (SplitN2 _ 47) as [|p0 [|p1 [|]]]; try done.
  destruct (Atoi p0) as [n| |] eqn:En; try done. unfold Atoi in En. apply ParseInt_range in En; [|lia].
  destruct (Z.ltb_spec n 0); [done|]. destruct p1 as [|c p1]; [done|].
  repeat case_match; intros; simplify_eq; simpl; lia.
Qed.

Lemma ws_add_checked :
  forallb (fun ws => forallb (fun day => let r := ws_add ws day in (0 <=? r) && (r <? 128)) days_of_week) (seqZ 0 128) = true.
Proof. vm_compute. reflexivity. Qed.

Lemma ws_add_valid ws day : valid_days ws -> 0 <= day < 7 -> valid_days (ws_add ws day).
Proof.
  intros Hw Hd. pose proof ws_add_checked as H. rewrite forallb_forall in H. specialize (H ws).
  rewrite <- list_elem_of_In, elem_of_seqZ in H. specialize (H ltac:(unfold valid_days in *; lia)).
  rewrite forallb_forall in H. specialize (H day). unfold days_of_week in H.
  rewrite <- list_elem_of_In, elem_of_seqZ in H. specialize (H ltac:(lia)). apply andb_true_iff in H as [? ?].
  unfold valid_days. lia.
Qed.

Lemma parseWeekday_range raw day : parseWeekday raw = Ok day -> 0 <= day < 7.
Proof.
  unfold parseWeekday. destruct (_ <? 3)%nat; [done|]. destruct (assoc _ _) eqn:E; [|done]. intros. simplify_eq.
  apply assoc_elem_of in E.
  assert (Forall (fun p => 0 <= p.2 < 7) weekday_names) as H by (repeat constructor; simpl; lia).
  rewrite Forall_forall in H. by apply (H _ E).
Qed.

Lemma parse_days_valid raws acc : valid_days acc.1 -> valid_days (fold_left parse_day raws acc).1.
Proof.
  revert acc. induction raws as [|raw raws IH]; intros acc Ha; simpl; [done|]. apply IH. unfold parse_day.
  destruct (parseWeekday raw) eqn:E; simpl; [|done]. apply ws_add_valid; [done|]. by eapply parseWeekday_range.
Qed.

Lemma parseWindow_valid raw w : parseWindow raw = (w, []) -> valid_window w.
Proof.
  unfold parseWindow. destruct raw as [raw|]; [|done].
  pose proof (parse_days_valid (raw_Days raw) (newWeekdaySet [], [])) as Hd.
  destruct (fold_left parse_day (raw_Days raw) _) as [days e1].
  destruct (parse_time (str "start time") (raw_Start raw)) as [s e2] eqn:Es.
  destruct (parse_time (str "end time") (raw_End raw)) as [e e3] eqn:Ee.
  set (pr := match parseRate (raw_Rate raw) with Ok r => (r, []) | Err err => (MkRate 0 ratePerSecond, [err]) end).
  destruct pr as [r e5] eqn:Er. subst pr. intros [= <- [-> [-> [-> [Hc ->]%app_eq_nil]%app_eq_nil]%app_eq_nil]%app_eq_nil].
  pose proof (parse_time_valid _ _ _ _ Es) as Hs. pose proof (parse_time_valid _ _ _ _ Ee) as He. split_and!; [apply Hd; unfold valid_days, newWeekdaySet; simpl; lia| |].
  - unfold valid_times, check_times in *. simpl. destruct s as [s|], e as [e|]; try done.
    split_and!; [by apply Hs|by apply He|]. unfold tod_before in Hc. destruct (Z.ltb_spec (tod_cmp s) (tod_cmp e)); done.
  - destruct (parseRate (raw_Rate raw)) eqn:E; simplify_eq. by eapply parseRate_valid.
Qed.

Lemma parse_fold_valid raws acc : Forall valid_window acc.1 -> Forall valid_window (fold_left parse_step raws acc).1.
Proof.
  revert acc. induction raws as [|[i raw] raws IH]; intros acc Ha; simpl; [done|]. apply IH.
  destruct (parseWindow raw) as [w [|]] eqn:E; simpl; [|done]. apply Forall_app. split; [done|].
  constructor; [|done]. by eapply parseWindow_valid.
Qed.

Lemma NewConfiguration_valid raw cfg : NewConfiguration raw = Ok cfg -> Forall valid_window (windows cfg).
Proof.
  unfold NewConfiguration, parseConfiguration. destruct raw as [raw|]; [|by intros; simplify_eq; constructor].
  pose proof (parse_fold_valid (imap pair raw) ([], []) ltac:(constructor)) as H.
  destruct (fold_left parse_step _ _) as [ws [|]]; [|done]. intros. by simplify_eq.
Qed.
End ParseFacts.
