(* ===== verification/WindowCorrect.v ===== *)
(** The schedules and estimates of the rollout windows: a schedule enforces the
    configured rate for as long as it is valid, and an estimate is the time at
    which the schedules have room for the changeset. *)
From S2P Require Import Prelude GoStr GoLib GoMap ChangesetHistory Float64 Window WindowFacts.
#[local] Open Scope Z_scope.

(** ** Schedules *)

(** The reference: the rate of the window in force, and none without one. *)
Definition limit (ws : list Window) (t : Z) : rate :=
  match active ws t with Some w => w_rate w | None => MkRate 0 ratePerSecond end.

Lemma AsDuration_valid r : valid_rate r -> returns (AsDuration (rate_unit r)) (fun d => Second <= d <= Hour /\ 1 <= Z.quot Hour d <= 3600 /\ d * Z.quot Hour d = Hour).
Proof.
  intros [_ Hu]. unfold AsDuration, ratePerSecond, ratePerMinute, ratePerHour.
  destruct (Z.eqb_spec (rate_unit r) 0); [apply returns_done; by repeat split; vm_compute|].
  destruct (Z.eqb_spec (rate_unit r) 1); [apply returns_done; by repeat split; vm_compute|].
  destruct (Z.eqb_spec (rate_unit r) 2); [apply returns_done; by repeat split; vm_compute|]. lia.
Qed.

(** The rate limiter that a rate asks for. *)
Definition limiter_of (r : rate) : option Limiter :=
  if rate_n r =? -1 then Some NewUnlimited
  else if rate_n r =? 0 then None
  else Some (NewLimiter (rate_n r) (match rate_unit r with 0 => Second | 1 => Minute | _ => Hour end)).

Lemma newSchedule_valid base d r : valid_rate r ->
  returns (newSchedule base d r) (fun s =>
    ValidUntil s = base + d /\ s_duration s = d /\ s_rate s = r /\ s_limiter s = limiter_of r).
Proof.
  intros Hr. unfold newSchedule, IsUnlimited, limiter_of. destruct (Z.eqb_spec (rate_n r) (-1)) as [E|E]; [by apply returns_done|].
  destruct Hr as [Hn Hu], (Z.ltb_spec 0 (rate_n r)).
  - rewrite (proj2 (Z.eqb_neq _ _)) by lia. unfold AsDuration, ratePerSecond, ratePerMinute, ratePerHour.
    assert (rate_unit r = 0 \/ rate_unit r = 1 \/ rate_unit r = 2) as [->|[->| ->]] by lia; by apply returns_done.
  - rewrite (proj2 (Z.eqb_eq _ _)) by lia. by apply returns_done.
Qed.

(** What a schedule made at [t] promises. *)
Record enforces (ws : list Window) (t : Z) (s : Schedule) : Prop := {
  enforces_rate x : t <= x < ValidUntil s -> limit ws x = s_rate s;
  enforces_now : s_rate s = limit ws t;
  enforces_duration : ValidUntil s = t + s_duration s /\ - Minute < s_duration s <= Week + Day;
  enforces_limiter : s_limiter s = limiter_of (s_rate s);
  enforces_progress : match active ws t with Some w => closing w t = false | None => True end ->
    t < ValidUntil s /\ t / Minute < ValidUntil s / Minute;
  enforces_closing w : active ws t = Some w -> closing w t = true -> ValidUntil s = t - t mod Minute
}.

(** There is no limiter exactly for the rate zero, and [Take] refuses. *)
Lemma enforces_zero ws t s : enforces ws t s -> s_limiter s = None <-> rate_n (s_rate s) = 0.
Proof.
  intros He. rewrite (enforces_limiter _ _ _ He). unfold limiter_of.
  destruct (Z.eqb_spec (rate_n (s_rate s)) (-1)), (Z.eqb_spec (rate_n (s_rate s)) 0); (split; [done|lia]) || done.
Qed.

Lemma limit_valid ws t : Forall valid_window ws -> valid_rate (limit ws t).
Proof.
  intros Hv. unfold limit, active. destruct (last _) as [w|] eqn:E; [|by vm_compute].
  apply last_Some_elem_of in E. rewrite list_elem_of_In, filter_In, <- list_elem_of_In in E. rewrite Forall_forall in Hv. apply Hv, E.
Qed.

Lemma scheduleAt_enforces cfg t : Forall valid_window (windows cfg) -> windows cfg <> [] ->
  returns (scheduleAt UTC cfg t) (enforces (windows cfg) t).
Proof.
  intros Hv Hne. unfold scheduleAt. run_step windowFor_stays; [done..|]. intros [w v] Hs.
  pose proof (stays_now _ _ _ Hs) as Hnow. simpl in Hnow.
  assert (exists d, (match w with
                     | None => match v with Some d => newSchedule t d (MkRate 0 ratePerSecond) | None => newSchedule t (1 * Minute) (MkRate 0 ratePerSecond) end
                     | Some w => match v with None => newSchedule t (24 * Hour) (w_rate w) | Some d => newSchedule t d (w_rate w) end
                     end) = newSchedule t d (limit (windows cfg) t) /\ (v = Some d \/ v = None /\ d = 24 * Hour)) as (d & -> & Hd).
  { unfold limit. rewrite <- Hnow. destruct w as [w|], v as [d|]; eauto. by destruct (stays_none _ _ _ Hs). }
  eapply returns_mono; [by apply newSchedule_valid, limit_valid|]. intros s (Hu & Hdur & Hr & Hlim).
  split.
  - rewrite Hu, Hr. intros x Hx. unfold limit. rewrite (stays_valid _ _ _ Hs x); [by rewrite <- Hnow|lia|].
    intros d' ?. simpl in *. destruct Hd as [?|[? ?]]; simplify_eq. lia.
  - done.
  - rewrite Hu, Hdur. split; [done|]. destruct Hd as [Hd|[_ ->]]; [by apply (stays_week _ _ _ Hs)|nlia].
  - by rewrite Hr.
  - intros Hc. rewrite Hu. destruct Hd as [Hd|[_ ->]]; [|nlia].
    pose proof (stays_aligned _ _ _ Hs d Hd). pose proof (stays_positive _ _ _ Hs d Hd) as Hp. simpl in Hp. rewrite Hnow in Hp.
    specialize (Hp Hc). nlia.
  - intros w' Ha Hc. rewrite Hu. destruct Hd as [Hd|[Hd _]].
    + apply (stays_closing _ _ _ Hs d w'); [done|simpl; congruence|done].
    + unfold closing in Hc. rewrite (stays_forever _ _ _ Hs w') in Hc; [done|simpl; congruence|done].
Qed.

(** ** Estimates *)

(** Rates for which the arithmetic on [float64] is exact enough, a thousand million
    per unit of time: rounding moves the number of changesets of a schedule by less
    than one. *)
Definition moderate (cfg : Configuration) : Prop := Forall (fun w => rate_n (w_rate w) < 2 ^ 30) (windows cfg).

(** The number of changesets that a rate allows in a duration, up to the fraction
    that is cut off and to one more for rounding. *)
Definition room (r : rate) (d k : Z) : Prop :=
  match AsDuration (rate_unit r) with
  | Done unit => 0 <= k /\ Z.abs (k * unit - rate_n r * d) < 2 * unit
  | _ => False
  end.

(** No rate-limited window is in force in the minute in which it closes. *)
Definition settles (ws : list Window) : Prop :=
  forall t w, active ws t = Some w -> closing w t = true -> IsUnlimited (w_rate w) = true.

Lemma limit_moderate cfg t : moderate cfg -> rate_n (limit (windows cfg) t) < 2 ^ 30.
Proof.
  unfold moderate, limit, active. rewrite Forall_forall. intros Hm. destruct (last _) as [w|] eqn:E; [|simpl; lia].
  apply last_Some_elem_of in E. rewrite list_elem_of_In, filter_In, <- list_elem_of_In in E. apply Hm, E.
Qed.

Section Estimates.
Context {F : FloatConversion} (cfg : Configuration) (now : Z).

(** The room of a schedule: [-1] when it is not limited. *)
Lemma total_room t s : Forall valid_window (windows cfg) -> moderate cfg -> enforces (windows cfg) t s ->
  (IsUnlimited (s_rate s) = false -> 0 <= s_duration s) ->
  returns (total s) (fun k =>
    if IsUnlimited (s_rate s) then k = -1 else room (s_rate s) (s_duration s) k /\ k < 2 ^ 53 /\ (s_duration s = 0 -> k = 0)).
Proof.
  intros Hv Hm He Hd. pose proof (limit_valid _ t Hv) as Hr. pose proof (limit_moderate cfg t Hm) as Hn.
  rewrite <- (enforces_now _ _ _ He) in Hr, Hn. unfold total, room. pose proof (enforces_zero _ _ _ He) as Hl.
  destruct (AsDuration_valid _ Hr) as (unit & -> & [Hu1 Hu2] & Hq & Hmul). destruct (s_limiter s) as [l|].
  - destruct (IsUnlimited (s_rate s)) eqn:Hu; [by apply returns_done|]. specialize (Hd eq_refl).
    cbn [run_bind]. apply returns_done. destruct (enforces_duration _ _ _ He) as [_ Hdur].
    assert (0 <= rate_n (s_rate s)) as H0 by (unfold IsUnlimited in Hu; apply Z.eqb_neq in Hu; destruct Hr; lia).
    assert (0 < rate_n (s_rate s)) by (destruct (decide (rate_n (s_rate s) = 0)) as [E0|]; [apply Hl in E0; done|lia]).
    set (p := rate_n (s_rate s) * Z.quot Hour unit). assert (0 < p <= 2 ^ 30 * 3600) by (subst p; nia).
    rewrite wrap64_small by lia. rewrite fmul_comm.
    assert (at_most 192 (fdiv (of_int (s_duration s)) (of_int Hour))) as Hin by (apply fdiv_at_most; nlia).
    assert (at_most (p * 192) (fmul (of_int p) (fdiv (of_int (s_duration s)) (of_int Hour)))) as Hout
      by (apply fmul_at_most; [lia|apply of_int_at_most; lia|done]).
    pose proof (to_int_at_most (p * 192) _ ltac:(lia) Hout). split_and!; [lia| |lia|].
    + assert (close (s_duration s) Hour 384 (fdiv (of_int (s_duration s)) (of_int Hour))) as Hc by (apply (fdiv_close 192); nlia).
      apply (fmul_close p 192) in Hc; [|lia|lia|done|done].
      apply (to_int_close (p * 192)) in Hc as Hk; [|lia|done|lia|done].
      set (k := to_int _) in *. apply (Z.mul_lt_mono_pos_r (Z.quot Hour unit)); [lia|].
      rewrite <- (Z.abs_eq (Z.quot Hour unit)) at 1 by lia. rewrite <- Z.abs_mul.
      replace ((k * unit - rate_n (s_rate s) * s_duration s) * Z.quot Hour unit) with (k * Hour - p * s_duration s)
        by (subst p; clearbody k; set (q := Z.quot Hour unit) in *; rewrite <- Hmul; ring). rewrite <- Z.mul_assoc, Hmul. done.
    + intros E0. rewrite E0, fmul_comm. apply to_int_zero; [done|lia].
  - apply returns_done. unfold IsUnlimited. rewrite (proj1 Hl eq_refl). change (0 =? -1) with false. rewrite !Z.mul_0_l. split_and!; nlia.
Qed.

(** The schedule at [u] is limited and lets [k] changesets through, as many as the
    configured rate allows in its time. *)
Record lets (u : Z) (s : Schedule) (k : Z) : Prop := {
  lets_schedule : scheduleAt UTC cfg u = Done s;
  lets_total : total s = Done k;
  lets_later : u < ValidUntil s;
  lets_limited : IsUnlimited (limit (windows cfg) u) = false;
  lets_room : room (limit (windows cfg) u) (ValidUntil s - u) k
}.

(** [walk c u]: from [now] on, schedule after schedule, [c] changesets are
    released before [u]. *)
Inductive walk : Z -> Z -> Prop :=
| walk_here : walk 0 now
| walk_next c u s k : walk c u -> lets u s k -> walk (c + k) (ValidUntil s).

Definition waiting (c n : Z) : Prop := c = 0 \/ c < n.

Inductive estimated (n : Z) : option Z -> Prop :=
| est_unlimited c u : walk c u -> u < now + Week -> waiting c n -> IsUnlimited (limit (windows cfg) u) = true ->
    estimated n (Some u)
| est_within c u s k t : walk c u -> u < now + Week -> waiting c n ->
    lets u s k -> 0 < k -> n <= c + k -> u <= t <= ValidUntil s -> (c + k = n -> t = ValidUntil s) ->
    Z.abs ((t - u) * k - (ValidUntil s - u) * (n - c)) < 2 * k -> estimated n (Some t)
| est_far c u : walk c u -> now + Week <= u -> waiting c n -> estimated n None.

(** One turn in the schedule that has room for the changeset: the part of the
    schedule's time that the part of its room in front of the changeset takes, less
    than two nanoseconds away. *)
Lemma duration_range rem k d : 0 < rem <= k -> k < 2 ^ 53 -> 0 < d <= Week + Day ->
  let t := to_int (fmul (of_int d) (fsub (of_int 1) (fdiv (fabs (of_int (- rem))) (of_int k)))) in
  0 <= t <= d /\ Z.abs (t * k - d * (k - rem)) < 2 * k.
Proof.
  intros Hr Hk Hd. rewrite fabs_of_int_opp by lia.
  assert (at_most 1 (fdiv (of_int rem) (of_int k))) as Hq by (apply fdiv_at_most; lia).
  pose proof (fsub_one_at_most _ Hq) as Hs.
  assert (at_most (d * 1) (fmul (of_int d) (fsub (of_int 1) (fdiv (of_int rem) (of_int k))))) as Ht
    by (apply fmul_at_most; [nlia|apply of_int_at_most; nlia|done]).
  cbv zeta. split; [rewrite <- (Z.mul_1_r d) at 3; apply to_int_at_most; [nlia|done]|].
  eapply (to_int_close (d * 1)); [nlia|lia| |done|]; cycle 1.
  - apply (fmul_close d 1); [nlia|nlia|lia|done|]. apply fsub_one_close; [lia|done|]. apply (fdiv_close 1); lia.
  - nlia.
Qed.

Hypothesis Hvalid : Forall valid_window (windows cfg).
Hypothesis Hsome : windows cfg <> [].
Hypothesis Hmoderate : moderate cfg.
Hypothesis Hsettles : settles (windows cfg).

Lemma settled_progress t s : enforces (windows cfg) t s -> IsUnlimited (s_rate s) = false ->
  t < ValidUntil s /\ t / Minute < ValidUntil s / Minute.
Proof.
  intros He Hu. apply (enforces_progress _ _ _ He). destruct (active (windows cfg) t) as [w|] eqn:E; [|done].
  destruct (closing w t) eqn:Hc; [|done]. pose proof (Hsettles t w E Hc) as H.
  rewrite (enforces_now _ _ _ He) in Hu. unfold limit in Hu. rewrite E in Hu. congruence.
Qed.

Lemma estimate_loop_correct n : 0 <= n < 2 ^ 62 -> forall fuel at_ c,
  walk c at_ -> waiting c n -> 0 <= c ->
  Z.max 0 ((now + Week) / Minute - at_ / Minute + 1) < Z.of_nat fuel ->
  returns (estimate_loop UTC cfg fuel (now + Week) at_ (n - c)) (estimated n).
Proof.
  intros Hn. induction fuel as [|fuel IH]; intros at_ c Hw Hc H0 Hf; cbn [estimate_loop].
  { lia. }
  destruct (Z.ltb_spec at_ (now + Week)) as [Hlt|Hge]; cbn [negb]; [|apply returns_done; by econstructor].
  destruct (scheduleAt_enforces cfg at_ Hvalid Hsome) as (s & Es & He). rewrite Es. cbn [run_bind].
  destruct (total_room at_ s Hvalid Hmoderate He) as (k & Ek & Hk).
  { intros Hu. destruct (settled_progress at_ s He Hu), (enforces_duration _ _ _ He). lia. }
  rewrite Ek. cbn [run_bind]. pose proof (enforces_duration _ _ _ He) as [Hdu Hdr].
  destruct (IsUnlimited (s_rate s)) eqn:Hu.
  { subst k. simpl. apply returns_done. eapply est_unlimited; [done..|]. by rewrite <- (enforces_now _ _ _ He). }
  destruct Hk as (Hroom & Hk & _), (settled_progress at_ s He Hu) as [Hp1 Hp2].
  assert (lets at_ s k) as Hlets.
  { split; [done..| |]; rewrite <- (enforces_now _ _ _ He); [done|]. by replace (ValidUntil s - at_) with (s_duration s) by lia. }
  assert (0 <= k) as Hk' by (unfold room in Hroom; destruct (AsDuration _); try done; apply Hroom).
  assert (at_ / Minute <= (now + Week) / Minute) as Hmin by (apply Z.div_le_mono; [done|lia]).
  rewrite (proj2 (Z.eqb_neq _ _)) by lia. destruct (Z.eqb_spec k 0) as [->|Hk0].
  { apply IH; [|done|done|lia]. rewrite <- (Z.add_0_r c). by apply (walk_next c at_). }
  assert (n - c - k = n - (c + k)) as Hsub by lia.
  rewrite wrap64_small by (destruct Hc; lia). rewrite Hsub. destruct (Z.ltb_spec (n - (c + k)) 0) as [Hneg|Hpos].
  - replace (n - (c + k)) with (- (c + k - n)) by lia. rewrite time_Sub_small by nlia.
    destruct (duration_range (c + k - n) k (ValidUntil s - at_)) as [Hd1 Hd2]; [destruct Hc; lia|lia|lia|].
    apply returns_done. eapply est_within; [done..|lia|lia|lia|lia|].
    rewrite Z.add_simpl_l. by replace (n - c) with (k - (c + k - n)) by lia.
  - destruct (Z.eqb_spec (n - (c + k)) 0).
    { apply returns_done. eapply est_within; [done..|lia|lia|lia|done|]. replace (n - c) with k by lia. rewrite Z.sub_diag. simpl. lia. }
    apply IH; [by apply (walk_next c at_)|right; lia|lia|lia].
Qed.
End Estimates.

(** Every turn reaches a later minute of the week, and one turn sees its end. *)
Definition estimate_fuel : nat := Z.to_nat 10082.

Lemma has_windows cfg : HasRolloutWindows cfg = true <-> windows cfg <> [].
Proof. unfold HasRolloutWindows. destruct (windows cfg); simpl; split; congruence. Qed.

(** A turn whose schedule does not have room for the changeset. *)
Lemma estimate_loop_step {F : FloatConversion} cfg fuel until t rem s k :
  t < until -> scheduleAt UTC cfg t = Done s -> total s = Done k -> 0 < k < rem -> rem < 2 ^ 63 ->
  estimate_loop UTC cfg (S fuel) until t rem = estimate_loop UTC cfg fuel until (ValidUntil s) (rem - k).
Proof.
  intros Hlt Es Ek Hk Hr. cbn [estimate_loop]. rewrite (proj2 (Z.ltb_lt _ _)), Es by done. cbn [negb run_bind]. rewrite Ek.
  cbn [run_bind]. rewrite wrap64_small by lia. rewrite !(proj2 (Z.eqb_neq _ _)), (proj2 (Z.ltb_ge _ _)) by lia. done.
Qed.

(** At the full minute of its end a limited window is in force with no time left:
    the loop stays where it is. *)
Lemma estimate_loop_stuck {F : FloatConversion} cfg t w until : Forall valid_window (windows cfg) -> moderate cfg ->
  active (windows cfg) t = Some w -> closing w t = true -> t mod Minute = 0 -> IsUnlimited (w_rate w) = false ->
  forall fuel rem, t < until -> estimate_loop UTC cfg fuel until t rem = OutOfFuel.
Proof.
  intros Hv Hm Ha Hc Ht Hu fuel rem Hlt. assert (windows cfg <> []) as Hne by (intros E; by rewrite E in Ha).
  induction fuel as [|fuel IH]; [done|]. cbn [estimate_loop]. rewrite (proj2 (Z.ltb_lt _ _)) by done. cbn [negb].
  destruct (scheduleAt_enforces cfg t Hv Hne) as (s & -> & He). cbn [run_bind].
  assert (ValidUntil s = t) as Hs by (rewrite (enforces_closing _ _ _ He w Ha Hc); lia).
  destruct (enforces_duration _ _ _ He) as [Hd _].
  assert (IsUnlimited (s_rate s) = false) as Hu' by (rewrite (enforces_now _ _ _ He); unfold limit; by rewrite Ha).
  destruct (total_room cfg t s Hv Hm He) as (k & -> & Hk); [lia|]. rewrite Hu' in Hk.
  destruct Hk as (_ & _ & ->); [|lia]. cbn [run_bind]. simpl. by rewrite Hs.
Qed.

(** ** Claims *)
Section Claims.
Context {U : UnicodeTables} {F : FloatConversion} (raw : option (list (option BatchChangeRolloutWindow))) (cfg : Configuration).

(** C24: For every site configuration that the parser accepts and at every time, with the clock in UTC ([ex_local_time] below shows that another zone differs), a schedule is made: no loop over the days panics or runs on.  The schedule has the rate of the last configured window that is open (none without one, and no limit without windows), that rate is the configured one at every time until the schedule ends, it has the rate limiter of that rate ([Take] refuses exactly when the rate is zero), and the schedule ends in a later minute unless the window is in its closing minute, when it has ended at the start of that minute. *)
Theorem Schedule_correct now : NewConfiguration raw = Ok cfg ->
  returns (Configuration_Schedule UTC cfg now) (fun s =>
    if HasRolloutWindows cfg then enforces (windows cfg) now s
    else IsUnlimited (s_rate s) = true /\ ValidUntil s = now + 10 * Minute).
Proof.
  intros Hv%NewConfiguration_valid. unfold Configuration_Schedule. destruct (HasRolloutWindows cfg) eqn:E; cbn [negb].
  - apply scheduleAt_enforces; [done|]. by apply has_windows.
  - by apply returns_done.
Qed.

(** C25: For every accepted configuration with rates below 2^30 per unit in which no rate-limited window is in force in its closing minute, for times in UTC and [0 <= n < 2^62], [Estimate] ends within as many turns as a week has minutes.  Walking from schedule to schedule, each letting through the number of changesets that the configured rate allows in its time (less than two away, for the cut fraction and [float64]), the estimate is the start of the first unlimited schedule, or it lies in the first schedule that has room for the changeset, at the share of the schedule's time that the changesets in front are of its room, less than two nanoseconds away (at its very end for the last place); there is none when a week passes before. *)
Theorem Estimate_correct now n :
  NewConfiguration raw = Ok cfg -> moderate cfg -> settles (windows cfg) -> 0 <= n < 2 ^ 62 ->
  returns (Estimate UTC cfg estimate_fuel now n) (fun r =>
    if HasRolloutWindows cfg then estimated cfg now n r else r = Some now).
Proof.
  intros Hv%NewConfiguration_valid Hm Hs Hn. unfold Estimate. destruct (HasRolloutWindows cfg) eqn:E; cbn [negb].
  - apply has_windows in E. rewrite <- (Z.sub_0_r n) at 1. apply estimate_loop_correct; [done..|constructor|by left|lia|].
    unfold estimate_fuel. rewrite Z2Nat.id by lia. nlia.
  - by apply returns_done.
Qed.

(** [Estimate] does not end when it comes to the time of day at which a rate-limited window that is in force ends: such a window still counts as open, its schedule has no time left, and the loop asks for the same time again with every amount of fuel. *)
Theorem Estimate_stuck w t n fuel :
  NewConfiguration raw = Ok cfg -> moderate cfg ->
  active (windows cfg) t = Some w -> closing w t = true -> t mod Minute = 0 -> IsUnlimited (w_rate w) = false ->
  Estimate UTC cfg fuel t n = OutOfFuel.
Proof.
  intros Hv%NewConfiguration_valid Hm Ha Hc Ht Hu. unfold Estimate.
  rewrite (proj2 (has_windows cfg)) by (intros E; by rewrite E in Ha). simpl. eapply estimate_loop_stuck; [done..|]. nlia.
Qed.
End Claims.

(** ** Examples *)
Section Examples.
#[local] Existing Instance plain_tables.
#[local] Instance amd64 : FloatConversion := {| outside_int64 := fun _ => - 2 ^ 63 |}.

Definition weekday (name rate : string) : option BatchChangeRolloutWindow :=
  Some (MkRawWindow [str name] [] (RawString (str rate)) []).
Definition ex_week : option (list (option BatchChangeRolloutWindow)) :=
  Some [weekday "monday" "10/hour"; weekday "tuesday" "20/hour"; weekday "wednesday" "10/hour"; weekday "thursday" "0/hour";
        weekday "friday" "10/hour"; weekday "sunday" "unlimited"].
Definition configured (raw : option (list (option BatchChangeRolloutWindow))) : Configuration :=
  match NewConfiguration raw with Ok cfg => cfg | Err _ => MkConfiguration [] end.
(** Noon of Monday, April 5, 2021. *)
Definition ex_monday : Z := 737884 * Day + 12 * Hour.

Lemma no_end_settles ws : forallb (fun w => match w_end w with None => true | Some _ => false end) ws = true -> settles ws.
Proof.
  intros H t w Ha Hc. unfold active in Ha. apply last_Some_elem_of in Ha.
  rewrite list_elem_of_In, filter_In in Ha. rewrite forallb_forall in H. specialize (H w (proj1 Ha)).
  unfold closing in Hc. by destruct (w_end w).
Qed.

Lemma Schedule_correct_witness :
  returns (Configuration_Schedule UTC (configured ex_week) ex_monday) (enforces (windows (configured ex_week)) ex_monday).
Proof. exact (Schedule_correct ex_week (configured ex_week) ex_monday eq_refl). Defined.

Lemma Estimate_correct_witness :
  returns (Estimate UTC (configured ex_week) estimate_fuel (ex_monday + Day) 20)
    (estimated (configured ex_week) (ex_monday + Day) 20).
Proof.
  apply (Estimate_correct ex_week (configured ex_week) (ex_monday + Day) 20 eq_refl).
  - repeat constructor.
  - apply no_end_settles. reflexivity.
  - lia.
Defined.

(** The estimates of the table in [config_test.go]; one is a nanosecond short. *)
Example ex_estimates :
  map (fun p => Estimate UTC (configured ex_week) 100 (ex_monday + p.1 * Day) p.2) [(6, 1000); (0, 0); (5, 0); (1, 20); (2, 120); (3, 10)] =
  [Done (Some (ex_monday + 6 * Day)); Done (Some ex_monday); Done (Some (ex_monday + 5 * Day + 12 * Hour));
   Done (Some (ex_monday + Day + Hour)); Done (Some (ex_monday + 2 * Day + 12 * Hour));
   Done (Some (ex_monday + 3 * Day + 13 * Hour - 1))].
Proof. vm_compute. reflexivity. Qed.

(** The first example of the documentation of rollout windows. *)
Definition ex_office : option (list (option BatchChangeRolloutWindow)) :=
  Some [Some (MkRawWindow [] [] (RawString (str "unlimited")) []);
        Some (MkRawWindow [str "monday"; str "tuesday"; str "wednesday"; str "thursday"; str "friday"]
                (str "16:00") (RawString (str "3/minute")) (str "08:00"))].

Definition ex_office_window : Window :=
  MkWindow 62 (Some (timeOfDayFromParts 8 0)) (Some (timeOfDayFromParts 16 0)) (MkRate 3 ratePerMinute).

Lemma Estimate_stuck_witness : Estimate UTC (configured ex_office) 5 (ex_monday + 4 * Hour) 0 = OutOfFuel.
Proof.
  apply (Estimate_stuck ex_office (configured ex_office) ex_office_window (ex_monday + 4 * Hour) 0 5 eq_refl);
    [repeat constructor|vm_compute; reflexivity..].
Defined.

(** With that configuration, at noon and with 1000 changesets in front: the
    estimate is not reached, whatever the fuel. *)
Theorem ex_office_hangs fuel : Estimate UTC (configured ex_office) fuel ex_monday 1000 = OutOfFuel.
Proof.
  destruct fuel as [|fuel]; [reflexivity|].
  transitivity (estimate_loop UTC (configured ex_office) fuel (ex_monday + Week) (ex_monday + 4 * Hour) 280).
  { apply (estimate_loop_step _ _ _ _ 1000
      (MkSchedule (Some (NewLimiter 3 Minute)) (ex_monday + 4 * Hour) (4 * Hour) (MkRate 3 ratePerMinute)) 720);
      [vm_compute; reflexivity..|lia|lia]. }
  apply (estimate_loop_stuck _ _ ex_office_window); [|repeat constructor|vm_compute; reflexivity..].
  by apply (NewConfiguration_valid ex_office).
Qed.

(** The closing minute: the schedule has ended when it is made. *)
Example ex_closing_minute : forall s, scheduleAt UTC (configured ex_office) (ex_monday + 4 * Hour + 30 * Second) = Done s ->
  ValidUntil s = ex_monday + 4 * Hour.
Proof. intros s H. vm_compute in H. by simplify_eq. Qed.

(** Five hours west of UTC: at 15:30 local time the window counts as open, and
    its schedule has ended four and a half hours ago, at 16:00 in UTC. *)
Example ex_local_time : forall s, Configuration_Schedule (fun _ => - 5 * Hour) (configured ex_office) (ex_monday + 8 * Hour + 30 * Minute) = Done s ->
  s_rate s = MkRate 3 ratePerMinute /\ ValidUntil s = ex_monday + 4 * Hour.
Proof. intros s H. vm_compute in H. by simplify_eq. Qed.

(** The number 0 of a JSON document is not accepted as a rate, and an empty
    array means no limit. *)
Example ex_json_zero : parseRate (RawOther (str "float64")) = Err (str "malformed rate: unknown type float64").
Proof. reflexivity. Qed.
Example ex_empty_array : forall s, Configuration_Schedule UTC (configured (Some [])) ex_monday = Done s -> IsUnlimited (s_rate s) = true.
Proof. intros s H. vm_compute in H. by simplify_eq. Qed.
End Examples.
