(* ===== verification/Scheduler.v ===== *)
(** The scheduler of batch changes: [enterprise/internal/batches/scheduler] with
    the active configuration of [types/scheduler/config] and the queries of the
    queue in [store/changesets.go].

    The scheduler and its tickers are goroutines that meet on channels without a
    buffer; a step of the system is a step of one of them or a meeting of two.
    The table is the list of changesets.  Where changesets have the same
    [updated_at], as all those of one applied batch change have, the database may
    order them in any way, and in another way for each statement: the order is a
    parameter of the two queries. *)
From stdpp Require Import sorting relations.
From S2P Require Import Prelude GoStr GoLib GoMap Changesets ChangesetHistory Float64 Window WindowFacts WindowCorrect.
#[local] Open Scope Z_scope.

(** ** The queue of scheduled changesets *)

Definition is_scheduled (c : Changeset) : bool := bool_decide (c_ReconcilerState c = Scheduled).
Definition updated_before (a b : Changeset) : Prop := c_UpdatedAt a <= c_UpdatedAt b.
#[export] Instance updated_before_dec : RelDecision updated_before.
Proof. intros a b. unfold updated_before. apply _. Defined.
#[export] Instance updated_before_total : base.Total updated_before.
Proof. intros a b. unfold updated_before. lia. Qed.
#[export] Instance updated_before_trans : Transitive updated_before.
Proof. intros a b c. unfold updated_before. lia. Qed.

(** What PostgreSQL promises of [ORDER BY updated_at ASC] for one statement. *)
Record ordering := MkOrdering {
  order_by : list Changeset -> list Changeset;
  order_by_perm l : order_by l ≡ₚ l;
  order_by_sorted l : StronglySorted updated_before (order_by l)
}.

(** [WHERE reconciler_state = 'SCHEDULED' ORDER BY updated_at ASC]. *)
Definition scheduled_order (o : ordering) (table : list Changeset) : list Changeset :=
  order_by o (List.filter is_scheduled table).

Inductive store_error := ErrNoResults | OtherStoreError (msg : gostring).

(** The two statements; [fails] is an error of the database. *)
Definition EnqueueNextScheduledChangeset (o : ordering) (fails : option gostring) (table : list Changeset)
    : list Changeset * result store_error Changeset :=
  match fails with
  | Some msg => (table, Err (OtherStoreError msg))
  | None =>
      match scheduled_order o table with
      | [] => (table, Err ErrNoResults)
      | c :: _ =>
          (map (fun c' => if c_ID c' =? c_ID c then set_ReconcilerState c' Queued else c') table,
           if c_ID c =? 0 then Err ErrNoResults else Ok (set_ReconcilerState c Queued))
      end
  end.

Fixpoint row_number (id : Z) (n : Z) (order : list Changeset) : option Z :=
  match order with
  | [] => None
  | c :: order => if c_ID c =? id then Some n else row_number id (n + 1) order
  end.
Definition GetChangesetPlaceInSchedulerQueue (o : ordering) (fails : option gostring) (id : Z) (table : list Changeset) : result store_error Z :=
  match fails with
  | Some msg => Err (OtherStoreError msg)
  | None =>
      match row_number id 1 (scheduled_order o table) with
      | None => Err ErrNoResults
      | Some place => Ok (place - 1)
      end
  end.

(** [ScheduleEstimateAt] of the changeset resolver; the clock is in UTC. *)
Definition ScheduleEstimateAt {F : FloatConversion} (fuel : nat) (cfg : Configuration) (o : ordering) (fails : option gostring)
    (now id : Z) (table : list Changeset) : run (result store_error (option Z)) :=
  match GetChangesetPlaceInSchedulerQueue o fails id table with
  | Err ErrNoResults => Done (Ok None)
  | Err err => Done (Err err)
  | Ok place => let! at_ := Estimate UTC cfg fuel now place in Done (Ok at_)
  end.

(** ** The delay without work *)

Record backoff := MkBackoff { b_init : Z; b_multiplier : Z; b_limit : Z; b_current : Z }.
Definition newBackoff (init multiplier limit : Z) : backoff := MkBackoff init multiplier limit init.
Definition backoff_next (b : backoff) : Z * backoff :=
  let current := wrap64 (b_current b * b_multiplier b) in
  (b_current b, MkBackoff (b_init b) (b_multiplier b) (b_limit b) (if b_limit b <? current then b_limit b else current)).
Definition backoff_reset (b : backoff) : backoff := MkBackoff (b_init b) (b_multiplier b) (b_limit b) (b_init b).

(** ** The active configuration *)

Section Watch.
Context {U : UnicodeTables}.
Notation Raw := (option (list (option BatchChangeRolloutWindow))).
(** [sameConfiguration] compares the JSON of its arguments. *)
Context (sameConfiguration : Raw -> Raw -> bool).

Record configuration := MkActive { cfg_first : bool; cfg_active : option Configuration; cfg_raw : Raw; cfg_notified : Z }.
Definition newConfiguration : configuration := MkActive true None None 0.

(** The function that [conf.Watch] calls with each site configuration. *)
Definition on_update (c : configuration) (incoming : Raw) : configuration :=
  if negb (cfg_first c) && sameConfiguration (cfg_raw c) incoming then c
  else
    match NewConfiguration incoming with
    | Err _ => c
    | Ok cfg => MkActive false (Some cfg) incoming (cfg_notified c + 1)
    end.
End Watch.

(** [config.ActiveWindow().Schedule()]: [Schedule] reads a field of its receiver. *)
Definition active_Schedule (loc : Location) (active : option Configuration) (now : Z) : run Schedule :=
  match active with None => Panics "nil pointer dereference" | Some cfg => Configuration_Schedule loc cfg now end.

(** ** Goroutines *)

(** The loop of a ticker: before the check of [done], inside of [Take], waiting
    for [done] with a zero schedule, offering a channel, waiting for the answer
    on it, sleeping, and ended with [C] closed. *)
Inductive TickPhase := TickTop | TickTake | TickWaitDone | TickOffer | TickAwait | TickSleep (d : Z) | TickClosed.
Record ticker := MkTicker { t_schedule : Schedule; t_done : bool; t_phase : TickPhase }.
Definition newTicker (s : Schedule) : ticker := MkTicker s false TickTop.
Definition ticker_stop (t : ticker) : ticker := MkTicker (t_schedule t) true (t_phase t).

(** What a ticker does alone. *)
Inductive tick_step : ticker -> ticker -> Prop :=
| tick_done s : tick_step (MkTicker s true TickTop) (MkTicker s true TickClosed)
| tick_go s : tick_step (MkTicker s false TickTop) (MkTicker s false TickTake)
| tick_zero s done : s_limiter s = None -> tick_step (MkTicker s done TickTake) (MkTicker s done TickWaitDone)
| tick_take s done : s_limiter s <> None -> tick_step (MkTicker s done TickTake) (MkTicker s done TickOffer)
| tick_zero_done s : tick_step (MkTicker s true TickWaitDone) (MkTicker s true TickClosed)
| tick_offer_done s : tick_step (MkTicker s true TickOffer) (MkTicker s true TickClosed)
| tick_wake s done d : tick_step (MkTicker s done (TickSleep d)) (MkTicker s done TickTop).

(** The ticker receives the answer. *)
Definition answered (t : ticker) (delay : Z) : ticker :=
  MkTicker (t_schedule t) (t_done t) (if 0 <? delay then TickSleep delay else TickTop).

Inductive SchedulerPhase := Selecting | Enqueuing | Stopped.

(** The state of [Start]; [sys_used] and [sys_made] are the configuration and the
    time that the current schedule was made with, [sys_stopped] the tickers that
    were told to stop, and [sys_pending] the notifications not yet received. *)
Record System := MkSystem {
  sys_clock : Z; sys_active : option Configuration; sys_pending : nat; sys_table : list Changeset;
  sys_phase : SchedulerPhase; sys_backoff : backoff;
  sys_used : Configuration; sys_made : Z; sys_ticker : ticker; sys_stopped : list ticker }.

(** [enqueueChangeset] and the delay that is sent back. *)
Definition enqueueChangeset (o : ordering) (fails : option gostring) (table : list Changeset) (b : backoff) : list Changeset * Z * backoff :=
  match EnqueueNextScheduledChangeset o fails table with
  | (table, Err _) => let '(d, b) := backoff_next b in (table, d, b)
  | (table, Ok _) => (table, 0, backoff_reset b)
  end.

Definition scheduler_backoff : backoff := newBackoff (5 * Second) 2 (1 * Minute).

Section System.
Context (loc : Location).

(** The first turn of the outer loop. *)
Inductive started : System -> Prop :=
| started_with clock cfg pending table s :
    active_Schedule loc (Some cfg) clock = Done s ->
    started (MkSystem clock (Some cfg) pending table Selecting scheduler_backoff cfg clock (newTicker s) []).

(** The next turn: a new schedule and ticker, the old one is stopped. *)
Definition renewed (pending : nat) (sys sys' : System) : Prop :=
  exists cfg s, sys_active sys = Some cfg /\ Configuration_Schedule loc cfg (sys_clock sys) = Done s /\
    sys' = MkSystem (sys_clock sys) (Some cfg) pending (sys_table sys) Selecting (sys_backoff sys)
             cfg (sys_clock sys) (newTicker s) (ticker_stop (sys_ticker sys) :: sys_stopped sys).

Inductive step : System -> System -> Prop :=
| step_time sys dt : 0 <= dt ->
    step sys (MkSystem (sys_clock sys + dt) (sys_active sys) (sys_pending sys) (sys_table sys) (sys_phase sys) (sys_backoff sys)
                (sys_used sys) (sys_made sys) (sys_ticker sys) (sys_stopped sys))
| step_table sys table :
    step sys (MkSystem (sys_clock sys) (sys_active sys) (sys_pending sys) table (sys_phase sys) (sys_backoff sys)
                (sys_used sys) (sys_made sys) (sys_ticker sys) (sys_stopped sys))
| step_update sys cfg :
    step sys (MkSystem (sys_clock sys) (Some cfg) (S (sys_pending sys)) (sys_table sys) (sys_phase sys) (sys_backoff sys)
                (sys_used sys) (sys_made sys) (sys_ticker sys) (sys_stopped sys))
| step_tick sys t : tick_step (sys_ticker sys) t ->
    step sys (MkSystem (sys_clock sys) (sys_active sys) (sys_pending sys) (sys_table sys) (sys_phase sys) (sys_backoff sys)
                (sys_used sys) (sys_made sys) t (sys_stopped sys))
| step_old sys old1 t t' old2 : sys_stopped sys = old1 ++ t :: old2 -> tick_step t t' ->
    step sys (MkSystem (sys_clock sys) (sys_active sys) (sys_pending sys) (sys_table sys) (sys_phase sys) (sys_backoff sys)
                (sys_used sys) (sys_made sys) (sys_ticker sys) (old1 ++ t' :: old2))
| step_accept sys : sys_phase sys = Selecting -> t_phase (sys_ticker sys) = TickOffer ->
    step sys (MkSystem (sys_clock sys) (sys_active sys) (sys_pending sys) (sys_table sys) Enqueuing (sys_backoff sys)
                (sys_used sys) (sys_made sys) (MkTicker (t_schedule (sys_ticker sys)) (t_done (sys_ticker sys)) TickAwait) (sys_stopped sys))
| step_answer sys o fails table d b : sys_phase sys = Enqueuing -> t_phase (sys_ticker sys) = TickAwait ->
    enqueueChangeset o fails (sys_table sys) (sys_backoff sys) = (table, d, b) ->
    step sys (MkSystem (sys_clock sys) (sys_active sys) (sys_pending sys) table Selecting b
                (sys_used sys) (sys_made sys) (answered (sys_ticker sys) d) (sys_stopped sys))
| step_expired sys sys' : sys_phase sys = Selecting -> ValidUntil (t_schedule (sys_ticker sys)) <= sys_clock sys ->
    renewed (sys_pending sys) sys sys' -> step sys sys'
| step_notified sys sys' pending : sys_phase sys = Selecting -> sys_pending sys = S pending ->
    renewed pending sys sys' -> step sys sys'
| step_stop sys : sys_phase sys = Selecting ->
    step sys (MkSystem (sys_clock sys) (sys_active sys) (sys_pending sys) (sys_table sys) Stopped (sys_backoff sys)
                (sys_used sys) (sys_made sys) (ticker_stop (sys_ticker sys)) (sys_stopped sys)).

Definition reachable (sys : System) : Prop := exists sys0, started sys0 /\ rtc step sys0 sys.
End System.

(** ** The queue is first in, first out *)

(** Identifiers are distinct and not zero: those of a [bigserial] column. *)
Record queue_ok (table : list Changeset) : Prop := {
  queue_ids : NoDup (map c_ID table);
  queue_nonzero : Forall (fun c => c_ID c <> 0) table
}.

Definition take_out (id : Z) (c : Changeset) : Changeset := if c_ID c =? id then set_ReconcilerState c Queued else c.

Lemma take_out_id id c : c_ID (take_out id c) = c_ID c.
Proof. unfold take_out. by destruct (c_ID c =? id). Qed.

Lemma scheduled_take_out id table :
  List.filter is_scheduled (map (take_out id) table) = List.filter (fun c => negb (c_ID c =? id)) (List.filter is_scheduled table).
Proof.
  rewrite filter_filter_andb. induction table as [|c table IH]; simpl; [done|].
  destruct (c_ID c =? id) eqn:E; simpl.
  - assert (is_scheduled (take_out id c) = false) as -> by (unfold take_out; by rewrite E). by rewrite andb_false_r.
  - assert (take_out id c = c) as -> by (unfold take_out; by rewrite E). by rewrite andb_true_r, IH.
Qed.

Lemma scheduled_order_perm o table : scheduled_order o table ≡ₚ List.filter is_scheduled table.
Proof. apply order_by_perm. Qed.

Lemma scheduled_ids table : queue_ok table -> NoDup (map c_ID (List.filter is_scheduled table)).
Proof.
  intros Hq. pose proof (queue_ids _ Hq) as Hn. clear Hq.
  induction table as [|c table IH]; simpl in *; [done|]. apply NoDup_cons in Hn as [Hc Hn].
  destruct (is_scheduled c); [|by apply IH]. simpl. apply NoDup_cons. split; [|by apply IH].
  rewrite !list_elem_of_In in *. intros (x & Hx & Hin)%in_map_iff. apply filter_In in Hin as [Hin _].
  apply Hc, in_map_iff. eauto.
Qed.

Lemma filter_others c rest : NoDup (map c_ID (c :: rest)) ->
  List.filter (fun c' => negb (c_ID c' =? c_ID c)) (c :: rest) = rest.
Proof.
  simpl. rewrite Z.eqb_refl. simpl. intros [Hc _]%NoDup_cons. induction rest as [|x rest IH]; simpl; [done|].
  simpl in Hc. rewrite not_elem_of_cons in Hc. destruct Hc as [Hx Hc].
  rewrite (proj2 (Z.eqb_neq _ _)) by congruence. simpl. by rewrite IH.
Qed.

Lemma queue_ok_take_out id table : queue_ok table -> queue_ok (map (take_out id) table).
Proof.
  intros [H1 H2]. split.
  - rewrite map_map. rewrite (map_ext _ c_ID) by (intros; apply take_out_id). done.
  - apply Forall_fmap. eapply Forall_impl; [exact H2|]. intros c ?. simpl. by rewrite take_out_id.
Qed.

(** One call, whatever order the database chooses: it moves a changeset that no
    other scheduled one is older than, and leaves the others. *)
Lemma enqueue_step o table c rest : queue_ok table -> List.filter is_scheduled table ≡ₚ c :: rest ->
  exists x, EnqueueNextScheduledChangeset o None table = (map (take_out (c_ID x)) table, Ok (set_ReconcilerState x Queued)) /\
    List.filter is_scheduled table ≡ₚ x :: List.filter is_scheduled (map (take_out (c_ID x)) table) /\
    (forall y, y ∈ List.filter is_scheduled table -> updated_before x y).
Proof.
  intros Hq Hp. unfold EnqueueNextScheduledChangeset.
  pose proof (scheduled_order_perm o table) as Ho. pose proof (order_by_sorted o (List.filter is_scheduled table)) as Hs.
  fold (scheduled_order o table) in Hs. destruct (scheduled_order o table) as [|x xs].
  { rewrite Hp in Ho. by apply Permutation_nil_cons in Ho. }
  exists x. assert (x ∈ List.filter is_scheduled table) as Hx by (rewrite <- Ho; by left). split_and!.
  - rewrite (proj2 (Z.eqb_neq _ _)); [done|]. pose proof (queue_nonzero _ Hq) as H. rewrite Forall_forall in H. apply H.
    rewrite list_elem_of_In, filter_In, <- list_elem_of_In in Hx. apply Hx.
  - rewrite scheduled_take_out, <- Ho. rewrite filter_others; [done|].
    rewrite Ho. by apply scheduled_ids.
  - intros y. rewrite <- Ho. apply StronglySorted_cons in Hs as [Hs _]. rewrite Forall_forall in Hs.
    intros [->|Hy]%elem_of_cons; [unfold updated_before; lia|by apply Hs].
Qed.

(** The table after [k] calls, each with its own order. *)
Fixpoint enqueued (os : nat -> ordering) (k : nat) (table : list Changeset) : list Changeset :=
  match k with O => table | S k => (EnqueueNextScheduledChangeset (os k) None (enqueued os k table)).1 end.

(** Call number [k] moves [c] to the queued state. *)
Definition moves (os : nat -> ordering) (table : list Changeset) (k : nat) (c : Changeset) : Prop :=
  (EnqueueNextScheduledChangeset (os k) None (enqueued os k table)).2 = Ok (set_ReconcilerState c Queued).

(** The calls move the scheduled changesets one after the other, oldest first. *)
Lemma calls_sorted os table n : queue_ok table -> (n <= length (List.filter is_scheduled table))%nat ->
  exists xs, length xs = n /\ queue_ok (enqueued os n table) /\ (forall k x, xs !! k = Some x -> moves os table k x) /\
    List.filter is_scheduled table ≡ₚ xs ++ List.filter is_scheduled (enqueued os n table) /\ StronglySorted updated_before xs /\
    forall x y, x ∈ xs -> y ∈ List.filter is_scheduled (enqueued os n table) -> updated_before x y.
Proof.
  intros Hq. induction n as [|n IH]; intros Hn.
  { exists []. split_and!; try done; [constructor|]. intros x y Hx. by apply not_elem_of_nil in Hx. }
  destruct IH as (xs & Hlen & Hq' & Hm & Hp & Hs & Hle); [lia|].
  assert (exists c rest, List.filter is_scheduled (enqueued os n table) ≡ₚ c :: rest) as (c & rest & Hc).
  { apply Permutation_length in Hp. rewrite length_app in Hp. destruct (List.filter is_scheduled (enqueued os n table)) as [|c rest]; simpl in Hp; [lia|]. eauto. }
  destruct (enqueue_step (os n) _ c rest Hq' Hc) as (x & E & Hx & Hmin). exists (xs ++ [x]). cbn [enqueued]. rewrite E. cbn [fst].
  assert (x ∈ List.filter is_scheduled (enqueued os n table)) as Hin by (rewrite Hx; by left).
  split_and!.
  - rewrite length_app. simpl. lia.
  - by apply queue_ok_take_out.
  - intros k y [Hy|[Hk Hy]]%lookup_app_Some; [by apply Hm|]. apply list_lookup_singleton_Some in Hy as [Hk0 <-].
    replace k with n by lia. unfold moves. by rewrite E.
  - rewrite Hp, Hx at 1. by rewrite <- app_assoc.
  - apply StronglySorted_app_2; [|done|repeat constructor]. intros y z Hy ->%list_elem_of_singleton. by apply Hle.
  - intros y z [Hy|Hy]%elem_of_app Hz; [|apply list_elem_of_singleton in Hy as ->].
    + apply Hle; [done|]. rewrite Hx. by right.
    + apply Hmin. rewrite Hx. by right.
Qed.

(** The number of scheduled changesets that are older, and of those of the same
    age, itself included. *)
Definition older (c : Changeset) (l : list Changeset) : nat := length (List.filter (fun x => c_UpdatedAt x <? c_UpdatedAt c) l).
Definition same_age (c : Changeset) (l : list Changeset) : nat := length (List.filter (fun x => c_UpdatedAt x =? c_UpdatedAt c) l).

Lemma older_head_none c l : Forall (updated_before c) l -> older c l = 0%nat.
Proof.
  unfold older, updated_before. induction 1 as [|x l Hx _ IH]; simpl; [done|]. by rewrite (proj2 (Z.ltb_ge _ _)).
Qed.

Lemma sorted_index l q c : StronglySorted updated_before l -> l !! q = Some c ->
  (older c l <= q < older c l + same_age c l)%nat.
Proof.
  revert q. induction l as [|x l IH]; intros q Hs Hq; [done|]. apply StronglySorted_cons in Hs as [Hx Hs]. destruct q as [|q]; simpl in Hq.
  - injection Hq as ->. rewrite older_head_none by (constructor; [unfold updated_before; lia|done]).
    unfold same_age. simpl. rewrite Z.eqb_refl. simpl. lia.
  - specialize (IH q Hs Hq). rewrite Forall_forall in Hx. apply list_elem_of_lookup_2 in Hq. specialize (Hx c Hq).
    unfold updated_before in Hx. unfold older, same_age in *. simpl.
    destruct (Z.ltb_spec (c_UpdatedAt x) (c_UpdatedAt c)), (Z.eqb_spec (c_UpdatedAt x) (c_UpdatedAt c)); simpl; lia.
Qed.

Lemma sorted_lookup l i j x y : StronglySorted updated_before l -> l !! i = Some x -> l !! j = Some y -> (i < j)%nat -> updated_before x y.
Proof.
  intros Hs Hx Hy Hlt. rewrite <- (take_drop_middle l i x Hx) in Hs, Hy. revert Hy. rewrite lookup_app_r by (rewrite length_take; lia).
  rewrite length_take_le by (apply lookup_lt_Some in Hx; lia). destruct (j - i)%nat as [|n] eqn:E; [lia|]. simpl.
  intros Hy%list_elem_of_lookup_2. apply StronglySorted_app_1_r, StronglySorted_cons in Hs as [Hs _].
  rewrite Forall_forall in Hs. by apply Hs.
Qed.

Lemma kept_perm {A} (f : A -> bool) l l' : l ≡ₚ l' -> List.filter f l ≡ₚ List.filter f l'.
Proof. induction 1; simpl; repeat case_match; try done; [by constructor..|by etransitivity]. Qed.

Lemma counts_perm c l l' : l ≡ₚ l' -> older c l = older c l' /\ same_age c l = same_age c l'.
Proof. intros H. split; by apply Permutation_length, kept_perm. Qed.

Lemma row_number_spec id n order place : row_number id n order = Some place ->
  exists c, n <= place /\ order !! Z.to_nat (place - n) = Some c /\ c_ID c = id /\
    forall k c', (k < Z.to_nat (place - n))%nat -> order !! k = Some c' -> c_ID c' <> id.
Proof.
  revert n. induction order as [|c order IH]; intros n; simpl; [done|].
  destruct (Z.eqb_spec (c_ID c) id) as [E|E].
  - intros. simplify_eq. exists c. rewrite Z.sub_diag. split_and!; [lia|done..|]. intros; lia.
  - intros (c' & Hle & Hc & Hid & Hbefore)%IH. exists c'.
    replace (Z.to_nat (place - n)) with (S (Z.to_nat (place - (n + 1)))) by lia. split_and!; [lia|done..|].
    intros [|k] x ? Hx; simpl in Hx; [congruence|]. apply (Hbefore k); [lia|done].
Qed.

(** C28: The queue of scheduled changesets is first in, first out by [updated_at], and places are exact up to changesets of the same time, among which the database is free in every statement.  For distinct and non-zero identifiers, and whatever order each statement chooses: the place of a scheduled changeset is between the number of older ones and that number plus those of the same time; a call of [EnqueueNextScheduledChangeset] within the same bounds moves it to the queued state, every call before moves another one that is not younger, and the first calls move the older ones.  Without another changeset of the same time the place is exactly the number (from zero) of the call that moves it.  This is the number that the estimates are made for. *)
Theorem queue_fifo table id p o os : queue_ok table -> GetChangesetPlaceInSchedulerQueue o None id table = Ok p ->
  exists c q, c ∈ List.filter is_scheduled table /\ c_ID c = id /\
    let before := older c (List.filter is_scheduled table) in let alike := same_age c (List.filter is_scheduled table) in
    Z.of_nat before <= p < Z.of_nat (before + alike) /\ (before <= q < before + alike)%nat /\ moves os table q c /\
    (forall k, (k < q)%nat -> exists c', moves os table k c' /\ c_ID c' <> id /\ c_UpdatedAt c' <= c_UpdatedAt c /\
      ((k < before)%nat -> c_UpdatedAt c' < c_UpdatedAt c)) /\
    (alike = 1%nat -> p = Z.of_nat q).
Proof.
  intros Hq. unfold GetChangesetPlaceInSchedulerQueue. destruct (row_number id 1 _) as [place|] eqn:E; [|done].
  intros [= <-]. apply row_number_spec in E as (c & Hle & Hc & Hid & _).
  set (l := List.filter is_scheduled table).
  pose proof (sorted_index _ _ _ (order_by_sorted o l) Hc) as Hp. destruct (counts_perm c _ _ (order_by_perm o l)) as [Eo Es].
  rewrite Eo, Es in Hp.
  assert (c ∈ l) as Hin by (unfold l; rewrite <- (scheduled_order_perm o table); by eapply list_elem_of_lookup_2).
  destruct (calls_sorted os table (length l) Hq ltac:(done)) as (xs & Hlen & _ & Hm & Hperm & Hs & _).
  assert (l ≡ₚ xs) as Hx.
  { fold l in Hperm. pose proof (Permutation_length Hperm) as Hl. rewrite length_app in Hl.
    destruct (List.filter is_scheduled (enqueued os (length l) table)); [by rewrite app_nil_r in Hperm|simpl in Hl; lia]. }
  assert (c ∈ xs) as Hcx by (by rewrite <- Hx). apply list_elem_of_lookup_1 in Hcx as [q Hcq].
  destruct (counts_perm c _ _ Hx) as [Eo' Es']. pose proof (sorted_index _ _ _ Hs Hcq) as Hqb. rewrite <- Eo', <- Es' in Hqb.
  exists c, q. cbv zeta. fold l. split_and!; [done|done|lia|lia|lia|lia|by apply Hm| |lia].
  intros k Hk. destruct (lookup_lt_is_Some_2 xs k) as [x Hxk]; [apply lookup_lt_Some in Hcq; lia|].
  assert (updated_before x c) as Hxc by (by eapply (sorted_lookup xs)).
  exists x. split_and!; [by apply Hm| |done|].
  - assert (NoDup (map c_ID xs)) as Hn by (rewrite <- Hx; by apply scheduled_ids).
    intros Ex. rewrite <- Ex in Hid. assert (k = q); [|lia].
    eapply (NoDup_lookup (map c_ID xs)); [done|rewrite list_lookup_fmap, Hxk; done|rewrite list_lookup_fmap, Hcq; simpl; congruence].
  - intros Hb. pose proof (sorted_index _ _ _ Hs Hxk) as Hkb. destruct (Z.eq_dec (c_UpdatedAt x) (c_UpdatedAt c)) as [Eu|]; [|unfold updated_before in Hxc; lia].
    exfalso. unfold older at 1 in Hkb. rewrite Eu in Hkb. fold (older c xs) in Hkb. lia.
Qed.

(** ** Reachable states *)

Definition backoff_ok (b : backoff) : Prop :=
  b_init b = 5 * Second /\ b_multiplier b = 2 /\ b_limit b = 1 * Minute /\ 5 * Second <= b_current b <= 1 * Minute.

Lemma backoff_next_ok b : backoff_ok b -> 5 * Second <= (backoff_next b).1 <= 1 * Minute /\ backoff_ok (backoff_next b).2.
Proof.
  intros (H1 & H2 & H3 & H4). unfold backoff_ok, backoff_next. simpl. rewrite H2, H3, wrap64_small by nlia.
  split; [done|]. split_and!; [done..| |]; destruct (Z.ltb_spec (1 * Minute) (b_current b * 2)); nlia.
Qed.

Lemma enqueueChangeset_ok o fails table b table' d b' : backoff_ok b -> enqueueChangeset o fails table b = (table', d, b') ->
  backoff_ok b' /\ (d = 0 \/ 5 * Second <= d <= 1 * Minute).
Proof.
  intros Hb. unfold enqueueChangeset. pose proof (backoff_next_ok b Hb) as Hn.
  destruct (EnqueueNextScheduledChangeset o fails table) as [table1 [c|err]].
  - intros. simplify_eq. destruct Hb as (? & ? & ? & ?). unfold backoff_ok, backoff_reset. simpl. split; [|by left].
    split_and!; [done..|nlia|nlia].
  - destruct (backoff_next b). intros. simplify_eq. simpl in Hn. destruct Hn. by split; [|right].
Qed.

(** A ticker offers, and waits for an answer, only with a rate above zero. *)
Definition ticker_ok (t : ticker) : Prop :=
  match t_phase t with
  | TickOffer | TickAwait => s_limiter (t_schedule t) <> None
  | TickSleep d => 0 < d <= 1 * Minute
  | _ => True
  end.

Lemma tick_step_ok t t' : tick_step t t' -> ticker_ok t ->
  ticker_ok t' /\ t_schedule t' = t_schedule t /\ t_done t' = t_done t /\ t_phase t <> TickAwait /\ t_phase t' <> TickAwait.
Proof. by destruct 1. Qed.

Record sys_ok (loc : Location) (sys : System) : Prop := {
  ok_backoff : backoff_ok (sys_backoff sys);
  ok_ticker : ticker_ok (sys_ticker sys);
  ok_answer : sys_phase sys = Enqueuing <-> t_phase (sys_ticker sys) = TickAwait;
  ok_running : t_done (sys_ticker sys) = true <-> sys_phase sys = Stopped;
  ok_old : Forall (fun t => ticker_ok t /\ t_done t = true /\ t_phase t <> TickAwait) (sys_stopped sys);
  ok_schedule : Configuration_Schedule loc (sys_used sys) (sys_made sys) = Done (t_schedule (sys_ticker sys));
  ok_clock : sys_made sys <= sys_clock sys
}.

Lemma started_ok loc sys : started loc sys -> sys_ok loc sys.
Proof. destruct 1 as [clock cfg pending table s Hs]. split; simpl; try done. Qed.

Lemma renewed_ok loc pending sys sys' : sys_phase sys = Selecting -> sys_ok loc sys -> renewed loc pending sys sys' -> sys_ok loc sys'.
Proof.
  intros Hp [Hb Ht Ha Hr Ho Hs Hc] (cfg & s & _ & Es & ->). split; simpl; try done.
  constructor; [|done]. split_and!; [done..|]. intros E. simpl in E. apply Ha in E. congruence.
Qed.

Lemma step_ok loc sys sys' : step loc sys sys' -> sys_ok loc sys -> sys_ok loc sys'.
Proof.
  intros Hstep Hok. pose proof Hok as [Hb Ht Ha Hr Ho Hs Hc].
  destruct Hstep as [sys dt ?|sys table|sys cfg|sys t Hst|sys old1 t t' old2 E Hst|sys Hp Hph|sys o fails table d b Hp Hph E
                    |sys sys' Hp Hex Hren|sys sys' pending Hp Hpe Hren|sys Hp].
  - split; simpl; try done. lia.
  - by split.
  - by split.
  - destruct (tick_step_ok _ _ Hst Ht) as (H1 & H2 & H3 & H4 & H5). split; simpl; try done; [tauto|by rewrite H3|by rewrite H2].
  - rewrite E in Ho. apply Forall_app in Ho as [Ho1 [(? & ? & ?) Ho2]%Forall_cons].
    destruct (tick_step_ok _ _ Hst) as (? & ? & ? & ? & ?); [done|].
    split; simpl; try done. apply Forall_app. split; [done|]. constructor; [|done]. split_and!; congruence.
  - split; simpl; try done.
    + unfold ticker_ok in *. simpl. by rewrite Hph in Ht.
    + rewrite Hr, Hp. done.
  - destruct (enqueueChangeset_ok _ _ _ _ _ _ _ Hb E) as [Hb' Hd]. split; simpl; try done.
    + unfold ticker_ok, answered. simpl. destruct (Z.ltb_spec 0 d); [|done]. nlia.
    + by destruct (0 <? d).
    + rewrite Hr, Hp. done.
  - by eapply renewed_ok.
  - by eapply renewed_ok.
  - split; simpl; try done. split; [done|]. intros Hph. apply Ha in Hph. congruence.
Qed.

Lemma reachable_ok loc sys : reachable loc sys -> sys_ok loc sys.
Proof. intros (sys0 & Hs%started_ok & Hr). induction Hr; eauto using step_ok. Qed.

(** C26: In every state that the scheduler and its tickers reach with the clock in UTC, the current schedule being made of a configuration that the parser accepts: until the schedule ends its rate is the one that the configured windows have at that very time and its rate limiter is the one of that rate (without windows there is no limit); a changeset is enqueued only when that rate is not zero; a ticker waits for an answer exactly while the scheduler prepares one, so neither blocks the other; delays are between zero and one minute; and a ticker that was stopped never waits for the scheduler. *)
Theorem scheduler_invariant {U : UnicodeTables} raw sys : reachable UTC sys -> NewConfiguration raw = Ok (sys_used sys) ->
  (sys_phase sys = Enqueuing <-> t_phase (sys_ticker sys) = TickAwait) /\
  (sys_clock sys < ValidUntil (t_schedule (sys_ticker sys)) ->
    let configured := if HasRolloutWindows (sys_used sys) then limit (windows (sys_used sys)) (sys_clock sys) else makeUnlimitedRate in
    s_rate (t_schedule (sys_ticker sys)) = configured /\ s_limiter (t_schedule (sys_ticker sys)) = limiter_of configured) /\
  (sys_phase sys = Enqueuing -> rate_n (s_rate (t_schedule (sys_ticker sys))) <> 0) /\
  (forall d, t_phase (sys_ticker sys) = TickSleep d -> 0 < d <= 1 * Minute) /\
  Forall (fun t => t_phase t <> TickAwait) (sys_stopped sys).
Proof.
  intros Hok%reachable_ok Hv%NewConfiguration_valid. pose proof Hok as [Hb Ht Ha Hr Ho Hs Hc].
  assert (sys_phase sys = Enqueuing -> s_limiter (t_schedule (sys_ticker sys)) <> None) as Hl.
  { intros Hp%Ha. unfold ticker_ok in Ht. by rewrite Hp in Ht. }
  unfold Configuration_Schedule in Hs. destruct (HasRolloutWindows (sys_used sys)) eqn:Hw.
  2: { simpl in Hs. injection Hs as Es. rewrite <- Es. split_and!; [done|done|done| |].
    - intros d E. unfold ticker_ok in Ht. by rewrite E in Ht.
    - eapply Forall_impl; [exact Ho|]. naive_solver. }
  destruct (scheduleAt_enforces _ (sys_made sys) Hv (proj1 (has_windows _) Hw)) as (s & E & He). simpl in Hs. rewrite E in Hs.
  injection Hs as Es. rewrite <- Es in *. split_and!; [done|..].
  - intros Hlt. cbv zeta. rewrite (enforces_rate _ _ _ He) by lia. split; [done|]. apply (enforces_limiter _ _ _ He).
  - intros Hp%Hl. by rewrite <- (enforces_zero _ _ _ He).
  - intros d Ed. unfold ticker_ok in Ht. by rewrite Ed in Ht.
  - eapply Forall_impl; [exact Ho|]. naive_solver.
Qed.

(** The steps that a stopped ticker has left. *)
Lemma stopped_ends t : t_done t = true -> t_phase t <> TickAwait -> rtc tick_step t (MkTicker (t_schedule t) true TickClosed).
Proof.
  destruct t as [s done p]. simpl. intros -> Hp.
  destruct p as [| | | | |d|]; try done;
    repeat first [reflexivity|eapply rtc_l; [constructor; done|]].
  - destruct (s_limiter s) as [l|] eqn:E.
    + eapply rtc_l; [by apply tick_take; rewrite E|]. eapply rtc_l; [constructor|]. done.
    + eapply rtc_l; [by apply tick_zero|]. eapply rtc_l; [constructor|]. done.
Qed.

(** C27: No goroutine is leaked and the scheduler never hangs: in every reachable state each ticker that was stopped, and after [Stop] the current one, can run to its end on its own; and a changeset that is being enqueued can be answered whatever the database returns, which leads back to the selection with a delay in bounds. *)
Theorem scheduler_live loc sys : reachable loc sys ->
  Forall (fun t => rtc tick_step t (MkTicker (t_schedule t) true TickClosed)) (sys_stopped sys) /\
  (sys_phase sys = Stopped -> rtc tick_step (sys_ticker sys) (MkTicker (t_schedule (sys_ticker sys)) true TickClosed)) /\
  (sys_phase sys = Enqueuing -> forall o fails, exists sys', step loc sys sys' /\ sys_phase sys' = Selecting /\
    sys_table sys' = (EnqueueNextScheduledChangeset o fails (sys_table sys)).1 /\ t_phase (sys_ticker sys') <> TickAwait).
Proof.
  intros Hok%reachable_ok. pose proof Hok as [Hb Ht Ha Hr Ho Hs Hc]. split_and!.
  - eapply Forall_impl; [exact Ho|]. intros t (_ & ? & ?). by apply stopped_ends.
  - intros Hp. apply stopped_ends; [by apply Hr|]. intros Hph%Ha. congruence.
  - intros Hp o fails. destruct (enqueueChangeset o fails (sys_table sys) (sys_backoff sys)) as [[table d] b] eqn:E.
    eexists. split; [eapply step_answer; [done|by apply Ha|exact E]|]. simpl. split_and!; [done| |by destruct (0 <? d)].
    unfold enqueueChangeset in E. destruct (EnqueueNextScheduledChangeset o fails (sys_table sys)) as [table1 [c|err]];
      [|destruct (backoff_next _)]; by simplify_eq.
Qed.

(** ** The active configuration *)
Section WatchFacts.
Context {U : UnicodeTables} (same : option (list (option BatchChangeRolloutWindow)) -> option (list (option BatchChangeRolloutWindow)) -> bool).
Hypothesis same_iff : forall a b, same a b = true <-> a = b.

Definition accepted (incoming : option (list (option BatchChangeRolloutWindow))) : option Configuration :=
  match NewConfiguration incoming with Ok cfg => Some cfg | Err _ => None end.

(** Whatever the sequence of site configurations, the active configuration is the
    last one that the parser accepted. *)
Theorem watch_active incomings :
  let c := fold_left (on_update same) incomings newConfiguration in
  cfg_active c = last (omap accepted incomings) /\ (cfg_first c = false -> cfg_active c = accepted (cfg_raw c)).
Proof.
  induction incomings as [|incoming l IH] using rev_ind; [done|]. rewrite fold_left_app, omap_app, last_app. cbn [fold_left].
  destruct IH as [IH1 IH2]. set (c := fold_left _ l _) in *. cbn [omap list_omap]. unfold on_update.
  destruct (negb (cfg_first c) && same (cfg_raw c) incoming) eqn:E.
  - apply andb_true_iff in E as [Ef%negb_true_iff <-%same_iff]. specialize (IH2 Ef). rewrite <- IH2, <- IH1.
    by destruct (cfg_active c).
  - unfold accepted at 1 3. destruct (NewConfiguration incoming) eqn:En; simpl; [|done]. unfold accepted. by rewrite En.
Qed.
End WatchFacts.

(** ** Examples *)
Section Examples.
#[local] Existing Instance plain_tables.

(** An invalid first configuration leaves none, and the next schedule panics. *)
Example ex_no_default :
  let c := on_update (fun _ _ => false) newConfiguration (Some [None]) in
  active_Schedule UTC (cfg_active c) ex_monday = Panics "nil pointer dereference".
Proof. reflexivity. Qed.

Definition queued_at (id t : Z) : Changeset :=
  MkChangeset id (c_RepoID zeroChangeset) t (c_Metadata zeroChangeset) [] [] [] [] [] 0 (c_ExternalState zeroChangeset)
    (c_ExternalReviewState zeroChangeset) (c_SyncState zeroChangeset) None None 0 0 0 (c_PublicationState zeroChangeset) None Scheduled
    None None None 0 0 false 0.
Definition ex_table : list Changeset := [queued_at 7 30; queued_at 8 10; queued_at 9 20].

Lemma ex_table_ok : queue_ok ex_table.
Proof. split; [by apply (bool_decide_unpack _)|repeat constructor; done]. Qed.

Definition by_time : ordering :=
  MkOrdering (merge_sort updated_before) (merge_sort_Permutation updated_before) (StronglySorted_merge_sort updated_before).

Lemma queue_fifo_witness : GetChangesetPlaceInSchedulerQueue by_time None 7 ex_table = Ok 2 /\
  exists c, moves (fun _ => by_time) ex_table 2 c /\ c_ID c = 7.
Proof.
  split; [reflexivity|].
  destruct (queue_fifo ex_table 7 2 by_time (fun _ => by_time) ex_table_ok eq_refl) as (c & q & Hc & Hid & _ & _ & Hm & _ & Hp).
  exists c. split; [|done]. change (List.filter is_scheduled ex_table) with ex_table in *.
  rewrite list_elem_of_In in Hc. destruct Hc as [<-|[<-|[<-|[]]]]; try (by discriminate Hid).
  specialize (Hp eq_refl). replace q with 2%nat in Hm by lia. exact Hm.
Defined.

(** Applied together, changesets have one time: the place that one statement
    gives need not be the one that the next takes the changeset from. *)
Definition by_time_last : ordering.
Proof.
  refine (MkOrdering (fun l => merge_sort updated_before (reverse l)) _ _).
  - intros l. rewrite merge_sort_Permutation. apply reverse_Permutation.
  - intros l. apply (StronglySorted_merge_sort updated_before).
Defined.
Definition ex_applied : list Changeset := [queued_at 7 30; queued_at 8 30].
Example ex_tie : GetChangesetPlaceInSchedulerQueue by_time None 7 ex_applied = Ok 0 /\
  moves (fun _ => by_time_last) ex_applied 0 (queued_at 8 30).
Proof. split; reflexivity. Qed.

(** Monday noon with ten changesets an hour: the first tick is accepted. *)
Definition ex_schedule : Schedule :=
  MkSchedule (Some (NewLimiter 10 Hour)) (ex_monday + 12 * Hour) (12 * Hour) (MkRate 10 ratePerHour).
Definition ex_system (phase : SchedulerPhase) (tick : TickPhase) : System :=
  MkSystem ex_monday (Some (configured ex_week)) 0 ex_table phase scheduler_backoff (configured ex_week) ex_monday
    (MkTicker ex_schedule false tick) [].

Lemma ex_reachable : reachable UTC (ex_system Enqueuing TickAwait).
Proof.
  exists (ex_system Selecting TickTop). split; [constructor; vm_compute; reflexivity|].
  eapply rtc_l; [apply (step_tick _ _ (MkTicker ex_schedule false TickTake)); constructor|].
  eapply rtc_l; [apply (step_tick _ _ (MkTicker ex_schedule false TickOffer)); by constructor|].
  eapply rtc_l; [by apply step_accept|]. reflexivity.
Qed.

Lemma scheduler_invariant_witness :
  s_limiter ex_schedule = limiter_of (limit (windows (configured ex_week)) ex_monday) /\ rate_n (s_rate ex_schedule) <> 0.
Proof.
  pose proof (scheduler_invariant ex_week (ex_system Enqueuing TickAwait) ex_reachable eq_refl) as (_ & H1 & H2 & _).
  split; [exact (proj2 (H1 eq_refl))|exact (H2 eq_refl)].
Defined.

Lemma scheduler_live_witness : exists sys', step UTC (ex_system Enqueuing TickAwait) sys' /\ sys_phase sys' = Selecting.
Proof.
  destruct (scheduler_live UTC (ex_system Enqueuing TickAwait) ex_reachable) as (_ & _ & H).
  destruct (H eq_refl by_time None) as (sys' & ? & ? & _). by exists sys'.
Defined.
End Examples.
