(* ===== verification/Glob.v ===== *)
(** Glob patterns for file paths, [enterprise/internal/paths/match.go]: a pattern
    is compiled to its parts, and a path is matched part by part with a bit
    vector of 64 bits.  The reference, [matches], says which lists of names a
    list of parts denotes.

    Patterns of one name that contain an asterisk are given to a third-party
    package: [wildmatch] is its answer. *)
From S2P Require Import Prelude GoStr GoLib GoMap.
#[local] Open Scope Z_scope.

Class WildMatch := { wildmatch : gostring -> gostring -> bool }.

Definition slash : Z := 47.

Inductive patternPart := anySubPath | exactMatch (name : gostring) | anyMatch | asteriskPattern (glob : gostring).

#[export] Instance patternPart_eq_dec : EqDecision patternPart.
Proof. solve_decision. Defined.

Definition is_anySubPath (p : patternPart) : bool := match p with anySubPath => true | _ => false end.

Record GlobPattern := MkGlob {
  isLiteral : bool; pattern : gostring; parts : list patternPart; size : nat; initialState : Z }.

(** [1<<k] as an [int64]. *)
Definition bit64 (k : nat) : Z := wrap64 (Z.shiftl 1 (Z.of_nat k)).
(** [(x>>k)&1 == 1]. *)
Definition has_bit (x : Z) (k : nat) : bool := Z.land (Z.shiftr x (Z.of_nat k)) 1 =? 1.

(** ** Compile *)

Definition compile_part (part : gostring) : option patternPart :=
  if gs_eqb part [] then None
  else if gs_eqb part (str "**") then Some anySubPath
  else if gs_eqb part (str "*") then Some anyMatch
  else if Contains part (str "*") then Some (asteriskPattern part)
  else Some (exactMatch part).

Definition is_exact (p : patternPart) : bool := match p with exactMatch _ => true | _ => false end.

Fixpoint compile_parts (names : list gostring) : option (list patternPart) :=
  match names with
  | [] => Some []
  | name :: names =>
      match compile_part name, compile_parts names with
      | Some p, Some ps => Some (p :: ps)
      | _, _ => None
      end
  end.

(** The loop over the parts at the start that are [**]. *)
Fixpoint initial_state (i : nat) (ps : list patternPart) (state : Z) : Z :=
  match ps with
  | anySubPath :: ps => initial_state (S i) ps (Z.lor state (bit64 (S i)))
  | _ => state
  end.

Definition errConsecutiveSlashes : gostring := str "two consecutive forward slashes".

Definition Compile (pattern : gostring) : result gostring GlobPattern :=
  match compile_parts (Split (Trim pattern [slash]) slash) with
  | None => Err errConsecutiveSlashes
  | Some ps =>
      let anchored := HasPrefix pattern [slash] in
      let patternParts := if anchored then ps else anySubPath :: ps in
      let isLiteral := anchored && forallb is_exact ps in
      let '(patternParts, isLiteral) :=
        if HasSuffix pattern [slash] then (patternParts ++ [anySubPath], false) else (patternParts, isLiteral) in
      let '(patternParts, isLiteral) :=
        match last patternParts with
        | Some anySubPath => (patternParts ++ [anyMatch], false)
        | _ => (patternParts, isLiteral)
        end in
      Ok (MkGlob isLiteral pattern patternParts (length patternParts) (initial_state 0 patternParts 1))
  end.

(** ** Match *)

Section Match.
Context {W : WildMatch}.

Definition part_Match (p : patternPart) (part : gostring) : bool :=
  match p with
  | anySubPath | anyMatch => true
  | exactMatch name => gs_eqb name part
  | asteriskPattern glob => wildmatch glob part
  end.

(** [nextPart(s, '/')]: the part, whether there is a next one, and the rest. *)
Fixpoint nextPart (s : gostring) : gostring * bool * gostring :=
  match s with
  | [] => ([], false, [])
  | c :: t =>
      if c =? slash then ([], true, t)
      else let '(part, has_next, rest) := nextPart t in
           (c :: part, has_next, if has_next then rest else s)
  end.

(** [lastPart(s, '/')]. *)
Fixpoint lastPart (s : gostring) : option gostring :=
  match s with
  | [] => None
  | c :: t => match lastPart t with Some l => Some l | None => if c =? slash then Some t else None end
  end.

(** The turn of the inner loop for the [i]-th part of the pattern. *)
Definition consume_part (ps : list patternPart) (part : gostring) (currentState nextState : Z) (i : nat) : Z :=
  if negb (has_bit currentState i) then nextState
  else
    match ps !! i with
    | None => nextState
    | Some currentPart =>
        let followed := match ps !! S i with Some p => is_anySubPath p | None => false end in
        let nextState :=
          if part_Match currentPart part then
            let nextState := Z.lor nextState (bit64 (S i)) in
            if followed then Z.lor nextState (bit64 (S (S i))) else nextState
          else
            let nextState := Z.ldiff nextState (bit64 (S i)) in
            if followed then Z.ldiff nextState (bit64 (S (S i))) else nextState in
        if is_anySubPath currentPart then Z.lor nextState (bit64 i) else nextState
    end.

Definition consume (glob : GlobPattern) (part : gostring) (currentState : Z) : Z :=
  fold_left (consume_part (parts glob) part currentState) (seq 0 (size glob)) 0.

Fixpoint match_loop (fuel : nat) (glob : GlobPattern) (filePath : gostring) (currentState : Z) : run bool :=
  match fuel with
  | O => OutOfFuel
  | S fuel =>
      let '(part, hasNext, filePath) := nextPart filePath in
      let nextState := consume glob part currentState in
      if currentState =? 0 then Done false
      else if hasNext then match_loop fuel glob filePath nextState
      else Done (has_bit nextState (size glob))
  end.

(** [strings.Trim(filePath, separator)], of one slash on each side. *)
Definition trim_path (filePath : gostring) : gostring :=
  let filePath := match filePath with c :: t => if c =? slash then t else filePath | [] => filePath end in
  match last filePath with Some c => if c =? slash then take (length filePath - 1) filePath else filePath | None => filePath end.

Definition Match (glob : GlobPattern) (filePath : gostring) : run bool :=
  if isLiteral glob then Done (gs_eqb (pattern glob) filePath)
  else
    match parts glob !! (size glob - 1)%nat with
    | None => Panics "index out of range"
    | Some lastGlobPart =>
        if is_anySubPath lastGlobPart &&
           match lastPart filePath with Some l => negb (part_Match lastGlobPart l) | None => false end
        then Done false
        else match_loop (S (length filePath)) glob (trim_path filePath) (initialState glob)
    end.

(** ** The reference *)

Fixpoint some_suffix (f : list gostring -> bool) (names : list gostring) : bool :=
  f names || match names with [] => false | _ :: names => some_suffix f names end.

(** The names of a path that the parts of a pattern denote. *)
Fixpoint matches (ps : list patternPart) (names : list gostring) : bool :=
  match ps with
  | [] => match names with [] => true | _ => false end
  | anySubPath :: ps => some_suffix (matches ps) names
  | p :: ps => match names with name :: names => part_Match p name && matches ps names | [] => false end
  end.

Lemma some_suffix_true f names : some_suffix f names = true <-> exists l k, names = l ++ k /\ f k = true.
Proof.
  induction names as [|n names IH]; simpl; rewrite orb_true_iff.
  - split; [intros [?|?]; [by exists [], []|done]|]. intros (l & k & E & Hk). left.
    by destruct l, k.
  - rewrite IH. split.
    + intros [?|(l & k & -> & ?)]; [by exists [], (n :: names)|by exists (n :: l), k].
    + intros (l & k & E & Hk). destruct l as [|m l]; simplify_eq/=; [by left|right; by exists l, k].
Qed.

(** What one more part says, and one more name. *)
Lemma matches_snoc_part ps p names :
  matches (ps ++ [p]) names = true <->
  exists l k, names = l ++ k /\ matches ps l = true /\
    (if is_anySubPath p then True else exists name, k = [name] /\ part_Match p name = true).
Proof.
  revert names. induction ps as [|q ps IH]; intros names.
  - change (matches ([] ++ [p]) names) with (matches [p] names). split.
    + intros H. exists [], names. split_and!; [done..|]. destruct p; [done|..];
        (destruct names as [|n [|? ?]]; simpl in H |- *; rewrite ?andb_false_r in H; try done; rewrite ?andb_true_r in H; eauto).
    + intros (l & k & -> & Hl & Hk). destruct l; [|done]. simpl. destruct p; simpl in *.
      * apply some_suffix_true. exists k, []. by rewrite app_nil_r.
      * destruct Hk as (n & -> & ->). done.
      * by destruct Hk as (n & -> & _).
      * destruct Hk as (n & -> & ->). done.
  - change ((q :: ps) ++ [p]) with (q :: (ps ++ [p])). destruct (is_anySubPath q) eqn:Eq.
    + destruct q; try done. cbn [matches]. rewrite some_suffix_true. split.
      * intros (l0 & k0 & -> & (l & k & -> & Hl & Hk)%IH). exists (l0 ++ l), k. rewrite app_assoc. split_and!; [done| |done].
        apply some_suffix_true. by exists l0, l.
      * intros (l & k & -> & (l0 & l1 & -> & Hl)%some_suffix_true & Hk). exists l0, (l1 ++ k). rewrite app_assoc. split; [done|].
        apply IH. by exists l1, k.
    + assert (forall qs names, matches (q :: qs) names = match names with n :: names => part_Match q n && matches qs names | [] => false end) as Hq
        by (intros; by destruct q).
      rewrite Hq. destruct names as [|n names].
      * split; [done|]. intros (l & k & E & Hl & Hk). destruct l; [by rewrite Hq in Hl|done].
      * rewrite andb_true_iff, IH. split.
        -- intros [Hn (l & k & -> & Hl & Hk)]. exists (n :: l), k. rewrite Hq, Hn. done.
        -- intros (l & k & E & Hl & Hk). destruct l as [|m l]; [by rewrite Hq in Hl|]. rewrite Hq in Hl. simplify_eq/=.
           apply andb_true_iff in Hl as [? ?]. split; [done|]. by exists l, k.
Qed.

(** ** The bits of a step *)

Lemma has_bit_testbit x k : has_bit x k = Z.testbit x (Z.of_nat k).
Proof.
  unfold has_bit. change 1 with (Z.ones 1) at 1. rewrite Z.land_ones, Z.shiftr_div_pow2 by lia. change (2 ^ 1) with 2.
  rewrite <- Z.testbit_spec' by lia. by destruct (Z.testbit x _).
Qed.

Lemma bit64_testbit k j : (k <= 62)%nat -> Z.testbit (bit64 k) (Z.of_nat j) = Nat.eqb k j.
Proof.
  intros Hk. unfold bit64. rewrite Z.shiftl_1_l.
  assert (2 ^ Z.of_nat k <= 2 ^ 62) by (apply Z.pow_le_mono_r; lia). pose proof (Z.pow_pos_nonneg 2 (Z.of_nat k)).
  rewrite wrap64_small by lia. rewrite Z.pow2_bits_eqb by lia.
  destruct (Nat.eqb_spec k j) as [->|]; [apply Z.eqb_refl|apply Z.eqb_neq; lia].
Qed.

Section Step.
Context (ps : list patternPart) (part : gostring) (currentState : Z).
Hypothesis Hsize : (length ps <= 62)%nat.

Definition part_any (i : nat) : bool := match ps !! i with Some p => is_anySubPath p | None => false end.
Definition part_ok (i : nat) : bool := match ps !! i with Some p => part_Match p part | None => false end.

(** The bits that the turn for the [i]-th part sets. *)
Definition sets (i j : nat) : bool :=
  Z.testbit currentState (Z.of_nat i) &&
  (part_ok i && (Nat.eqb (S i) j || part_any (S i) && Nat.eqb (S (S i)) j) || part_any i && Nat.eqb i j).

Lemma part_any_lt i : part_any i = true -> (i < length ps)%nat.
Proof. unfold part_any. destruct (ps !! i) eqn:E; [|done]. intros _. by eapply lookup_lt_Some. Qed.
Lemma part_any_ok i : part_any i = true -> part_ok i = true.
Proof. unfold part_any, part_ok. destruct (ps !! i) as [[]|]; done. Qed.

(** A turn clears no bit that an earlier one has set. *)
Lemma consume_part_bits nextState i j : (i < length ps)%nat ->
  (forall k, (i < k)%nat -> Z.testbit nextState (Z.of_nat k) = true -> k = S i /\ part_any i = true) ->
  Z.testbit (consume_part ps part currentState nextState i) (Z.of_nat j) =
  Z.testbit nextState (Z.of_nat j) || sets i j.
Proof.
  intros Hi Hnext. unfold consume_part, sets. rewrite has_bit_testbit.
  destruct (Z.testbit currentState (Z.of_nat i)); cbn [negb andb]; [|by rewrite orb_false_r].
  destruct (lookup_lt_is_Some_2 ps i Hi) as [p Hp]. rewrite Hp. fold (part_any (S i)).
  assert (part_ok i = part_Match p part) as -> by (unfold part_ok; by rewrite Hp).
  assert (part_any i = is_anySubPath p) as Hany by (unfold part_any; by rewrite Hp). rewrite Hany in *.
  pose proof (part_any_lt (S i)) as Hlt.
  assert (Z.testbit nextState (Z.of_nat (S i)) = true -> part_Match p part = true) as H1.
  { intros H%Hnext; [|lia]. destruct H as [_ H]. by destruct p. }
  assert (Z.testbit nextState (Z.of_nat (S (S i))) = false) as H2.
  { apply not_true_is_false. intros [? _]%Hnext; lia. }
  destruct (part_Match p part) eqn:Hm, (part_any (S i)) eqn:Hf; try specialize (Hlt eq_refl);
    destruct (is_anySubPath p) eqn:Hp'; try (by destruct p);
    rewrite ?Z.lor_spec, ?Z.ldiff_spec, ?Z.lor_spec, ?Z.ldiff_spec, !bit64_testbit by lia;
    destruct (Nat.eqb_spec (S i) j), (Nat.eqb_spec (S (S i)) j), (Nat.eqb_spec i j); try lia; subst;
    rewrite ?H2; cbn [andb orb negb]; rewrite ?andb_true_r, ?andb_false_r, ?orb_true_r, ?orb_false_r; try done;
    destruct (Z.testbit nextState (Z.of_nat (S i))) eqn:Hb; try done; by specialize (H1 eq_refl).
Qed.

Lemma consume_bits n j : (n <= length ps)%nat ->
  Z.testbit (fold_left (consume_part ps part currentState) (seq 0 n) 0) (Z.of_nat j) = existsb (fun i => sets i j) (seq 0 n).
Proof.
  revert j. induction n as [|n IH]; intros j Hn; [apply Z.testbit_0_l|].
  rewrite seq_S, fold_left_app, existsb_app. cbn [fold_left existsb plus]. rewrite orb_false_r.
  rewrite consume_part_bits; [by rewrite IH by lia|lia|]. intros k Hk. rewrite IH by lia.
  intros (i & Hi%in_seq & Hs)%existsb_exists. unfold sets in Hs. apply andb_true_iff in Hs as [_ Hs].
  apply orb_true_iff in Hs as [Hs|Hs]; apply andb_true_iff in Hs as [_ Hs]; [|apply Nat.eqb_eq in Hs; lia].
  apply orb_true_iff in Hs as [Hs|Hs]; [apply Nat.eqb_eq in Hs; lia|].
  apply andb_true_iff in Hs as [Ha Hs%Nat.eqb_eq]. assert (S i = n) as <- by lia. split; [lia|done].
Qed.
End Step.

(** ** Prefixes of the pattern *)
Section Prefixes.
Context (ps : list patternPart).

(** The first [j] parts match the names. *)
Definition prefix_matches (j : nat) (names : list gostring) : bool := matches (take j ps) names.
(** What bit [j] stands for: before [**] the names after it count, too. *)
Definition bit_matches (j : nat) (names : list gostring) : bool :=
  if part_any ps j then prefix_matches (S j) names else prefix_matches j names.

Lemma prefix_0 names n : prefix_matches 0 (names ++ [n]) = false.
Proof. unfold prefix_matches. simpl. by destruct names. Qed.

Lemma prefix_S j p names : ps !! j = Some p ->
  prefix_matches (S j) names = true <->
  exists l k, names = l ++ k /\ prefix_matches j l = true /\
    (if is_anySubPath p then True else exists name, k = [name] /\ part_Match p name = true).
Proof. intros Hp. unfold prefix_matches. rewrite (take_S_r _ _ _ Hp). apply matches_snoc_part. Qed.

Lemma part_any_lookup j : part_any ps j = true -> ps !! j = Some anySubPath.
Proof. unfold part_any. by destruct (ps !! j) as [[]|]. Qed.

Lemma prefix_exact j names n : (j < length ps)%nat -> part_any ps j = false ->
  prefix_matches (S j) (names ++ [n]) = true <-> prefix_matches j names = true /\ part_ok ps n j = true.
Proof.
  intros Hj Ha. destruct (lookup_lt_is_Some_2 ps j Hj) as [p Hp]. unfold part_any, part_ok in *. rewrite Hp in *.
  rewrite (prefix_S j p) by done. rewrite Ha. split.
  - intros (l & k & E & Hl & (n' & -> & Hn)). apply app_inj_tail in E as [-> ->]. done.
  - intros [Hl Hn]. exists names, [n]. eauto.
Qed.

Lemma prefix_any j names n : part_any ps j = true ->
  prefix_matches (S j) (names ++ [n]) = true <->
  prefix_matches j (names ++ [n]) = true \/ prefix_matches (S j) names = true.
Proof.
  intros Hp%part_any_lookup. rewrite !(prefix_S j anySubPath) by done. simpl. split.
  - intros (l & k & E & Hl & _). destruct k as [|k0 k _] using rev_ind.
    + left. rewrite app_nil_r in E. by rewrite E.
    + right. rewrite app_assoc in E. apply app_inj_tail in E as [-> ->]. by exists l, k.
  - intros [H|(l & k & -> & Hl & _)]; [exists (names ++ [n]), []; by rewrite app_nil_r|].
    exists l, (k ++ [n]). by rewrite app_assoc.
Qed.

Lemma prefix_any_le j names : part_any ps j = true -> prefix_matches j names = true -> prefix_matches (S j) names = true.
Proof.
  intros Hp%part_any_lookup H. rewrite (prefix_S j anySubPath) by done. exists names, []. by rewrite app_nil_r.
Qed.

Lemma bit_closed j names : prefix_matches j names = true -> bit_matches j names = true.
Proof. unfold bit_matches. destruct (part_any ps j) eqn:E; [by apply prefix_any_le|done]. Qed.

Lemma prefix_leading j names : (0 < j)%nat -> (forall i, (i < j)%nat -> part_any ps i = true) -> prefix_matches j names = true.
Proof.
  intros H0 Hl. induction j as [|j IH]; [lia|]. destruct (decide (j = 0%nat)) as [->|].
  - rewrite (prefix_S 0 anySubPath) by (apply part_any_lookup, Hl; lia). exists [], names. done.
  - apply prefix_any_le; [apply Hl; lia|]. apply IH; [lia|]. intros i ?. apply Hl. lia.
Qed.

(** The state has exactly the bits of the prefixes that match. *)
Definition tracks (state : Z) (names : list gostring) : Prop :=
  forall j, (j <= length ps)%nat -> Z.testbit state (Z.of_nat j) = bit_matches j names.

(** The state has no other bits. *)
Definition sound (state : Z) (names : list gostring) : Prop :=
  forall j, (j <= length ps)%nat -> Z.testbit state (Z.of_nat j) = true -> bit_matches j names = true.

Lemma tracks_sound state names : tracks state names -> sound state names.
Proof. intros Ht j Hj. by rewrite Ht. Qed.

(** Every bit that a step sets is right. *)
Lemma step_sound state names part i j : sound state names -> (i < length ps)%nat -> sets ps part state i j = true ->
  bit_matches j (names ++ [part]) = true.
Proof.
  intros Ht Hi Hs. unfold sets in Hs. apply andb_true_iff in Hs as [Hc Hs]. apply Ht in Hc; [|lia].
  apply orb_true_iff in Hs as [Hs|Hs]; apply andb_true_iff in Hs as [Hok Hs].
  - assert (prefix_matches (S i) (names ++ [part]) = true) as Hp.
    { unfold bit_matches in Hc. destruct (part_any ps i) eqn:Ea; [apply prefix_any; auto|by apply prefix_exact]. }
    apply orb_true_iff in Hs as [<-%Nat.eqb_eq|[Ha <-%Nat.eqb_eq]%andb_true_iff]; [by apply bit_closed|].
    by apply bit_closed, prefix_any_le.
  - apply Nat.eqb_eq in Hs as <-. unfold bit_matches in *. rewrite Hok in *. apply prefix_any; auto.
Qed.

(** [**] follows on [**] only at the start of the pattern. *)
Definition well_spaced : Prop :=
  forall i, part_any ps i = true -> part_any ps (S i) = true -> forall k, (k <= S i)%nat -> part_any ps k = true.

Lemma sets_next state names part i : tracks state names -> (i < length ps)%nat -> bit_matches i names = true ->
  part_ok ps part i = true -> sets ps part state i (S i) = true /\ (part_any ps (S i) = true -> sets ps part state i (S (S i)) = true).
Proof.
  intros Ht Hi Hb Hok. unfold sets. rewrite Ht, Hb, Hok by lia. rewrite !Nat.eqb_refl. simpl.
  split; [done|]. intros ->. by rewrite orb_true_r.
Qed.

(** Every bit that has to be set is set. *)
Lemma step_complete state names part j : tracks state names -> well_spaced -> (j <= length ps)%nat ->
  bit_matches j (names ++ [part]) = true -> exists i, (i < length ps)%nat /\ sets ps part state i j = true.
Proof.
  intros Ht Hw Hj Hb.
  assert (forall i, part_any ps i = true -> bit_matches i names = true -> (i < length ps)%nat /\ sets ps part state i i = true) as Hstay.
  { intros i Ha Hi. pose proof (part_any_lt ps i Ha). split; [done|]. unfold sets. rewrite Ht, Hi, Ha, Nat.eqb_refl by lia.
    by rewrite orb_true_r. }
  assert (forall i, part_any ps i = false -> (i < length ps)%nat -> prefix_matches (S i) (names ++ [part]) = true ->
            sets ps part state i (S i) = true /\ (part_any ps (S i) = true -> sets ps part state i (S (S i)) = true)) as Hexact.
  { intros i Ha Hi [H1 H2]%prefix_exact; [|done..]. apply (sets_next state names); [done..| |done].
    unfold bit_matches. by rewrite Ha. }
  assert (forall i, part_any ps i = true -> part_any ps (S i) = true -> prefix_matches (S (S i)) names = true) as Hlead.
  { intros i H1 H2. apply prefix_leading; [lia|]. intros k ?. apply (Hw i); [done..|lia]. }
  unfold bit_matches in Hb. destruct (part_any ps j) eqn:Ha.
  - assert (prefix_matches (S j) names = true -> exists i, (i < length ps)%nat /\ sets ps part state i j = true) as Hj'.
    { intros H. exists j. apply Hstay; [done|]. unfold bit_matches. by rewrite Ha. }
    apply prefix_any in Hb as [Hb|Hb]; [|auto|done]. destruct j as [|i]; [by rewrite prefix_0 in Hb|].
    destruct (part_any ps i) eqn:Hi; [auto|]. exists i. split; [lia|]. apply Hexact; [done|lia|done].
  - destruct j as [|i]; [by rewrite prefix_0 in Hb|]. destruct (part_any ps i) eqn:Hi.
    2:{ exists i. split; [lia|]. apply Hexact; [done|lia|done]. }
    assert (prefix_matches (S i) names = true -> exists i', (i' < length ps)%nat /\ sets ps part state i' (S i) = true) as Hi'.
    { intros H. exists i. split; [lia|]. apply (sets_next state names); [done|lia| |by apply part_any_ok].
      unfold bit_matches. by rewrite Hi. }
    apply prefix_any in Hb as [Hb|Hb]; [|auto|done]. destruct i as [|i]; [by rewrite prefix_0 in Hb|].
    destruct (part_any ps i) eqn:Hi0; [auto|]. exists i. split; [lia|]. apply Hexact; [done|lia|done|done].
Qed.
End Prefixes.

(** ** The loop *)

Definition tracked (glob : GlobPattern) : Prop := size glob = length (parts glob) /\ (length (parts glob) <= 62)%nat.

Lemma step_tracks glob part state names : tracked glob -> well_spaced (parts glob) ->
  tracks (parts glob) state names -> tracks (parts glob) (consume glob part state) (names ++ [part]).
Proof.
  intros [Hs Hl] Hw Ht j Hj. unfold consume. rewrite Hs, consume_bits by done. apply eq_true_iff_eq.
  rewrite existsb_exists. split.
  - intros (i & Hi%in_seq & Hset). eapply step_sound; [by apply tracks_sound| |done]. lia.
  - intros Hb. destruct (step_complete _ state names part j Ht Hw Hj Hb) as (i & ? & ?). exists i. rewrite in_seq. split; [lia|done].
Qed.

Lemma nextPart_Split s :
  let '(part, hasNext, rest) := nextPart s in
  if hasNext then Split s slash = part :: Split rest slash /\ (length rest < length s)%nat else Split s slash = [part].
Proof.
  induction s as [|c s IH]; simpl; [done|]. destruct (c =? slash); [split; [done|lia]|].
  destruct (nextPart s) as [[part has_next] rest]. destruct has_next; [destruct IH as [-> ?]; split; [done|lia]|by rewrite IH].
Qed.

Lemma whole_prefix ps names : bit_matches ps (length ps) names = matches ps names.
Proof.
  unfold bit_matches, prefix_matches. replace (part_any ps (length ps)) with false; [by rewrite take_ge|].
  unfold part_any. by rewrite lookup_ge_None_2.
Qed.

Lemma sets_dead ps part i j : sets ps part 0 i j = false.
Proof. unfold sets. by rewrite Z.testbit_0_l. Qed.

Lemma dead_matches ps names l : (length ps <= 62)%nat -> well_spaced ps -> tracks ps 0 names -> matches ps (names ++ l) = false.
Proof.
  intros Hl Hw. revert names. induction l as [|part l IH]; intros names Ht.
  - rewrite app_nil_r, <- whole_prefix, <- Ht by done. apply Z.testbit_0_l.
  - replace (names ++ part :: l) with ((names ++ [part]) ++ l) by (by rewrite <- app_assoc). apply IH. intros j Hj.
    rewrite Z.testbit_0_l. symmetry. apply not_true_is_false. intros Hb.
    destruct (step_complete ps 0 names part j Ht Hw Hj Hb) as (i & _ & H). by rewrite sets_dead in H.
Qed.

Lemma match_loop_correct glob fuel s state names : tracked glob -> well_spaced (parts glob) -> tracks (parts glob) state names ->
  (length s < fuel)%nat -> match_loop fuel glob s state = Done (matches (parts glob) (names ++ Split s slash)).
Proof.
  intros Hg Hw. revert s state names. induction fuel as [|fuel IH]; intros s state names Ht Hf; [lia|]. cbn [match_loop].
  pose proof (nextPart_Split s) as Hn. destruct (nextPart s) as [[part has_next] rest].
  destruct (Z.eqb_spec state 0) as [->|_].
  { destruct Hg. rewrite dead_matches by done. done. }
  pose proof (step_tracks glob part state names Hg Hw Ht) as Ht'. destruct has_next.
  - destruct Hn as [-> ?]. rewrite (IH rest _ (names ++ [part])) by (done || lia). by rewrite <- app_assoc.
  - destruct Hg as [Hs Hl]. rewrite Hn, has_bit_testbit, Hs, Ht', whole_prefix by done. done.
Qed.

(** ** The initial state *)

Fixpoint leading (ps : list patternPart) : nat :=
  match ps with anySubPath :: ps => S (leading ps) | _ => 0 end.

Lemma initial_state_bits i ps state j : (i + length ps <= 62)%nat ->
  Z.testbit (initial_state i ps state) (Z.of_nat j) =
  Z.testbit state (Z.of_nat j) || (Nat.ltb i j && Nat.leb j (i + leading ps)).
Proof.
  revert i state. induction ps as [|p ps IH]; intros i state Hl; simpl in *.
  { destruct (Nat.ltb_spec i j), (Nat.leb_spec j (i + 0)); simpl; rewrite ?orb_false_r; done || lia. }
  destruct p; [|destruct (Nat.ltb_spec i j), (Nat.leb_spec j (i + 0)); simpl; rewrite ?orb_false_r; done || lia..].
  rewrite IH by lia. rewrite Z.lor_spec, bit64_testbit by lia. rewrite <- orb_assoc. f_equal.
  destruct (Nat.eqb_spec (S i) j), (Nat.ltb_spec (S i) j), (Nat.ltb_spec i j), (Nat.leb_spec j (S i + leading ps)),
    (Nat.leb_spec j (i + S (leading ps))); simpl; done || lia.
Qed.

Lemma leading_any ps j : (j < leading ps)%nat -> part_any ps j = true.
Proof.
  revert j. induction ps as [|[] ps IH]; intros j Hj; simpl in *; try lia. destruct j; [done|]. apply IH. lia.
Qed.
Lemma leading_end ps : part_any ps (leading ps) = false.
Proof. induction ps as [|[] ps IH]; done. Qed.

Lemma matches_nil ps : matches ps [] = forallb is_anySubPath ps.
Proof. induction ps as [|[] ps IH]; simpl; try done. by rewrite IH, orb_false_r. Qed.

Lemma prefix_nil ps j : (j <= length ps)%nat -> prefix_matches ps j [] = Nat.leb j (leading ps).
Proof.
  unfold prefix_matches. rewrite matches_nil. revert j. induction ps as [|[] ps IH]; intros [|j] Hj; simpl in *; try done; try lia.
  apply IH. lia.
Qed.

Lemma initial_tracks ps : (length ps <= 62)%nat -> tracks ps (initial_state 0 ps 1) [].
Proof.
  intros Hl j Hj. rewrite initial_state_bits by lia. unfold bit_matches. pose proof (leading_any ps j) as Ha. pose proof (leading_end ps) as He.
  assert (Z.testbit 1 (Z.of_nat j) || (Nat.ltb 0 j && Nat.leb j (0 + leading ps)) = Nat.leb j (leading ps)) as ->.
  { destruct j as [|j]; [done|]. change 1 with (2 ^ 0). rewrite Z.pow2_bits_eqb by lia.
    rewrite (proj2 (Z.eqb_neq 0 _)) by lia. done. }
  destruct (part_any ps j) eqn:E.
  - pose proof (part_any_lt ps j E). rewrite prefix_nil by lia.
    destruct (Nat.leb_spec j (leading ps)), (Nat.leb_spec (S j) (leading ps)); try done; try lia.
    assert (j = leading ps) as -> by lia. congruence.
  - by rewrite prefix_nil.
Qed.

(** Without the condition on [**] a match is still a match. *)
Lemma match_loop_sound glob fuel s state names : tracked glob -> sound (parts glob) state names -> (length s < fuel)%nat ->
  returns (match_loop fuel glob s state) (fun b => b = true -> matches (parts glob) (names ++ Split s slash) = true).
Proof.
  intros Hg. revert s state names. induction fuel as [|fuel IH]; intros s state names Ht Hf; [lia|]. cbn [match_loop].
  pose proof (nextPart_Split s) as Hn. destruct (nextPart s) as [[part has_next] rest].
  destruct (Z.eqb_spec state 0) as [->|_]; [by apply returns_done|].
  assert (sound (parts glob) (consume glob part state) (names ++ [part])) as Ht'.
  { destruct Hg as [Hs Hl]. intros j Hj. unfold consume. rewrite Hs, consume_bits by done.
    intros (i & Hi%in_seq & Hset)%existsb_exists. eapply step_sound; [done| |done]. lia. }
  destruct has_next.
  - destruct Hn as [-> ?]. replace (names ++ part :: Split rest slash) with ((names ++ [part]) ++ Split rest slash) by (by rewrite <- app_assoc).
    apply IH; [done|lia].
  - destruct Hg as [Hs Hl]. apply returns_done. rewrite Hn, has_bit_testbit, Hs. intros Hb%Ht'; [|done].
    by rewrite <- whole_prefix.
Qed.

(** ** Spacing *)

Fixpoint no_adjacent (ps : list patternPart) : bool :=
  match ps with
  | [] => true
  | p :: ps => negb (is_anySubPath p && match ps with q :: _ => is_anySubPath q | [] => false end) && no_adjacent ps
  end.
(** Past its start, the pattern does not have [**] twice in a row. *)
Definition spaced (ps : list patternPart) : bool := no_adjacent (drop (leading ps) ps).

Lemma no_adjacent_spec ps i : no_adjacent ps = true -> part_any ps i = true -> part_any ps (S i) = true -> False.
Proof.
  revert i. induction ps as [|p ps IH]; intros i; simpl; [done|]. intros [Hp Hn]%andb_true_iff.
  destruct i as [|i]; [|by apply (IH i)]. unfold part_any. simpl. intros Ha Hb. rewrite Ha in Hp.
  destruct ps as [|q ps]; [done|]. simpl in *. by rewrite Hb in Hp.
Qed.

Lemma part_any_drop ps k i : part_any (drop k ps) i = part_any ps (k + i).
Proof. unfold part_any. by rewrite lookup_drop. Qed.

Lemma spaced_well ps : spaced ps = true -> well_spaced ps.
Proof.
  intros Hs i H1 H2 k Hk. destruct (decide (S i < leading ps)%nat); [apply leading_any; lia|]. exfalso.
  pose proof (leading_end ps) as He. assert (i <> leading ps) by congruence. assert (S i <> leading ps) by congruence.
  apply (no_adjacent_spec _ (i - leading ps) Hs); rewrite part_any_drop; [by replace (_ + _)%nat with i by lia|].
  by replace (_ + _)%nat with (S i) by lia.
Qed.
End Match.

(** ** Compiled patterns *)

Lemma compile_parts_nil names ps : names <> [] -> compile_parts names = Some ps -> ps <> [].
Proof. destruct names as [|n names]; [done|]. simpl. intros _. destruct (compile_part n), (compile_parts names); naive_solver. Qed.

Lemma Split_nonempty s sep : Split s sep <> [].
Proof. destruct s; simpl; [done|]. destruct (_ =? _); [done|]. by destruct (Split _ _). Qed.

Lemma Compile_spec pat g : Compile pat = Ok g ->
  exists ps, compile_parts (Split (Trim pat [slash]) slash) = Some ps /\ ps <> [] /\
    size g = length (parts g) /\ initialState g = initial_state 0 (parts g) 1 /\ pattern g = pat /\
    (exists p, last (parts g) = Some p /\ is_anySubPath p = false) /\
    (isLiteral g = true -> HasPrefix pat [slash] = true /\ HasSuffix pat [slash] = false /\ parts g = ps /\ forallb is_exact ps = true).
Proof.
  unfold Compile. destruct (compile_parts _) as [ps|] eqn:Ec; [|done].
  pose proof (compile_parts_nil _ ps (Split_nonempty _ _) Ec) as Hne. intros H. exists ps. split; [done|]. split; [done|].
  destruct (HasPrefix pat [slash]) eqn:Ep, (HasSuffix pat [slash]) eqn:Es; cbn [andb] in H.
  - rewrite last_snoc in H. injection H as <-. split_and!; try done. exists anyMatch. simpl. by rewrite last_snoc.
  - destruct (last ps) as [p|] eqn:El; [|by apply last_None in El].
    destruct p; injection H as <-; cbn [size parts initialState pattern isLiteral]; (split_and!; [done|done|done|..]);
      try (by exists anyMatch; rewrite last_snoc); try (rewrite El; eauto); done.
  - rewrite last_snoc in H. injection H as <-. split_and!; try done. exists anyMatch. simpl.
    rewrite app_comm_cons. by rewrite last_snoc.
  - destruct (last (anySubPath :: ps)) as [p|] eqn:El; [|by apply last_None in El].
    destruct p; injection H as <-; cbn [size parts initialState pattern isLiteral]; (split_and!; [done|done|done|..]);
      try (by exists anyMatch; rewrite ?app_comm_cons, last_snoc); try (rewrite El; eauto); done.
Qed.

(** ** Literal patterns *)

Lemma Join_Split s sep : Join (Split s sep) [sep] = s.
Proof.
  induction s as [|c s IH]; simpl; [done|]. pose proof (Split_nonempty s sep) as Hne. destruct (Z.eqb_spec c sep) as [->|].
  - destruct (Split s sep) as [|p ps]; [done|]. change (Join ([] :: p :: ps) [sep]) with (sep :: Join (p :: ps) [sep]). by rewrite IH.
  - destruct (Split s sep) as [|p [|q ps]]; [done|..]; simpl in *; by rewrite <- IH.
Qed.

Lemma compile_exact names ps : compile_parts names = Some ps -> forallb is_exact ps = true -> ps = map exactMatch names.
Proof.
  revert ps. induction names as [|n names IH]; intros ps; simpl; [by intros [= <-]|].
  destruct (compile_part n) as [p|] eqn:Ep; [|done]. destruct (compile_parts names) as [qs|]; [|done].
  intros [= <-] [Hp Hq]%andb_true_iff. rewrite (IH qs) by done. f_equal. unfold compile_part in Ep.
  repeat case_match; simplify_eq; done.
Qed.

Lemma matches_exact {W : WildMatch} ns names : matches (map exactMatch ns) names = bool_decide (ns = names).
Proof.
  revert names. induction ns as [|n ns IH]; intros [|m names]; simpl; try done. rewrite IH. unfold gs_eqb.
  repeat case_bool_decide; simpl; naive_solver.
Qed.

Lemma Trim_slash rest : HasPrefix rest [slash] = false -> HasSuffix (slash :: rest) [slash] = false -> Trim (slash :: rest) [slash] = rest.
Proof.
  intros Hp Hs. unfold Trim. set (f := fun c => existsb (Z.eqb c) [slash]).
  assert (forall c t, HasPrefix (c :: t) [slash] = false -> trim_left f (c :: t) = c :: t) as Hkeep.
  { intros c t H. cbn [HasPrefix] in H. rewrite andb_true_r, Z.eqb_sym in H. cbn [trim_left]. unfold f. cbn [existsb]. by rewrite H. }
  cbn [trim_left]. change (f slash) with true. cbn iota. destruct rest as [|c t]; [done|]. rewrite Hkeep by done.
  unfold HasSuffix in Hs. change (rev (slash :: c :: t)) with (rev (c :: t) ++ [slash]) in Hs.
  destruct (rev (c :: t)) as [|d u] eqn:E; [by apply (f_equal length) in E; rewrite length_rev in E|].
  rewrite Hkeep; [rewrite <- E; apply rev_involutive|]. simpl in Hs |- *. done.
Qed.

(** ** Paths *)

(** The path of a file: names that are not empty, each behind a slash. *)
Definition file_name (name : gostring) : Prop := name <> [] /\ Forall (fun c => c <> slash) name.
Definition file_path (names : list gostring) : gostring := slash :: Join names [slash].

Lemma last_Join names : names <> [] -> Forall file_name names -> exists c, last (Join names [slash]) = Some c /\ c <> slash.
Proof.
  intros Hne Hn. destruct names as [|name names _] using rev_ind; [done|]. apply Forall_app in Hn as [_ Hn].
  inversion_clear Hn as [|? ? [Hname Hns] _].
  destruct name as [|c name _] using rev_ind; [done|]. apply Forall_app in Hns as [_ Hc]. inversion_clear Hc as [|? ? Hc' _].
  exists c. split; [|done]. destruct names as [|n names]; [by apply last_snoc|].
  rewrite Join_app by done. simpl Join at 2. rewrite !app_assoc. by apply last_snoc.
Qed.

Lemma trim_file_path names : names <> [] -> Forall file_name names -> trim_path (file_path names) = Join names [slash].
Proof.
  intros Hne Hn. destruct (last_Join names Hne Hn) as (c & Hc & Hs). unfold trim_path, file_path. rewrite Z.eqb_refl, Hc.
  by rewrite (proj2 (Z.eqb_neq _ _) Hs).
Qed.

Lemma Split_file_path names : names <> [] -> Forall file_name names -> Split (Join names [slash]) slash = names.
Proof. intros Hne Hn. apply Split_Join; [done|]. eapply Forall_impl; [exact Hn|]. by intros n []. Qed.

Section Claims.
Context {W : WildMatch}.

(** The comparison of texts agrees with the match by parts. *)
Lemma Match_literal pat g names :
  Compile pat = Ok g -> isLiteral g = true -> HasPrefix pat (str "//") = false -> names <> [] -> Forall file_name names ->
  Match g (file_path names) = Done (matches (parts g) names).
Proof.
  intros Hc Hl H2 Hne Hn. destruct (Compile_spec pat g Hc) as (ps & Eps & _ & _ & _ & Hpat & _ & Hlit).
  unfold Match. rewrite Hl. f_equal. destruct (Hlit Hl) as (Hpre & Hsuf & -> & Hex). rewrite Hpat.
  destruct pat as [|c rest]; [done|]. assert (c = slash) as ->.
  { cbn [HasPrefix] in Hpre. rewrite andb_true_r in Hpre. by apply Z.eqb_eq in Hpre. }
  rewrite Trim_slash in Eps by (done || (simpl in H2 |- *; done)).
  apply compile_exact in Eps; [|done]. subst ps. rewrite matches_exact.
  apply bool_decide_ext. unfold file_path. split.
  - intros [= ->]. by apply Split_file_path.
  - intros <-. by rewrite Join_Split.
Qed.

(** Any other pattern is matched by the loop, and the test before it never fires. *)
Lemma Match_loop pat g names :
  Compile pat = Ok g -> isLiteral g = false -> names <> [] -> Forall file_name names ->
  Match g (file_path names) = match_loop (S (length (file_path names))) g (Join names [slash]) (initialState g).
Proof.
  intros Hc Hl Hne Hn. destruct (Compile_spec pat g Hc) as (ps & _ & _ & Hs & _ & _ & (p & Hp & Hany) & _).
  unfold Match. rewrite Hl.
  assert (parts g !! (size g - 1)%nat = Some p) as ->.
  { rewrite last_lookup in Hp. rewrite Hs. by replace (length (parts g) - 1)%nat with (Init.Nat.pred (length (parts g))) by lia. }
  rewrite Hany. cbn [andb]. by rewrite trim_file_path.
Qed.

Lemma Compile_tracks pat g : Compile pat = Ok g -> (length (parts g) <= 62)%nat ->
  tracked g /\ tracks (parts g) (initialState g) [].
Proof.
  intros Hc Hl. destruct (Compile_spec pat g Hc) as (_ & _ & _ & Hs & -> & _).
  split; [done|by apply initial_tracks].
Qed.

(** With [**] twice in a row, the loop still only accepts what is denoted. *)
Lemma Match_sound pat g names :
  Compile pat = Ok g -> (length (parts g) <= 62)%nat -> HasPrefix pat (str "//") = false -> names <> [] -> Forall file_name names ->
  returns (Match g (file_path names)) (fun b => b = true -> matches (parts g) names = true).
Proof.
  intros Hc Hl H2 Hne Hn. destruct (isLiteral g) eqn:El.
  - rewrite (Match_literal pat) by done. by apply returns_done.
  - rewrite (Match_loop pat) by done. destruct (Compile_tracks pat g Hc Hl) as [Hg Ht%tracks_sound].
    pose proof (match_loop_sound g (S (length (file_path names))) (Join names [slash]) (initialState g) [] Hg Ht) as H.
    cbn [app] in H. rewrite (Split_file_path names) in H by done. apply H. unfold file_path. simpl. lia.
Qed.

Lemma Match_exact pat g names :
  Compile pat = Ok g -> (length (parts g) <= 62)%nat -> spaced (parts g) = true -> HasPrefix pat (str "//") = false ->
  names <> [] -> Forall file_name names -> Match g (file_path names) = Done (matches (parts g) names).
Proof.
  intros Hc Hl Hsp H2 Hne Hn. destruct (isLiteral g) eqn:El; [by apply (Match_literal pat)|].
  rewrite (Match_loop pat) by done. destruct (Compile_tracks pat g Hc Hl) as [Hg Ht].
  rewrite (match_loop_correct g _ (Join names [slash]) _ []) by (done || (by apply spaced_well) || (unfold file_path; simpl; lia)).
  cbn [app]. by rewrite Split_file_path.
Qed.

(** C14: Matching a path against a compiled glob pattern with the bit vector is the same as the denotation of its parts, in which [**] stands for any number of directories: for every pattern of at most 62 parts that does not begin with two slashes and does not have [**] twice in a row past its start, and every file path.  The comparison of texts for literal patterns and the match by parts agree.  A pattern of at most 62 parts with [**] twice in a row still matches no path that it does not denote. *)
Theorem Match_correct pat g names :
  Compile pat = Ok g -> (length (parts g) <= 62)%nat -> HasPrefix pat (str "//") = false -> names <> [] -> Forall file_name names ->
  returns (Match g (file_path names)) (fun b =>
    (b = true -> matches (parts g) names = true) /\ (spaced (parts g) = true -> b = matches (parts g) names)).
Proof.
  intros Hc Hl H2 Hne Hn. destruct (Match_sound pat g names) as (b & Eb & Hb); [done..|].
  exists b. split; [done|]. split; [done|]. intros Hsp. rewrite (Match_exact pat) in Eb by done. by injection Eb as <-.
Qed.
End Claims.

(** ** Examples *)
Section Examples.
(** Asterisks at the start of a name only. *)
#[local] Instance leading_star : WildMatch :=
  {| wildmatch := fun glob name => match glob with 42 :: rest => HasSuffix name rest | _ => gs_eqb glob name end |}.

Definition path_names (s : string) : list gostring := Split (str s) slash.
Definition glob_match (pat path : string) : run bool :=
  match Compile (str pat) with Ok g => Match g (str path) | Err _ => Done false end.

(** The pattern that the comment of [Match] walks through. *)
Example ex_walk : glob_match "src/java/test/**/*Test.java" "/src/java/test/UnitTest.java" = Done true.
Proof. vm_compute. reflexivity. Qed.
Example ex_conformance :
  map (fun p => glob_match p.1 p.2)
    [("filename", "/prefix/filename"); ("*.md", "/weird/but/matching/.md"); ("directory/path/", "/prefix/directory/path/deeply/nested/file");
     ("directory/path/**", "/directory/path/file"); ("/main/src/**/README.md", "/main/src/README.md");
     ("filename", "/src/prefix_filename"); ("*.md", ""); ("directory/leaf/", "/directory/leaf"); ("directory/*", "/directory/nested/file");
     ("/toplevelfile", "/notreally/toplevelfile")]%string =
  map Done [true; true; true; true; true; false; false; false; false; false].
Proof. vm_compute. reflexivity. Qed.

Definition ex_glob : GlobPattern :=
  match Compile (str "src/java/test/**/*Test.java") with Ok g => g | Err _ => MkGlob true [] [] 0 0 end.

Lemma Match_correct_witness :
  returns (Match ex_glob (file_path (path_names "src/java/test/UnitTest.java")))
    (fun b => b = matches (parts ex_glob) (path_names "src/java/test/UnitTest.java")).
Proof.
  eapply returns_mono.
  - apply (Match_correct (str "src/java/test/**/*Test.java") ex_glob (path_names "src/java/test/UnitTest.java"));
      [vm_compute; reflexivity|vm_compute; lia|reflexivity|discriminate|].
    vm_compute. repeat constructor; discriminate.
  - intros b [_ H]. apply H. vm_compute. reflexivity.
Defined.

(** [**] twice in a row past the start, here written with a trailing slash: the
    bit behind the second one is set a name too late. *)
Example ex_twice :
  map (fun pat => glob_match pat "/foo/bar") ["/foo/"; "/foo/**"; "/foo/**/"; "/foo/**/**"]%string =
  [Done true; Done true; Done false; Done false] /\
  match Compile (str "/foo/**/") with Ok g => matches (parts g) (path_names "foo/bar") | Err _ => false end = true.
Proof. vm_compute. split; reflexivity. Qed.

(** With 64 parts the bit vector is too short: a path of 63 names matches, and one
    of 64 does not. *)
Definition stars (n : nat) : gostring := concat (repeat (str "/*") n).
Definition dirs (n : nat) : list gostring := repeat (str "d") n.
Example ex_too_long :
  match Compile (stars 64) with
  | Ok g => (Match g (file_path (dirs 63)), Match g (file_path (dirs 64)), matches (parts g) (dirs 63), matches (parts g) (dirs 64))
  | Err _ => (Done false, Done true, false, false)
  end = (Done true, Done false, false, true).
Proof. vm_compute. reflexivity. Qed.
End Examples.
