(* ===== verification/Codeowners.v ===== *)
(** CODEOWNERS files, [enterprise/internal/own/codeowners]: the parser of
    [parse.go], the rules of [file.go] and the printer of [repr.go].

    The two regular expressions of the parser are written out as functions on
    bytes: [\s] is one of five ASCII bytes, and no choice that the expressions
    leave has more than one way to end at the end of the line.  [net/mail] is the
    class [MailAddress]. *)
From S2P Require Import Prelude GoStr GoLib GoMap Glob.
Import Utf8 AsciiFacts.
#[local] Open Scope Z_scope.

Class MailAddress := { ParseAddress : gostring -> option gostring }.

Record Owner := MkOwner { Handle : gostring; Email : gostring }.
Record Rule := MkRule { Pattern : gostring; SectionName : gostring; LineNumber : Z; owners : list Owner }.

Definition wrap_int32 (n : Z) : Z := (n + 2 ^ 31) mod 2 ^ 32 - 2 ^ 31.

(** ** Lines *)

Definition newline : Z := 10.
Definition dropCR (line : gostring) : gostring := TrimSuffix line [13].
Definition MaxScanTokenSize : nat := Z.to_nat 65536.

(** [bufio.Scanner] with its default split function: the lines before the first
    one that does not fit into the buffer, and whether there is one. *)
Fixpoint scan_lines (pieces : list gostring) : list gostring * bool :=
  match pieces with
  | [] => ([], false)
  | [piece] =>
      match piece with
      | [] => ([], false)
      | _ => if (length piece <? MaxScanTokenSize)%nat then ([dropCR piece], false) else ([], true)
      end
  | piece :: pieces =>
      if (length piece <? MaxScanTokenSize)%nat then
        let '(lines, too_long) := scan_lines pieces in (dropCR piece :: lines, too_long)
      else ([], true)
  end.

(** ** One line *)

Definition commentStart : Z := 35.
Definition escapeCharacter : Z := 92.

(** Both bytes are ASCII, so they only occur as runes of their own. *)
Fixpoint without_comments (isEscaped : bool) (line : gostring) : gostring :=
  match line with
  | [] => []
  | c :: line =>
      if (c =? commentStart) && negb isEscaped then []
      else c :: without_comments ((c =? escapeCharacter) && negb isEscaped) line
  end.
Definition lineWithoutComments (line : gostring) : gostring := without_comments false line.

Definition isBlank (line : gostring) : bool := gs_eqb (TrimSpace (lineWithoutComments line)) [].

Fixpoint unescape_runes (isEscaped : bool) (rs : list rune) : list rune :=
  match rs with
  | [] => []
  | r :: rs =>
      if (r =? escapeCharacter) && negb isEscaped then unescape_runes true rs
      else r :: unescape_runes false rs
  end.
Definition unescape (s : gostring) : gostring := of_runes (unescape_runes false (runes s)).

(** [\s] of a regular expression. *)
Definition re_space (c : Z) : bool := existsb (Z.eqb c) [9; 10; 12; 13; 32].

(** [((?:\\.|\S)+)], as much as possible: what it takes and the rest. *)
Fixpoint take_pattern (s : gostring) : gostring * gostring :=
  match s with
  | [] => ([], [])
  | c :: t =>
      if c =? escapeCharacter then
        match t with
        | [] => ([c], [])
        | d :: t => let '(p, rest) := take_pattern t in (c :: d :: p, rest)
        end
      else if re_space c then ([], s)
      else let '(p, rest) := take_pattern t in (c :: p, rest)
  end.

(** [strings.Fields]. *)
Definition flush (field : gostring) : list gostring := match field with [] => [] | _ => [field] end.
Fixpoint fields_aux (segs : list seg) (s field : gostring) : list gostring :=
  match segs with
  | [] => flush field
  | g :: segs =>
      if IsSpace (seg_rune g) then flush field ++ fields_aux segs (seg_rest g) []
      else fields_aux segs (seg_rest g) (field ++ take (seg_width g) s)
  end.
Definition Fields (s : gostring) : list gostring := fields_aux (segments s) s [].

Definition matchRule (line : gostring) : option (gostring * list gostring) :=
  let '(filePattern, rest) := take_pattern (trim_left re_space (lineWithoutComments line)) in
  match filePattern with
  | [] => None
  | _ => Some (filePattern, Fields (rev (trim_left re_space (rev rest))))
  end.

Fixpoint until_bracket (s : gostring) : option (gostring * gostring) :=
  match s with
  | [] => None
  | c :: s =>
      if c =? 93 then Some ([], s)
      else match until_bracket s with Some (name, rest) => Some (c :: name, rest) | None => None end
  end.

(** [(?:\[[0-9]+\])?\s*$] *)
Definition approvals_end (s : gostring) : bool :=
  match s with
  | [] => true
  | c :: s =>
      (c =? 91) &&
      match until_bracket s with
      | Some (digits, rest) => negb (gs_eqb digits []) && forallb is_digit digits && gs_eqb (trim_left re_space rest) []
      | None => false
      end
  end.

Definition matchSection (line : gostring) : option gostring :=
  let s := trim_left re_space (lineWithoutComments line) in
  let s := match s with c :: t => if c =? 94 then trim_left re_space t else s | [] => s end in
  match s with
  | c :: t =>
      if c =? 91 then
        match until_bracket t with
        | Some (name, rest) => if gs_eqb name [] then None else if approvals_end (trim_left re_space rest) then Some name else None
        | None => None
        end
      else None
  | [] => None
  end.

(** ** Files *)

Inductive parse_error := ErrNoRule (line : gostring) | ErrTooLong.

Section Parse.
Context {U : UnicodeTables} {M : MailAddress}.

Definition ParseOwner (ownerText : gostring) : Owner :=
  if HasPrefix ownerText (str "@") then MkOwner (drop 1 ownerText) []
  else match ParseAddress ownerText with Some a => MkOwner [] a | None => MkOwner ownerText [] end.

Fixpoint parse_lines (lines : list gostring) (section : gostring) (lineNumber : Z) : result parse_error (list Rule) :=
  match lines with
  | [] => Ok []
  | line :: lines =>
      let lineNumber := wrap_int32 (lineNumber + 1) in
      if isBlank line then parse_lines lines section lineNumber
      else
        match matchSection line with
        | Some section => parse_lines lines section lineNumber
        | None =>
            match matchRule line with
            | None => Err (ErrNoRule line)
            | Some (pattern, owners) =>
                match parse_lines lines section lineNumber with
                | Err err => Err err
                | Ok rules => Ok (MkRule (unescape pattern) (TrimSpace (ToLower section)) lineNumber (map ParseOwner owners) :: rules)
                end
            end
        end
  end.

Definition Parse (codeownersFile : gostring) : result parse_error (list Rule) :=
  let '(lines, too_long) := scan_lines (Split codeownersFile newline) in
  match parse_lines lines [] 0 with
  | Err err => Err err
  | Ok rules => if too_long then Err ErrTooLong else Ok rules
  end.
End Parse.

(** ** Printing *)

Definition owner_Repr (o : Owner) : gostring :=
  (if gs_eqb (Handle o) [] then [] else str " @" ++ Handle o) ++
  (if gs_eqb (Email o) [] then [] else str " " ++ Email o).
Definition rule_Repr (r : Rule) : gostring := Pattern r ++ concat (map owner_Repr (owners r)) ++ [newline].

Fixpoint Repr_rules (lastSeenSection : gostring) (rules : list Rule) : gostring :=
  match rules with
  | [] => []
  | r :: rules =>
      (if gs_eqb (SectionName r) lastSeenSection then [] else str "[" ++ SectionName r ++ str "]" ++ [newline]) ++
      rule_Repr r ++ Repr_rules (SectionName r) rules
  end.
Definition Repr (rules : list Rule) : gostring := Repr_rules [] rules.

(** ** Rulesets *)

Section Ruleset.
Context {W : WildMatch}.

Definition rule_match (r : Rule) (filePath : gostring) : run bool :=
  match Compile (Pattern r) with Err _ => Done false | Ok glob => Glob.Match glob filePath end.

(** From the last rule to the first; [rules] is reversed. *)
Fixpoint match_rules (rules : list Rule) (path : gostring) : run (option Rule) :=
  match rules with
  | [] => Done None
  | rule :: rules =>
      let! matched := rule_match rule path in
      if matched : bool then Done (Some rule) else match_rules rules path
  end.

Definition Ruleset_Match (rules : list Rule) (path : gostring) : run (option Rule) :=
  match path with
  | [] => Panics "index out of range"
  | c :: _ => match_rules (rev rules) (if c =? slash then path else slash :: path)
  end.
End Ruleset.

(** ** Which rule is found *)

Section RulesetFacts.
Context {W : WildMatch}.

(** The rule's pattern compiles and denotes the path with these names. *)
Definition denotes (names : list gostring) (r : Rule) : bool :=
  match Compile (Pattern r) with Ok glob => matches (parts glob) names | Err _ => false end.
(** The pattern is one that [Glob.Match] treats as its parts say. *)
Definition regular (r : Rule) : bool :=
  match Compile (Pattern r) with
  | Ok glob => (length (parts glob) <=? 62)%nat && spaced (parts glob) && negb (HasPrefix (Pattern r) (str "//"))
  | Err _ => true
  end.

Definition first_match (f : Rule -> bool) (rules : list Rule) : option Rule := head (List.filter f rules).

Lemma match_rules_correct (f : Rule -> bool) rules path :
  Forall (fun r => rule_match r path = Done (f r)) rules -> match_rules rules path = Done (first_match f rules).
Proof.
  unfold first_match. induction 1 as [|r rules Hr _ IH]; [done|]. simpl. rewrite Hr. simpl. destruct (f r); [done|exact IH].
Qed.

Lemma head_rev {A} (l : list A) : head (rev l) = last l.
Proof. destruct l as [|x l _] using rev_ind; [done|]. by rewrite rev_unit, last_snoc. Qed.
Lemma filter_rev {A} (f : A -> bool) l : List.filter f (rev l) = rev (List.filter f l).
Proof. induction l as [|x l IH]; [done|]. simpl. rewrite List.filter_app, IH. simpl. destruct (f x); [done|apply app_nil_r]. Qed.
Lemma rule_match_correct r names : regular r = true -> names <> [] -> Forall file_name names ->
  rule_match r (file_path names) = Done (denotes names r).
Proof.
  unfold regular, rule_match, denotes. destruct (Compile (Pattern r)) as [g|e] eqn:Ec; [|done].
  intros [[Hl%Nat.leb_le Hsp]%andb_true_iff H2%negb_true_iff]%andb_true_iff Hne Hn. by eapply Match_exact.
Qed.

Lemma match_rules_last rules names : forallb regular rules = true -> names <> [] -> Forall file_name names ->
  match_rules (rev rules) (file_path names) = Done (last (List.filter (denotes names) rules)).
Proof.
  intros Hr Hne Hn. rewrite (match_rules_correct (denotes names)).
  - unfold first_match. by rewrite filter_rev, head_rev.
  - apply Forall_rev, List.Forall_forall. intros r Hin. apply rule_match_correct; [|done..].
    by eapply forallb_forall in Hr.
Qed.

(** C15: Looking a path up in a ruleset gives the last rule of the file whose pattern denotes the path, and no rule when there is none, whether or not the path starts with a slash: for rules with patterns of at most 62 parts that do not have [**] twice in a row past their start; a pattern that does not compile denotes nothing. *)
Theorem Ruleset_Match_correct rules names :
  forallb regular rules = true -> names <> [] -> Forall file_name names ->
  Ruleset_Match rules (Join names [slash]) = Done (last (List.filter (denotes names) rules)) /\
  Ruleset_Match rules (file_path names) = Done (last (List.filter (denotes names) rules)).
Proof.
  intros Hr Hne Hn. unfold Ruleset_Match. split.
  - destruct (Join names [slash]) as [|c path] eqn:E.
    + by destruct (last_Join names Hne Hn) as (c & Hc & _); rewrite E in Hc.
    + assert (c <> slash) as Hc.
      { destruct Hn as [|[|d n] names [Hn1 Hn2] _]; [done..|]. apply Forall_cons_1 in Hn2 as [Hd _].
        destruct names; simpl in E; by injection E as <- _. }
      rewrite (proj2 (Z.eqb_neq _ _) Hc), <- E. by apply match_rules_last.
  - unfold file_path at 1. rewrite Z.eqb_refl. by apply match_rules_last.
Qed.
End RulesetFacts.

(** ** Which files are read *)

Lemma re_space_range c : re_space c = true -> 9 <= c <= 13 \/ c = 32.
Proof.
  unfold re_space. intros (d & Hd & ->%Z.eqb_eq)%existsb_exists.
  repeat (destruct Hd as [<-|Hd]; [lia|]). done.
Qed.
Lemma re_space_IsSpace c : re_space c = true -> IsSpace c = true.
Proof. intros [?| ->]%re_space_range; [|done]. unfold IsSpace, between. destruct ((0 <=? c) && (c <=? 255)) eqn:E; lia. Qed.

Lemma TrimLeftSpace_blank s : forallb re_space s = true -> TrimLeftSpace s = [].
Proof.
  unfold TrimLeftSpace. induction s as [|c s IH]; [done|]. simpl. intros [Hc Hs]%andb_true_iff.
  pose proof (re_space_range c Hc). rewrite segments_ascii_cons by lia. simpl. rewrite re_space_IsSpace by done. by apply IH.
Qed.

Lemma trim_left_blank f s : trim_left f s = [] -> forallb f s = true.
Proof. induction s as [|c s IH]; [done|]. simpl. destruct (f c); [exact IH|done]. Qed.
Lemma trim_left_head f s c t : trim_left f s = c :: t -> f c = false.
Proof. induction s as [|d s IH]; [done|]. simpl. destruct (f d) eqn:E; [exact IH|]. intros [= <- <-]. done. Qed.

Lemma take_pattern_nonempty c t : re_space c = false -> (take_pattern (c :: t)).1 <> [].
Proof. simpl. intros ->. destruct (c =? _); [destruct t|]; repeat case_match; simpl; congruence. Qed.

(** A line that is not blank is a rule, if it is not a section. *)
Lemma matchRule_total line : isBlank line = false -> matchRule line <> None.
Proof.
  unfold isBlank, matchRule. intros Hb. destruct (trim_left re_space (lineWithoutComments line)) as [|c t] eqn:E.
  - apply trim_left_blank, TrimLeftSpace_blank in E. unfold TrimSpace in Hb. rewrite E in Hb. done.
  - pose proof (take_pattern_nonempty c t (trim_left_head _ _ _ _ E)) as H.
    destruct (take_pattern (c :: t)) as [[|d p] rest]; done.
Qed.

Definition fits (piece : gostring) : bool := (length piece <? MaxScanTokenSize)%nat.
Lemma scan_lines_cons p pieces : pieces <> [] ->
  scan_lines (p :: pieces) = if fits p then (dropCR p :: (scan_lines pieces).1, (scan_lines pieces).2) else ([], true).
Proof. intros Hp. destruct pieces as [|q pieces]; [done|]. unfold fits. cbn [scan_lines]. repeat case_match; done. Qed.

Lemma scan_lines_too_long pieces : (scan_lines pieces).2 = negb (forallb fits pieces).
Proof.
  induction pieces as [|p pieces IH]; [done|]. destruct pieces as [|q pieces].
  - simpl. rewrite andb_true_r. unfold fits. destruct p as [|c p]; [done|]. by destruct (_ <? _)%nat.
  - rewrite scan_lines_cons by done. change (forallb fits (p :: q :: pieces)) with (fits p && forallb fits (q :: pieces)).
    by destruct (fits p).
Qed.

Section ParseFacts.
Context {U : UnicodeTables} {M : MailAddress}.

Lemma parse_lines_total lines section n : exists rules, parse_lines lines section n = Ok rules.
Proof.
  revert section n. induction lines as [|line lines IH]; intros section n; [by exists []|]. cbn [parse_lines].
  destruct (isBlank line) eqn:Eb; [apply IH|]. destruct (matchSection line) as [name|]; [apply IH|].
  apply matchRule_total in Eb. destruct (matchRule line) as [[p os]|]; [|done].
  destruct (IH section (wrap_int32 (n + 1))) as [rules ->]. eauto.
Qed.

(** Parsing a CODEOWNERS file fails exactly when one of its lines has 65536 bytes or more, and then with the scanner's error: every line that is neither blank nor a section is a rule, so that the error for a line that is not a rule never occurs. *)
Theorem Parse_fails file :
  Parse file = Err ErrTooLong /\ forallb fits (Split file newline) = false \/
  (exists rules, Parse file = Ok rules) /\ forallb fits (Split file newline) = true.
Proof.
  unfold Parse. pose proof (scan_lines_too_long (Split file newline)) as H.
  destruct (scan_lines (Split file newline)) as [lines b]. simpl in H. subst b.
  destruct (parse_lines_total lines [] 0) as [rules ->]. destruct (forallb fits _); simpl; eauto.
Qed.
End ParseFacts.

(** ** Reading back what was printed *)

(** A visible ASCII character that starts no comment and no escape. *)
Definition visible (c : Z) : bool := (33 <=? c) && (c <? 127) && negb (c =? commentStart) && negb (c =? escapeCharacter).
Definition word (s : gostring) : bool := negb (gs_eqb s []) && forallb visible s.
Definition words (ws : list gostring) : gostring := concat (map (cons 32) ws).

Lemma visible_range c : visible c = true -> 33 <= c < 127 /\ c <> 35 /\ c <> 92.
Proof. unfold visible, commentStart, escapeCharacter. lia. Qed.
Lemma visible_not_space c : visible c = true -> re_space c = false.
Proof. intros H%visible_range. apply not_true_is_false. intros ?%re_space_range. lia. Qed.
Lemma visible_not_IsSpace c : visible c = true -> IsSpace c = false.
Proof. intros H%visible_range. unfold IsSpace, between. destruct ((0 <=? c) && (c <=? 255)) eqn:E; lia. Qed.
Lemma word_forall w : word w = true -> Forall (fun c => visible c = true) w.
Proof. intros [_ H]%andb_true_iff. by apply List.Forall_forall, forallb_forall. Qed.
Lemma word_cons w : word w = true -> exists c t, w = c :: t /\ visible c = true.
Proof. destruct w as [|c t]; [done|]. intros [_ [? _]%andb_true_iff]%andb_true_iff. eauto. Qed.
Lemma visible_ascii s : Forall (fun c => visible c = true) s -> ascii s.
Proof. intros Hs. eapply Forall_impl; [exact Hs|]. intros c H%visible_range. lia. Qed.

Lemma words_forall (P : Z -> Prop) ws :
  P 32 -> (forall c, visible c = true -> P c) -> Forall (fun w => word w = true) ws -> Forall P (words ws).
Proof.
  intros H32 HP. unfold words. induction 1 as [|w ws Hw _ IH]; [constructor|]. cbn [map concat]. apply Forall_app. split; [|exact IH].
  constructor; [done|]. eapply Forall_impl; [by apply word_forall|done].
Qed.

Lemma without_comments_plain s : Forall (fun c => c <> commentStart /\ c <> escapeCharacter) s -> lineWithoutComments s = s.
Proof.
  unfold lineWithoutComments. induction 1 as [|c s [H1 H2] _ IH]; [done|]. cbn [without_comments].
  rewrite (proj2 (Z.eqb_neq _ _) H1), (proj2 (Z.eqb_neq _ _) H2). cbn [andb]. by rewrite IH.
Qed.

Lemma dropCR_plain s : Forall (fun c => c <> 13) s -> dropCR s = s.
Proof.
  intros H. unfold dropCR, TrimSuffix, HasSuffix. destruct s as [|c s _] using rev_ind; [done|].
  apply Forall_app in H as [_ Hc]. apply Forall_cons_1 in Hc as [Hc _]. rewrite rev_unit. cbn [rev app HasPrefix].
  by rewrite (proj2 (Z.eqb_neq 13 c)) by done.
Qed.

(** The trailing spaces are not more than what follows the first rune. *)
Lemma trailing_space_le segs n :
  (fold_left (fun n g => if IsSpace (seg_rune g) then n + seg_width g else 0) segs n <= n + sum_list (seg_width <$> segs))%nat.
Proof.
  revert n. induction segs as [|g segs IH]; intros n; csimpl; [lia|]. etrans; [apply IH|]. destruct (IsSpace _); lia.
Qed.

Lemma TrimSpace_visible c t : visible c = true -> TrimSpace (c :: t) <> [].
Proof.
  intros Hc. pose proof (visible_range c Hc). unfold TrimSpace, TrimLeftSpace, trailing_space.
  rewrite !segments_ascii_cons by lia. cbn [trim_left_segs seg_rune]. rewrite visible_not_IsSpace by done.
  rewrite segments_ascii_cons by lia. cbn [fold_left seg_rune]. rewrite visible_not_IsSpace by done.
  pose proof (trailing_space_le (segments t) 0) as H0. rewrite Utf8Facts.segments_width in H0.
  cbn [length]. destruct (S (length t) - _)%nat eqn:E; [lia|done].
Qed.

Lemma isBlank_visible c t : visible c = true -> isBlank (c :: t) = false.
Proof.
  intros Hc. pose proof (visible_range c Hc). unfold isBlank, lineWithoutComments. cbn [without_comments].
  rewrite (proj2 (Z.eqb_neq c commentStart)) by (unfold commentStart; lia). cbn [andb].
  apply bool_decide_eq_false. by apply TrimSpace_visible.
Qed.

Lemma take_pattern_word p rest : Forall (fun c => visible c = true) p -> (rest = [] \/ exists t, rest = 32 :: t) ->
  take_pattern (p ++ rest) = (p, rest).
Proof.
  intros Hp Hr. induction Hp as [|c p Hc _ IH].
  - by destruct Hr as [->|[t ->]].
  - cbn [app take_pattern]. pose proof (visible_range c Hc). rewrite (proj2 (Z.eqb_neq c escapeCharacter)) by (unfold escapeCharacter; lia).
    rewrite visible_not_space by done. by rewrite IH.
Qed.

Lemma fields_aux_word w rest field : Forall (fun c => visible c = true) w ->
  fields_aux (segments (w ++ rest)) (w ++ rest) field = fields_aux (segments rest) rest (field ++ w).
Proof.
  intros Hw. revert field. induction Hw as [|c w Hc _ IH]; intros field; [by rewrite app_nil_r|]. cbn [app].
  pose proof (visible_range c Hc). rewrite segments_ascii_cons by lia. cbn [fields_aux seg_rune seg_rest seg_width].
  rewrite visible_not_IsSpace by done. rewrite IH. by rewrite <- app_assoc.
Qed.

Lemma Fields_words ws : Forall (fun w => word w = true) ws -> forall field,
  fields_aux (segments (words ws)) (words ws) field = flush field ++ ws.
Proof.
  unfold words. induction 1 as [|w ws Hw _ IH]; intros field; [by rewrite app_nil_r|]. cbn [map concat app].
  rewrite segments_ascii_cons by lia. cbn [fields_aux seg_rune seg_rest]. change (IsSpace 32) with true. cbn iota. f_equal.
  rewrite fields_aux_word by (by apply word_forall). rewrite IH. by destruct (word_cons w Hw) as (c & t & -> & _).
Qed.

Lemma trim_words ws : Forall (fun w => word w = true) ws -> rev (trim_left re_space (rev (words ws))) = words ws.
Proof.
  intros Hws. destruct ws as [|w ws _] using rev_ind; [done|]. apply Forall_app in Hws as [_ Hw].
  apply Forall_cons_1 in Hw as [Hw _]. unfold words. rewrite map_app, concat_app. cbn [map concat]. rewrite app_nil_r.
  pose proof (word_forall w Hw) as Hv. destruct w as [|c w _] using rev_ind; [done|].
  apply Forall_app in Hv as [_ Hc]. apply Forall_cons_1 in Hc as [Hc _].
  rewrite app_comm_cons, app_assoc, rev_unit. cbn [trim_left]. rewrite visible_not_space by done. cbn [rev]. by rewrite rev_involutive.
Qed.

Definition rule_pattern (p : gostring) : bool :=
  word p && match p with c :: _ => negb (c =? 91) && negb (c =? 94) | [] => false end.

Lemma words_head ws : words ws = [] \/ exists t, words ws = 32 :: t.
Proof. destruct ws as [|w ws]; [by left|right; by eexists]. Qed.

Lemma line_forall (P : Z -> Prop) p ws :
  P 32 -> (forall c, visible c = true -> P c) -> word p = true -> Forall (fun w => word w = true) ws -> Forall P (p ++ words ws).
Proof.
  intros H32 HP Hp Hws. apply Forall_app. split; [|by apply words_forall].
  eapply Forall_impl; [by apply word_forall|done].
Qed.

Lemma line_comments p ws : word p = true -> Forall (fun w => word w = true) ws -> lineWithoutComments (p ++ words ws) = p ++ words ws.
Proof. intros Hp Hws. apply without_comments_plain, line_forall; [done| |done..]. intros c H%visible_range. unfold commentStart, escapeCharacter. lia. Qed.

Lemma matchRule_line p ws : word p = true -> Forall (fun w => word w = true) ws -> matchRule (p ++ words ws) = Some (p, ws).
Proof.
  intros Hp Hws. unfold matchRule. rewrite line_comments by done. destruct (word_cons p Hp) as (c & t & E & Hc).
  assert (trim_left re_space (p ++ words ws) = p ++ words ws) as ->.
  { rewrite E. cbn [app trim_left]. by rewrite visible_not_space. }
  rewrite take_pattern_word; [|by apply word_forall|apply words_head]. rewrite trim_words by done. unfold Fields. rewrite Fields_words by done.
  by rewrite E.
Qed.

Lemma matchSection_line p ws : rule_pattern p = true -> Forall (fun w => word w = true) ws -> matchSection (p ++ words ws) = None.
Proof.
  intros [Hp Hc]%andb_true_iff Hws. unfold matchSection. rewrite line_comments by done. destruct (word_cons p Hp) as (c & t & -> & Hv).
  apply andb_true_iff in Hc as [H1%negb_true_iff H2%negb_true_iff]. cbn [app trim_left]. rewrite visible_not_space by done. by rewrite H2, H1.
Qed.

Lemma unescape_word p : word p = true -> unescape p = p.
Proof.
  intros Hp%word_forall. unfold unescape. rewrite runes_ascii by (by apply visible_ascii).
  assert (unescape_runes false p = p) as ->; [|by apply of_runes_ascii, visible_ascii].
  induction Hp as [|c p Hc _ IH]; [done|]. cbn [unescape_runes]. pose proof (visible_range c Hc).
  rewrite (proj2 (Z.eqb_neq c escapeCharacter)) by (unfold escapeCharacter; lia). cbn [andb]. by rewrite IH.
Qed.

Section RoundTrip.
Context {U : UnicodeTables} {M : MailAddress}.

Definition section_byte (c : Z) : bool := negb (existsb (Z.eqb c) [newline; 13; commentStart; escapeCharacter; 93]).
(** A section name as the parser leaves it. *)
Definition section_name (s : gostring) : bool :=
  negb (gs_eqb s []) && forallb section_byte s && gs_eqb (TrimSpace (ToLower s)) s.

Lemma until_bracket_plain s rest : Forall (fun c => c <> 93) s -> until_bracket (s ++ 93 :: rest) = Some (s, rest).
Proof.
  induction 1 as [|c s Hc _ IH]; [done|]. cbn [app until_bracket]. rewrite (proj2 (Z.eqb_neq _ _) Hc). by rewrite IH.
Qed.

Definition section_line (s : gostring) : gostring := str "[" ++ s ++ str "]".

Lemma section_bytes s : section_name s = true ->
  Forall (fun c => c <> newline /\ c <> 13 /\ c <> commentStart /\ c <> escapeCharacter /\ c <> 93) s.
Proof.
  intros [[_ H]%andb_true_iff _]%andb_true_iff. apply List.Forall_forall. intros c Hc. eapply forallb_forall in H; [|done].
  unfold section_byte in H. cbn [existsb] in H. lia.
Qed.

Lemma section_line_forall (P : Z -> Prop) s : Forall P s -> P 91 -> P 93 -> Forall P (section_line s).
Proof. intros Hs H1 H2. unfold section_line. apply Forall_app. split; [by constructor|]. apply Forall_app. split; [done|by constructor]. Qed.

Lemma matchSection_section s : section_name s = true -> matchSection (section_line s) = Some s.
Proof.
  intros Hs. pose proof (section_bytes s Hs) as Hb. unfold matchSection. rewrite without_comments_plain.
  2: { apply section_line_forall; [|done..]. eapply Forall_impl; [exact Hb|]. naive_solver. }
  unfold section_line. change (str "[" ++ s ++ str "]") with (91 :: s ++ [93]). cbn [trim_left]. change (re_space 91) with false. cbn iota.
  change (91 =? 94) with false. cbn iota. change (91 =? 91) with true. cbn iota. rewrite until_bracket_plain.
  - apply andb_true_iff in Hs as [[Hs%negb_true_iff _]%andb_true_iff _]. by rewrite Hs.
  - eapply Forall_impl; [exact Hb|]. naive_solver.
Qed.

Definition owner_text (o : Owner) : gostring := if gs_eqb (Handle o) [] then Email o else str "@" ++ Handle o.
(** An owner with a handle or with an address that the mail package reads as itself. *)
Definition printable_owner (o : Owner) : bool :=
  if gs_eqb (Handle o) [] then
    word (Email o) && negb (HasPrefix (Email o) (str "@")) && bool_decide (ParseAddress (Email o) = Some (Email o))
  else word (Handle o) && gs_eqb (Email o) [].
Definition printable_rule (r : Rule) : bool := rule_pattern (Pattern r) && forallb printable_owner (owners r).

Lemma owner_text_ok o : printable_owner o = true ->
  owner_Repr o = 32 :: owner_text o /\ word (owner_text o) = true /\ ParseOwner (owner_text o) = o.
Proof.
  destruct o as [h e]. unfold printable_owner, owner_text, owner_Repr, ParseOwner. cbn [Handle Email].
  destruct (gs_eqb h []) eqn:Eh.
  - apply gs_eqb_eq in Eh as ->. intros [[Hw Hp%negb_true_iff]%andb_true_iff Ha%bool_decide_eq_true]%andb_true_iff.
    rewrite Hp, Ha. apply andb_true_iff in Hw as Hw'. destruct Hw' as [He%negb_true_iff _]. by rewrite He.
  - intros [Hw ->%gs_eqb_eq]%andb_true_iff. change (gs_eqb [] []) with true. cbn iota. rewrite app_nil_r.
    apply andb_true_iff in Hw as [_ Hw]. done.
Qed.

Definition rule_line (r : Rule) : gostring := Pattern r ++ words (map owner_text (owners r)).
Fixpoint Repr_lines (lastSeenSection : gostring) (rules : list Rule) : list gostring :=
  match rules with
  | [] => []
  | r :: rules =>
      (if gs_eqb (SectionName r) lastSeenSection then [] else [section_line (SectionName r)]) ++
      rule_line r :: Repr_lines (SectionName r) rules
  end.
(** Sections have names, but for the rules before the first one. *)
Fixpoint printable_rules (lastSeenSection : gostring) (rules : list Rule) : bool :=
  match rules with
  | [] => true
  | r :: rules =>
      printable_rule r && (gs_eqb (SectionName r) lastSeenSection || section_name (SectionName r)) &&
      printable_rules (SectionName r) rules
  end.

Lemma owners_texts os : forallb printable_owner os = true ->
  concat (map owner_Repr os) = words (map owner_text os) /\ Forall (fun w => word w = true) (map owner_text os) /\
  map ParseOwner (map owner_text os) = os.
Proof.
  induction os as [|o os IH]; [done|]. intros [Ho Hos]%andb_true_iff. destruct (IH Hos) as (E1 & E2 & E3).
  destruct (owner_text_ok o Ho) as (H1 & H2 & H3). unfold words in *. cbn [map concat]. rewrite H1, E1, H3, E3. by repeat constructor.
Qed.

Lemma Repr_rules_lines lastSeen rules : printable_rules lastSeen rules = true ->
  Repr_rules lastSeen rules = concat (map (fun line => line ++ [newline]) (Repr_lines lastSeen rules)).
Proof.
  revert lastSeen. induction rules as [|r rules IH]; intros lastSeen; [done|]. cbn [printable_rules Repr_rules Repr_lines].
  intros [[[_ Ho]%andb_true_iff _]%andb_true_iff Hrs]%andb_true_iff. rewrite (IH _ Hrs). unfold rule_Repr.
  rewrite (proj1 (owners_texts _ Ho)). unfold rule_line, section_line.
  destruct (gs_eqb _ lastSeen); cbn [map concat app]; rewrite <- ?app_assoc; done.
Qed.

(** Lines that the scanner gives as they are. *)
Definition clean (line : gostring) : Prop := Forall (fun c => c <> newline /\ c <> 13) line.

Lemma Repr_lines_clean lastSeen rules : printable_rules lastSeen rules = true -> Forall clean (Repr_lines lastSeen rules).
Proof.
  revert lastSeen. induction rules as [|r rules IH]; intros lastSeen; [constructor|]. cbn [printable_rules Repr_lines].
  intros [[[[Hp _]%andb_true_iff Ho]%andb_true_iff Hs]%andb_true_iff Hrs]%andb_true_iff. apply Forall_app. split; [|constructor; [|by apply IH]].
  - destruct (gs_eqb _ lastSeen); [constructor|]. apply Forall_cons. split; [|constructor]. apply section_line_forall; [|done..].
    eapply Forall_impl; [by apply section_bytes|]. naive_solver.
  - apply line_forall; [done| |done|apply (owners_texts _ Ho)]. intros c H%visible_range. unfold newline. lia.
Qed.

Lemma Split_clean lines : Forall clean lines ->
  Split (concat (map (fun line => line ++ [newline]) lines)) newline = lines ++ [[]].
Proof.
  intros H. apply Split_terminated. eapply Forall_impl; [exact H|]. intros line Hl.
  eapply Forall_impl; [exact Hl|]. naive_solver.
Qed.

Lemma scan_clean lines : Forall clean lines -> forallb fits (lines ++ [[]]) = true -> scan_lines (lines ++ [[]]) = (lines, false).
Proof.
  induction 1 as [|line lines Hl _ IH]; [done|]. intros [Hf Hfs]%andb_true_iff. cbn [app].
  rewrite scan_lines_cons by (by destruct lines). rewrite Hf, (IH Hfs). cbn [fst snd]. rewrite dropCR_plain; [done|].
  eapply Forall_impl; [exact Hl|]. naive_solver.
Qed.

Lemma parse_section s lines sec n : section_name s = true ->
  parse_lines (section_line s :: lines) sec n = parse_lines lines s (wrap_int32 (n + 1)).
Proof.
  intros Hs. cbn [parse_lines]. unfold section_line at 1. change (str "[" ++ s ++ str "]") with (91 :: s ++ [93]).
  rewrite isBlank_visible by done. by rewrite matchSection_section.
Qed.

Lemma parse_rule r lines sec n : printable_rule r = true ->
  exists k, parse_lines (rule_line r :: lines) sec n =
    match parse_lines lines sec k with
    | Err e => Err e
    | Ok rules => Ok (MkRule (Pattern r) (TrimSpace (ToLower sec)) k (owners r) :: rules)
    end.
Proof.
  intros [Hp Ho]%andb_true_iff. pose proof Hp as Hp'. apply andb_true_iff in Hp' as [Hw _].
  destruct (owners_texts _ Ho) as (_ & Hws & Eo). exists (wrap_int32 (n + 1)). cbn [parse_lines]. unfold rule_line.
  rewrite matchSection_line, matchRule_line by done. destruct (word_cons _ Hw) as (c & t & E & Hc).
  rewrite E at 1. cbn [app]. rewrite isBlank_visible by done. by rewrite unescape_word, Eo.
Qed.

(** All of a rule but its line number. *)
Definition content (r : Rule) : gostring * gostring * list Owner := (Pattern r, SectionName r, owners r).

Lemma parse_Repr_lines rules lastSeen sec n :
  printable_rules lastSeen rules = true -> TrimSpace (ToLower sec) = lastSeen ->
  exists rules', parse_lines (Repr_lines lastSeen rules) sec n = Ok rules' /\ map content rules' = map content rules.
Proof.
  revert lastSeen sec n. induction rules as [|r rules IH]; intros lastSeen sec n; [by exists []|]. cbn [printable_rules Repr_lines].
  intros [[Hr Hs]%andb_true_iff Hrs]%andb_true_iff Hsec.
  assert (exists sec' n', parse_lines ((if gs_eqb (SectionName r) lastSeen then [] else [section_line (SectionName r)]) ++
      rule_line r :: Repr_lines (SectionName r) rules) sec n = parse_lines (rule_line r :: Repr_lines (SectionName r) rules) sec' n' /\
      TrimSpace (ToLower sec') = SectionName r) as (sec' & n' & -> & E).
  { destruct (gs_eqb (SectionName r) lastSeen) eqn:Es.
    - apply gs_eqb_eq in Es. exists sec, n. by rewrite Es.
    - exists (SectionName r), (wrap_int32 (n + 1)). cbn [app orb] in *. rewrite parse_section by done.
      apply andb_true_iff in Hs as [_ Hs%gs_eqb_eq]. done. }
  destruct (parse_rule r (Repr_lines (SectionName r) rules) sec' n' Hr) as [k ->].
  destruct (IH (SectionName r) sec' k Hrs E) as (rules' & -> & Em). eexists. split; [done|]. cbn [map]. rewrite Em. unfold content at 1. by rewrite E.
Qed.

End RoundTrip.

(** ** Examples *)
Section Examples.
#[local] Instance tables : UnicodeTables := plain_tables.
(** An address is a text with an at sign. *)
#[local] Instance at_sign : MailAddress :=
  {| ParseAddress := fun s => if Contains s (str "@") then Some s else None |}.
(** Asterisks at the start of a name only. *)
#[local] Instance leading_star : WildMatch :=
  {| wildmatch := fun glob name => match glob with 42 :: rest => HasSuffix name rest | _ => gs_eqb glob name end |}.

Definition lines_of (lines : list string) : gostring := concat (map (fun l => str l ++ [newline]) lines).
Definition parsed_file (lines : list string) : list Rule :=
  match Parse (lines_of lines) with Ok rules => rules | Err _ => [] end.
Definition the_rule (r : Rule) := (Pattern r, SectionName r, LineNumber r, map (fun o => (Handle o, Email o)) (owners r)).

(** From the tests of the parser. *)
Example ex_parse :
  map the_rule (parsed_file ["# comment"; ""; "*.js    @js-owner #inline"; "*.go docs@example.com"; "[PM]"; "^[Docs][2]"; "path\ with\ spaces/ @space-owner"; "\#file @o user"]) =
  [(str "*.js", [], 3, [(str "js-owner", [])]); (str "*.go", [], 4, [([], str "docs@example.com")]);
   (str "path with spaces/", str "docs", 7, [(str "space-owner", [])]); (str "#file", str "docs", 8, [(str "o", []); (str "user", [])])].
Proof. vm_compute. reflexivity. Qed.

Definition ex_rules : list Rule := parsed_file ["* @all"; "[docs]"; "*.md docs@example.com"; "/docs/ @writers"; "a//b @nobody"].


Definition ex_names : list gostring := [str "docs"; str "api"; str "index.md"].
Lemma Ruleset_Match_correct_witness :
  option_map Pattern (last (List.filter (denotes ex_names) ex_rules)) = Some (str "/docs/") /\
  Ruleset_Match ex_rules (str "docs/api/index.md") = Done (last (List.filter (denotes ex_names) ex_rules)).
Proof.
  split; [vm_compute; reflexivity|]. apply (Ruleset_Match_correct ex_rules ex_names); [vm_compute; reflexivity|discriminate|].
  vm_compute. repeat constructor; discriminate.
Defined.

(** A section with a blank name ends the section before it; it is printed as
    brackets that are read as a pattern. *)
Example ex_blank_section :
  let rules := parsed_file ["[docs]"; "a @x"; "[ ]"; "b @y"] in
  map content rules = [(str "a", str "docs", [MkOwner (str "x") []]); (str "b", [], [MkOwner (str "y") []])] /\
  option_map (map Pattern) (match Parse (Repr rules) with Ok rs => Some rs | Err _ => None end) = Some [str "a"; str "[]"; str "b"].
Proof. vm_compute. split; reflexivity. Qed.

(** The printer does not escape: a pattern with a space is read back as two words. *)
Example ex_space_lost :
  option_map (map the_rule) (match Parse (Repr (parsed_file ["a\ b @x"])) with Ok rs => Some rs | Err _ => None end) =
  Some [(str "a", [], 1, [(str "b", []); (str "x", [])])].
Proof. vm_compute. reflexivity. Qed.

Example ex_empty_path : Ruleset_Match ex_rules [] = Panics "index out of range".
Proof. reflexivity. Qed.
End Examples.
