(* ===== verification/Results.v ===== *)
(** Search results, [internal/search/result]: the kinds of matches, their keys,
    counting, limiting, selecting and merging.

    A match is an object that several parts of a search hold pointers to, and the
    previews of commits are objects of their own, which the matches for the files
    of one diff share.  Both live in a [Heap]; a list of matches is a list of
    pointers.  Of a commit the fields that keys are made of are kept, and of a
    symbol those that selecting reads or that are shown. *)
From S2P Require Import Prelude GoStr GoLib GoMap FilePath Validate.
#[local] Open Scope Z_scope.

(** ** Ranges *)

Record Location := MkLocation { Offset : Z; Line : Z; Column : Z }.
Record Range := MkRange { Start : Location; End_ : Location }.
Definition Ranges := list Range.

Definition Location_Add (l o : Location) : Location := MkLocation (Offset l + Offset o) (Line l + Line o) (Column l + Column o).
Definition Location_Sub (l o : Location) : Location := MkLocation (Offset l - Offset o) (Line l - Line o) (Column l - Column o).
Definition Range_Add (r : Range) (amount : Location) : Range := MkRange (Location_Add (Start r) amount) (Location_Add (End_ r) amount).
Definition Range_Sub (r : Range) (amount : Location) : Range := MkRange (Location_Sub (Start r) amount) (Location_Sub (End_ r) amount).
Definition Ranges_Add (r : Ranges) (amount : Location) : Ranges := map (fun oldRange => Range_Add oldRange amount) r.
Definition Ranges_Sub (r : Ranges) (amount : Location) : Ranges := map (fun oldRange => Range_Sub oldRange amount) r.

(** [s[lo:hi]] *)
Definition slice {A} (s : list A) (lo hi : Z) : run (list A) :=
  if (0 <=? lo) && (lo <=? hi) && (hi <=? Z.of_nat (length s)) then Done (take (Z.to_nat (hi - lo)) (drop (Z.to_nat lo) s))
  else Panics "slice bounds out of range".

Record MatchedString := MkMatched { Content : gostring; MatchedRanges : Ranges }.
Record ChunkMatch := MkChunk { ch_Content : gostring; ContentStart : Location; ch_Ranges : Ranges }.

Fixpoint run_map {A B} (f : A -> run B) (l : list A) : run (list B) :=
  match l with
  | [] => Done []
  | a :: l => let! b := f a in let! bs := run_map f l in Done (b :: bs)
  end.

Definition MatchedContent (h : ChunkMatch) : run (list gostring) :=
  run_map (fun rr => slice (ch_Content h) (Offset (Start rr)) (Offset (End_ rr))) (Ranges_Sub (ch_Ranges h) (ContentStart h)).

(** ** Matches *)

Record MinimalRepo := MkRepo { ID : Z; Name : gostring; Stars : Z }.
(** [time.Time]: the instant, since the zero time, and the location, which [==]
    compares, too. *)
Record Time := MkTime { instant : Z; location : Z }.

Record File := MkFile { InputRev : option gostring; Repo : MinimalRepo; CommitID : gostring; Path : gostring }.
Record Symbol := MkSymbol { s_Name : gostring; s_Line : Z; s_Character : Z; Kind : gostring }.
Record FileMatch := MkFileMatch {
  fm_File : File; ChunkMatches : list ChunkMatch; Symbols : list Symbol; PathMatches : Ranges; LimitHit : bool }.
Record RepoMatch := MkRepoMatch {
  rm_Name : gostring; rm_ID : Z; Rev : gostring; DescriptionMatches : Ranges; RepoNameMatches : Ranges }.
Record Hunk := MkHunk { OldStart : Z; NewStart : Z; OldCount : Z; NewCount : Z; Header : gostring; Lines : list gostring }.
Record DiffFile := MkDiffFile { OrigName : gostring; NewName : gostring; Hunks : list Hunk }.

Definition ptr := positive.
Record CommitMatch := MkCommitMatch {
  cm_ID : gostring; cm_AuthorDate : Time; cm_Repo : MinimalRepo;
  MessagePreview : option ptr; DiffPreview : option ptr; Diff : list DiffFile }.
Record CommitDiffMatch := MkDiffMatch {
  cd_ID : gostring; cd_AuthorDate : Time; cd_Repo : MinimalRepo; Preview : option ptr; cd_File : DiffFile }.
Inductive Owner := OwnerPerson (handle email : gostring) | OwnerTeam (team : gostring).
Record OwnerMatch := MkOwnerMatch {
  ResolvedOwner : option Owner; om_InputRev : option gostring; om_Repo : MinimalRepo; om_CommitID : gostring }.

Inductive Match :=
| MFile (fm : FileMatch) | MRepo (rm : RepoMatch) | MCommit (cm : CommitMatch) | MDiff (cd : CommitDiffMatch) | MOwner (om : OwnerMatch).

Record Heap := MkHeap { objs : gmap ptr Match; strs : gmap ptr MatchedString }.
Definition set_obj (p : ptr) (m : Match) (h : Heap) : Heap := MkHeap (<[p := m]> (objs h)) (strs h).
Definition set_str (p : ptr) (s : MatchedString) (h : Heap) : Heap := MkHeap (objs h) (<[p := s]> (strs h)).

(** ** The monad: a heap, and panics. *)
Definition M (A : Type) : Type := Heap -> run (Heap * A).
Definition ret {A} (a : A) : M A := fun h => Done (h, a).
Definition bind {A B} (m : M A) (k : A -> M B) : M B := fun h => let! ha := m h in k ha.2 ha.1.
Definition panic {A} (why : string) : M A := fun _ => Panics why.
Definition lift {A} (r : run A) : M A := fun h => let! a := r in Done (h, a).
Notation "'do' x <- m ; k" := (bind m (fun x => k)) (at level 200, x name, m at level 100, k at level 200).
Notation "'do' ' x <- m ; k" := (bind m (fun x => k)) (at level 200, x strict pattern, m at level 100, k at level 200).

Definition nil_pointer : string := "nil pointer dereference".
Definition load (p : ptr) : M Match := fun h => match objs h !! p with Some m => Done (h, m) | None => Panics nil_pointer end.
Definition store (p : ptr) (m : Match) : M () := fun h => Done (set_obj p m h, ()).
Definition load_str (p : option ptr) : M MatchedString :=
  fun h => match p with
           | Some p => match strs h !! p with Some s => Done (h, s) | None => Panics nil_pointer end
           | None => Panics nil_pointer
           end.
Definition store_str (p : option ptr) (s : MatchedString) : M () :=
  fun h => match p with Some p => Done (set_str p s h, ()) | None => Panics nil_pointer end.
Definition new_obj (m : Match) : M ptr := fun h => let p := fresh (dom (objs h)) in Done (set_obj p m h, p).

(** ** Keys *)

Record Key := MkKey {
  k_Repo : gostring; k_Rev : gostring; AuthorDate : Time; k_Commit : gostring; k_Path : gostring;
  OwnerMetadata : gostring; TypeRank : Z }.
Definition zeroTime : Time := MkTime 0 0.

Definition rankFileMatch := 0.
Definition rankCommitMatch := 1.
Definition rankDiffMatch := 2.
Definition rankRepoMatch := 3.
Definition rankOwnerMatch := 4.

Definition dev_null : gostring := str "/dev/null".
(** [CommitDiffMatch.Path] *)
Definition diff_Path (d : DiffFile) : gostring := if gs_eqb (NewName d) dev_null then OrigName d else NewName d.
Inductive PathStatus := Modified | Added | Deleted.
(** [CommitDiffMatch.PathStatus] *)
Definition diff_PathStatus (d : DiffFile) : PathStatus :=
  if gs_eqb (OrigName d) dev_null then Added else if gs_eqb (NewName d) dev_null then Deleted else Modified.

Definition Owner_Type (o : Owner) : gostring := match o with OwnerPerson _ _ => str "person" | OwnerTeam _ => str "team" end.
Definition Owner_Identifier (o : Owner) : gostring :=
  match o with OwnerPerson handle email => str "Person:" ++ handle ++ email | OwnerTeam team => str "Team:" ++ team end.

Definition from_option_rev (rev : option gostring) : gostring := match rev with Some r => r | None => [] end.

Definition FileMatch_Key (fm : FileMatch) : Key :=
  let f := fm_File fm in MkKey (Name (Repo f)) (from_option_rev (InputRev f)) zeroTime (CommitID f) (Path f) [] rankFileMatch.
Definition RepoMatch_Key (r : RepoMatch) : Key := MkKey (rm_Name r) (Rev r) zeroTime [] [] [] rankRepoMatch.
Definition CommitMatch_Key (cm : CommitMatch) : Key :=
  MkKey (Name (cm_Repo cm)) [] (cm_AuthorDate cm) (cm_ID cm) [] []
    (match DiffPreview cm with Some _ => rankDiffMatch | None => rankCommitMatch end).
Definition CommitDiffMatch_Key (cd : CommitDiffMatch) : Key :=
  MkKey (Name (cd_Repo cd)) [] (cd_AuthorDate cd) (cd_ID cd) (diff_Path (cd_File cd)) [] rankDiffMatch.
Definition OwnerMatch_Key (om : OwnerMatch) : Key :=
  MkKey (Name (om_Repo om)) (from_option_rev (om_InputRev om)) zeroTime (om_CommitID om) []
    (match ResolvedOwner om with Some o => Owner_Type o ++ Owner_Identifier o | None => [] end) rankOwnerMatch.

Definition Match_Key (m : Match) : Key :=
  match m with
  | MFile fm => FileMatch_Key fm
  | MRepo r => RepoMatch_Key r
  | MCommit cm => CommitMatch_Key cm
  | MDiff cd => CommitDiffMatch_Key cd
  | MOwner om => OwnerMatch_Key om
  end.

Definition Key_Less (k other : Key) : bool :=
  if negb (gs_eqb (k_Repo k) (k_Repo other)) then gs_ltb (k_Repo k) (k_Repo other)
  else if negb (gs_eqb (k_Rev k) (k_Rev other)) then gs_ltb (k_Rev k) (k_Rev other)
  else if negb (instant (AuthorDate k) =? instant (AuthorDate other)) then instant (AuthorDate k) <? instant (AuthorDate other)
  else if negb (gs_eqb (k_Commit k) (k_Commit other)) then gs_ltb (k_Commit k) (k_Commit other)
  else if negb (gs_eqb (k_Path k) (k_Path other)) then gs_ltb (k_Path k) (k_Path other)
  else if negb (gs_eqb (OwnerMetadata k) (OwnerMetadata other)) then gs_ltb (OwnerMetadata k) (OwnerMetadata other)
  else TypeRank k <? TypeRank other.

#[export] Instance Time_eq_dec : EqDecision Time.
Proof. solve_decision. Defined.
#[export] Instance Time_countable : Countable Time.
Proof.
  refine (inj_countable' (fun t => (instant t, location t)) (fun p => MkTime p.1 p.2) _). by intros [].
Defined.
#[export] Instance Key_eq_dec : EqDecision Key.
Proof. solve_decision. Defined.
#[export] Instance Key_countable : Countable Key.
Proof.
  refine (inj_countable' (fun k => (k_Repo k, k_Rev k, AuthorDate k, k_Commit k, k_Path k, OwnerMetadata k, TypeRank k))
    (fun '(a, b, c, d, e, f, g) => MkKey a b c d e f g) _). by intros [].
Defined.

(** ** Counting *)

Definition MatchCount (hs : list ChunkMatch) : Z := fold_right (fun h n => Z.of_nat (length (ch_Ranges h)) + n) 0 hs.

Definition FileMatch_ResultCount (fm : FileMatch) : Z :=
  let rc := Z.of_nat (length (Symbols fm)) + MatchCount (ChunkMatches fm) in if rc =? 0 then 1 else rc.
Definition IsPathMatch (fm : FileMatch) : bool :=
  match ChunkMatches fm, Symbols fm with [], [] => true | _, _ => false end.

Definition matched_count (s : MatchedString) : Z :=
  let matchCount := Z.of_nat (length (MatchedRanges s)) in if 0 <? matchCount then matchCount else 1.

Definition OwnerMatch_ResultCount (om : OwnerMatch) : Z := match ResolvedOwner om with Some _ => 1 | None => 0 end.

(** [DiffPreview] is looked at before [MessagePreview]. *)
Definition commit_preview (cm : CommitMatch) : option ptr :=
  match DiffPreview cm with Some p => Some p | None => MessagePreview cm end.

Definition CommitMatch_ResultCount (cm : CommitMatch) : M Z :=
  match commit_preview cm with
  | Some q => do s <- load_str (Some q); ret (matched_count s)
  | None => ret 1
  end.
Definition CommitDiffMatch_ResultCount (cd : CommitDiffMatch) : M Z := do s <- load_str (Preview cd); ret (matched_count s).

Definition ResultCount (p : ptr) : M Z :=
  do m <- load p;
  match m with
  | MFile fm => ret (FileMatch_ResultCount fm)
  | MRepo _ => ret 1
  | MCommit cm => CommitMatch_ResultCount cm
  | MDiff cd => CommitDiffMatch_ResultCount cd
  | MOwner om => ret (OwnerMatch_ResultCount om)
  end.

Fixpoint Matches_ResultCount (ms : list ptr) : M Z :=
  match ms with
  | [] => ret 0
  | m :: ms => do n <- ResultCount m; do k <- Matches_ResultCount ms; ret (n + k)
  end.

(** ** Limiting *)

Fixpoint ChunkMatches_Limit (hs : list ChunkMatch) (limit : Z) : run (list ChunkMatch) :=
  match hs with
  | [] => Done []
  | h :: hs =>
      if limit <=? Z.of_nat (length (ch_Ranges h)) then
        let! ranges := slice (ch_Ranges h) 0 limit in Done [MkChunk (ch_Content h) (ContentStart h) ranges]
      else let! hs := ChunkMatches_Limit hs (limit - Z.of_nat (length (ch_Ranges h))) in Done (h :: hs)
  end.

Definition FileMatch_Limit (fm : FileMatch) (limit : Z) : run (FileMatch * Z) :=
  let matchCount := MatchCount (ChunkMatches fm) in
  let symbolCount := Z.of_nat (length (Symbols fm)) in
  if (matchCount =? 0) && (symbolCount =? 0) then Done (fm, limit - 1)
  else
    let! '(fm, limit) :=
      if limit <? matchCount then
        let! chunks := ChunkMatches_Limit (ChunkMatches fm) limit in
        Done (MkFileMatch (fm_File fm) chunks (Symbols fm) (PathMatches fm) true, 0)
      else Done (fm, limit - matchCount) in
    if limit <? symbolCount then
      let! symbols := slice (Symbols fm) 0 limit in
      Done (MkFileMatch (fm_File fm) (ChunkMatches fm) symbols (PathMatches fm) true, 0)
    else Done (fm, limit - symbolCount).

Definition limitMatchedString (ms : option ptr) (limit : Z) : M Z :=
  do s <- load_str ms;
  let n := Z.of_nat (length (MatchedRanges s)) in
  if n =? 0 then ret (limit - 1)
  else if limit <? n then
    do ranges <- lift (slice (MatchedRanges s) 0 limit);
    do _ <- store_str ms (MkMatched (Content s) ranges); ret 0
  else ret (limit - n).

Definition CommitMatch_Limit (cm : CommitMatch) (limit : Z) : M Z :=
  match commit_preview cm with
  | Some q => limitMatchedString (Some q) limit
  | None => panic "exactly one of DiffPreview or Message must be set"
  end.
Definition CommitDiffMatch_Limit (cd : CommitDiffMatch) (limit : Z) : M Z := limitMatchedString (Preview cd) limit.
Definition RepoMatch_Limit (limit : Z) : Z := limit - 1.
Definition OwnerMatch_Limit (om : OwnerMatch) (limit : Z) : Z :=
  let matchCount := OwnerMatch_ResultCount om in if matchCount =? 0 then limit else limit - matchCount.

Definition Match_Limit (p : ptr) (limit : Z) : M Z :=
  do m <- load p;
  match m with
  | MFile fm => do r <- lift (FileMatch_Limit fm limit); do _ <- store p (MFile r.1); ret r.2
  | MRepo _ => ret (RepoMatch_Limit limit)
  | MCommit cm => CommitMatch_Limit cm limit
  | MDiff cd => CommitDiffMatch_Limit cd limit
  | MOwner om => ret (OwnerMatch_Limit om limit)
  end.

Fixpoint Matches_Limit (ms : list ptr) (limit : Z) : M (list ptr * Z) :=
  match ms with
  | [] => ret ([], limit)
  | m :: ms =>
      if limit <=? 0 then ret ([], 0)
      else do limit <- Match_Limit m limit; do r <- Matches_Limit ms limit; ret (m :: r.1, r.2)
  end.

(** ** Merging *)

Definition FileMatch_AppendMatches (fm src : FileMatch) : FileMatch :=
  MkFileMatch (fm_File fm) (ChunkMatches fm ++ ChunkMatches src) (Symbols fm ++ Symbols src) (PathMatches fm) (LimitHit fm || LimitHit src).
Definition RepoMatch_AppendMatches (r src : RepoMatch) : RepoMatch :=
  MkRepoMatch (rm_Name r) (rm_ID r) (Rev r) (DescriptionMatches r ++ DescriptionMatches src) (RepoNameMatches r ++ RepoNameMatches src).
Definition CommitMatch_AppendMatches (cm src : CommitMatch) : M () :=
  match MessagePreview cm, MessagePreview src with
  | Some p, Some q =>
      do s <- load_str (Some p); do t <- load_str (Some q);
      store_str (Some p) (MkMatched (Content s) (MatchedRanges s ++ MatchedRanges t))
  | _, _ => ret ()
  end.

(** ** Diffs of a commit *)

(** The matches share the preview of the commit. *)
Definition CommitToDiffMatches (cm : CommitMatch) : list CommitDiffMatch :=
  map (MkDiffMatch (cm_ID cm) (cm_AuthorDate cm) (cm_Repo cm) (DiffPreview cm)) (Diff cm).

(** ** Selecting *)

Definition toSelectKind : list (gostring * gostring) :=
  map (fun p => (str p.1, str p.2))
  [("file", "file"); ("module", "module"); ("namespace", "namespace"); ("package", "package"); ("packagename", "package");
   ("subprogspec", "package"); ("class", "class"); ("classes", "class"); ("type", "class"); ("service", "class");
   ("typedef", "class"); ("union", "class"); ("section", "class"); ("subtype", "class"); ("component", "class");
   ("method", "method"); ("methodspec", "method"); ("property", "property"); ("field", "field"); ("member", "field");
   ("anonmember", "field"); ("recordfield", "field"); ("constructor", "constructor"); ("interface", "interface");
   ("function", "function"); ("func", "function"); ("subroutine", "function"); ("macro", "function");
   ("subprogram", "function"); ("procedure", "function"); ("command", "function"); ("singletonmethod", "function");
   ("variable", "variable"); ("var", "variable"); ("functionvar", "variable"); ("define", "variable"); ("alias", "variable");
   ("val", "variable"); ("constant", "constant"); ("const", "constant"); ("string", "string"); ("message", "string");
   ("heredoc", "string"); ("number", "number"); ("boolean", "boolean"); ("bool", "boolean"); ("array", "array");
   ("object", "object"); ("literal", "object"); ("map", "object"); ("key", "key"); ("label", "key"); ("target", "key");
   ("selector", "key"); ("id", "key"); ("tag", "key"); ("null", "null"); ("enum member", "enum-member");
   ("enumconstant", "enum-member"); ("struct", "struct"); ("event", "event"); ("operator", "operator");
   ("type parameter", "type-parameter"); ("annotation", "type-parameter")]%string.

Section Select.
Context {U : UnicodeTables}.

Definition SelectSymbolKind (symbols : list Symbol) (field : gostring) : list Symbol :=
  List.filter (fun s => gs_eqb field (match assoc (ToLower (Kind s)) toSelectKind with Some k => k | None => [] end)) symbols.

(** The line's index may be past the end. *)
Fixpoint modified_loop (lines : list gostring) (highlights : Ranges) (prefix : gostring) : run Ranges :=
  match highlights with
  | [] => Done []
  | h :: highlights =>
      if Line (Start h) <? 0 then modified_loop lines highlights prefix
      else
        match lines !! Z.to_nat (Line (Start h)) with
        | None => Panics "index out of range"
        | Some line =>
            let! include := modified_loop lines highlights prefix in
            Done (if HasPrefix line prefix then h :: include else include)
        end
  end.
Definition selectModifiedLines (lines : list gostring) (highlights : Ranges) (prefix : gostring) : run Ranges :=
  match lines with [] => Done highlights | _ => modified_loop lines highlights prefix end.
Definition modifiedLinesExist (lines : list gostring) (prefix : gostring) : bool := existsb (fun l => HasPrefix l prefix) lines.

Definition selectCommitDiffKind (diffPreview : option ptr) (field : gostring) : M (option ptr) :=
  let prefix := if gs_eqb field (str "added") then str "+" else if gs_eqb field (str "removed") then str "-" else [] in
  do s <- load_str diffPreview;
  let lines := Split (Content s) 10 in
  match MatchedRanges s with
  | [] => ret (if modifiedLinesExist lines prefix then diffPreview else None)
  | _ =>
      do diffHighlights <- lift (selectModifiedLines lines (MatchedRanges s) prefix);
      match diffHighlights with
      | [] => ret None
      | _ => do _ <- store_str diffPreview (MkMatched (Content s) diffHighlights); ret diffPreview
      end
  end.

Definition select_repo (repo : MinimalRepo) : M (option ptr) :=
  do q <- new_obj (MRepo (MkRepoMatch (Name repo) (ID repo) [] [] [])); ret (Some q).

Definition FileMatch_Select (p : ptr) (fm : FileMatch) (selectPath : list gostring) : M (option ptr) :=
  let root := SelectPath_Root selectPath in
  if gs_eqb root (str "repo") then select_repo (Repo (fm_File fm))
  else if gs_eqb root (str "file") then
    let f := fm_File fm in
    let path :=
      match selectPath with
      | _ :: field :: _ => if gs_eqb field (str "directory") then Clean (Dir (Path f)) ++ str "/" else Path f
      | _ => Path f
      end in
    do _ <- store p (MFile (MkFileMatch (MkFile (InputRev f) (Repo f) (CommitID f) path) [] [] (PathMatches fm) (LimitHit fm)));
    ret (Some p)
  else if gs_eqb root (str "symbol") then
    match Symbols fm with
    | [] => ret None
    | _ =>
        do _ <- store p (MFile (MkFileMatch (fm_File fm) [] (Symbols fm) (PathMatches fm) (LimitHit fm)));
        match selectPath with
        | _ :: field :: _ =>
            match SelectSymbolKind (Symbols fm) field with
            | [] => ret None
            | filteredSymbols =>
                do _ <- store p (MFile (MkFileMatch (fm_File fm) [] filteredSymbols (PathMatches fm) (LimitHit fm))); ret (Some p)
            end
        | _ => ret (Some p)
        end
    end
  else if gs_eqb root (str "content") then
    match ChunkMatches fm with
    | [] => ret None
    | chunks => do _ <- store p (MFile (MkFileMatch (fm_File fm) chunks [] [] (LimitHit fm))); ret (Some p)
    end
  else ret None.

(** The fields after [commit]; [keep] is the result for the match as it is, and
    [narrow] replaces its preview. *)
Definition select_diff (fields : list gostring) (preview : option ptr) (p : ptr) (narrow : option ptr -> Match) : M (option ptr) :=
  match fields with
  | [] => ret (Some p)
  | f :: rest =>
      if gs_eqb f (str "diff") then
        match rest with
        | [] => ret (Some p)
        | [kind] =>
            do filteredMatch <- selectCommitDiffKind preview kind;
            match filteredMatch with
            | None => ret None
            | Some q => do _ <- store p (narrow (Some q)); ret (Some p)
            end
        | _ => ret None
        end
      else ret (Some p)
  end.

Definition CommitMatch_Select (p : ptr) (cm : CommitMatch) (path : list gostring) : M (option ptr) :=
  let root := SelectPath_Root path in
  if gs_eqb root (str "repo") then select_repo (cm_Repo cm)
  else if gs_eqb root (str "commit") then
    match drop 1 path, DiffPreview cm with
    | f :: _, None => if gs_eqb f (str "diff") then ret None else ret (Some p)
    | fields, preview =>
        select_diff fields preview p (fun q => MCommit (MkCommitMatch (cm_ID cm) (cm_AuthorDate cm) (cm_Repo cm) (MessagePreview cm) q (Diff cm)))
    end
  else ret None.

Definition CommitDiffMatch_Select (p : ptr) (cd : CommitDiffMatch) (path : list gostring) : M (option ptr) :=
  let root := SelectPath_Root path in
  if gs_eqb root (str "repo") then select_repo (cd_Repo cd)
  else if gs_eqb root (str "commit") then
    select_diff (drop 1 path) (Preview cd) p (fun q => MDiff (MkDiffMatch (cd_ID cd) (cd_AuthorDate cd) (cd_Repo cd) q (cd_File cd)))
  else ret None.

Definition RepoMatch_Select (p : ptr) (path : list gostring) : option ptr :=
  if gs_eqb (SelectPath_Root path) (str "repo") then Some p else None.

Definition Match_Select (p : ptr) (path : list gostring) : M (option ptr) :=
  do m <- load p;
  match m with
  | MFile fm => FileMatch_Select p fm path
  | MRepo _ => ret (RepoMatch_Select p path)
  | MCommit cm => CommitMatch_Select p cm path
  | MDiff cd => CommitDiffMatch_Select p cd path
  | MOwner _ => ret None
  end.
End Select.

(** ** What a limit leaves *)

Lemma slice_prefix {A} (s : list A) n : 0 <= n <= Z.of_nat (length s) -> slice s 0 n = Done (take (Z.to_nat n) s).
Proof.
  intros Hn. unfold slice. rewrite Z.sub_0_r. change (drop (Z.to_nat 0) s) with s.
  assert ((0 <=? 0) && (0 <=? n) && (n <=? Z.of_nat (length s)) = true) as -> by lia. done.
Qed.

Lemma MatchCount_nonneg hs : 0 <= MatchCount hs.
Proof. induction hs; simpl; lia. Qed.

(** What counts as a result: the ranges of chunks, symbols and previews, or the
    match as a whole where there are none. *)
Inductive item := IWhole | IRange (content : gostring) (start : Location) (r : Range) | ISymbol (s : Symbol) | IPreview (content : gostring) (r : Range).

Definition or_whole (l : list item) : list item := match l with [] => [IWhole] | _ => l end.
Definition chunk_items (hs : list ChunkMatch) : list item :=
  concat (map (fun c => map (IRange (ch_Content c) (ContentStart c)) (ch_Ranges c)) hs).
Definition file_items (fm : FileMatch) : list item := or_whole (chunk_items (ChunkMatches fm) ++ map ISymbol (Symbols fm)).
Definition preview_items (s : MatchedString) : list item := or_whole (map (IPreview (Content s)) (MatchedRanges s)).
Definition items (s : option MatchedString) (m : Match) : list item :=
  match m with
  | MFile fm => file_items fm
  | MRepo _ => [IWhole]
  | MCommit _ | MDiff _ => match s with Some s => preview_items s | None => [] end
  | MOwner om => match ResolvedOwner om with Some _ => [IWhole] | None => [] end
  end.

(** The first [limit] of the results [l] are left, and [rest] is what remains of
    the limit. *)
Definition limited {A} (limit : Z) (l l' : list A) (rest : Z) : Prop :=
  l' = take (Z.to_nat limit) l /\ rest = limit - Z.of_nat (length l').

Lemma limited_all {A} limit (l : list A) : Z.of_nat (length l) <= limit -> limited limit l l (limit - Z.of_nat (length l)).
Proof. intros. split; [|done]. by rewrite take_ge by lia. Qed.
Lemma limited_cut {A} limit (l l' : list A) : l' = take (Z.to_nat limit) l -> 0 <= limit <= Z.of_nat (length l) -> limited limit l l' 0.
Proof. intros -> ?. split; [done|]. rewrite length_take. lia. Qed.
Lemma limited_app {A} limit (l1 l1' l2 l2' : list A) rest1 rest : 0 <= limit ->
  limited limit l1 l1' rest1 -> limited rest1 l2 l2' rest -> limited limit (l1 ++ l2) (l1' ++ l2') rest.
Proof.
  intros H0 [-> ->] [-> ->]. unfold limited. rewrite !length_app, !length_take. split; [|lia]. rewrite take_app. do 2 f_equal. lia.
Qed.
Lemma or_whole_cons l : l <> [] -> or_whole l = l.
Proof. by destruct l. Qed.
Lemma length_or_whole l : Z.of_nat (length (or_whole l)) = if Z.of_nat (length l) =? 0 then 1 else Z.of_nat (length l).
Proof. destruct l; [done|]. rewrite or_whole_cons by done. rewrite (proj2 (Z.eqb_neq _ _)); [done|]. simpl. lia. Qed.
Lemma chunk_items_cons c hs : chunk_items (c :: hs) = map (IRange (ch_Content c) (ContentStart c)) (ch_Ranges c) ++ chunk_items hs.
Proof. done. Qed.
Lemma length_chunk_items hs : Z.of_nat (length (chunk_items hs)) = MatchCount hs.
Proof. induction hs as [|h hs IH]; [done|]. rewrite chunk_items_cons, length_app, length_map. simpl. lia. Qed.

Lemma ChunkMatches_Limit_items hs limit : 0 <= limit <= MatchCount hs ->
  returns (ChunkMatches_Limit hs limit) (fun hs' => chunk_items hs' = take (Z.to_nat limit) (chunk_items hs)).
Proof.
  revert limit. induction hs as [|h hs IH]; intros limit Hl; [apply returns_done; simpl; by destruct (Z.to_nat limit)|]. cbn [ChunkMatches_Limit].
  rewrite chunk_items_cons. destruct (Z.leb_spec limit (Z.of_nat (length (ch_Ranges h)))).
  - rewrite slice_prefix by lia. apply returns_done. rewrite chunk_items_cons. cbn [ch_Content ContentStart ch_Ranges].
    change (chunk_items []) with (@nil item). rewrite app_nil_r, take_app_le by (rewrite length_map; lia). by rewrite firstn_map.
  - simpl in Hl. run_step (IH (limit - Z.of_nat (length (ch_Ranges h)))); [lia|]. intros hs' E. apply returns_done. rewrite chunk_items_cons, E.
    rewrite take_app, (take_ge (map _ _)) by (rewrite length_map; lia). do 2 f_equal. rewrite length_map. lia.
Qed.

(** Symbols are cut after the chunks. *)
Lemma FileMatch_Limit_items fm limit : 0 < limit ->
  returns (FileMatch_Limit fm limit) (fun r => limited limit (file_items fm) (file_items r.1) r.2 /\ fm_File r.1 = fm_File fm).
Proof.
  intros Hl. unfold FileMatch_Limit. rewrite <- length_chunk_items. unfold file_items. set (cs := chunk_items (ChunkMatches fm)).
  rewrite <- (length_map ISymbol (Symbols fm)).
  destruct ((Z.of_nat (length cs) =? 0) && (Z.of_nat (length (map ISymbol (Symbols fm))) =? 0)) eqn:E0.
  { apply andb_true_iff in E0 as [E1%Z.eqb_eq E2%Z.eqb_eq]. assert (cs = []) as Ec by (apply nil_length_inv; lia). assert (map ISymbol (Symbols fm) = []) as Es by (apply nil_length_inv; lia).
    apply returns_done. cbn [fst snd]. fold cs. rewrite Ec, Es. split; [apply (limited_all limit [IWhole]); simpl; lia|done]. }
  assert (cs ++ map ISymbol (Symbols fm) <> []) as Hne.
  { intros [Ec Es]%app_nil. rewrite Ec, Es in E0. done. }
  assert (forall l, l = take (Z.to_nat limit) (cs ++ map ISymbol (Symbols fm)) -> l <> []) as Hne'.
  { intros l -> H%(f_equal length). rewrite length_take in H. destruct (cs ++ _); [done|]. simpl in H. lia. }
  rewrite (or_whole_cons (cs ++ _)) by done.
  destruct (Z.ltb_spec limit (Z.of_nat (length cs))) as [Hc|Hc].
  - apply returns_bind. run_step (ChunkMatches_Limit_items (ChunkMatches fm) limit); [rewrite <- length_chunk_items; fold cs; lia|]. fold cs. intros hs E.
    apply returns_done. cbn [fst snd Symbols fm_File ChunkMatches PathMatches]. assert (take (Z.to_nat limit) cs = take (Z.to_nat limit) (cs ++ map ISymbol (Symbols fm))) as Et
      by (by rewrite take_app_le by lia).
    assert (limited limit (cs ++ map ISymbol (Symbols fm)) (or_whole (take (Z.to_nat limit) cs)) 0) as Hlim.
    { rewrite or_whole_cons by (by apply Hne'). apply limited_cut; [done|]. rewrite length_app. lia. }
    destruct (Z.ltb_spec 0 (Z.of_nat (length (map ISymbol (Symbols fm))))) as [Hs|Hs].
    + rewrite length_map in Hs. rewrite slice_prefix by lia. apply returns_done. cbn [fst snd Symbols fm_File ChunkMatches]. rewrite E. simpl. by rewrite app_nil_r.
    + assert (map ISymbol (Symbols fm) = []) as Es by (apply nil_length_inv; lia). apply returns_done. cbn [fst snd Symbols fm_File ChunkMatches]. rewrite E. rewrite Es, !app_nil_r in *. exact (conj Hlim eq_refl).
  - cbn [run_bind fst snd]. destruct (Z.ltb_spec (limit - Z.of_nat (length cs)) (Z.of_nat (length (map ISymbol (Symbols fm))))) as [Hs|Hs].
    + rewrite slice_prefix by (rewrite length_map in Hs; lia). apply returns_done. cbn [fst snd Symbols fm_File ChunkMatches]. split; [|done].
      assert (cs ++ map ISymbol (take (Z.to_nat (limit - Z.of_nat (length cs))) (Symbols fm)) = take (Z.to_nat limit) (cs ++ map ISymbol (Symbols fm))) as Et.
      { rewrite take_app, (take_ge cs) by lia. rewrite firstn_map. do 3 f_equal. lia. }
      rewrite or_whole_cons by (by apply Hne'). apply limited_cut; [done|]. rewrite length_app. lia.
    + apply returns_done. cbn [fst snd]. split; [|done]. fold cs. rewrite or_whole_cons by done.
      replace (limit - Z.of_nat (length cs) - Z.of_nat (length (map ISymbol (Symbols fm)))) with (limit - Z.of_nat (length (cs ++ map ISymbol (Symbols fm))))
        by (rewrite length_app; lia). apply limited_all. rewrite length_app. lia.
Qed.

(** ** Limiting in the heap *)

(** The preview whose ranges count. *)
Definition preview_of (m : Match) : option ptr :=
  match m with MCommit cm => commit_preview cm | MDiff cd => Preview cd | _ => None end.
Definition has_preview (m : Match) : bool := match m with MCommit _ | MDiff _ => true | _ => false end.

(** The match exists, and so does its preview, if its kind has one. *)
Definition live (h : Heap) (p : ptr) : Prop :=
  exists m, objs h !! p = Some m /\ (has_preview m = true -> exists q s, preview_of m = Some q /\ strs h !! q = Some s).

Definition count (h : Heap) (p : ptr) : Z := match ResultCount p h with Done r => r.2 | _ => 0 end.
Definition total (h : Heap) (ps : list ptr) : Z := fold_right (fun p n => count h p + n) 0 ps.

Definition weight (s : option MatchedString) (m : Match) : Z :=
  match m with
  | MFile fm => FileMatch_ResultCount fm
  | MRepo _ => 1
  | MCommit _ | MDiff _ => match s with Some s => matched_count s | None => 0 end
  | MOwner om => OwnerMatch_ResultCount om
  end.

Definition preview_str (h : Heap) (m : Match) : option MatchedString := preview_of m ≫= fun q => strs h !! q.

(** The results of a match, with its key. *)
Definition shown (h : Heap) (p : ptr) : list (Key * item) :=
  match objs h !! p with Some m => map (pair (Match_Key m)) (items (preview_str h m) m) | None => [] end.
Definition all_shown (h : Heap) (ps : list ptr) : list (Key * item) := concat (map (shown h) ps).

Lemma weight_items s m : weight s m = Z.of_nat (length (items s m)).
Proof.
  destruct m as [fm|rm|cm|cd|om]; simpl; try (unfold OwnerMatch_ResultCount; by destruct (ResolvedOwner om)).
  - unfold file_items, FileMatch_ResultCount. rewrite length_or_whole, length_app, length_map, Nat2Z.inj_add, length_chunk_items, Z.add_comm. done.
  - done.
  - destruct s as [s|]; [|done]. unfold preview_items, matched_count. rewrite length_or_whole, length_map. case_match; case_match; lia.
  - destruct s as [s|]; [|done]. unfold preview_items, matched_count. rewrite length_or_whole, length_map. case_match; case_match; lia.
Qed.
Lemma shown_live h p m : objs h !! p = Some m -> shown h p = map (pair (Match_Key m)) (items (preview_str h m) m).
Proof. intros E. unfold shown. by rewrite E. Qed.
Lemma limited_map {A B} (f : A -> B) limit l l' rest : limited limit l l' rest -> limited limit (map f l) (map f l') rest.
Proof. intros [-> ->]. split; [by rewrite firstn_map|by rewrite length_map]. Qed.

Lemma ResultCount_live h p m : live h p -> objs h !! p = Some m -> ResultCount p h = Done (h, weight (preview_str h m) m).
Proof.
  intros (m' & E & Hp) Em. rewrite E in Em. simplify_eq. unfold ResultCount, bind, load, preview_str. rewrite E. cbn [run_bind fst snd].
  destruct m as [fm|rm|cm|cd|om]; try done; destruct (Hp eq_refl) as (q & s & Eq & Es);
    unfold CommitMatch_ResultCount, CommitDiffMatch_ResultCount, bind; simpl in Eq |- *; rewrite Eq; simpl; by rewrite Es.
Qed.

Lemma count_live h p m : live h p -> objs h !! p = Some m -> count h p = weight (preview_str h m) m.
Proof. intros Hl Hm. unfold count. by rewrite (ResultCount_live h p m). Qed.
Lemma count_shown h p : live h p -> count h p = Z.of_nat (length (shown h p)).
Proof. intros Hl. pose proof Hl as (m & Em & _). rewrite (count_live h p m), (shown_live h p m), length_map by done. apply weight_items. Qed.
Lemma total_shown h ps : Forall (live h) ps -> total h ps = Z.of_nat (length (all_shown h ps)).
Proof. induction 1 as [|p ps Hp _ IH]; [done|]. unfold all_shown in *. simpl. rewrite length_app, count_shown by done. lia. Qed.

(** What changes when a match is limited: at most its own object and its own
    preview. *)
Record limits (p : ptr) (q : option ptr) (h h' : Heap) : Prop := {
  limits_objs p' : p' <> p -> objs h' !! p' = objs h !! p';
  limits_self m : objs h !! p = Some m -> exists m', objs h' !! p = Some m' /\ Match_Key m' = Match_Key m /\
    preview_of m' = preview_of m /\ has_preview m' = has_preview m;
  limits_strs q' : Some q' <> q -> strs h' !! q' = strs h !! q';
  limits_live q' : is_Some (strs h !! q') -> is_Some (strs h' !! q') }.

Lemma limits_refl p q h : limits p q h h.
Proof. split; eauto. Qed.

Lemma limitMatchedString_items h p q s limit : 0 < limit -> strs h !! q = Some s ->
  returns (limitMatchedString (Some q) limit h) (fun r =>
    limits p (Some q) h r.1 /\ objs r.1 = objs h /\
    exists s', strs r.1 !! q = Some s' /\ limited limit (preview_items s) (preview_items s') r.2).
Proof.
  intros Hl Hs. unfold limitMatchedString, bind, load_str, lift, store_str, preview_items. rewrite Hs. cbn [run_bind fst snd].
  set (l := map (IPreview (Content s)) (MatchedRanges s)). rewrite <- (length_map (IPreview (Content s)) (MatchedRanges s)). fold l.
  destruct (Z.eqb_spec (Z.of_nat (length l)) 0) as [E|].
  - apply returns_done. cbn [fst snd]. split; [apply limits_refl|]. split; [done|]. exists s. split; [done|]. fold l.
    rewrite (nil_length_inv l) by lia. apply (limited_all limit [IWhole]). simpl. lia.
  - destruct (Z.ltb_spec limit (Z.of_nat (length l))) as [Hlt|].
    + rewrite slice_prefix by (unfold l in Hlt; rewrite length_map in Hlt; lia). apply returns_done. cbn [fst snd]. split; [|split; [done|]].
      * split; try done; unfold set_str; cbn [objs strs]; [eauto|intros q' Hq; by rewrite lookup_insert_ne by congruence|].
        intros q' [t Ht]. destruct (decide (q = q')) as [->|]; [rewrite lookup_insert_eq|rewrite lookup_insert_ne by done]; eauto.
      * eexists. cbn [strs set_str]. rewrite lookup_insert_eq. split; [done|]. cbn [MatchedRanges Content]. rewrite <- firstn_map. fold l.
        rewrite !or_whole_cons; [apply limited_cut; [done|lia]| |]; intros El%(f_equal length); rewrite ?length_take in El; simpl in El; lia.
    + apply returns_done. cbn [fst snd]. split; [apply limits_refl|]. split; [done|]. exists s. split; [done|]. fold l.
      rewrite or_whole_cons; [apply limited_all; lia|]. intros El. rewrite El in *. simpl in *. lia.
Qed.

Definition own_preview (h : Heap) (p : ptr) : option ptr := objs h !! p ≫= preview_of.

Lemma preview_Limit_items h p m q s limit : 0 < limit -> objs h !! p = Some m -> has_preview m = true ->
  preview_of m = Some q -> strs h !! q = Some s ->
  returns (limitMatchedString (Some q) limit h) (fun r => limits p (Some q) h r.1 /\ limited limit (shown h p) (shown r.1 p) r.2).
Proof.
  intros Hl Em Hm Eq Es. eapply returns_mono; [by apply (limitMatchedString_items h p q s)|].
  intros [h' rest] (H1 & H2 & s' & Es' & Hr). cbn [fst snd] in *. split; [done|]. rewrite (shown_live h p m), (shown_live h' p m) by (by rewrite ?H2).
  apply limited_map. unfold preview_str. rewrite Eq. simpl. rewrite Es, Es'. by destruct m.
Qed.

Lemma Match_Limit_items h p limit : 0 < limit -> live h p ->
  returns (Match_Limit p limit h) (fun r => limits p (own_preview h p) h r.1 /\ limited limit (shown h p) (shown r.1 p) r.2).
Proof.
  intros Hl (m & Em & Hp). unfold Match_Limit, bind, load. rewrite Em. unfold own_preview. rewrite Em. cbn [run_bind fst snd mbind option_bind].
  destruct m as [fm|rm|cm|cd|om].
  - unfold lift. apply returns_bind. run_step (FileMatch_Limit_items fm limit Hl). intros [fm' rest] [Hr Hf]. apply returns_done.
    apply returns_done. cbn [fst snd store] in *. assert (objs (set_obj p (MFile fm') h) !! p = Some (MFile fm')) as E
      by (unfold set_obj; cbn [objs]; apply lookup_insert_eq). assert (FileMatch_Key fm' = FileMatch_Key fm) as Ek by (unfold FileMatch_Key; by rewrite Hf). split.
    + split; unfold set_obj; cbn [objs strs]; [intros; by rewrite lookup_insert_ne by congruence| |done|done].
      intros m Hm. rewrite lookup_insert_eq. eexists. split; [done|]. rewrite Em in Hm. injection Hm as <-. by split_and!.
    + rewrite (shown_live h p _ Em), (shown_live _ p _ E). cbn [Match_Key]. rewrite Ek. by apply (limited_map _ limit (file_items fm)).
  - apply returns_done. cbn [fst snd]. split; [apply limits_refl|]. rewrite (shown_live h p _ Em). apply (limited_map _ limit [IWhole]), (limited_all limit [IWhole]). simpl. lia.
  - destruct (Hp eq_refl) as (q & s & Eq & Es). pose proof (preview_Limit_items h p (MCommit cm) q s limit Hl Em eq_refl Eq Es). unfold CommitMatch_Limit. simpl in *. by rewrite Eq.
  - destruct (Hp eq_refl) as (q & s & Eq & Es). pose proof (preview_Limit_items h p (MDiff cd) q s limit Hl Em eq_refl Eq Es). unfold CommitDiffMatch_Limit. simpl in *. by rewrite Eq.
  - apply returns_done. cbn [fst snd]. split; [apply limits_refl|]. rewrite (shown_live h p _ Em). apply limited_map.
    unfold OwnerMatch_Limit, OwnerMatch_ResultCount. simpl. destruct (ResolvedOwner om); simpl.
    + apply (limited_all limit [IWhole]). simpl. lia.
    + replace limit with (limit - Z.of_nat (length (@nil item))) at 2 by (simpl; lia). apply limited_all. simpl. lia.
Qed.

(** No two of the matches are the same object or share their preview. *)
Definition separate (h : Heap) (ps : list ptr) : Prop :=
  NoDup ps /\ Forall (live h) ps /\ NoDup (omap (own_preview h) ps).

(** Results and previews of the matches [ps] are as before. *)
Definition undisturbed (h h' : Heap) (ps : list ptr) : Prop :=
  Forall (fun p => live h' p /\ shown h' p = shown h p /\ own_preview h' p = own_preview h p) ps.

Lemma limits_other p q h h' p' : limits p q h h' -> live h p' -> p' <> p -> (own_preview h p' = None \/ own_preview h p' <> q) ->
  live h' p' /\ shown h' p' = shown h p' /\ own_preview h' p' = own_preview h p'.
Proof.
  intros Hlim Hlive Hne Hq. pose proof Hlive as (m & Em & Hp). pose proof (limits_objs _ _ _ _ Hlim p' Hne) as Eo.
  unfold own_preview in *. rewrite Em in *. simpl in Hq. rewrite Eo.
  assert (preview_str h' m = preview_str h m) as Hs.
  { unfold preview_str. destruct (preview_of m) as [q'|]; [|done]. simpl. apply (limits_strs _ _ _ _ Hlim). by destruct Hq. }
  assert (live h' p') as Hlive'.
  { exists m. split; [done|]. intros Hm. destruct (Hp Hm) as (q' & s & Eq & Es). exists q', s. split; [done|].
    rewrite (limits_strs _ _ _ _ Hlim); [done|]. rewrite Eq in Hq. by destruct Hq. }
  split_and!; [done| |done]. rewrite (shown_live h' p' m), (shown_live h p' m) by congruence. by rewrite Hs.
Qed.

Lemma limits_all p h h' ps : limits p (own_preview h p) h h' -> separate h (p :: ps) -> undisturbed h h' ps.
Proof.
  intros Hlim (Hnd & Hl & Hp). apply NoDup_cons in Hnd as [Hni Hnd]. inversion_clear Hl as [|? ? Hlp Hlps].
  apply Forall_forall. intros p' Hin. rewrite Forall_forall in Hlps. apply (limits_other p _ h h' p' Hlim); [by apply Hlps|by intros ->|].
  destruct (own_preview h p') as [q|] eqn:E; [right|by left]. intros Eq. simpl in Hp. rewrite <- Eq in Hp.
  apply NoDup_cons in Hp as [Hni' _]. apply Hni', list_elem_of_omap. eauto.
Qed.

Lemma undisturbed_previews h h' ps : undisturbed h h' ps -> omap (own_preview h') ps = omap (own_preview h) ps.
Proof. induction 1 as [|p ps (_ & _ & E) _ IH]; [done|]. csimpl. by rewrite E, IH. Qed.
Lemma undisturbed_shown h h' ps : undisturbed h h' ps -> all_shown h' ps = all_shown h ps.
Proof. induction 1 as [|p ps (_ & E & _) _ IH]; [done|]. unfold all_shown in *. simpl. by rewrite E, IH. Qed.
Lemma undisturbed_live h h' ps : undisturbed h h' ps -> Forall (live h') ps.
Proof. intros Hu. eapply Forall_impl; [exact Hu|]. naive_solver. Qed.

Lemma separate_tail h p ps : separate h (p :: ps) -> live h p /\ separate h ps.
Proof.
  intros (Hn & Hl & Hp). apply NoDup_cons in Hn as [_ Hn]. inversion_clear Hl. split; [done|]. split_and!; [done..|].
  simpl in Hp. destruct (own_preview h p); [by apply NoDup_cons in Hp as [_ Hp]|done].
Qed.

(** The keys of all matches stay. *)
Definition same_keys (h h' : Heap) : Prop := forall p, Match_Key <$> (objs h' !! p) = Match_Key <$> (objs h !! p).
Lemma limits_keys p q h h' : is_Some (objs h !! p) -> limits p q h h' -> same_keys h h'.
Proof.
  intros [m Hm] Hlim p'. destruct (decide (p' = p)) as [->|]; [|by rewrite (limits_objs _ _ _ _ Hlim)].
  destruct (limits_self _ _ _ _ Hlim m Hm) as (m' & E & Ek & _). rewrite Hm, E. simpl. by rewrite Ek.
Qed.
#[export] Instance same_keys_trans : Transitive same_keys.
Proof. intros h1 h2 h3 H1 H2 p. by rewrite H2, H1. Qed.
#[export] Instance same_keys_refl : Reflexive same_keys.
Proof. by intros h p. Qed.
#[export] Instance separate_proper h : Proper (Permutation ==> iff) (separate h).
Proof.
  intros ps ps' Hp. unfold separate. assert (omap (own_preview h) ps ≡ₚ omap (own_preview h) ps') as -> by (by rewrite Hp). by rewrite Hp.
Qed.

Lemma limits_separate p h h' ps : limits p (own_preview h p) h h' -> separate h (p :: ps) -> separate h' (p :: ps).
Proof.
  intros Hlim Hs. pose proof (limits_all p h h' ps Hlim Hs) as Hu. destruct (separate_tail _ _ _ Hs) as [(m & Em & Hm) _].
  destruct (limits_self _ _ _ _ Hlim m Em) as (m' & Em' & _ & Eq & Eh).
  assert (own_preview h' p = own_preview h p) as Ep by (unfold own_preview; rewrite Em, Em'; done).
  destruct Hs as (Hn & _ & Hp). split_and!; [done| |].
  - constructor; [|by apply (undisturbed_live h)]. exists m'. split; [done|]. rewrite Eh, Eq. intros H. destruct (Hm H) as (q & s & E & Es).
    destruct (limits_live _ _ _ _ Hlim q) as [s' ?]; eauto.
  - csimpl in *. by rewrite Ep, (undisturbed_previews h).
Qed.

Lemma undisturbed_trans h1 h2 h3 ps : undisturbed h1 h2 ps -> undisturbed h2 h3 ps -> undisturbed h1 h3 ps.
Proof.
  unfold undisturbed. rewrite !Forall_forall. intros H1 H2 p Hp.
  destruct (H1 p Hp) as (_ & E1 & E2), (H2 p Hp) as (? & E3 & E4). by rewrite E3, E4.
Qed.

(** What limiting a list of matches leaves, and what it leaves alone. *)
Record list_limited (limit : Z) (ps others : list ptr) (h h' : Heap) (ps' : list ptr) (rest : Z) : Prop := {
  ll_prefix : ps' `prefix_of` ps;
  ll_shown : limited limit (all_shown h ps) (all_shown h' ps') rest;
  ll_keys : same_keys h h';
  ll_separate : separate h' (ps' ++ others);
  ll_others : undisturbed h h' others }.

Lemma list_limited_nothing h p ps others : separate h ((p :: ps) ++ others) -> list_limited 0 (p :: ps) others h h [] 0.
Proof.
  intros (Hn & Hl & Hp). rewrite omap_app in Hp. apply Forall_app in Hl as [_ Hl2].
  split; [apply prefix_nil| |done| |].
  - done.
  - split_and!; [by apply NoDup_app in Hn as (_ & _ & ?)|done|by apply NoDup_app in Hp as (_ & _ & ?)].
  - eapply Forall_impl; [exact Hl2|done].
Qed.

Lemma Matches_Limit_items h ps others limit : 0 <= limit -> separate h (ps ++ others) ->
  returns (Matches_Limit ps limit h) (fun r => list_limited limit ps others h r.1 r.2.1 r.2.2).
Proof.
  revert h others limit. induction ps as [|p ps IH]; intros h others limit Hl Hs.
  { apply returns_done. split; try done; [split; simpl; [by destruct (Z.to_nat limit)|lia]|]. destruct Hs as (_ & Hlive & _). eapply Forall_impl; [exact Hlive|done]. }
  cbn [Matches_Limit]. destruct (Z.leb_spec limit 0).
  { assert (limit = 0) as -> by lia. by apply returns_done, list_limited_nothing. }
  unfold bind, ret. destruct (separate_tail _ _ _ Hs) as [Hlp _]. run_step (Match_Limit_items h p limit); [lia|done|].
  intros [h1 rest1] [Hlim Hc1]. cbn [fst snd] in *. pose proof (limits_separate p h h1 (ps ++ others) Hlim Hs) as Hs1.
  pose proof (limits_all p h h1 _ Hlim Hs) as Hu. apply Forall_app in Hu as [Hu1 Hu2].
  assert (separate h1 (ps ++ p :: others)) as Hs2 by (by rewrite <- Permutation_middle).
  run_step (IH h1 (p :: others) rest1); [destruct Hc1 as [-> ->]; rewrite length_take; lia|done|]. intros [h2 [ps' rest]] [Hpre Hc2 Hk Hs3 Ho]. cbn [fst snd] in *.
  apply returns_done. cbn [fst snd]. apply Forall_cons_1 in Ho as [(_ & Ec & _) Ho].
  rewrite (undisturbed_shown h h1 ps Hu1) in Hc2.
  split; [by apply prefix_cons| | | |].
  - unfold all_shown. cbn [map concat]. fold (all_shown h ps) (all_shown h2 ps'). rewrite Ec. by apply (limited_app limit _ _ _ _ rest1); [lia|..].
  - etrans; [|exact Hk]. apply (limits_keys p (own_preview h p) h h1); [|done]. destruct Hlp as (m & -> & _). eauto.
  - cbn [app]. by rewrite Permutation_middle.
  - by apply (undisturbed_trans h h1).
Qed.
