(* ===== verification/ResultMerge.v ===== *)
(** Merging the matches of several sources: [merger.go], [deduper.go] and
    [merge.go] of [internal/search/result].

    The merger keeps the sources that have seen a key in a bit set of a
    third-party package; the class [BitSet] states what its documentation says. *)
From stdpp Require Import sorting.
From S2P Require Import Prelude GoStr GoLib GoMap Results.

Class BitSet := {
  bitset : Type;
  bitset_New : nat -> bitset;
  bitset_Set : bitset -> nat -> bitset;
  bitset_Test : bitset -> nat -> bool;
  bitset_Len : bitset -> nat;
  bitset_All : bitset -> bool;
  bitset_Count : bitset -> nat;
  bitset_Test_New n i : bitset_Test (bitset_New n) i = false;
  bitset_Len_New n : bitset_Len (bitset_New n) = n;
  bitset_Test_Set b i j : bitset_Test (bitset_Set b i) j = Nat.eqb i j || bitset_Test b j;
  bitset_Len_Set b i : bitset_Len (bitset_Set b i) = Nat.max (bitset_Len b) (S i);
  bitset_All_spec b : bitset_All b = forallb (bitset_Test b) (seq 0 (bitset_Len b));
  bitset_Count_spec b : bitset_Count b = length (List.filter (bitset_Test b) (seq 0 (bitset_Len b)))
}.

(** ** The merger *)

Section Merger.
Context {B : BitSet}.

Record mergeVal := MkVal { v_match : ptr; seen : bitset; sent : bool }.
Record merger := MkMerger { numSources : nat; matches : gmap Key mergeVal }.

Definition NewMerger (numSources : nat) : merger := MkMerger numSources ∅.

Definition bad_assertion : string := "interface conversion".

(** [prev.match.(T).AppendMatches(v)] for the type [T] of [v]. *)
Definition append_to (prev : ptr) (m : Match) : M () :=
  do pm <- load prev;
  match m, pm with
  | MFile v, MFile fm => store prev (MFile (FileMatch_AppendMatches fm v))
  | MCommit v, MCommit cm => CommitMatch_AppendMatches cm v
  | MRepo v, MRepo rm => store prev (MRepo (RepoMatch_AppendMatches rm v))
  | MFile _, _ | MCommit _, _ | MRepo _, _ => panic bad_assertion
  | _, _ => ret ()
  end.

Definition addMatch (lm : merger) (p : ptr) (source : nat) : M (merger * option ptr) :=
  do m <- load p;
  let key := Match_Key m in
  match matches lm !! key with
  | None =>
      let newVal := MkVal p (bitset_Set (bitset_New (numSources lm)) source) false in
      ret (MkMerger (numSources lm) (<[key := newVal]> (matches lm)), None)
  | Some prev =>
      if sent prev then ret (lm, None)
      else
        do _ <- append_to (v_match prev) m;
        let seen := bitset_Set (seen prev) source in
        let all := bitset_All seen in
        ret (MkMerger (numSources lm) (<[key := MkVal (v_match prev) seen all]> (matches lm)),
             if all then Some (v_match prev) else None)
  end.

Fixpoint AddMatches (lm : merger) (ms : list ptr) (source : nat) : M (merger * list ptr) :=
  match ms with
  | [] => ret (lm, [])
  | m :: ms =>
      do r <- addMatch lm m source;
      do s <- AddMatches r.1 ms source;
      ret (s.1, match r.2 with Some streamableMatch => streamableMatch :: s.2 | None => s.2 end)
  end.

Section Unsent.
Context {G : GoRuntime}.

(** [n] stands for the order in which the map is visited. *)
Definition UnsentTracked (n : nat) (lm : merger) : list ptr :=
  map v_match (sort_slice (fun v w => Nat.ltb (bitset_Count (seen w)) (bitset_Count (seen v)))
                 (List.filter (fun v => negb (sent v)) (map snd (map_range n (matches lm))))).
End Unsent.
End Merger.

(** ** The deduper *)

Record Deduper := MkDeduper { results : list ptr; d_seen : gmap Key ptr }.
Definition NewDeduper : Deduper := MkDeduper [] ∅.

Definition Deduper_Add (d : Deduper) (p : ptr) : M Deduper :=
  do m <- load p;
  match d_seen d !! Match_Key m with
  | Some prev =>
      do pm <- load prev;
      do _ <- match pm, m with
              | MFile fm, MFile v => store prev (MFile (FileMatch_AppendMatches fm v))
              | MCommit cm, MCommit v => CommitMatch_AppendMatches cm v
              | MFile _, _ | MCommit _, _ => panic bad_assertion
              | _, _ => ret ()
              end;
      ret d
  | None => ret (MkDeduper (results d ++ [p]) (<[Match_Key m := p]> (d_seen d)))
  end.

Definition Deduper_Seen (d : Deduper) (p : ptr) : M bool :=
  do m <- load p; ret (bool_decide (is_Some (d_seen d !! Match_Key m))).

(** ** Intersections *)

Fixpoint right_map (rs : list ptr) (rightMap : gmap Key ptr) : M (gmap Key ptr) :=
  match rs with
  | [] => ret rightMap
  | r :: rs => do m <- load r; right_map rs (<[Match_Key m := r]> rightMap)
  end.
Fixpoint intersect_loop (ls : list ptr) (rightMap : gmap Key ptr) : M (list ptr) :=
  match ls with
  | [] => ret []
  | l :: ls =>
      do lm <- load l;
      match rightMap !! Match_Key lm with
      | None => intersect_loop ls rightMap
      | Some r =>
          do rm <- load r;
          do _ <- match lm, rm with
                  | MFile fm, MFile v => store l (MFile (FileMatch_AppendMatches fm v))
                  | MCommit cm, MCommit v => CommitMatch_AppendMatches cm v
                  | MFile _, _ | MCommit _, _ => panic bad_assertion
                  | _, _ => ret ()
                  end;
          do merged <- intersect_loop ls rightMap; ret (l :: merged)
      end
  end.
Definition Intersect (left_ right_ : list ptr) : M (list ptr) :=
  do rightMap <- right_map right_ ∅; intersect_loop left_ rightMap.

(** ** What merging keeps *)

Definition kind (m : Match) : nat := match m with MFile _ => 0 | MRepo _ => 1 | MCommit _ => 2 | MDiff _ => 3 | MOwner _ => 4 end.
Definition message_of (m : Match) : option ptr := match m with MCommit cm => MessagePreview cm | _ => None end.

(** What merging adds to: the matches found in a file, in the name or description
    of a repository, or in the message of a commit, which is on the heap. *)
Record content := MkContent {
  c_chunks : list ChunkMatch; c_symbols : list Symbol; c_description : Ranges; c_name : Ranges; c_message : Ranges; c_limit : bool }.
Definition no_content : content := MkContent [] [] [] [] [] false.
Definition message_ranges (h : Heap) (m : Match) : Ranges :=
  match message_of m ≫= (fun q => strs h !! q) with Some s => MatchedRanges s | None => [] end.
Definition content_in (h : Heap) (m : Match) : content :=
  match m with
  | MFile fm => MkContent (ChunkMatches fm) (Symbols fm) [] [] [] (LimitHit fm)
  | MRepo rm => MkContent [] [] (DescriptionMatches rm) (RepoNameMatches rm) [] false
  | _ => MkContent [] [] [] [] (message_ranges h m) false
  end.
Definition content_app (a b : content) : content :=
  MkContent (c_chunks a ++ c_chunks b) (c_symbols a ++ c_symbols b) (c_description a ++ c_description b) (c_name a ++ c_name b)
    (c_message a ++ c_message b) (c_limit a || c_limit b).

(** The rest of a match, which no operation changes. *)
Definition without_content (m : Match) : Match :=
  match m with
  | MFile fm => MFile (MkFileMatch (fm_File fm) [] [] (PathMatches fm) false)
  | MRepo rm => MRepo (MkRepoMatch (rm_Name rm) (rm_ID rm) (Rev rm) [] [])
  | _ => m
  end.
Definition same_shape (m m' : Match) : Prop := without_content m' = without_content m.

#[export] Instance same_shape_refl : Reflexive same_shape.
Proof. by intros m. Qed.
#[export] Instance same_shape_trans : Transitive same_shape.
Proof. unfold same_shape. intros m1 m2 m3 H1 H2. congruence. Qed.
Lemma shape_key m m' : same_shape m m' -> Match_Key m' = Match_Key m.
Proof.
  intros H%(f_equal Match_Key). assert (forall m, Match_Key (without_content m) = Match_Key m) as E by (by intros []). by rewrite !E in H.
Qed.
Lemma shape_message m m' : same_shape m m' -> message_of m' = message_of m.
Proof.
  intros H%(f_equal message_of). assert (forall m, message_of (without_content m) = message_of m) as E by (by intros []). by rewrite !E in H.
Qed.

Lemma content_in_ext h h' m : (forall q, message_of m = Some q -> strs h' !! q = strs h !! q) -> content_in h' m = content_in h m.
Proof.
  intros H. destruct m as [fm|rm|cm|cd|om]; try done. simpl. f_equal. unfold message_ranges. simpl in *.
  destruct (MessagePreview cm) as [q|]; [|done]. simpl. by rewrite H.
Qed.

(** A diff match has a path, and a commit match has one preview. *)
Definition well_made (m : Match) : Prop :=
  match m with
  | MDiff cd => diff_Path (cd_File cd) <> []
  | MCommit cm => MessagePreview cm = None <-> is_Some (DiffPreview cm)
  | _ => True
  end.
Definition mergeable (h : Heap) (m : Match) : Prop :=
  well_made m /\ forall q, message_of m = Some q -> is_Some (strs h !! q).

(** Matches with the same key have the same type, so the type assertions hold. *)
Lemma kind_of_key m m' : well_made m -> well_made m' -> Match_Key m = Match_Key m' -> kind m = kind m'.
Proof.
  intros H H' E. destruct m as [fm|rm|cm|cd|om], m' as [fm'|rm'|cm'|cd'|om']; try done;
    apply (f_equal (fun k => (TypeRank k, k_Path k))) in E; simpl in E, H, H'; repeat case_match; simplify_eq/=; congruence.
Qed.
(** Commits with the same key both have a message preview or none has. *)
Lemma previews_of_key cm cm' : well_made (MCommit cm) -> well_made (MCommit cm') -> CommitMatch_Key cm = CommitMatch_Key cm' ->
  MessagePreview cm = None <-> MessagePreview cm' = None.
Proof.
  simpl. intros -> -> E%(f_equal TypeRank). simpl in E. rewrite <- !not_eq_None_Some. by destruct (DiffPreview cm), (DiffPreview cm').
Qed.

(** Every match of [h] is still there, with its shape, and every preview. *)
Record evolves (h h' : Heap) : Prop := {
  evolves_objs p m : objs h !! p = Some m -> exists m', objs h' !! p = Some m' /\ same_shape m m';
  evolves_strs q : is_Some (strs h !! q) -> is_Some (strs h' !! q) }.

#[export] Instance evolves_refl : Reflexive evolves.
Proof. intros h. split; [|done]. intros p m Hm. by exists m. Qed.
#[export] Instance evolves_trans : Transitive evolves.
Proof.
  intros h1 h2 h3 H1 H2. split.
  - intros p m Hm. destruct (evolves_objs _ _ H1 p m Hm) as (m' & Hm' & S1), (evolves_objs _ _ H2 p m' Hm') as (m'' & ? & S2).
    exists m''. split; [done|by etrans].
  - intros q Hq. by apply (evolves_strs _ _ H2), (evolves_strs _ _ H1).
Qed.

Lemma evolves_insert h p m m' s : objs h !! p = Some m -> same_shape m m' -> (forall q, is_Some (strs h !! q) -> is_Some (s !! q)) ->
  evolves h (MkHeap (<[p := m']> (objs h)) s).
Proof.
  intros Hm Hs Hq. split; [|done]. intros p' m1 H1. cbn [objs]. destruct (decide (p' = p)) as [->|].
  - rewrite lookup_insert_eq. simplify_eq. by exists m'.
  - rewrite lookup_insert_ne by done. by exists m1.
Qed.

Lemma evolves_mergeable h h' m m' : evolves h h' -> same_shape m m' -> mergeable h m -> mergeable h' m'.
Proof.
  intros He Hs [Hp Hq]. split; [|rewrite (shape_message _ _ Hs); intros q E; by apply (evolves_strs _ _ He), Hq].
  unfold same_shape in Hs. destruct m', m; try done; simpl in *; simplify_eq; done.
Qed.

Lemma commit_AppendMatches_spec h cm v : (MessagePreview cm = None <-> MessagePreview v = None) ->
  (forall q, MessagePreview cm = Some q -> is_Some (strs h !! q)) -> (forall q, MessagePreview v = Some q -> is_Some (strs h !! q)) ->
  returns (CommitMatch_AppendMatches cm v h) (fun r => objs r.1 = objs h /\
    message_ranges r.1 (MCommit cm) = message_ranges h (MCommit cm) ++ message_ranges h (MCommit v) /\
    (forall q, MessagePreview cm <> Some q -> strs r.1 !! q = strs h !! q) /\ forall q, is_Some (strs h !! q) -> is_Some (strs r.1 !! q)).
Proof.
  intros Heq H1 H2. unfold CommitMatch_AppendMatches, message_ranges. simpl. destruct (MessagePreview cm) as [p|], (MessagePreview v) as [q|]; try (by apply returns_done).
  2, 3: naive_solver.
  destruct (H1 p eq_refl) as [s Es], (H2 q eq_refl) as [t Et]. unfold bind, load_str, store_str. rewrite Es. cbn [run_bind fst snd]. rewrite Et.
  apply returns_done. cbn [fst strs objs set_str mbind option_bind]. rewrite lookup_insert_eq, Es, Et. split_and!; [done..| |].
  - intros r Hr. by rewrite lookup_insert_ne by congruence.
  - intros r [u Hu]. destruct (decide (p = r)) as [->|]; [rewrite lookup_insert_eq|rewrite lookup_insert_ne by done]; eauto.
Qed.

(** The heap after an append: one match is replaced by one with more content, and
    of the previews at most its message changes. *)
Definition appended (h h' : Heap) (p : ptr) (pm m : Match) : Prop :=
  exists pm', objs h' = <[p := pm']> (objs h) /\ same_shape pm pm' /\
    content_in h' pm' = content_app (content_in h pm) (content_in h m) /\ evolves h h' /\
    forall q, message_of pm <> Some q -> strs h' !! q = strs h !! q.

Lemma appended_store h p pm pm' m : objs h !! p = Some pm -> same_shape pm pm' ->
  content_in h pm' = content_app (content_in h pm) (content_in h m) -> appended h (set_obj p pm' h) p pm m.
Proof. intros Hp Hs Hc. exists pm'. split_and!; try done. by apply (evolves_insert h p pm). Qed.

Lemma appended_same h h' p pm m : objs h !! p = Some pm -> objs h' = objs h -> (forall q, is_Some (strs h !! q) -> is_Some (strs h' !! q)) ->
  (forall q, message_of pm <> Some q -> strs h' !! q = strs h !! q) ->
  content_in h' pm = content_app (content_in h pm) (content_in h m) -> appended h h' p pm m.
Proof.
  intros Hp Ho Hs Hq Hc. exists pm. rewrite Ho. rewrite insert_id by done. split_and!; try done.
  split; [|done]. rewrite Ho. intros p' m' Hm. by exists m'.
Qed.

Lemma content_nil_app a : content_app a no_content = a.
Proof. destruct a. unfold content_app. simpl. by rewrite !app_nil_r, orb_false_r. Qed.

Lemma append_to_spec h p pm m : objs h !! p = Some pm -> mergeable h pm -> mergeable h m -> Match_Key pm = Match_Key m ->
  returns (append_to p m h) (fun r => appended h r.1 p pm m).
Proof.
  intros Hp [Hpath Hmsg] [Hpath' Hmsg'] Hk. pose proof (kind_of_key _ _ Hpath Hpath' Hk) as Hkind.
  unfold append_to, bind, load. rewrite Hp. cbn [run_bind fst snd]. unfold store.
  destruct m as [v|v|v|v|v], pm as [w|w|w|w|w]; try done.
  - apply returns_done. cbn [fst]. by apply appended_store.
  - apply returns_done. cbn [fst]. by apply appended_store.
  - eapply returns_mono; [apply (commit_AppendMatches_spec h w v); [by apply previews_of_key|done..]|]. intros r (Ho & Hm & Hq & Hs).
    apply appended_same; try done. unfold content_app. simpl. by rewrite Hm.
  - apply returns_done. by apply appended_same.
  - apply returns_done. by apply appended_same.
Qed.

(** ** The merger against its trace *)

Section Trace.
Context {B : BitSet} (n : nat) (h0 : Heap).
Hypothesis Hn : (2 <= n)%nat.

(** The matches that are added, each by a source. *)
Notation arrival := (ptr * nat)%type (only parsing).
Definition key0 (p : ptr) : option Key := Match_Key <$> (objs h0 !! p).
Definition content0 (p : ptr) : content := match objs h0 !! p with Some m => content_in h0 m | None => no_content end.

Definition all_seen (l : list arrival) : bool := forallb (fun i => existsb (Nat.eqb i) (map snd l)) (seq 0 n).

(** The additions that are merged for a key: those up to the one with which all
    sources have seen it. *)
Definition gather (k : Key) (l : list arrival) (a : arrival) : list arrival :=
  if bool_decide (key0 a.1 = Some k) then if all_seen l then l else l ++ [a] else l.
Definition gathered (k : Key) (tr : list arrival) : list arrival := fold_left (gather k) tr [].

Lemma gathered_snoc k tr a : gathered k (tr ++ [a]) = gather k (gathered k tr) a.
Proof. unfold gathered. by rewrite fold_left_app. Qed.

Lemma gather_cases k l a :
  (key0 a.1 = Some k /\ all_seen l = false /\ gather k l a = l ++ [a]) \/
  ((key0 a.1 <> Some k \/ all_seen l = true) /\ gather k l a = l).
Proof. unfold gather. case_bool_decide; destruct (all_seen l); auto. Qed.

Lemma gathered_key k tr a : a ∈ gathered k tr -> key0 a.1 = Some k /\ a ∈ tr.
Proof.
  induction tr as [|b tr IH] using rev_ind; [by intros ?%not_elem_of_nil|]. rewrite gathered_snoc, elem_of_app.
  destruct (gather_cases k (gathered k tr) b) as [(Hk & _ & ->)|[_ ->]]; [|naive_solver].
  rewrite elem_of_app, list_elem_of_singleton. intros [?| ->]; [naive_solver|]. split; [done|]. by right.
Qed.

Lemma all_seen_true l : all_seen l = true <-> forall i, (i < n)%nat -> i ∈ l.*2.
Proof.
  unfold all_seen. rewrite forallb_forall. split.
  - intros H i Hi. specialize (H i). rewrite in_seq in H. specialize (H ltac:(lia)). apply existsb_exists in H as (j & Hj & ->%Nat.eqb_eq).
    by apply list_elem_of_In.
  - intros H i [_ Hi]%in_seq. apply existsb_exists. exists i. split; [|apply Nat.eqb_refl]. apply list_elem_of_In, H. lia.
Qed.

Lemma all_seen_few a : all_seen [] = false /\ all_seen [a] = false.
Proof.
  split; apply not_true_iff_false; rewrite all_seen_true; intros H.
  - specialize (H 0%nat ltac:(lia)). by apply not_elem_of_nil in H.
  - pose proof (H 0%nat ltac:(lia)) as H0%list_elem_of_singleton. pose proof (H 1%nat ltac:(lia)) as H1%list_elem_of_singleton. congruence.
Qed.

(** All sources have seen the key exactly when they have in what is gathered. *)
Lemma gathered_all k tr :
  all_seen (gathered k tr) = true <-> forall i, (i < n)%nat -> exists a, a ∈ tr /\ key0 a.1 = Some k /\ a.2 = i.
Proof.
  assert (forall i, (exists a, a ∈ tr /\ key0 a.1 = Some k /\ a.2 = i) ->
    all_seen (gathered k tr) = true \/ i ∈ (gathered k tr).*2) as Hin.
  { induction tr as [|b tr IH] using rev_ind; [intros i (a & ?%not_elem_of_nil & _); done|].
    intros i (a & Ha & Hk & Hi). rewrite gathered_snoc. apply elem_of_app in Ha as [Ha| ->%list_elem_of_singleton].
    - destruct (IH i) as [H|H]; [by exists a| |].
      + left. unfold gather. rewrite H. by destruct (bool_decide _).
      + right. destruct (gather_cases k (gathered k tr) b) as [(_ & _ & ->)|[_ ->]]; [|done]. rewrite fmap_app. set_solver.
    - destruct (gather_cases k (gathered k tr) b) as [(_ & _ & ->)|[[?|H] ->]]; [|done|by left].
      right. rewrite fmap_app. set_solver. }
  rewrite all_seen_true. split.
  - intros H i Hi. specialize (H i Hi). apply list_elem_of_fmap in H as (a & -> & [? ?]%gathered_key). by exists a.
  - intros H i Hi. destruct (Hin i (H i Hi)) as [Hall|?]; [|done]. by apply all_seen_true.
Qed.

Lemma gathered_none k tr : gathered k tr = [] <-> forall a, a ∈ tr -> key0 a.1 <> Some k.
Proof.
  induction tr as [|b tr IH] using rev_ind; [split; [intros _ a ?%not_elem_of_nil|]; done|]. rewrite gathered_snoc.
  setoid_rewrite elem_of_app. setoid_rewrite list_elem_of_singleton.
  destruct (gather_cases k (gathered k tr) b) as [(Hk & _ & ->)|[Hc ->]].
  - split; [by destruct (gathered k tr)|]. intros H. by destruct (H b (or_intror eq_refl)).
  - split; [|intros H; apply IH; auto]. intros E. destruct Hc as [Hc|Hc]; [|rewrite E in Hc; by rewrite (proj1 (all_seen_few b)) in Hc].
    intros a [Ha| ->]; [|done]. by apply IH.
Qed.

Definition contents (l : list arrival) : content := fold_right (fun a c => content_app (content0 a.1) c) no_content l.

Lemma content_app_assoc a b c : content_app a (content_app b c) = content_app (content_app a b) c.
Proof. unfold content_app. simpl. by rewrite !app_assoc, orb_assoc. Qed.
Lemma contents_snoc l a : contents (l ++ [a]) = content_app (contents l) (content0 a.1).
Proof.
  induction l as [|b l IH]; simpl; [rewrite content_nil_app; by destruct (content0 a.1)|]. by rewrite IH, content_app_assoc.
Qed.

Lemma gathered_other k tr a : key0 a.1 <> Some k -> gathered k (tr ++ [a]) = gathered k tr.
Proof. intros H. rewrite gathered_snoc. unfold gather. by rewrite bool_decide_eq_false_2. Qed.

(** What the merger keeps for a key, given what was gathered for it. *)
Definition entry_ok (h : Heap) (l : list arrival) (v : option mergeVal) : Prop :=
  match v with
  | None => l = []
  | Some v =>
      exists a rest, l = a :: rest /\ v_match v = a.1 /\ sent v = all_seen l /\
        bitset_Len (seen v) = n /\ (forall i, bitset_Test (seen v) i = existsb (Nat.eqb i) (map snd l)) /\
        exists m, objs h !! a.1 = Some m /\ content_in h m = contents l
  end.

(** The match that was streamed for a key. *)
Definition streamed (tr : list arrival) (p : ptr) : Prop :=
  exists k a rest, gathered k tr = a :: rest /\ all_seen (a :: rest) = true /\ p = a.1.

Record tracks (h : Heap) (lm : merger) (tr : list arrival) (out : list ptr) : Prop := {
  tr_sources : numSources lm = n;
  tr_evolves : evolves h0 h;
  tr_rest p : p ∉ tr.*1 -> objs h !! p = objs h0 !! p;
  tr_strs q : (forall a m, a ∈ tr -> objs h0 !! a.1 = Some m -> message_of m <> Some q) -> strs h !! q = strs h0 !! q;
  tr_entries k : entry_ok h (gathered k tr) (matches lm !! k);
  tr_nodup : NoDup out;
  tr_out p : p ∈ out <-> streamed tr p }.

Definition addable (a : arrival) : Prop := exists m, objs h0 !! a.1 = Some m /\ mergeable h0 m /\ (a.2 < n)%nat.

(** No two of the matches share the preview of their message. *)
Definition apart (tr : list arrival) : Prop :=
  forall a b m m' q, a ∈ tr -> b ∈ tr -> objs h0 !! a.1 = Some m -> objs h0 !! b.1 = Some m' ->
    message_of m = Some q -> message_of m' = Some q -> a.1 = b.1.

Lemma apart_app tr tr' : apart (tr ++ tr') -> apart tr.
Proof. intros H a b m m' q Ha Hb. apply H; apply elem_of_app; by left. Qed.

(** A match that is not added yet still has its content. *)
Lemma tracks_fresh h lm tr out p s m : tracks h lm tr out -> p ∉ tr.*1 -> apart (tr ++ [(p, s)]) -> objs h0 !! p = Some m ->
  content_in h m = content_in h0 m.
Proof.
  intros Ht Hp Hap Hm. apply content_in_ext. intros q Hq. apply (tr_strs _ _ _ _ Ht). intros a m' Ha Hm' Hq'. apply Hp, list_elem_of_fmap.
  exists a. split; [|done]. apply (Hap (p, s) a m m' q); [apply elem_of_app; right; by left|apply elem_of_app; by left|done..].
Qed.

Lemma tracks_start : tracks h0 (NewMerger n) [] [].
Proof.
  split; try done; [constructor|]. intros p. split; [by intros ?%not_elem_of_nil|]. by intros (k & a & rest & E & _).
Qed.

Lemma streamed_other tr a k p : key0 a.1 = Some k ->
  (all_seen (gathered k tr) = true \/ all_seen (gathered k (tr ++ [a])) = false) ->
  streamed (tr ++ [a]) p <-> streamed tr p.
Proof.
  intros Hk Hc. unfold streamed. split; intros (k' & b & rest & E & Ha & ->); exists k', b, rest; (split_and!; [|done|done]).
  - destruct (decide (k' = k)) as [->|]; [|by rewrite gathered_other in E by congruence]. destruct Hc as [Hc|Hc]; [|rewrite E in Hc; congruence].
    rewrite gathered_snoc in E. unfold gather in E. rewrite Hc in E. by destruct (bool_decide _).
  - destruct (decide (k' = k)) as [->|]; [|by rewrite gathered_other by congruence]. rewrite gathered_snoc. unfold gather. rewrite E, Ha.
    by destruct (bool_decide _).
Qed.

(** An entry for another key is not touched. *)
Lemma entry_kept h h' k tr a v : key0 a.1 <> Some k -> entry_ok h (gathered k tr) v ->
  (forall b m, b ∈ gathered k tr -> objs h !! b.1 = Some m -> objs h' !! b.1 = Some m /\ content_in h' m = content_in h m) ->
  entry_ok h' (gathered k (tr ++ [a])) v.
Proof.
  intros Hk He Hh. rewrite gathered_other by done. destruct v as [v|]; [|done]. destruct He as (b & rest & E & H1 & H2 & H3 & H4 & m & Hm & Hc).
  exists b, rest. split_and!; [done..|]. exists m. destruct (Hh b m) as [? ->]; [rewrite E; by left|done..].
Qed.

Lemma tracks_first h lm tr out p s m : tracks h lm tr out -> p ∉ tr.*1 -> apart (tr ++ [(p, s)]) -> addable (p, s) -> objs h0 !! p = Some m ->
  matches lm !! Match_Key m = None ->
  tracks h (MkMerger n (<[Match_Key m := MkVal p (bitset_Set (bitset_New n) s) false]> (matches lm))) (tr ++ [(p, s)]) out.
Proof.
  intros Ht Hp Hap (_ & _ & _ & Hs) Hm Hk. pose proof (tracks_fresh h lm tr out p s m Ht Hp Hap Hm) as Hc. destruct Ht as [H1 H2 H3 H3' H4 H5 H6]. assert (key0 p = Some (Match_Key m)) as Hk0 by (unfold key0; by rewrite Hm).
  pose proof (H4 (Match_Key m)) as He. rewrite Hk in He. simpl in He.
  assert (gathered (Match_Key m) (tr ++ [(p, s)]) = [(p, s)]) as Eg.
  { rewrite gathered_snoc, He. unfold gather. rewrite bool_decide_eq_true_2 by done. by rewrite (proj1 (all_seen_few (p, s))). }
  split; try done.
  - intros q. rewrite fmap_app. intros Hq. apply H3. set_solver.
  - intros q Hq. apply H3'. intros a m' Hin. apply Hq, elem_of_app. by left.
  - intros k. cbn [matches]. destruct (decide (k = Match_Key m)) as [->|Hne].
    + rewrite lookup_insert_eq, Eg. exists (p, s), []. cbn [v_match sent seen fst].
      split_and!; [done|done|symmetry; apply all_seen_few|rewrite bitset_Len_Set, bitset_Len_New; simpl in Hs; lia| |].
      * intros i. rewrite bitset_Test_Set, bitset_Test_New. simpl. by rewrite Nat.eqb_sym.
      * exists m. rewrite H3 by done. split; [done|]. simpl. unfold content0. simpl. rewrite Hm. by rewrite content_nil_app, Hc.
    + rewrite lookup_insert_ne by congruence. apply (entry_kept h h); [simpl; congruence|apply H4|done].
  - intros q. rewrite H6. symmetry. apply (streamed_other tr (p, s) (Match_Key m)); [done|]. right. rewrite Eg. apply all_seen_few.
Qed.

Lemma tracks_ignored h lm tr out p s m : tracks h lm tr out -> objs h0 !! p = Some m ->
  all_seen (gathered (Match_Key m) tr) = true -> tracks h lm (tr ++ [(p, s)]) out.
Proof.
  intros [H1 H2 H3 H3' H4 H5 H6] Hm Ha. assert (key0 p = Some (Match_Key m)) as Hk0 by (unfold key0; by rewrite Hm). split; try done.
  - intros q. rewrite fmap_app. intros Hq. apply H3. set_solver.
  - intros q Hq. apply H3'. intros a m' Hin. apply Hq, elem_of_app. by left.
  - intros k. rewrite gathered_snoc. destruct (gather_cases k (gathered k tr) (p, s)) as [(E & Hf & _)|[_ ->]]; [|apply H4].
    simpl in E. rewrite Hk0 in E. simplify_eq. congruence.
  - intros q. rewrite H6. symmetry. apply (streamed_other tr (p, s) (Match_Key m)); [done|by left].
Qed.

(** The set after one more source. *)
Lemma seen_more b l (a : arrival) : bitset_Len b = n -> (forall i, bitset_Test b i = existsb (Nat.eqb i) (map snd l)) -> (a.2 < n)%nat ->
  bitset_Len (bitset_Set b a.2) = n /\ (forall i, bitset_Test (bitset_Set b a.2) i = existsb (Nat.eqb i) (map snd (l ++ [a]))) /\
  bitset_All (bitset_Set b a.2) = all_seen (l ++ [a]).
Proof.
  intros Hl Ht Ha. assert (bitset_Len (bitset_Set b a.2) = n) as Hl' by (rewrite bitset_Len_Set; lia).
  assert (forall i, bitset_Test (bitset_Set b a.2) i = existsb (Nat.eqb i) (map snd (l ++ [a]))) as Ht'.
  { intros i. rewrite bitset_Test_Set, Ht, map_app, existsb_app. simpl. rewrite orb_false_r, orb_comm. by rewrite Nat.eqb_sym. }
  split_and!; [done..|]. rewrite bitset_All_spec, Hl'. unfold all_seen. induction (seq 0 n) as [|i js IH]; [done|]. simpl. by rewrite Ht', IH.
Qed.

Lemma streamed_more tr a b rest k p : key0 a.1 = Some k -> gathered k tr = b :: rest -> all_seen (b :: rest) = false ->
  all_seen (b :: rest ++ [a]) = true -> streamed (tr ++ [a]) p <-> streamed tr p \/ p = b.1.
Proof.
  intros Hk Eg Hf Ht. assert (gathered k (tr ++ [a]) = b :: rest ++ [a]) as Eg'.
  { rewrite gathered_snoc, Eg. unfold gather. rewrite bool_decide_eq_true_2 by done. by rewrite Hf. }
  split.
  - intros (k' & c & rest' & E & Ha & ->). destruct (decide (k' = k)) as [->|].
    + right. rewrite Eg' in E. by simplify_eq.
    + left. rewrite gathered_other in E by congruence. by exists k', c, rest'.
  - intros [(k' & c & rest' & E & Ha & ->)| ->]; [|exists k, b, (rest ++ [a]); done]. destruct (decide (k' = k)) as [->|]; [congruence|].
    exists k', c, rest'. by rewrite gathered_other by congruence.
Qed.

Lemma gathered_not_other k k' tr b rest c : gathered k tr = b :: rest -> c ∈ gathered k' tr -> k' <> k -> c.1 <> b.1.
Proof.
  intros E [Hc _]%gathered_key Hne Heq. assert (b ∈ gathered k tr) as [Hb _]%gathered_key by (rewrite E; left). congruence.
Qed.

Lemma tracks_merged h h' lm tr out p s m prev pm : tracks h lm tr out -> p ∉ tr.*1 -> apart (tr ++ [(p, s)]) -> (s < n)%nat -> objs h0 !! p = Some m ->
  matches lm !! Match_Key m = Some prev -> sent prev = false -> objs h !! v_match prev = Some pm ->
  appended h h' (v_match prev) pm m ->
  let seen' := bitset_Set (seen prev) s in
  tracks h' (MkMerger n (<[Match_Key m := MkVal (v_match prev) seen' (bitset_All seen')]> (matches lm))) (tr ++ [(p, s)])
    (out ++ (if bitset_All seen' then [v_match prev] else [])).
Proof.
  intros Ht Hp Hap Hs Hm Hk Hsent Hpm (pm' & Ho & Hshape & Hcont & Hev & Hstr). cbn zeta.
  pose proof (tracks_fresh h lm tr out p s m Ht Hp Hap Hm) as Hfresh. destruct Ht as [H1 H2 H3 H3' H4 H5 H6].
  assert (key0 p = Some (Match_Key m)) as Hk0 by (unfold key0; by rewrite Hm).
  pose proof (H4 (Match_Key m)) as He. rewrite Hk in He. destruct He as (b & rest & Eg & Eb & Es & Hlen & Htest & m' & Em' & Ec).
  rewrite Hsent in Es. symmetry in Es. rewrite Eb in *. simplify_eq. rewrite Eg in *.
  destruct (seen_more (seen prev) (b :: rest) (p, s) Hlen Htest Hs) as (Hlen' & Htest' & Hall). cbn [snd] in *.
  assert (gathered (Match_Key m) (tr ++ [(p, s)]) = b :: rest ++ [(p, s)]) as Eg'.
  { rewrite gathered_snoc, Eg. unfold gather. rewrite bool_decide_eq_true_2 by done. by rewrite Es. }
  assert (b ∈ tr) as Hb by (apply (gathered_key (Match_Key m)); rewrite Eg; left).
  assert (exists mb, objs h0 !! b.1 = Some mb /\ message_of pm = message_of mb) as (mb & Hmb & Hmsg).
  { assert (b ∈ gathered (Match_Key m) tr) as [(mb & Hmb & _)%fmap_Some _]%gathered_key by (rewrite Eg; left). exists mb. split; [done|].
    destruct (evolves_objs _ _ H2 _ _ Hmb) as (pm0 & E0 & Hsh). simplify_eq. by apply shape_message. }
  split; try done.
  - by etrans.
  - intros q. rewrite fmap_app. intros Hq. rewrite Ho, lookup_insert_ne; [apply H3; set_solver|]. intros <-. apply Hq.
    apply elem_of_app. left. apply list_elem_of_fmap. by exists b.
  - intros q Hq. rewrite Hstr; [apply H3'; intros a m1 Ha; apply Hq, elem_of_app; by left|]. rewrite Hmsg. apply (Hq b); [apply elem_of_app; by left|done].
  - intros k. cbn [matches]. destruct (decide (k = Match_Key m)) as [->|Hne].
    + rewrite lookup_insert_eq, Eg'. exists b, (rest ++ [(p, s)]). cbn [v_match sent seen]. split_and!; [done..|].
      exists pm'. rewrite Ho, lookup_insert_eq. split; [done|]. rewrite Hcont, Ec. change (b :: rest ++ [(p, s)]) with ((b :: rest) ++ [(p, s)]).
      rewrite contents_snoc. f_equal. unfold content0. simpl. by rewrite Hm, Hfresh.
    + rewrite lookup_insert_ne by congruence. apply (entry_kept h h'); [simpl; congruence|apply H4|]. intros c mc Hc Hmc.
      assert (c.1 <> b.1) as Hcb by (intros E; by apply (gathered_not_other (Match_Key m) k tr b rest c)).
      rewrite Ho, lookup_insert_ne by congruence. split; [done|]. apply content_in_ext. intros q Hq. apply Hstr. rewrite Hmsg. intros Hq'.
      apply gathered_key in Hc as [(m1 & Hm1 & _)%fmap_Some Hc]. destruct (evolves_objs _ _ H2 _ _ Hm1) as (mc' & E0 & Hsh). simplify_eq.
      rewrite (shape_message _ _ Hsh) in Hq. apply Hcb. apply (Hap c b m1 mb q); [by apply elem_of_app; left..|done|done|done|done].
  - destruct (bitset_All _); [|by rewrite app_nil_r]. apply NoDup_app. split_and!; [done| |apply NoDup_singleton].
    intros q Hq%H6 ->%list_elem_of_singleton. destruct Hq as (k & c & rest' & E & Ha & Eq). destruct (decide (k = Match_Key m)) as [->|Hne]; [congruence|].
    apply (gathered_not_other (Match_Key m) k tr b rest c); [done| |done|done]. rewrite E. left.
  - intros q. rewrite elem_of_app, H6, Hall. cbn [app]. destruct (all_seen (b :: rest ++ [(p, s)])) eqn:Ha.
    + rewrite list_elem_of_singleton. symmetry. by apply (streamed_more tr (p, s) b rest (Match_Key m)).
    + rewrite (streamed_other tr (p, s) (Match_Key m)); [|done|right; by rewrite Eg']. rewrite elem_of_nil. tauto.
Qed.

Definition option_list (o : option ptr) : list ptr := match o with Some p => [p] | None => [] end.

Lemma addMatch_tracks h lm tr out p s : tracks h lm tr out -> p ∉ tr.*1 -> apart (tr ++ [(p, s)]) -> Forall addable tr -> addable (p, s) ->
  returns (addMatch lm p s h) (fun r => tracks r.1 r.2.1 (tr ++ [(p, s)]) (out ++ option_list r.2.2)).
Proof.
  intros Ht Hp Hap Htr Ha. pose proof Ha as (m & Hm & Hmerge & Hs). cbn [fst snd] in *.
  unfold addMatch, bind at 1, load. rewrite (tr_rest _ _ _ _ Ht) by done. rewrite Hm. cbn [run_bind fst snd].
  pose proof (tr_entries _ _ _ _ Ht (Match_Key m)) as He. destruct (matches lm !! Match_Key m) as [prev|] eqn:Ek.
  - destruct He as (b & rest & Eg & Eb & Es & _ & _ & pm & Epm & _). destruct (sent prev) eqn:Esent.
    + apply returns_done. cbn [fst snd option_list]. rewrite app_nil_r. apply (tracks_ignored h lm tr out p s m); [done..|]. by rewrite Eg in *.
    + assert (b ∈ gathered (Match_Key m) tr) as [Hkb Hb]%gathered_key by (rewrite Eg; left).
      rewrite Forall_forall in Htr. destruct (Htr b Hb) as (mb & Hmb & Hmmb & _). unfold key0 in Hkb. rewrite Hmb in Hkb. injection Hkb as Hkb.
      destruct (evolves_objs _ _ (tr_evolves _ _ _ _ Ht) _ _ Hmb) as (pm' & Epm' & Hsh). simplify_eq.
      pose proof (evolves_mergeable h0 h _ _ (tr_evolves _ _ _ _ Ht) Hsh Hmmb) as Hm1.
      pose proof (evolves_mergeable h0 h _ _ (tr_evolves _ _ _ _ Ht) (reflexivity m) Hmerge) as Hm2.
      unfold bind. rewrite Eb. run_step (append_to_spec h b.1 pm m); [done..|rewrite (shape_key _ _ Hsh); congruence|]. intros [h' []] Happ.
      apply returns_done. cbn [fst snd] in *. rewrite (tr_sources _ _ _ _ Ht).
      pose proof (tracks_merged h h' lm tr out p s m prev pm Ht Hp Hap Hs Hm Ek Esent) as Hmer. rewrite Eb in Hmer. specialize (Hmer Epm Happ).
      cbn zeta in Hmer. by destruct (bitset_All _).
  - apply returns_done. cbn [fst snd option_list]. rewrite app_nil_r, (tr_sources _ _ _ _ Ht). by apply tracks_first.
Qed.

Definition adds (source : nat) (ms : list ptr) : list arrival := map (fun m => (m, source)) ms.

Lemma AddMatches_tracks h lm tr out ms s : tracks h lm tr out -> NoDup (tr.*1 ++ ms) -> apart (tr ++ adds s ms) -> Forall addable (tr ++ adds s ms) ->
  returns (AddMatches lm ms s h) (fun r => tracks r.1 r.2.1 (tr ++ adds s ms) (out ++ r.2.2)).
Proof.
  revert h lm tr out. induction ms as [|m ms IH]; intros h lm tr out Ht Hnd Hap Ha.
  - apply returns_done. cbn [fst snd adds map]. by rewrite !app_nil_r.
  - cbn [AddMatches adds map] in *. unfold bind. assert (m ∉ tr.*1) as Hm.
    { apply NoDup_app in Hnd as (_ & Hd & _). intros H. apply (Hd m H). left. }
    rewrite (cons_middle (m, s)), app_assoc in Ha, Hap. pose proof Ha as [Ha1 Ha2]%Forall_app. pose proof Ha1 as [Ha3 Ha4]%Forall_app.
    run_step (addMatch_tracks h lm tr out m s); [done|done|by apply apart_app in Hap|done|by apply Forall_singleton|]. intros [h1 [lm1 r1]] Ht1. cbn [fst snd] in *.
    run_step (IH h1 lm1 (tr ++ [(m, s)]) (out ++ option_list r1) Ht1); [|done|done|].
    + rewrite fmap_app. simpl. rewrite <- app_assoc. by apply Hnd.
    + intros [h2 [lm2 r2]] Ht2. apply returns_done. cbn [fst snd ret] in *. rewrite <- app_assoc in Ht2. cbn [app] in Ht2.
      rewrite <- app_assoc in Ht2. by destruct r1.
Qed.

(** ** What was streamed, and what was not *)

Definition seen_by (tr : list arrival) (k : Key) (i : nat) : Prop := exists a, a ∈ tr /\ key0 a.1 = Some k /\ a.2 = i.

Lemma streamed_key tr p k : streamed tr p -> key0 p = Some k -> gathered k tr <> [] /\ all_seen (gathered k tr) = true /\ head (gathered k tr).*1 = Some p.
Proof.
  intros (k' & a & rest & E & Ha & ->) Hk. assert (a ∈ gathered k' tr) as [Hk' _]%gathered_key by (rewrite E; left).
  assert (k' = k) as -> by congruence. rewrite E. done.
Qed.

Lemma streamed_inj tr p q : streamed tr p -> streamed tr q -> key0 p = key0 q -> p = q.
Proof.
  intros Hp Hq E. pose proof Hp as (k & a & rest & Eg & _ & ->). assert (a ∈ gathered k tr) as [Hk _]%gathered_key by (rewrite Eg; left).
  destruct (streamed_key tr _ k Hp Hk) as (_ & _ & H1). rewrite E in Hk. destruct (streamed_key tr _ k Hq Hk) as (_ & _ & H2). congruence.
Qed.

Lemma NoDup_keys (l : list ptr) : NoDup l -> (forall p q, p ∈ l -> q ∈ l -> key0 p = key0 q -> p = q) -> NoDup (key0 <$> l).
Proof.
  induction 1 as [|p l Hp _ IH]; intros Hinj; [constructor|]. rewrite fmap_cons. constructor.
  - intros (q & E & Hq)%list_elem_of_fmap. assert (p = q) as -> by (apply Hinj; [left|by right|done]). done.
  - apply IH. intros; apply Hinj; [by right..|done].
Qed.

(** Streamed are the keys that all sources have seen, each once. *)
Lemma tracks_streamed h lm tr out : tracks h lm tr out ->
  NoDup (key0 <$> out) /\ forall k, Some k ∈ key0 <$> out <-> forall i, (i < n)%nat -> seen_by tr k i.
Proof.
  intros Ht. split.
  - apply NoDup_keys; [apply (tr_nodup _ _ _ _ Ht)|]. intros p q Hp%(tr_out _ _ _ _ Ht) Hq%(tr_out _ _ _ _ Ht). by apply (streamed_inj tr).
  - intros k. unfold seen_by. rewrite <- gathered_all. split.
    + intros (p & E & Hp%(tr_out _ _ _ _ Ht))%list_elem_of_fmap. by apply (streamed_key tr p k).
    + intros Ha. destruct (gathered k tr) as [|a rest] eqn:E; [by rewrite (proj1 (all_seen_few (1%positive, 0))) in Ha|].
      assert (a ∈ gathered k tr) as [Hk _]%gathered_key by (rewrite E; left). apply list_elem_of_fmap. exists a.1. split; [done|].
      apply (tr_out _ _ _ _ Ht). by exists k, a, rest.
Qed.

(** What is in a streamed match: all that its sources found for the key. *)
Lemma tracks_content h lm tr out p k : tracks h lm tr out -> p ∈ out -> key0 p = Some k ->
  exists m, objs h !! p = Some m /\ content_in h m = contents (gathered k tr).
Proof.
  intros Ht Hp%(tr_out _ _ _ _ Ht) Hk. destruct (streamed_key tr p k Hp Hk) as (Hne & _ & Hh).
  pose proof (tr_entries _ _ _ _ Ht k) as He. destruct (matches lm !! k) as [v|]; [|done]. destruct He as (a & rest & E & _ & _ & _ & _ & m & Hm & Hc).
  rewrite E in Hh |- *. simpl in Hh. simplify_eq. exists m. by rewrite <- E.
Qed.

Section Unsent.
Context {G : GoRuntime}.

Definition unsent (kv : Key * mergeVal) : bool := negb (sent kv.2).

Lemma filter_map_snd (l : list (Key * mergeVal)) :
  List.filter (fun v => negb (sent v)) (map snd l) = map snd (List.filter unsent l).
Proof. induction l as [|kv l IH]; [done|]. simpl. unfold unsent at 1. destruct (negb _); simpl; by rewrite IH. Qed.

Lemma UnsentTracked_perm j lm :
  UnsentTracked j lm ≡ₚ map (fun kv => v_match kv.2) (List.filter unsent (map_range j (matches lm))).
Proof.
  unfold UnsentTracked. rewrite sort_slice_perm, filter_map_snd, map_map. done.
Qed.

Lemma entry_key h lm tr out k v : tracks h lm tr out -> matches lm !! k = Some v -> key0 (v_match v) = Some k.
Proof.
  intros Ht Hv. pose proof (tr_entries _ _ _ _ Ht k) as He. rewrite Hv in He. destruct He as (a & rest & E & -> & _).
  assert (a ∈ gathered k tr) as [Hk _]%gathered_key by (rewrite E; left). done.
Qed.

Lemma unsent_keys h lm tr out j : tracks h lm tr out ->
  key0 <$> UnsentTracked j lm ≡ₚ Some <$> (List.filter unsent (map_range j (matches lm))).*1.
Proof.
  intros Ht. rewrite UnsentTracked_perm. assert (forall kv, kv ∈ map_range j (matches lm) -> key0 (v_match kv.2) = Some kv.1) as Hk.
  { intros [k v] Hin. rewrite map_range_perm in Hin. apply elem_of_map_to_list in Hin. by apply (entry_key h lm tr out). }
  induction (map_range j (matches lm)) as [|kv l IH]; [done|]. simpl. destruct (unsent kv); [|apply IH; intros; apply Hk; by right].
  csimpl. rewrite (Hk kv) by left. f_equiv. apply IH. intros; apply Hk; by right.
Qed.

Lemma unsent_elem h lm tr out j k : tracks h lm tr out ->
  Some k ∈ key0 <$> UnsentTracked j lm <-> gathered k tr <> [] /\ all_seen (gathered k tr) = false.
Proof.
  intros Ht. rewrite (unsent_keys h lm tr out) by done. rewrite list_elem_of_fmap. pose proof (tr_entries _ _ _ _ Ht k) as He. split.
  - intros (k' & [= <-] & ([k'' v] & -> & Hin)%list_elem_of_fmap). apply list_elem_of_In, filter_In in Hin as [Hin Hu].
    apply list_elem_of_In in Hin. rewrite map_range_perm in Hin. apply elem_of_map_to_list in Hin. cbn [fst] in *. rewrite Hin in He.
    destruct He as (a & rest & E & _ & Es & _). rewrite E. split; [done|]. rewrite <- E, <- Es. by apply negb_true_iff in Hu.
  - intros [Hne Ha]. destruct (matches lm !! k) as [v|] eqn:Ek; [|done]. destruct He as (a & rest & E & _ & Es & _).
    exists k. split; [done|]. apply list_elem_of_fmap. exists (k, v). split; [done|]. apply list_elem_of_In, filter_In. split.
    + apply list_elem_of_In. rewrite map_range_perm. by apply elem_of_map_to_list.
    + unfold unsent. simpl. by rewrite Es, Ha.
Qed.

(** With the unsent matches, every key that some source has seen is there once. *)
Lemma tracks_union h lm tr out j : tracks h lm tr out ->
  NoDup (key0 <$> (out ++ UnsentTracked j lm)) /\
  forall k, Some k ∈ key0 <$> (out ++ UnsentTracked j lm) <-> exists i, seen_by tr k i.
Proof.
  intros Ht. destruct (tracks_streamed h lm tr out Ht) as [Hnd Hs].
  assert (forall p, p ∈ out -> exists k, key0 p = Some k /\ all_seen (gathered k tr) = true) as Hout.
  { intros p (k & a & rest & E & Ha & ->)%(tr_out _ _ _ _ Ht). exists k. rewrite E. split; [|done].
    assert (a ∈ gathered k tr) as [Hk _]%gathered_key by (rewrite E; left). done. }
  split.
  - rewrite fmap_app. apply NoDup_app. split_and!; [done| |].
    + intros ok (p & -> & Hp)%list_elem_of_fmap Hu. destruct (Hout p Hp) as (k & Ek & Ha). rewrite Ek in Hu.
      apply (unsent_elem h lm tr out) in Hu as [_ Hf]; [congruence|done].
    + rewrite (unsent_keys h lm tr out) by done. apply (NoDup_fmap_2 Some). eapply (sublist_NoDup _ (map_range j (matches lm)).*1).
      * apply NoDup_map_range_keys.
      * apply fmap_sublist. induction (map_range j (matches lm)) as [|kv l IH]; [constructor|]. simpl. destruct (unsent kv); by constructor.
  - intros k. rewrite fmap_app, elem_of_app, Hs, (unsent_elem h lm tr out) by done. unfold seen_by at 1. rewrite <- gathered_all.
    transitivity (gathered k tr <> []).
    + destruct (all_seen (gathered k tr)) eqn:E; [|naive_solver]. split; [|by left]. intros _ E'. rewrite E' in E.
      by rewrite (proj1 (all_seen_few (1%positive, 0))) in E.
    + rewrite gathered_none. split.
      * intros H. destruct (decide (Exists (fun a => key0 a.1 = Some k) tr)) as [(a & Ha & Hk)%Exists_exists|Hno]; [by exists a.2, a|].
        destruct H. intros a Ha Hk. apply Hno, Exists_exists. eauto.
      * intros (i & a & Ha & Hk & _) H. by apply (H a Ha).
Qed.

Lemma unsent_content h lm tr out j p k : tracks h lm tr out -> p ∈ UnsentTracked j lm -> key0 p = Some k ->
  exists m, objs h !! p = Some m /\ content_in h m = contents (gathered k tr).
Proof.
  intros Ht Hp Hk. rewrite UnsentTracked_perm in Hp. apply list_elem_of_In, in_map_iff in Hp as ([k' v] & <- & [Hin _]%filter_In).
  apply list_elem_of_In in Hin. rewrite map_range_perm in Hin. apply elem_of_map_to_list in Hin. cbn [snd] in *.
  rewrite (entry_key h lm tr out k' v) in Hk by done. simplify_eq. pose proof (tr_entries _ _ _ _ Ht k) as He. rewrite Hin in He.
  destruct He as (a & rest & E & -> & _ & _ & _ & m & Hm & Hc). by exists m.
Qed.
(** The number of sources that have seen the key. *)
Definition saw (tr : list arrival) (k : Key) (i : nat) : bool :=
  existsb (fun a => bool_decide (key0 a.1 = Some k) && Nat.eqb i a.2) tr.
Definition seen_count (tr : list arrival) (k : Key) : nat := length (List.filter (saw tr k) (seq 0 n)).

Lemma saw_true tr k i : saw tr k i = true <-> seen_by tr k i.
Proof.
  unfold saw, seen_by. rewrite existsb_exists. split; intros (a & Ha & H); exists a; rewrite ?list_elem_of_In, ?andb_true_iff, ?bool_decide_eq_true, ?Nat.eqb_eq in *; naive_solver.
Qed.

Lemma gathered_saw k tr i : all_seen (gathered k tr) = false -> existsb (Nat.eqb i) (map snd (gathered k tr)) = saw tr k i.
Proof.
  unfold saw. induction tr as [|a tr IH] using rev_ind; [done|]. rewrite gathered_snoc, existsb_app. simpl. rewrite orb_false_r. unfold gather.
  case_bool_decide as Hk; cbn [andb]; [|rewrite orb_false_r; apply IH].
  destruct (all_seen (gathered k tr)) eqn:E; [congruence|]. intros _. rewrite map_app, existsb_app, IH by done. simpl. by rewrite orb_false_r.
Qed.

(** The unsent matches are in the order of how many sources have seen them. *)
Lemma unsent_order h lm tr out j : tracks h lm tr out ->
  StronglySorted (fun p q => forall k l, key0 p = Some k -> key0 q = Some l -> (seen_count tr l <= seen_count tr k)%nat) (UnsentTracked j lm).
Proof.
  intros Ht. unfold UnsentTracked. set (vs := List.filter _ _). set (less := fun v w : mergeVal => Nat.ltb (bitset_Count (seen w)) (bitset_Count (seen v))).
  assert (forall v k, v ∈ vs -> key0 (v_match v) = Some k -> bitset_Count (seen v) = seen_count tr k) as Hcount.
  { intros v k Hv Hk. apply list_elem_of_In, filter_In in Hv as [([k' v'] & <- & Hin)%in_map_iff Hs%negb_true_iff]. cbn [snd] in *.
    apply list_elem_of_In in Hin. rewrite map_range_perm in Hin. apply elem_of_map_to_list in Hin.
    rewrite (entry_key h lm tr out k' v' Ht Hin) in Hk. simplify_eq. pose proof (tr_entries _ _ _ _ Ht k) as He. rewrite Hin in He.
    destruct He as (a & rest & E & _ & Es & Hl & Htest & _). rewrite Hs in Es. rewrite bitset_Count_spec, Hl. unfold seen_count. f_equal.
    apply filter_ext. intros i. rewrite Htest. by apply gathered_saw. }
  assert (StrictWeak less) as Hw.
  { split; unfold less; [intros; apply Nat.ltb_irrefl|intros ? ? ?; rewrite !Nat.ltb_lt; lia|intros ? ? ?; rewrite !Nat.ltb_ge; lia]. }
  pose proof (sort_slice_ascending less vs Hw) as Hsort. assert (forall v, v ∈ sort_slice less vs -> v ∈ vs) as Hin by (intros v; by rewrite sort_slice_perm).
  unfold ascending in Hsort. revert Hin. induction Hsort as [|v l _ IH Hv]; intros Hin; [constructor|]. simpl. constructor; [apply IH; intros; apply Hin; by right|].
  apply Forall_forall. rewrite Forall_forall in Hv. intros q (w & <- & Hw'%list_elem_of_In)%list_elem_of_In%in_map_iff k l0 Hk Hl. specialize (Hv w Hw'). unfold less in Hv.
  apply Nat.ltb_ge in Hv. rewrite (Hcount v k), (Hcount w l0) in Hv; [done|by apply Hin; right|done|by apply Hin; left|done].
Qed.
End Unsent.
End Trace.
