(* ===== verification/ResultStreams.v ===== *)
(** Streams of search events: [stream.go] and [progress.go] of
    [internal/search/streaming], and the jobs that combine and limit the streams
    of their children, [expression_job.go], [limit.go] and [select.go] of [internal/search/job/jobutil].

    A stream is a function from its state and an event to the events that it
    sends on.  The children of a job run concurrently; what they send goes
    through a mutex or an atomic counter, so a run of the job is given by the
    sequence of their events, each with the number of the child. *)
From stdpp Require Import sorting.
From S2P Require Import Prelude GoStr GoLib GoMap Validate Results ResultMerge.
#[local] Open Scope Z_scope.

(** ** Events *)

Record RepoStatusMap := MkStatusMap { status_m : gmap Z Z; status : Z }.
Record Stats := MkStats {
  IsLimitHit : bool; Repos : gset Z; Status : RepoStatusMap;
  BackendsMissing : Z; ExcludedForks : Z; ExcludedArchived : Z }.
Definition zeroStats : Stats := MkStats false ∅ (MkStatusMap ∅ 0) 0 0 0.

(** The statuses of both maps, or-ed where both have one. *)
Definition Status_Union (m o : RepoStatusMap) : RepoStatusMap :=
  MkStatusMap (union_with (fun s t => Some (Z.lor s t)) (status_m m) (status_m o)) (Z.lor (status m) (status o)).

Definition Stats_Update (c other : Stats) : Stats :=
  MkStats (IsLimitHit c || IsLimitHit other) (Repos c ∪ Repos other) (Status_Union (Status c) (Status other))
    (BackendsMissing c + BackendsMissing other) (ExcludedForks c + ExcludedForks other) (ExcludedArchived c + ExcludedArchived other).

Definition Stats_Zero (c : Stats) : bool :=
  negb (IsLimitHit c || negb (bool_decide (Repos c = ∅)) || negb (bool_decide (status_m (Status c) = ∅)) ||
        (0 <? BackendsMissing c) || (0 <? ExcludedForks c) || (0 <? ExcludedArchived c)).

Record SearchEvent := MkEvent { ev_Results : list ptr; ev_Stats : Stats }.

(** [aggregatingStream.Send] *)
Definition aggregate (c event : SearchEvent) : SearchEvent :=
  MkEvent (ev_Results c ++ ev_Results event) (Stats_Update (ev_Stats c) (ev_Stats event)).

(** ** And and or *)

Section Expression.
Context {B : BitSet}.

(** What a child's event becomes: [intersectingStream] and [unioningStream]. *)
Definition merge_event (lm : merger) (childNum : nat) (event : SearchEvent) : M (merger * list SearchEvent) :=
  do r <- AddMatches lm (ev_Results event) childNum;
  ret (r.1, if negb (match r.2 with [] => true | _ => false end) || negb (Stats_Zero (ev_Stats event))
            then [MkEvent r.2 (ev_Stats event)] else []).

Fixpoint merge_events (lm : merger) (events : list (nat * SearchEvent)) : M (merger * list SearchEvent) :=
  match events with
  | [] => ret (lm, [])
  | (childNum, event) :: events =>
      do r <- merge_event lm childNum event;
      do s <- merge_events r.1 events;
      ret (s.1, r.2 ++ s.2)
  end.

Definition AndJob (children : nat) (events : list (nat * SearchEvent)) : M (list SearchEvent) :=
  do r <- merge_events (NewMerger children) events; ret r.2.

Definition OrJob {G : GoRuntime} (order : nat) (children : nat) (events : list (nat * SearchEvent)) : M (list SearchEvent) :=
  do r <- merge_events (NewMerger children) events;
  let unsentTracked := UnsentTracked order r.1 in
  ret (r.2 ++ match unsentTracked with [] => [] | _ => [MkEvent unsentTracked zeroStats] end).
End Expression.

(** ** Limits *)

Record limitStream := MkLimit { remaining : Z; hits : nat }.
Definition newLimitStream (limit : Z) : limitStream := MkLimit limit 0.

(** [hits] counts the calls of [onLimitHit]. *)
Definition limit_Send (s : limitStream) (event : SearchEvent) : M (limitStream * list SearchEvent) :=
  do count <- Matches_ResultCount (ev_Results event);
  if count =? 0 then ret (s, [event])
  else
    let after := wrap64 (remaining s - count) in
    let before := wrap64 (after + count) in
    do results <-
      if after <? 0 then do r <- Matches_Limit (ev_Results event) (if before <? 0 then 0 else before); ret r.1
      else ret (ev_Results event);
    let event := MkEvent results (ev_Stats event) in
    if (after <=? 0) && (0 <? before)
    then ret (MkLimit after (S (hits s)), [event; MkEvent [] (MkStats true ∅ (MkStatusMap ∅ 0) 0 0 0)])
    else ret (MkLimit after (hits s), [event]).

Fixpoint limit_events (s : limitStream) (events : list SearchEvent) : M (limitStream * list SearchEvent) :=
  match events with
  | [] => ret (s, [])
  | event :: events =>
      do r <- limit_Send s event;
      do q <- limit_events r.1 events;
      ret (q.1, r.2 ++ q.2)
  end.

(** [LimitJob.Run], with the events that its child sends. *)
Definition LimitJob (limit : Z) (events : list SearchEvent) : M (limitStream * list SearchEvent) :=
  limit_events (newLimitStream limit) events.

(** ** Deduplication and selection *)

(** The loop of [dedupingStream.Send], which [SequentialJob] repeats. *)
Fixpoint unique_results (d : Deduper) (results : list ptr) : M (Deduper * list ptr) :=
  match results with
  | [] => ret (d, [])
  | p :: results =>
      do seen <- Deduper_Seen d p;
      if seen : bool then unique_results d results
      else
        do d <- Deduper_Add d p;
        do r <- unique_results d results;
        ret (r.1, p :: r.2)
  end.
Definition deduping_Send (d : Deduper) (event : SearchEvent) : M (Deduper * SearchEvent) :=
  do r <- unique_results d (ev_Results event); ret (r.1, MkEvent r.2 (ev_Stats event)).

Section Select.
Context {U : UnicodeTables}.

Fixpoint select_results (s : list gostring) (dedup : Deduper) (results : list ptr) : M (Deduper * list ptr) :=
  match results with
  | [] => ret (dedup, [])
  | p :: results =>
      do current <- Match_Select p s;
      match current with
      | None => select_results s dedup results
      | Some current =>
          do seen <- Deduper_Seen dedup current;
          do m <- load current;
          let skip := seen && match m with MFile fm => IsPathMatch fm | _ => true end in
          if skip then select_results s dedup results
          else
            do dedup <- Deduper_Add dedup current;
            do r <- select_results s dedup results;
            ret (r.1, current :: r.2)
      end
  end.
Definition selecting_Send (s : list gostring) (dedup : Deduper) (e : SearchEvent) : M (Deduper * SearchEvent) :=
  do r <- select_results s dedup (ev_Results e); ret (r.1, MkEvent r.2 (ev_Stats e)).
End Select.

(** ** What and- and or-expressions send *)

(** The additions that a run of the children makes to the merger. *)
Definition trace (events : list (nat * SearchEvent)) : list (ptr * nat) :=
  concat (map (fun e => adds e.1 (ev_Results e.2)) events).
Definition all_results (events : list SearchEvent) : list ptr := concat (map ev_Results events).
Definition all_stats (events : list SearchEvent) (c : Stats) : Stats := fold_left Stats_Update (map ev_Stats events) c.

(** Counts are not negative, and the union of no statuses is none. *)
Definition stats_ok (c : Stats) : Prop :=
  0 <= BackendsMissing c /\ 0 <= ExcludedForks c /\ 0 <= ExcludedArchived c /\ (status_m (Status c) = ∅ -> status (Status c) = 0).

(** As the comment of [Zero] says, updating with such stats changes nothing. *)
Lemma Stats_Update_zero c other : stats_ok other -> Stats_Zero other = true -> Stats_Update c other = c.
Proof.
  intros (H1 & H2 & H3 & H4). unfold Stats_Zero. intros Hz%negb_true_iff.
  apply orb_false_iff in Hz as [[[[[Hl Hr%negb_false_iff]%orb_false_iff Hs%negb_false_iff]%orb_false_iff Hb]%orb_false_iff Hf]%orb_false_iff Ha].
  apply bool_decide_eq_true in Hr, Hs. apply Z.ltb_ge in Hb, Hf, Ha. destruct other as [l r [sm st] b f a], c as [l' r' [sm' st'] b' f' a'].
  unfold Stats_Update, Status_Union. cbn [IsLimitHit Repos Status status_m status BackendsMissing ExcludedForks ExcludedArchived] in *.
  subst. rewrite H4 by done. rewrite orb_false_r, Z.lor_0_r, (right_id_L ∅ (∪)), (right_id_L ∅ _). f_equal; lia.
Qed.

Section ExpressionFacts.
Context {B : BitSet} (n : nat) (h0 : Heap).
Hypothesis Hn : (2 <= n)%nat.

Lemma fst_adds s ms : (adds s ms).*1 = ms.
Proof. unfold adds. induction ms as [|m ms IH]; [done|]. csimpl. by rewrite IH. Qed.

Lemma merge_event_tracks h lm tr out i e : tracks n h0 h lm tr out -> NoDup (tr.*1 ++ ev_Results e) ->
  apart h0 (tr ++ adds i (ev_Results e)) -> Forall (addable n h0) (tr ++ adds i (ev_Results e)) -> stats_ok (ev_Stats e) ->
  returns (merge_event lm i e h) (fun r => tracks n h0 r.1 r.2.1 (tr ++ adds i (ev_Results e)) (out ++ all_results r.2.2) /\
    forall c, all_stats r.2.2 c = Stats_Update c (ev_Stats e)).
Proof.
  intros Ht Hnd Hap Ha Hs. unfold merge_event, bind. run_step (AddMatches_tracks n h0 Hn h lm tr out (ev_Results e) i); [done..|].
  intros [h' [lm' rs]] Ht'. apply returns_done. cbn [fst snd ret] in *. unfold all_results, all_stats.
  destruct rs as [|p rs]; cbn [negb orb]; [|simpl; by rewrite app_nil_r].
  destruct (Stats_Zero (ev_Stats e)) eqn:Ez; cbn [negb map concat fold_left]; [|done]. split; [done|]. intros c. by rewrite Stats_Update_zero.
Qed.

Lemma merge_events_tracks h lm tr out events : tracks n h0 h lm tr out -> NoDup (tr ++ trace events).*1 ->
  apart h0 (tr ++ trace events) -> Forall (addable n h0) (tr ++ trace events) -> Forall (fun e => stats_ok (ev_Stats e.2)) events ->
  returns (merge_events lm events h) (fun r => tracks n h0 r.1 r.2.1 (tr ++ trace events) (out ++ all_results r.2.2) /\
    forall c, all_stats r.2.2 c = all_stats (map snd events) c).
Proof.
  revert h lm tr out. induction events as [|[i e] events IH]; intros h lm tr out Ht Hnd Hap Ha Hs.
  - apply returns_done. cbn [fst snd]. unfold trace, all_results. simpl. by rewrite !app_nil_r.
  - cbn [merge_events]. apply Forall_cons_1 in Hs as [Hs Hss]. unfold trace in *. cbn [map concat fst snd] in *. fold (trace events) in *. rewrite app_assoc in *.
    pose proof Ha as [Ha1 _]%Forall_app. unfold bind.
    run_step (merge_event_tracks h lm tr out i e Ht); [rewrite fmap_app in Hnd; apply NoDup_app in Hnd as (Hnd & _); by rewrite fmap_app, fst_adds in Hnd|by apply apart_app in Hap|done..|].
    intros [h1 [lm1 out1]] [Ht1 Hs1]. cbn [fst snd] in *. run_step (IH h1 lm1 _ _ Ht1 Hnd Hap Ha Hss). intros [h2 [lm2 out2]] [Ht2 Hs2].
    apply returns_done. cbn [fst snd ret] in *. unfold all_results, all_stats in *. rewrite !map_app, concat_app, app_assoc. split; [done|].
    intros c. cbn [map fold_left snd]. by rewrite fold_left_app, Hs1, Hs2.
Qed.
End ExpressionFacts.

(** ** The claim *)

(** The child [i] has sent a match with the key [k]. *)
Definition found (h : Heap) (events : list (nat * SearchEvent)) (i : nat) (k : Key) : Prop :=
  exists e p m, (i, e) ∈ events /\ p ∈ ev_Results e /\ objs h !! p = Some m /\ Match_Key m = k.

Lemma found_seen_by h events i k : found h events i k <-> seen_by h (trace events) k i.
Proof.
  unfold found, seen_by, trace, key0. split.
  - intros (e & p & m & He & Hp & Hm & Hk). exists (p, i). cbn [fst snd]. rewrite Hm. simpl. split_and!; [|congruence|done].
    apply list_elem_of_In, in_concat. exists (adds i (ev_Results e)). split.
    + apply in_map_iff. exists (i, e). split; [done|]. by apply list_elem_of_In.
    + apply in_map_iff. exists p. split; [done|]. by apply list_elem_of_In.
  - intros ([p j] & Hin & Hk & <-). cbn [fst snd] in *. apply list_elem_of_In, in_concat in Hin as (l & Hl & Hin).
    apply in_map_iff in Hl as ([i e] & <- & He). apply in_map_iff in Hin as (p' & [= -> ->] & Hp).
    apply fmap_Some in Hk as (m & Hm & ->). exists e, p, m. split_and!; [by apply list_elem_of_In|by apply list_elem_of_In|done..].
Qed.

(** What the children may send: matches that are objects of their own, with
    message previews of their own. *)
Record well_formed_run (n : nat) (h : Heap) (events : list (nat * SearchEvent)) : Prop := {
  run_children i e : (i, e) ∈ events -> (i < n)%nat;
  run_distinct : NoDup (trace events).*1;
  run_messages : apart h (trace events);
  run_matches p : p ∈ (trace events).*1 -> exists m, objs h !! p = Some m /\ mergeable h m;
  run_stats : Forall (fun e => stats_ok (ev_Stats e.2)) events }.

Lemma run_addable n h events : well_formed_run n h events -> Forall (addable n h) (trace events).
Proof.
  intros [Hc Hd _ Hm Hs]. apply Forall_forall. intros [p i] Hin. destruct (Hm p) as (m & Ep & Hmm); [apply list_elem_of_fmap; by exists (p, i)|].
  exists m. split_and!; [done..|]. unfold trace in Hin. apply list_elem_of_In, in_concat in Hin as (l & Hl & Hin).
  apply in_map_iff in Hl as ([j e] & <- & He). apply in_map_iff in Hin as (p' & [= -> ->] & Hp). apply (Hc i e). by apply list_elem_of_In.
Qed.

Definition keys_of (h : Heap) (ps : list ptr) : list (option Key) := (fun p => Match_Key <$> (objs h !! p)) <$> ps.

(** The sources' matches with the key, in the order of their arrival, up to the
    one with which every source has sent one. *)
Definition gathered_content (n : nat) (h : Heap) (events : list (nat * SearchEvent)) (k : Key) : content :=
  contents h (gathered n h k (trace events)).

Section Claims.
Context {B : BitSet} (n : nat) (h : Heap) (events : list (nat * SearchEvent)).
Hypothesis Hn : (2 <= n)%nat.
Hypothesis Hrun : well_formed_run n h events.

Lemma merge_events_run :
  returns (merge_events (NewMerger n) events h) (fun r => tracks n h r.1 r.2.1 (trace events) (all_results r.2.2) /\
    all_stats r.2.2 zeroStats = all_stats (map snd events) zeroStats).
Proof.
  eapply returns_mono; [apply (merge_events_tracks n h Hn h (NewMerger n) [] [] events)|].
  - by apply tracks_start.
  - apply (run_distinct _ _ _ Hrun).
  - apply (run_messages _ _ _ Hrun).
  - by apply run_addable.
  - apply (run_stats _ _ _ Hrun).
  - intros r [Ht Hs]. split; [done|]. apply Hs.
Qed.

(** A match that was sent is as the child sent it, but for the content, and that
    is all that was gathered for its key. *)
Definition complete (h' : Heap) (ps : list ptr) : Prop :=
  forall p m, p ∈ ps -> objs h !! p = Some m ->
    exists m', objs h' !! p = Some m' /\ without_content m' = without_content m /\
      content_in h' m' = gathered_content n h events (Match_Key m).

Lemma complete_intro h' lm tr out (ps : list ptr) : tracks n h h' lm tr out -> tr = trace events ->
  (forall p k, p ∈ ps -> key0 h p = Some k -> exists m, objs h' !! p = Some m /\ content_in h' m = contents h (gathered n h k tr)) ->
  complete h' ps.
Proof.
  intros Ht -> Hc p m0 Hp Hm0. destruct (Hc p (Match_Key m0) Hp) as (m & Hm & Hcm); [unfold key0; by rewrite Hm0|].
  exists m. destruct (evolves_objs _ _ (tr_evolves _ _ _ _ _ _ Ht) p m0 Hm0) as (m' & Hm' & Hsh). by simplify_eq.
Qed.

(** Previews that are not messages of the matches stay as they are. *)
Definition previews_kept (h' : Heap) : Prop :=
  forall q, (forall p m, p ∈ (trace events).*1 -> objs h !! p = Some m -> message_of m <> Some q) -> strs h' !! q = strs h !! q.

Lemma previews_kept_intro h' lm out : tracks n h h' lm (trace events) out -> previews_kept h'.
Proof. intros Ht q Hq. apply (tr_strs _ _ _ _ _ _ Ht). intros a m Ha. apply Hq, list_elem_of_fmap. by exists a. Qed.

(** The number of children that found the key. *)
Definition finders (k : Key) : nat :=
  length (List.filter (fun i => existsb (fun e => Nat.eqb i e.1 && existsb (fun p => bool_decide (key0 h p = Some k)) (ev_Results e.2)) events) (seq 0 n)).

Lemma finders_seen k : finders k = seen_count n h (trace events) k.
Proof.
  unfold finders, seen_count. f_equal. apply filter_ext. intros i. unfold saw, trace. clear Hrun. induction events as [|[j e] es IH]; [done|].
  cbn [map concat existsb fst snd]. rewrite existsb_app, <- IH. f_equal. unfold adds. induction (ev_Results e) as [|p ps IHp]; [by rewrite andb_false_r|].
  simpl. rewrite <- IHp. by destruct (Nat.eqb i j), (bool_decide _).
Qed.
End Claims.

Lemma merge_events_app {B : BitSet} events1 events2 : forall lm h,
  merge_events lm (events1 ++ events2) h =
  bind (merge_events lm events1) (fun r => bind (merge_events r.1 events2) (fun q => ret (q.1, r.2 ++ q.2))) h.
Proof.
  unfold bind, ret. induction events1 as [|[i e] es IH]; intros lm h; cbn [app merge_events]; unfold bind, ret; cbn [run_bind fst snd].
  - destruct (merge_events lm events2 h) as [[h' [lm' out]]| |]; done.
  - destruct (merge_event lm i e h) as [[h1 [lm1 out1]]| |]; cbn [run_bind fst snd]; [|done..]. rewrite IH.
    destruct (merge_events lm1 es h1) as [[h2 [lm2 out2]]| |]; cbn [run_bind fst snd]; [|done..].
    destruct (merge_events lm2 events2 h2) as [[h3 [lm3 out3]]| |]; cbn [run_bind fst snd]; [|done..]. by rewrite app_assoc.
Qed.

Lemma trace_app events1 events2 : trace (events1 ++ events2) = trace events1 ++ trace events2.
Proof. unfold trace. by rewrite map_app, concat_app. Qed.

Lemma well_formed_prefix n h events1 events2 : well_formed_run n h (events1 ++ events2) -> well_formed_run n h events1.
Proof.
  intros [Hc Hd Hap Hm Hs]. rewrite trace_app in *. split.
  - intros i e He. apply (Hc i e), elem_of_app. by left.
  - rewrite fmap_app in Hd. by apply NoDup_app in Hd as [? _].
  - by apply apart_app in Hap.
  - intros p Hp. apply Hm. rewrite fmap_app. set_solver.
  - by apply Forall_app in Hs as [? _].
Qed.

(** Matches are sent as soon as all children have found them: what was sent after
    the first events is what all children have found in these. *)
Definition prompt (n : nat) (h : Heap) (events : list (nat * SearchEvent)) (out : list SearchEvent) : Prop :=
  forall events1 events2, events = events1 ++ events2 -> exists out1 out2, out = out1 ++ out2 /\
    forall k, Some k ∈ keys_of h (all_results out1) <-> forall i, (i < n)%nat -> found h events1 i k.

Lemma merge_events_prompt {B : BitSet} n h events h' lm out : (2 <= n)%nat -> well_formed_run n h events ->
  merge_events (NewMerger n) events h = Done (h', (lm, out)) -> prompt n h events out.
Proof.
  intros Hn Hrun E events1 events2 ->. rewrite merge_events_app in E. unfold bind, ret in E.
  destruct (merge_events_run n h events1 Hn (well_formed_prefix _ _ _ _ Hrun)) as ([h1 [lm1 out1]] & E1 & [Ht _]). rewrite E1 in E. cbn [run_bind fst snd] in *.
  destruct (merge_events lm1 events2 h1) as [[h2 [lm2 out2]]| |]; simplify_eq/=. exists out1, out2. split; [done|].
  intros k. setoid_rewrite found_seen_by. apply (tracks_streamed n h Hn _ _ _ _ Ht).
Qed.

(** C9: Whatever the interleaving of its children's events, an and-expression of two children or more sends exactly the results that every child found, each once and as soon as the last child has found it.  A result is identified by its key.  What is sent is the match of the child that found it first, with the chunks and symbols of the file, the matches in the name and description of the repository or the ranges in the commit message that the children found for the key, in the order of their arrival, up to the one with which the last child found it; diffs and owners are not merged, and no other preview changes.  No statistics are lost.  It is assumed that the children's matches and message previews are objects of their own. *)
Theorem AndJob_correct {B : BitSet} (n : nat) (h : Heap) (events : list (nat * SearchEvent)) :
  (2 <= n)%nat -> well_formed_run n h events ->
  returns (AndJob n events h) (fun r =>
    NoDup (keys_of h (all_results r.2)) /\
    (forall k, Some k ∈ keys_of h (all_results r.2) <-> forall i, (i < n)%nat -> found h events i k) /\
    prompt n h events r.2 /\
    complete n h events r.1 (all_results r.2) /\ previews_kept h events r.1 /\
    all_stats r.2 zeroStats = all_stats (map snd events) zeroStats).
Proof.
  intros Hn Hrun. destruct (merge_events_run n h events Hn Hrun) as ([h' [lm out]] & E & [Ht Hs]). unfold AndJob, bind. rewrite E. apply returns_done.
  cbn [fst snd ret] in *. destruct (tracks_streamed n h Hn _ _ _ _ Ht) as [Hnd Hk]. split_and!; [done| | | | |done].
  - intros k. setoid_rewrite found_seen_by. apply Hk.
  - by apply (merge_events_prompt n h events h' lm).
  - apply (complete_intro n h events h' lm (trace events) (all_results out)); [done..|]. intros p k. by apply tracks_content with (1 := Ht).
  - by apply (previews_kept_intro n h events h' lm (all_results out)).
Qed.

(** C10: Whatever the interleaving of its children's events and the order in which the map of tracked matches is visited, an or-expression of two children or more sends exactly the results that some child found, each once.  Those that every child found come first, each as soon as the last child has found it; the others come at the end, in one event, those that more children found before those that fewer found.  What is sent is merged as in an and-expression, and no statistics are lost. *)
Theorem OrJob_correct {B : BitSet} {G : GoRuntime} (order n : nat) (h : Heap) (events : list (nat * SearchEvent)) :
  (2 <= n)%nat -> well_formed_run n h events ->
  returns (OrJob order n events h) (fun r =>
    exists early late, r.2 = early ++ match late with [] => [] | _ => [MkEvent late zeroStats] end /\
    NoDup (keys_of h (all_results r.2)) /\
    (forall k, Some k ∈ keys_of h (all_results r.2) <-> exists i, found h events i k) /\
    (forall k, Some k ∈ keys_of h (all_results early) <-> forall i, (i < n)%nat -> found h events i k) /\
    prompt n h events early /\
    StronglySorted (fun p q => forall k l, key0 h p = Some k -> key0 h q = Some l -> (finders n h events l <= finders n h events k)%nat) late /\
    complete n h events r.1 (all_results r.2) /\ previews_kept h events r.1 /\
    all_stats r.2 zeroStats = all_stats (map snd events) zeroStats).
Proof.
  intros Hn Hrun. destruct (merge_events_run n h events Hn Hrun) as ([h' [lm out]] & Em & [Ht Hs]). unfold OrJob, bind. rewrite Em. apply returns_done.
  cbn [fst snd ret] in *. destruct (tracks_union n h Hn _ _ _ _ order Ht) as [Hnd Hk]. destruct (tracks_streamed n h Hn _ _ _ _ Ht) as [_ Hall].
  pose proof (unsent_order n h Hn _ _ _ _ order Ht) as Hord. set (us := UnsentTracked order lm) in *. exists out, us.
  assert (all_results (out ++ match us with [] => [] | _ => [MkEvent us zeroStats] end) = all_results out ++ us) as E.
  { unfold all_results. rewrite map_app, concat_app. destruct us; simpl; by rewrite ?app_nil_r. }
  rewrite E. split_and!; [done|done| | | | | | |].
  - intros k. setoid_rewrite found_seen_by. apply Hk.
  - intros k. setoid_rewrite found_seen_by. apply Hall.
  - by apply (merge_events_prompt n h events h' lm).
  - eapply StronglySorted_mono; [|exact Hord]. intros p q H k l. rewrite !finders_seen. apply H.
  - apply (complete_intro n h events h' lm (trace events) (all_results out)); [done..|]. intros p k [Hp|Hp]%elem_of_app.
    + by apply tracks_content with (1 := Ht).
    + by apply unsent_content with (1 := Ht) (2 := Hp).
  - by apply (previews_kept_intro n h events h' lm (all_results out)).
  - unfold all_stats in *. rewrite map_app, fold_left_app, Hs. destruct us; [done|]. by apply Stats_Update_zero.
Qed.

(** ** What a limit lets through *)

Lemma Matches_ResultCount_total h ps : Forall (live h) ps -> Matches_ResultCount ps h = Done (h, total h ps).
Proof.
  induction 1 as [|p ps Hp _ IH]; [done|]. cbn [Matches_ResultCount]. pose proof Hp as (m & Em & _). unfold bind.
  rewrite (ResultCount_live h p m) by done. cbn [run_bind fst snd]. rewrite IH. cbn [run_bind fst snd ret total fold_right].
  by rewrite (count_live h p m).
Qed.

Lemma all_shown_app h ps qs : all_shown h (ps ++ qs) = all_shown h ps ++ all_shown h qs.
Proof. unfold all_shown. by rewrite map_app, concat_app. Qed.
Lemma take_take_app {A} (l1 l2 : list A) n m : m = (n - length l1)%nat -> take n l1 ++ take m l2 = take n (l1 ++ l2).
Proof. intros ->. by rewrite take_app. Qed.

Definition hit (before count : Z) : nat := if (before - count <=? 0) && (0 <? before) then 1 else 0.

(** What sending [results] with [before] left of the limit comes to. *)
Record let_through (before : Z) (results others : list ptr) (h h' : Heap) (s' : limitStream) (hits0 : nat) (sent : list ptr) : Prop := {
  lt_remaining : remaining s' = before - Z.of_nat (length (all_shown h results));
  lt_hits : hits s' = (hits0 + hit before (Z.of_nat (length (all_shown h results))))%nat;
  lt_shown : all_shown h' sent = take (Z.to_nat before) (all_shown h results);
  lt_sublist : sent `sublist_of` results;
  lt_separate : separate h' (sent ++ others);
  lt_others : undisturbed h h' others;
  lt_keys : same_keys h h' }.

Definition in_range (z : Z) : Prop := - 2 ^ 62 < z < 2 ^ 62.

Lemma limit_Send_count h s e others : separate h (ev_Results e ++ others) ->
  in_range (remaining s) -> in_range (remaining s - Z.of_nat (length (all_shown h (ev_Results e)))) ->
  returns (limit_Send s e h) (fun r => let_through (remaining s) (ev_Results e) others h r.1 r.2.1 (hits s) (all_results r.2.2)).
Proof.
  intros Hs Hr1 Hr2. unfold in_range in *. unfold limit_Send, bind. pose proof Hs as (_ & [Hl Hlo]%Forall_app & _).
  rewrite Matches_ResultCount_total by done. rewrite total_shown by done. cbn [run_bind fst snd].
  assert (undisturbed h h others) as Hund by (eapply Forall_impl; [exact Hlo|done]).
  set (t := Z.of_nat (length (all_shown h (ev_Results e)))) in *. assert (0 <= t) by lia. unfold hit, all_results. destruct (Z.eqb_spec t 0) as [E|].
  { apply returns_done. cbn [fst snd ret map concat]. rewrite app_nil_r. unfold hit. split; fold t; try done; [lia| |rewrite take_ge by lia; done].
    unfold hit. rewrite E, Z.sub_0_r. destruct (Z.leb_spec (remaining s) 0), (Z.ltb_spec 0 (remaining s)); cbn [andb]; lia. }
  rewrite (wrap64_small (remaining s - t)) by lia. rewrite wrap64_small by lia.
  replace (remaining s - t + t) with (remaining s) by lia.
  destruct (Z.ltb_spec (remaining s - t) 0).
  - apply returns_bind. run_step (Matches_Limit_items h (ev_Results e) others (if remaining s <? 0 then 0 else remaining s)); [case_match; lia|done|].
    intros [h' [ps rest]] [Hp [Hc _] Hk Hs' Ho]. apply returns_done. cbn [fst snd ret] in *.
    assert (all_shown h' ps = take (Z.to_nat (remaining s)) (all_shown h (ev_Results e))) as Htot
      by (rewrite Hc; f_equal; destruct (Z.ltb_spec (remaining s) 0); lia).
    destruct ((remaining s - t <=? 0) && (0 <? remaining s)) eqn:Eh; apply returns_done; cbn [fst snd map concat]; rewrite app_nil_r;
      (split; try done; [unfold hit; fold t; rewrite Eh; simpl; lia|by destruct Hp as [k ->]; apply sublist_inserts_r]).
  - cbn [run_bind fst snd ret]. destruct ((remaining s - t <=? 0) && (0 <? remaining s)) eqn:Eh; apply returns_done; cbn [fst snd map concat ev_Results]; rewrite app_nil_r;
      (split; fold t; try done; [unfold hit; rewrite Eh; simpl; lia|rewrite take_ge by lia; done]).
Qed.

Lemma hit_split r c t : 0 <= c -> 0 <= t -> (hit r c + hit (r - c) t)%nat = hit r (c + t).
Proof.
  intros Hc Ht. unfold hit. destruct (Z.leb_spec (r - c) 0), (Z.ltb_spec 0 r), (Z.leb_spec (r - c - t) 0), (Z.ltb_spec 0 (r - c)),
    (Z.leb_spec (r - (c + t)) 0); cbn [andb]; lia.
Qed.

Lemma all_results_app a b : all_results (a ++ b) = all_results a ++ all_results b.
Proof. unfold all_results. by rewrite map_app, concat_app. Qed.

Lemma limit_events_count events : forall h s others, separate h (all_results events ++ others) ->
  in_range (remaining s) -> in_range (remaining s - Z.of_nat (length (all_shown h (all_results events)))) ->
  returns (limit_events s events h) (fun r =>
    let_through (remaining s) (all_results events) others h r.1 r.2.1 (hits s) (all_results r.2.2)).
Proof.
  induction events as [|e events IH]; intros h s others Hs Hr1 Hr2.
  { pose proof Hs as (_ & Hl & _). apply returns_done. cbn [fst snd]. unfold all_results, all_shown. simpl. split; try done; unfold all_shown; simpl.
    - lia.
    - unfold hit. change (Z.of_nat 0) with 0. destruct (Z.leb_spec (remaining s - 0) 0), (Z.ltb_spec 0 (remaining s)); cbn [andb]; lia.
    - by destruct (Z.to_nat (remaining s)).
    - eapply Forall_impl; [exact Hl|done]. }
  change (all_results (e :: events)) with (ev_Results e ++ all_results events) in *. rewrite <- app_assoc in Hs. rewrite all_shown_app, length_app in Hr2.
  cbn [limit_events]. unfold bind, in_range in *. run_step (limit_Send_count h s e (all_results events ++ others)); [done|done|unfold in_range; lia|].
  intros [h1 [s1 out1]] [Hrem Hhits Htot Hsub Hsep Hund Hkeys]. cbn [fst snd] in *.
  apply Forall_app in Hund as [Hund1 Hund2]. rewrite (app_assoc _ (all_results events)), (Permutation_app_comm (all_results out1)), <- app_assoc in Hsep.
  run_step (IH h1 s1 (all_results out1 ++ others) Hsep); [unfold in_range; lia|unfold in_range; rewrite Hrem, (undisturbed_shown h h1) by done; lia|].
  intros [h2 [s2 out2]] [Hrem2 Hhits2 Htot2 Hsub2 Hsep2 Hund3 Hkeys2]. cbn [fst snd] in *. apply Forall_app in Hund3 as [Hund3 Hund4].
  rewrite (undisturbed_shown h h1) in Hrem2, Hhits2, Htot2 by done. apply returns_done. cbn [fst snd ret]. rewrite all_results_app.
  split; rewrite ?all_shown_app, ?length_app, ?Nat2Z.inj_add.
  - lia.
  - rewrite Hhits2, Hhits, Hrem. rewrite <- hit_split by lia. lia.
  - rewrite Htot2, (undisturbed_shown h1 h2), Htot by done. apply take_take_app. lia.
  - by apply sublist_app.
  - rewrite <- app_assoc. rewrite (app_assoc (all_results out1)), (Permutation_app_comm (all_results out1)), <- app_assoc. done.
  - by apply (undisturbed_trans h h1).
  - by etrans.
Qed.

(** C11: However the child's events are split up, and as long as no two of its matches are the same object or share a preview, a limited search lets through exactly the first results of the child, as many as the limit allows: the results are the ranges of chunks and previews and the symbols, or a match as a whole that has none, each with the key of its match, in the child's order, so that the match at the limit is cut inside and no range is changed.  When the limit is reached, the search is cancelled, exactly once; otherwise never. *)
Theorem LimitJob_correct limit events h :
  0 < limit < 2 ^ 62 -> separate h (all_results events) -> Z.of_nat (length (all_shown h (all_results events))) < 2 ^ 62 ->
  returns (LimitJob limit events h) (fun r =>
    all_shown r.1 (all_results r.2.2) = take (Z.to_nat limit) (all_shown h (all_results events)) /\
    all_results r.2.2 `sublist_of` all_results events /\ same_keys h r.1 /\
    hits r.2.1 = if limit <=? Z.of_nat (length (all_shown h (all_results events))) then 1%nat else 0%nat).
Proof.
  intros Hl Hs Ht. unfold LimitJob. eapply returns_mono; [apply (limit_events_count events h (newLimitStream limit) [])|].
  - by rewrite app_nil_r.
  - unfold in_range. simpl. lia.
  - unfold in_range. simpl. lia.
  - intros [h' [s out]] [_ Hh Htot Hsub _ _ Hk]. cbn [fst snd remaining hits newLimitStream] in *. split_and!; [done..|].
    rewrite Hh. unfold hit. rewrite (proj2 (Z.ltb_lt 0 limit)) by lia. rewrite andb_true_r. cbn [plus].
    set (t := Z.of_nat _). destruct (Z.leb_spec limit t), (Z.leb_spec (limit - t) 0); lia.
Qed.

(** ** Examples *)

(** A bit set as its length and its members. *)
#[export] Instance set_bits : BitSet.
Proof.
  refine {| bitset := nat * gset nat; bitset_New n := (n, ∅); bitset_Set b i := (Nat.max b.1 (S i), {[i]} ∪ b.2);
            bitset_Test b i := bool_decide (i ∈ b.2); bitset_Len b := b.1;
            bitset_All b := forallb (fun i => bool_decide (i ∈ b.2)) (seq 0 b.1);
            bitset_Count b := length (List.filter (fun i => bool_decide (i ∈ b.2)) (seq 0 b.1)) |}; try done.
  intros b i j. simpl. destruct (Nat.eqb_spec i j) as [->|]; [by apply bool_decide_eq_true_2; set_solver|]. simpl.
  apply bool_decide_ext. set_solver.
Defined.

Section Examples.
#[local] Instance tables : UnicodeTables := plain_tables.
#[local] Instance runtime : GoRuntime := plain_runtime.

Definition ex_repo : MinimalRepo := MkRepo 1 (str "r") 0.
Definition at_line (l : Z) : Range := MkRange (MkLocation 0 l 0) (MkLocation 1 l 1).
Definition chunk (ls : list Z) : ChunkMatch := MkChunk (str "x") (MkLocation 0 0 0) (map at_line ls).
Definition file_match (path : string) (ls : list Z) : Match := MFile (MkFileMatch (MkFile None ex_repo (str "c") (str path)) [chunk ls] [] [] false).
(** [a.go] found by both children, [b.go] and [c.go] by one each. *)
Definition ex_heap : Heap :=
  MkHeap (list_to_map (zip [1; 2; 3; 4]%positive [file_match "a.go" [1; 2]; file_match "b.go" [3]; file_match "a.go" [7]; file_match "c.go" [4; 5; 6]])) ∅.
Definition ex_events : list (nat * SearchEvent) :=
  [(0, MkEvent [1; 2]%positive zeroStats); (1, MkEvent [4]%positive zeroStats); (1, MkEvent [3]%positive zeroStats)]%nat.

Lemma ex_run : well_formed_run 2 ex_heap ex_events.
Proof.
  split.
  - intros i e Hin. apply list_elem_of_In in Hin. simpl in Hin. destruct Hin as [E|[E|[E|[]]]]; simplify_eq; lia.
  - vm_compute. repeat (constructor; [set_solver|]). constructor.
  - intros a b m m' q Ha _ Hm _ Hq. apply list_elem_of_In in Ha. simpl in Ha. destruct Ha as [<-|[<-|[<-|[<-|[]]]]]; vm_compute in Hm; simplify_eq.
  - intros p Hp. apply list_elem_of_In in Hp. simpl in Hp. destruct Hp as [<-|[<-|[<-|[<-|[]]]]]; (eexists; split; [vm_compute; reflexivity|done]).
  - repeat constructor; vm_compute; congruence.
Qed.

Lemma AndJob_correct_witness :
  (match AndJob 2 ex_events ex_heap with Done r => all_results r.2 | _ => [] end = [1%positive]) /\
  returns (AndJob 2 ex_events ex_heap) (fun r => NoDup (keys_of ex_heap (all_results r.2))).
Proof.
  split; [vm_compute; reflexivity|]. eapply returns_mono; [apply (AndJob_correct 2 ex_heap ex_events); [lia|exact ex_run]|]. intros r [H _]. exact H.
Defined.

Lemma OrJob_correct_witness :
  (match OrJob 0 2 ex_events ex_heap with Done r => length (all_results r.2) | _ => 0%nat end = 3%nat) /\
  returns (OrJob 0 2 ex_events ex_heap) (fun r => NoDup (keys_of ex_heap (all_results r.2))).
Proof.
  split; [vm_compute; reflexivity|]. eapply returns_mono; [apply (OrJob_correct 0 2 ex_heap ex_events); [lia|exact ex_run]|].
  intros r (early & late & _ & H & _). exact H.
Defined.

Definition one_child : list SearchEvent := map snd ex_events.
Lemma ex_separate : separate ex_heap (all_results one_child).
Proof.
  split_and!.
  - vm_compute. repeat (constructor; [set_solver|]). constructor.
  - repeat constructor; (eexists; split; [vm_compute; reflexivity|done]).
  - vm_compute. constructor.
Qed.

Lemma LimitJob_correct_witness :
  length (all_shown ex_heap (all_results one_child)) = 7%nat /\
  returns (LimitJob 5 one_child ex_heap) (fun r => length (all_shown r.1 (all_results r.2.2)) = 5%nat /\ hits r.2.1 = 1%nat).
Proof.
  split; [vm_compute; reflexivity|]. eapply returns_mono.
  - apply (LimitJob_correct 5 one_child ex_heap); [lia|exact ex_separate|vm_compute; reflexivity].
  - intros r (E & _ & _ & Eh). split; [rewrite E; vm_compute; reflexivity|rewrite Eh; vm_compute; reflexivity].
Defined.

(** A merger of one source streams nothing that is seen once. *)
Example ex_one_source :
  match AndJob 1 [(0%nat, MkEvent [1%positive] zeroStats)] ex_heap with Done r => all_results r.2 | _ => [2%positive] end = [].
Proof. vm_compute. reflexivity. Qed.

(** Two diff matches of one commit share a preview of two ranges: limiting them to
    three results leaves two. *)
Definition ex_commit : CommitMatch :=
  MkCommitMatch (str "c") zeroTime ex_repo None (Some 9%positive) [MkDiffFile (str "a") (str "a") []; MkDiffFile (str "b") (str "b") []].
Definition shared_heap : Heap :=
  MkHeap (list_to_map (zip [1; 2]%positive (map MDiff (CommitToDiffMatches ex_commit)))) {[9%positive := MkMatched (str "x") [at_line 1; at_line 2]]}.
Example ex_shared_preview :
  total shared_heap [1; 2]%positive = 4 /\
  match Matches_Limit [1; 2]%positive 3 shared_heap with Done r => (r.2.2, total r.1 r.2.1) | _ => (0, 0) end = (0, 2).
Proof. vm_compute. split; reflexivity. Qed.

(** Selecting the content of two matches of one file, with one range each: both
    are sent on, and the first has the ranges of both. *)
Definition twice_heap : Heap := MkHeap (list_to_map (zip [1; 2]%positive [file_match "a.go" [1]; file_match "a.go" [2]])) ∅.
Example ex_select_twice :
  match select_results [str "content"] NewDeduper [1; 2]%positive twice_heap with Done r => (r.2.2, total r.1 r.2.2) | _ => ([], 0) end =
  ([1; 2]%positive, 3).
Proof. vm_compute. reflexivity. Qed.

(** The selector for enums is valid, and selects nothing. *)
Example ex_select_enum :
  SelectPathFromString (str "symbol.enum") = Ok [str "symbol"; str "enum"] /\
  SelectSymbolKind [MkSymbol (str "E") 1 0 (str "enum"); MkSymbol (str "F") 2 0 (str "enumerator")] (str "enum") = [].
Proof. vm_compute. split; reflexivity. Qed.
End Examples.
