(* ===== verification/DiffFormat.v ===== *)
(** The textual form of diffs in commit matches: [FormatDiffFiles] and
    [ParseDiffString] of [internal/search/result/commit_diff.go].

    The two regular expressions are written out as functions on bytes.  The first
    group of [splitRegex] is as long as possible, so that the line is split at its
    last space that is not escaped; [headerRegex] is looked for at every position
    of the line. *)
From S2P Require Import Prelude GoStr GoLib Versions VersionsFacts Results.
#[local] Open Scope Z_scope.

Definition newline : Z := 10.
Definition space : Z := 32.
Definition backslash : Z := 92.

(** ** Formatting *)

Definition escape (s : gostring) : gostring := ReplaceAll s (str " ") (str "\ ").
Definition unescape (s : gostring) : gostring := ReplaceAll s (str "\ ") (str " ").

Definition format_header (hunk : Hunk) : gostring :=
  str "@@ -" ++ FormatInt (OldStart hunk) ++ str "," ++ FormatInt (OldCount hunk) ++ str " +" ++
  FormatInt (NewStart hunk) ++ str "," ++ FormatInt (NewCount hunk) ++ str " @@" ++
  (if gs_eqb (Header hunk) [] then [] else str " " ++ Header hunk).
Definition format_hunk (hunk : Hunk) : gostring :=
  format_header hunk ++ [newline] ++ concat (map (fun line => line ++ [newline]) (Lines hunk)).
Definition format_names (diffFile : DiffFile) : gostring := escape (OrigName diffFile) ++ str " " ++ escape (NewName diffFile).
Definition FormatDiffFiles (res : list DiffFile) : gostring :=
  concat (map (fun diffFile => format_names diffFile ++ [newline] ++ concat (map format_hunk (Hunks diffFile))) res).

(** ** Parsing *)

Inductive diff_error := errInvalidDiff | errNumber (e : num_result).

(** The last space that has a byte before it which is not a backslash. *)
Fixpoint split_last (prev : option Z) (s : gostring) : option (gostring * gostring) :=
  match s with
  | [] => None
  | c :: t =>
      match split_last (Some c) t with
      | Some (a, b) => Some (c :: a, b)
      | None =>
          if (c =? space) && match prev with Some p => negb (p =? backslash) | None => false end then Some ([], t) else None
      end
  end.

Definition splitDiffFiles (fileLine : gostring) : result diff_error (gostring * gostring) :=
  match split_last None fileLine with
  | None => Err errInvalidDiff
  | Some (old, new) => Ok (unescape old, unescape new)
  end.

Definition skip_text (text s : gostring) : option gostring := if HasPrefix s text then Some (drop (length text) s) else None.

(** [headerRegex] at the start of [s]. *)
Definition header_at (s : gostring) : option (list gostring * gostring) :=
  match skip_text (str "@@ -") s with
  | None => None
  | Some s =>
      match digits1 s with
      | None => None
      | Some (a, s) =>
          match skip_text (str ",") s with
          | None => None
          | Some s =>
              match digits1 s with
              | None => None
              | Some (b, s) =>
                  match skip_text (str " +") s with
                  | None => None
                  | Some s =>
                      match digits1 s with
                      | None => None
                      | Some (c, s) =>
                          match skip_text (str ",") s with
                          | None => None
                          | Some s =>
                              match digits1 s with
                              | None => None
                              | Some (d, s) =>
                                  match skip_text (str " @@") s with
                                  | None => None
                                  | Some s => Some ([a; b; c; d], match s with x :: t => if x =? space then t else s | [] => [] end)
                                  end
                              end
                          end
                      end
                  end
              end
          end
      end
  end.
Fixpoint find_header (s : gostring) : option (list gostring * gostring) :=
  match header_at s with
  | Some groups => Some groups
  | None => match s with [] => None | _ :: s => find_header s end
  end.

Fixpoint atoi_all (groups : list gostring) : result diff_error (list Z) :=
  match groups with
  | [] => Ok []
  | g :: groups =>
      match Atoi g with
      | NumOk n => match atoi_all groups with Ok ns => Ok (n :: ns) | Err err => Err err end
      | err => Err (errNumber err)
      end
  end.

Definition parseHunkHeader (headerLine : gostring) : result diff_error Hunk :=
  match find_header headerLine with
  | None => Err errInvalidDiff
  | Some (groups, header) =>
      match atoi_all groups with
      | Ok [oldStart; oldCount; newStart; newCount] => Ok (MkHunk oldStart newStart oldCount newCount header [])
      | Ok _ => Err errInvalidDiff
      | Err err => Err err
      end
  end.

Inductive diff_state := INIT | IN_DIFF | IN_HUNK.
Record diff_parser := MkParser { state : diff_state; res : list DiffFile; currentDiff : DiffFile; currentHunk : Hunk }.
Definition zeroHunk : Hunk := MkHunk 0 0 0 0 [] [].
Definition zeroDiff : DiffFile := MkDiffFile [] [] [].

Definition finishHunk (p : diff_parser) : diff_parser :=
  let d := currentDiff p in
  MkParser (state p) (res p) (MkDiffFile (OrigName d) (NewName d) (Hunks d ++ [currentHunk p])) zeroHunk.
Definition finishDiff (p : diff_parser) : diff_parser := MkParser (state p) (res p ++ [currentDiff p]) zeroDiff (currentHunk p).

(** [currentDiff.OrigName, currentDiff.NewName, err = splitDiffFiles(line)] *)
Definition set_names (p : diff_parser) (line : gostring) : result diff_error diff_parser :=
  match splitDiffFiles line with
  | Err err => Err err
  | Ok (old, new) => Ok (MkParser IN_DIFF (res p) (MkDiffFile old new (Hunks (currentDiff p))) (currentHunk p))
  end.
(** The header's fields; the lines of the hunk stay. *)
Definition set_header (p : diff_parser) (line : gostring) : result diff_error diff_parser :=
  match parseHunkHeader line with
  | Err err => Err err
  | Ok h =>
      Ok (MkParser IN_HUNK (res p) (currentDiff p)
            (MkHunk (OldStart h) (NewStart h) (OldCount h) (NewCount h) (Header h) (Lines (currentHunk p))))
  end.
Definition add_line (p : diff_parser) (line : gostring) : diff_parser :=
  let h := currentHunk p in
  MkParser (state p) (res p) (currentDiff p) (MkHunk (OldStart h) (NewStart h) (OldCount h) (NewCount h) (Header h) (Lines h ++ [line])).

Definition is_hunk_line (c : Z) : bool := existsb (Z.eqb c) [45; 43; 32].

Definition diff_line (p : diff_parser) (line : gostring) : result diff_error diff_parser :=
  match line with
  | [] => Ok p
  | c :: _ =>
      match state p with
      | INIT => set_names p line
      | IN_DIFF => set_header p line
      | IN_HUNK =>
          if is_hunk_line c then Ok (add_line p line)
          else if c =? 64 then set_header (finishHunk p) line
          else set_names (finishDiff (finishHunk p)) line
      end
  end.

Fixpoint diff_lines (p : diff_parser) (lines : list gostring) : result diff_error diff_parser :=
  match lines with
  | [] => Ok p
  | line :: lines => match diff_line p line with Ok p => diff_lines p lines | Err err => Err err end
  end.

Definition ParseDiffString (diff : gostring) : result diff_error (list DiffFile) :=
  match diff_lines (MkParser INIT [] zeroDiff zeroHunk) (Split diff newline) with
  | Err err => Err err
  | Ok p => Ok (res (finishDiff (finishHunk p)))
  end.

(** ** Names *)

Lemma escape_cons c s : escape (c :: s) = (if c =? space then [backslash; space] else [c]) ++ escape s.
Proof.
  unfold escape, ReplaceAll. cbn [replace_aux]. change (HasPrefix (c :: s) (str " ")) with ((32 =? c) && true).
  rewrite andb_true_r, Z.eqb_sym. unfold space. by destruct (c =? 32).
Qed.

(** Every space has a backslash before it. *)
Fixpoint spaces_escaped (prev : Z) (s : gostring) : bool :=
  match s with [] => true | c :: s => (negb (c =? space) || (prev =? backslash)) && spaces_escaped c s end.

Lemma escape_escaped s prev : spaces_escaped prev (escape s) = true.
Proof.
  revert prev. induction s as [|c s IH]; intros prev; [done|]. rewrite escape_cons. destruct (Z.eqb_spec c space) as [->|].
  - cbn [app spaces_escaped]. rewrite (IH space). reflexivity.
  - cbn [app spaces_escaped]. rewrite (proj2 (Z.eqb_neq _ _)) by done. cbn [negb orb andb]. by apply IH.
Qed.

Lemma split_last_escaped prev s : spaces_escaped prev s = true -> split_last (Some prev) s = None.
Proof.
  revert prev. induction s as [|c s IH]; intros prev; [done|]. cbn [spaces_escaped split_last]. intros [Hc Hs]%andb_true_iff.
  rewrite (IH c Hs). destruct (c =? space); [|done]. cbn [negb orb andb] in *. by rewrite Hc.
Qed.

Lemma split_last_at prev s t :
  spaces_escaped space t = true -> (exists p, last (match prev with Some c => c :: s | None => s end) = Some p /\ p <> backslash) ->
  split_last prev (s ++ space :: t) = Some (s, t).
Proof.
  intros Ht. revert prev. induction s as [|c s IH]; intros prev (p & Hp & Hb); cbn [app split_last].
  - rewrite (split_last_escaped space t Ht), Z.eqb_refl. destruct prev; simplify_eq/=.
    by rewrite (proj2 (Z.eqb_neq _ _) Hb).
  - rewrite (IH (Some c)); [done|]. exists p. split; [|done]. by destruct prev.
Qed.

Lemma unescape_escape s : unescape (escape s) = s.
Proof.
  induction s as [|c s IH]; [done|]. rewrite escape_cons. unfold unescape, ReplaceAll in *. destruct (Z.eqb_spec c space) as [->|Hc].
  - cbn [app replace_aux]. change (HasPrefix (backslash :: space :: escape s) (str "\ ")) with true. cbn iota. simpl length. cbn [minus replace_aux]. cbn [app].
    change (str " ") with [space]. cbn [app]. f_equal. exact IH.
  - cbn [app]. cbn [replace_aux]. assert (HasPrefix (c :: escape s) (str "\ ") = false) as ->; [|by rewrite IH].
    change (str "\ ") with [backslash; space]. cbn [HasPrefix]. destruct s as [|d s]; [by rewrite andb_false_r|]. rewrite escape_cons.
    destruct (Z.eqb_spec d space) as [->|Hd]; cbn [app]; [by rewrite andb_false_r|].
    rewrite (proj2 (Z.eqb_neq space d)) by congruence. by rewrite andb_false_r.
Qed.

Lemma escape_last s p : last s = Some p -> p <> backslash -> exists q, last (escape s) = Some q /\ q <> backslash.
Proof.
  induction s as [|c s IH]; [done|]. intros Hl Hp. rewrite escape_cons. destruct s as [|d s].
  - injection Hl as ->. destruct (p =? space); [by exists space|by exists p].
  - destruct (IH Hl Hp) as (q & Hq & Hb). exists q. split; [|done]. destruct (escape (d :: s)) as [|e t] eqn:E; [done|].
    destruct (c =? space); exact Hq.
Qed.

Definition file_name (s : gostring) : bool :=
  forallb (fun c => negb (c =? newline)) s && match last s with Some p => negb (p =? backslash) | None => false end.

Lemma splitDiffFiles_format d : file_name (OrigName d) = true -> splitDiffFiles (format_names d) = Ok (OrigName d, NewName d).
Proof.
  intros [_ Hl]%andb_true_iff. destruct (last (OrigName d)) as [p|] eqn:E; [|done]. apply negb_true_iff, Z.eqb_neq in Hl.
  unfold splitDiffFiles, format_names. change (str " ") with [space]. cbn [app].
  rewrite split_last_at; [by rewrite !unescape_escape|apply escape_escaped|]. by apply (escape_last _ p).
Qed.

(** ** Headers *)

Lemma skip_text_app t s : skip_text t (t ++ s) = Some s.
Proof.
  unfold skip_text. assert (HasPrefix (t ++ s) t = true) as -> by (apply HasPrefix_spec; by exists s). by rewrite drop_app_length.
Qed.

Definition number (n : Z) : bool := (0 <=? n) && (n <? 2 ^ 63).
Lemma number_range n : number n = true -> 0 <= n < 2 ^ 63.
Proof. unfold number. lia. Qed.

Lemma digits1_number n c t : number n = true -> is_digit c = false -> digits1 (FormatInt n ++ c :: t) = Some (FormatInt n, c :: t).
Proof.
  intros Hn%number_range Hc. destruct (FormatInt_digits n) as [Hd (d & ds & E)]; [lia|]. apply digits1_stop; [done|by rewrite E|done].
Qed.

Definition valid_header (h : Hunk) : bool :=
  number (OldStart h) && number (OldCount h) && number (NewStart h) && number (NewCount h) &&
  forallb (fun c => negb (c =? newline)) (Header h).

Lemma header_at_format h : valid_header h = true ->
  header_at (format_header h) = Some ([FormatInt (OldStart h); FormatInt (OldCount h); FormatInt (NewStart h); FormatInt (NewCount h)], Header h).
Proof.
  intros [[[[H1 H2]%andb_true_iff H3]%andb_true_iff H4]%andb_true_iff _]%andb_true_iff. unfold header_at, format_header. rewrite skip_text_app.
  change (str ",") with [44]. change (str " +") with [32; 43]. change (str " @@") with [32; 64; 64]. cbn [app].
  rewrite digits1_number by done. change (44 :: ?t) with ([44] ++ t). rewrite skip_text_app.
  rewrite digits1_number by done. change (32 :: 43 :: ?t) with ([32; 43] ++ t). rewrite skip_text_app.
  rewrite digits1_number by done. change (44 :: ?t) with ([44] ++ t). rewrite skip_text_app.
  rewrite digits1_number by done. change (32 :: 64 :: 64 :: ?t) with ([32; 64; 64] ++ t). rewrite skip_text_app.
  destruct (gs_eqb (Header h) []) eqn:E; [|done]. apply gs_eqb_eq in E. by rewrite E.
Qed.

Lemma parseHunkHeader_format h : valid_header h = true ->
  parseHunkHeader (format_header h) = Ok (MkHunk (OldStart h) (NewStart h) (OldCount h) (NewCount h) (Header h) []).
Proof.
  intros Hv. unfold parseHunkHeader. assert (find_header (format_header h) = header_at (format_header h)) as ->.
  { destruct (format_header h) as [|c t] eqn:E; [done|]. cbn [find_header]. rewrite <- E, header_at_format by done. done. }
  rewrite header_at_format by done. apply andb_true_iff in Hv as [[[[H1 H2]%andb_true_iff H3]%andb_true_iff H4]%andb_true_iff _].
  cbn [atoi_all]. by rewrite !Atoi_of_FormatInt by (by apply number_range).
Qed.

(** ** Files *)

Definition valid_line (line : gostring) : bool :=
  match line with [] => false | c :: _ => is_hunk_line c && forallb (fun c => negb (c =? newline)) line end.
Definition valid_hunk (h : Hunk) : bool := valid_header h && forallb valid_line (Lines h).
Definition valid_file (d : DiffFile) : bool :=
  file_name (OrigName d) && forallb (fun c => negb (c =? newline)) (NewName d) &&
  match OrigName d with c :: _ => negb (existsb (Z.eqb c) [45; 43; 64]) | [] => false end &&
  match Hunks d with [] => false | _ => forallb valid_hunk (Hunks d) end.

Definition hunk_lines (h : Hunk) : list gostring := format_header h :: Lines h.
Definition file_lines (d : DiffFile) : list gostring := format_names d :: concat (map hunk_lines (Hunks d)).

(** The parser is inside a hunk, and would finish the file as [d]. *)
Definition inside (rs : list DiffFile) (d : DiffFile) (p : diff_parser) : Prop :=
  state p = IN_HUNK /\ res p = rs /\ currentDiff (finishHunk p) = d.

Lemma diff_lines_app p l k : diff_lines p (l ++ k) = match diff_lines p l with Ok p => diff_lines p k | Err err => Err err end.
Proof. revert p. induction l as [|line l IH]; intros p; [done|]. cbn [app diff_lines]. destruct (diff_line p line); [apply IH|done]. Qed.

Lemma hunk_body rs d h lines : forallb valid_line lines = true ->
  diff_lines (MkParser IN_HUNK rs d h) lines =
  Ok (MkParser IN_HUNK rs d (MkHunk (OldStart h) (NewStart h) (OldCount h) (NewCount h) (Header h) (Lines h ++ lines))).
Proof.
  revert h. induction lines as [|line lines IH]; intros h; [rewrite app_nil_r; by destruct h|]. intros [Hl Hls]%andb_true_iff.
  cbn [diff_lines]. destruct line as [|c line]; [done|]. apply andb_true_iff in Hl as [Hc _]. cbn [diff_line state]. rewrite Hc.
  unfold add_line. cbn [state res currentDiff currentHunk]. rewrite (IH _ Hls). cbn [OldStart NewStart OldCount NewCount Header Lines].
  by rewrite <- app_assoc.
Qed.

Lemma format_header_at h : exists t, format_header h = 64 :: t.
Proof. unfold format_header. eexists. reflexivity. Qed.

(** The lines of a hunk, from the parser's place for its header. *)
Lemma hunk_read p h : valid_hunk h = true -> Lines (currentHunk p) = [] ->
  match set_header p (format_header h) with
  | Ok p' => diff_lines p' (Lines h) = Ok (MkParser IN_HUNK (res p) (currentDiff p) h)
  | Err _ => False
  end.
Proof.
  intros [Hh Hl]%andb_true_iff Hc. unfold set_header. rewrite parseHunkHeader_format by done. cbn [OldStart NewStart OldCount NewCount Header].
  rewrite Hc, hunk_body by done. by destruct h.
Qed.

Lemma next_hunk rs d p h : inside rs d p -> valid_hunk h = true ->
  exists p', diff_lines p (hunk_lines h) = Ok p' /\ inside rs (MkDiffFile (OrigName d) (NewName d) (Hunks d ++ [h])) p'.
Proof.
  intros (Hs & Hr & Hd) Hv. pose proof (hunk_read (finishHunk p) h Hv eq_refl) as H. unfold hunk_lines. cbn [diff_lines].
  destruct (format_header_at h) as [t E]. assert (diff_line p (format_header h) = set_header (finishHunk p) (format_header h)) as ->.
  { rewrite E. cbn [diff_line]. by rewrite Hs. }
  destruct (set_header _ _) as [p'|]; [|done]. rewrite H. eexists. split; [done|]. unfold inside. cbn [state res currentDiff finishHunk].
  subst d. by rewrite <- Hr.
Qed.

Lemma next_hunks rs d p hs : inside rs d p -> forallb valid_hunk hs = true ->
  exists p', diff_lines p (concat (map hunk_lines hs)) = Ok p' /\ inside rs (MkDiffFile (OrigName d) (NewName d) (Hunks d ++ hs)) p'.
Proof.
  revert d p. induction hs as [|h hs IH]; intros d p Hi Hv.
  - exists p. split; [done|]. rewrite app_nil_r. by destruct d.
  - apply andb_true_iff in Hv as [Hh Hv]. destruct (next_hunk rs d p h Hi Hh) as (p1 & E1 & H1). cbn [map concat]. rewrite diff_lines_app, E1.
    destruct (IH _ p1 H1 Hv) as (p2 & E2 & H2). exists p2. split; [done|]. cbn [OrigName NewName Hunks] in H2. by rewrite <- app_assoc in H2.
Qed.

(** The lines of a file, from the parser's place for its names. *)
Lemma file_read p d : valid_file d = true -> Hunks (currentDiff p) = [] -> Lines (currentHunk p) = [] ->
  match set_names p (format_names d) with
  | Ok p1 => exists p', diff_lines p1 (concat (map hunk_lines (Hunks d))) = Ok p' /\ inside (res p) d p'
  | Err _ => False
  end.
Proof.
  intros [[[Hn _]%andb_true_iff _]%andb_true_iff Hh]%andb_true_iff Hc Hl. unfold set_names. rewrite splitDiffFiles_format by done.
  destruct d as [o n [|h hs]]; [done|]. cbn [Hunks OrigName NewName] in *. apply andb_true_iff in Hh as [Hh Hhs]. rewrite Hc.
  set (p1 := MkParser IN_DIFF (res p) (MkDiffFile o n []) (currentHunk p)). pose proof (hunk_read p1 h Hh Hl) as H.
  cbn [map concat]. rewrite diff_lines_app. unfold hunk_lines at 1. cbn [diff_lines]. destruct (format_header_at h) as [t E].
  assert (diff_line p1 (format_header h) = set_header p1 (format_header h)) as -> by (by rewrite E).
  destruct (set_header p1 _) as [p2|]; [|done]. rewrite H.
  destruct (next_hunks (res p) (MkDiffFile o n [h]) (MkParser IN_HUNK (res p1) (currentDiff p1) h) hs) as (p3 & E3 & H3); [done..|]. by exists p3.
Qed.

Lemma format_names_head d : valid_file d = true -> exists c t, format_names d = c :: t /\ is_hunk_line c = false /\ (c =? 64) = false.
Proof.
  intros [[_ H]%andb_true_iff _]%andb_true_iff. unfold format_names. destruct (OrigName d) as [|c s]; [done|]. rewrite escape_cons.
  apply negb_true_iff in H. cbn [existsb] in H. unfold is_hunk_line. destruct (Z.eqb_spec c space) as [->|Hc]; cbn [app].
  - by exists backslash, (space :: escape s ++ str " " ++ escape (NewName d)).
  - eexists c, _. split; [done|]. unfold space in Hc. cbn [existsb]. lia.
Qed.

Lemma next_file rs d p d' : inside rs d p -> valid_file d' = true ->
  exists p', diff_lines p (file_lines d') = Ok p' /\ inside (rs ++ [d]) d' p'.
Proof.
  intros (Hs & Hr & Hd) Hv. unfold file_lines. cbn [diff_lines]. destruct (format_names_head d' Hv) as (c & t & E & H1 & H2).
  assert (diff_line p (format_names d') = set_names (finishDiff (finishHunk p)) (format_names d')) as ->.
  { rewrite E. cbn [diff_line]. by rewrite Hs, H1, H2. }
  pose proof (file_read (finishDiff (finishHunk p)) d' Hv eq_refl eq_refl) as H. destruct (set_names _ _) as [p1|]; [|done].
  destruct H as (p' & E' & Hi). exists p'. split; [done|]. subst rs d. exact Hi.
Qed.

Lemma next_files rs d p ds : inside rs d p -> forallb valid_file ds = true ->
  exists p', diff_lines p (concat (map file_lines ds)) = Ok p' /\ res (finishDiff (finishHunk p')) = rs ++ d :: ds.
Proof.
  revert rs d p. induction ds as [|d' ds IH]; intros rs d p Hi Hv.
  - exists p. split; [done|]. destruct Hi as (_ & <- & <-). done.
  - apply andb_true_iff in Hv as [Hd Hv]. destruct (next_file rs d p d' Hi Hd) as (p1 & E1 & H1). cbn [map concat]. rewrite diff_lines_app, E1.
    destruct (IH _ _ p1 H1 Hv) as (p2 & E2 & H2). exists p2. split; [done|]. by rewrite H2, <- app_assoc.
Qed.

(** *** Lines *)

Definition one_line (s : gostring) : Prop := Forall (fun c => c <> newline) s.
Lemma one_line_forallb s : forallb (fun c => negb (c =? newline)) s = true -> one_line s.
Proof. intros H. apply List.Forall_forall. intros c Hc. eapply forallb_forall in H; [|done]. by apply negb_true_iff, Z.eqb_neq in H. Qed.

Lemma escape_one_line s : one_line s -> one_line (escape s).
Proof.
  induction 1 as [|c s Hc _ IH]; [constructor|]. rewrite escape_cons. apply Forall_app. split; [|done].
  by destruct (c =? space); repeat constructor.
Qed.

Lemma number_one_line n : number n = true -> one_line (FormatInt n).
Proof.
  intros Hn%number_range. destruct (FormatInt_digits n) as [Hd _]; [lia|]. apply List.Forall_forall. intros c Hc.
  eapply forallb_forall in Hd; [|done]. unfold is_digit, between in Hd. unfold newline. lia.
Qed.

Lemma header_one_line h : valid_header h = true -> one_line (format_header h).
Proof.
  intros [[[[H1 H2]%andb_true_iff H3]%andb_true_iff H4]%andb_true_iff H5%one_line_forallb]%andb_true_iff. unfold format_header, one_line in *.
  rewrite !Forall_app. split_and!; try (by apply number_one_line); try (by repeat constructor). destruct (gs_eqb (Header h) []); [constructor|].
  apply Forall_app. split; [by repeat constructor|done].
Qed.

Lemma file_one_lines d : valid_file d = true -> Forall one_line (file_lines d).
Proof.
  intros [[[[Ho%one_line_forallb _]%andb_true_iff Hn%one_line_forallb]%andb_true_iff _]%andb_true_iff Hh]%andb_true_iff.
  constructor.
  - unfold format_names, one_line. rewrite !Forall_app. split_and!; [by apply escape_one_line|by repeat constructor|by apply escape_one_line].
  - assert (forallb valid_hunk (Hunks d) = true) as Hv by (by destruct (Hunks d)). clear Hh.
    induction (Hunks d) as [|h hs IH]; [constructor|]. apply andb_true_iff in Hv as [[Hh Hl]%andb_true_iff Hv]. cbn [map concat].
    apply Forall_app. split; [|by apply IH]. constructor; [by apply header_one_line|]. apply List.Forall_forall. intros line Hin.
    eapply forallb_forall in Hl; [|done]. destruct line as [|c line]; [done|]. apply andb_true_iff in Hl as [_ Hl]. by apply one_line_forallb.
Qed.

Lemma FormatDiffFiles_lines ds :
  FormatDiffFiles ds = concat (map (fun line => line ++ [newline]) (concat (map file_lines ds))).
Proof.
  unfold FormatDiffFiles. induction ds as [|d ds IH]; [done|]. cbn [map concat]. rewrite IH, map_app, concat_app. f_equal.
  unfold file_lines. cbn [map concat]. rewrite <- app_assoc. f_equal. f_equal.
  induction (Hunks d) as [|h hs IHh]; [done|]. cbn [map concat]. rewrite IHh, map_app, concat_app. f_equal.
  unfold format_hunk, hunk_lines. cbn [map concat]. by rewrite <- app_assoc.
Qed.

(** C13: Parsing the textual form of a diff gives its files back, with their names, hunks, headers, counts and lines: for files with at least one hunk, whose old name does not end with a backslash or begin with a character that starts a line of a hunk, and hunks whose lines start with a plus, a minus or a space. *)
Theorem ParseDiffString_FormatDiffFiles ds :
  ds <> [] -> forallb valid_file ds = true -> ParseDiffString (FormatDiffFiles ds) = Ok ds.
Proof.
  intros Hne Hv. unfold ParseDiffString. rewrite FormatDiffFiles_lines, Split_terminated.
  - rewrite diff_lines_app. destruct ds as [|d ds]; [done|]. apply andb_true_iff in Hv as [Hd Hv]. cbn [map concat]. rewrite diff_lines_app.
    unfold file_lines at 1. cbn [diff_lines]. set (p0 := MkParser INIT [] zeroDiff zeroHunk).
    destruct (format_names_head d Hd) as (c & t & E & _). assert (diff_line p0 (format_names d) = set_names p0 (format_names d)) as -> by (by rewrite E).
    pose proof (file_read p0 d Hd eq_refl eq_refl) as H. destruct (set_names p0 _) as [p1|]; [|done]. destruct H as (p2 & -> & Hi).
    destruct (next_files [] d p2 ds Hi Hv) as (p3 & -> & H3). cbn [diff_lines diff_line]. by rewrite H3.
  - clear Hne. induction ds as [|d ds IH]; [constructor|]. apply andb_true_iff in Hv as [Hd Hv]. cbn [map concat]. apply Forall_app.
    split; [by apply file_one_lines|by apply IH].
Qed.

(** ** Examples *)

Definition ex_diff : list DiffFile :=
  [MkDiffFile (str "web app/a.go") (str "web app/b.go") [MkHunk 1 1 3 4 (str "func main()") [str "+x"; str " y"]; MkHunk 10 11 1 0 [] [str "-z"]];
   MkDiffFile (str "c.go") (str "/dev/null") [MkHunk 1 0 1 0 [] [str "-"]]].

Lemma ParseDiffString_witness : ParseDiffString (FormatDiffFiles ex_diff) = Ok ex_diff.
Proof. apply (ParseDiffString_FormatDiffFiles ex_diff); [discriminate|vm_compute; reflexivity]. Defined.

Definition parse_diff (ds : list DiffFile) : option (list DiffFile) :=
  match ParseDiffString (FormatDiffFiles ds) with Ok ds => Some ds | Err _ => None end.
Definition one_hunk : list Hunk := [MkHunk 1 1 1 1 [] [str "+x"]].

(** A file without hunks, such as one that was only renamed, is read with an empty
    hunk, and no other file can follow it. *)
Example ex_no_hunks :
  option_map (map Hunks) (parse_diff [MkDiffFile (str "a") (str "b") []]) = Some [[zeroHunk]] /\
  parse_diff [MkDiffFile (str "a") (str "b") []; MkDiffFile (str "c") (str "c") one_hunk] = None.
Proof. vm_compute. split; reflexivity. Qed.

(** A second file in a directory whose name starts with an at sign is taken for
    the header of a hunk, and one that starts with a plus for a line. *)
Example ex_at_sign :
  parse_diff [MkDiffFile (str "a") (str "a") one_hunk; MkDiffFile (str "@types/b.ts") (str "@types/b.ts") one_hunk] = None /\
  option_map (@length DiffFile) (parse_diff [MkDiffFile (str "a") (str "a") one_hunk; MkDiffFile (str "+b") (str "+b") one_hunk]) = Some 1%nat.
Proof. vm_compute. split; reflexivity. Qed.

(** The empty diff is read as one file without names. *)
Example ex_empty_diff : ParseDiffString [] = Ok [MkDiffFile [] [] [zeroHunk]].
Proof. reflexivity. Qed.
