(* ===== verification/StreamFilters.v ===== *)
(** The filters that are proposed for search results:
    [internal/search/streaming/filters.go], on the heap of the standard library's
    [container/heap].

    The heap is a list; the indices that its operations use are within it, so
    that no access is out of range. *)
From stdpp Require Import sorting.
From S2P Require Import Prelude GoStr GoLib GoMap.
#[local] Open Scope Z_scope.

(** ** container/heap *)
Section Heap.
Context {A : Type} `{!Inhabited A} (less : A -> A -> bool).
Open Scope nat_scope.

Definition less_at (h : list A) (i j : nat) : bool := less (h !!! i) (h !!! j).
Definition swap (h : list A) (i j : nat) : list A := <[i := h !!! j]> (<[j := h !!! i]> h).

(** [(j-1)/2], which is zero for zero. *)
Definition parent (j : nat) : nat := (j - 1) / 2.

Fixpoint up (fuel : nat) (h : list A) (j : nat) : list A :=
  match fuel with
  | O => h
  | S fuel =>
      let i := parent j in
      if (i =? j) || negb (less_at h j i) then h else up fuel (swap h i j) i
  end.

Fixpoint down (fuel : nat) (h : list A) (i n : nat) : list A :=
  match fuel with
  | O => h
  | S fuel =>
      let j1 := 2 * i + 1 in
      if n <=? j1 then h
      else
        let j2 := j1 + 1 in
        let j := if (j2 <? n) && less_at h j2 j1 then j2 else j1 in
        if negb (less_at h j i) then h else down fuel (swap h i j) j n
  end.

(** The slice's [Push], then [up] from the last index. *)
Definition heap_Push (h : list A) (x : A) : list A := up (S (length h)) (h ++ [x]) (length h).

(** [Pop] of the slice drops the last element. *)
Definition heap_Pop (h : list A) : list A :=
  let n := length h - 1 in take n (down (S n) (swap h 0 n) 0 n).
End Heap.

(** ** Filters *)

Record Filter := MkFilter { Value : gostring; Label : gostring; Count : Z; f_IsLimitHit : bool; f_Kind : gostring; important : bool }.
#[export] Instance Filter_inhabited : Inhabited Filter := populate (MkFilter [] [] 0 false [] false).

Definition Filter_Less (f o : Filter) : bool :=
  if negb (eqb (important f) (important o)) then important f
  else if negb (Count f =? Count o) then Count o <? Count f
  else gs_ltb (Value f) (Value o).

Definition filters := gmap gostring Filter.

(** [sf.Count += int(count)] for a filter that is there. *)
Definition filters_Add (m : filters) (value label : gostring) (count : Z) (limitHit : bool) (kind : gostring) : filters :=
  match m !! value with
  | None => <[value := MkFilter value label count limitHit kind false]> m
  | Some sf => <[value := MkFilter (Value sf) (Label sf) (wrap64 (Count sf + count)) (f_IsLimitHit sf) (f_Kind sf) (important sf)]> m
  end.
Definition MarkImportant (m : filters) (value : gostring) : run filters :=
  match m !! value with
  | None => Panics "nil pointer dereference"
  | Some sf => Done (<[value := MkFilter (Value sf) (Label sf) (Count sf) (f_IsLimitHit sf) (f_Kind sf) true]> m)
  end.

Record filterHeap := MkFilterHeap { filterSlice : list Filter; max : Z }.

(** The head of the heap is the least important filter. *)
Definition heap_Less (f o : Filter) : bool := Filter_Less o f.

Definition filterHeap_Add (h : filterHeap) (f : Filter) : filterHeap :=
  if Z.of_nat (length (filterSlice h)) <? max h then MkFilterHeap (heap_Push heap_Less (filterSlice h) f) (max h)
  else if (0 <? max h) && Filter_Less f (filterSlice h !!! 0%nat) then
    MkFilterHeap (heap_Push heap_Less (heap_Pop heap_Less (filterSlice h)) f) (max h)
  else h.

Record computeOpts := MkOpts { MaxRepos : Z; MaxOther : Z }.

Section Compute.
Context {G : GoRuntime}.

Definition compute_step (heaps : filterHeap * filterHeap) (f : Filter) : filterHeap * filterHeap :=
  if gs_eqb (f_Kind f) (str "repo") then (filterHeap_Add heaps.1 f, heaps.2) else (heaps.1, filterHeap_Add heaps.2 f).

Definition filters_Compute (n : nat) (m : filters) (opts : computeOpts) : list Filter :=
  let heaps := fold_left compute_step (map snd (map_range n m)) (MkFilterHeap [] (MaxRepos opts), MkFilterHeap [] (MaxOther opts)) in
  sort_slice Filter_Less (filterSlice heaps.1 ++ filterSlice heaps.2).
End Compute.

(** ** The heap's order *)
Section HeapFacts.
Context {A : Type} `{!Inhabited A} (less : A -> A -> bool) `{!StrictWeak less}.
Open Scope nat_scope.
Implicit Types h : list A.

Lemma swap_lookup h i j k : i < length h -> j < length h ->
  swap h i j !!! k = if k =? i then h !!! j else if k =? j then h !!! i else h !!! k.
Proof.
  intros Hi Hj. unfold swap. destruct (Nat.eqb_spec k i) as [->|].
  - rewrite list_lookup_total_insert_eq; [done|]. by rewrite length_insert.
  - rewrite list_lookup_total_insert_ne by done. destruct (Nat.eqb_spec k j) as [->|]; [by rewrite list_lookup_total_insert_eq|].
    by rewrite list_lookup_total_insert_ne.
Qed.
Lemma swap_length h i j : length (swap h i j) = length h.
Proof. unfold swap. by rewrite !length_insert. Qed.
Lemma swap_perm h i j : i < length h -> j < length h -> swap h i j ≡ₚ h.
Proof.
  intros Hi Hj. unfold swap. apply Permutation_insert_swap; by rewrite list_lookup_lookup_total_lt.
Qed.

(** The element at [k] is not less than the one at its parent. *)
Definition ordered h k : Prop := less (h !!! k) (h !!! parent k) = false.
(** ... among the first [n]. *)
Definition heap h n : Prop := forall k, 0 < k < n -> ordered h k.

Lemma parent_lt k : 0 < k -> parent k < k.
Proof. intros Hk. unfold parent. pose proof (Nat.Div0.div_le_upper_bound (k - 1) 2 (k - 1)). lia. Qed.
Lemma parent_child k i : 0 < k -> parent k = i <-> k = 2 * i + 1 \/ k = 2 * i + 2.
Proof. intros Hk. unfold parent. pose proof (Nat.div_mod_eq (k - 1) 2). pose proof (Nat.mod_upper_bound (k - 1) 2). lia. Qed.

Lemma heap_root h n k : heap h n -> k < n -> less (h !!! k) (h !!! 0) = false.
Proof.
  intros Hh. induction k as [k IH] using lt_wf_ind. intros Hk. destruct (decide (k = 0)) as [->|]; [apply less_irrefl|].
  pose proof (parent_lt k). apply (less_incomparable _ (h !!! parent k)); [apply Hh; lia|apply IH; lia].
Qed.

(** All but the element at [j] are in order, and its children with its parent. *)
Definition heap_but h n j : Prop :=
  (forall k, 0 < k < n -> k <> j -> ordered h k) /\
  (forall k, 0 < k < n -> parent k = j -> 0 < j -> less (h !!! k) (h !!! parent j) = false).

Lemma heap_but_swap h n j : n <= length h -> 0 < j < n -> heap_but h n j -> less_at less h j (parent j) = true ->
  heap_but (swap h (parent j) j) n (parent j).
Proof.
  intros Hn Hj [H1 H2] Hl. unfold less_at in Hl. pose proof (parent_lt j ltac:(lia)) as Hp. split.
  - intros k Hk Hne. unfold ordered. rewrite !swap_lookup by lia. pose proof (parent_lt k ltac:(lia)).
    rewrite (proj2 (Nat.eqb_neq k (parent j))) by done. destruct (Nat.eqb_spec k j) as [->|Hkj].
    + rewrite Nat.eqb_refl. by apply less_asym.
    + destruct (Nat.eqb_spec (parent k) (parent j)) as [E|E].
      * apply not_true_iff_false. intros Hkj'. specialize (H1 k Hk Hkj). unfold ordered in H1. rewrite E in H1.
        by rewrite (less_trans _ (h !!! j)) in H1.
      * destruct (Nat.eqb_spec (parent k) j) as [Ej|]; [by apply H2; [| |lia]|]. by apply H1.
  - intros k Hk E Hpos. rewrite !swap_lookup by lia. pose proof (parent_lt (parent j) Hpos).
    rewrite (proj2 (Nat.eqb_neq (parent (parent j)) (parent j))), (proj2 (Nat.eqb_neq (parent (parent j)) j)) by lia.
    pose proof (parent_lt k ltac:(lia)). rewrite (proj2 (Nat.eqb_neq k (parent j))) by lia.
    pose proof (H1 (parent j) ltac:(lia) ltac:(lia)) as Hpj. destruct (Nat.eqb_spec k j) as [->|Hkj]; [exact Hpj|].
    apply (less_incomparable _ (h !!! parent j)); [|exact Hpj]. specialize (H1 k Hk Hkj). unfold ordered in H1. by rewrite E in H1.
Qed.

Lemma up_heap fuel h j : j < fuel -> j < length h -> heap_but h (length h) j ->
  heap (up less fuel h j) (length h) /\ up less fuel h j ≡ₚ h.
Proof.
  revert h j. induction fuel as [|fuel IH]; intros h j Hf Hj Hb; [lia|]. cbn [up].
  destruct (Nat.eqb_spec (parent j) j) as [E|E]; cbn [orb].
  { split; [|done]. intros k Hk. apply Hb; [done|]. intros ->. pose proof (parent_lt j). lia. }
  assert (0 < j) as Hpos by (destruct j; [done|lia]). pose proof (parent_lt j Hpos).
  destruct (less_at less h j (parent j)) eqn:El; cbn [negb].
  - destruct (IH (swap h (parent j) j) (parent j)) as [H1 H2]; [lia|rewrite swap_length; lia|rewrite swap_length; by apply heap_but_swap|].
    rewrite swap_length in H1. split; [done|]. rewrite H2. apply swap_perm; lia.
  - split; [|done]. intros k Hk. destruct (decide (k = j)) as [->|]; [exact El|by apply Hb].
Qed.

Lemma heap_Push_heap h x : heap h (length h) -> heap (heap_Push less h x) (S (length h)) /\ heap_Push less h x ≡ₚ x :: h.
Proof.
  intros Hh. unfold heap_Push. assert (length (h ++ [x]) = S (length h)) as Hl by (rewrite length_app; simpl; lia).
  destruct (up_heap (S (length h)) (h ++ [x]) (length h)) as [H1 H2]; [lia|lia| |].
  - rewrite Hl. split.
    + intros k Hk Hne. unfold ordered. pose proof (parent_lt k ltac:(lia)). rewrite !lookup_total_app_l by lia. apply Hh. lia.
    + intros k Hk E. pose proof (parent_lt k ltac:(lia)). lia.
  - rewrite Hl in H1. split; [done|]. rewrite H2, Permutation_app_comm. done.
Qed.

(** All but the children of [i] are in order, and those with its parent. *)
Definition heap_below h n i : Prop :=
  (forall k, 0 < k < n -> parent k <> i -> ordered h k) /\
  (forall k, 0 < k < n -> parent k = i -> 0 < i -> less (h !!! k) (h !!! parent i) = false).

(** The child that [down] compares. *)
Definition child h i n : nat := if (2 * i + 1 + 1 <? n) && less_at less h (2 * i + 1 + 1) (2 * i + 1) then 2 * i + 1 + 1 else 2 * i + 1.

Lemma child_spec h i n : 2 * i + 1 < n ->
  parent (child h i n) = i /\ i < child h i n < n /\ forall k, 0 < k < n -> parent k = i -> less (h !!! k) (h !!! child h i n) = false.
Proof.
  intros Hn. unfold child, less_at. destruct (Nat.ltb_spec (2 * i + 1 + 1) n) as [H2|H2]; cbn [andb].
  - destruct (less (h !!! (2 * i + 1 + 1)) (h !!! (2 * i + 1))) eqn:El; (split_and!; [apply parent_child; lia|lia|lia|]);
      intros k Hk [->| ->]%parent_child; try lia; try apply less_irrefl; replace (2 * i + 2) with (2 * i + 1 + 1) in * by lia.
    + by apply less_asym.
    + apply less_irrefl.
    + done.
  - split_and!; [apply parent_child; lia|lia|lia|]. intros k Hk [->| ->]%parent_child; [apply less_irrefl|lia|lia].
Qed.

Lemma heap_below_stop h n i : heap_below h n i -> (forall k, 0 < k < n -> parent k = i -> less (h !!! k) (h !!! i) = false) -> heap h n.
Proof.
  intros [H1 _] H2 k Hk. destruct (decide (parent k = i)) as [E|]; [|by apply H1]. unfold ordered. rewrite E. by apply H2.
Qed.

Lemma heap_below_swap h n i : n <= length h -> 2 * i + 1 < n -> heap_below h n i -> less (h !!! child h i n) (h !!! i) = true ->
  heap_below (swap h i (child h i n)) n (child h i n).
Proof.
  intros Hn Hi [H1 H2] Hl. destruct (child_spec h i n Hi) as (Hp & Hc & Hmin). set (j := child h i n) in *. split.
  - intros k Hk Hne. unfold ordered. rewrite !swap_lookup by lia. pose proof (parent_lt k ltac:(lia)).
    rewrite (proj2 (Nat.eqb_neq (parent k) j)) by done. destruct (Nat.eqb_spec (parent k) i) as [E|E].
    + rewrite (proj2 (Nat.eqb_neq k i)) by lia. destruct (Nat.eqb_spec k j) as [->|]; [by apply less_asym|]. by apply Hmin.
    + destruct (Nat.eqb_spec k i) as [->|]; [apply H2; [lia|done|lia]|]. destruct (Nat.eqb_spec k j) as [->|]; [done|]. by apply H1.
  - intros k Hk E _. rewrite !swap_lookup by lia. rewrite Hp, Nat.eqb_refl. pose proof (parent_lt k ltac:(lia)).
    rewrite (proj2 (Nat.eqb_neq k i)), (proj2 (Nat.eqb_neq k j)) by lia. specialize (H1 k Hk ltac:(lia)). unfold ordered in H1. by rewrite E in H1.
Qed.

Lemma down_heap fuel h i n : n < fuel + i -> n <= length h -> heap_below h n i -> i < n \/ n = 0 ->
  heap (down less fuel h i n) n /\ down less fuel h i n ≡ₚ h /\ (forall k, n <= k -> down less fuel h i n !!! k = h !!! k).
Proof.
  revert h i. induction fuel as [|fuel IH]; intros h i Hf Hn Hb Hi; [split_and!; [intros k; lia|done|done]|]. cbn [down]. destruct (Nat.leb_spec n (2 * i + 1)) as [Hs|Hs].
  { split_and!; [|done|done]. apply (heap_below_stop h n i Hb). intros k Hk [?|?]%parent_child; lia. }
  fold (child h i n). destruct (child_spec h i n Hs) as (Hp & Hc & Hmin).
  change (less_at less h (child h i n) i) with (less (h !!! child h i n) (h !!! i)).
  destruct (less (h !!! child h i n) (h !!! i)) eqn:El; cbn [negb].
  - destruct (IH (swap h i (child h i n)) (child h i n)) as (H1 & H2 & H3); [lia|by rewrite swap_length|by apply heap_below_swap|lia|].
    split; [exact H1|split].
    + etrans; [exact H2|]. apply swap_perm; lia.
    + intros k Hk. rewrite H3 by done. rewrite swap_lookup by lia. by rewrite (proj2 (Nat.eqb_neq k i)), (proj2 (Nat.eqb_neq k _)) by lia.
  - split_and!; [|done|done]. apply (heap_below_stop h n i Hb). intros k Hk E. eapply less_incomparable; [by apply Hmin|done].
Qed.

Lemma heap_Pop_heap h : h <> [] -> heap h (length h) ->
  heap (heap_Pop less h) (length h - 1) /\ length (heap_Pop less h) = length h - 1 /\ h ≡ₚ (h !!! 0) :: heap_Pop less h.
Proof.
  intros Hne Hh. unfold heap_Pop. set (n := length h - 1). assert (length h = S n) as Hl by (destruct h; [done|simpl in *; lia]).
  destruct (down_heap (S n) (swap h 0 n) 0 n) as (H1 & H2 & H3); [lia|rewrite swap_length; lia| |lia|].
  - split; [|lia]. intros k Hk Hp. unfold ordered. rewrite !swap_lookup by lia. pose proof (parent_lt k ltac:(lia)).
    rewrite (proj2 (Nat.eqb_neq (parent k) 0)), (proj2 (Nat.eqb_neq k 0)), (proj2 (Nat.eqb_neq k n)), (proj2 (Nat.eqb_neq (parent k) n)) by lia.
    apply Hh. lia.
  - set (d := down less (S n) (swap h 0 n) 0 n) in *. assert (length d = S n) as Hd by (by rewrite H2, swap_length).
    assert (forall k, k < n -> take n d !!! k = d !!! k) as Ht by (intros k Hk; rewrite !list_lookup_total_alt, lookup_take_lt by done; done).
    split_and!.
    + intros k Hk. unfold ordered. pose proof (parent_lt k ltac:(lia)). rewrite !Ht by lia. by apply H1.
    + rewrite length_take. lia.
    + rewrite <- (swap_perm h 0 n) at 1 by lia. rewrite <- H2. rewrite <- (take_drop n d) at 1.
      assert (drop n d = [h !!! 0]) as ->; [|by rewrite Permutation_app_comm].
      destruct (drop n d) as [|x t] eqn:E; [apply (f_equal length) in E; rewrite length_drop in E; simpl in E; lia|].
      assert (length (x :: t) = 1) as Ht1 by (rewrite <- E, length_drop; lia). destruct t; [|simpl in Ht1; lia]. f_equal.
      assert (d !!! n = x) as <-. { rewrite list_lookup_total_alt. assert (d !! n = Some x) as ->; [|done].
        replace n with (n + 0) by lia. by rewrite <- lookup_drop, E. }
      rewrite H3 by lia. rewrite swap_lookup by lia. destruct n; [done|]. by rewrite Nat.eqb_refl.
Qed.
End HeapFacts.

(** ** The most important ones *)
Section Top.
Context {A : Type} `{!Inhabited A} (less : A -> A -> bool) `{!StrictWeak less}.
Open Scope nat_scope.

(** The heap that keeps the first ones of an order has the last one on top. *)
Definition flipped (a b : A) : bool := less b a.
#[export] Instance flipped_strict_weak : StrictWeak flipped.
Proof.
  unfold flipped. split; [apply less_irrefl|intros a b c H1 H2; by apply (less_trans _ b)|intros a b c H1 H2; by apply (less_incomparable _ b)].
Qed.

Definition top (k : nat) (l : list A) : list A := take k (insertion_sort less l).

Lemma insert_top s f k r : ascending less s -> s !! k = Some r ->
  (less f r = true -> take (S k) (insert_sorted less f s) ≡ₚ f :: take k s) /\
  (less r f = true -> take (S k) (insert_sorted less f s) = take (S k) s).
Proof.
  intros Hs. revert k. induction Hs as [|y s Hs IH Hy]; intros k Hr; [done|]. cbn [insert_sorted].
  destruct (less y f) eqn:E.
  - cbn [take]. destruct k as [|k].
    + simpl in Hr. simplify_eq. split; [|done]. intros H. by rewrite (less_asym _ _ _ E) in H.
    + destruct (IH k Hr) as [H1 H2]. split; [intros H; by rewrite (H1 H), Permutation_swap|intros H; by rewrite (H2 H)].
  - split; [done|]. intros H. exfalso. assert (less r y = false) as Hry.
    { destruct k as [|k]; [simpl in Hr; simplify_eq; apply less_irrefl|]. rewrite Forall_forall in Hy. apply Hy. by eapply list_elem_of_lookup_2. }
    by rewrite (less_incomparable r y f Hry E) in H.
Qed.

(** No two of the elements are of the same rank. *)
Definition distinct_on (U : list A) : Prop := forall a b, a ∈ U -> b ∈ U -> less a b = false -> less b a = false -> a = b.

Lemma sorted_unique l k : ascending less l -> ascending less k -> l ≡ₚ k -> distinct_on l -> l = k.
Proof.
  intros Hl Hk Hp Hd. apply (StronglySorted_unique_strong (fun a b => less b a = false)); [|done..].
  intros a b Ha Hb H1 H2. apply Hd; [done|by rewrite Hp|done..].
Qed.

(** [h] holds the [k] most important ones of [seen]. *)
Definition holds (k : nat) (h seen : list A) : Prop := heap flipped h (length h) /\ h ≡ₚ top k seen.

Lemma top_few k l : length l <= k -> top k l = insertion_sort less l.
Proof. intros H. unfold top. apply take_ge. by rewrite insertion_sort_perm. Qed.

Lemma holds_length k h seen : holds k h seen -> length h = Nat.min k (length seen).
Proof. intros [_ Hp]. rewrite Hp. unfold top. by rewrite length_take, insertion_sort_perm. Qed.

Lemma holds_push k h seen f : holds k h seen -> length h < k -> holds k (heap_Push flipped h f) (f :: seen).
Proof.
  intros Hh Hlt. pose proof (holds_length _ _ _ Hh) as Hl. destruct Hh as [Hh Hp]. destruct (heap_Push_heap flipped h f Hh) as [H1 H2]. split.
  - assert (length (heap_Push flipped h f) = S (length h)) as -> by (by rewrite H2). done.
  - rewrite H2, Hp. rewrite !top_few by (simpl; lia). simpl. by rewrite insert_sorted_perm.
Qed.

Lemma top_elem k seen x : x ∈ top k seen -> x ∈ seen.
Proof.
  unfold top. intros Hx. rewrite <- (insertion_sort_perm less). rewrite <- (take_drop k (insertion_sort less seen)).
  apply elem_of_app. by left.
Qed.

Lemma ascending_last l r x : ascending less (l ++ [r]) -> x ∈ l ++ [r] -> less r x = false.
Proof.
  induction l as [|y l IH]; simpl; intros Hs Hx.
  - apply list_elem_of_singleton in Hx as ->. apply less_irrefl.
  - inversion_clear Hs as [|? ? Hs' Hy]. apply elem_of_cons in Hx as [->|Hx]; [|by apply IH].
    rewrite Forall_forall in Hy. apply Hy, elem_of_app. right. by left.
Qed.

(** The root of a full heap is the last one of those that are kept. *)
Lemma holds_root k h seen : holds (S k) h seen -> length h = S k -> distinct_on seen ->
  insertion_sort less seen !! k = Some (h !!! 0) /\ h ≡ₚ (h !!! 0) :: take k (insertion_sort less seen).
Proof.
  intros Hh Hl Hd. pose proof (holds_length _ _ _ Hh) as Hlen. destruct Hh as [Hh Hp]. set (s := insertion_sort less seen) in *.
  assert (s ≡ₚ seen) as Hs by apply insertion_sort_perm. assert (ascending less s) as Hasc by (apply insertion_sort_ascending, _).
  destruct (lookup_lt_is_Some_2 s k) as [r Hr]; [rewrite Hs; lia|]. assert (top (S k) seen = take k s ++ [r]) as Et by (by apply take_S_r).
  assert (h !!! 0 ∈ h) as Hin0. { apply (list_elem_of_lookup_2 _ 0). apply list_lookup_lookup_total_lt. lia. }
  assert (r ∈ h) as Hinr by (rewrite Hp, Et; apply elem_of_app; right; by left).
  assert (r = h !!! 0) as ->; [|split; [done|]; by rewrite Hp, Et, Permutation_app_comm at 1].
  apply Hd; [apply (top_elem (S k)); by rewrite <- Hp..| |].
  - apply (ascending_last (take k s)); [|by rewrite <- Et, <- Hp]. rewrite <- Et. unfold top. fold s.
    eapply StronglySorted_sublist; [apply sublist_take|done].
  - apply list_elem_of_lookup in Hinr as [i Hi]. pose proof (lookup_lt_Some _ _ _ Hi). apply list_lookup_total_correct in Hi. rewrite <- Hi.
    by apply (heap_root flipped h (length h) i).
Qed.

Lemma holds_replace k h seen f : holds (S k) h seen -> length h = S k -> distinct_on seen -> less f (h !!! 0) = true ->
  holds (S k) (heap_Push flipped (heap_Pop flipped h) f) (f :: seen).
Proof.
  intros Hh Hl Hd Hf. destruct (holds_root k h seen Hh Hl Hd) as [Hr Hp]. destruct Hh as [Hh _].
  destruct (heap_Pop_heap flipped h) as (H1 & H2 & H3); [by destruct h|done|].
  rewrite <- H2 in H1. destruct (heap_Push_heap flipped (heap_Pop flipped h) f H1) as [H4 H5]. split.
  - assert (length (heap_Push flipped (heap_Pop flipped h) f) = S (length (heap_Pop flipped h))) as -> by (by rewrite H5). done.
  - rewrite H5. unfold top. simpl insertion_sort. rewrite (proj1 (insert_top _ f k _ (insertion_sort_ascending less seen) Hr) Hf). f_equiv.
    rewrite H3 in Hp at 1. by apply Permutation_cons_inv in Hp.
Qed.

Lemma holds_keep k h seen f : holds (S k) h seen -> length h = S k -> distinct_on (f :: seen) -> f ∉ seen -> less f (h !!! 0) = false ->
  holds (S k) h (f :: seen).
Proof.
  intros Hh Hl Hd Hnin Hf. assert (distinct_on seen) as Hd' by (intros a b Ha Hb; apply Hd; by right).
  destruct (holds_root k h seen Hh Hl Hd') as [Hr Hp]. destruct Hh as [Hh Hp']. split; [done|].
  assert (h !!! 0 ∈ seen) as Hin. { rewrite <- (insertion_sort_perm less seen). by eapply list_elem_of_lookup_2. }
  assert (less (h !!! 0) f = true) as Hrf.
  { destruct (less (h !!! 0) f) eqn:E; [done|]. destruct Hnin. rewrite (Hd f (h !!! 0)); [done|left|by right|done..]. }
  unfold top. simpl insertion_sort. by rewrite (proj2 (insert_top _ f k _ (insertion_sort_ascending less seen) Hr) Hrf).
Qed.
End Top.

(** ** Which filters are proposed *)

(** The first two criteria as numbers: the lower, the more important. *)
Definition rank (f : Filter) : Z * Z := (if important f then 0 else 1, - Count f).
Definition rank_lt (a b : Filter) : Prop := (rank a).1 < (rank b).1 \/ (rank a).1 = (rank b).1 /\ (rank a).2 < (rank b).2.

Lemma Filter_Less_spec a b :
  Filter_Less a b = true <-> rank_lt a b \/ rank a = rank b /\ gs_ltb (Value a) (Value b) = true.
Proof.
  unfold Filter_Less, rank_lt, rank. cbn [fst snd].
  destruct (important a), (important b), (Z.eqb_spec (Count a) (Count b)) as [E|E]; cbn [eqb negb];
    rewrite ?E, ?Z.ltb_lt; intuition (lia || congruence || (injection H; lia)).
Qed.

Lemma Filter_Less_false a b :
  Filter_Less a b = false <-> ~ rank_lt a b /\ (rank a = rank b -> gs_ltb (Value a) (Value b) = false).
Proof.
  rewrite <- not_true_iff_false, Filter_Less_spec. destruct (gs_ltb (Value a) (Value b)); intuition congruence.
Qed.

Lemma rank_total a b : rank a = rank b \/ rank_lt a b \/ rank_lt b a.
Proof. unfold rank_lt. destruct (rank a) as [x y], (rank b) as [x' y']. cbn [fst snd]. destruct (decide (x = x' /\ y = y')) as [[-> ->]|]; [by left|lia]. Qed.
Lemma rank_lt_trans a b c : rank_lt a b -> rank_lt b c -> rank_lt a c.
Proof. unfold rank_lt. lia. Qed.
Lemma rank_lt_irrefl a : ~ rank_lt a a.
Proof. unfold rank_lt. lia. Qed.
Lemma rank_lt_eq a b c d : rank a = rank b -> rank c = rank d -> rank_lt a c -> rank_lt b d.
Proof. unfold rank_lt. by intros -> ->. Qed.

#[export] Instance Filter_Less_strict_weak : StrictWeak Filter_Less.
Proof.
  split.
  - intros a. apply Filter_Less_false. split; [apply rank_lt_irrefl|]. intros _. apply gs_ltb_irrefl.
  - intros a b c. rewrite !Filter_Less_spec. intros [H1|[E1 H1]] [H2|[E2 H2]].
    + left. by apply (rank_lt_trans a b c).
    + left. by apply (rank_lt_eq a a b c).
    + left. by apply (rank_lt_eq b a c c).
    + right. split; [congruence|]. by apply (gs_ltb_trans _ (Value b)).
  - intros a b c. rewrite !Filter_Less_false. intros [N1 V1] [N2 V2]. split.
    + intros H. destruct (rank_total a b) as [E|[E|E]]; [|done|].
      * apply N2. by apply (rank_lt_eq a b c c).
      * apply N2. by apply (rank_lt_trans b a c).
    + intros E. destruct (rank_total a b) as [E'|[E'|E']]; [|done|].
      * specialize (V1 E'). specialize (V2 ltac:(congruence)). apply not_true_iff_false. intros H3.
        destruct (gs_ltb_total (Value a) (Value b)) as [Ev|[Ev|Ev]]; [rewrite Ev in H3; congruence|congruence|].
        by rewrite (gs_ltb_trans _ _ _ Ev H3) in V2.
      * destruct N2. by apply (rank_lt_eq b b a c).
Qed.

(** Every filter is stored under its value. *)
Definition keyed (m : filters) : Prop := forall k f, m !! k = Some f -> Value f = k.

Lemma keyed_insert m k f : keyed m -> Value f = k -> keyed (<[k := f]> m).
Proof. intros Hm Hf k' f' [[<- <-]|[_ H]]%lookup_insert_Some; [done|by apply Hm]. Qed.

Lemma filters_Add_keyed m value label count limitHit kind : keyed m -> keyed (filters_Add m value label count limitHit kind).
Proof. intros Hm. unfold filters_Add. destruct (m !! value) as [sf|] eqn:E; apply keyed_insert; try done. simpl. by apply Hm. Qed.

Lemma MarkImportant_keyed m value : keyed m -> is_Some (m !! value) -> returns (MarkImportant m value) keyed.
Proof. intros Hm [sf E]. unfold MarkImportant. rewrite E. apply returns_done, keyed_insert; [done|]. simpl. by apply Hm. Qed.

Definition all_filters (m : filters) : list Filter := (map_to_list m).*2.

Lemma keyed_distinct m : keyed m -> distinct_on Filter_Less (all_filters m) /\ NoDup (all_filters m).
Proof.
  intros Hm. assert (forall f, f ∈ all_filters m -> m !! Value f = Some f) as Hv.
  { intros f ([k f'] & -> & Hin)%list_elem_of_fmap. apply elem_of_map_to_list in Hin. cbn [snd]. by rewrite (Hm k f' Hin). }
  split.
  - intros a b Ha%Hv Hb%Hv [N1 V1]%Filter_Less_false [N2 V2]%Filter_Less_false. destruct (rank_total a b) as [E|[?|?]]; [|done..].
    specialize (V1 E). specialize (V2 (eq_sym E)). destruct (gs_ltb_total (Value a) (Value b)) as [Ev|[?|?]]; congruence.
  - apply (NoDup_fmap_1 Value). assert (Value <$> all_filters m = (map_to_list m).*1) as ->; [|apply NoDup_fst_map_to_list].
    unfold all_filters. rewrite <- list_fmap_compose. apply Forall_fmap_ext_1, Forall_forall. intros [k f] Hin%elem_of_map_to_list. by apply Hm.
Qed.

Lemma distinct_on_sub U V : (forall x, x ∈ V -> x ∈ U) -> distinct_on Filter_Less U -> distinct_on Filter_Less V.
Proof. intros Hs Hd a b Ha Hb. apply Hd; by apply Hs. Qed.

(** A heap of at most [k] filters. *)
Definition keeps (h : filterHeap) (k : Z) (seen : list Filter) : Prop :=
  max h = k /\ holds Filter_Less (Z.to_nat k) (filterSlice h) seen.

Lemma filterHeap_Add_keeps h k seen f : keeps h k seen -> distinct_on Filter_Less (f :: seen) -> f ∉ seen -> keeps (filterHeap_Add h f) k (f :: seen).
Proof.
  intros [Hmax Hh] Hd Hf. unfold filterHeap_Add. rewrite Hmax. pose proof (holds_length _ _ _ _ Hh) as Hl.
  destruct (Z.ltb_spec (Z.of_nat (length (filterSlice h))) k) as [Hlt|Hge].
  { split; [done|]. apply (holds_push Filter_Less); [done|lia]. }
  destruct (Z.ltb_spec 0 k) as [Hk|Hk]; cbn [andb].
  - assert (exists k', Z.to_nat k = S k') as [k' Ek] by (exists (Z.to_nat k - 1)%nat; lia). rewrite Ek in *.
    assert (length (filterSlice h) = S k') as Hfull by lia.
    destruct (Filter_Less f (filterSlice h !!! 0%nat)) eqn:Ef.
    + split; [done|]. rewrite Ek. apply (holds_replace Filter_Less); [done..| |done]. apply (distinct_on_sub (f :: seen)); [by right|done].
    + split; [done|]. rewrite Ek. by apply (holds_keep Filter_Less).
  - split; [done|]. destruct Hh as [H1 H2]. split; [done|]. replace (Z.to_nat k) with 0%nat in * by lia. done.
Qed.

Lemma filterHeap_fold fs : forall h k seen, keeps h k seen -> NoDup (fs ++ seen) -> distinct_on Filter_Less (fs ++ seen) ->
  exists seen', keeps (fold_left filterHeap_Add fs h) k seen' /\ seen' ≡ₚ fs ++ seen.
Proof.
  induction fs as [|f fs IH]; intros h k seen Hk Hnd Hd; [by exists seen|]. cbn [fold_left app] in *. apply NoDup_cons in Hnd as [Hf Hnd].
  destruct (IH (filterHeap_Add h f) k (f :: seen)) as (seen' & H1 & H2).
  - apply filterHeap_Add_keeps; [done| |set_solver]. eapply distinct_on_sub; [|exact Hd]. set_solver.
  - rewrite <- Permutation_middle. by constructor.
  - eapply distinct_on_sub; [|exact Hd]. intros x. rewrite <- Permutation_middle. done.
  - exists seen'. split; [done|]. by rewrite H2, <- Permutation_middle.
Qed.

Lemma compute_fold fs h1 h2 :
  let repo f := gs_eqb (f_Kind f) (str "repo") in
  fold_left compute_step fs (h1, h2) =
  (fold_left filterHeap_Add (List.filter repo fs) h1, fold_left filterHeap_Add (List.filter (fun f => negb (repo f)) fs) h2).
Proof.
  cbn zeta. revert h1 h2. induction fs as [|f fs IH]; intros h1 h2; [done|]. cbn [fold_left List.filter]. unfold compute_step at 2. cbn [fst snd].
  destruct (gs_eqb (f_Kind f) (str "repo")); cbn [negb]; by rewrite IH.
Qed.

Definition is_repo (f : Filter) : bool := gs_eqb (f_Kind f) (str "repo").
(** The filters to propose: the most important ones of each kind. *)
Definition proposed (m : filters) (opts : computeOpts) : list Filter :=
  insertion_sort Filter_Less
    (top Filter_Less (Z.to_nat (MaxRepos opts)) (List.filter is_repo (all_filters m)) ++
     top Filter_Less (Z.to_nat (MaxOther opts)) (List.filter (fun f => negb (is_repo f)) (all_filters m))).

Lemma top_perm k l l' : l ≡ₚ l' -> distinct_on Filter_Less l -> top Filter_Less k l = top Filter_Less k l'.
Proof.
  intros Hp Hd. unfold top. f_equal. apply (sorted_unique Filter_Less); try apply insertion_sort_ascending, _.
  - by rewrite !insertion_sort_perm.
  - eapply distinct_on_sub; [|exact Hd]. intros x. by rewrite insertion_sort_perm.
Qed.

Lemma heap_top fs k : NoDup fs -> distinct_on Filter_Less fs ->
  filterSlice (fold_left filterHeap_Add fs (MkFilterHeap [] k)) ≡ₚ top Filter_Less (Z.to_nat k) fs.
Proof.
  intros Hnd Hd. destruct (filterHeap_fold fs (MkFilterHeap [] k) k []) as (seen & [_ [_ Hs]] & Hp).
  - split; [done|]. split; [intros i Hi; simpl in Hi; lia|]. unfold top. simpl. by rewrite take_nil.
  - by rewrite app_nil_r.
  - by rewrite app_nil_r.
  - rewrite app_nil_r in Hp. rewrite Hs. rewrite (top_perm _ seen fs); [done|done|]. eapply distinct_on_sub; [|exact Hd]. intros x. by rewrite Hp.
Qed.

Lemma filter_perm (p : Filter -> bool) l k : l ≡ₚ k -> List.filter p l ≡ₚ List.filter p k.
Proof.
  induction 1 as [|x l k _ IH|x y l|l k j _ IH1 _ IH2]; simpl; [done|destruct (p x); by rewrite IH| |by etrans].
  destruct (p x), (p y); [apply Permutation_swap|done..].
Qed.
Lemma filter_sub (p : Filter -> bool) l x : x ∈ List.filter p l -> x ∈ l.
Proof. intros [? _]%list_elem_of_In%filter_In. by apply list_elem_of_In. Qed.
Lemma filter_NoDup (p : Filter -> bool) l : NoDup l -> NoDup (List.filter p l).
Proof. intros H%NoDup_ListNoDup. by apply NoDup_ListNoDup, List.NoDup_filter. Qed.

(** C12: The filters that are proposed are the most important ones of each kind, in order, whatever the order in which the map is visited: keeping them in a bounded heap gives the same as sorting all of them and taking the first.  The more important ones come first, then those with the higher count, then in alphabetical order. *)
Theorem filters_Compute_correct {G : GoRuntime} (n : nat) (m : filters) (opts : computeOpts) :
  keyed m -> filters_Compute n m opts = proposed m opts.
Proof.
  intros Hm. destruct (keyed_distinct m Hm) as [Hd Hnd]. unfold filters_Compute, proposed. rewrite compute_fold. cbn [fst snd].
  fold is_repo. set (fs := map snd (map_range n m)). assert (fs ≡ₚ all_filters m) as Hp.
  { unfold fs, all_filters. change (map snd) with (fmap (M := list) (@snd gostring Filter)). by rewrite map_range_perm. }
  assert (NoDup fs) as Hnd' by (by rewrite Hp). assert (distinct_on Filter_Less fs) as Hd' by (eapply distinct_on_sub; [|exact Hd]; intros x; by rewrite Hp).
  assert (forall p k, filterSlice (fold_left filterHeap_Add (List.filter p fs) (MkFilterHeap [] k)) ≡ₚ
    top Filter_Less (Z.to_nat k) (List.filter p (all_filters m))) as Htop.
  { intros p k. assert (distinct_on Filter_Less (List.filter p fs)) as Hdp by (eapply distinct_on_sub; [|exact Hd']; apply filter_sub).
    rewrite heap_top by (done || by apply filter_NoDup). by rewrite (top_perm _ _ _ (filter_perm p _ _ Hp)). }
  apply (sorted_unique Filter_Less); [apply sort_slice_ascending, _|apply insertion_sort_ascending, _| |].
  - rewrite sort_slice_perm, insertion_sort_perm, (Htop is_repo), (Htop (fun f => negb (is_repo f))). done.
  - eapply distinct_on_sub; [|exact Hd]. intros x. rewrite sort_slice_perm, (Htop is_repo), (Htop (fun f => negb (is_repo f))), elem_of_app.
    intros [H|H]; apply top_elem, filter_sub in H; done.
Qed.

(** ** Examples *)
Section Examples.
#[local] Instance runtime : GoRuntime := plain_runtime.

Definition ex_filters : filters :=
  let add m p := filters_Add m (str p.1) (str p.1) p.2 false (str "repo") in
  let m := fold_left add [("repo:a", 3); ("repo:b", 7); ("repo:c", 5); ("repo:d", 7); ("repo:a", 1)]%string ∅ in
  match MarkImportant (filters_Add m (str "fork:yes") (str "Include forked repos") 1 false (str "utility")) (str "fork:yes") with
  | Done m => m
  | _ => ∅
  end.
Definition ex_opts : computeOpts := MkOpts 3 2.

Lemma ex_keyed : keyed ex_filters.
Proof. intros k f Hin%elem_of_map_to_list. vm_compute in Hin. apply list_elem_of_In in Hin. simpl in Hin. repeat (destruct Hin as [E|Hin]; [by simplify_eq|]). done. Qed.

Lemma filters_Compute_witness :
  filters_Compute 0 ex_filters ex_opts = proposed ex_filters ex_opts /\
  map (fun f => (Value f, Count f)) (proposed ex_filters ex_opts) =
    [(str "fork:yes", 1); (str "repo:b", 7); (str "repo:d", 7); (str "repo:c", 5)].
Proof. split; [apply (filters_Compute_correct 0 ex_filters ex_opts); exact ex_keyed|vm_compute; reflexivity]. Defined.
End Examples.
